(* ===== verification/_CoqProject ===== *)
-Q . S2P
Prelude.v
Text.v
Sys.v
Net.v
Decl.v
Fabric.v
Child.v
Derive.v
Validate.v
Shape.v
Supervisor.v
NeighTable.v
Announce.v
Decide.v
Passive.v
ProbeFrame.v
EngineState.v
Uplink.v
HostRoutes.v
Rules.v
Legs.v
EngineConf.v
Engine.v
Emit.v
EngineCtl.v
Check.v
Teardown.v
Prober.v
ProberStart.v
Relay.v
Actor.v
Watchdog.v
Apply.v
Cluster.v
ConfSync.v
ShapeDaemon.v
StatusModel.v
Status.v
Metrics.v
Announcers.v
Ticks.v
