(* ===== verification/Prelude.v ===== *)
(** cfab: a verification development of the member daemon.

    cfab (crate at src/) runs one member of a routed fabric: it derives what the member must
    configure from a declaration, builds it ([cfab up]), keeps it built (the forwarding watchdog)
    and takes it away again ([cfab down]), supervises the routing engine, keeps each bond on a wire
    that works, relays DHCP for the workload subnets and writes the neighbours it learns into the
    kernel. This library models the parts that decide, shallowly: a pure function is a function, a
    record that is mutated is threaded through, a task that waits is a state monad over a world, and
    what the kernel, a socket or a third-party crate answers is an argument. Time is a number of
    nanoseconds; integers are [Z] with their width written out where the source relies on it (masks,
    saturating and wrapping subtraction, parse limits).

    Files, in dependency order, and the code each one models:

    - [Prelude]: results with their notation, time, option and list vocabulary named as Rust
      names it, maps in key order, and the tactic [split_bools]; no code of the program.
    - [Text]: Rust's [str] operations, number and error rendering (error.rs).
    - [Net]: bytes, addresses, [Ipv4Prefix] with its mask arithmetic (model.rs).
    - [Decl] (decl.rs): the structures of [fabric.toml] and their defaults.
    - [Fabric] (model.rs): the typed rows, one [Refusal] constructor per worded error, the
      parsers and the look-ups.
    - [Derive] (derive.rs): the rows of one member's [View], preferences, costs, owned
      interfaces, and the search for equal-cost paths with its path counts.
    - [Validate] (model.rs): every block of [Fabric::validate] in the source's order, and
      [Fabric::from_decl].
    - [Sys] (sys.rs): the command monad [IO]. A program is given the host as a function of the
      history so far and returns the history with what it did added ([Action]: a command run, a
      file written or removed, a request, a sleep). Every answer of the host may depend on
      everything done before; nothing else is assumed of it. [emits], [acts] and [phased] are the
      frame, the positional and the ordering logic the command files' theorems are proved with.
    - [Shape] (emit/shape.rs): the HTB tree of one wire, what it degrades to when the floors do
      not fit, the tc program, and the record of what was applied.
    - [Child] (supervisor/child.rs): the state machine of a supervised child and its log ring.
    - [Supervisor] (supervisor/mod.rs): the three children as processes, as steps on a state
      [Sup]: one [Action] per stretch of [run_with], [do_reapply] and [restart_child] between two
      [await]s, with [Die] for the end of a process, which can come between any two of them.
      [Supervisor.run] plays a list of actions and returns the trace of what was done.
    - [NeighTable] (workload/table.rs): the claims DHCP taught the member, one operation per
      method; the mutex is the atomicity of an operation. The table refines [Spec.step], a set
      of claims without a queue; the cap, the order of takes and draining are proved on every
      reachable table.
    - [Announce] (workload/announce.rs): the gratuitous-ARP schedule and frames.
    - [Decide] (prober/decide.rs), [Passive] (prober/passive.rs): which port a bond should be
      on, and what silence means.
    - [ProbeFrame] (prober/frame.rs, prober/bpf.rs): the probe codec, and the classic BPF
      program run by an interpreter whose budget is the program's length.
    - [EngineState] (engine/state.rs): the JSON document the engine publishes and its readers.
    - [Prober] (prober/mod.rs): one tick of a leg and of all legs, observation, judgement,
      asking and moving the bond; [TickIo] holds what the kernel and the engine answered.
    - [ProberStart] (prober/mod.rs, [Prober::from_view]): the legs a prober starts with, their
      ports and the peers each is judged by.
    - [Relay] (workload/relay.rs): the BOOTP view, both forwarding halves, and the relay task
      as steps on its local state, its report and the table.
    - [Actor] (workload/actor.rs, and the argv of workload/writer.rs): the flush actor over an
      [ActorEnv] that moves the clock and admits relayed claims at every point where the task
      reads the clock or takes the lock, so its theorems hold for every interleaving.
    - [Uplink] (workload/uplink.rs): a bridge's ports, lower links, VLAN ids and STP states.
    - [HostRoutes] (workload/hostroutes.rs): the join of neighbours and bridge entries, the
      hold-down, and the tick that tells engine, kernel and nft about the local VMs.
    - [Rules] (commands/common.rs): the routing rules, return defaults, the host default with the
      pins that keep the host reachable, and what other firewalls do to forwarded traffic.
    - [Legs] (workload/leg.rs, the netdev builders of commands/apply.rs, emit/workload.rs and
      wire_drivers.rs): VLANs, bonds and their shape checks, workload legs, the ledger of VLAN
      ids given to bridges, the bridge guard, the record of drivers.
    - [Emit] (emit/policy.rs, emit/mark.rs, emit/ceiling_ipt.rs): the forward policy as rules
      with an evaluator on packets, the MARK rules, the control-plane ceilings, their text.
    - [EngineConf] (emit/engine.rs): the configuration tree of the routing engine from a
      member's view: interfaces and keys, import and export policies with the sets they name,
      the OSPF zones, the BGP neighbours of a gateway.
    - [Engine] (engine/mod.rs, engine/sock.rs, engine/northbound.rs): the engine's request lines,
      the re-commits each of them makes of that tree, and the two-phase commit with its
      providers. Two classes are its interfaces: [Committer], a northbound that takes a tree
      whole or leaves the running one, and [Resolver], a table of devices.
    - [EngineCtl] (commands/engine_ctl.rs): the sweep of the engine's routes, the readback of its
      state, the wait for its interfaces.
    - [Check] (commands/check.rs), [Teardown] (commands/teardown.rs), [Watchdog]
      (commands/fwd_watchdog.rs), [Apply] (commands/apply.rs): the commands, each [run] the whole
      handler in the source's order.
    - [Cluster] (cluster.rs, commands/cluster.rs): the cluster's shared tree, whose answers are a
      function [Fs] of the history, with the conf and its counter, the acks, the cap files, the
      cluster lock; publishing a conf and the status of the cluster.
    - [ConfSync] (commands/conf_sync.rs): the daemon that follows the published conf: a state
      threaded through [IO] that an error leaves as it is at that point ([SIO]), one [tick] per
      second, the class [Applier] that puts a conf in force and its socket instance.
    - [ShapeDaemon] (commands/shape_daemon.rs, caps.rs, commands/measure_cap.rs): the debounce
      over the lines of a link monitor, the reconverge and its record, and the capacities it
      reads, with the command that measures one.
    - [StatusModel] (commands/status/model.rs, supervisor/report.rs): what a status says: the rows
      it reports, the reason lines each of them earns, the verdict on its counts, the text.
    - [Status] (commands/status.rs): one gather of it, a [Gather] being an [IO] with what was found
      so far threaded through, in the order of [read]; the wait; the note on the declaration.
    - [Metrics] (supervisor/metrics.rs): a snapshot as the metric families the collector gives,
      label sets escaped, and the endpoint's answers to a request.
    - [Announcers] (supervisor/workload.rs, workload/neigh.rs): the member's rows of announcers, the
      neighbour subscription with its dump and its re-opening, the FDB poll it falls back to, and
      what every wake-up of them sends.
    - [Ticks] (supervisor/mod.rs): the periodic arms of the supervisor's loop, the watchdog's, the
      prober's, the metrics' and the announcers', over a [Daemon] of what the loop owns and the
      shared state they write.

    How they meet: [Validate.from_decl] resolves a declaration, runs its checks and ends in
    [Derive.validate_derived], so a fabric that exists has passed the gate; [Shape.derive] reads the
    rows of a [Derive.View], and [Supervisor.on_reload] re-reads the declaration through
    [from_decl]. [Supervisor] owns the [Child]s. [Relay.learn] calls [NeighTable.upsert]; the actor
    drains the same [Inner] and is woken by the same permit; [Prober] calls [Decide], [Passive],
    [ProbeFrame] and reads [EngineState] documents. [Apply.run] and [Watchdog.run] build netdevs
    with [Legs] and rules with [Rules], render with [Emit] and judge the engine's document with
    [EngineCtl]; [Teardown.run] takes the same objects away and shares their names. The tree of
    [EngineConf.generate] is what [Engine] re-commits, with the transit cost [Watchdog] asks for and
    the addresses [HostRoutes.ask_line] names, a line that [Engine] is proved to understand as it
    was meant. A row an apply defers is written to a file that [Watchdog.run] reads; the two plan it
    by one procedure, which is a theorem. [HostRoutes] shares [Uplink] with [Apply].
    [Cluster.publish] moves the counter that [ConfSync.tick] follows; a member's turn passes the
    conf through [Validate.from_decl], asks the socket for an apply, and leaves the ack its peers
    look for. [ShapeDaemon.reconverge] derives each wire's tree with [Shape.derive] from the
    capacity [measure] published and leaves a record [Shape.sa_parse] reads. [Status.gather] reads
    what all of these left: the engine's document through [EngineState], the rules through [Rules],
    the policy, marks and guard through [Emit] and [Legs], the shaper's record through [Shape], and
    the supervisor's [Components]. [Announcers] drives one [Announce.Announcer] per row of the view
    with the MACs the kernel and [Uplink] name and holds back the rows an apply deferred, and
    runs [HostRoutes.tick]. [Ticks] runs [Watchdog.run], [Watchdog.hs_reconcile], [Prober.prober_tick]
    and [Announcers.tick] on one state: what the prober finds decides the host default, and the
    snapshot [StatusModel] describes is what [Metrics.render] serves.

    What the theorems show, by group. Safety: a condemned wire stays condemned until a hello, a MAC
    the kernel holds is never written over, only the declared server's in-prefix replies reach
    clients or teach the table. Bounds: row caps, forks per interval, escalation, frames per
    announce period, journal lines per window. Function and refinement: the decisions, the verdicts,
    the codecs, the table against its specification. Liveness and termination: a drain hands over
    every claim, no wakeup is lost, every turn of the actor returns. The declaration: [validate]
    accepts exactly the fabrics that satisfy the written rules, reading one never panics, what
    passed derives for every member, has one shortest path between any two members of a zone (as
    long as no cost a search forms outgrows u32), and gives no address out twice. The shaper: what a
    wire's tree guarantees never exceeds the wire, and the record of an apply is read back as
    written. The commands, on every host and whatever it answers at any point: an apply forwards
    only behind the policy it loaded and read back, puts a gateway address up only behind the bridge
    guard, and installs the host default only behind its pins; a tick of the watchdog does only what
    a list of its actions allows, each command on it spelled out with the names the plan gives this
    member, and one foreign port it may release; it stops forwarding behind an unloaded policy and
    never raises it there; a teardown fails closed first, deletes only netdevs it has just proved to
    be its own, keeps a leaf's leak guard to the end and leaves no rule. The forward policy accepts
    exactly the declared packets. VLAN ids and floor pins go back exactly when they should. The
    engine: what its state reports is what it put in force, nothing is applied that every provider
    did not prepare, a configuration names only what it defines, a gateway is offered only the
    routes of the plan (where no two prefix sets share a name), and a local VM's route leads out of the leg that reported it. Two theorems
    state what goes wrong when a leg or a wire is absent. The supervisor, on every run: a wanted
    child has a process or one pending respawn, nothing is launched once a stop began and the stop
    accounts for every child; a child has one process, plus one per restart of it that stopped
    waiting, a bound that is reached. The followed conf: a publish is one critical section, a turn
    installs only what passed the gate, commits only what it applied, judged to carry and saw
    witnessed, and where it says it reverted the old text is back. A status only reads, its verdict
    is what the declared adjacencies are worth, its wait ends and stops early only for a reason, and
    a row of it says nothing exactly when the leg or the workload is whole. The shaper's daemon does
    one reconverge per quiet gap after a burst that touched a wire, and a reconverge runs, for each
    wire, the program of the capacity measured of it. The loop's other arms: every leg of a member
    is probed from the start; the announcers send frames of installed rows only, four a period at
    most, and never spin; the host default follows the prober whatever the order of ticks; the
    endpoint serves the last snapshot that was gathered whole, in which no series appears twice.

    Fuel. [Derive.dijkstra] settles one member per turn and is proved to end within
    [dijkstra_fuel]. [Actor.wait_and_spend] is given two turns and is proved to need no more;
    [Actor.batch_loop] counts the entries a batch may handle; [Actor.refill_loop] runs at most
    once per missing token; [Relay.option_loop] has the area's length, proved enough; the BPF
    interpreter has the program's length, proved enough; [Relay.wait_loop] returns for any fuel
    that covers its deadline; [NeighTable.drain] has the queue's length. [Actor.idle_wait]
    counts environment moves: how long the task sleeps is the environment's choice.
    [Rules.drop_rules] and the loops built on it take the fuel of their caller; it is proved
    that one round more than the rules the kernel can delete is enough, and that the answer for
    running out is then never given. [EngineCtl.settle] has the six polls of three seconds,
    proved enough. [Uplink]'s recursion has the source's own depth limit.
    [Cluster.lock_tries] has the source's ten tries, [ConfSync.witness_polls] its sixty polls;
    [ConfSync.turns] and [ShapeDaemon.event_loop] are as long as the run one asks about.
    [Status.wait_fuel] is a gather for every two seconds of the wait and two more, proved enough.
    [Announcers.decode_from] has the datagram's length, proved enough, since every message in it is
    a header at least; [Ticks] hands [Rules] its caller's fuel.
    [Supervisor.wait_loop] has the 61 requests that 30 s hold, proved enough; a run of the
    supervisor is as long as its list of actions.

    Not modelled. Sockets, netlink, sysfs, processes and files are arguments; the JSON parser is a
    parameter, and so are the engine's lock and the wording of a derivation's refusal. Reads made of
    files are looks at the host and leave no trace: only commands, writes, removals, requests and
    sleeps are in a history. The sums of OSPF costs, distances and path counts wrap at 2^32 and the
    packet counters of a status at 2^64, as in a release build ([u32_add], [u64_add]); the counters
    a loop adds one to are unbounded integers, and so are the ladder costs of [Derive] and the
    universal cost that sums them, which stay below ten million with the at most 256 segments of a
    zone. The arms of the supervisor's loop that change its children or answer a command
    ([Supervisor]) and its periodic arms ([Ticks]) are on two states, with no step of one
    interleaved with a step of the other. Starting the engine's providers, the YANG library that
    parses, validates and compares its trees, and what the providers do with a change they are given
    are parameters of [Engine]. The text encoder of the metrics library and its sockets, the
    decoding of a netlink message, the framing of the supervisor's socket and its lock files, the
    flood of a measurement and the probes of the policy test are not in this library. *)

From Stdlib Require Export ZArith Lia.
From stdpp Require Export base tactics list gmap strings sorting numbers.

(** ** Scope and conventions *)

Declare Scope cfab_scope.
Delimit Scope cfab_scope with cfab.
Global Open Scope Z_scope.

(** ** Fallible results: Rust's [Result<A, E>] *)

Inductive result (E A : Type) : Type :=
| Ok (a : A)
| Err (e : E).
Arguments Ok {E A} a.
Arguments Err {E A} e.

Notation "x <-? e ;; k" := (match e with Ok x => k | Err err => Err err end)
  (at level 100, e at next level, k at level 200, right associativity) : cfab_scope.
Notation "e ;;? k" := (match e with Ok _ => k | Err err => Err err end)
  (at level 100, k at level 200, right associativity) : cfab_scope.
Global Open Scope cfab_scope.

Definition is_ok {E A} (r : result E A) : bool :=
  match r with Ok _ => true | Err _ => false end.

(** A guard that refuses with [e] when its condition holds, the shape
    [if c { return Err(e) }] has in the source. *)
Definition refuse_if {E} (c : bool) (e : E) : result E unit :=
  if c then Err e else Ok tt.

Lemma refuse_if_ok {E} c (e : E) u : refuse_if c e = Ok u ↔ c = false.
Proof. destruct c, u; cbn; split; congruence. Qed.

(** A [for] loop whose body may return early with an error. *)
Fixpoint for_each {E A} (f : A → result E unit) (l : list A) : result E unit :=
  match l with
  | [] => Ok tt
  | x :: l' => f x ;;? for_each f l'
  end.

Lemma for_each_ok {E A} (f : A → result E unit) l u :
  for_each f l = Ok u ↔ Forall (λ x, f x = Ok tt) l.
Proof.
  destruct u. induction l as [|x l IH]; cbn.
  - split; intros; [constructor | done].
  - rewrite list.Forall_cons. rewrite <-IH. destruct (f x) as [[]|e]; cbn; split; [auto|by intros []|done|by intros []].
Qed.

(** ** Time

    An [Instant] and a [Duration] are both a number of nanoseconds: [Instant]s are only
    compared, advanced and subtracted, always by [saturating_duration_since]. *)

Definition Instant := Z.
Definition Duration := Z.

Definition nanos_per_sec : Z := 1000000000.
Definition from_secs (s : Z) : Duration := s * nanos_per_sec.
Definition from_millis (ms : Z) : Duration := ms * 1000000.

(** [a.saturating_duration_since(b)]. *)
Definition saturating_since (a b : Instant) : Duration := Z.max 0 (a - b).

(** ** Machine integers *)

Definition u32_max : Z := 4294967295.
Definition usize_max : Z := 18446744073709551615.

(** [x.saturating_sub(y)] on an unsigned type. *)
Definition sat_sub (x y : Z) : Z := Z.max 0 (x - y).

(** [x - y] on a [usize], wrapping: what a release build computes when it underflows. *)
Definition usize_sub (x y : Z) : Z := (x - y) mod (usize_max + 1).

(** ** Option helpers, named as Rust names them *)

Definition is_some_and {A} (o : option A) (p : A → bool) : bool :=
  match o with Some a => p a | None => false end.
Definition is_none_or {A} (o : option A) (p : A → bool) : bool :=
  match o with Some a => p a | None => true end.
Definition or_else {A} (o o' : option A) : option A :=
  match o with Some _ => o | None => o' end.
Definition unwrap_or {A} (o : option A) (d : A) : A :=
  match o with Some a => a | None => d end.

(** Boolean equality on options, [==] of the source. *)
Definition opt_eqb {A} `{EqDecision A} (a b : option A) : bool := bool_decide (a = b).

(** ** List helpers *)

Definition any {A} (p : A → bool) (l : list A) : bool := existsb p l.
Definition all {A} (p : A → bool) (l : list A) : bool := forallb p l.

(** [l.iter().position(p)]. *)
Fixpoint position {A} (p : A → bool) (l : list A) : option nat :=
  match l with
  | [] => None
  | x :: l' => if p x then Some 0%nat else S <$> position p l'
  end.

(** [l.iter().min_by_key(k)]: the FIRST element whose key is least, for an order [lt]. *)
Section min_by.
Context {A K : Type} (key : A → K) (ltb : K → K → bool).

Fixpoint min_from (best : A) (l : list A) : A :=
  match l with
  | [] => best
  | x :: l' => min_from (if ltb (key x) (key best) then x else best) l'
  end.

Definition min_by_key (l : list A) : option A :=
  match l with [] => None | x :: l' => Some (min_from x l') end.
End min_by.

(** *** Lemmas on [min_by_key] *)

Section min_by_facts.
Context {A K : Type} (key : A → K) (ltb : K → K → bool).
Hypothesis ltb_irrefl : ∀ a, ltb a a = false.
Hypothesis ltb_trans : ∀ a b c, ltb a b = true → ltb b c = true → ltb a c = true.
Hypothesis ltb_total : ∀ a b, ltb a b = false → ltb b a = false → a = b.

Lemma min_from_elem best l : min_from key ltb best l = best ∨ min_from key ltb best l ∈ l.
Proof using.
  clear. revert best. induction l as [|x l IH]; intros best; cbn; [by left|].
  destruct (IH (if ltb (key x) (key best) then x else best)) as [->|H].
  - destruct (ltb _ _); [right; left|by left].
  - right. by right.
Qed.

Lemma min_by_key_elem l m : min_by_key key ltb l = Some m → m ∈ l.
Proof using.
  clear. destruct l as [|x l]; [done|]. cbn. intros [= <-].
  destruct (min_from_elem x l) as [->|H]; [left|by right].
Qed.

Lemma min_by_key_None l : min_by_key key ltb l = None ↔ l = [].
Proof using. by destruct l. Qed.

Lemma ltb_le_trans a b c : ltb b a = false → ltb c b = false → ltb c a = false.
Proof using ltb_irrefl ltb_trans ltb_total.
  intros H1 H2. destruct (ltb c a) eqn:H3; [|done].
  destruct (ltb a b) eqn:H4.
  - rewrite (ltb_trans c a b H3 H4) in H2. done.
  - rewrite (ltb_total b a H1 H4) in H2. congruence.
Qed.

Lemma min_from_le best l :
  ltb (key best) (key (min_from key ltb best l)) = false
  ∧ Forall (λ x, ltb (key x) (key (min_from key ltb best l)) = false) l.
Proof using ltb_irrefl ltb_trans ltb_total.
  revert best. induction l as [|x l IH]; intros best; cbn; [by rewrite ltb_irrefl|].
  set (b := if ltb (key x) (key best) then x else best).
  destruct (IH b) as [Hb Hl].
  assert (Hx : ltb (key x) (key b) = false).
  { unfold b. destruct (ltb (key x) (key best)) eqn:E; [apply ltb_irrefl|done]. }
  assert (Hbest : ltb (key best) (key b) = false).
  { unfold b. destruct (ltb (key x) (key best)) eqn:E; [|apply ltb_irrefl].
    destruct (ltb (key best) (key x)) eqn:E'; [|done].
    pose proof (ltb_trans _ _ _ E E'). pose proof (ltb_irrefl (key x)). congruence. }
  split; [|constructor; [|done]]; eauto using ltb_le_trans.
Qed.

(** The chosen element is least: nothing in the list has a strictly smaller key. *)
Lemma min_by_key_le l m x :
  min_by_key key ltb l = Some m → x ∈ l → ltb (key x) (key m) = false.
Proof using ltb_irrefl ltb_trans ltb_total.
  destruct l as [|y l]; [done|]. cbn. intros [= <-] Hx.
  destruct (min_from_le y l) as [Hy Hl].
  apply elem_of_cons in Hx as [->|Hx]; [done|].
  rewrite list.Forall_forall in Hl. by apply Hl.
Qed.
End min_by_facts.

(** *** Lemmas on [position] and [find] *)

Lemma position_Some {A} (p : A → bool) l i :
  position p l = Some i →
  ∃ x, l !! i = Some x ∧ p x = true ∧ Forall (λ y, p y = false) (take i l).
Proof.
  revert i. induction l as [|x l IH]; intros i; cbn; [done|].
  destruct (p x) eqn:E.
  - intros [= <-]. exists x. cbn. auto.
  - destruct (position p l) as [j|]; [|done]. cbn. intros [= <-].
    destruct (IH j eq_refl) as (y & ? & ? & ?). exists y. cbn. auto.
Qed.

Lemma position_None {A} (p : A → bool) l :
  position p l = None ↔ Forall (λ y, p y = false) l.
Proof.
  induction l as [|x l IH]; cbn; [by split|].
  rewrite list.Forall_cons, <-IH. destruct (p x), (position p l); cbn; intuition congruence.
Qed.

Lemma find_Some_elem {A} (p : A → bool) l x :
  List.find p l = Some x → x ∈ l ∧ p x = true.
Proof. intros [? ?]%List.find_some. by rewrite list_elem_of_In. Qed.

Lemma find_None_iff {A} (p : A → bool) l :
  List.find p l = None ↔ ∀ x, x ∈ l → p x = false.
Proof.
  split.
  - intros H x Hx%list_elem_of_In. by eapply List.find_none.
  - intros H. destruct (List.find p l) as [x|] eqn:E; [|done].
    apply find_Some_elem in E as [Hx Hp]. rewrite H in Hp; done.
Qed.

Lemma any_true {A} (p : A → bool) l : any p l = true ↔ ∃ x, x ∈ l ∧ p x = true.
Proof.
  unfold any. rewrite List.existsb_exists. by setoid_rewrite list_elem_of_In.
Qed.

Lemma any_false {A} (p : A → bool) l : any p l = false ↔ ∀ x, x ∈ l → p x = false.
Proof.
  rewrite <-not_true_iff_false, any_true. split.
  - intros H x Hx. destruct (p x) eqn:E; naive_solver.
  - intros H (x & Hx & E). rewrite H in E; done.
Qed.

(** ** Ordered maps and sets

    A [BTreeMap] is a [gmap]; what the source does in key order goes through the sorted
    listing below, so an order the program fixes is fixed here too. *)

Definition leb_rel {A} (leb : A → A → bool) : relation A := λ a b, leb a b = true.
#[export] Instance leb_rel_dec {A} (leb : A → A → bool) : RelDecision (leb_rel leb).
Proof. intros a b. unfold leb_rel. apply _. Defined.

Section btree.
Context `{Countable K} {V : Type} (leb : K → K → bool).

Definition btree_iter (m : gmap K V) : list (K * V) :=
  merge_sort (leb_rel (λ a b : K * V, leb a.1 b.1)) (map_to_list m).
Definition btree_keys (m : gmap K V) : list K := (btree_iter m).*1.

Lemma btree_iter_perm m : btree_iter m ≡ₚ map_to_list m.
Proof using. apply merge_sort_Permutation. Qed.

Lemma elem_of_btree_iter m k v : (k, v) ∈ btree_iter m ↔ m !! k = Some v.
Proof using. by rewrite btree_iter_perm, elem_of_map_to_list. Qed.

Lemma btree_keys_NoDup m : NoDup (btree_keys m).
Proof using.
  unfold btree_keys. rewrite btree_iter_perm. apply NoDup_fst_map_to_list.
Qed.

Lemma elem_of_btree_keys m k : k ∈ btree_keys m ↔ is_Some (m !! k).
Proof using.
  unfold btree_keys. rewrite list_elem_of_fmap. split.
  - intros ([k' v] & -> & Hv%elem_of_btree_iter). eauto.
  - intros [v Hv]. exists (k, v). by rewrite elem_of_btree_iter.
Qed.
End btree.

Definition btree_set_iter `{Countable K} (leb : K → K → bool) (s : gset K) : list K :=
  merge_sort (leb_rel leb) (elements s).

(** Rust orders strings by their bytes. *)
Definition str_leb (a b : string) : bool :=
  match String.compare a b with Gt => false | _ => true end.

Lemma str_compare_refl s : String.compare s s = Eq.
Proof.
  pose proof (String.compare_antisym s s) as H. by destruct (String.compare s s).
Qed.

Lemma elem_of_btree_set_iter `{Countable K} leb (s : gset K) x :
  x ∈ btree_set_iter leb s ↔ x ∈ s.
Proof. unfold btree_set_iter. by rewrite merge_sort_Permutation, elem_of_elements. Qed.

(** [*m.entry(k).or_default() += n], for a counter map. *)
Definition bump `{Countable K} (m : gmap K Z) (k : K) (n : Z) : gmap K Z :=
  <[k := unwrap_or (m !! k) 0 + n]> m.

(** ** Automation *)

Create HintDb cfab.

(** Turn the boolean guards of the source in the context into propositions. *)
Ltac split_bools :=
  repeat match goal with
  | H : (_ && _)%bool = true |- _ => apply andb_true_iff in H as [? ?]
  | H : (_ || _)%bool = false |- _ => apply orb_false_iff in H as [? ?]
  | H : negb _ = true |- _ => apply negb_true_iff in H
  | H : negb _ = false |- _ => apply negb_false_iff in H
  | H : (_ =? _) = true |- _ => apply Z.eqb_eq in H
  | H : (_ =? _) = false |- _ => apply Z.eqb_neq in H
  | H : (_ <? _) = true |- _ => apply Z.ltb_lt in H
  | H : (_ <? _) = false |- _ => apply Z.ltb_ge in H
  | H : (_ <=? _) = true |- _ => apply Z.leb_le in H
  | H : (_ <=? _) = false |- _ => apply Z.leb_gt in H
  | H : bool_decide _ = true |- _ => apply bool_decide_eq_true_1 in H
  | H : bool_decide _ = false |- _ => apply bool_decide_eq_false_1 in H
  end.

(** Membership in a [List.filter], as stdpp states its own. *)
Lemma elem_of_bfilter {A} (p : A → bool) l x : x ∈ List.filter p l ↔ p x = true ∧ x ∈ l.
Proof. rewrite !list_elem_of_In, List.filter_In. tauto. Qed.

Lemma NoDup_fmap_inj_on {A B} (h : A → B) (l : list A) a b :
  NoDup (h <$> l) → a ∈ l → b ∈ l → h a = h b → a = b.
Proof.
  intros Hnd Ha Hb E. apply list_elem_of_lookup in Ha as [i Hi], Hb as [j Hj].
  assert (i = j) as ->; [|congruence]. eapply (list.NoDup_lookup _ _ _ (h a) Hnd).
  - by rewrite list_lookup_fmap, Hi.
  - rewrite list_lookup_fmap, Hj. cbn. congruence.
Qed.
