(* ===== verification/Text.v ===== *)
(** Text: the operations of Rust's [str] the program parses and renders with.

    A [String] is its UTF-8 bytes, a Rocq [string]; the whitespace [trim] and
    [split_whitespace] know here is the ASCII part of Unicode's, which is all that can
    appear in the files these parsers read ([/proc], [sysfs], cfab's own records). *)
From Stdlib Require Import Ascii String DecimalString.
From stdpp Require Import pretty.
From S2P Require Import Prelude.

Local Open Scope Z_scope.

Definition str_len (s : string) : Z := Z.of_nat (String.length s).

(** ** Characters *)

Definition code (c : ascii) : Z := Z.of_N (N_of_ascii c).

Definition is_whitespace (c : ascii) : bool :=
  ((9 <=? code c) && (code c <=? 13)) || (code c =? 32).
Definition is_digit (c : ascii) : bool := (48 <=? code c) && (code c <=? 57).
Definition is_ascii_alphabetic (c : ascii) : bool :=
  ((65 <=? code c) && (code c <=? 90)) || ((97 <=? code c) && (code c <=? 122)).

Definition char_lf : ascii := "010"%char.
Definition char_cr : ascii := "013"%char.

Fixpoint str_forall (p : ascii → bool) (s : string) : bool :=
  match s with
  | EmptyString => true
  | String c s' => p c && str_forall p s'
  end.

(** ** Trimming *)

Fixpoint trim_start (s : string) : string :=
  match s with
  | String c s' => if is_whitespace c then trim_start s' else s
  | EmptyString => s
  end.

(** Drop the whitespace at the end: a suffix that is all whitespace goes. *)
Fixpoint trim_end (s : string) : string :=
  match s with
  | EmptyString => EmptyString
  | String c s' =>
      match trim_end s' with
      | EmptyString => if is_whitespace c then EmptyString else String c EmptyString
      | t => String c t
      end
  end.

Definition trim (s : string) : string := trim_end (trim_start s).

(** ** Splitting *)

(** [s.split_once(d)] for a one-byte delimiter. *)
Fixpoint split_once (d : ascii) (s : string) : option (string * string) :=
  match s with
  | EmptyString => None
  | String c s' =>
      if Ascii.eqb c d then Some (EmptyString, s')
      else match split_once d s' with
           | Some (a, b) => Some (String c a, b)
           | None => None
           end
  end.

(** [s.rsplit_once(d)]: split at the last one. *)
Fixpoint rsplit_once (d : ascii) (s : string) : option (string * string) :=
  match s with
  | EmptyString => None
  | String c s' =>
      match rsplit_once d s' with
      | Some (a, b) => Some (String c a, b)
      | None => if Ascii.eqb c d then Some (EmptyString, s') else None
      end
  end.

(** [s.split(d)], for a one-byte delimiter: always at least one piece. *)
Fixpoint split (d : ascii) (s : string) : list string :=
  match s with
  | EmptyString => [EmptyString]
  | String c s' =>
      if Ascii.eqb c d then EmptyString :: split d s'
      else match split d s' with
           | p :: ps => String c p :: ps
           | [] => [String c EmptyString]
           end
  end.

Fixpoint strip_prefix (p s : string) : option string :=
  match p, s with
  | EmptyString, _ => Some s
  | String a p', String b s' => if Ascii.eqb a b then strip_prefix p' s' else None
  | String _ _, EmptyString => None
  end.

Definition starts_with (p s : string) : bool :=
  match strip_prefix p s with Some _ => true | None => false end.

(** [s.contains(pat)]. *)
Definition has_substring (pat s : string) : bool :=
  match String.index 0 pat s with Some _ => true | None => false end.

(** [s.replace(from, to)] for one-byte patterns. *)
Fixpoint replace_char (a b : ascii) (s : string) : string :=
  match s with
  | EmptyString => EmptyString
  | String c s' => String (if Ascii.eqb c a then b else c) (replace_char a b s')
  end.

(** [s.split_whitespace()]. *)
Fixpoint split_whitespace (s : string) : list string :=
  match s with
  | EmptyString => []
  | String c s' =>
      if is_whitespace c then split_whitespace s'
      else match s' with
           | EmptyString => [String c EmptyString]
           | String c' _ =>
               if is_whitespace c' then String c EmptyString :: split_whitespace s'
               else match split_whitespace s' with
                    | p :: ps => String c p :: ps
                    | [] => [String c EmptyString]
                    end
           end
  end.

(** Drop one trailing carriage return, as [str::lines] does to a line a newline ended. *)
Fixpoint strip_cr (s : string) : string :=
  match s with
  | EmptyString => EmptyString
  | String c EmptyString => if Ascii.eqb c char_cr then EmptyString else s
  | String c s' => String c (strip_cr s')
  end.

(** [s.lines()]: every line a newline ends, and a last one only when it is not empty. *)
Fixpoint join_lines (ps : list string) : list string :=
  match ps with
  | [] => []
  | [last] => match last with EmptyString => [] | _ => [last] end
  | p :: ps' => strip_cr p :: join_lines ps'
  end.
Definition lines (s : string) : list string := join_lines (split char_lf s).

(** ** Numbers *)

Fixpoint digits_val (acc : Z) (s : string) : option Z :=
  match s with
  | EmptyString => Some acc
  | String c s' => if is_digit c then digits_val (acc * 10 + (code c - 48)) s' else None
  end.

(** [s.parse::<uN>()]: an optional [+], at least one digit, and no overflow past [max]. *)
Definition parse_uint (max : Z) (s : string) : option Z :=
  let body := match s with
              | String c s' => if Ascii.eqb c "+"%char then s' else s
              | EmptyString => s
              end in
  match body with
  | EmptyString => None
  | _ => match digits_val 0 body with
         | Some v => if v <=? max then Some v else None
         | None => None
         end
  end.

Definition u8_max : Z := 255.
Definition u64_max : Z := 18446744073709551615.

(** [a + b] on [u32] and on [u64]: it wraps in a release build. *)
Definition u32_add (a b : Z) : Z := (a + b) mod 2 ^ 32.
Definition u64_add (a b : Z) : Z := (a + b) mod 2 ^ 64.

(** [format!("{n}")] of an unsigned integer. *)
Definition show (n : Z) : string := pretty (Z.to_N n).

Lemma digits_val_ge acc s v : 0 ≤ acc → digits_val acc s = Some v → acc ≤ v.
Proof.
  revert acc. induction s as [|c s IH]; intros acc Ha; cbn; [by intros [= <-]|].
  unfold is_digit. case_match eqn:E; [|done]. split_bools.
  intros Hd%IH; lia.
Qed.

Lemma parse_uint_bounds mx s v : parse_uint mx s = Some v → 0 ≤ v ≤ mx.
Proof.
  unfold parse_uint. intros H. repeat case_match; simplify_eq; split_bools;
    (split; [|done]); (eapply digits_val_ge; [|eassumption]); lia.
Qed.

(** *** What [format!] writes, the parsers read back *)

Lemma digits_val_go x s : digits_val 0 (pretty_N_go x s) = digits_val (Z.of_N x) s.
Proof.
  revert s. induction (N.lt_wf_0 x) as [x _ IH]; intros s.
  destruct (decide (x = 0)%N) as [->|Hx]; [by rewrite pretty_N_go_0|].
  rewrite pretty_N_go_step, IH by (lia || apply N.div_lt; lia).
  cbn [digits_val]. pose proof (N.mod_lt x 10 ltac:(lia)) as Hm.
  assert (is_digit (pretty_N_char (x `mod` 10)) = true ∧
    code (pretty_N_char (x `mod` 10)) - 48 = Z.of_N (x `mod` 10)) as [-> ->].
  { revert Hm. generalize (x `mod` 10)%N. intros r Hr.
    assert (r = 0 ∨ r = 1 ∨ r = 2 ∨ r = 3 ∨ r = 4 ∨ r = 5 ∨ r = 6 ∨ r = 7 ∨ r = 8 ∨ r = 9)%N
      as H by lia.
    destruct H as [->|[->|[->|[->|[->|[->|[->|[->|[->| ->]]]]]]]]]; by vm_compute. }
  f_equal. rewrite N2Z.inj_div, N2Z.inj_mod. Z.div_mod_to_equations. lia.
Qed.

Lemma digits_val_show n : 0 ≤ n → digits_val 0 (show n) = Some n.
Proof.
  intros Hn. unfold show, pretty, pretty_N. case_decide as E.
  - replace n with 0 by lia. done.
  - rewrite digits_val_go. cbn. f_equal. lia.
Qed.

Lemma show_inj a b : 0 ≤ a → 0 ≤ b → show a = show b → a = b.
Proof. intros Ha Hb E. apply digits_val_show in Ha, Hb. congruence. Qed.

Lemma digits_val_digits acc s v : digits_val acc s = Some v → str_forall is_digit s = true.
Proof.
  revert acc. induction s as [|c s IH]; intros acc; cbn; [done|].
  destruct (is_digit c); [apply IH|done].
Qed.

Lemma show_digits n : 0 ≤ n → str_forall is_digit (show n) = true.
Proof. intros Hn. by eapply digits_val_digits, digits_val_show. Qed.

Lemma show_not_empty n : show n ≠ EmptyString.
Proof.
  unfold show, pretty, pretty_N. case_decide; [done|]. intros E.
  assert (digits_val 0 EmptyString = Some 0) as H0 by done.
  rewrite <-E, digits_val_go in H0. cbn in H0. injection H0. lia.
Qed.

Lemma parse_uint_show mx n : 0 ≤ n ≤ mx → parse_uint mx (show n) = Some n.
Proof.
  intros Hn. unfold parse_uint. pose proof (show_not_empty n) as Hne.
  pose proof (digits_val_show n ltac:(lia)) as Hv.
  pose proof (show_digits n ltac:(lia)) as Hd. destruct (show n) as [|c s]; [done|].
  destruct (Ascii.eqb_spec c "+") as [->|_]; [done|]. rewrite Hv.
  by rewrite (proj2 (Z.leb_le n mx)) by lia.
Qed.

(** *** Splitting what was joined *)

Definition free_of (d : ascii) (s : string) : bool := str_forall (λ c, negb (Ascii.eqb c d)) s.

Lemma digits_free_of d s : is_digit d = false → str_forall is_digit s = true → free_of d s = true.
Proof.
  intros Hd. unfold free_of. induction s as [|c s IH]; cbn; [done|].
  destruct (is_digit c) eqn:E; cbn; [|done]. intros Hs. rewrite IH by done.
  destruct (Ascii.eqb_spec c d); [congruence|done].
Qed.

Lemma str_app_nil s : (EmptyString ++ s)%string = s.
Proof. done. Qed.
Lemma str_app_cons c a s : (String c a ++ s)%string = String c (a ++ s)%string.
Proof. done. Qed.

Lemma str_app_char c s : (String c EmptyString ++ s)%string = String c s.
Proof. done. Qed.

Lemma split_once_join d a b : free_of d a = true → split_once d (a ++ String d b)%string = Some (a, b).
Proof.
  unfold free_of. induction a as [|c a IH]; rewrite ?str_app_nil, ?str_app_cons; cbn -[Ascii.eqb];
    [by rewrite Ascii.eqb_refl|].
  destruct (Ascii.eqb c d); cbn -[Ascii.eqb]; [done|]. by intros ->%IH.
Qed.

Lemma free_of_app d a b : free_of d (a ++ b)%string = free_of d a && free_of d b.
Proof.
  unfold free_of. induction a as [|c a IH]; rewrite ?str_app_nil, ?str_app_cons; cbn; [done|].
  by rewrite IH, andb_assoc.
Qed.

Lemma split_free d s : free_of d s = true → split d s = [s].
Proof.
  unfold free_of. induction s as [|c s IH]; cbn -[Ascii.eqb]; [done|].
  destruct (Ascii.eqb c d); cbn -[Ascii.eqb]; [done|]. by intros ->%IH.
Qed.

Lemma split_join d a b :
  free_of d a = true → split d (a ++ String d b)%string = a :: split d b.
Proof.
  unfold free_of. induction a as [|c a IH]; rewrite ?str_app_nil, ?str_app_cons; cbn -[Ascii.eqb];
    [by rewrite Ascii.eqb_refl|].
  destruct (Ascii.eqb c d); cbn -[Ascii.eqb]; [done|]. by intros ->%IH.
Qed.

Lemma join_inj d a b a' b' :
  free_of d a = true → free_of d a' = true →
  (a ++ String d b)%string = (a' ++ String d b')%string → a = a' ∧ b = b'.
Proof.
  intros Ha Ha' E. assert (Some (a, b) = Some (a', b')); [|by simplify_eq].
  rewrite <-!(split_once_join d) by done. by rewrite E.
Qed.

Lemma str_app_assoc a b c : ((a ++ b) ++ c)%string = (a ++ (b ++ c))%string.
Proof. induction a as [|x a IH]; [done|]. by rewrite !str_app_cons, IH. Qed.

Lemma str_length_app a b : String.length (a ++ b)%string = (String.length a + String.length b)%nat.
Proof. induction a as [|c a IH]; rewrite ?str_app_nil, ?str_app_cons; cbn; [done|]. by rewrite IH. Qed.

(** Two strings with tails of one length. *)
Lemma append_inj s t u u' :
  String.length u = String.length u' → (s ++ u)%string = (t ++ u')%string → s = t ∧ u = u'.
Proof.
  intros Hu. revert t. induction s as [|c s IH]; intros [|c' t] H.
  - done.
  - apply (f_equal String.length) in H. rewrite !str_length_app in H. cbn in H. lia.
  - apply (f_equal String.length) in H. rewrite !str_length_app in H. cbn in H. lia.
  - rewrite !str_app_cons in H. injection H as -> H. by destruct (IH t H) as [-> ->].
Qed.
Lemma append_inj_r s t u : (s ++ u)%string = (t ++ u)%string → s = t.
Proof. intros H. by apply append_inj in H as [? _]. Qed.

Lemma substring_length n s : (String.length (String.substring 0 n s) ≤ n)%nat.
Proof.
  revert s. induction n as [|n IH]; intros [|c s]; cbn; try lia. specialize (IH s). lia.
Qed.

(** ** Errors (src/src/error.rs) *)

(** An [std::io::Error] is its [errno], if it has one, and its text. *)
Inductive Error :=
| Config (msg : string)
| Fatal (msg : string)
| Cmd (cmd : string) (status : Z) (stderr : string)
| Io (errno : option Z) (text : string).

Definition fmt_stderr (stderr : string) : string :=
  let s := trim stderr in
  if bool_decide (s = EmptyString) then EmptyString else " — " ++ s.

(** A signed integer as [{}] prints it. *)
Definition show_signed (n : Z) : string := if n <? 0 then "-" ++ show (- n) else show n.

Definition display (e : Error) : string :=
  match e with
  | Config m => "fabric.toml: " ++ m
  | Fatal m => "FATAL: " ++ m
  | Cmd cmd status stderr => cmd ++ ": exit " ++ show_signed status ++ fmt_stderr stderr
  | Io _ t => t
  end.

(** What [{:?}] shows of one character of a string: what is not ASCII is taken to be printable. *)
Definition debug_hex (n : Z) : string :=
  String (ascii_of_nat (Z.to_nat (if n <? 10 then 48 + n else 87 + n))) EmptyString.
Definition debug_char (c : ascii) : string :=
  let n := Z.of_nat (nat_of_ascii c) in
  let esc := String "\"%char in
  if n =? 34 then esc (String c EmptyString)
  else if n =? 92 then esc (String c EmptyString)
  else if n =? 9 then esc "t"%string
  else if n =? 10 then esc "n"%string
  else if n =? 13 then esc "r"%string
  else if n =? 0 then esc "0"%string
  else if (n <? 32) || (n =? 127) then
    esc ("u{" ++ (if (n <? 16)%Z then EmptyString else debug_hex (n / 16)%Z) ++ debug_hex (n mod 16)%Z ++ "}")%string
  else String c EmptyString.
Fixpoint debug_chars (s : string) : string :=
  match s with EmptyString => EmptyString | String c s' => (debug_char c ++ debug_chars s')%string end.
Definition debug_str (s : string) : string := (String "034"%char EmptyString ++ debug_chars s ++ String "034"%char EmptyString)%string.

Definition ENODEV : Z := 19.

(** [netlink::is_no_device]. *)
Definition is_no_device (e : Error) : bool :=
  match e with Io (Some n) _ => n =? ENODEV | _ => false end.

(** [Ipv4Addr]'s [Display]. *)
Definition show_addr (a : Z) : string :=
  show (a / 16777216) ++ "." ++ show ((a / 65536) mod 256) ++ "."
    ++ show ((a / 256) mod 256) ++ "." ++ show (a mod 256).

(** ** Words and plain lines *)

Definition word (s : string) : bool := str_forall (λ c, negb (is_whitespace c)) s.

Lemma str_forall_impl (p q : ascii → bool) s :
  (∀ c, p c = true → q c = true) → str_forall p s = true → str_forall q s = true.
Proof.
  intros Hpq. induction s as [|c s IH]; cbn; [done|]. destruct (p c) eqn:E; cbn; [|done].
  intros Hs. by rewrite (Hpq c E), IH.
Qed.

Lemma word_free_of d s : is_whitespace d = true → word s = true → free_of d s = true.
Proof.
  intros Hd. apply str_forall_impl. intros c Hc. destruct (Ascii.eqb_spec c d) as [->|]; [|done].
  by rewrite Hd in Hc.
Qed.

Lemma str_app_nil_r s : (s ++ EmptyString)%string = s.
Proof. induction s as [|c s IH]; [done|]. by rewrite str_app_cons, IH. Qed.

Lemma concat_cons x l : String.concat "" (x :: l) = (x ++ String.concat "" l)%string.
Proof. destruct l; cbn; [by rewrite str_app_nil_r|done]. Qed.

Lemma strip_cr_free s : free_of char_cr s = true → strip_cr s = s.
Proof.
  unfold free_of. induction s as [|c s IH]; [done|]. cbn -[Ascii.eqb].
  destruct (Ascii.eqb c char_cr); cbn -[Ascii.eqb]; [done|]. intros H.
  destruct s; [done|]. by rewrite IH.
Qed.

(** A line is text with neither of the bytes a line reader looks for. *)
Definition plain (s : string) : bool := free_of char_lf s && free_of char_cr s.

Lemma plain_app a b : plain (a ++ b)%string = plain a && plain b.
Proof. unfold plain. rewrite !free_of_app. by destruct (free_of _ a), (free_of _ b), (free_of _ a), (free_of _ b). Qed.

Lemma word_app a b : word (a ++ b)%string = word a && word b.
Proof.
  unfold word. induction a as [|c a IH]; [done|]. rewrite str_app_cons. cbn.
  by rewrite IH, andb_assoc.
Qed.

Lemma word_plain s : word s = true → plain s = true.
Proof. intros H. unfold plain. by rewrite !word_free_of. Qed.

Lemma strip_prefix_app p s : strip_prefix p (p ++ s)%string = Some s.
Proof.
  induction p as [|c p IH]; [done|]. rewrite str_app_cons. cbn -[Ascii.eqb].
  by rewrite Ascii.eqb_refl.
Qed.

Lemma trim_end_word s : word s = true → trim_end s = s.
Proof.
  unfold word. induction s as [|c s IH]; cbn; [done|]. destruct (is_whitespace c); cbn; [done|].
  intros H. rewrite IH by done. by destruct s.
Qed.

Lemma trim_word s : word s = true → trim s = s.
Proof.
  intros H. unfold trim. rewrite <-(trim_end_word s H) at 2. f_equal.
  unfold word in H. destruct s as [|c s]; cbn in *; [done|]. by destruct (is_whitespace c).
Qed.

Lemma trim_not_empty c s : is_whitespace c = false → trim (String c s) ≠ EmptyString.
Proof.
  intros Hc. unfold trim. cbn [trim_start]. rewrite Hc. cbn [trim_end].
  destruct (trim_end s); [by rewrite Hc|done].
Qed.

Lemma show_word n : 0 ≤ n → word (show n) = true.
Proof.
  intros Hn. eapply str_forall_impl, show_digits, Hn. intros c Hc. unfold is_digit in Hc.
  apply andb_true_iff in Hc as [H1 H2]. split_bools. unfold is_whitespace.
  apply negb_true_iff, orb_false_iff. split; [apply andb_false_iff; right; lia|lia].
Qed.
