(* ===== verification/Sys.v ===== *)
(** The system boundary (src/src/sys.rs): what a command and a file read answer.

    Nothing here performs I/O. A [Host] is the host as one call sees it, an argument of every
    model that reads sysfs or runs a command: for each path and each argument vector, its
    answer. A component whose commands change the host takes a function from the actions
    performed so far to a [Host]. *)
From Stdlib Require Import Ascii String.
From S2P Require Import Prelude Text.
Local Open Scope Z_scope.

(** [sys::Output]: a nonzero exit is an answer, not an error. *)
Record Output := { status : Z; stdout : string; stderr : string }.
Definition output_ok (o : Output) : bool := status o =? 0.

(** The methods of [Sys] the models read through. *)
Record Host := {
  h_run : list string → result Error Output;
  h_read : string → result Error string;
  h_exists : string → bool;
  h_is_writable : string → bool;
  h_list_dir : string → result Error (list string);
  h_read_link : string → result Error string
}.

Definition run_ok (h : Host) (argv : list string) : result Error Output :=
  out <-? h_run h argv ;;
  if output_ok out then Ok out
  else Err (Cmd (String.concat " " argv) (status out) (stderr out)).

Definition run_optional (h : Host) (argv : list string) : option Output :=
  match h_run h argv with Ok o => Some o | Err _ => None end.

(** [r.unwrap_or_default()] on a string, and on a list. *)
Definition or_empty (r : result Error string) : string :=
  match r with Ok s => s | Err _ => EmptyString end.
Definition or_nil {A} (r : result Error (list A)) : list A :=
  match r with Ok l => l | Err _ => [] end.

(** [r.is_ok_and(|o| o.ok())]. *)
Definition exited_ok (r : result Error Output) : bool :=
  match r with Ok o => output_ok o | Err _ => false end.

Lemma run_ok_Ok h argv o : run_ok h argv = Ok o ↔ h_run h argv = Ok o ∧ output_ok o = true.
Proof.
  unfold run_ok. destruct (h_run h argv) as [x|e]; [|by split; [|intros [? _]]].
  destruct (output_ok x) eqn:E; split; [intros [= ->]|intros [[= ->] _]| |intros [[= ->] ?]]; try done.
  congruence.
Qed.

(** ** Commands that change the host

    A function that takes [&mut dyn Sys] and answers a [Result] is an [IO]: from what has been
    done so far it makes the trace longer and answers. What the host answers is a function of
    everything done before, so a read after a write may see it. [look] reads files and lists
    directories; it is not recorded. *)

Inductive Action :=
| ARun (argv : list string)
| AWrite (path content : string)
| ARename (from to : string)
| ARemove (path : string)
| AMkdir (path : string)
| ARequest (sock line : string)
| ASleep (ms : Z).

#[export] Instance action_eq_dec : EqDecision Action.
Proof. solve_decision. Defined.

(** [sys::UnixProbe]: whether a listener owns a socket. *)
Inductive UnixProbe :=
| NotListening
| Answered (reply : string)
| Unreachable (why : string).

Record Env := {
  e_host : Host;
  e_write : string → string → result Error unit;
  e_rename : string → string → result Error unit;
  e_remove : string → result Error unit;
  e_mkdir : string → result Error unit;
  e_request : string → string → result Error string;
  e_probe : string → string → UnixProbe
}.

Definition IO (A : Type) : Type :=
  (list Action → Env) → list Action → list Action * result Error A.

Definition ret {A} (a : A) : IO A := λ _ tr, (tr, Ok a).
Definition throw {A} (e : Error) : IO A := λ _ tr, (tr, Err e).
Definition bind {A B} (m : IO A) (k : A → IO B) : IO B := λ io tr,
  match m io tr with
  | (tr, Ok a) => k a io tr
  | (tr, Err e) => (tr, Err e)
  end.
(** The [Result] itself as a value: [match f(sys) { Ok(..) => .., Err(e) => .. }]. *)
Definition attempt {A} (m : IO A) : IO (result Error A) := λ io tr,
  let '(tr, r) := m io tr in (tr, Ok r).
Definition look {A} (f : Host → A) : IO A := λ io tr, (tr, Ok (f (e_host (io tr)))).
Definition lift {A} (r : result Error A) : IO A := λ _ tr, (tr, r).

Definition exec (argv : list string) : IO Output := λ io tr,
  (tr ++ [ARun argv], h_run (e_host (io tr)) argv).
Definition write (path content : string) : IO unit := λ io tr,
  (tr ++ [AWrite path content], e_write (io tr) path content).
Definition rename (from to : string) : IO unit := λ io tr,
  (tr ++ [ARename from to], e_rename (io tr) from to).
Definition remove (path : string) : IO unit := λ io tr,
  (tr ++ [ARemove path], e_remove (io tr) path).
Definition mkdir_p (path : string) : IO unit := λ io tr,
  (tr ++ [AMkdir path], e_mkdir (io tr) path).
Definition unix_probe (sock line : string) : IO UnixProbe := λ io tr,
  (tr ++ [ARequest sock line], Ok (e_probe (io tr) sock line)).
Definition sleep (ms : Z) : IO unit := λ _ tr, (tr ++ [ASleep ms], Ok tt).
Definition request (sock line : string) : IO string := λ io tr,
  (tr ++ [ARequest sock line], e_request (io tr) sock line).

Declare Scope cmd_scope.
Delimit Scope cmd_scope with cmd.
Notation "x <~ m ;; k" := (bind m (λ x, k))
  (at level 100, m at next level, k at level 200, right associativity) : cmd_scope.
Notation "m >>~ k" := (bind m (λ _, k))
  (at level 100, k at level 200, right associativity) : cmd_scope.

(** [run_ok], [run_ignore] and [run_optional] as commands. *)
Definition must (argv : list string) : IO Output :=
  (out <~ exec argv ;;
   if output_ok out then ret out
   else throw (Text.Cmd (String.concat " " argv) (status out) (stderr out)))%cmd.
Definition run_ignore (argv : list string) : IO unit := (exec argv >>~ ret tt)%cmd.
Definition try_run (argv : list string) : IO (option Output) :=
  (r <~ attempt (exec argv) ;; ret (match r with Ok o => Some o | Err _ => None end))%cmd.

(** [have_tool]. *)
Definition have_tool_argv (tool : string) : list string :=
  ["/usr/bin/env"; "sh"; "-c"; "command -v " ++ tool]%string.
Definition have_tool (tool : string) : IO bool :=
  (out <~ exec (have_tool_argv tool) ;; ret (output_ok out))%cmd.

(** [for x in l { f(x)?; }], and the same collecting what each pass answers. *)
Fixpoint each {A} (f : A → IO unit) (l : list A) : IO unit :=
  match l with
  | [] => ret tt
  | x :: l' => (f x >>~ each f l')%cmd
  end.
Fixpoint gather {A B} (f : A → IO (list B)) (l : list A) : IO (list B) :=
  match l with
  | [] => ret []
  | x :: l' => (ys <~ f x ;; zs <~ gather f l' ;; ret (ys ++ zs))%cmd
  end.

Lemma bind_Ok {A B} (m : IO A) (k : A → IO B) io tr tr' b :
  bind m k io tr = (tr', Ok b) → ∃ tr1 a, m io tr = (tr1, Ok a) ∧ k a io tr1 = (tr', Ok b).
Proof. unfold bind. destruct (m io tr) as [tr1 [a|e]]; [eauto|done]. Qed.

Lemma bind_eq {A B} (m : IO A) (k : A → IO B) io tr tr1 a :
  m io tr = (tr1, Ok a) → bind m k io tr = k a io tr1.
Proof. intros E. unfold bind. by rewrite E. Qed.

(** *** What a command may do *)

Definition emits {A} (P : Action → Prop) (m : IO A) : Prop :=
  ∀ io tr, ∃ new, (m io tr).1 = tr ++ new ∧ Forall P new.

Create HintDb emits.

Section emits.
Context (P : Action → Prop).

Lemma emits_quiet {A} (m : IO A) : (∀ io tr, (m io tr).1 = tr) → emits P m.
Proof using Type. intros H io tr. exists []. by rewrite H, app_nil_r. Qed.

Lemma emits_one {A} (m : IO A) a : P a → (∀ io tr, (m io tr).1 = tr ++ [a]) → emits P m.
Proof using Type. intros Ha H io tr. exists [a]. rewrite H. split; [done|by repeat constructor]. Qed.

Lemma emits_ret {A} (a : A) : emits P (ret a).
Proof using Type. by apply emits_quiet. Qed.
Lemma emits_throw {A} e : emits P (throw e : IO A).
Proof using Type. by apply emits_quiet. Qed.
Lemma emits_lift {A} (r : result Error A) : emits P (lift r).
Proof using Type. by apply emits_quiet. Qed.
Lemma emits_look {A} (f : Host → A) : emits P (look f).
Proof using Type. by apply emits_quiet. Qed.

Lemma emits_bind {A B} (m : IO A) (k : A → IO B) :
  emits P m → (∀ a, emits P (k a)) → emits P (bind m k).
Proof using Type.
  intros Hm Hk io tr. unfold bind. destruct (Hm io tr) as (l & E & Hl).
  destruct (m io tr) as [tr' [a|e]]; cbn in E; subst; [|by exists l].
  destruct (Hk a io (tr ++ l)) as (l' & E & Hl'). exists (l ++ l').
  rewrite E, app_assoc. split; [done|]. by apply list.Forall_app.
Qed.

(** The same, where what the first answers matters to the second. *)
Lemma emits_bind_yields {A B} (Q : A → Prop) (m : IO A) (k : A → IO B) :
  emits P m → (∀ io tr tr' a, m io tr = (tr', Ok a) → Q a) → (∀ a, Q a → emits P (k a)) →
  emits P (bind m k).
Proof using Type.
  intros Hm HQ Hk io tr. unfold bind. destruct (Hm io tr) as (l & E & Hl).
  destruct (m io tr) as [tr' [a|e]] eqn:Em; cbn in E; subst; [|by exists l].
  destruct (Hk a (HQ _ _ _ _ Em) io (tr ++ l)) as (l' & E & Hl'). exists (l ++ l').
  rewrite E, app_assoc. split; [done|]. by apply list.Forall_app.
Qed.

Lemma emits_attempt {A} (m : IO A) : emits P m → emits P (attempt m).
Proof using Type.
  intros Hm io tr. unfold attempt. destruct (Hm io tr) as (l & E & Hl).
  destruct (m io tr) as [tr' r]. cbn in *. eauto.
Qed.

Lemma emits_exec argv : P (ARun argv) → emits P (exec argv).
Proof using Type. intros H. by eapply emits_one. Qed.
Lemma emits_write p c : P (AWrite p c) → emits P (write p c).
Proof using Type. intros H. by eapply emits_one. Qed.
Lemma emits_rename a b : P (ARename a b) → emits P (rename a b).
Proof using Type. intros H. by eapply emits_one. Qed.
Lemma emits_remove p : P (ARemove p) → emits P (remove p).
Proof using Type. intros H. by eapply emits_one. Qed.
Lemma emits_mkdir p : P (AMkdir p) → emits P (mkdir_p p).
Proof using Type. intros H. by eapply emits_one. Qed.
Lemma emits_request s l : P (ARequest s l) → emits P (request s l).
Proof using Type. intros H. by eapply emits_one. Qed.
Lemma emits_probe s l : P (ARequest s l) → emits P (unix_probe s l).
Proof using Type. intros H. by eapply emits_one. Qed.
Lemma emits_sleep ms : P (ASleep ms) → emits P (sleep ms).
Proof using Type. intros H. by eapply emits_one. Qed.

Lemma emits_must argv : P (ARun argv) → emits P (must argv).
Proof using Type.
  intros H. apply emits_bind; [by apply emits_exec|]. intros o.
  destruct (output_ok o); [apply emits_ret|apply emits_throw].
Qed.
Lemma emits_run_ignore argv : P (ARun argv) → emits P (run_ignore argv).
Proof using Type. intros H. apply emits_bind; [by apply emits_exec|]. intros _. apply emits_ret. Qed.
Lemma emits_have_tool t : P (ARun (have_tool_argv t)) → emits P (have_tool t).
Proof using Type. intros H. apply emits_bind; [by apply emits_exec|]. intros o. apply emits_ret. Qed.
Lemma emits_try_run argv : P (ARun argv) → emits P (try_run argv).
Proof using Type.
  intros H. apply emits_bind; [by apply emits_attempt, emits_exec|]. intros r. apply emits_ret.
Qed.

Lemma emits_each {A} (f : A → IO unit) l : (∀ x, x ∈ l → emits P (f x)) → emits P (each f l).
Proof using Type.
  induction l as [|x l IH]; cbn; intros H; [apply emits_ret|].
  apply emits_bind; [apply H; by left|]. intros _. apply IH. intros y Hy. apply H. by right.
Qed.

Lemma emits_gather {A B} (f : A → IO (list B)) l :
  (∀ x, x ∈ l → emits P (f x)) → emits P (gather f l).
Proof using Type.
  induction l as [|x l IH]; cbn; intros H; [apply emits_ret|].
  apply emits_bind; [apply H; by left|]. intros ys. apply emits_bind.
  - apply IH. intros y Hy. apply H. by right.
  - intros zs. apply emits_ret.
Qed.
End emits.

Lemma emits_mono {A} (P Q : Action → Prop) (m : IO A) :
  emits P m → (∀ a, P a → Q a) → emits Q m.
Proof. intros Hm H io tr. destruct (Hm io tr) as (l & E & Hl). exists l. split; [done|]. by eapply list.Forall_impl. Qed.

Lemma emits_and {A} (P Q : Action → Prop) (m : IO A) :
  emits P m → emits Q m → emits (λ a, P a ∧ Q a) m.
Proof.
  intros HP HQ io tr. destruct (HP io tr) as (l & E & Hl), (HQ io tr) as (l' & E' & Hl').
  rewrite E in E'. apply app_inv_head in E' as <-. exists l. split; [done|]. by apply list.Forall_and.
Qed.

(** A loop that ends ran its body to the end on every element. *)
Lemma each_ran {A} (f : A → IO unit) P l io tr tr' :
  (∀ x, x ∈ l → emits P (f x)) → each f l io tr = (tr', Ok tt) →
  ∀ x, x ∈ l → ∃ before new after,
    f x io (tr ++ before) = ((tr ++ before) ++ new, Ok tt) ∧ tr' = (((tr ++ before) ++ new) ++ after).
Proof.
  revert tr. induction l as [|y l IH]; intros tr Hf H x Hx; [by apply not_elem_of_nil in Hx|].
  cbn [each] in H. apply bind_Ok in H as (tr1 & [] & Hy & Hl).
  destruct (Hf y ltac:(by left) io tr) as (n & En & _). rewrite Hy in En. cbn in En. subst tr1.
  assert (∀ z, z ∈ l → emits P (f z)) as Hf' by (intros z Hz; apply Hf; by right).
  destruct (emits_each P f l Hf' io (tr ++ n)) as (m & Em & _). rewrite Hl in Em. cbn in Em. subst tr'.
  apply elem_of_cons in Hx as [->|Hx].
  - exists [], n, m. rewrite app_nil_r. done.
  - destruct (IH (tr ++ n) Hf' Hl x Hx) as (b & c & e & E1 & E2).
    exists (n ++ b), c, e. rewrite <-!app_assoc in *. by rewrite E2.
Qed.

#[export] Hint Resolve emits_ret emits_throw emits_lift emits_look emits_attempt emits_exec
  emits_write emits_rename emits_remove emits_mkdir emits_request emits_probe emits_sleep
  emits_must emits_run_ignore emits_have_tool emits_try_run : emits.

(** One step of a command's text: a bind, a loop, a choice, or a primitive. *)
Ltac emits_step :=
  match goal with
  | |- emits _ (bind _ _) => apply emits_bind; [|intros]
  | |- emits _ (attempt _) => apply emits_attempt
  | |- emits _ (each _ _) => apply emits_each; intros
  | |- emits _ (gather _ _) => apply emits_gather; intros
  | |- emits _ (if ?b then _ else _) => destruct b eqn:?
  | |- emits _ (match ?x with _ => _ end) => destruct x eqn:?
  | |- emits _ _ => solve [auto with emits]
  end.
Ltac emits_all := repeat emits_step.

(** *** What a command may do, given what it has already done

    [acts I P m]: started where [I] holds of the actions done so far, [m] does only what [P]
    allows at the point where it does it. [I] must be [stable]: once true it stays true. *)

Definition Env_ := list Action → Env.

Fixpoint allowed (P : list Action → Action → Prop) (tr new : list Action) : Prop :=
  match new with
  | [] => True
  | a :: new' => P tr a ∧ allowed P (tr ++ [a]) new'
  end.

Lemma allowed_app P tr l1 l2 :
  allowed P tr (l1 ++ l2) ↔ allowed P tr l1 ∧ allowed P (tr ++ l1) l2.
Proof.
  revert tr. induction l1 as [|a l1 IH]; intros tr; cbn; [rewrite app_nil_r; tauto|].
  rewrite IH, <-app_assoc. tauto.
Qed.

(** Each action of the list, with what came before it. *)
Lemma allowed_at P tr new pre a post : allowed P tr new → new = pre ++ a :: post → P (tr ++ pre) a.
Proof. intros H ->. apply allowed_app in H as [_ [H _]]. done. Qed.

Lemma allowed_elem P tr new a : allowed P tr new → a ∈ new → ∃ tr', P tr' a.
Proof. intros H (pre & post & E)%list_elem_of_split. eexists. by eapply allowed_at. Qed.

Lemma allowed_all (Q : Action → Prop) (P : list Action → Action → Prop) tr new :
  Forall Q new → (∀ tr a, Q a → P tr a) → allowed P tr new.
Proof. intros H HQ. revert tr. induction H; intros tr; cbn; auto. Qed.

Definition acts {A} (I : Env_ → list Action → Prop) (P : Env_ → list Action → Action → Prop)
    (m : IO A) : Prop :=
  ∀ io tr, I io tr → ∃ new, (m io tr).1 = tr ++ new ∧ allowed (P io) tr new.

Definition stable (I : Env_ → list Action → Prop) : Prop :=
  ∀ io tr new, I io tr → I io (tr ++ new).

Section acts.
Context (I : Env_ → list Action → Prop) (P : Env_ → list Action → Action → Prop) (HI : stable I).

Lemma acts_emits {A} (Q : Action → Prop) (m : IO A) :
  emits Q m → (∀ io tr a, I io tr → Q a → P io tr a) → acts I P m.
Proof using HI.
  intros Hm HQ io tr Ht. destruct (Hm io tr) as (new & E & Hn). exists new. split; [done|].
  clear E. revert tr Ht. induction Hn; intros tr Ht; cbn; [done|]. split; [auto|].
  apply IHHn. by apply HI.
Qed.

Lemma acts_bind {A B} (m : IO A) (k : A → IO B) :
  acts I P m → (∀ a, acts I P (k a)) → acts I P (bind m k).
Proof using HI.
  intros Hm Hk io tr Ht. unfold bind. destruct (Hm io tr Ht) as (l & E & Hl).
  destruct (m io tr) as [tr' [a|e]]; cbn in E; subst; [|by exists l].
  destruct (Hk a io (tr ++ l) (HI _ _ _ Ht)) as (l' & E & Hl'). exists (l ++ l').
  rewrite E, app_assoc. split; [done|]. apply allowed_app. auto.
Qed.

(** Where what the first answers, and what it did, matter to the second. *)
Lemma acts_bind_then {A B} (m : IO A) (k : A → IO B) (J : A → Env_ → list Action → Prop) :
  acts I P m → (∀ io tr tr' a, I io tr → m io tr = (tr', Ok a) → J a io tr') →
  (∀ a, acts (J a) P (k a)) → acts I P (bind m k).
Proof using Type.
  intros Hm HJ Hk io tr Ht. unfold bind. destruct (Hm io tr Ht) as (l & E & Hl).
  destruct (m io tr) as [tr' [a|e]] eqn:Em; cbn in E; subst; [|by exists l].
  destruct (Hk a io (tr ++ l) (HJ _ _ _ _ Ht Em)) as (l' & E & Hl'). exists (l ++ l').
  rewrite E, app_assoc. split; [done|]. apply allowed_app. auto.
Qed.

Lemma acts_attempt {A} (m : IO A) : acts I P m → acts I P (attempt m).
Proof using Type.
  intros Hm io tr Ht. unfold attempt. destruct (Hm io tr Ht) as (l & E & Hl).
  destruct (m io tr) as [tr' r]. cbn in *. eauto.
Qed.

Lemma acts_quiet {A} (m : IO A) : emits (λ _, False) m → acts I P m.
Proof using HI. intros H. by eapply acts_emits. Qed.

Lemma acts_ret {A} (a : A) : acts I P (ret a).
Proof using HI. apply acts_quiet. auto with emits. Qed.

Lemma acts_each {A} (f : A → IO unit) l : (∀ x, x ∈ l → acts I P (f x)) → acts I P (each f l).
Proof using HI.
  induction l as [|x l IH]; cbn; intros H; [apply acts_ret|].
  apply acts_bind; [apply H; by left|]. intros _. apply IH. intros y Hy. apply H. by right.
Qed.

Lemma acts_gather {A B} (f : A → IO (list B)) l :
  (∀ x, x ∈ l → acts I P (f x)) → acts I P (gather f l).
Proof using HI.
  induction l as [|x l IH]; cbn; intros H; [apply acts_ret|].
  apply acts_bind; [apply H; by left|]. intros ys. apply acts_bind.
  - apply IH. intros y Hy. apply H. by right.
  - intros zs. apply acts_ret.
Qed.
End acts.

Lemma acts_weaken {A} I J P (m : IO A) :
  acts I P m → (∀ io tr, J io tr → I io tr) → acts J P m.
Proof. intros H HJ io tr Ht. apply H, HJ, Ht. Qed.

Lemma acts_if {A} I P (b : bool) (m m' : IO A) :
  (b = true → acts I P m) → (b = false → acts I P m') → acts I P (if b then m else m').
Proof. destruct b; auto. Qed.

(** One action, where what is known holds right before it. *)
Lemma acts_one {A} (I : Env_ → list Action → Prop) (P : Env_ → list Action → Action → Prop) (m : IO A) a :
  (∀ io tr, I io tr → P io tr a) → (∀ io tr, (m io tr).1 = tr ++ [a]) → acts I P m.
Proof. intros HP Hm io tr Ht. exists [a]. rewrite Hm. cbn. auto. Qed.

Lemma must_trace argv io tr : (must argv io tr).1 = tr ++ [ARun argv].
Proof.
  unfold must, exec, bind. destruct (h_run _ _) as [o|e]; [|done]. by destruct (output_ok o).
Qed.

Lemma must_Ok argv io tr tr' o :
  must argv io tr = (tr', Ok o) →
  tr' = tr ++ [ARun argv] ∧ h_run (e_host (io tr)) argv = Ok o ∧ output_ok o = true.
Proof.
  unfold must, exec, bind. destruct (h_run _ _) as [x|e]; [|done].
  destruct (output_ok x) eqn:E; [|done]. by intros [= <- <-].
Qed.

(** A command run where what is known holds; what comes next knows what it is told of [J]. *)
Lemma acts_must {B} (I J : Env_ → list Action → Prop) P argv (k : Output → IO B) :
  (∀ io tr, I io tr → P io tr (ARun argv)) →
  (∀ io tr, I io tr → J io (tr ++ [ARun argv])) → (∀ o, acts J P (k o)) →
  acts I P (bind (must argv) k).
Proof.
  intros HP HJ Hk. apply (acts_bind_then _ _ _ _ (λ _, J)); [|intros io tr tr' o Ht H|done].
  - eapply acts_one; [exact HP|]. apply must_trace.
  - pose proof (must_trace argv io tr) as E. rewrite H in E. cbn in E. subst. auto.
Qed.

Lemma acts_when I P (b : bool) (m : IO unit) :
  stable I → (b = true → acts I P m) → acts I P (if b then m else ret tt).
Proof. intros HI Hm. destruct b; [auto|by apply acts_ret]. Qed.

(** The same, where what is known is enough for anything. *)
Lemma acts_anywhere {A} I J P Q (m : IO A) :
  acts I P m → (∀ io tr, J io tr → I io tr) → stable J → (∀ io tr a, J io tr → Q io tr a) →
  acts J Q m.
Proof.
  intros Hm HI HJ HQ io tr Ht. destruct (Hm io tr (HI _ _ Ht)) as (new & E & _).
  exists new. split; [done|]. clear E. revert tr Ht.
  induction new as [|a new IH]; intros tr Ht; cbn; [done|]. split; [auto|]. apply IH, HJ, Ht.
Qed.

(** The same, where what is known does not matter. *)
Lemma acts_free {A} (Q : Action → Prop) I P (m : IO A) :
  emits Q m → (∀ io tr a, Q a → P io tr a) → acts I P m.
Proof.
  intros Hm HQ io tr _. destruct (Hm io tr) as (new & E & Hn). exists new. split; [done|].
  eapply allowed_all; [exact Hn|apply HQ].
Qed.

(** First only [P], then only [Q]. *)
Definition phased {A} (P Q : Action → Prop) (m : IO A) : Prop :=
  ∀ io tr, ∃ l1 l2, (m io tr).1 = tr ++ l1 ++ l2 ∧ Forall P l1 ∧ Forall Q l2.

Lemma phased_second {A} P Q (m : IO A) : emits Q m → phased P Q m.
Proof. intros H io tr. destruct (H io tr) as (l & E & Hl). by exists [], l. Qed.

Lemma phased_bind {A B} P Q (m : IO A) (k : A → IO B) :
  emits P m → (∀ a, phased P Q (k a)) → phased P Q (bind m k).
Proof.
  intros Hm Hk io tr. unfold bind. destruct (Hm io tr) as (l & E & Hl).
  destruct (m io tr) as [tr' [a|e]]; cbn in E; subst; [|exists l, []; by rewrite app_nil_r].
  destruct (Hk a io (tr ++ l)) as (l1 & l2 & E & H1 & H2). exists (l ++ l1), l2.
  rewrite E, <-!app_assoc. split; [done|]. split; [by apply list.Forall_app|done].
Qed.

(** What ran to its end is in the trace. *)
Lemma bind_ran {A B} P (m : IO A) (k : A → IO B) io tr tr' b :
  (∀ a, emits P (k a)) → bind m k io tr = (tr', Ok b) →
  ∃ mid a after, m io tr = (mid, Ok a) ∧ k a io mid = (tr', Ok b) ∧ tr' = mid ++ after.
Proof.
  intros Hk H. apply bind_Ok in H as (mid & a & Hm & H). destruct (Hk a io mid) as (after & E & _).
  rewrite H in E. cbn in E. by exists mid, a, after.
Qed.

Lemma bind_look {A B} (g : Host → A) (k : A → IO B) io tr :
  bind (look g) k io tr = k (g (e_host (io tr))) io tr.
Proof. done. Qed.

Lemma acts_pure {A} (φ : Prop) I P (m : IO A) :
  (φ → acts I P m) → acts (λ io tr, φ ∧ I io tr) P m.
Proof. intros H io tr [Hφ Ht]. by apply H. Qed.

(** Each piece of what a loop gathered came from one pass. *)
Lemma gather_Ok {A B} (g : A → IO (list B)) l io tr tr' ys :
  gather g l io tr = (tr', Ok ys) →
  ∀ y, y ∈ ys → ∃ x tr1 tr2 zs, x ∈ l ∧ g x io tr1 = (tr2, Ok zs) ∧ y ∈ zs.
Proof.
  revert tr ys. induction l as [|x l IH]; intros tr ys H y Hy; cbn in H.
  { injection H as _ <-. by apply not_elem_of_nil in Hy. }
  apply bind_Ok in H as (tr1 & zs & Hx & H). apply bind_Ok in H as (tr2 & rest & Hl & [= <- <-]).
  apply elem_of_app in Hy as [Hy|Hy].
  - exists x, tr, tr1, zs. repeat split; [by left|done..].
  - destruct (IH _ _ Hl y Hy) as (x' & t1 & t2 & zs' & Hx' & E & Hz).
    exists x', t1, t2, zs'. repeat split; [by right|done..].
Qed.

(** What each pass of a loop that ends leaves true, is true at the end. *)
Lemma gather_done {A B} (g : A → IO (list B)) (J : A → Env_ → list Action → Prop) l io tr tr' ys :
  (∀ x, stable (J x)) → (∀ x, emits (λ _, True) (g x)) →
  (∀ x m tr' zs, g x io (tr ++ m) = (tr', Ok zs) → J x io tr') →
  gather g l io tr = (tr', Ok ys) → ∀ x, x ∈ l → J x io tr'.
Proof.
  intros HJ He. revert tr ys. induction l as [|y l IH]; intros tr ys Hg H x Hx; [by apply not_elem_of_nil in Hx|].
  cbn in H. apply bind_Ok in H as (tr1 & zs & Hy & H). apply bind_Ok in H as (tr2 & rest & Hl & [= <- _]).
  destruct (He y io tr) as (n & En & _). rewrite Hy in En. cbn in En. subst tr1.
  destruct (emits_gather (λ _, True) g l (λ x _, He x) io (tr ++ n)) as (n' & E & _).
  rewrite Hl in E. cbn in E. subst tr2.
  apply elem_of_cons in Hx as [->|Hx].
  - apply HJ. apply (Hg y [] _ zs). by rewrite app_nil_r.
  - eapply (IH (tr ++ n)); [|exact Hl|done]. intros z m t zs'. rewrite <-app_assoc. apply Hg.
Qed.

Lemma each_done {A} (g : A → IO unit) (J : A → Env_ → list Action → Prop) l io tr tr' :
  (∀ x, stable (J x)) → (∀ x, emits (λ _, True) (g x)) →
  (∀ x m tr', g x io (tr ++ m) = (tr', Ok tt) → J x io tr') →
  each g l io tr = (tr', Ok tt) → ∀ x, x ∈ l → J x io tr'.
Proof.
  intros HJ He Hg H x Hx. destruct (each_ran g (λ _, True) l io tr tr' (λ x _, He x) H x Hx)
    as (b & n & a & E & ->). apply HJ. by eapply Hg.
Qed.

(** Every bind the text shows, and none that a name hides; [HI] proves what is known stable. *)
Ltac acts_seq HI :=
  repeat match goal with |- acts _ _ (bind _ _) => apply acts_bind; [apply HI| |intros ?] end.
