(* ===== verification/Net.v ===== *)
(** Addresses, bytes and prefixes.

    The integer and byte-level vocabulary every packet-handling component shares
    ([std::net::Ipv4Addr], [[u8; 6]], big-endian fields, slices), and [Ipv4Prefix] of
    src/src/model.rs with its mask arithmetic. *)
From Stdlib Require Import Ascii String.
From S2P Require Import Prelude Text.
Local Open Scope Z_scope.

(** ** Bytes *)

Definition byte_ok (b : Z) : Prop := 0 ≤ b < 256.
Definition bytes_ok (l : list Z) : Prop := Forall byte_ok l.

(** [buf.get(a..b)]: [None] when the range is not inside the buffer. *)
Definition slice (l : list Z) (a b : nat) : option (list Z) :=
  if decide (a ≤ b ≤ length l)%nat then Some (take (b - a) (drop a l)) else None.

(** [buf[i]] where the source has established that [i] is in range. *)
Definition at_ (l : list Z) (i : nat) : Z := unwrap_or (l !! i) 0.

(** [f[a..].copy_from_slice(s)]: overwrite [length s] bytes from offset [a]. *)
Definition splice (l : list Z) (a : nat) (s : list Z) : list Z :=
  take a l ++ s ++ drop (a + length s) l.

Definition zeros (n : nat) : list Z := replicate n 0.

(** [u16::to_be_bytes] and [u16::from_be_bytes] of the first two bytes. *)
Definition be_bytes16 (v : Z) : list Z := [v / 256; v mod 256].
Definition be16 (l : list Z) : Z := at_ l 0 * 256 + at_ l 1.
Definition be32 (l : list Z) : Z :=
  ((at_ l 0 * 256 + at_ l 1) * 256 + at_ l 2) * 256 + at_ l 3.

Lemma slice_Some l a b s :
  slice l a b = Some s ↔ (a ≤ b ≤ length l)%nat ∧ s = take (b - a) (drop a l).
Proof.
  unfold slice. case_decide; split; [by intros [= <-]|by intros [_ ->]|done|by intros [? _]].
Qed.

Lemma slice_ok l a b : (a ≤ b ≤ length l)%nat → slice l a b = Some (take (b - a) (drop a l)).
Proof. intros ?. by apply slice_Some. Qed.

Lemma slice_length l a b s : slice l a b = Some s → length s = (b - a)%nat.
Proof. intros [? ->]%slice_Some. rewrite length_take, length_drop. lia. Qed.

(** Reading inside a slice is reading the buffer. *)
Lemma at_slice l a b s i : slice l a b = Some s → (i < b - a)%nat → at_ s i = at_ l (a + i).
Proof.
  intros [? ->]%slice_Some Hi. unfold at_. by rewrite lookup_take_lt, lookup_drop by done.
Qed.

Lemma at_byte l i : bytes_ok l → byte_ok (at_ l i).
Proof.
  intros Hl. unfold at_. destruct (l !! i) eqn:E; cbn; [|unfold byte_ok; lia].
  eapply Forall_lookup_1 in Hl; [|exact E]. done.
Qed.

Lemma length_splice l a s :
  (a + length s ≤ length l)%nat → length (splice l a s) = length l.
Proof. intros. unfold splice. rewrite !length_app, length_take, length_drop. lia. Qed.

Lemma splice_lookup_out l a s i :
  (a + length s ≤ length l)%nat → (i < a ∨ a + length s ≤ i)%nat →
  splice l a s !! i = l !! i.
Proof.
  intros Hlen [Hi|Hi]; unfold splice.
  - rewrite lookup_app_l by (rewrite length_take; lia). by rewrite lookup_take_lt.
  - rewrite lookup_app_r by (rewrite length_take; lia).
    rewrite lookup_app_r by (rewrite length_take; lia).
    rewrite lookup_drop. f_equal. rewrite length_take. lia.
Qed.

Lemma splice_lookup_in l a s i :
  (a + length s ≤ length l)%nat → (i < length s)%nat → splice l a s !! (a + i)%nat = s !! i.
Proof.
  intros Hlen Hi. unfold splice.
  rewrite lookup_app_r by (rewrite length_take; lia). rewrite length_take.
  replace (a + i - a `min` length l)%nat with i by lia. by rewrite lookup_app_l.
Qed.

(** ** Addresses

    An [Ipv4Addr] is its [u32::from] value; a MAC is its six bytes. *)

Definition Ipv4Addr := Z.
Definition Mac := list Z.

Definition addr_ok (a : Ipv4Addr) : Prop := 0 ≤ a ≤ u32_max.

Definition UNSPECIFIED : Ipv4Addr := 0.
Definition BROADCAST : Ipv4Addr := u32_max.
Definition is_unspecified (a : Ipv4Addr) : bool := a =? UNSPECIFIED.

(** [Ipv4Addr::new(a, b, c, d)] and [Ipv4Addr::octets]. *)
Definition addr_new (a b c d : Z) : Ipv4Addr := ((a * 256 + b) * 256 + c) * 256 + d.
Definition octets (a : Ipv4Addr) : list Z :=
  [a / 16777216; (a / 65536) mod 256; (a / 256) mod 256; a mod 256].

Lemma addr_new_ok a b c d :
  byte_ok a → byte_ok b → byte_ok c → byte_ok d → addr_ok (addr_new a b c d).
Proof. unfold byte_ok, addr_ok, addr_new, u32_max. lia. Qed.

Lemma octets_ok a : addr_ok a → bytes_ok (octets a).
Proof.
  unfold addr_ok, u32_max. intros.
  repeat constructor; try (apply Z.mod_pos_bound; lia);
    [apply Z.div_pos; lia|apply Z.div_lt_upper_bound; lia].
Qed.

Lemma addr_new_octets a :
  addr_ok a → addr_new (a / 16777216) ((a / 65536) mod 256) ((a / 256) mod 256) (a mod 256) = a.
Proof.
  unfold addr_ok, u32_max, addr_new. intros.
  Z.div_mod_to_equations. lia.
Qed.

Lemma octets_addr_new a b c d :
  byte_ok a → byte_ok b → byte_ok c → byte_ok d → octets (addr_new a b c d) = [a; b; c; d].
Proof.
  unfold byte_ok, octets, addr_new. intros.
  repeat match goal with |- _ :: _ = _ :: _ => apply f_equal2 end;
    [..|done]; Z.div_mod_to_equations; lia.
Qed.

(** Rust's [str::parse::<Ipv4Addr>]: four decimal octets of at most three digits, no leading
    zero, nothing else. *)
Definition parse_octet (s : string) : option Z :=
  if ((String.length s <=? 3)%nat && negb (bool_decide (s = EmptyString))
      && negb (starts_with "0" s && (2 <=? String.length s)%nat))
  then v ← digits_val 0 s; if v <=? u8_max then Some v else None
  else None.

Definition parse_addr (s : string) : option Ipv4Addr :=
  match split "."%char s with
  | [a; b; c; d] =>
      a ← parse_octet a; b ← parse_octet b; c ← parse_octet c; d ← parse_octet d;
      Some (addr_new a b c d)
  | _ => None
  end.

(** What [Display] writes, [parse] reads back. *)
Lemma parse_octet_show o : byte_ok o → parse_octet (show o) = Some o.
Proof.
  intros Ho.
  assert (Forall (λ n, parse_octet (show (Z.of_nat n)) = Some (Z.of_nat n)) (seq 0 256)) as H.
  { apply (bool_decide_unpack _). by vm_compute. }
  rewrite list.Forall_forall in H. rewrite <-(Z2Nat.id o) by (unfold byte_ok in Ho; lia).
  apply H. apply elem_of_seq. unfold byte_ok in Ho. lia.
Qed.

Lemma parse_octet_byte s o : parse_octet s = Some o → byte_ok o.
Proof.
  unfold parse_octet. case_match; [|done]. destruct (digits_val 0 s) as [v|] eqn:E; cbn; [|done].
  apply digits_val_ge in E; [|lia]. destruct (v <=? u8_max) eqn:L; [|done]. intros [= <-].
  split_bools. unfold byte_ok, u8_max in *. lia.
Qed.

Lemma parse_addr_ok s a : parse_addr s = Some a → addr_ok a.
Proof.
  unfold parse_addr. intros H. repeat case_match; try done.
  repeat match goal with
  | H : (_ ≫= _) = Some _ |- _ => apply bind_Some in H as (? & ?%parse_octet_byte & H)
  end. simplify_eq. by apply addr_new_ok.
Qed.

Lemma parse_addr_show a : addr_ok a → parse_addr (show_addr a) = Some a.
Proof.
  intros Ha. pose proof (octets_ok a Ha) as Ho. unfold octets in Ho.
  apply list.Forall_cons in Ho as [H1 Ho]. apply list.Forall_cons in Ho as [H2 Ho].
  apply list.Forall_cons in Ho as [H3 Ho]. apply list.Forall_cons in Ho as [H4 _].
  assert (Hf : ∀ n, byte_ok n → free_of "." (show n) = true).
  { intros n Hn. apply digits_free_of; [done|]. apply show_digits. unfold byte_ok in Hn. lia. }
  unfold parse_addr, show_addr.
  rewrite !str_app_char, !split_join, split_free by auto. cbn [mbind option_bind].
  rewrite !parse_octet_show by done. cbn. by rewrite addr_new_octets.
Qed.

(** ** [Ipv4Prefix] *)

Record Ipv4Prefix := mk_prefix { net : Ipv4Addr; len : Z }.

#[export] Instance Ipv4Prefix_eq_dec : EqDecision Ipv4Prefix.
Proof. solve_decision. Defined.

(** [u32::MAX << (32 - len)], the shift kept to 32 bits. *)
Definition mask (l : Z) : Z :=
  if l =? 0 then 0 else Z.land (Z.shiftl u32_max (32 - l)) u32_max.

(** [!x] on a [u32]. *)
Definition not32 (x : Z) : Z := Z.lxor x u32_max.

Definition contains (p : Ipv4Prefix) (a : Ipv4Addr) : bool :=
  Z.land a (mask (len p)) =? net p.

Definition overlaps (p q : Ipv4Prefix) : bool :=
  let l := Z.min (len p) (len q) in
  Z.land (net p) (mask l) =? Z.land (net q) (mask l).

Definition first_host (p : Ipv4Prefix) : Ipv4Addr := Z.min u32_max (net p + 1).
Definition broadcast (p : Ipv4Prefix) : Ipv4Addr := Z.lor (net p) (not32 (mask (len p))).
Definition netmask (p : Ipv4Prefix) : Ipv4Addr := mask (len p).

(** What [Ipv4Prefix::parse] accepts: a length that exists, and no host bits set. *)
Definition prefix_ok (p : Ipv4Prefix) : Prop :=
  0 ≤ len p ≤ 32 ∧ addr_ok (net p) ∧ Z.land (net p) (mask (len p)) = net p.

(** The block size of a prefix, the number the mask arithmetic is about. *)
Definition block (l : Z) : Z := 2 ^ (32 - l).

Lemma block_pos l : 0 ≤ l ≤ 32 → 0 < block l.
Proof. intros. unfold block. apply Z.pow_pos_nonneg; lia. Qed.

(** Keeping the low 32 bits. *)
Lemma land_u32 x : Z.land x u32_max = x mod 2 ^ 32.
Proof. change u32_max with (Z.ones 32). apply Z.land_ones. lia. Qed.

(** Masking is rounding down to a multiple of the block. *)
Lemma land_mask a l :
  addr_ok a → 0 ≤ l ≤ 32 → Z.land a (mask l) = a / block l * block l.
Proof.
  intros Ha Hl. unfold mask. case_match eqn:E; split_bools.
  - subst l. rewrite Z.land_0_r. unfold block, addr_ok, u32_max in *.
    by rewrite Z.div_small by lia.
  - assert (Ha' : Z.land a u32_max = a).
    { rewrite land_u32. apply Z.mod_small. unfold addr_ok, u32_max in Ha. lia. }
    rewrite (Z.land_comm (Z.shiftl _ _)), Z.land_assoc, Ha'.
    unfold block. rewrite <-Z.shiftl_mul_pow2, <-Z.shiftr_div_pow2 by lia.
    apply Z.bits_inj'. intros n Hn. rewrite Z.land_spec, !Z.shiftl_spec by lia.
    change u32_max with (Z.ones 32). destruct (decide (n < 32 - l)).
    + rewrite (Z.testbit_neg_r (Z.ones _)), (Z.testbit_neg_r (Z.shiftr _ _)) by lia.
      apply andb_false_r.
    + rewrite Z.shiftr_spec by lia. replace (n - (32 - l) + (32 - l)) with n by lia.
      destruct (decide (n < 32)).
      * rewrite Z.ones_spec_low by lia. apply andb_true_r.
      * assert (Z.testbit a n = false) as ->; [|done].
        apply Z.bits_above_log2; [unfold addr_ok, u32_max in Ha; lia|].
        destruct (decide (a = 0)) as [->|]; [cbn; lia|].
        apply Z.log2_lt_pow2; [unfold addr_ok in Ha; lia|].
        apply Z.lt_le_trans with (2 ^ 32); [unfold addr_ok, u32_max in Ha; lia|].
        apply Z.pow_le_mono_r; lia.
Qed.

Lemma contains_div p a :
  prefix_ok p → addr_ok a → contains p a = true ↔ a / block (len p) = net p / block (len p).
Proof.
  intros (Hl & Hn & Ha) Hok. unfold contains.
  rewrite Z.eqb_eq, land_mask by done. rewrite land_mask in Ha by done.
  pose proof (block_pos _ Hl). split; intros E.
  - rewrite <-E, Z.div_mul; lia.
  - by rewrite E.
Qed.

Lemma mask_eq l : 0 ≤ l ≤ 32 → mask l = u32_max + 1 - block l.
Proof.
  intros Hl. pose proof (block_pos _ Hl).
  assert (Hd : Z.land u32_max (mask l) = mask l).
  { unfold mask. case_match; [done|]. by rewrite Z.land_comm, <-Z.land_assoc, Z.land_diag. }
  rewrite <-Hd, land_mask by (unfold addr_ok, u32_max; lia).
  assert (u32_max + 1 = 2 ^ l * block l) as E.
  { unfold block. rewrite <-Z.pow_add_r by lia.
    by replace (l + (32 - l)) with 32 by lia. }
  assert (u32_max / block l = 2 ^ l - 1) as ->; [|lia].
  symmetry. apply (Z.div_unique_pos _ _ _ (block l - 1)); lia.
Qed.

(** The broadcast address is the last one of the block. *)
Lemma broadcast_eq p : prefix_ok p → broadcast p = net p + block (len p) - 1.
Proof.
  intros (Hl & Hn & Ha). pose proof (block_pos _ Hl) as Hb. unfold broadcast.
  assert (Hnot : not32 (mask (len p)) = Z.ones (32 - len p)).
  { unfold not32. pose proof (Z.add_lxor_2land (mask (len p)) u32_max) as Hx.
    rewrite land_u32 in Hx.
    rewrite mask_eq in * by done. rewrite Z.ones_equiv. unfold block in *.
    assert (2 ^ (32 - len p) ≤ 2 ^ 32) by (apply Z.pow_le_mono_r; lia).
    rewrite Z.mod_small in Hx by (unfold u32_max; lia). unfold u32_max in *. lia. }
  rewrite Hnot. pose proof (Z.add_lor_land (net p) (Z.ones (32 - len p))) as Hx.
  rewrite land_mask in Ha by done.
  rewrite Z.land_ones in Hx by lia. fold (block (len p)) in Hx.
  assert (net p mod block (len p) = 0) as E by (rewrite <-Ha; apply Z.mod_mul; lia).
  rewrite E in Hx. rewrite Z.ones_equiv in Hx at 2. unfold block in *. lia.
Qed.

(** A prefix contains exactly the addresses from its network to its broadcast address. *)
Lemma contains_range p a :
  prefix_ok p → addr_ok a → contains p a = true ↔ net p ≤ a ≤ broadcast p.
Proof.
  intros Hp Ha. rewrite contains_div, broadcast_eq by done.
  destruct Hp as (Hl & Hn & Hm). pose proof (block_pos _ Hl).
  rewrite land_mask in Hm by done. set (b := block (len p)) in *.
  set (q := net p / b) in *. rewrite <-Hm. split.
  - intros E. pose proof (Z.mod_pos_bound a b). pose proof (Z.div_mod a b). lia.
  - intros E. symmetry. apply (Z.div_unique_pos _ _ _ (a - q * b)); lia.
Qed.

Lemma contains_net p : prefix_ok p → contains p (net p) = true.
Proof. intros (? & ? & ?). unfold contains. by apply Z.eqb_eq. Qed.

Lemma block_split l l' : 0 ≤ l ≤ l' → l' ≤ 32 → block l = block l' * 2 ^ (l' - l).
Proof. intros. unfold block. rewrite <-Z.pow_add_r by lia. f_equal. lia. Qed.

Lemma overlaps_sym p q : overlaps p q = overlaps q p.
Proof. unfold overlaps. rewrite Z.min_comm. apply Z.eqb_sym. Qed.

(** The longer of two prefixes shares an address with the shorter one exactly when its own
    network address is inside the shorter one. *)
Lemma overlaps_le p q :
  prefix_ok p → prefix_ok q → len p ≤ len q → overlaps p q = contains p (net q).
Proof.
  intros Hp Hq Hle. unfold overlaps, contains. rewrite Z.min_l by done.
  destruct Hp as (? & ? & ->). apply Z.eqb_sym.
Qed.

Lemma contains_both_le p q a :
  prefix_ok p → prefix_ok q → len p ≤ len q → addr_ok a →
  contains p a = true → contains q a = true → contains p (net q) = true.
Proof.
  intros Hp Hq Hle Ha. rewrite !contains_div by (done || apply Hq). intros Ep Eq.
  rewrite <-Ep. destruct Hp as (? & _ & _), Hq as (? & _ & _).
  rewrite (block_split (len p) (len q)) by lia.
  pose proof (block_pos (len q)). pose proof (Z.pow_pos_nonneg 2 (len q - len p)).
  rewrite <-!Z.div_div by lia. by rewrite Eq.
Qed.

Lemma overlaps_iff p q :
  prefix_ok p → prefix_ok q →
  overlaps p q = true ↔ ∃ a, addr_ok a ∧ contains p a = true ∧ contains q a = true.
Proof.
  intros Hp Hq. split.
  - intros Ho. destruct (decide (len p ≤ len q)).
    + rewrite overlaps_le in Ho by done. exists (net q).
      split; [apply Hq|]. auto using contains_net.
    + rewrite overlaps_sym, overlaps_le in Ho by (done || lia). exists (net p).
      split; [apply Hp|]. auto using contains_net.
  - intros (a & Ha & Cp & Cq). destruct (decide (len p ≤ len q)).
    + rewrite overlaps_le by done. eauto using contains_both_le.
    + rewrite overlaps_sym, overlaps_le by (done || lia).
      eapply (contains_both_le q p); eauto. lia.
Qed.
