(* ===== verification/Decl.v ===== *)
(** The declaration (src/src/decl.rs): the structures [fabric.toml] is read into.

    Parsing the file is the [toml] crate's; what it yields is a value of these types, and a
    table that is omitted takes the defaults below. *)
From Stdlib Require Import Ascii String.
From S2P Require Import Prelude.
Local Open Scope Z_scope.

(** Membership taxonomy and DSCP class selectors (src/src/model.rs). *)
Inductive MemberKind := Host | Leaf.
Inductive Dscp := Cs0 | Cs2 | Cs6.

#[export] Instance MemberKind_eq_dec : EqDecision MemberKind.
Proof. solve_decision. Defined.
#[export] Instance Dscp_eq_dec : EqDecision Dscp.
Proof. solve_decision. Defined.

Record WireDecl := {
  wd_nic : string; wd_domain : string; wd_speed_mbps : Z;
  wd_driver_features : option string; wd_usb : option bool
}.

Record MemberWorkloadDecl := { mwd_name : string; mwd_address : string }.

(** [md_prefs] is a [BTreeMap]: read in key order. *)
Record MemberDecl := {
  md_name : string; md_node : Z; md_kind : MemberKind; md_wires : list WireDecl;
  md_prefs : gmap string (list string); md_workloads : list MemberWorkloadDecl
}.

Record SegmentDecl := { sd_ifname : string; sd_domain : string; sd_seg : Z; sd_vid : Z }.
Record UniversalDecl := { ud_ifname : string; ud_seg : Z; ud_vid : Z }.
Record GwDecl := { gd_domain : string; gd_vid : Z; gd_router : string }.

Record ZoneDecl := {
  zd_name : string; zd_id : Z; zd_pcp : Z; zd_dscp : Dscp; zd_floor_mbps : Z; zd_band : Z;
  zd_weight : Z; zd_primary : string; zd_segments : list SegmentDecl;
  zd_universal : option UniversalDecl; zd_gw : option GwDecl
}.

Record WorkloadDecl := {
  wld_name : string; wld_uplink : string; wld_vid : Z; wld_prefix : string; wld_gw : string;
  wld_dhcp_server : option string; wld_allow : list string; wld_router : option string;
  wld_span : option string
}.

Record ForwardDecl := { fd_enabled : bool; fd_allow : list string }.

Definition ADMIN_FLOOR_MBPS : Z := 100.
Definition ADMIN_BAND : Z := 1.
Record AdminDecl := { ad_floor_mbps : Z; ad_band : Z }.
Definition admin_default : AdminDecl := {| ad_floor_mbps := ADMIN_FLOOR_MBPS; ad_band := ADMIN_BAND |}.

Definition PCP_CTRL : Z := 6.
Definition SET_DSCP : bool := true.
Record MarkingDecl := { mk_pcp_ctrl : Z; mk_set_dscp : bool }.
Definition marking_default : MarkingDecl := {| mk_pcp_ctrl := PCP_CTRL; mk_set_dscp := SET_DSCP |}.

Definition LEAF_OFFSET : Z := 30000.
Record CostDecl := { co_leaf_offset : Z }.
Definition cost_default : CostDecl := {| co_leaf_offset := LEAF_OFFSET |}.

Definition BFD_RX_MS : Z := 250.
Definition BFD_TX_MS : Z := 250.
Definition BFD_MULT : Z := 3.
Definition BFD_PORT : Z := 3784.
Record BfdDecl := { bd_rx_ms : Z; bd_tx_ms : Z; bd_mult : Z; bd_port : Z }.
Definition bfd_default : BfdDecl :=
  {| bd_rx_ms := BFD_RX_MS; bd_tx_ms := BFD_TX_MS; bd_mult := BFD_MULT; bd_port := BFD_PORT |}.

Definition OSPF_HELLO_S : Z := 1.
Definition OSPF_DEAD_S : Z := 3.
Record OspfDecl := { od_hello_s : Z; od_dead_s : Z }.
Definition ospf_default : OspfDecl := {| od_hello_s := OSPF_HELLO_S; od_dead_s := OSPF_DEAD_S |}.

Definition BGP_ASN : Z := 65000.
Definition BGP_KEEPALIVE_S : Z := 1.
Definition BGP_HOLD_S : Z := 3.
Definition BGP_CONNECT_S : Z := 3.
Record BgpDecl := { gb_asn : Z; gb_keepalive_s : Z; gb_hold_s : Z; gb_connect_s : Z }.
Definition bgp_default : BgpDecl :=
  {| gb_asn := BGP_ASN; gb_keepalive_s := BGP_KEEPALIVE_S; gb_hold_s := BGP_HOLD_S;
     gb_connect_s := BGP_CONNECT_S |}.

Definition RUN_DIR : string := "/run/cfab".
Record RuntimeDecl := { rd_run_dir : string }.
Definition runtime_default : RuntimeDecl := {| rd_run_dir := RUN_DIR |}.

(** The whole declaration; [domains] is a [BTreeMap] from token to what the switch is. *)
Record Declaration := {
  d_dns_domain : string;
  d_domains : gmap string string;
  d_members : list MemberDecl;
  d_zones : list ZoneDecl;
  d_workload : list WorkloadDecl;
  d_forward : ForwardDecl;
  d_admin : option AdminDecl;
  d_marking : option MarkingDecl;
  d_cost : option CostDecl;
  d_bfd : option BfdDecl;
  d_ospf : option OspfDecl;
  d_bgp : option BgpDecl;
  d_runtime : option RuntimeDecl
}.
