(* ===== verification/Fabric.v ===== *)
(** The typed fabric (src/src/model.rs): its data, its parsers and its look-ups.

    A [DomainId] is its token. Every refusal is a [Refusal]: one constructor per error the
    source words, with what the message names; [Panics] is a [panic!] of the source, so that
    "never panics" is a statement about these definitions. *)
From Stdlib Require Import Ascii String.
From S2P Require Import Prelude Text Net Decl.
Local Open Scope Z_scope.

(** ** Refusals *)

Inductive Refusal :=
| Context (where_ : string) (e : Refusal)
| Panics (what : string)
(* parsing *)
| BadDomainToken (s : string)
| BadPrefix (s : string)
| BadGwRouter (zone router : string)
| RetiredKey (what key : string)
| BadWorkloadGw (wl gw : string)
| BadDhcpServer (wl s : string)
| BadWorkloadVid (wl : string) (vid : Z)
| BadMemberAddress (m wl a : string)
| BadForwardPair (pair : string)
| BadPcpCtrl (n : Z)
| BadBfdPort (n : Z)
(* domains *)
| NoDomains
| NoWires (m : string)
| WireUndeclared (m w d : string)
| TwoWiresOnDomain (m d : string) (ws : list string)
| SegmentUndeclared (ifname d : string)
| PrimaryUndeclared (zone d : string)
| GwUndeclared (zone d : string)
| DomainUnwired (d : string)
(* segments, zones, members *)
| DupVid (s : string)
| DupSeg (s : string)
| DupZoneDomain (s : string)
| DupIfname (s : string)
| UnknownZone (name : string) (zones : list string)
| UnknownMember (name : string) (members : list string)
| UniversalTooLong (ifname : string)
| DupZoneId (s : string)
| BadZoneId (id : Z)
| PrimaryNoSegment (zone d : string)
| DupMember (s : string)
| DupNode (s : string)
(* preferences, forwarding *)
| PrefNotAWire (m zone w : string)
| PrefTwice (m zone : string)
| PrefIncomplete (m zone : string) (want got : list string)
| ForwardUnknownZone (from to z : string)
(* workloads *)
| WlIsZone (wl : string)
| WlTwice (wl : string)
| WlLegShared (wl leg other : string)
| WlVlanShared (wl uplink : string) (vid : Z) (other : string)
| WlLegCollides (wl leg : string)
| WlPrefixTooBig (wl : string) (p : Ipv4Prefix)
| WlGwOutside (wl : string) (gw : Ipv4Addr) (p : Ipv4Prefix)
| WlGwReserved (wl : string) (gw : Ipv4Addr) (p : Ipv4Prefix)
| DhcpIsGw (wl : string) (s : Ipv4Addr)
| DhcpIsMember (wl : string) (s : Ipv4Addr) (m : string)
| DhcpInside (wl : string) (s : Ipv4Addr) (p : Ipv4Prefix)
| DhcpReserved (wl : string) (s : Ipv4Addr)
| WlOverlapsZone (wl : string) (p : Ipv4Prefix) (zone : string) (block : Ipv4Prefix)
| WlAllowEmpty (wl : string)
| WlForwardOff (wl : string)
| WlAllowUnknown (wl z : string) (zones : list string)
| WlNoMember (wl : string)
| MwTwice (m wl : string)
| MwUnknown (m wl : string) (wls : list string)
| MwLeaf (m wl : string)
| MwOutside (m wl : string) (a : Ipv4Addr) (p : Ipv4Prefix)
| MwMask (m wl : string) (a : Ipv4Addr) (l : Z)
| MwIsGw (m wl : string) (a : Ipv4Addr)
| MwReserved (m wl : string) (a : Ipv4Addr) (p : Ipv4Prefix)
| MwShared (wl : string) (a : Ipv4Addr) (m1 m2 : string)
(* ingress *)
| GwIfnameTooLong (zone : string) (id : Z)
| GwVidTaken (zone : string) (vid : Z)
| GwNodeCollides (zone router : string) (node : Z) (m : string)
(* derived *)
| UniversalCostTooHigh (zone : string) (cost offset : Z)
| Rank0Unshared (zone m w d better : string)
| EqualCostPaths (zone src dst : string) (n cost : Z) (via : list string)
| NoLinkSpeed (m w : string).

(** ** Scopes *)

Definition DomainId := string.
Definition MAX_DOMAIN_TOKEN : nat := 1.
Definition MAX_BOND_IFNAME : nat := 15 - 1 - MAX_DOMAIN_TOKEN.

Definition domain_parse (s : string) : result Refusal DomainId :=
  if negb (String.length s =? MAX_DOMAIN_TOKEN)%nat || negb (str_forall is_ascii_alphabetic s)
  then Err (BadDomainToken s) else Ok s.

Inductive SegScope := OnDomain (d : DomainId) | Universal.

#[export] Instance SegScope_eq_dec : EqDecision SegScope.
Proof. solve_decision. Defined.

Definition scope_parse (s : string) : result Refusal SegScope :=
  if String.eqb s "any" then Ok Universal
  else d <-? domain_parse s ;; Ok (OnDomain d).

Definition scope_domain (s : SegScope) : option DomainId :=
  match s with OnDomain d => Some d | Universal => None end.
Definition is_universal (s : SegScope) : bool :=
  match s with Universal => true | OnDomain _ => false end.
Definition scope_show (s : SegScope) : string :=
  match s with OnDomain d => d | Universal => "any" end.

Definition bond_ifname_too_long (ifname : string) : bool :=
  (MAX_BOND_IFNAME <? String.length ifname)%nat.

(** ** Rows *)

Record Wire := { wire_name : string; wire_domain : DomainId; wire_speed : Z }.
Record MemberWorkload := { mw_name : string; mw_address : Ipv4Addr; mw_len : Z }.
Record Member := {
  m_name : string; m_node : Z; m_kind : MemberKind; m_wires : list Wire;
  m_workloads : list MemberWorkload
}.

#[export] Instance Wire_eq_dec : EqDecision Wire.
Proof. solve_decision. Defined.

Definition wire_on (m : Member) (d : DomainId) : option Wire :=
  List.find (λ w, String.eqb (wire_domain w) d) (m_wires m).
Definition wire_named (m : Member) (name : string) : option Wire :=
  List.find (λ w, String.eqb (wire_name w) name) (m_wires m).

Definition dscp_str (d : Dscp) : string :=
  match d with Cs0 => "cs0" | Cs2 => "cs2" | Cs6 => "cs6" end.
Definition tos (d : Dscp) : string :=
  match d with Cs0 => "0x00" | Cs2 => "0x40" | Cs6 => "0xc0" end.

Record ZoneGw := { gw_scope : SegScope; gw_vid : Z; gw_router : string }.

Definition subnet_prefix (g : ZoneGw) : string :=
  match rsplit_once "."%char (gw_router g) with Some (p, _) => p | None => gw_router g end.
Definition leg_cidr (g : ZoneGw) (node : Z) : string :=
  (subnet_prefix g ++ "." ++ show node ++ "/24")%string.
(** [None] is the [panic!]. *)
Definition router_octet (g : ZoneGw) : option Z :=
  '(_, o) ← rsplit_once "."%char (gw_router g); parse_uint u8_max o.

Record Zone := {
  z_name : string; z_id : Z; z_pcp : Z; z_dscp : Dscp; z_floor_mbps : Z; z_band : Z;
  z_weight : Z; z_primary : DomainId; z_gw : option ZoneGw
}.

Definition block_of (z : Zone) : string := ("10." ++ show (z_id z))%string.
Definition identity_ifnames (zone_id : Z) : string * string :=
  let id := ("cfab-id" ++ show zone_id)%string in (id, (id ++ "-peer")%string).
Definition gw_ifname (zone_id : Z) : string := ("cfab-gw" ++ show zone_id)%string.

Record Segment := {
  s_ifname : string; s_scope : SegScope; s_zone : string; s_seg : Z; s_vid : Z
}.
Record WirePref := { wp_member : string; wp_zone : string; wp_order : list string }.

(** ** [Ipv4Prefix::parse] *)

Definition prefix_parse (s : string) : result Refusal Ipv4Prefix :=
  match split_once "/"%char s with
  | None => Err (BadPrefix s)
  | Some (addr, l) =>
      match parse_addr addr, parse_uint u8_max l with
      | Some raw, Some l =>
          if 32 <? l then Err (BadPrefix s)
          else
            let n := Z.land raw (mask l) in
            if negb (n =? raw) then Err (BadPrefix s) else Ok (mk_prefix n l)
      | _, _ => Err (BadPrefix s)
      end
  end.

Definition prefix_show (p : Ipv4Prefix) : string := (show_addr (net p) ++ "/" ++ show (len p))%string.

(** ** Workloads *)

Definition IFNAME_MAX : nat := 15.
Definition LEG_PREFIX : string := "cfab-work-".
Definition MIN_WORKLOAD_PREFIX_LEN : Z := 22.

Record Workload := {
  wl_name : string; wl_uplink : string; wl_vid : Z; wl_prefix : Ipv4Prefix; wl_gw : Ipv4Addr;
  wl_dhcp_server : option Ipv4Addr; wl_allow : list string
}.

(** A byte that continues a UTF-8 character. *)
Definition is_cont (c : ascii) : bool := (128 <=? code c) && (code c <? 192).

(** Where the characters of [s] end: [char_indices().map(|(i, c)| i + c.len_utf8())]. *)
Fixpoint char_ends (i : nat) (s : string) : list nat :=
  match s with
  | EmptyString => []
  | String _ s' =>
      match s' with
      | EmptyString => [S i]
      | String c' _ => if is_cont c' then char_ends (S i) s' else S i :: char_ends (S i) s'
      end
  end.

Fixpoint take_while {A} (p : A → bool) (l : list A) : list A :=
  match l with
  | [] => []
  | x :: l' => if p x then x :: take_while p l' else []
  end.

Definition leg_cut (name : string) : nat :=
  let room := (IFNAME_MAX - String.length LEG_PREFIX)%nat in
  unwrap_or (list.last (take_while (λ e, (e <=? room)%nat) (char_ends 0 name))) 0%nat.
Definition leg_ifname (w : Workload) : string :=
  (LEG_PREFIX ++ String.substring 0 (leg_cut (wl_name w)) (wl_name w))%string.
Definition gw_cidr (w : Workload) : string :=
  (show_addr (wl_gw w) ++ "/" ++ show (len (wl_prefix w)))%string.
Definition local_set (w : Workload) : string := (leg_ifname w ++ "-local")%string.
Definition address_cidr (mw : MemberWorkload) : string :=
  (show_addr (mw_address mw) ++ "/" ++ show (mw_len mw))%string.

(** ** The fabric *)

Record Fabric := {
  f_domains : list DomainId;
  f_members : list Member;
  f_zones : list Zone;
  f_segments : list Segment;
  f_wire_prefs : list WirePref;
  f_leaf_cost_offset : Z;
  f_host_forward : bool;
  f_forward_allow : list (string * string);
  f_admin_floor_mbps : Z;
  f_admin_band : Z;
  f_pcp_ctrl : Z;
  f_dscp_mark : bool;
  f_bfd : BfdDecl;
  f_ospf : OspfDecl;
  f_bgp : BgpDecl;
  f_run_dir : string;
  f_dns_domain : string;
  f_workloads : list Workload
}.

(** [#[derive(PartialEq)]]. *)
#[export] Instance MemberWorkload_eq_dec : EqDecision MemberWorkload.
Proof. solve_decision. Defined.
#[export] Instance Member_eq_dec : EqDecision Member.
Proof. solve_decision. Defined.
#[export] Instance ZoneGw_eq_dec : EqDecision ZoneGw.
Proof. solve_decision. Defined.
#[export] Instance Zone_eq_dec : EqDecision Zone.
Proof. solve_decision. Defined.
#[export] Instance Segment_eq_dec : EqDecision Segment.
Proof. solve_decision. Defined.
#[export] Instance WirePref_eq_dec : EqDecision WirePref.
Proof. solve_decision. Defined.
#[export] Instance Workload_eq_dec : EqDecision Workload.
Proof. solve_decision. Defined.
#[export] Instance BfdDecl_eq_dec : EqDecision BfdDecl.
Proof. solve_decision. Defined.
#[export] Instance OspfDecl_eq_dec : EqDecision OspfDecl.
Proof. solve_decision. Defined.
#[export] Instance BgpDecl_eq_dec : EqDecision BgpDecl.
Proof. solve_decision. Defined.
#[export] Instance Fabric_eq_dec : EqDecision Fabric.
Proof. solve_decision. Defined.

Definition member (f : Fabric) (name : string) : result Refusal Member :=
  match List.find (λ m, String.eqb (m_name m) name) (f_members f) with
  | Some m => Ok m
  | None => Err (UnknownMember name (m_name <$> f_members f))
  end.
Definition zone (f : Fabric) (name : string) : result Refusal Zone :=
  match List.find (λ z, String.eqb (z_name z) name) (f_zones f) with
  | Some z => Ok z
  | None => Err (UnknownZone name (z_name <$> f_zones f))
  end.
Definition wire_pref (f : Fabric) (m z : string) : option WirePref :=
  List.find (λ p, String.eqb (wp_member p) m && String.eqb (wp_zone p) z) (f_wire_prefs f).
Definition workload (f : Fabric) (name : string) : option Workload :=
  List.find (λ w, String.eqb (wl_name w) name) (f_workloads f).

(** Does a segment of the zone live on the domain? *)
Definition segment_on (f : Fabric) (z : string) (d : DomainId) : bool :=
  any (λ s, String.eqb (s_zone s) z && bool_decide (s_scope s = OnDomain d)) (f_segments f).

Definition candidate_wires (f : Fabric) (m : Member) (z : string) : list Wire :=
  filter (λ w, segment_on f z (wire_domain w)) (m_wires m).

(** ** Rows from their declarations *)

(** [xs.iter().map(f).collect::<Result<Vec<_>>>()]. *)
Fixpoint collect {E A B} (f : A → result E B) (l : list A) : result E (list B) :=
  match l with
  | [] => Ok []
  | x :: l' => y <-? f x ;; ys <-? collect f l' ;; Ok (y :: ys)
  end.

(** [.map_err(|e| Error::context(w, e))]. *)
Definition context {A} (w : string) (r : result Refusal A) : result Refusal A :=
  match r with Ok a => Ok a | Err e => Err (Context w e) end.

Definition resolve_gw (z : string) (g : GwDecl) : result Refusal ZoneGw :=
  match split_once "/"%char (gd_router g) with
  | None => Err (BadGwRouter z (gd_router g))
  | Some (router, l) =>
      if negb (String.eqb l "24") then Err (BadGwRouter z (gd_router g))
      else if negb (length (split "."%char router) =? 4)%nat
              || any (λ o, bool_decide (parse_uint u8_max o = None)) (split "."%char router)
      then Err (BadGwRouter z (gd_router g))
      else
        s <-? context ("zone " ++ z ++ ": gw ")%string (scope_parse (gd_domain g)) ;;
        Ok {| gw_scope := s; gw_vid := gd_vid g; gw_router := router |}
  end.

Definition parse_ipv4_with_len (s : string) : option (Ipv4Addr * Z) :=
  '(addr, l) ← split_once "/"%char s;
  addr ← parse_addr addr;
  l ← parse_uint u8_max l;
  if 32 <? l then None else Some (addr, l).

Definition refuse_retired_workload_keys (w : WorkloadDecl) : result Refusal unit :=
  refuse_if (bool_decide (is_Some (wld_span w))) (RetiredKey (wld_name w) "span") ;;?
  refuse_if (bool_decide (is_Some (wld_router w))) (RetiredKey (wld_name w) "router").

Definition resolve_workload (w : WorkloadDecl) : result Refusal Workload :=
  p <-? context ("workload " ++ wld_name w ++ ": ")%string (prefix_parse (wld_prefix w)) ;;
  gw <-? match parse_addr (wld_gw w) with
         | Some a => Ok a | None => Err (BadWorkloadGw (wld_name w) (wld_gw w)) end ;;
  server <-? match wld_dhcp_server w with
             | None => Ok None
             | Some s => match parse_addr s with
                         | Some a => Ok (Some a)
                         | None => Err (BadDhcpServer (wld_name w) s)
                         end
             end ;;
  refuse_if (negb ((2 <=? wld_vid w) && (wld_vid w <=? 4094)))
    (BadWorkloadVid (wld_name w) (wld_vid w)) ;;?
  Ok {| wl_name := wld_name w; wl_uplink := wld_uplink w; wl_vid := wld_vid w; wl_prefix := p;
        wl_gw := gw; wl_dhcp_server := server; wl_allow := wld_allow w |}.

(** ** Lemmas on prefixes *)

Lemma prefix_parse_ok s p : prefix_parse s = Ok p → prefix_ok p.
Proof.
  unfold prefix_parse. destruct (split_once _ s) as [[addr l]|]; [|done].
  destruct (parse_addr addr) as [raw|] eqn:Ea; [|done].
  destruct (parse_uint u8_max l) as [n|] eqn:El; [|done].
  destruct (32 <? n) eqn:L; [done|]. destruct (negb _) eqn:N; [done|]. intros [= <-]. split_bools.
  apply parse_uint_bounds in El. apply parse_addr_ok in Ea. unfold prefix_ok. cbn.
  rewrite N. split_and!; try done; lia.
Qed.

(** [Ipv4Prefix::parse] accepts only a length that exists with no host bits set, and reads
    back exactly every prefix the program prints. *)
Theorem prefix_roundtrip (s : string) (p : Ipv4Prefix) :
  (prefix_parse s = Ok p → prefix_ok p) ∧ (prefix_ok p → prefix_parse (prefix_show p) = Ok p).
Proof.
  split; [apply prefix_parse_ok|]. intros (Hl & Hn & Hm). unfold prefix_parse, prefix_show.
  rewrite str_app_char, split_once_join.
  2:{ assert (Hf : ∀ n, 0 ≤ n → free_of "/" (show n) = true)
        by (intros; by apply digits_free_of, show_digits).
      unfold show_addr, addr_ok, u32_max in *. 
      rewrite !free_of_app, !Hf; [done|try apply Z.mod_pos_bound; try apply Z.div_pos; lia..]. }
  rewrite parse_addr_show, parse_uint_show by (done || unfold u8_max; lia).
  rewrite Hm, Z.eqb_refl. rewrite (proj2 (Z.ltb_ge 32 (len p))) by lia. by destruct p.
Qed.
