(* ===== verification/Child.v ===== *)
(** One supervised child (src/src/supervisor/child.rs): the state machine, with no process in
    it. Every transition is decided from its arguments; how processes meet it is [Supervisor]. *)
From Stdlib Require Import Ascii String.
From S2P Require Import Prelude Text Fabric.
Local Open Scope Z_scope.

Definition BACKOFF : Duration := from_secs 2.
Definition LOG_LINES : nat := 200.
Definition LOG_LINE_MAX : nat := 2048.

(** The three [&'static str] names the code passes: a look-up by name always finds its child. *)
Inductive ChildName := Engine | ShapeDaemon | ConfSync.

#[export] Instance ChildName_eq_dec : EqDecision ChildName.
Proof. solve_decision. Defined.

Definition name_str (n : ChildName) : string :=
  match n with Engine => "engine" | ShapeDaemon => "shape-daemon" | ConfSync => "conf-sync" end.

Inductive State := Starting | Running | Restarting | Stopped.

#[export] Instance State_eq_dec : EqDecision State.
Proof. solve_decision. Defined.

Definition as_str (s : State) : string :=
  match s with
  | Starting => "starting" | Running => "running" | Restarting => "restarting"
  | Stopped => "stopped"
  end.

Record ExitCause := { ec_cause : string; ec_s_ago : Z }.

Record Child := {
  c_name : ChildName; c_state : State; c_want : bool; c_restarts : Z;
  c_why_stopped : option string; c_pid : option Z; c_started_at : option Instant;
  c_last_exit : option string; c_exited_at : option Instant; c_log : list string
}.

Definition child_new (name : ChildName) : Child :=
  {| c_name := name; c_state := Stopped; c_want := false; c_restarts := 0;
     c_why_stopped := None; c_pid := None; c_started_at := None; c_last_exit := None;
     c_exited_at := None; c_log := [] |}.

Definition stopped (name : ChildName) (why : string) : Child :=
  {| c_name := name; c_state := Stopped; c_want := false; c_restarts := 0;
     c_why_stopped := Some why; c_pid := None; c_started_at := None; c_last_exit := None;
     c_exited_at := None; c_log := [] |}.

(** The instant at which the child may be respawned is the second component. *)
Definition exited (c : Child) (cause : string) (now : Instant) : Child * option Instant :=
  ({| c_name := c_name c; c_state := if c_want c then Restarting else Stopped;
      c_want := c_want c; c_restarts := if c_want c then c_restarts c + 1 else c_restarts c;
      c_why_stopped := c_why_stopped c; c_pid := None; c_started_at := None;
      c_last_exit := Some cause; c_exited_at := Some now; c_log := c_log c |},
   if c_want c then Some (now + BACKOFF) else None).

Definition spawned (c : Child) (pid : Z) (now : Instant) (needs_readiness : bool) : Child :=
  {| c_name := c_name c; c_state := if needs_readiness then Starting else Running;
     c_want := true; c_restarts := c_restarts c; c_why_stopped := None; c_pid := Some pid;
     c_started_at := Some now; c_last_exit := c_last_exit c; c_exited_at := c_exited_at c;
     c_log := c_log c |}.

Definition set_state (c : Child) (st : State) : Child :=
  {| c_name := c_name c; c_state := st; c_want := c_want c; c_restarts := c_restarts c;
     c_why_stopped := c_why_stopped c; c_pid := c_pid c; c_started_at := c_started_at c;
     c_last_exit := c_last_exit c; c_exited_at := c_exited_at c; c_log := c_log c |}.

(** [c.want = w], which the supervisor does from outside. *)
Definition set_want (c : Child) (w : bool) : Child :=
  {| c_name := c_name c; c_state := c_state c; c_want := w; c_restarts := c_restarts c;
     c_why_stopped := c_why_stopped c; c_pid := c_pid c; c_started_at := c_started_at c;
     c_last_exit := c_last_exit c; c_exited_at := c_exited_at c; c_log := c_log c |}.

Definition became_ready (c : Child) : Child :=
  if decide (c_state c = Starting) then set_state c Running else c.

Definition last_exit (c : Child) (now : Instant) : option ExitCause :=
  cause ← c_last_exit c;
  at_ ← c_exited_at c;
  Some {| ec_cause := cause; ec_s_ago := saturating_since now at_ / nanos_per_sec |}.

Definition uptime_s (c : Child) (now : Instant) : option Z :=
  (λ t, saturating_since now t / nanos_per_sec) <$> c_started_at c.

(** ** The captured output *)

(** [s.is_char_boundary(i)]: an end of the string, or a byte that starts a character. *)
Definition is_char_boundary (s : string) (i : nat) : bool :=
  (i =? 0)%nat || (i =? String.length s)%nat ||
  is_some_and (String.get i s) (λ b, negb (is_cont b)).

(** [while end > 0 && !line.is_char_boundary(end) { end -= 1 }]. *)
Fixpoint cut_back (line : string) (end_ : nat) : nat :=
  match end_ with
  | O => O
  | S e => if is_char_boundary line end_ then end_ else cut_back line e
  end.

Definition log_cut (line : string) : nat :=
  cut_back line (Nat.min (String.length line) LOG_LINE_MAX).

Definition push_log (c : Child) (line : string) : Child :=
  let log := if (length (c_log c) =? LOG_LINES)%nat then tail (c_log c) else c_log c in
  {| c_name := c_name c; c_state := c_state c; c_want := c_want c; c_restarts := c_restarts c;
     c_why_stopped := c_why_stopped c; c_pid := c_pid c; c_started_at := c_started_at c;
     c_last_exit := c_last_exit c; c_exited_at := c_exited_at c;
     c_log := log ++ [String.substring 0 (log_cut line) line] |}.

(** [self.log.len().saturating_sub(n)] lines are skipped. *)
Definition log_tail (c : Child) (n : nat) : list string := drop (length (c_log c) - n) (c_log c).

(** ** The ring *)

Lemma cut_back_le line e : (cut_back line e ≤ e)%nat.
Proof. induction e as [|e IH]; cbn [cut_back]; [done|]. destruct (is_char_boundary _ _); lia. Qed.

Lemma cut_back_boundary line e : is_char_boundary line (cut_back line e) = true.
Proof.
  induction e as [|e IH]; cbn [cut_back]; [done|].
  by destruct (is_char_boundary line (S e)) eqn:E.
Qed.

Lemma cut_back_largest line e i :
  (i ≤ e)%nat → is_char_boundary line i = true → (i ≤ cut_back line e)%nat.
Proof.
  induction e as [|e IH]; cbn [cut_back]; [lia|]. intros Hi Hb.
  destruct (is_char_boundary line (S e)) eqn:E; [done|].
  destruct (decide (i = S e)) as [->|Hne]; [congruence|]. apply IH; [lia|done].
Qed.

(** A line keeps its longest prefix of at most [LOG_LINE_MAX] bytes that ends between
    characters. *)
Lemma log_cut_spec line :
  (log_cut line ≤ LOG_LINE_MAX)%nat ∧ (log_cut line ≤ String.length line)%nat ∧
  is_char_boundary line (log_cut line) = true ∧
  ∀ i, (i ≤ String.length line)%nat → (i ≤ LOG_LINE_MAX)%nat → is_char_boundary line i = true →
    (i ≤ log_cut line)%nat.
Proof.
  unfold log_cut. pose proof (cut_back_le line (Nat.min (String.length line) LOG_LINE_MAX)).
  split_and!; [lia|lia|apply cut_back_boundary|]. intros i H1 H2. apply cut_back_largest. lia.
Qed.

Definition pushed (c : Child) (ls : list string) : Child := foldl push_log c ls.
Definition cut_line (line : string) : string := String.substring 0 (log_cut line) line.

Lemma drop_snoc_ring {A} (k : nat) (l : list A) x :
  (0 < k)%nat →
  (if (length (drop (length l - k) l) =? k)%nat then tail (drop (length l - k) l)
   else drop (length l - k) l) ++ [x] = drop (length (l ++ [x]) - k) (l ++ [x]).
Proof.
  intros Hk. rewrite length_app, length_drop. cbn [length].
  destruct (Nat.eqb_spec (length l - (length l - k)) k) as [E|E].
  - rewrite drop_app_le by lia. f_equal.
    replace (length l + 1 - k)%nat with (length l - k + 1)%nat by lia. rewrite <-drop_drop.
    by destruct (drop _ l).
  - rewrite drop_app_le by lia. do 2 f_equal. lia.
Qed.

Lemma pushed_log c ls :
  c_log c = [] → c_log (pushed c ls) = drop (length ls - LOG_LINES) (cut_line <$> ls).
Proof.
  intros Hc. unfold pushed. induction ls as [|l ls IH] using rev_ind; cbn; [done|].
  rewrite foldl_app, fmap_app. cbn [foldl fmap list_fmap].
  unfold push_log at 1. cbn [c_log]. rewrite IH. fold (cut_line l).
  rewrite <-(length_fmap cut_line ls). rewrite drop_snoc_ring by (unfold LOG_LINES; lia).
  by rewrite !length_app, length_fmap.
Qed.

(** The ring of a child holds the last 200 lines it captured, oldest first, each cut to its
    longest prefix of at most 2048 bytes that ends between two characters; [log_tail n] answers
    the last [n] of them. *)
Theorem log_is_last_lines (name : ChildName) (ls : list string) (n : nat) :
  let c := pushed (child_new name) ls in
  c_log c = drop (length ls - LOG_LINES) (cut_line <$> ls) ∧
  log_tail c n = drop (length ls - Nat.min n LOG_LINES) (cut_line <$> ls) ∧
  (length (log_tail c n) ≤ Nat.min n LOG_LINES)%nat ∧
  Forall (λ line, (String.length line ≤ LOG_LINE_MAX)%nat) (c_log c) ∧
  ∀ line, (log_cut line ≤ LOG_LINE_MAX)%nat ∧ is_char_boundary line (log_cut line) = true ∧
    ∀ i, (i ≤ String.length line)%nat → (i ≤ LOG_LINE_MAX)%nat →
      is_char_boundary line i = true → (i ≤ log_cut line)%nat.
Proof.
  intros c. assert (Hlog : c_log c = drop (length ls - LOG_LINES) (cut_line <$> ls)) by
    (by apply pushed_log).
  assert (Ht : log_tail c n = drop (length ls - Nat.min n LOG_LINES) (cut_line <$> ls)).
  { unfold log_tail. rewrite Hlog, drop_drop, length_drop, length_fmap. f_equal. lia. }
  split_and!; [done|done| | |].
  - rewrite Ht, length_drop, length_fmap. lia.
  - rewrite Hlog. apply list.Forall_drop, list.Forall_fmap, list.Forall_true. intros line. cbn.
    destruct (log_cut_spec line) as (H1 & H2 & _). unfold cut_line.
    pose proof (substring_length (log_cut line) line). lia.
  - intros line. by destruct (log_cut_spec line) as (H1 & H2 & H3 & H4).
Qed.
