(* ===== verification/Derive.v ===== *)
(** Derivations from the typed fabric (src/src/derive.rs): each member's resolved rows, and the
    checks that need them.

    A [panic!] or [expect] of the source is [Err (Panics _)]; everything that can reach one is
    in the [result] monad, so "a validated fabric derives" is a theorem about these
    definitions. *)
From Stdlib Require Import Ascii String.
From S2P Require Import Prelude Text Net Decl Fabric.
Local Open Scope Z_scope.

(** ** Rows *)

Record ClassRow := {
  cr_ifname : string; cr_wire : string; cr_zone : string; cr_seg : Z; cr_vid : Z;
  cr_ospf_cost : Z
}.
Record Port := { po_ifname : string; po_wire : string }.
Record GwRow := {
  gr_ifname : string; gr_home : string; gr_zone : string; gr_vid : Z; gr_ports : list Port
}.
Definition migrates (g : GwRow) : bool := negb (bool_decide (gr_ports g = [])).
Record FallbackRow := {
  fr_ifname : string; fr_zone : string; fr_seg : Z; fr_vid : Z; fr_ospf_cost : Z;
  fr_home : string; fr_ports : list Port
}.
Record WorkloadRow := { wr_wl : Workload; wr_address : string; wr_addr : Ipv4Addr }.

Inductive PrefSource := Derived | Override.
Record HostZonePref := { hp_zone : string; hp_order : list string; hp_source : PrefSource }.

Definition pref_source_str (s : PrefSource) : string :=
  match s with Derived => "derived" | Override => "override" end.
Definition pref_render (p : HostZonePref) : string :=
  (hp_zone p ++ ": " ++ (match hp_order p with [] => "-" | o => String.concat " " o end)
    ++ " (" ++ pref_source_str (hp_source p) ++ ")")%string.

(** ** Preferences and costs *)

Definition ladder_cost (rank : nat) : Z := if (rank =? 0)%nat then 10 else 100 * Z.of_nat rank.
Definition LADDER_STEP : Z := 100.

(** Speed descending, ties by position. *)
Definition faster (a b : nat * Wire) : bool :=
  (wire_speed b.2 <? wire_speed a.2)
  || ((wire_speed a.2 =? wire_speed b.2) && (a.1 <=? b.1)%nat).

Definition enumerate {A} (l : list A) : list (nat * A) := zip (seq 0 (length l)) l.

Definition derived_order (z : Zone) (candidates : list Wire) : list string :=
  let rest := filter (λ iw : nat * Wire, negb (String.eqb (wire_domain iw.2) (z_primary z)))
                (enumerate candidates) in
  let first := match List.find (λ w, String.eqb (wire_domain w) (z_primary z)) candidates with
               | Some w => [wire_name w] | None => [] end in
  first ++ ((λ iw : nat * Wire, wire_name iw.2) <$> merge_sort (leb_rel faster) rest).

Definition pref_of (f : Fabric) (m : Member) (z : Zone) : HostZonePref :=
  match wire_pref f (m_name m) (z_name z) with
  | Some p => {| hp_zone := z_name z; hp_order := wp_order p; hp_source := Override |}
  | None => {| hp_zone := z_name z; hp_order := derived_order z (candidate_wires f m (z_name z));
               hp_source := Derived |}
  end.
Definition prefs_of (f : Fabric) (m : Member) : list HostZonePref := pref_of f m <$> f_zones f.

(** [filter_map] over fallible rows. *)
Fixpoint filter_collect {E A B} (f : A → result E (option B)) (l : list A) : result E (list B) :=
  match l with
  | [] => Ok []
  | x :: l' => y <-? f x ;; ys <-? filter_collect f l' ;; Ok (option_list y ++ ys)
  end.

Definition class_row (f : Fabric) (m : Member) (r : Segment) : result Refusal (option ClassRow) :=
  match scope_domain (s_scope r) ≫= wire_on m with
  | None => Ok None
  | Some w =>
      match List.find (λ p, String.eqb (hp_zone p) (s_zone r)) (prefs_of f m) with
      | None => Err (Panics "no wire preference for zone")
      | Some p =>
          match position (λ n, String.eqb n (wire_name w)) (hp_order p) with
          | None => Err (Panics "preference order does not contain wire")
          | Some rank =>
              Ok (Some {| cr_ifname := s_ifname r; cr_wire := wire_name w; cr_zone := s_zone r;
                          cr_seg := s_seg r; cr_vid := s_vid r; cr_ospf_cost := ladder_cost rank |})
          end
      end
  end.

Definition class_rows_of (f : Fabric) (m : Member) : result Refusal (list ClassRow) :=
  filter_collect (class_row f m) (f_segments f).

Definition ports_of (m : Member) (ifname : string) : list Port :=
  (λ w, {| po_ifname := (ifname ++ "-" ++ wire_domain w)%string; po_wire := wire_name w |})
    <$> m_wires m.

(** The loop of [home_wire]. *)
Definition better_home (z : string) (best : option (Z * string)) (r : ClassRow)
    : option (Z * string) :=
  if negb (String.eqb (cr_zone r) z) then best
  else if is_none_or best (λ b, cr_ospf_cost r <? b.1) then Some (cr_ospf_cost r, cr_wire r)
  else best.

Definition home_wire (f : Fabric) (m : Member) (z : string) : result Refusal (option string) :=
  rows <-? class_rows_of f m ;;
  Ok (snd <$> foldl (better_home z) None rows).

(** The highest cost any member gives the segment. *)
Definition segment_cost (f : Fabric) (s : Segment) : result Refusal Z :=
  costs <-? filter_collect
    (λ m, rows <-? class_rows_of f m ;;
          Ok (cr_ospf_cost <$> List.find (λ r, String.eqb (cr_ifname r) (s_ifname s)) rows))
    (f_members f) ;;
  Ok (foldr Z.max 0 costs).

Definition universal_cost (f : Fabric) (z : string) : result Refusal Z :=
  costs <-? collect (segment_cost f)
    (filter (λ s, String.eqb (s_zone s) z && negb (is_universal (s_scope s))) (f_segments f)) ;;
  Ok (foldr Z.add 0 costs + LADDER_STEP).

(** [home_wire(..).or_else(|| ports.first().map(..))]. *)
Definition home_or_first (home : option string) (ports : list Port) : option string :=
  or_else home (po_wire <$> head ports).

Definition fallback_row (f : Fabric) (m : Member) (r : Segment)
    : result Refusal (option FallbackRow) :=
  let ports := ports_of m (s_ifname r) in
  home <-? home_wire f m (s_zone r) ;;
  match home_or_first home ports with
  | None => Ok None
  | Some h =>
      cost <-? universal_cost f (s_zone r) ;;
      Ok (Some {| fr_ifname := s_ifname r; fr_zone := s_zone r; fr_seg := s_seg r;
                  fr_vid := s_vid r; fr_ospf_cost := cost; fr_home := h; fr_ports := ports |})
  end.

Definition fallback_rows_of (f : Fabric) (m : Member) : result Refusal (list FallbackRow) :=
  filter_collect (fallback_row f m) (filter (λ r, is_universal (s_scope r)) (f_segments f)).

Definition gw_row (f : Fabric) (m : Member) (z : Zone) : result Refusal (option GwRow) :=
  match z_gw z with
  | None => Ok None
  | Some g =>
      let ifname := gw_ifname (z_id z) in
      let row home ports :=
        {| gr_ifname := ifname; gr_home := home; gr_zone := z_name z; gr_vid := gw_vid g;
           gr_ports := ports |} in
      match gw_scope g with
      | OnDomain d => Ok ((λ w, row (wire_name w) []) <$> wire_on m d)
      | Universal =>
          let ports := ports_of m ifname in
          home <-? home_wire f m (z_name z) ;;
          Ok ((λ h, row h ports) <$> home_or_first home ports)
      end
  end.

Definition gw_rows_of (f : Fabric) (m : Member) : result Refusal (list GwRow) :=
  match m_kind m with
  | Host => filter_collect (gw_row f m) (f_zones f)
  | Leaf => Ok []
  end.

Definition segments_of (f : Fabric) (m : Member) : result Refusal (gset string) :=
  rows <-? class_rows_of f m ;;
  Ok (list_to_set ((λ r, (cr_zone r ++ ":" ++ show (cr_seg r))%string) <$> rows)).

(** ** The view of one member *)

Record View := { v_fabric : Fabric; v_member : Member }.

Definition view_new (f : Fabric) (name : string) : result Refusal View :=
  m <-? member f name ;; Ok {| v_fabric := f; v_member := m |}.

Definition class_rows (v : View) := class_rows_of (v_fabric v) (v_member v).
Definition gw_rows (v : View) := gw_rows_of (v_fabric v) (v_member v).
Definition fallback_rows (v : View) := fallback_rows_of (v_fabric v) (v_member v).
Definition prefs (v : View) := prefs_of (v_fabric v) (v_member v).

Definition workload_rows (v : View) : list WorkloadRow :=
  omap (λ wl, (λ mw, {| wr_wl := wl; wr_address := address_cidr mw; wr_addr := mw_address mw |})
                <$> List.find (λ mw, String.eqb (mw_name mw) (wl_name wl)) (m_workloads (v_member v)))
    (f_workloads (v_fabric v)).

Definition zone_ifs (v : View) (z : string) : result Refusal (list string) :=
  cs <-? class_rows v ;;
  fs <-? fallback_rows v ;;
  gs <-? gw_rows v ;;
  Ok ((cr_ifname <$> filter (λ r, String.eqb (cr_zone r) z) cs)
      ++ (fr_ifname <$> filter (λ r, String.eqb (fr_zone r) z) fs)
      ++ (gr_ifname <$> filter (λ r, String.eqb (gr_zone r) z) gs)).

Definition wires (v : View) : result Refusal (list string) :=
  cs <-? class_rows v ;; Ok (btree_set_iter str_leb (list_to_set (cr_wire <$> cs))).

Definition admin_ifs (v : View) : list string :=
  match m_kind (v_member v) with
  | Host => wire_name <$> m_wires (v_member v)
  | Leaf => []
  end.
Definition is_admin_if (v : View) (ifname : string) : bool := bool_decide (ifname ∈ admin_ifs v).

(** [out.sort(); out.dedup_by(|a, b| a.0 == b.0)]: [false] sorts before [true]. *)
Definition flag_leb (a b : string * bool) : bool :=
  match String.compare a.1 b.1 with
  | Lt => true
  | Eq => implb a.2 b.2
  | Gt => false
  end.
Fixpoint dedup_from (prev : string * bool) (l : list (string * bool)) : list (string * bool) :=
  match l with
  | [] => []
  | x :: l' => if String.eqb x.1 prev.1 then dedup_from prev l' else x :: dedup_from x l'
  end.
Definition dedup_by_name (l : list (string * bool)) : list (string * bool) :=
  match l with [] => [] | x :: l' => x :: dedup_from x l' end.

Definition owned_list (v : View) : result Refusal (list (string * bool)) :=
  let f := v_fabric v in
  let transit := bool_decide (m_kind (v_member v) = Host) && f_host_forward f in
  cs <-? class_rows v ;;
  gs <-? gw_rows v ;;
  fs <-? fallback_rows v ;;
  Ok (((λ w, (wire_name w, false)) <$> m_wires (v_member v))
      ++ ((λ r, (cr_ifname r, transit)) <$> cs)
      ++ (gs ≫= λ r, (gr_ifname r, transit) :: ((λ p, (po_ifname p, false)) <$> gr_ports r))
      ++ (fs ≫= λ r, (fr_ifname r, transit) :: ((λ p, (po_ifname p, false)) <$> fr_ports r))
      ++ ((λ r, (leg_ifname (wr_wl r), transit)) <$> workload_rows v)
      ++ (f_zones f ≫= λ z, let '(id, peer) := identity_ifnames (z_id z) in
                            [(peer, false); (id, false)])).

Definition owned_forwarding (v : View) : result Refusal (list (string * bool)) :=
  l <-? owned_list v ;; Ok (dedup_by_name (merge_sort (leb_rel flag_leb) l)).

Definition owns_if (v : View) (ifname : string) : result Refusal bool :=
  l <-? owned_forwarding v ;;
  Ok (starts_with "cfab-" ifname || any (λ p, String.eqb p.1 ifname) l).

Definition link_speed (v : View) (w : string) : result Refusal Z :=
  match wire_named (v_member v) w with
  | Some w => Ok (wire_speed w)
  | None => Err (NoLinkSpeed (m_name (v_member v)) w)
  end.

Definition identity_if (z : Zone) : string := (identity_ifnames (z_id z)).1.
Definition identity_addr_of (z : Zone) (m : Member) : string :=
  (block_of z ++ ".0." ++ show (m_node m))%string.
Definition identity_addr (v : View) (z : Zone) : string := identity_addr_of z (v_member v).
Definition segment_addr (v : View) (z : Zone) (seg : Z) : string :=
  (block_of z ++ "." ++ show seg ++ "." ++ show (m_node (v_member v)))%string.

(** ** Checks on what is derived *)

(** Does another member wire into the domain? *)
Definition shared (f : Fabric) (m : Member) (d : DomainId) : bool :=
  any (λ o, negb (String.eqb (m_name o) (m_name m)) && bool_decide (is_Some (wire_on o d)))
    (f_members f).

(** The first wire of [l] whose domain is shared; [expect]s that each is a wire. *)
Fixpoint first_shared (f : Fabric) (m : Member) (l : list string)
    : result Refusal (option string) :=
  match l with
  | [] => Ok None
  | n :: l' =>
      match wire_named m n with
      | None => Err (Panics "a declared wire")
      | Some w => if shared f m (wire_domain w) then Ok (Some n) else first_shared f m l'
      end
  end.

Definition check_rank0_member (f : Fabric) (z : string) (m : Member) : result Refusal unit :=
  match m_kind m with
  | Leaf => Ok tt
  | Host =>
      match hp_order <$> List.find (λ p, String.eqb (hp_zone p) z) (prefs_of f m) with
      | None | Some [] => Ok tt
      | Some (first :: rest) =>
          match wire_named m first with
          | None => Err (Panics "a pref order names this member's wires")
          | Some w =>
              if shared f m (wire_domain w) then Ok tt
              else
                reaches <-? first_shared f m rest ;;
                match reaches with
                | None => Ok tt
                | Some r => Err (Rank0Unshared z (m_name m) first (wire_domain w) r)
                end
          end
      end
  end.

Definition check_rank0_is_shared (f : Fabric) (z : string) : result Refusal unit :=
  for_each (check_rank0_member f z) (f_members f).

(** *** The graph of a zone *)

(** An edge: the member it reaches, its cost, the interface it leaves by. *)
Definition Edge : Type := string * Z * string.

Definition edges_to (f : Fabric) (z : string) (offset : Z) (rows : list ClassRow)
    (universals : list FallbackRow) (other : Member) : result Refusal (list Edge) :=
  theirs <-? class_rows_of f other ;;
  let segs := cr_seg <$> filter (λ r, String.eqb (cr_zone r) z) theirs in
  Ok (((λ r, (m_name other, u32_add (cr_ospf_cost r) offset, cr_ifname r))
         <$> filter (λ r, cr_seg r ∈ segs) rows)
      ++ ((λ r, (m_name other, u32_add (fr_ospf_cost r) offset, fr_ifname r)) <$> universals)).

Definition edges_from (f : Fabric) (z : string) (m : Member) : result Refusal (list Edge) :=
  let offset := match m_kind m with Leaf => f_leaf_cost_offset f | Host => 0 end in
  rows <-? class_rows_of f m ;;
  universals <-? fallback_rows_of f m ;;
  let rows := filter (λ r, String.eqb (cr_zone r) z) rows in
  let universals := filter (λ r, String.eqb (fr_zone r) z) universals in
  per_other <-? collect (edges_to f z offset rows universals)
    (filter (λ o, negb (String.eqb (m_name o) (m_name m))) (f_members f)) ;;
  Ok (concat per_other).

(** [edges.entry(&m.name).or_default().push(..)]. *)
Definition edges_of (f : Fabric) (z : string) : result Refusal (gmap string (list Edge)) :=
  ls <-? collect (λ m, es <-? edges_from f z m ;; Ok (m_name m, es)) (f_members f) ;;
  Ok (foldl (λ g me, <[me.1 := unwrap_or (g !! me.1) [] ++ me.2]> g) ∅ ls).

(** *** Dijkstra with path counts *)

Record Paths := mk_paths {
  p_dist : gmap string Z; p_count : gmap string Z; p_via : gmap string (list string);
  p_done : gset string
}.

Definition paths_from (src : string) : Paths := mk_paths {[src := 0]} {[src := 1]} ∅ ∅.

(** The key of [min_by_key]: distance, then name. *)
Definition closer (a b : string * Z) : bool :=
  (a.2 <? b.2) || ((a.2 =? b.2) && match String.compare a.1 b.1 with Lt => true | _ => false end).

Definition next_node (p : Paths) : option (string * Z) :=
  min_by_key id closer
    (filter (λ nd : string * Z, nd.1 ∉ p_done p) (btree_iter str_leb (p_dist p))).

Definition hop (node ifname : string) : string := (node ++ ":" ++ ifname)%string.

(** One turn of the loop over a node's edges. *)
Definition relax (node : string) (d : Z) (p : Paths) (e : Edge) : Paths :=
  let '(to, cost, ifname) := e in
  if bool_decide (to ∈ p_done p) then p
  else
    let nd := u32_add d cost in
    let paths := unwrap_or (p_count p !! node) 0 in
    let fresh := mk_paths (<[to := nd]> (p_dist p)) (<[to := paths]> (p_count p))
                   (<[to := [hop node ifname]]> (p_via p)) (p_done p) in
    match p_dist p !! to with
    | None => fresh
    | Some c =>
        if c <? nd then p
        else if c =? nd then
          mk_paths (p_dist p) (<[to := u32_add (unwrap_or (p_count p !! to) 0) paths]> (p_count p))
            (<[to := unwrap_or (p_via p !! to) [] ++ [hop node ifname]]> (p_via p)) (p_done p)
        else fresh
    end.

Definition is_leaf (f : Fabric) (node : string) : bool :=
  match member f node with Ok m => bool_decide (m_kind m = Leaf) | Err _ => false end.

Definition settle (node : string) (p : Paths) : Paths :=
  mk_paths (p_dist p) (p_count p) (p_via p) (p_done p ∪ {[node]}).

Fixpoint dijkstra (fuel : nat) (f : Fabric) (edges : gmap string (list Edge)) (src : string)
    (p : Paths) : option Paths :=
  match fuel with
  | O => None
  | S fuel =>
      match next_node p with
      | None => Some p
      | Some (node, d) =>
          let p := settle node p in
          if negb (String.eqb node src) && is_leaf f node then dijkstra fuel f edges src p
          else dijkstra fuel f edges src (foldl (relax node d) p (unwrap_or (edges !! node) []))
      end
  end.

(** Each turn settles one more member; one turn more finds none left. *)
Definition dijkstra_fuel (f : Fabric) : nat := S (length (f_members f)).

Definition first_tie (src : string) (p : Paths) : option (string * Z) :=
  List.find (λ dn : string * Z, negb (String.eqb dn.1 src) && (1 <? dn.2))
    (btree_iter str_leb (p_count p)).

Definition check_paths_from (f : Fabric) (z : string) (edges : gmap string (list Edge))
    (src : Member) : result Refusal unit :=
  match dijkstra (dijkstra_fuel f) f edges (m_name src) (paths_from (m_name src)) with
  | None => Err (Panics "out of fuel")
  | Some p =>
      match first_tie (m_name src) p with
      | None => Ok tt
      | Some (dst, n) =>
          Err (EqualCostPaths z (m_name src) dst n (unwrap_or (p_dist p !! dst) 0)
                 (unwrap_or (p_via p !! dst) []))
      end
  end.

Definition check_no_equal_cost_paths (f : Fabric) (z : string) : result Refusal unit :=
  edges <-? edges_of f z ;; for_each (check_paths_from f z edges) (f_members f).

Definition has_universal (f : Fabric) (z : string) : bool :=
  any (λ s, String.eqb (s_zone s) z && is_universal (s_scope s)) (f_segments f).

Definition check_universal_cost (f : Fabric) (z : Zone) : result Refusal unit :=
  if negb (has_universal f (z_name z)) then Ok tt
  else
    cost <-? universal_cost f (z_name z) ;;
    refuse_if (f_leaf_cost_offset f <=? cost)
      (UniversalCostTooHigh (z_name z) cost (f_leaf_cost_offset f)).

Definition validate_derived (f : Fabric) : result Refusal unit :=
  for_each (check_universal_cost f) (f_zones f) ;;?
  for_each (λ z, check_rank0_is_shared f (z_name z) ;;?
                 check_no_equal_cost_paths f (z_name z)) (f_zones f).

Definition render_prefs (f : Fabric) : string :=
  String.concat "" (f_members f ≫= λ m,
    (λ p, (m_name m ++ " " ++ pref_render p ++ String char_lf EmptyString)%string) <$> prefs_of f m).

(** ** Path counting

    For one zone's graph with positive costs, none above [C], and at most [W] edges out of a
    node: what the search has established when it ends, provided its sums fit in 32 bits. *)

Lemma u32_add_fits a b : 0 ≤ a + b < 2 ^ 32 → u32_add a b = a + b.
Proof. apply Z.mod_small. Qed.

Section search.
Context (f : Fabric) (edges : gmap string (list Edge)) (src : string).

Definition out_edges (n : string) : list Edge := unwrap_or (edges !! n) [].
Definition expands (n : string) : bool := String.eqb n src || negb (is_leaf f n).

(** A walk from [src]: the nodes it leaves are [src] or not leaves. The list holds its last
    step first. *)
Inductive walk : string → Z → list (string * Edge) → Prop :=
| walk_nil : walk src 0 []
| walk_snoc n d p e : walk n d p → expands n = true → e ∈ out_edges n →
    walk e.1.1 (d + e.1.2) ((n, e) :: p).

Context (C W : Z) (priced : ∀ n e, e ∈ out_edges n → 0 < e.1.2 ≤ C).

Lemma walk_cost n d p : walk n d p → 0 ≤ d ∧ (d = 0 → p = []).
Proof using priced.
  induction 1 as [|n d p e _ [IH _] _ [He _]%priced]; [done|]. split; [lia|]. intros. lia.
Qed.

(** No settled node is reached by two paths. A count may have wrapped where one was. *)
Definition calm (p : Paths) : Prop :=
  ∀ n k, n ∈ p_done p → p_count p !! n = Some k → k ≤ 1.

(** What the search knows when the edges in [P] have been relaxed, [s] of them at most. [D] is
    the distance of the node being expanded. *)
Record known (P : string → Edge → Prop) (D s : Z) (p : Paths) : Prop := {
  k_dom n : is_Some (p_dist p !! n) ↔ is_Some (p_count p !! n);
  k_src : p_dist p !! src = Some 0 ∧ p_count p !! src = Some 1;
  k_walk n d : p_dist p !! n = Some d → ∃ w, walk n d w;
  k_count n k : calm p → p_count p !! n = Some k → 1 ≤ k ≤ s;
  k_done n : n ∈ p_done p → ∃ d, p_dist p !! n = Some d ∧ d ≤ D;
  k_open n d : p_dist p !! n = Some d → n ∉ p_done p → D ≤ d;
  k_edge m e : P m e → m ∈ p_done p ∧ expands m = true ∧ e ∈ out_edges m ∧
    ∃ dm dt, p_dist p !! m = Some dm ∧ p_dist p !! e.1.1 = Some dt ∧ dt ≤ dm + e.1.2;
  k_tight n d : calm p → p_dist p !! n = Some d → p_count p !! n = Some 1 →
    ∀ m1 e1 m2 e2, P m1 e1 → P m2 e2 → e1.1.1 = n → e2.1.1 = n →
      (∃ d1, p_dist p !! m1 = Some d1 ∧ d1 + e1.1.2 = d) →
      (∃ d2, p_dist p !! m2 = Some d2 ∧ d2 + e2.1.2 = d) → (m1, e1) = (m2, e2)
}.

Lemma known_start : known (λ _ _, False) 0 1 (paths_from src).
Proof using Type.
  clear C W priced.
  split; cbn.
  - intros n. rewrite !lookup_singleton. case_decide; split; by intros [? ?].
  - by rewrite !lookup_singleton_eq.
  - intros n d. rewrite lookup_singleton_Some. intros [<- <-]. exists []. constructor.
  - intros n k _. rewrite lookup_singleton_Some. intros [_ <-]. lia.
  - set_solver.
  - intros n d. rewrite lookup_singleton_Some. intros [_ <-]. lia.
  - done.
  - done.
Qed.

Lemma known_more (P : string → Edge → Prop) D s s' p : s ≤ s' → known P D s p → known P D s' p.
Proof using Type.
  clear C W priced.
  intros Hs [? ? ? Hcount ? ? ? ?]. split; try done. intros n k Hc Hk. specialize (Hcount n k Hc Hk). lia.
Qed.

(** Relaxing an edge that improves nothing. *)
Lemma known_worse (P : string → Edge → Prop) node d s p e dt :
  known P d s p → p_dist p !! node = Some d → node ∈ p_done p → expands node = true →
  e ∈ out_edges node → p_dist p !! e.1.1 = Some dt → dt < d + e.1.2 →
  known (λ m e', P m e' ∨ (m = node ∧ e' = e)) d s p.
Proof using priced.
  intros [Hdom Hsrc Hwalk Hcount Hdone Hopen Hedge Htight] Hd Hn Hx He Hdt Hlt.
  split; [done..| |].
  - intros m e' [HP|[-> ->]]; [by apply Hedge|]. split_and!; [done..|].
    exists d, dt. split_and!; [done..|lia].
  - intros n dn Hcalm E1 E2 m1 e1 m2 e2 H1 H2 T1 T2 X1 X2.
    destruct H1 as [H1|[-> ->]]; [|destruct X1 as (d0 & Ed & S); subst n;
      assert (d0 = d) by congruence; assert (dn = dt) by congruence; lia].
    destruct H2 as [H2|[-> ->]]; [|destruct X2 as (d0 & Ed & S); subst n;
      assert (d0 = d) by congruence; assert (dn = dt) by congruence; lia].
    by eapply Htight.
Qed.

(** Relaxing an edge that reaches its target more cheaply than anything before. *)
Lemma known_fresh (P : string → Edge → Prop) node d s p e k v :
  known P d s p → p_dist p !! node = Some d → node ∈ p_done p → expands node = true →
  e ∈ out_edges node → e.1.1 ∉ p_done p → p_count p !! node = Some k → 0 < e.1.2 →
  (∀ c, p_dist p !! e.1.1 = Some c → d + e.1.2 < c) →
  known (λ m e', P m e' ∨ (m = node ∧ e' = e)) d s
    (mk_paths (<[e.1.1 := d + e.1.2]> (p_dist p)) (<[e.1.1 := k]> (p_count p)) v (p_done p)).
Proof using priced.
  intros [Hdom Hsrc Hwalk Hcount Hdone Hopen Hedge Htight] Hd Hn Hx He Hto Hk Hpos Himp.
  assert (0 ≤ d) as Hd0. { destruct (Hwalk node d Hd) as [w Hw]. apply (walk_cost _ _ _ Hw). }
  assert (e.1.1 ≠ src) as Hts.
  { intros E. destruct Hsrc as [Hs _]. rewrite <-E in Hs. apply Himp in Hs. lia. }
  assert (∀ n, n ∈ p_done p → n ≠ e.1.1) as Hne by (intros ? ? ->; done).
  set (p' := mk_paths _ _ _ _).
  assert (calm p' → calm p) as Hcalm.
  { intros Hc n kn Hin Hkn. apply (Hc n kn Hin). subst p'. cbn. by rewrite lookup_insert_ne by (apply not_eq_sym; auto). }
  subst p'.
  split; cbn [p_dist p_count p_done].
  - intros n. rewrite !lookup_insert. case_decide; [by split; intros _; eexists|apply Hdom].
  - rewrite !lookup_insert_ne by done. done.
  - intros n dn. rewrite lookup_insert. case_decide as E; [|apply Hwalk].
    intros [= <-]. subst n. destruct (Hwalk node d Hd) as [w Hw].
    eexists. by apply walk_snoc.
  - intros n kn Hc%Hcalm. rewrite lookup_insert. case_decide; [|by apply Hcount].
    intros [= <-]. by eapply Hcount.
  - intros n Hin. rewrite lookup_insert_ne by (apply not_eq_sym; auto). by apply Hdone.
  - intros n dn. rewrite lookup_insert. case_decide; [|apply Hopen]. intros [= <-] _. lia.
  - intros m e' [HP|[-> ->]].
    + destruct (Hedge m e' HP) as (Hm & ? & ? & dm & dt & Edm & Edt & Hle).
      split_and!; [done..|]. exists dm. rewrite lookup_insert_ne by (apply not_eq_sym; auto).
      rewrite lookup_insert. case_decide as E; [|by exists dt].
      exists (d + e.1.2). split_and!; [done..|]. rewrite <-E in Edt. apply Himp in Edt. lia.
    + split_and!; [done..|]. exists d, (d + e.1.2).
      rewrite lookup_insert_ne by (apply not_eq_sym; auto). rewrite lookup_insert_eq.
      split_and!; [done..|lia].
  - intros n dn Hc%Hcalm. rewrite !lookup_insert. case_decide as E.
    + intros [= <-] _ m1 e1 m2 e2 H1 H2 T1 T2 X1 X2. subst n.
      assert (Hold : ∀ m e', P m e' → e'.1.1 = e.1.1 →
        (∃ d1, <[e.1.1:=d + e.1.2]> (p_dist p) !! m = Some d1 ∧ d1 + e'.1.2 = d + e.1.2) → False).
      { intros m e' HP T (d1 & Ed1 & S).
        destruct (Hedge m e' HP) as (Hm & _ & _ & dm & dt & Edm & Edt & Hle).
        rewrite lookup_insert_ne in Ed1 by (apply not_eq_sym; auto). rewrite T in Edt.
        apply Himp in Edt. simplify_eq. lia. }
      destruct H1 as [H1|[-> ->]]; [by destruct (Hold m1 e1)|].
      destruct H2 as [H2|[-> ->]]; [by destruct (Hold m2 e2)|]. done.
    + intros E1 E2 m1 e1 m2 e2 H1 H2 T1 T2 X1 X2.
      assert (Hin : ∀ m e', P m e' ∨ m = node ∧ e' = e → e'.1.1 = n → P m e' ∧ m ≠ e.1.1).
      { intros m e' [HP|[-> ->]] T; [|by subst]. split; [done|].
        apply Hne. by destruct (Hedge m e' HP). }
      destruct (Hin m1 e1 H1 T1) as [P1 N1], (Hin m2 e2 H2 T2) as [P2 N2].
      rewrite lookup_insert_ne in X1 by done. rewrite lookup_insert_ne in X2 by done.
      by eapply Htight.
Qed.

(** Relaxing an edge that ties: the count rises, and says so. *)
Lemma known_tie (P : string → Edge → Prop) node d s p e k kt v :
  known P d s p → p_dist p !! node = Some d → node ∈ p_done p → expands node = true →
  e ∈ out_edges node → e.1.1 ∉ p_done p → p_count p !! node = Some k → 0 < e.1.2 → s + 1 < 2 ^ 32 →
  p_dist p !! e.1.1 = Some (d + e.1.2) → p_count p !! e.1.1 = Some kt →
  known (λ m e', P m e' ∨ (m = node ∧ e' = e)) d (s + 1)
    (mk_paths (p_dist p) (<[e.1.1 := u32_add kt k]> (p_count p)) v (p_done p)).
Proof using priced.
  intros [Hdom Hsrc Hwalk Hcount Hdone Hopen Hedge Htight] Hd Hn Hx He Hto Hk Hpos Hroom Hdt Hkt.
  assert (0 ≤ d) as Hd0. { destruct (Hwalk node d Hd) as [w Hw]. apply (walk_cost _ _ _ Hw). }
  assert (e.1.1 ≠ src) as Hts.
  { intros E. destruct Hsrc as [Hs _]. rewrite E in Hdt. simplify_eq. lia. }
  assert (∀ n, n ∈ p_done p → n ≠ e.1.1) as Hne by (intros ? ? ->; done).
  set (p' := mk_paths _ _ _ _).
  assert (calm p' → calm p) as Hcalm.
  { intros Hc n kn Hin Hkn. apply (Hc n kn Hin). subst p'. cbn. by rewrite lookup_insert_ne by (apply not_eq_sym; auto). }
  subst p'.
  assert (calm p → u32_add kt k = kt + 1 ∧ 1 ≤ kt ≤ s) as Hsum.
  { intros Hc. pose proof (Hcount _ _ Hc Hk). pose proof (Hcount _ _ Hc Hkt). pose proof (Hc _ _ Hn Hk).
    assert (k = 1) as -> by lia. split; [|lia]. apply u32_add_fits. lia. }
  split; cbn [p_dist p_count p_done].
  - intros n. rewrite lookup_insert. case_decide; [|apply Hdom].
    subst n. split; intros _; [by eexists|]. by eexists.
  - by rewrite lookup_insert_ne by done.
  - done.
  - intros n kn Hc%Hcalm. rewrite lookup_insert. destruct (Hsum Hc) as [-> ?]. case_decide.
    + intros [= <-]. lia.
    + intros Hkn. specialize (Hcount _ _ Hc Hkn). lia.
  - done.
  - done.
  - intros m e' [HP|[-> ->]]; [by apply Hedge|]. split_and!; [done..|].
    exists d, (d + e.1.2). split_and!; [done..|lia].
  - intros n dn Hc%Hcalm E1. rewrite lookup_insert. destruct (Hsum Hc) as [-> ?].
    case_decide as E; [intros [= Heq]; lia|].
    intros E2 m1 e1 m2 e2 H1 H2 T1 T2 X1 X2.
    destruct H1 as [H1|[-> ->]]; [|by subst]. destruct H2 as [H2|[-> ->]]; [|by subst].
    by eapply Htight.
Qed.

(** Relaxing one edge of the node being expanded. *)
Lemma relax_known (P : string → Edge → Prop) node d s p e :
  known P d s p → p_dist p !! node = Some d → node ∈ p_done p → expands node = true →
  e ∈ out_edges node → d + C < 2 ^ 32 → s + 1 < 2 ^ 32 →
  known (λ m e', P m e' ∨ (m = node ∧ e' = e)) d (s + 1) (relax node d p e) ∧
  p_dist (relax node d p e) !! node = Some d ∧ p_done (relax node d p e) = p_done p ∧
  ∀ n dn, p_dist (relax node d p e) !! n = Some dn → p_dist p !! n = Some dn ∨ dn ≤ d + C.
Proof using priced.
  intros HK Hd Hn Hx He Hfit Hroom. destruct (priced _ _ He) as [Hpos HC].
  destruct (proj1 (k_dom _ _ _ _ HK node) (mk_is_Some _ _ Hd)) as [k Hk].
  assert (0 ≤ d) as Hd0. { destruct (k_walk _ _ _ _ HK node d Hd) as [w Hw]. apply (walk_cost _ _ _ Hw). }
  destruct e as [[to cost] ifname]. unfold relax. cbn [fst snd] in *.
  rewrite (u32_add_fits d cost) by lia.
  case_bool_decide as Hto.
  { split_and!; [|done|done|auto]. apply (known_more _ _ s); [lia|].
    destruct (k_done _ _ _ _ HK to Hto) as (dt & Edt & Hle).
    eapply (known_worse P node d s p (to, cost, ifname) dt); try done. cbn. lia. }
  assert (node ≠ to) as Hnt by (by intros ->).
  rewrite Hk. cbn [unwrap_or]. destruct (p_dist p !! to) as [c|] eqn:Ec.
  - destruct (c <? d + cost) eqn:L; split_bools.
    { split_and!; [|done|done|auto]. apply (known_more _ _ s); [lia|].
      by eapply (known_worse P node d s p (to, cost, ifname) c). }
    destruct (c =? d + cost) eqn:Q; split_bools; cbn [p_dist p_done].
    + subst c. destruct (proj1 (k_dom _ _ _ _ HK to) (mk_is_Some _ _ Ec)) as [kt Hkt].
      rewrite Hkt. cbn [unwrap_or]. split_and!; [|done|done|auto].
      by apply (known_tie P node d s p (to, cost, ifname) k kt).
    + rewrite lookup_insert_ne by done. split_and!; [|done|done|].
      * apply (known_more _ _ s); [lia|]. apply (known_fresh P node d s p (to, cost, ifname) k); try done.
        cbn. intros c' Hc'. simplify_eq. lia.
      * intros n dn. rewrite lookup_insert. case_decide; [intros [= <-]; right; lia|auto].
  - cbn [p_dist p_done]. rewrite lookup_insert_ne by done. split_and!; [|done|done|].
    + apply (known_more _ _ s); [lia|]. apply (known_fresh P node d s p (to, cost, ifname) k); try done.
      cbn. intros c' Hc'. congruence.
    + intros n dn. rewrite lookup_insert. case_decide; [intros [= <-]; right; lia|auto].
Qed.

Lemma known_iff (P Q : string → Edge → Prop) D s p :
  (∀ m e, P m e ↔ Q m e) → known P D s p → known Q D s p.
Proof using Type.
  intros HPQ [? ? ? ? ? ? Hedge Htight]. split; try done.
  - intros m e HQ. apply Hedge. by apply HPQ.
  - intros n d Hc E1 E2 m1 e1 m2 e2 H1%HPQ H2%HPQ. by eapply Htight.
Qed.

Lemma relax_all_known es (P : string → Edge → Prop) node d s p :
  (∀ e, e ∈ es → e ∈ out_edges node) → d + C < 2 ^ 32 → s + Z.of_nat (length es) < 2 ^ 32 →
  known P d s p → p_dist p !! node = Some d → node ∈ p_done p → expands node = true →
  known (λ m e, P m e ∨ (m = node ∧ e ∈ es)) d (s + Z.of_nat (length es)) (foldl (relax node d) p es) ∧
  p_done (foldl (relax node d) p es) = p_done p ∧
  ∀ n dn, p_dist (foldl (relax node d) p es) !! n = Some dn → p_dist p !! n = Some dn ∨ dn ≤ d + C.
Proof using priced.
  revert P s p. induction es as [|e es IH]; intros P s p Hsub Hfit Hroom HK Hd Hn Hx; cbn [foldl length] in *.
  { split_and!; [|done|auto]. rewrite Z.add_0_r. eapply known_iff, HK. intros m e. set_solver. }
  rewrite Nat2Z.inj_succ in *.
  destruct (relax_known P node d s p e) as (HK' & Hd' & Hdone' & Hb'); [done..|set_solver|done|lia|].
  destruct (IH _ (s + 1) _ (λ e' H', Hsub e' (list_elem_of_further _ _ _ H')) Hfit ltac:(lia) HK' Hd')
    as (HK2 & Hdone2 & Hb2); [by rewrite Hdone'|done|].
  split_and!; [|by rewrite Hdone2|].
  - replace (s + Z.succ (Z.of_nat (length es))) with (s + 1 + Z.of_nat (length es)) by lia.
    eapply known_iff, HK2. intros m e'. cbn. rewrite elem_of_cons. naive_solver.
  - intros n dn [H|H]%Hb2; [by apply Hb'|by right].
Qed.

(** Everything a settled node can be left by has been relaxed. *)
Definition relaxed (p : Paths) (m : string) (e : Edge) : Prop :=
  m ∈ p_done p ∧ expands m = true ∧ e ∈ out_edges m.

Lemma next_node_spec p :
  match next_node p with
  | Some (node, d) => p_dist p !! node = Some d ∧ (node ∉ p_done p) ∧
      ∀ n dn, p_dist p !! n = Some dn → n ∉ p_done p → d ≤ dn
  | None => ∀ n, is_Some (p_dist p !! n) → n ∈ p_done p
  end.
Proof using.
  clear. unfold next_node. set (l := filter _ _).
  assert (Hl : ∀ n dn, (n, dn) ∈ l ↔ p_dist p !! n = Some dn ∧ (n ∉ p_done p)).
  { intros n dn. unfold l. rewrite list_elem_of_filter, elem_of_btree_iter. naive_solver. }
  assert (Hmin : ∀ best l', (min_from id closer best l').2 ≤ best.2 ∧
    ∀ x, x ∈ l' → (min_from id closer best l').2 ≤ x.2).
  { intros best l'. revert best. induction l' as [|x l' IH]; intros best; cbn [min_from]; [set_solver by lia|].
    change (closer (id x) (id best)) with (closer x best). destruct (closer x best) eqn:C; unfold closer in C.
    - destruct (IH x) as [H1 H2]. split.
      + apply orb_true_iff in C as [C|C]; split_bools; lia.
      + intros y [->|Hy]%elem_of_cons; auto.
    - destruct (IH best) as [H1 H2]. split; [done|]. split_bools.
      intros y [->|Hy]%elem_of_cons; [lia|auto]. }
  destruct (min_by_key id closer l) as [[node d]|] eqn:E.
  - pose proof (min_by_key_elem _ _ _ _ E) as [Hd Hn]%Hl. split_and!; [done..|].
    intros n dn E1 E2. assert ((n, dn) ∈ l) as Hin by (by apply Hl).
    destruct l as [|x l']; [set_solver|]. cbn in E. injection E as E.
    destruct (Hmin x l') as [M1 M2]. rewrite E in M1, M2. cbn in M1, M2.
    apply elem_of_cons in Hin as [<-|Hin]; [done|]. by apply (M2 (n, dn)).
  - apply min_by_key_None in E. intros n [dn Edn]. destruct (decide (n ∈ p_done p)); [done|].
    assert ((n, dn) ∈ l) by (by apply Hl). rewrite E in *. set_solver.
Qed.

Lemma settle_known D s node d p :
  known (relaxed p) D s p → p_dist p !! node = Some d → node ∉ p_done p →
  (∀ n dn, p_dist p !! n = Some dn → n ∉ p_done p → d ≤ dn) →
  known (relaxed p) d s (settle node p).
Proof using priced.
  intros [Hdom Hsrc Hwalk Hcount Hdone Hopen Hedge Htight] Hd Hn Hmin.
  pose proof (Hopen _ _ Hd Hn) as HD.
  assert (calm (settle node p) → calm p) as Hcalm.
  { intros Hc n k Hin. apply Hc. cbn. set_solver. }
  split; cbn [settle p_dist p_count p_done]; try done.
  - intros n k Hc%Hcalm. by apply Hcount.
  - intros n [Hin|Hin%elem_of_singleton]%elem_of_union; [|by subst; exists d].
    destruct (Hdone n Hin) as (dn & ? & ?). exists dn. split; [done|lia].
  - intros n dn E Hnot. apply (Hmin n dn E). set_solver.
  - intros m e HP. destruct (Hedge m e HP) as (? & ? & ? & ?). split_and!; [set_solver|done..].
  - intros n dn Hc%Hcalm. by apply Htight.
Qed.

(** When the search ends it has settled everything it reached. Every turn raises the distances
    found by [C] at most and relaxes [W] edges at most. *)
Lemma dijkstra_known fuel p p' D B s :
  (∀ n, Z.of_nat (length (out_edges n)) ≤ W) → 0 ≤ C →
  B + Z.of_nat fuel * C < 2 ^ 32 → s + Z.of_nat fuel * W < 2 ^ 32 →
  (∀ n d, p_dist p !! n = Some d → d ≤ B) →
  known (relaxed p) D s p → dijkstra fuel f edges src p = Some p' →
  (∃ D' s', known (relaxed p') D' s' p') ∧ ∀ n, is_Some (p_dist p' !! n) → n ∈ p_done p'.
Proof using priced.
  intros Hdeg HC. revert p D B s. induction fuel as [|fuel IH]; intros p D B s HB Hs Hdist HK; cbn [dijkstra]; [done|].
  rewrite Nat2Z.inj_succ, Z.mul_succ_l in HB, Hs.
  assert (0 ≤ Z.of_nat fuel * C ∧ 0 ≤ W ∧ 0 ≤ Z.of_nat fuel * W) as (? & ? & ?).
  { specialize (Hdeg src). split_and!; [lia..|]. apply Z.mul_nonneg_nonneg; lia. }
  pose proof (next_node_spec p) as Hnext. destruct (next_node p) as [[node d]|].
  2:{ intros [= <-]. split; [by exists D, s|done]. }
  destruct Hnext as (Hd & Hn & Hmin). pose proof (settle_known D s node d p HK Hd Hn Hmin) as HK'.
  destruct (negb (String.eqb node src) && is_leaf f node) eqn:L.
  - apply (IH _ d B s); [lia|lia|done|]. eapply known_iff, HK'. intros m e. unfold relaxed. cbn [settle p_done].
    split; [set_solver|]. intros ([Hin|Hin%elem_of_singleton]%elem_of_union & Hx & He); [done|]. subst m.
    unfold expands in Hx. apply andb_true_iff in L as [L1 L2].
    destruct (String.eqb node src), (is_leaf f node); done.
  - assert (expands node = true) as Hx.
    { unfold expands. by destruct (String.eqb node src), (is_leaf f node). }
    pose proof (Hdist _ _ Hd) as HdB. pose proof (Hdeg node) as HW.
    destruct (relax_all_known (out_edges node) (relaxed p) node d s (settle node p))
      as (HK2 & Hdone2 & Hb2); [done|lia|lia|done|done|set_solver|done|].
    apply (IH _ d (B + C) (s + Z.of_nat (length (out_edges node)))); [lia|lia| |].
    { intros n dn [Hp|Hle]%Hb2; [specialize (Hdist _ _ Hp)|]; lia. }
    eapply known_iff, HK2. intros m e. fold (out_edges node).
    unfold relaxed. rewrite Hdone2. cbn [settle p_done]. split; [set_solver|].
    intros (Hin%elem_of_union & Hx' & He). destruct Hin as [Hin|Hin%elem_of_singleton]; [by left|].
    subst m. by right.
Qed.

(** What the search found are the shortest distances. *)
Lemma settled_shortest D s p n d w :
  known (relaxed p) D s p → (∀ n, is_Some (p_dist p !! n) → n ∈ p_done p) →
  walk n d w → ∃ dn, p_dist p !! n = Some dn ∧ dn ≤ d.
Proof using priced.
  intros HK Hall. induction 1 as [|m d w e _ (dm & Edm & Hle) Hx He].
  - exists 0. split; [apply HK|done].
  - destruct (k_edge _ _ _ _ HK m e) as (_ & _ & _ & dm' & dt & E1 & E2 & Hle').
    { split_and!; [apply Hall; by eexists|done..]. }
    simplify_eq. exists dt. split; [done|lia].
Qed.

(** With every count one, a shortest walk is the only one. *)
Lemma unique_shortest D s p n d w1 w2 :
  known (relaxed p) D s p → (∀ n, is_Some (p_dist p !! n) → n ∈ p_done p) →
  (∀ n k, n ≠ src → p_count p !! n = Some k → k ≤ 1) →
  walk n d w1 → walk n d w2 → p_dist p !! n = Some d → w1 = w2.
Proof using priced.
  intros HK Hall Hone H1.
  assert (calm p) as Hcalm.
  { intros m k _ Hk. destruct (decide (m = src)) as [->|Hm]; [|by apply (Hone m)].
    destruct (k_src _ _ _ _ HK) as [_ E]. simplify_eq. lia. }
  revert w2. induction H1 as [|m1 d1 w1 e1 H1 IH Hx1 He1]; intros w2 H2 Hd.
  { by apply walk_cost in H2 as [_ ->]. }
  assert (Hstep : ∀ m d0 w e, walk m d0 w → expands m = true → e ∈ out_edges m →
    e.1.1 = e1.1.1 → d0 + e.1.2 = d1 + e1.1.2 → p_dist p !! m = Some d0 ∧ relaxed p m e).
  { intros m d0 w e Hw Hx He Et Ec.
    destruct (settled_shortest D s p m d0 w HK Hall Hw) as (dm & Edm & Hle).
    assert (relaxed p m e) as HR by (split_and!; [apply Hall; by eexists|done..]).
    split; [|done]. destruct (k_edge _ _ _ _ HK m e HR) as (_ & _ & _ & dm' & dt & E1 & E2 & Hle').
    rewrite Et in E2. simplify_eq. rewrite Edm. f_equal. lia. }
  destruct (Hstep m1 d1 w1 e1) as [D1 R1]; [done..|].
  pose proof (proj1 (priced _ _ He1)) as Hpos. pose proof (proj1 (walk_cost _ _ _ H1)) as Hd1.
  assert (e1.1.1 ≠ src) as Hns.
  { intros E. rewrite E in Hd. destruct (k_src _ _ _ _ HK) as [Hs _]. simplify_eq. lia. }
  inversion H2 as [Hs Hz|m2 d2 w2' e2 H2' Hx2 He2 Et Ec]; [by rewrite <-Hs in Hns|]. subst w2.
  destruct (Hstep m2 d2 w2' e2) as [D2 R2]; [done..|].
  destruct (proj1 (k_dom _ _ _ _ HK _) (mk_is_Some _ _ Hd)) as [k Hk].
  assert (k = 1) as -> by (pose proof (Hone _ _ Hns Hk); pose proof (k_count _ _ _ _ HK _ _ Hcalm Hk); lia).
  assert ((m1, e1) = (m2, e2)) as [= <- <-].
  { apply (k_tight _ _ _ _ HK _ _ Hcalm Hd Hk); try done; [by exists d1|].
    exists d2. split; [done|lia]. }
  f_equal. apply IH; [|done]. by replace d1 with d2 by lia.
Qed.
End search.

(** *** The search ends *)

Section ends.
Context (f : Fabric) (edges : gmap string (list Edge)) (src : string) (nodes : gset string).
Hypothesis closed : ∀ n e, e ∈ unwrap_or (edges !! n) [] → e.1.1 ∈ nodes.

Lemma relax_dom node d p e :
  (∀ n, is_Some (p_dist p !! n) → n ∈ nodes) → e.1.1 ∈ nodes →
  (∀ n, is_Some (p_dist (relax node d p e) !! n) → n ∈ nodes) ∧
  p_done (relax node d p e) = p_done p.
Proof using.
  clear. intros Hd He. destruct e as [[to cost] ifname]. cbn in He. unfold relax.
  case_bool_decide; [done|].
  assert (∀ x n, is_Some (<[to:=x]> (p_dist p) !! n) → n ∈ nodes) as Hi.
  { intros x n. rewrite lookup_insert. case_decide; [by subst|apply Hd]. }
  destruct (p_dist p !! to); [|cbn; split; [apply Hi|done]].
  repeat case_match; cbn; split; auto. apply Hi.
Qed.

Lemma relax_all_dom es node d p :
  (∀ n, is_Some (p_dist p !! n) → n ∈ nodes) → (∀ e, e ∈ es → e.1.1 ∈ nodes) →
  (∀ n, is_Some (p_dist (foldl (relax node d) p es) !! n) → n ∈ nodes) ∧
  p_done (foldl (relax node d) p es) = p_done p.
Proof using.
  clear. revert p. induction es as [|e es IH]; intros p Hd Hes; cbn [foldl]; [done|].
  destruct (relax_dom node d p e Hd) as [Hd' Hdone]; [apply Hes; left|].
  destruct (IH _ Hd') as [Hd2 Hdone2]; [intros; apply Hes; by right|].
  by rewrite Hdone2.
Qed.

(** One turn settles one more node, so as many turns as nodes left, and one, suffice. *)
Lemma dijkstra_returns fuel p :
  (∀ n, is_Some (p_dist p !! n) → n ∈ nodes) → p_done p ⊆ nodes →
  (size (nodes ∖ p_done p) < fuel)%nat → ∃ p', dijkstra fuel f edges src p = Some p'.
Proof using closed.
  revert p. induction fuel as [|fuel IH]; intros p Hd Hs Hf; [lia|]. cbn [dijkstra].
  pose proof (next_node_spec p) as Hn. destruct (next_node p) as [[node d]|]; [|by eexists].
  destruct Hn as (Hnd & Hnew & _). assert (node ∈ nodes) as Hin by (apply Hd; by eexists).
  assert (size (nodes ∖ (p_done p ∪ {[node]})) < size (nodes ∖ p_done p))%nat as Hlt
    by (apply subset_size; set_solver).
  destruct (_ && _).
  - apply IH; cbn; [done|set_solver|lia].
  - destruct (relax_all_dom (unwrap_or (edges !! node) []) node d (settle node p))
      as [Hd2 Hdone2]; [done|apply closed|].
    apply IH; [done|rewrite Hdone2; cbn; set_solver|rewrite Hdone2; cbn; lia].
Qed.
End ends.

(** ** The edges of a zone *)

Lemma collect_ok {E A B} (g : A → result E B) l ys :
  collect g l = Ok ys ↔ Forall2 (λ x y, g x = Ok y) l ys.
Proof.
  revert ys. induction l as [|x l IH]; intros ys; cbn.
  { split; [intros [= <-]; constructor|by inversion 1]. }
  destruct (g x) as [y|e] eqn:Ex.
  - destruct (collect g l) as [ys'|e] eqn:El.
    + split.
      * intros [= <-]. constructor; [done|]. by apply IH.
      * inversion 1 as [|? ? ? ? E1 E2]; subst. apply IH in E2. congruence.
    + split; [done|]. inversion 1 as [|? ? ? ? E1 E2]; subst. apply IH in E2. congruence.
  - split; [done|]. inversion 1; congruence.
Qed.

Lemma filter_collect_elem {E A B} (g : A → result E (option B)) l ys y :
  filter_collect g l = Ok ys → y ∈ ys → ∃ x, x ∈ l ∧ g x = Ok (Some y).
Proof.
  revert ys. induction l as [|x l IH]; intros ys; cbn; [intros [= <-]; set_solver|].
  destruct (g x) as [o|e] eqn:Ex; [|done]. destruct (filter_collect g l) as [ys'|e]; [|done].
  intros [= <-] [Hy|Hy]%elem_of_app.
  - destruct o as [y'|]; cbn in Hy; [|set_solver].
    apply list_elem_of_singleton in Hy as ->. exists x. split; [left|done].
  - destruct (IH _ eq_refl Hy) as (x' & Hx & ?). exists x'. split; [by right|done].
Qed.

Lemma ladder_cost_pos k : 10 ≤ ladder_cost k.
Proof. unfold ladder_cost. destruct (Nat.eqb_spec k 0); lia. Qed.

Lemma class_rows_cost f m rows r :
  class_rows_of f m = Ok rows → r ∈ rows → 10 ≤ cr_ospf_cost r.
Proof.
  intros Hrows Hr. destruct (filter_collect_elem _ _ _ _ Hrows Hr) as (s & _ & Hs).
  unfold class_row in Hs. destruct (scope_domain (s_scope s) ≫= wire_on m); [|done].
  destruct (List.find _ _); [|done]. destruct (position _ _); [|done].
  injection Hs as <-. apply ladder_cost_pos.
Qed.

Lemma foldr_add_nonneg l : Forall (λ x, 0 ≤ x) l → 0 ≤ foldr Z.add 0 l.
Proof. induction 1; cbn; lia. Qed.

Lemma foldr_max_nonneg l : 0 ≤ foldr Z.max 0 l.
Proof. induction l; cbn; lia. Qed.

Lemma universal_cost_pos f z c : universal_cost f z = Ok c → LADDER_STEP ≤ c.
Proof.
  unfold universal_cost. destruct (collect _ _) as [costs|] eqn:E; [|done]. intros [= <-].
  apply collect_ok in E. enough (0 ≤ foldr Z.add 0 costs) by lia.
  apply foldr_add_nonneg. induction E as [|s c l cs Hs _ IH]; constructor; [|done].
  unfold segment_cost in Hs. destruct (filter_collect _ _); [|done]. injection Hs as <-.
  apply foldr_max_nonneg.
Qed.

Lemma fallback_rows_cost f m rows r :
  fallback_rows_of f m = Ok rows → r ∈ rows → LADDER_STEP ≤ fr_ospf_cost r.
Proof.
  intros Hrows Hr. destruct (filter_collect_elem _ _ _ _ Hrows Hr) as (s & _ & Hs).
  unfold fallback_row in Hs. destruct (home_wire _ _ _) as [home|]; [|done].
  destruct (home_or_first _ _); [|done]. destruct (universal_cost _ _) as [c|] eqn:E; [|done].
  injection Hs as <-. cbn. by eapply universal_cost_pos.
Qed.

(** The costs of a member's rows, and the highest of all. *)
Definition row_costs (f : Fabric) (m : Member) : list Z :=
  match class_rows_of f m, fallback_rows_of f m with
  | Ok cs, Ok fs => (cr_ospf_cost <$> cs) ++ (fr_ospf_cost <$> fs)
  | _, _ => []
  end.
Definition costliest (f : Fabric) : Z := foldr Z.max 0 (f_members f ≫= row_costs f).
Definition edge_offset (f : Fabric) (m : Member) : Z :=
  match m_kind m with Leaf => f_leaf_cost_offset f | Host => 0 end.

(** Every edge reaches another member, at the cost of a row plus the offset. *)
Lemma edges_from_sound f z m es e :
  edges_from f z m = Ok es → e ∈ es →
  (∃ o, o ∈ f_members f ∧ m_name o = e.1.1 ∧ m_name o ≠ m_name m) ∧
  ∃ c, c ∈ row_costs f m ∧ 10 ≤ c ∧ e.1.2 = u32_add c (edge_offset f m).
Proof.
  unfold edges_from, row_costs. fold (edge_offset f m).
  destruct (class_rows_of f m) as [rows|] eqn:Er; [|done].
  destruct (fallback_rows_of f m) as [fb|] eqn:Ef; [|done].
  destruct (collect _ _) as [per|] eqn:Ep; [|done]. intros [= <-].
  rewrite list_elem_of_In, List.in_concat. setoid_rewrite <-list_elem_of_In.
  intros (es & Hes & He). apply collect_ok in Ep.
  apply list_elem_of_lookup in Hes as [i Hi].
  destruct (Forall2_lookup_r _ _ _ _ _ Ep Hi) as (o & Ho' & Hto).
  apply list_elem_of_lookup_2, list_elem_of_filter in Ho' as [Hne Hin].
  unfold edges_to in Hto. destruct (class_rows_of f o) as [theirs|]; [|done].
  injection Hto as <-. apply Is_true_true, negb_true_iff, String.eqb_neq in Hne.
  setoid_rewrite elem_of_app. setoid_rewrite list_elem_of_fmap.
  apply elem_of_app in He as [He|He]; apply list_elem_of_fmap in He as (r & -> & Hr);
    (split; [by exists o|]); cbn.
  - apply list_elem_of_filter in Hr as [_ [_ Hr]%list_elem_of_filter].
    pose proof (class_rows_cost _ _ _ _ Er Hr). exists (cr_ospf_cost r). split_and!; [|done|done]. left. by exists r.
  - apply list_elem_of_filter in Hr as [_ Hr]. pose proof (fallback_rows_cost _ _ _ _ Ef Hr).
    exists (fr_ospf_cost r). unfold LADDER_STEP in *. split_and!; [|lia|done]. right. by exists r.
Qed.

Lemma foldr_max_le l x : x ∈ l → x ≤ foldr Z.max 0 l.
Proof. induction l as [|y l IH]; [by intros ?%not_elem_of_nil|]. intros [->|Hx%IH]%elem_of_cons; cbn; lia. Qed.

(** The sums of a search fit in 32 bits: a distance adds a row's cost and a leaf's offset for each
    member passed, a count adds one for each edge. *)
Record search_fits (f : Fabric) : Prop := {
  sf_costs : Z.of_nat (dijkstra_fuel f) * (costliest f + f_leaf_cost_offset f) < 2 ^ 32;
  sf_paths : Z.of_nat (dijkstra_fuel f) * (Z.of_nat (length (f_members f)) ^ 2 * (2 * Z.of_nat (length (f_segments f))))
             < 2 ^ 32 - 1
}.

Lemma edges_from_priced f z m es e :
  0 ≤ f_leaf_cost_offset f → search_fits f → m ∈ f_members f → edges_from f z m = Ok es → e ∈ es →
  0 < e.1.2 ≤ costliest f + f_leaf_cost_offset f.
Proof.
  intros Hoff [Hfit _] Hm Hes He. destruct (edges_from_sound f z m es e Hes He) as (_ & c & Hc & Hpos & ->).
  assert (c ≤ costliest f). { apply foldr_max_le, list_elem_of_bind. by exists m. }
  assert (0 ≤ edge_offset f m ≤ f_leaf_cost_offset f) by (unfold edge_offset; destruct (m_kind m); lia).
  unfold dijkstra_fuel in Hfit. rewrite u32_add_fits by nia. lia.
Qed.

Lemma filter_collect_length {E A B} (g : A → result E (option B)) l ys :
  filter_collect g l = Ok ys → (length ys ≤ length l)%nat.
Proof.
  revert ys. induction l as [|x l IH]; intros ys; cbn; [by intros [= <-]|].
  destruct (g x) as [o|]; [|done]. destruct (filter_collect g l) as [ys'|]; [|done]. intros [= <-].
  specialize (IH ys' eq_refl). rewrite length_app. destruct o; cbn; lia.
Qed.

Lemma collect_lengths {E A B} (g : A → result E (list B)) l yss k :
  collect g l = Ok yss → (∀ x ys, g x = Ok ys → (length ys ≤ k)%nat) →
  (length (concat yss) ≤ length l * k)%nat.
Proof.
  intros H%collect_ok Hk. induction H as [|x ys l yss Hx _ IH]; cbn; [lia|].
  rewrite length_app. specialize (Hk x ys Hx). lia.
Qed.

Lemma edges_from_length f z m es : edges_from f z m = Ok es →
  (length es ≤ length (f_members f) * (2 * length (f_segments f)))%nat.
Proof.
  unfold edges_from. destruct (class_rows_of f m) as [rows|] eqn:Er; [|done].
  destruct (fallback_rows_of f m) as [fb|] eqn:Ef; [|done].
  destruct (collect _ _) as [per|] eqn:Ep; [|done]. intros [= <-].
  apply filter_collect_length in Er, Ef.
  assert (length fb ≤ length (f_segments f))%nat as Hfb.
  { etrans; [apply Ef|]. apply length_filter. }
  etrans; [apply (collect_lengths _ _ _ (2 * length (f_segments f)) Ep)|].
  - intros o ys. unfold edges_to. destruct (class_rows_of f o) as [theirs|]; [|done]. intros [= <-].
    rewrite length_app, !length_fmap. set (mine := filter _ rows).
    pose proof (length_filter (λ r, cr_seg r ∈ cr_seg <$> filter (λ r, String.eqb (cr_zone r) z) theirs) mine).
    pose proof (length_filter (λ r, String.eqb (cr_zone r) z) rows). fold mine in H0.
    pose proof (length_filter (λ r, String.eqb (fr_zone r) z) fb). lia.
  - apply Nat.mul_le_mono_r, length_filter.
Qed.

Lemma edges_of_length f z edges n : edges_of f z = Ok edges →
  (length (out_edges edges n) ≤ length (f_members f) * (length (f_members f) * (2 * length (f_segments f))))%nat.
Proof.
  unfold edges_of, out_edges. destruct (collect _ _) as [ls|] eqn:E; [|done]. intros [= <-].
  apply collect_ok in E. set (k := (length (f_members f) * (2 * length (f_segments f)))%nat).
  enough (∀ l (g : gmap string (list Edge)), Forall (λ me, (length me.2 ≤ k)%nat) l →
    (length (unwrap_or (foldl (λ g me, <[me.1 := unwrap_or (g !! me.1) [] ++ me.2]> g) g l !! n) [])
     ≤ length (unwrap_or (g !! n) []) + length l * k)%nat) as H.
  { rewrite (Forall2_length E). etrans; [apply (H ls ∅)|by rewrite lookup_empty]. apply list.Forall_forall. intros me Hme.
    apply list_elem_of_lookup in Hme as [i Hi].
    destruct (Forall2_lookup_r _ _ _ _ _ E Hi) as (m & _ & Hf).
    destruct (edges_from f z m) as [es|] eqn:Ee; [|done]. injection Hf as <-. by eapply edges_from_length. }
  clear. induction l as [|me l IH]; intros g Hl; cbn [foldl length]; [lia|].
  apply list.Forall_cons in Hl as [Hme Hl]. specialize (IH (<[me.1 := unwrap_or (g !! me.1) [] ++ me.2]> g) Hl).
  rewrite lookup_insert in IH. case_decide as E; [|lia]. subst n. cbn [unwrap_or] in IH.
  rewrite length_app in IH. lia.
Qed.

Lemma edges_of_elem f z edges n e :
  edges_of f z = Ok edges → e ∈ unwrap_or (edges !! n) [] →
  ∃ m es, m ∈ f_members f ∧ m_name m = n ∧ edges_from f z m = Ok es ∧ e ∈ es.
Proof.
  unfold edges_of. destruct (collect _ _) as [ls|] eqn:E; [|done]. intros [= <-].
  apply collect_ok in E.
  assert (Hg : ∀ l (g : gmap string (list Edge)), e ∈ unwrap_or (foldl (λ g me, <[me.1 := unwrap_or (g !! me.1) [] ++ me.2]> g)
      g l !! n) [] → e ∈ unwrap_or (g !! n) [] ∨ ∃ me, me ∈ l ∧ me.1 = n ∧ e ∈ me.2).
  { clear E. induction l as [|me l IH]; intros g; cbn [foldl]; [by left|].
    intros [H|(me' & ? & ?)]%IH; [|right; exists me'; split; [by right|done]].
    rewrite lookup_insert in H. case_decide as Hn; [|by left].
    cbn in H. apply elem_of_app in H as [H|H]; [left; by rewrite <-Hn|].
    right. exists me. split; [left|done]. }
  intros [H|(me & Hme & Hn & He)]%Hg; [set_solver|].
  apply list_elem_of_lookup in Hme as [i Hi].
  destruct (Forall2_lookup_r _ _ _ _ _ E Hi) as (m & Hm & Hf).
  destruct (edges_from f z m) as [es|] eqn:Ee; [|done]. injection Hf as <-. cbn in *.
  exists m, es. split_and!; try done. by eapply list_elem_of_lookup_2.
Qed.

(** ** No two shortest paths *)

(** The names of the members: the nodes of every zone's graph. *)
Definition nodes (f : Fabric) : gset string := list_to_set (m_name <$> f_members f).

Lemma elem_of_nodes f m : m ∈ f_members f → m_name m ∈ nodes f.
Proof. intros H. apply elem_of_list_to_set, list_elem_of_fmap. by exists m. Qed.

Lemma size_list_to_set_le (l : list string) : (size (list_to_set l : gset string) ≤ length l)%nat.
Proof.
  induction l as [|x l IH]; cbn; [by rewrite size_empty|].
  rewrite size_union_alt, size_singleton.
  assert (size ((list_to_set l : gset string) ∖ {[x]}) ≤ size (list_to_set l : gset string))%nat
    by (apply subseteq_size; set_solver). lia.
Qed.

(** The search from any member ends within its fuel. *)
Lemma search_returns f z edges m :
  edges_of f z = Ok edges → m ∈ f_members f →
  ∃ p, dijkstra (dijkstra_fuel f) f edges (m_name m) (paths_from (m_name m)) = Some p.
Proof.
  intros He Hm. apply dijkstra_returns with (nodes := nodes f); cbn [paths_from p_dist p_done].
  - intros n e Hin. destruct (edges_of_elem _ _ _ _ _ He Hin) as (m' & es & _ & _ & Hes & Hin').
    destruct (edges_from_sound f z m' es e Hes Hin') as ((o & Ho & <- & _) & _).
    by apply elem_of_nodes.
  - intros n. rewrite lookup_singleton. case_decide; [|by intros [? ?]].
    subst. intros _. by apply elem_of_nodes.
  - set_solver.
  - unfold dijkstra_fuel. rewrite difference_empty_L.
    pose proof (size_list_to_set_le (m_name <$> f_members f)) as H. rewrite length_fmap in H.
    fold (nodes f) in H. lia.
Qed.

(** A shortest walk of the zone's graph between two members. *)
Definition shortest_walk (f : Fabric) (edges : gmap string (list Edge)) (src dst : string)
    (w : list (string * Edge)) : Prop :=
  ∃ d, walk f edges src dst d w ∧ ∀ d' w', walk f edges src dst d' w' → d ≤ d'.

Lemma first_tie_None src p n k :
  first_tie src p = None → n ≠ src → p_count p !! n = Some k → k ≤ 1.
Proof.
  unfold first_tie. rewrite find_None_iff. intros H Hn Hk.
  specialize (H (n, k)). cbn in H. rewrite elem_of_btree_iter in H. specialize (H Hk).
  apply String.eqb_neq in Hn. rewrite Hn in H. cbn in H. split_bools. lia.
Qed.

(** When the check of one member passes, its shortest walks are unique. *)
Lemma check_paths_sound f z edges m dst w1 w2 :
  0 ≤ f_leaf_cost_offset f → search_fits f → edges_of f z = Ok edges →
  check_paths_from f z edges m = Ok tt →
  shortest_walk f edges (m_name m) dst w1 → shortest_walk f edges (m_name m) dst w2 → w1 = w2.
Proof.
  intros Hoff Hfit He Hc (d & W1 & M1) (d2 & W2 & M2).
  assert (d2 = d) as -> by (apply Z.le_antisymm; eauto).
  assert (priced : ∀ n e, e ∈ out_edges edges n → 0 < e.1.2 ≤ costliest f + f_leaf_cost_offset f).
  { intros n e Hin. destruct (edges_of_elem _ _ _ _ _ He Hin) as (m' & es & Hm' & _ & Hes & Hin').
    by apply (edges_from_priced f z m' es). }
  unfold check_paths_from in Hc. destruct (dijkstra _ _ _ _ _) as [p|] eqn:Ed; [|done].
  destruct (first_tie (m_name m) p) as [[? ?]|] eqn:Et; [done|].
  assert (known f edges (m_name m) (relaxed f edges (m_name m) (paths_from (m_name m))) 0 1
            (paths_from (m_name m))) as HK.
  { eapply known_iff, known_start. unfold relaxed. cbn. set_solver. }
  pose proof (foldr_max_nonneg (f_members f ≫= row_costs f)) as H0. fold (costliest f) in H0.
  destruct Hfit as [Hcosts Hpaths].
  assert (∀ n, Z.of_nat (length (out_edges edges n))
    ≤ Z.of_nat (length (f_members f)) ^ 2 * (2 * Z.of_nat (length (f_segments f)))) as Hdeg.
  { intros n. pose proof (edges_of_length f z edges n He). nia. }
  destruct (dijkstra_known f edges (m_name m) _ _ priced (dijkstra_fuel f) (paths_from (m_name m)) p 0 0 1 Hdeg)
    as [(D' & s' & HK') Hall]; [lia|lia|lia| |done|done|].
  { intros n d0. cbn. rewrite lookup_singleton_Some. intros [_ <-]. lia. }
  destruct (settled_shortest _ _ _ _ priced _ _ _ _ _ _ HK' Hall W1) as (dn & Edn & Hle).
  destruct (k_walk _ _ _ _ _ _ _ HK' _ _ Edn) as [w Hw]. pose proof (M1 _ _ Hw).
  assert (dn = d) as -> by lia.
  eapply (unique_shortest f edges (m_name m)); try done.
  intros n k Hn Hk. by eapply first_tie_None.
Qed.

(** C11. Passing [check_no_equal_cost_paths] means the zone has no ECMP, as long as the costs and
    the path counts of a search fit in the u32 the source keeps them in ([search_fits]; beyond it the
    sums wrap, in the source and here): its graph exists, the search from each member ends, and
    between any member and any node there is at most one shortest walk, where a walk may leave
    only its source and members that are not leaves, and two walks that use different
    interfaces are different. *)
Theorem no_equal_cost_paths (f : Fabric) (z : string) :
  0 ≤ f_leaf_cost_offset f → search_fits f → check_no_equal_cost_paths f z = Ok tt →
  ∃ edges, edges_of f z = Ok edges ∧
    ∀ m, m ∈ f_members f →
      (∃ p, dijkstra (dijkstra_fuel f) f edges (m_name m) (paths_from (m_name m)) = Some p) ∧
      ∀ dst w1 w2, shortest_walk f edges (m_name m) dst w1 →
        shortest_walk f edges (m_name m) dst w2 → w1 = w2.
Proof.
  intros Hoff Hfit. unfold check_no_equal_cost_paths.
  destruct (edges_of f z) as [edges|] eqn:E; [|done]. rewrite for_each_ok, list.Forall_forall.
  intros Hall. exists edges. split; [done|]. intros m Hm.
  split; [by eapply search_returns|]. intros dst w1 w2. by eapply check_paths_sound; [..|apply Hall].
Qed.

(** ** Preference orders *)

Lemma ladder_cost_lt a b : (a < b)%nat ↔ ladder_cost a < ladder_cost b.
Proof.
  unfold ladder_cost. destruct (Nat.eqb_spec a 0), (Nat.eqb_spec b 0); lia.
Qed.

#[export] Instance ladder_cost_inj : Inj eq eq ladder_cost.
Proof.
  intros a b E. unfold ladder_cost in E. destruct (Nat.eqb_spec a 0), (Nat.eqb_spec b 0); lia.
Qed.

Lemma leb_faster_total a b : faster a b = true ∨ faster b a = true.
Proof.
  unfold faster. destruct (Z.ltb_spec (wire_speed b.2) (wire_speed a.2)); [by left|].
  destruct (Z.ltb_spec (wire_speed a.2) (wire_speed b.2)); [by right|].
  rewrite (proj2 (Z.eqb_eq _ _)), (proj2 (Z.eqb_eq (wire_speed b.2) _)) by lia. cbn.
  destruct (Nat.leb_spec a.1 b.1); [by left|]. right. apply Nat.leb_le. lia.
Qed.

#[export] Instance faster_total : Total (leb_rel faster).
Proof. intros a b. apply leb_faster_total. Qed.

#[export] Instance faster_trans : Transitive (leb_rel faster).
Proof.
  intros a b c. unfold leb_rel, faster.
  rewrite !orb_true_iff, !andb_true_iff, !Z.ltb_lt, !Z.eqb_eq, !Nat.leb_le. lia.
Qed.

Lemma enumerate_snd {A} (l : list A) : (enumerate l).*2 = l.
Proof. unfold enumerate. apply snd_zip. by rewrite length_seq. Qed.

Lemma fmap_filter {A B} (h : A → B) (P : B → bool) (l : list A) :
  h <$> filter (λ x, P (h x)) l = filter P (h <$> l).
Proof.
  induction l as [|x l IH]; [done|]. rewrite fmap_cons, !filter_cons.
  destruct (decide (P (h x))); [|done]. by rewrite fmap_cons, IH.
Qed.

Lemma filter_list_all {A} (P : A → Prop) `{∀ x, Decision (P x)} (l : list A) :
  Forall P l → filter P l = l.
Proof. induction 1; [done|]. rewrite filter_cons_True by done. by f_equal. Qed.

Lemma filter_list_none {A} (P : A → Prop) `{∀ x, Decision (P x)} (l : list A) :
  Forall (λ x, ¬ P x) l → filter P l = [].
Proof. induction 1; [done|]. by rewrite filter_cons_False. Qed.

Definition on_primary (z : Zone) (w : Wire) : bool := String.eqb (wire_domain w) (z_primary z).

Lemma primary_first_perm z cands :
  NoDup (wire_domain <$> cands) →
  option_list (List.find (on_primary z) cands) ++ filter (λ w, negb (on_primary z w)) cands
    ≡ₚ cands.
Proof.
  induction cands as [|w l IH]; cbn [List.find fmap list_fmap]; [done|].
  intros [Hw Hl]%list.NoDup_cons. rewrite filter_cons. destruct (on_primary z w) eqn:E; cbn.
  - f_equiv. rewrite filter_list_all; [done|]. apply list.Forall_forall. intros x Hx.
    destruct (on_primary z x) eqn:Ex; [|done]. destruct Hw.
    unfold on_primary in E, Ex. apply String.eqb_eq in E, Ex.
    apply list_elem_of_fmap. exists x. split; [congruence|done].
  - rewrite decide_True by done. by rewrite <-Permutation_middle, IH.
Qed.

(** The wires in the order [derived_order] names them. *)
Definition derived_wires (z : Zone) (cands : list Wire) : list Wire :=
  option_list (List.find (on_primary z) cands) ++
  (merge_sort (leb_rel faster) (filter (λ iw : nat * Wire, negb (on_primary z iw.2))
     (enumerate cands))).*2.

Lemma derived_order_wires z cands : derived_order z cands = wire_name <$> derived_wires z cands.
Proof.
  unfold derived_order, derived_wires. rewrite fmap_app, <-list_fmap_compose. f_equal.
  unfold on_primary. by destruct (List.find _ cands).
Qed.

Lemma derived_wires_perm z cands :
  NoDup (wire_domain <$> cands) → derived_wires z cands ≡ₚ cands.
Proof.
  intros Hd. rewrite <-(primary_first_perm z cands Hd) at 2. unfold derived_wires. f_equiv.
  rewrite merge_sort_Permutation, (fmap_filter snd (λ w, negb (on_primary z w))).
  by rewrite enumerate_snd.
Qed.

Lemma StronglySorted_fmap {A B} (h : A → B) (R : relation A) (S : relation B) l :
  (∀ a b, R a b → S (h a) (h b)) → StronglySorted R l → StronglySorted S (h <$> l).
Proof.
  intros HRS. induction 1 as [|x l _ IH Hx]; cbn; constructor; [done|].
  apply list.Forall_fmap. eapply list.Forall_impl; [done|]. intros y. apply HRS.
Qed.

(** A derived preference order names every candidate wire once, the wire on the zone's
    primary domain first when the member has one, and the others by descending speed. *)
Theorem derived_order_correct (z : Zone) (cands : list Wire) :
  NoDup (wire_domain <$> cands) →
  ∃ ws, derived_order z cands = wire_name <$> ws ∧ ws ≡ₚ cands ∧
    (∀ w, w ∈ cands → wire_domain w = z_primary z → head ws = Some w) ∧
    StronglySorted (λ a b, wire_speed b ≤ wire_speed a)
      (filter (λ w, wire_domain w ≠ z_primary z) ws).
Proof.
  intros Hd. exists (derived_wires z cands).
  split_and!; [apply derived_order_wires|by apply derived_wires_perm| |].
  - intros w Hw Ew. unfold derived_wires.
    destruct (List.find (on_primary z) cands) as [w'|] eqn:E.
    + apply find_Some_elem in E as [Hw' Ew']. apply String.eqb_eq in Ew'. cbn. f_equal.
      apply list_elem_of_lookup in Hw as [i Hi], Hw' as [j Hj].
      assert (i = j) as ->; [|congruence]. eapply (list.NoDup_lookup _ _ _ (wire_domain w) Hd).
      * by rewrite list_lookup_fmap, Hi.
      * rewrite list_lookup_fmap, Hj. cbn. congruence.
    + rewrite find_None_iff in E. specialize (E w Hw). apply String.eqb_neq in E. done.
  - unfold derived_wires. rewrite list.filter_app, filter_list_none, app_nil_l.
    2:{ apply list.Forall_forall. intros w Hw. destruct (List.find _ _) as [w'|] eqn:E; [|set_solver].
        apply list_elem_of_singleton in Hw as ->.
        apply find_Some_elem in E as [_ E%String.eqb_eq]. naive_solver. }
    rewrite filter_list_all.
    + eapply StronglySorted_fmap, StronglySorted_merge_sort; [|apply _..].
      intros a b. unfold leb_rel, faster. rewrite orb_true_iff, andb_true_iff, Z.ltb_lt, Z.eqb_eq. lia.
    + apply list.Forall_forall. intros w (iw & -> & Hin)%list_elem_of_fmap.
      rewrite merge_sort_Permutation in Hin. apply list_elem_of_filter in Hin as [Hin _].
      apply Is_true_true, negb_true_iff, String.eqb_neq in Hin. done.
Qed.

(** ** What a well-formed member derives *)

(** What [validate] establishes that derivation relies on. *)
Record derivable (f : Fabric) (m : Member) : Prop := {
  dv_zones s : s ∈ f_segments f → s_zone s ∈ z_name <$> f_zones f;
  dv_domains : NoDup (wire_domain <$> m_wires m);
  dv_prefs p z : wire_pref f (m_name m) z = Some p →
    ∀ n, n ∈ wp_order p ↔ n ∈ wire_name <$> candidate_wires f m z
}.

Lemma filter_collect_total {E A B} (g : A → result E (option B)) l :
  (∀ x, x ∈ l → ∃ y, g x = Ok y) → ∃ ys, filter_collect g l = Ok ys ∧
    ∀ y, y ∈ ys ↔ ∃ x, x ∈ l ∧ g x = Ok (Some y).
Proof.
  induction l as [|x l IH]; cbn; intros H; [exists []; set_solver|].
  destruct (H x) as [o Ho]; [by left|]. destruct IH as (ys & -> & Hys); [set_solver|].
  rewrite Ho. eexists. split; [done|]. intros y. rewrite elem_of_app, Hys. split.
  - intros [Hy|(x' & ? & ?)]; [|exists x'; split; [by right|done]].
    destruct o as [y'|]; cbn in Hy; [|set_solver]. apply list_elem_of_singleton in Hy as ->.
    exists x. split; [left|done].
  - intros (x' & [->|Hx]%elem_of_cons & E'); [left|right; by exists x'].
    assert (o = Some y) as -> by congruence. left.
Qed.

Lemma collect_total {E A B} (g : A → result E B) l :
  (∀ x, x ∈ l → ∃ y, g x = Ok y) → ∃ ys, collect g l = Ok ys.
Proof.
  induction l as [|x l IH]; cbn; intros H; [by exists []|].
  destruct (H x) as [y ->]; [by left|]. destruct IH as [ys ->]; [set_solver|]. by eexists.
Qed.

Lemma NoDup_filter_domains f m z :
  NoDup (wire_domain <$> m_wires m) → NoDup (wire_domain <$> candidate_wires f m z).
Proof.
  intros H. unfold candidate_wires. rewrite (fmap_filter wire_domain (segment_on f z)).
  by apply list.NoDup_filter.
Qed.

Lemma elem_of_pref_order f m z n :
  derivable f m →
  n ∈ hp_order (pref_of f m z) ↔ n ∈ wire_name <$> candidate_wires f m (z_name z).
Proof.
  intros Hm. unfold pref_of. destruct (wire_pref f (m_name m) (z_name z)) as [p|] eqn:E; cbn.
  - by apply (dv_prefs _ _ Hm).
  - rewrite derived_order_wires, derived_wires_perm; [done|].
    by apply NoDup_filter_domains, Hm.
Qed.

Lemma wire_on_candidate f m s d w :
  s ∈ f_segments f → s_scope s = OnDomain d → wire_on m d = Some w →
  w ∈ candidate_wires f m (s_zone s).
Proof.
  intros Hs Hd Hw. unfold wire_on in Hw. apply find_Some_elem in Hw as [Hin Ed%String.eqb_eq].
  apply list_elem_of_filter. split; [|done]. apply Is_true_true, any_true. exists s.
  split; [done|]. rewrite String.eqb_refl, Ed. cbn. by apply bool_decide_eq_true_2.
Qed.

Lemma candidate_segment f m z w :
  NoDup (wire_domain <$> m_wires m) → w ∈ candidate_wires f m z →
  ∃ s, s ∈ f_segments f ∧ s_zone s = z ∧ s_scope s = OnDomain (wire_domain w) ∧
    wire_on m (wire_domain w) = Some w.
Proof.
  intros Hnd [Hs Hw]%list_elem_of_filter. apply Is_true_true, any_true in Hs as (s & Hs & E).
  split_bools. exists s. apply String.eqb_eq in H. split_and!; [done..|].
  unfold wire_on. destruct (List.find _ _) as [w'|] eqn:Ef.
  - apply find_Some_elem in Ef as [Hw' Ew%String.eqb_eq]. f_equal.
    apply list_elem_of_lookup in Hw as [i Hi], Hw' as [j Hj].
    assert (i = j) as ->; [|congruence]. eapply (list.NoDup_lookup _ _ _ (wire_domain w) Hnd).
    + by rewrite list_lookup_fmap, Hi.
    + rewrite list_lookup_fmap, Hj. cbn. congruence.
  - rewrite find_None_iff in Ef. specialize (Ef w Hw). cbn in Ef. by rewrite String.eqb_refl in Ef.
Qed.

(** The zone whose preference a segment's row takes: the first of the segment's name. *)
Lemma find_pref f m zn :
  zn ∈ z_name <$> f_zones f →
  ∃ z, zone f zn = Ok z ∧ z ∈ f_zones f ∧ z_name z = zn ∧
    List.find (λ p, String.eqb (hp_zone p) zn) (prefs_of f m) = Some (pref_of f m z).
Proof.
  unfold zone, prefs_of. induction (f_zones f) as [|z zs IH]; cbn; [set_solver|].
  assert (hp_zone (pref_of f m z) = z_name z) as ->.
  { unfold pref_of. by destruct (wire_pref _ _ _). }
  destruct (String.eqb_spec (z_name z) zn) as [E|E].
  - intros _. exists z. split_and!; try done. left.
  - intros [->|Hin]%elem_of_cons; [done|]. destruct (IH Hin) as (z' & E' & ? & ? & ?).
    exists z'. destruct (List.find _ zs); [|done]. split_and!; try done. by right.
Qed.

(** The rank of a wire in the preference of a zone. *)
Definition rank_in (f : Fabric) (m : Member) (z : Zone) (n : string) : option nat :=
  position (λ x, String.eqb x n) (hp_order (pref_of f m z)).

Lemma rank_in_elem f m z n :
  n ∈ hp_order (pref_of f m z) → ∃ k, rank_in f m z n = Some k ∧
    hp_order (pref_of f m z) !! k = Some n.
Proof.
  intros H. unfold rank_in. destruct (position _ _) as [k|] eqn:E.
  - apply position_Some in E as (x & Hx & Ex%String.eqb_eq & _). subst. by exists k.
  - apply position_None in E. rewrite list.Forall_forall in E. specialize (E n H).
    by rewrite String.eqb_refl in E.
Qed.

(** Each segment's row, and that there is one: the [panic!]s are unreachable. *)
Lemma class_row_ok f m s :
  derivable f m → s ∈ f_segments f →
  match scope_domain (s_scope s) ≫= wire_on m with
  | None => class_row f m s = Ok None
  | Some w => ∃ z k, zone f (s_zone s) = Ok z ∧ rank_in f m z (wire_name w) = Some k ∧
      class_row f m s = Ok (Some {| cr_ifname := s_ifname s; cr_wire := wire_name w;
        cr_zone := s_zone s; cr_seg := s_seg s; cr_vid := s_vid s;
        cr_ospf_cost := ladder_cost k |})
  end.
Proof.
  intros Hm Hs. unfold class_row. destruct (scope_domain (s_scope s) ≫= wire_on m) as [w|] eqn:Ew;
    [|done].
  assert (w ∈ candidate_wires f m (s_zone s)) as Hw.
  { destruct (s_scope s) as [d|] eqn:Es; [|done]. by eapply wire_on_candidate. }
  destruct (find_pref f m (s_zone s)) as (z & Ez & Hz & Nz & ->); [by apply (dv_zones _ _ Hm)|].
  destruct (rank_in_elem f m z (wire_name w)) as (k & Hk & _).
  { apply elem_of_pref_order; [done|]. rewrite Nz. apply list_elem_of_fmap. by exists w. }
  exists z, k. unfold rank_in in *. by rewrite Hk.
Qed.

Lemma class_rows_ok f m :
  derivable f m → ∃ rows, class_rows_of f m = Ok rows ∧
    ∀ r, r ∈ rows ↔ ∃ s, s ∈ f_segments f ∧ class_row f m s = Ok (Some r).
Proof.
  intros Hm. apply filter_collect_total. intros s Hs. pose proof (class_row_ok f m s Hm Hs) as H.
  destruct (scope_domain (s_scope s) ≫= wire_on m); [|by eexists].
  destruct H as (z & k & _ & _ & ->). by eexists.
Qed.

Lemma better_home_min zn rows best :
  let r := foldl (better_home zn) best rows in
  (r = best ∨ ∃ x, x ∈ rows ∧ cr_zone x = zn ∧ r = Some (cr_ospf_cost x, cr_wire x)) ∧
  (∀ b, best = Some b → ∃ b', r = Some b' ∧ b'.1 ≤ b.1) ∧
  (∀ x, x ∈ rows → cr_zone x = zn → ∃ b', r = Some b' ∧ b'.1 ≤ cr_ospf_cost x).
Proof.
  cbv zeta. revert best. induction rows as [|y rows IH]; intros best; cbn [foldl].
  { split_and!; [by left| |set_solver]. intros b ->. by exists b. }
  destruct (IH (better_home zn best y)) as (H1 & H2 & H3).
  assert (Hb : ∀ b, best = Some b → ∃ b', better_home zn best y = Some b' ∧ b'.1 ≤ b.1).
  { intros b ->. unfold better_home. cbn. destruct (negb _); [by exists b|].
    destruct (Z.ltb_spec (cr_ospf_cost y) b.1); [|by exists b]. eexists. split; [done|]. cbn. lia. }
  assert (Hy : cr_zone y = zn → ∃ b', better_home zn best y = Some b' ∧ b'.1 ≤ cr_ospf_cost y).
  { intros <-. unfold better_home. rewrite String.eqb_refl. cbn [negb].
    destruct best as [b|]; cbn [is_none_or]; [|by eexists].
    destruct (Z.ltb_spec (cr_ospf_cost y) b.1); by eexists. }
  split_and!.
  - destruct H1 as [->|(x & Hx & Ez & ->)]; [|right; exists x; split_and!; [by right|done..]].
    unfold better_home. destruct (String.eqb_spec (cr_zone y) zn); cbn [negb]; [|by left].
    destruct (is_none_or _ _); [|by left]. right. exists y. split_and!; [left|done..].
  - intros b Eb. destruct (Hb b Eb) as (b1 & E1 & L1). destruct (H2 b1 E1) as (b2 & E2 & L2).
    exists b2. split; [done|lia].
  - intros x [->|Hx]%elem_of_cons Ez; [|by apply H3].
    destruct (Hy Ez) as (b1 & E1 & L1). destruct (H2 b1 E1) as (b2 & E2 & L2).
    exists b2. split; [done|lia].
Qed.

(** A member's home wire in a zone is the first wire of its preference for the zone, and it
    has none exactly when the preference is empty: the wire the member's bonds start on is the
    one an operator reads first in [cfab prefs]. *)
Theorem home_wire_is_first_preference (f : Fabric) (m : Member) (zn : string) (z : Zone) :
  derivable f m → zone f zn = Ok z →
  home_wire f m zn = Ok (head (hp_order (pref_of f m z))).
Proof.
  intros Hm Hz. assert (zn ∈ z_name <$> f_zones f ∧ z_name z = zn) as [Hin Nz].
  { unfold zone in Hz. destruct (List.find _ _) as [z'|] eqn:E; [|done]. injection Hz as ->.
    apply find_Some_elem in E as [? E%String.eqb_eq]. subst. split; [|done].
    apply list_elem_of_fmap. by exists z. }
  unfold home_wire. destruct (class_rows_ok f m Hm) as (rows & -> & Hrows). f_equal.
  assert (Hrow : ∀ x, x ∈ rows → cr_zone x = zn →
    ∃ k, hp_order (pref_of f m z) !! k = Some (cr_wire x) ∧ cr_ospf_cost x = ladder_cost k).
  { intros x (s & Hs & Ex)%Hrows Ez. pose proof (class_row_ok f m s Hm Hs) as H.
    destruct (scope_domain (s_scope s) ≫= wire_on m) as [w|]; [|congruence].
    destruct H as (z' & k & Ez' & Hk & Er). rewrite Er in Ex. injection Ex as <-. cbn in *.
    rewrite Ez in Ez'. assert (z' = z) as -> by congruence. exists k. split; [|done].
    unfold rank_in in Hk. apply position_Some in Hk as (n & Hn & <-%String.eqb_eq & _). done. }
  destruct (better_home_min zn rows None) as (H1 & _ & H3).
  destruct (hp_order (pref_of f m z)) as [|n order] eqn:Eo; cbn [head].
  - destruct H1 as [->|(x & Hx & Ez & _)]; [done|]. by destruct (Hrow x Hx Ez) as (? & ? & _).
  - assert (n ∈ wire_name <$> candidate_wires f m zn) as (w & -> & Hw)%list_elem_of_fmap.
    { rewrite <-Nz. apply elem_of_pref_order; [done|]. rewrite Eo. left. }
    destruct (candidate_segment f m zn w (dv_domains _ _ Hm) Hw) as (s & Hs & Es & Ed & Ew).
    pose proof (class_row_ok f m s Hm Hs) as H. rewrite Ed in H. cbn in H. rewrite Ew in H.
    destruct H as (z' & k & Ez' & Hk & Er). rewrite Es in Ez'.
    assert (z' = z) as -> by congruence.
    assert (k = 0%nat) as ->.
    { unfold rank_in in Hk. rewrite Eo in Hk. cbn in Hk. rewrite String.eqb_refl in Hk. congruence. }
    edestruct H3 as (b & Eb & Lb); [apply Hrows; by exists s|done|]. cbn in Lb.
    destruct H1 as [H1|(x & Hx & Ez & H1)]; [congruence|]. rewrite H1. cbn. f_equal.
    destruct (Hrow x Hx Ez) as (k & Hk' & Ec). rewrite H1 in Eb. injection Eb as <-. cbn in Lb.
    rewrite Ec in Lb. destruct k as [|k]; [cbn in Hk'; congruence|].
    assert (ladder_cost 0 < ladder_cost (S k)) as L by (apply ladder_cost_lt; lia).
    change (ladder_cost 0) with 10 in L. lia.
Qed.

(** ** The interfaces a member owns *)

Lemma str_compare_trans a b c :
  String.compare a b = Lt → String.compare b c = Lt → String.compare a c = Lt.
Proof.
  revert b c. induction a as [|x a IH]; intros [|y b] [|z c]; cbn; try done.
  unfold Ascii.compare.
  destruct (N.compare_spec (N_of_ascii x) (N_of_ascii y)) as [Exy|Exy|Exy]; try done;
    destruct (N.compare_spec (N_of_ascii y) (N_of_ascii z)) as [Eyz|Eyz|Eyz]; try done; intros.
  - rewrite Exy, Eyz, N.compare_refl. by eapply IH.
  - rewrite Exy. by rewrite (proj2 (N.compare_lt_iff _ _)).
  - rewrite <-Eyz. by rewrite (proj2 (N.compare_lt_iff _ _)).
  - rewrite (proj2 (N.compare_lt_iff _ _)); [done|]. lia.
Qed.

Lemma str_compare_gt a b : String.compare a b = Gt → String.compare b a = Lt.
Proof. rewrite String.compare_antisym. by destruct (String.compare b a). Qed.

Definition str_lt (a b : string) : Prop := String.compare a b = Lt.

#[export] Instance flag_leb_total : Total (leb_rel flag_leb).
Proof.
  intros [a x] [b y]. unfold leb_rel, flag_leb. cbn. rewrite (String.compare_antisym a b).
  destruct (String.compare b a), x, y; cbn; auto.
Qed.

#[export] Instance flag_leb_trans : Transitive (leb_rel flag_leb).
Proof.
  intros [a x] [b y] [c z]. unfold leb_rel, flag_leb. cbn.
  destruct (String.compare a b) eqn:E1; [|intros _|done];
    (destruct (String.compare b c) eqn:E2; [|intros _|done]).
  - apply String.compare_eq_iff in E1, E2. subst. rewrite str_compare_refl. by destruct x, y, z.
  - apply String.compare_eq_iff in E1. subst. by rewrite E2.
  - apply String.compare_eq_iff in E2. subst. by rewrite E1.
  - intros. by rewrite (str_compare_trans a b c).
Qed.

Lemma dedup_from_spec prev l :
  StronglySorted (leb_rel flag_leb) (prev :: l) →
  Sorted (λ a b : string * bool, str_lt a.1 b.1) (prev :: dedup_from prev l) ∧
  ∀ n b, (n, b) ∈ prev :: dedup_from prev l ↔
    (n, b) ∈ prev :: l ∧ ∀ b', (n, b') ∈ prev :: l → implb b b' = true.
Proof.
  revert prev. induction l as [|x l IH]; intros prev Hs; cbn [dedup_from].
  { split; [by repeat constructor|]. intros n b. setoid_rewrite list_elem_of_singleton.
    split; [|by intros [? _]]. intros <-. split; [done|]. intros b' [= ->]. by destruct b. }
  inversion Hs as [|? ? Hs' Hall]; subst. inversion Hall as [|? ? Hx Hall']; subst.
  destruct (String.eqb_spec x.1 prev.1) as [E|E].
  - assert (StronglySorted (leb_rel flag_leb) (prev :: l)) as Hp.
    { constructor; [by inversion Hs'|done]. }
    destruct (IH prev Hp) as [H1 H2]. split; [done|]. intros n b. rewrite H2.
    unfold leb_rel, flag_leb in Hx. rewrite E, str_compare_refl in Hx.
    destruct prev as [p pb], x as [q qb]. cbn in E, Hx. subst q. split.
    + intros [Hin Hmin]. split; [set_solver|].
      intros b' [Eq|[Eq|Hl]%elem_of_cons]%elem_of_cons; [apply Hmin; set_solver| |apply Hmin; set_solver].
      injection Eq as -> ->. specialize (Hmin pb (list_elem_of_here _ _)). by destruct b, pb, qb.
    + intros [Hin Hmin]. split; [|intros b' Hb'; apply Hmin; set_solver].
      apply elem_of_cons in Hin as [?|[Eq|?]%elem_of_cons]; [set_solver| |set_solver].
      injection Eq as -> ->. specialize (Hmin pb (list_elem_of_here _ _)).
      destruct qb, pb; cbn in *; try done; left.
  - destruct (IH x Hs') as [H1 H2].
    assert (str_lt prev.1 x.1) as Hlt.
    { unfold leb_rel, flag_leb in Hx. unfold str_lt. destruct (String.compare prev.1 x.1) eqn:Ec; try done.
      apply String.compare_eq_iff in Ec. congruence. }
    assert (Hgt : ∀ y, y ∈ x :: l → str_lt prev.1 y.1).
    { intros y [->|Hy]%elem_of_cons; [done|]. inversion Hs' as [|? ? _ Hxl]; subst.
      rewrite list.Forall_forall in Hxl. specialize (Hxl y Hy). unfold leb_rel, flag_leb in Hxl.
      unfold str_lt in *. destruct (String.compare x.1 y.1) eqn:Ec; try done.
      - apply String.compare_eq_iff in Ec. by rewrite <-Ec.
      - by eapply str_compare_trans. }
    assert (Hne : ∀ b, (prev.1, b) ∉ x :: l).
    { intros b Hin%Hgt. unfold str_lt in Hin. cbn in Hin. by rewrite str_compare_refl in Hin. }
    split; [by constructor; [|constructor]|]. intros n b. rewrite elem_of_cons, H2.
    rewrite (elem_of_cons (x :: l)). destruct prev as [p pb]. cbn [fst] in *. split.
    + intros [[= -> ->]|[Hin Hmin]].
      * split; [by left|]. intros b' [[= ->]|Hb']%elem_of_cons; [by destruct pb|]. by destruct (Hne b').
      * split; [by right|]. intros b' [[= -> ->]|Hb']%elem_of_cons; [by destruct (Hne b)|]. by apply Hmin.
    + intros [[[= -> ->]|Hin] Hmin]; [by left|]. right. split; [done|].
      intros b' Hb'. apply Hmin. by right.
Qed.

Lemma dedup_by_name_spec l :
  StronglySorted (leb_rel flag_leb) l →
  Sorted (λ a b : string * bool, str_lt a.1 b.1) (dedup_by_name l) ∧
  ∀ n b, (n, b) ∈ dedup_by_name l ↔ (n, b) ∈ l ∧ ∀ b', (n, b') ∈ l → implb b b' = true.
Proof.
  destruct l as [|x l]; [|apply dedup_from_spec]. intros _. cbn. split; [constructor|]. set_solver.
Qed.

Section view_total.
Context (f : Fabric) (Hall : ∀ m, m ∈ f_members f → derivable f m).

Lemma universal_cost_total z : ∃ c, universal_cost f z = Ok c.
Proof using Hall.
  unfold universal_cost. edestruct (collect_total (segment_cost f)) as [cs ->]; [|by eexists].
  intros s _. unfold segment_cost.
  edestruct (filter_collect_total (λ m, rows <-? class_rows_of f m ;;
    Ok (cr_ospf_cost <$> List.find (λ r, String.eqb (cr_ifname r) (s_ifname s)) rows)) (f_members f))
    as (cs & -> & _); [|by eexists].
  intros m Hm. destruct (class_rows_ok f m (Hall m Hm)) as (rows & -> & _). by eexists.
Qed.

Lemma fallback_rows_total m : derivable f m → ∃ rows, fallback_rows_of f m = Ok rows.
Proof using Hall.
  intros Hm. unfold fallback_rows_of. edestruct (filter_collect_total (fallback_row f m))
    as (rows & -> & _); [|by eexists].
  intros s _. unfold fallback_row, home_wire.
  destruct (class_rows_ok f m Hm) as (rows & -> & _). cbv beta zeta iota.
  destruct (home_or_first _ _); [|by eexists]. destruct (universal_cost_total (s_zone s)) as [c ->].
  by eexists.
Qed.

Lemma gw_rows_total m : derivable f m → ∃ rows, gw_rows_of f m = Ok rows.
Proof using Hall.
  intros Hm. unfold gw_rows_of. destruct (m_kind m); [|by eexists].
  edestruct (filter_collect_total (gw_row f m)) as (rows & -> & _); [|by eexists].
  intros z _. unfold gw_row, home_wire. destruct (z_gw z); [|by eexists].
  destruct (gw_scope _); [by eexists|]. destruct (class_rows_ok f m Hm) as (rows & -> & _). by eexists.
Qed.

Lemma edges_from_total z m : m ∈ f_members f → ∃ es, edges_from f z m = Ok es.
Proof using Hall.
  intros Hm. unfold edges_from. destruct (class_rows_ok f m (Hall m Hm)) as (rows & -> & _).
  destruct (fallback_rows_total m (Hall m Hm)) as [fb ->].
  edestruct (collect_total (edges_to f z (match m_kind m with Leaf => f_leaf_cost_offset f | Host => 0 end)
    (filter (λ r, String.eqb (cr_zone r) z) rows) (filter (λ r, String.eqb (fr_zone r) z) fb)))
    as [per ->]; [|by eexists].
  intros o [_ Ho]%list_elem_of_filter. unfold edges_to.
  destruct (class_rows_ok f o (Hall o Ho)) as (theirs & -> & _). by eexists.
Qed.

Lemma edges_of_total z : ∃ g, edges_of f z = Ok g.
Proof using Hall.
  unfold edges_of. edestruct (collect_total (λ m, es <-? edges_from f z m ;; Ok (m_name m, es))
    (f_members f)) as [ls ->]; [|by eexists].
  intros m Hm. destruct (edges_from_total z m Hm) as [es ->]. by eexists.
Qed.

Lemma owned_list_total v : v_fabric v = f → derivable f (v_member v) → ∃ l, owned_list v = Ok l.
Proof using Hall.
  intros Hf Hm. unfold owned_list, class_rows, gw_rows, fallback_rows. rewrite Hf.
  destruct (class_rows_ok f _ Hm) as (rows & -> & _), (gw_rows_total _ Hm) as [gs ->],
    (fallback_rows_total _ Hm) as [fs ->]. by eexists.
Qed.
End view_total.

(** On a well-formed fabric the interfaces a member owns are derived, listed once each and
    in byte order, and a name that several sources claim forwards only if every one of them
    says so. *)
Theorem owned_forwarding_correct (v : View) :
  (∀ m, m ∈ f_members (v_fabric v) → derivable (v_fabric v) m) →
  v_member v ∈ f_members (v_fabric v) →
  ∃ claims owned, owned_list v = Ok claims ∧ owned_forwarding v = Ok owned ∧
    Sorted (λ a b : string * bool, str_lt a.1 b.1) owned ∧
    ∀ n b, (n, b) ∈ owned ↔ (n, b) ∈ claims ∧ ∀ b', (n, b') ∈ claims → implb b b' = true.
Proof.
  intros Hall Hm. destruct (owned_list_total _ Hall v eq_refl (Hall _ Hm)) as [claims E].
  unfold owned_forwarding. rewrite E. eexists claims, _. split_and!; try done.
  - by apply dedup_by_name_spec, StronglySorted_merge_sort; [apply _..].
  - intros n b. rewrite (proj2 (dedup_by_name_spec _ (StronglySorted_merge_sort _ claims))).
    by setoid_rewrite (merge_sort_Permutation (leb_rel flag_leb) claims).
Qed.

(** ** A fabric to evaluate on

    Two hosts on two switch domains and a leaf on one, a zone that prefers the first, a
    universal segment, an ingress, and a workload the first host carries. *)
Module Sample.
Definition h1 : Member :=
  {| m_name := "h1"; m_node := 1; m_kind := Host;
     m_wires := [ {| wire_name := "eth1"; wire_domain := "b"; wire_speed := 1000 |};
                  {| wire_name := "eth0"; wire_domain := "a"; wire_speed := 10000 |} ];
     m_workloads := [ {| mw_name := "vms"; mw_address := 3232235522; mw_len := 24 |} ] |}.
Definition h2 : Member :=
  {| m_name := "h2"; m_node := 2; m_kind := Host;
     m_wires := [ {| wire_name := "eth0"; wire_domain := "a"; wire_speed := 10000 |};
                  {| wire_name := "eth1"; wire_domain := "b"; wire_speed := 1000 |} ];
     m_workloads := [] |}.
Definition leaf : Member :=
  {| m_name := "l1"; m_node := 3; m_kind := Leaf;
     m_wires := [ {| wire_name := "eth0"; wire_domain := "a"; wire_speed := 2500 |} ];
     m_workloads := [] |}.
Definition storage : Zone :=
  {| z_name := "storage"; z_id := 10; z_pcp := 3; z_dscp := Cs2; z_floor_mbps := 1000; z_band := 1;
     z_weight := 2; z_primary := "a";
     z_gw := Some {| gw_scope := Universal; gw_vid := 250; gw_router := "172.16.0.254" |} |}.
Definition vms : Workload :=
  {| wl_name := "vms"; wl_uplink := "eth2"; wl_vid := 300; wl_prefix := mk_prefix 3232235520 24;
     wl_gw := 3232235521; wl_dhcp_server := Some 3232236033; wl_allow := ["storage"] |}.
Definition fabric : Fabric :=
  {| f_domains := ["a"; "b"]; f_members := [h1; h2; leaf]; f_zones := [storage];
     f_segments := [ {| s_ifname := "st-a"; s_scope := OnDomain "a"; s_zone := "storage"; s_seg := 1; s_vid := 101 |};
                     {| s_ifname := "st-b"; s_scope := OnDomain "b"; s_zone := "storage"; s_seg := 2; s_vid := 102 |};
                     {| s_ifname := "st-any"; s_scope := Universal; s_zone := "storage"; s_seg := 9; s_vid := 109 |} ];
     f_wire_prefs := [ {| wp_member := "h2"; wp_zone := "storage"; wp_order := ["eth0"; "eth1"] |} ];
     f_leaf_cost_offset := LEAF_OFFSET; f_host_forward := true;
     f_forward_allow := [("storage", "storage")]; f_admin_floor_mbps := 100; f_admin_band := 1;
     f_pcp_ctrl := 6; f_dscp_mark := true; f_bfd := bfd_default; f_ospf := ospf_default;
     f_bgp := bgp_default; f_run_dir := RUN_DIR; f_dns_domain := "example.net";
     f_workloads := [vms] |}.
Definition view : View := {| v_fabric := fabric; v_member := h1 |}.
End Sample.

Lemma sample_derivable m : m ∈ f_members Sample.fabric → derivable Sample.fabric m.
Proof.
  intros Hm.
  assert (m = Sample.h1 ∨ m = Sample.h2 ∨ m = Sample.leaf) as Hc by set_solver. split.
  - cbn. intros s Hs. assert (s_zone s = "storage") as -> by set_solver. left.
  - destruct Hc as [->|[->| ->]]; apply (bool_decide_unpack _); by vm_compute.
  - intros p z E. apply find_Some_elem in E as [Hp E].
    apply andb_true_iff in E as [E1%String.eqb_eq E2%String.eqb_eq].
    apply list_elem_of_singleton in Hp as ->. cbn in E1, E2. subst z.
    destruct Hc as [->|[->| ->]]; [done| |done].
    intros n. assert (wire_name <$> candidate_wires Sample.fabric Sample.h2 "storage" = ["eth0"; "eth1"])
      as -> by (by vm_compute). done.
Qed.

Lemma no_ecmp_witness :
  check_no_equal_cost_paths Sample.fabric "storage" = Ok tt ∧
  ∃ edges, edges_of Sample.fabric "storage" = Ok edges ∧
    ∀ m, m ∈ f_members Sample.fabric →
      (∃ p, dijkstra (dijkstra_fuel Sample.fabric) Sample.fabric edges (m_name m)
              (paths_from (m_name m)) = Some p) ∧
      ∀ dst w1 w2, shortest_walk Sample.fabric edges (m_name m) dst w1 →
        shortest_walk Sample.fabric edges (m_name m) dst w2 → w1 = w2.
Proof.
  split; [by vm_compute|]. apply (no_equal_cost_paths Sample.fabric "storage"); [done|by split; vm_compute|by vm_compute].
Defined.

Lemma derived_order_witness :
  NoDup (wire_domain <$> m_wires Sample.h1) ∧
  derived_order Sample.storage (m_wires Sample.h1) = ["eth0"; "eth1"] ∧
  ∃ ws, derived_order Sample.storage (m_wires Sample.h1) = wire_name <$> ws ∧
    ws ≡ₚ m_wires Sample.h1 ∧
    (∀ w, w ∈ m_wires Sample.h1 → wire_domain w = z_primary Sample.storage → head ws = Some w) ∧
    StronglySorted (λ a b, wire_speed b ≤ wire_speed a)
      (filter (λ w, wire_domain w ≠ z_primary Sample.storage) ws).
Proof.
  assert (NoDup (wire_domain <$> m_wires Sample.h1)) as H
    by (apply (bool_decide_unpack _); by vm_compute).
  split_and!; [exact H|by vm_compute|]. exact (derived_order_correct Sample.storage _ H).
Defined.

Lemma home_wire_witness :
  home_wire Sample.fabric Sample.h1 "storage" = Ok (Some "eth0") ∧
  home_wire Sample.fabric Sample.h1 "storage" =
    Ok (head (hp_order (pref_of Sample.fabric Sample.h1 Sample.storage))).
Proof.
  split; [by vm_compute|]. apply home_wire_is_first_preference; [|done].
  apply sample_derivable. cbn. left.
Defined.

Lemma owned_forwarding_witness :
  ∃ claims owned, owned_list Sample.view = Ok claims ∧ owned_forwarding Sample.view = Ok owned ∧
    Sorted (λ a b : string * bool, str_lt a.1 b.1) owned ∧
    ∀ n b, (n, b) ∈ owned ↔ (n, b) ∈ claims ∧ ∀ b', (n, b') ∈ claims → implb b b' = true.
Proof. apply (owned_forwarding_correct Sample.view); [apply sample_derivable|cbn; left]. Defined.
