(* ===== verification/Validate.v ===== *)
(** The declaration gate ([Fabric::from_decl] and [Fabric::validate], src/src/model.rs).

    Each block of [validate] is one definition, composed in the source's order, so which of two
    faults is reported first is the source's choice too. *)
From Stdlib Require Import Ascii String.
From S2P Require Import Prelude Text Net Decl Fabric Derive.
Local Open Scope Z_scope.

(** ** The blocks of [validate] *)

(** [dup]: the first item already seen. *)
Fixpoint dup_from (seen : gset string) (l : list string) : option string :=
  match l with
  | [] => None
  | x :: l' => if bool_decide (x ∈ seen) then Some x else dup_from (seen ∪ {[x]}) l'
  end.
Definition dup (l : list string) : option string := dup_from ∅ l.

Definition refuse_dup (e : string → Refusal) (l : list string) : result Refusal unit :=
  match dup l with Some d => Err (e d) | None => Ok tt end.

Definition declared (f : Fabric) (d : DomainId) : bool := bool_decide (d ∈ f_domains f).

(** [for w in &m.wires { if !seen.insert(&w.domain) }]. *)
Fixpoint wires_distinct (m : Member) (seen : gset string) (l : list Wire) : result Refusal unit :=
  match l with
  | [] => Ok tt
  | w :: l' =>
      refuse_if (bool_decide (wire_domain w ∈ seen))
        (TwoWiresOnDomain (m_name m) (wire_domain w)
           (wire_name <$> filter (λ x, String.eqb (wire_domain x) (wire_domain w)) (m_wires m))) ;;?
      wires_distinct m (seen ∪ {[wire_domain w]}) l'
  end.

Definition check_member_wires (f : Fabric) (m : Member) : result Refusal unit :=
  refuse_if (bool_decide (m_wires m = [])) (NoWires (m_name m)) ;;?
  for_each (λ w, refuse_if (negb (declared f (wire_domain w)))
                   (WireUndeclared (m_name m) (wire_name w) (wire_domain w))) (m_wires m) ;;?
  wires_distinct m ∅ (m_wires m).

Definition check_segment_domain (f : Fabric) (s : Segment) : result Refusal unit :=
  match scope_domain (s_scope s) with
  | Some d => refuse_if (negb (declared f d)) (SegmentUndeclared (s_ifname s) d)
  | None => Ok tt
  end.

Definition check_zone_domains (f : Fabric) (z : Zone) : result Refusal unit :=
  refuse_if (negb (declared f (z_primary z))) (PrimaryUndeclared (z_name z) (z_primary z)) ;;?
  match z_gw z ≫= (λ g, scope_domain (gw_scope g)) with
  | Some d => refuse_if (negb (declared f d)) (GwUndeclared (z_name z) d)
  | None => Ok tt
  end.

Definition check_domains (f : Fabric) : result Refusal unit :=
  refuse_if (bool_decide (f_domains f = [])) NoDomains ;;?
  for_each (check_member_wires f) (f_members f) ;;?
  for_each (check_segment_domain f) (f_segments f) ;;?
  for_each (check_zone_domains f) (f_zones f) ;;?
  for_each (λ d, refuse_if (negb (any (λ m, bool_decide (is_Some (wire_on m d))) (f_members f)))
                   (DomainUnwired d)) (f_domains f).

(** [self.zone(..)?], for its error alone. *)
Definition zone_known (f : Fabric) (z : string) : result Refusal unit := _ <-? zone f z ;; Ok tt.

Definition seg_key (s : Segment) : string := (s_zone s ++ ":" ++ show (s_seg s))%string.
Definition scope_key (s : Segment) : string := (s_zone s ++ ":" ++ scope_show (s_scope s))%string.

Definition check_segments (f : Fabric) : result Refusal unit :=
  let st := f_segments f in
  refuse_dup DupVid ((λ s, show (s_vid s)) <$> st) ;;?
  refuse_dup DupSeg (seg_key <$> st) ;;?
  refuse_dup DupZoneDomain (scope_key <$> st) ;;?
  refuse_dup DupIfname (s_ifname <$> st) ;;?
  for_each (λ s, zone_known f (s_zone s)) st ;;?
  for_each (λ s, refuse_if (bond_ifname_too_long (s_ifname s)) (UniversalTooLong (s_ifname s)))
    (filter (λ s, is_universal (s_scope s)) st).

Definition check_zone (f : Fabric) (z : Zone) : result Refusal unit :=
  refuse_if (z_id z <? 1) (BadZoneId (z_id z)) ;;?
  refuse_if (negb (segment_on f (z_name z) (z_primary z)))
    (PrimaryNoSegment (z_name z) (z_primary z)).

Definition check_zones (f : Fabric) : result Refusal unit :=
  refuse_dup DupZoneId ((λ z, show (z_id z)) <$> f_zones f) ;;?
  for_each (check_zone f) (f_zones f).

Definition check_members (f : Fabric) : result Refusal unit :=
  refuse_dup DupMember (m_name <$> f_members f) ;;?
  refuse_dup DupNode ((λ m, show (m_node m)) <$> f_members f).

(** One row of [check_wire_prefs]; a member that is not declared is a [panic!]. *)
Definition check_wire_pref (f : Fabric) (p : WirePref) : result Refusal unit :=
  match member f (wp_member p) with
  | Err _ => Err (Panics "prefs for a member that is not in the declaration")
  | Ok m =>
      context ("member " ++ wp_member p ++ " prefs " ++ wp_zone p ++ ": ")%string
        (zone_known f (wp_zone p)) ;;?
      for_each (λ w, refuse_if (bool_decide (wire_named m w = None))
                       (PrefNotAWire (wp_member p) (wp_zone p) w)) (wp_order p) ;;?
      let want : gset string := list_to_set (wire_name <$> candidate_wires f m (wp_zone p)) in
      let got : gset string := list_to_set (wp_order p) in
      refuse_if (negb (size got =? length (wp_order p))%nat) (PrefTwice (wp_member p) (wp_zone p)) ;;?
      refuse_if (negb (bool_decide (got = want)))
        (PrefIncomplete (wp_member p) (wp_zone p) (btree_set_iter str_leb want) (wp_order p))
  end.

Definition check_wire_prefs (f : Fabric) : result Refusal unit :=
  for_each (check_wire_pref f) (f_wire_prefs f).

Definition check_forward_allow (f : Fabric) : result Refusal unit :=
  for_each (λ ft : string * string,
    for_each (λ z, refuse_if (all (λ zz, negb (String.eqb (z_name zz) z)) (f_zones f))
                     (ForwardUnknownZone ft.1 ft.2 z)) [ft.1; ft.2]) (f_forward_allow f).

(** *** Workloads *)

Definition bond_ifnames (f : Fabric) : list string :=
  (s_ifname <$> filter (λ s, is_universal (s_scope s)) (f_segments f))
  ++ omap (λ z, g ← z_gw z; if is_universal (gw_scope g) then Some (gw_ifname (z_id z)) else None)
       (f_zones f).

Definition leg_collides (f : Fabric) (leg : string) : bool :=
  any (λ m, any (λ w, String.eqb (wire_name w) leg) (m_wires m)) (f_members f)
  || any (λ s, String.eqb (s_ifname s) leg) (f_segments f)
  || any (λ b, any (λ d, String.eqb leg (b ++ "-" ++ d)%string) (f_domains f)) (bond_ifnames f)
  || any (λ z, let '(id, peer) := identity_ifnames (z_id z) in
               String.eqb leg (gw_ifname (z_id z)) || String.eqb leg id || String.eqb leg peer)
       (f_zones f).

Definition carries (m : Member) (wl : string) : bool :=
  any (λ w, String.eqb (mw_name w) wl) (m_workloads m).

Definition check_dhcp_server (f : Fabric) (wl : Workload) : result Refusal unit :=
  match wl_dhcp_server wl with
  | None => Ok tt
  | Some server =>
      refuse_if (server =? wl_gw wl) (DhcpIsGw (wl_name wl) server) ;;?
      match List.find (λ m, any (λ w, String.eqb (mw_name w) (wl_name wl) && (mw_address w =? server))
                              (m_workloads m)) (f_members f) with
      | Some m => Err (DhcpIsMember (wl_name wl) server (m_name m))
      | None => Ok tt
      end ;;?
      refuse_if (contains (wl_prefix wl) server) (DhcpInside (wl_name wl) server (wl_prefix wl)) ;;?
      refuse_if (is_unspecified server || (server =? BROADCAST)) (DhcpReserved (wl_name wl) server)
  end.

(** [Ipv4Prefix::parse(&format!("{}.0.0/16", z.block())).expect(..)]. *)
Definition zone_block (z : Zone) : result Refusal Ipv4Prefix :=
  match prefix_parse (block_of z ++ ".0.0/16")%string with
  | Ok b => Ok b
  | Err _ => Err (Panics "a zone block is always a valid /16")
  end.

Definition check_workload (f : Fabric) (wl : Workload) : result Refusal unit :=
  refuse_if (len (wl_prefix wl) <? MIN_WORKLOAD_PREFIX_LEN)
    (WlPrefixTooBig (wl_name wl) (wl_prefix wl)) ;;?
  refuse_if (negb (contains (wl_prefix wl) (wl_gw wl)))
    (WlGwOutside (wl_name wl) (wl_gw wl) (wl_prefix wl)) ;;?
  refuse_if ((wl_gw wl =? net (wl_prefix wl)) || (wl_gw wl =? broadcast (wl_prefix wl)))
    (WlGwReserved (wl_name wl) (wl_gw wl) (wl_prefix wl)) ;;?
  check_dhcp_server f wl ;;?
  for_each (λ z, b <-? zone_block z ;;
                 refuse_if (overlaps (wl_prefix wl) b)
                   (WlOverlapsZone (wl_name wl) (wl_prefix wl) (z_name z) b)) (f_zones f) ;;?
  refuse_if (bool_decide (wl_allow wl = [])) (WlAllowEmpty (wl_name wl)) ;;?
  refuse_if (negb (f_host_forward f)) (WlForwardOff (wl_name wl)) ;;?
  for_each (λ z, refuse_if (negb (is_ok (zone f z)))
                   (WlAllowUnknown (wl_name wl) z (z_name <$> f_zones f))) (wl_allow wl) ;;?
  refuse_if (negb (any (λ m, carries m (wl_name wl)) (f_members f))) (WlNoMember (wl_name wl)).

(** The loop over the rows, with the names, legs and VLANs seen so far. *)
Fixpoint check_workloads_from (f : Fabric) (seen : gset string) (legs : gmap string string)
    (vlans : gmap (string * Z) string) (l : list Workload) : result Refusal unit :=
  match l with
  | [] => Ok tt
  | wl :: l' =>
      let leg := leg_ifname wl in
      refuse_if (is_ok (zone f (wl_name wl))) (WlIsZone (wl_name wl)) ;;?
      refuse_if (bool_decide (wl_name wl ∈ seen)) (WlTwice (wl_name wl)) ;;?
      match legs !! leg with
      | Some other => Err (WlLegShared (wl_name wl) leg other) | None => Ok tt end ;;?
      match vlans !! (wl_uplink wl, wl_vid wl) with
      | Some other => Err (WlVlanShared (wl_name wl) (wl_uplink wl) (wl_vid wl) other)
      | None => Ok tt end ;;?
      refuse_if (leg_collides f leg) (WlLegCollides (wl_name wl) leg) ;;?
      check_workload f wl ;;?
      check_workloads_from f (seen ∪ {[wl_name wl]}) (<[leg := wl_name wl]> legs)
        (<[(wl_uplink wl, wl_vid wl) := wl_name wl]> vlans) l'
  end.

Definition check_workloads (f : Fabric) : result Refusal unit :=
  check_workloads_from f ∅ ∅ ∅ (f_workloads f).

Fixpoint check_member_workloads_from (f : Fabric) (m : Member) (seen : gset string)
    (l : list MemberWorkload) : result Refusal unit :=
  match l with
  | [] => Ok tt
  | mw :: l' =>
      refuse_if (bool_decide (mw_name mw ∈ seen)) (MwTwice (m_name m) (mw_name mw)) ;;?
      match workload f (mw_name mw) with
      | None => Err (MwUnknown (m_name m) (mw_name mw) (wl_name <$> f_workloads f))
      | Some wl =>
          let p := wl_prefix wl in
          let a := mw_address mw in
          refuse_if (bool_decide (m_kind m = Leaf)) (MwLeaf (m_name m) (wl_name wl)) ;;?
          refuse_if (negb (contains p a)) (MwOutside (m_name m) (wl_name wl) a p) ;;?
          refuse_if (negb (mw_len mw =? len p)) (MwMask (m_name m) (wl_name wl) a (len p)) ;;?
          refuse_if (a =? wl_gw wl) (MwIsGw (m_name m) (wl_name wl) a) ;;?
          refuse_if ((a =? net p) || (a =? broadcast p)) (MwReserved (m_name m) (wl_name wl) a p)
      end ;;?
      check_member_workloads_from f m (seen ∪ {[mw_name mw]}) l'
  end.

Definition check_member_workloads (f : Fabric) : result Refusal unit :=
  for_each (λ m, check_member_workloads_from f m ∅ (m_workloads m)) (f_members f).

(** The addresses of one row: [seen_addrs.insert(..)] over the members that carry it. *)
Fixpoint addresses_distinct (wl : Workload) (seen : gmap Ipv4Addr string) (l : list Member)
    : result Refusal unit :=
  match l with
  | [] => Ok tt
  | m :: l' =>
      match List.find (λ w, String.eqb (mw_name w) (wl_name wl)) (m_workloads m) with
      | None => addresses_distinct wl seen l'
      | Some mw =>
          match seen !! mw_address mw with
          | Some prev => Err (MwShared (wl_name wl) (mw_address mw) prev (m_name m))
          | None => addresses_distinct wl (<[mw_address mw := m_name m]> seen) l'
          end
      end
  end.

Definition check_addresses (f : Fabric) : result Refusal unit :=
  for_each (λ wl, addresses_distinct wl ∅ (f_members f)) (f_workloads f).

Definition check_gw (f : Fabric) (z : Zone) : result Refusal unit :=
  match z_gw z with
  | None => Ok tt
  | Some g =>
      refuse_if (is_universal (gw_scope g) && bond_ifname_too_long (gw_ifname (z_id z)))
        (GwIfnameTooLong (z_name z) (z_id z)) ;;?
      refuse_if (any (λ s, s_vid s =? gw_vid g) (f_segments f)) (GwVidTaken (z_name z) (gw_vid g)) ;;?
      match router_octet g with
      | None => Err (Panics "gw router is not an IPv4 address")
      | Some octet =>
          for_each (λ m, refuse_if (m_node m =? octet)
                           (GwNodeCollides (z_name z) (gw_router g) (m_node m) (m_name m)))
            (f_members f)
      end
  end.

Definition validate (f : Fabric) : result Refusal unit :=
  check_domains f ;;?
  check_segments f ;;?
  check_zones f ;;?
  check_members f ;;?
  check_wire_prefs f ;;?
  check_forward_allow f ;;?
  check_workloads f ;;?
  check_member_workloads f ;;?
  check_addresses f ;;?
  for_each (check_gw f) (f_zones f) ;;?
  validate_derived f.

(** ** Resolving a declaration *)

Definition resolve_wire (m : MemberDecl) (w : WireDecl) : result Refusal Wire :=
  let ctx := ("member " ++ md_name m ++ ": wire " ++ wd_nic w ++ ": ")%string in
  d <-? context ctx (domain_parse (wd_domain w)) ;;
  refuse_if (bool_decide (is_Some (wd_driver_features w))) (RetiredKey ctx "driver_features") ;;?
  refuse_if (bool_decide (is_Some (wd_usb w))) (RetiredKey ctx "usb") ;;?
  Ok {| wire_name := wd_nic w; wire_domain := d; wire_speed := wd_speed_mbps w |}.

Definition resolve_member_workload (m : MemberDecl) (w : MemberWorkloadDecl)
    : result Refusal MemberWorkload :=
  match parse_ipv4_with_len (mwd_address w) with
  | None => Err (BadMemberAddress (md_name m) (mwd_name w) (mwd_address w))
  | Some (a, l) => Ok {| mw_name := mwd_name w; mw_address := a; mw_len := l |}
  end.

Definition member_prefs (m : MemberDecl) : list WirePref :=
  (λ zo : string * list string,
     {| wp_member := md_name m; wp_zone := zo.1; wp_order := zo.2 |})
    <$> btree_iter str_leb (md_prefs m).

Definition resolve_member (m : MemberDecl) : result Refusal (Member * list WirePref) :=
  ws <-? collect (resolve_wire m) (md_wires m) ;;
  wls <-? collect (resolve_member_workload m) (md_workloads m) ;;
  Ok ({| m_name := md_name m; m_node := md_node m; m_kind := md_kind m; m_wires := ws;
         m_workloads := wls |}, member_prefs m).

Definition resolve_segment (z : ZoneDecl) (s : SegmentDecl) : result Refusal Segment :=
  d <-? context ("zone " ++ zd_name z ++ ": segment " ++ sd_ifname s ++ ": ")%string
          (domain_parse (sd_domain s)) ;;
  Ok {| s_ifname := sd_ifname s; s_scope := OnDomain d; s_zone := zd_name z; s_seg := sd_seg s;
        s_vid := sd_vid s |}.

Definition resolve_zone (z : ZoneDecl) : result Refusal (Zone * list Segment) :=
  segs <-? collect (resolve_segment z) (zd_segments z) ;;
  let universal := (λ u, {| s_ifname := ud_ifname u; s_scope := Universal; s_zone := zd_name z;
                            s_seg := ud_seg u; s_vid := ud_vid u |}) <$> zd_universal z in
  gw <-? match zd_gw z with
         | Some g => g <-? resolve_gw (zd_name z) g ;; Ok (Some g)
         | None => Ok None
         end ;;
  primary <-? context ("zone " ++ zd_name z ++ ": primary ")%string (domain_parse (zd_primary z)) ;;
  Ok ({| z_name := zd_name z; z_id := zd_id z; z_pcp := zd_pcp z; z_dscp := zd_dscp z;
         z_floor_mbps := zd_floor_mbps z; z_band := zd_band z; z_weight := zd_weight z;
         z_primary := primary; z_gw := gw |}, segs ++ option_list universal).

Definition resolve_forward (pair : string) : result Refusal (string * string) :=
  match split_once ">"%char pair with
  | Some ft => Ok ft
  | None => Err (BadForwardPair pair)
  end.

Definition MIN_BFD_PORT : Z := 1024.

Definition fabric_of (d : Declaration) (domains : list DomainId)
    (members : list (Member * list WirePref)) (zones : list (Zone * list Segment))
    (workloads : list Workload) (forward_allow : list (string * string)) : Fabric :=
  let admin := unwrap_or (d_admin d) admin_default in
  let marking := unwrap_or (d_marking d) marking_default in
  let cost := unwrap_or (d_cost d) cost_default in
  let bfd := unwrap_or (d_bfd d) bfd_default in
  let ospf := unwrap_or (d_ospf d) ospf_default in
  let bgp := unwrap_or (d_bgp d) bgp_default in
  let runtime := unwrap_or (d_runtime d) runtime_default in
  {|
    f_domains := domains; f_members := members.*1; f_zones := zones.*1;
    f_segments := concat (zones.*2); f_wire_prefs := concat (members.*2);
    f_leaf_cost_offset := co_leaf_offset cost;
    f_host_forward := fd_enabled (d_forward d); f_forward_allow := forward_allow;
    f_admin_floor_mbps := ad_floor_mbps admin; f_admin_band := ad_band admin;
    f_pcp_ctrl := mk_pcp_ctrl marking; f_dscp_mark := mk_set_dscp marking;
    f_bfd := bfd; f_ospf := ospf; f_bgp := bgp; f_run_dir := rd_run_dir runtime;
    f_dns_domain := d_dns_domain d; f_workloads := workloads |}.

Definition from_decl (d : Declaration) : result Refusal Fabric :=
  domains <-? collect domain_parse (btree_keys str_leb (d_domains d)) ;;
  members <-? collect resolve_member (d_members d) ;;
  zones <-? collect resolve_zone (d_zones d) ;;
  workloads <-? collect (λ w, refuse_retired_workload_keys w ;;? resolve_workload w) (d_workload d) ;;
  forward_allow <-? collect resolve_forward (fd_allow (d_forward d)) ;;
  let pcp_ctrl := mk_pcp_ctrl (unwrap_or (d_marking d) marking_default) in
  let bfd_port := bd_port (unwrap_or (d_bfd d) bfd_default) in
  refuse_if (6 <? pcp_ctrl) (BadPcpCtrl pcp_ctrl) ;;?
  refuse_if (bfd_port <? MIN_BFD_PORT) (BadBfdPort bfd_port) ;;?
  let fabric := fabric_of d domains members zones workloads forward_allow in
  validate fabric ;;?
  Ok fabric.

(** ** What a declaration that passes satisfies *)

(** One [[[workload]]] row. *)
Record valid_workload (f : Fabric) (wl : Workload) : Prop := {
  vw_not_zone : wl_name wl ∉ z_name <$> f_zones f;
  vw_leg : leg_collides f (leg_ifname wl) = false;
  vw_len : MIN_WORKLOAD_PREFIX_LEN ≤ len (wl_prefix wl);
  vw_gw : contains (wl_prefix wl) (wl_gw wl) = true;
  vw_gw_host : wl_gw wl ≠ net (wl_prefix wl) ∧ wl_gw wl ≠ broadcast (wl_prefix wl);
  vw_dhcp s : wl_dhcp_server wl = Some s →
    s ≠ wl_gw wl ∧ contains (wl_prefix wl) s = false ∧ s ≠ UNSPECIFIED ∧ s ≠ BROADCAST ∧
    ∀ m mw, m ∈ f_members f → mw ∈ m_workloads m → mw_name mw = wl_name wl → mw_address mw ≠ s;
  vw_blocks z : z ∈ f_zones f → ∃ b, zone_block z = Ok b ∧ overlaps (wl_prefix wl) b = false;
  vw_allow : wl_allow wl ≠ [] ∧ ∀ z, z ∈ wl_allow wl → z ∈ z_name <$> f_zones f;
  vw_forward : f_host_forward f = true;
  vw_carried : ∃ m, m ∈ f_members f ∧ wl_name wl ∈ mw_name <$> m_workloads m
}.

(** One row of a member's [workloads]. *)
Definition valid_address (f : Fabric) (m : Member) (mw : MemberWorkload) : Prop :=
  ∃ wl, workload f (mw_name mw) = Some wl ∧ m_kind m = Host ∧
    contains (wl_prefix wl) (mw_address mw) = true ∧ mw_len mw = len (wl_prefix wl) ∧
    mw_address mw ≠ wl_gw wl ∧ mw_address mw ≠ net (wl_prefix wl) ∧
    mw_address mw ≠ broadcast (wl_prefix wl).

(** The addresses the members hold in one workload. *)
Definition addresses_of (f : Fabric) (wl : Workload) : list Ipv4Addr :=
  omap (λ m, mw_address <$>
    List.find (λ w, String.eqb (mw_name w) (wl_name wl)) (m_workloads m)) (f_members f).

Record valid_member (f : Fabric) (m : Member) : Prop := {
  vm_wires : m_wires m ≠ [];
  vm_declared w : w ∈ m_wires m → wire_domain w ∈ f_domains f;
  vm_distinct : NoDup (wire_domain <$> m_wires m)
}.

Record valid_zone (f : Fabric) (z : Zone) : Prop := {
  vz_id : 1 ≤ z_id z;
  vz_primary : z_primary z ∈ f_domains f ∧ ∃ s, s ∈ f_segments f ∧ s_zone s = z_name z ∧
    s_scope s = OnDomain (z_primary z)
}.

Record valid_gw (f : Fabric) (z : Zone) (g : ZoneGw) : Prop := {
  vg_domain d : gw_scope g = OnDomain d → d ∈ f_domains f;
  vg_fits : gw_scope g = Universal → (String.length (gw_ifname (z_id z)) ≤ MAX_BOND_IFNAME)%nat;
  vg_vid s : s ∈ f_segments f → s_vid s ≠ gw_vid g;
  vg_router : ∃ o, router_octet g = Some o ∧ ∀ m, m ∈ f_members f → m_node m ≠ o
}.

Record valid_pref (f : Fabric) (p : WirePref) : Prop := {
  vp_zone : wp_zone p ∈ z_name <$> f_zones f;
  vp_once : NoDup (wp_order p);
  vp_complete : ∃ m, member f (wp_member p) = Ok m ∧
    ∀ n, n ∈ wp_order p ↔ n ∈ wire_name <$> candidate_wires f m (wp_zone p)
}.

(** The whole declaration. *)
Record valid (f : Fabric) : Prop := {
  v_domains : f_domains f ≠ [] ∧
    ∀ d, d ∈ f_domains f → ∃ m w, m ∈ f_members f ∧ w ∈ m_wires m ∧ wire_domain w = d;
  v_members : Forall (valid_member f) (f_members f);
  v_names : NoDup (m_name <$> f_members f);
  v_nodes : NoDup ((λ m, show (m_node m)) <$> f_members f);
  v_segments s : s ∈ f_segments f → s_zone s ∈ z_name <$> f_zones f ∧
    match s_scope s with
    | OnDomain d => d ∈ f_domains f
    | Universal => (String.length (s_ifname s) ≤ MAX_BOND_IFNAME)%nat
    end;
  v_vids : NoDup ((λ s, show (s_vid s)) <$> f_segments f);
  v_segs : NoDup (seg_key <$> f_segments f);
  v_scopes : NoDup (scope_key <$> f_segments f);
  v_ifnames : NoDup (s_ifname <$> f_segments f);
  v_zones : Forall (valid_zone f) (f_zones f);
  v_zone_ids : NoDup ((λ z, show (z_id z)) <$> f_zones f);
  v_gws z g : z ∈ f_zones f → z_gw z = Some g → valid_gw f z g;
  v_prefs : Forall (valid_pref f) (f_wire_prefs f);
  v_forward a b : (a, b) ∈ f_forward_allow f →
    a ∈ z_name <$> f_zones f ∧ b ∈ z_name <$> f_zones f;
  v_workloads : Forall (valid_workload f) (f_workloads f);
  v_wl_names : NoDup (wl_name <$> f_workloads f);
  v_wl_legs : NoDup (leg_ifname <$> f_workloads f);
  v_wl_vlans : NoDup ((λ w, (wl_uplink w, wl_vid w)) <$> f_workloads f);
  v_addresses m : m ∈ f_members f → NoDup (mw_name <$> m_workloads m) ∧
    Forall (valid_address f m) (m_workloads m);
  v_distinct wl : wl ∈ f_workloads f → NoDup (addresses_of f wl);
  v_derived : validate_derived f = Ok tt
}.

(** ** The pieces *)

Lemma seq_ok {E} (a b : result E unit) : (a ;;? b) = Ok tt ↔ a = Ok tt ∧ b = Ok tt.
Proof. destruct a as [[]|e]; split; [done|by intros [_ ->]|done|by intros []]. Qed.

Lemma refuse_ok {E} c (e : E) : refuse_if c e = Ok tt ↔ c = false.
Proof. apply refuse_if_ok. Qed.

Lemma dup_from_None seen l : dup_from seen l = None ↔ NoDup l ∧ ∀ x, x ∈ l → x ∉ seen.
Proof.
  revert seen. induction l as [|x l IH]; intros seen; cbn.
  { split; [|done]. intros _. split; [constructor|set_solver]. }
  rewrite list.NoDup_cons. case_bool_decide as Hx; [split; [done|]|].
  { intros [_ H]. destruct (H x); [left|done]. }
  rewrite IH. split.
  - intros [H1 H2]. split_and!; [|done|]; [set_solver|].
    intros y [->|Hy]%elem_of_cons; [done|]. set_solver.
  - intros [[H1 H2] H3]. split; [done|]. set_solver.
Qed.

Lemma refuse_dup_ok e l : refuse_dup e l = Ok tt ↔ NoDup l.
Proof.
  unfold refuse_dup, dup. destruct (dup_from ∅ l) as [d|] eqn:E.
  - split; [done|]. intros H. enough (dup_from ∅ l = None) by congruence.
    apply dup_from_None. split; [done|set_solver].
  - apply dup_from_None in E as [H _]. by split.
Qed.

Lemma zone_ok_iff f z : is_ok (zone f z) = true ↔ z ∈ z_name <$> f_zones f.
Proof.
  unfold zone. rewrite list_elem_of_fmap. destruct (List.find _ _) as [y|] eqn:E; cbn.
  - apply find_Some_elem in E as [Hy Ey%String.eqb_eq]. split; [|done]. intros _. by exists y.
  - rewrite find_None_iff in E. split; [done|]. intros (y & -> & Hy). specialize (E y Hy).
    cbn in E. by rewrite String.eqb_refl in E.
Qed.

Lemma zone_known_ok f z : zone_known f z = Ok tt ↔ z ∈ z_name <$> f_zones f.
Proof. rewrite <-zone_ok_iff. unfold zone_known. by destruct (zone f z). Qed.

Lemma declared_true f d : declared f d = true ↔ d ∈ f_domains f.
Proof. unfold declared. by rewrite bool_decide_eq_true. Qed.

Lemma segment_on_true f z d :
  segment_on f z d = true ↔ ∃ s, s ∈ f_segments f ∧ s_zone s = z ∧ s_scope s = OnDomain d.
Proof.
  unfold segment_on. rewrite any_true.
  setoid_rewrite andb_true_iff. setoid_rewrite String.eqb_eq. by setoid_rewrite bool_decide_eq_true.
Qed.

Lemma wires_distinct_ok m seen l :
  wires_distinct m seen l = Ok tt ↔
    NoDup (wire_domain <$> l) ∧ ∀ d, d ∈ wire_domain <$> l → d ∉ seen.
Proof.
  revert seen. induction l as [|w l IH]; intros seen; cbn -[refuse_if].
  { split; [|done]. intros _. split; [constructor|set_solver]. }
  rewrite seq_ok, refuse_ok, IH, list.NoDup_cons, bool_decide_eq_false. split.
  - intros (Hw & H1 & H2). split_and!; [set_solver|done|]. set_solver.
  - intros ((H1 & H2) & H3). split_and!; [set_solver|done|]. set_solver.
Qed.

Lemma check_member_wires_ok f m : check_member_wires f m = Ok tt ↔ valid_member f m.
Proof.
  unfold check_member_wires. rewrite !seq_ok, refuse_ok, for_each_ok, list.Forall_forall,
    wires_distinct_ok, bool_decide_eq_false.
  setoid_rewrite refuse_ok. setoid_rewrite negb_false_iff. setoid_rewrite declared_true.
  split; [intros (? & ? & ? & _); by split|]. intros [? ? ?]. split_and!; try done; set_solver.
Qed.

Lemma wire_on_some m d : is_Some (wire_on m d) ↔ ∃ w, w ∈ m_wires m ∧ wire_domain w = d.
Proof.
  unfold wire_on. destruct (List.find _ _) as [w|] eqn:E.
  - apply find_Some_elem in E as [Hw Ew%String.eqb_eq]. split; [by exists w|by eexists].
  - rewrite find_None_iff in E. split; [by intros []|]. intros (w & Hw & <-).
    specialize (E w Hw). cbn in E. by rewrite String.eqb_refl in E.
Qed.

Lemma check_domains_ok f :
  check_domains f = Ok tt ↔
    (f_domains f ≠ [] ∧
     ∀ d, d ∈ f_domains f → ∃ m w, m ∈ f_members f ∧ w ∈ m_wires m ∧ wire_domain w = d) ∧
    Forall (valid_member f) (f_members f) ∧
    (∀ s d, s ∈ f_segments f → s_scope s = OnDomain d → d ∈ f_domains f) ∧
    (∀ z, z ∈ f_zones f → z_primary z ∈ f_domains f ∧
      ∀ g d, z_gw z = Some g → gw_scope g = OnDomain d → d ∈ f_domains f).
Proof.
  unfold check_domains.
  rewrite !seq_ok, refuse_ok, !for_each_ok, bool_decide_eq_false, !list.Forall_forall.
  setoid_rewrite check_member_wires_ok.
  assert (Hs : ∀ s, check_segment_domain f s = Ok tt ↔ ∀ d, s_scope s = OnDomain d → d ∈ f_domains f).
  { intros s. unfold check_segment_domain. destruct (s_scope s) as [d|]; cbn [scope_domain]; [|by split].
    rewrite refuse_ok, negb_false_iff, declared_true. split; [by intros ? ? [= <-]|by intros H; apply H]. }
  assert (Hz : ∀ z, check_zone_domains f z = Ok tt ↔ z_primary z ∈ f_domains f ∧
      ∀ g d, z_gw z = Some g → gw_scope g = OnDomain d → d ∈ f_domains f).
  { intros z. unfold check_zone_domains. rewrite seq_ok, refuse_ok, negb_false_iff, declared_true.
    f_equiv. destruct (z_gw z) as [g|]; cbn [mbind option_bind]; [|by split].
    destruct (gw_scope g) as [d|] eqn:Es; cbn [scope_domain].
    - rewrite refuse_ok, negb_false_iff, declared_true.
      split; [intros ? ? ? [= <-]; congruence|intros H; by apply (H g)].
    - split; [|done]. intros _ ? ? [= <-]. congruence. }
  setoid_rewrite Hs. setoid_rewrite Hz. setoid_rewrite refuse_ok.
  setoid_rewrite negb_false_iff. setoid_rewrite any_true.
  setoid_rewrite bool_decide_eq_true. setoid_rewrite wire_on_some. naive_solver.
Qed.

Lemma check_segments_ok f :
  check_segments f = Ok tt ↔
    NoDup ((λ s, show (s_vid s)) <$> f_segments f) ∧ NoDup (seg_key <$> f_segments f) ∧
    NoDup (scope_key <$> f_segments f) ∧ NoDup (s_ifname <$> f_segments f) ∧
    (∀ s, s ∈ f_segments f → s_zone s ∈ z_name <$> f_zones f) ∧
    (∀ s, s ∈ f_segments f → s_scope s = Universal →
      (String.length (s_ifname s) ≤ MAX_BOND_IFNAME)%nat).
Proof.
  unfold check_segments.
  rewrite !seq_ok, !for_each_ok, !list.Forall_forall, !refuse_dup_ok.
  setoid_rewrite zone_known_ok. setoid_rewrite refuse_ok. setoid_rewrite list_elem_of_filter.
  assert (Hl : ∀ s, bond_ifname_too_long (s_ifname s) = false ↔
    (String.length (s_ifname s) ≤ MAX_BOND_IFNAME)%nat).
  { intros s. unfold bond_ifname_too_long. apply Nat.ltb_ge. }
  setoid_rewrite Hl. do 5 f_equiv.
  assert (Hu : ∀ s, is_universal (s_scope s) ↔ s_scope s = Universal) by (intros s; by destruct (s_scope s)).
  setoid_rewrite Hu. naive_solver.
Qed.

Lemma check_zones_ok f :
  check_zones f = Ok tt ↔ NoDup ((λ z, show (z_id z)) <$> f_zones f) ∧
    ∀ z, z ∈ f_zones f → 1 ≤ z_id z ∧
      ∃ s, s ∈ f_segments f ∧ s_zone s = z_name z ∧ s_scope s = OnDomain (z_primary z).
Proof.
  unfold check_zones, check_zone. rewrite seq_ok, for_each_ok, list.Forall_forall, refuse_dup_ok.
  setoid_rewrite seq_ok. setoid_rewrite refuse_ok. setoid_rewrite negb_false_iff.
  setoid_rewrite segment_on_true. by setoid_rewrite Z.ltb_ge.
Qed.

Lemma check_members_ok f :
  check_members f = Ok tt ↔
    NoDup (m_name <$> f_members f) ∧ NoDup ((λ m, show (m_node m)) <$> f_members f).
Proof. unfold check_members. by rewrite seq_ok, !refuse_dup_ok. Qed.

Lemma context_ok w r : context w r = Ok tt ↔ r = Ok tt.
Proof. destruct r as [[]|e]; [done|]. by split. Qed.

Lemma size_NoDup (l : list string) :
  (size (list_to_set l : gset string) =? length l)%nat = true ↔ NoDup l.
Proof.
  rewrite Nat.eqb_eq. split.
  - induction l as [|x l IH]; [constructor|]. cbn [length list_to_set]. intros E.
    destruct (decide (x ∈ l)) as [Hx|Hx].
    + pose proof (size_list_to_set_le l). assert (({[x]} ∪ list_to_set l : gset string) = list_to_set l)
        as Ex by set_solver. cbn in E. rewrite Ex in E. lia.
    + cbn in E. rewrite size_union, size_singleton in E by set_solver. constructor; [done|].
      apply IH. lia.
  - apply size_list_to_set.
Qed.

Lemma wire_named_None m n : wire_named m n = None ↔ n ∉ wire_name <$> m_wires m.
Proof.
  unfold wire_named. rewrite find_None_iff, list_elem_of_fmap. split.
  - intros H (w & -> & Hw). specialize (H w Hw). cbn in H. by rewrite String.eqb_refl in H.
  - intros H w Hw. apply String.eqb_neq. intros <-. apply H. by exists w.
Qed.

Lemma check_wire_pref_ok f p : check_wire_pref f p = Ok tt ↔ valid_pref f p.
Proof.
  unfold check_wire_pref. destruct (member f (wp_member p)) as [m|e] eqn:Em.
  2:{ split; [done|]. intros [_ _ (m & E & _)]. congruence. }
  rewrite !seq_ok, context_ok, zone_known_ok, for_each_ok, list.Forall_forall, !refuse_ok,
    !negb_false_iff, size_NoDup, bool_decide_eq_true.
  setoid_rewrite refuse_ok. setoid_rewrite bool_decide_eq_false. setoid_rewrite wire_named_None.
  split.
  - intros (Hz & _ & Hn & E). split; [done..|]. exists m. split; [done|]. intros n.
    rewrite <-(elem_of_list_to_set (C:=gset string) n (wp_order p)), E. apply elem_of_list_to_set.
  - intros [Hz Hn (m' & E & Hc)]. assert (m' = m) as -> by congruence. split_and!; [done| |done|].
    + intros n Hn' Hnot. apply Hnot. apply Hc, list_elem_of_fmap in Hn' as (w & -> & Hw).
      apply list_elem_of_filter in Hw as [_ Hw]. apply list_elem_of_fmap. by exists w.
    + apply set_eq. intros n. rewrite !elem_of_list_to_set. apply Hc.
Qed.

Lemma all_negb {A} (q : A → bool) l : all (λ x, negb (q x)) l = negb (any q l).
Proof. unfold all, any. induction l as [|x l IH]; cbn; [done|]. by rewrite IH, negb_orb. Qed.

Lemma check_forward_ok f :
  check_forward_allow f = Ok tt ↔ ∀ a b, (a, b) ∈ f_forward_allow f →
    a ∈ z_name <$> f_zones f ∧ b ∈ z_name <$> f_zones f.
Proof.
  unfold check_forward_allow. rewrite for_each_ok, list.Forall_forall.
  assert (Hz : ∀ ft z, refuse_if (all (λ zz, negb (String.eqb (z_name zz) z)) (f_zones f))
      (ForwardUnknownZone ft.1 ft.2 z) = Ok tt ↔ z ∈ z_name <$> f_zones f).
  { intros ft z. rewrite refuse_ok, all_negb, negb_false_iff, any_true, list_elem_of_fmap.
    setoid_rewrite String.eqb_eq. naive_solver. }
  cbn [for_each]. setoid_rewrite seq_ok. setoid_rewrite seq_ok. setoid_rewrite Hz. split.
  - intros H a b Hab. by destruct (H (a, b) Hab) as (? & ? & _).
  - intros H [a b] Hab. by destruct (H a b Hab).
Qed.

(** *** Workloads *)

Lemma carries_true m n : carries m n = true ↔ n ∈ mw_name <$> m_workloads m.
Proof.
  unfold carries. rewrite any_true, list_elem_of_fmap. setoid_rewrite String.eqb_eq. naive_solver.
Qed.

Lemma check_dhcp_server_ok f wl :
  check_dhcp_server f wl = Ok tt ↔ ∀ s, wl_dhcp_server wl = Some s →
    s ≠ wl_gw wl ∧ contains (wl_prefix wl) s = false ∧ s ≠ UNSPECIFIED ∧ s ≠ BROADCAST ∧
    ∀ m mw, m ∈ f_members f → mw ∈ m_workloads m → mw_name mw = wl_name wl → mw_address mw ≠ s.
Proof.
  unfold check_dhcp_server. destruct (wl_dhcp_server wl) as [s|]; [|by split].
  set (q := λ m, any _ (m_workloads m)).
  assert (Hq : (match List.find q (f_members f) with
      | Some m => Err (DhcpIsMember (wl_name wl) s (m_name m)) | None => Ok tt end) = Ok tt ↔
    ∀ m mw, m ∈ f_members f → mw ∈ m_workloads m → mw_name mw = wl_name wl → mw_address mw ≠ s).
  { transitivity (List.find q (f_members f) = None); [by destruct (List.find _ _)|].
    rewrite find_None_iff. unfold q. setoid_rewrite any_false.
    setoid_rewrite andb_false_iff. setoid_rewrite String.eqb_neq. setoid_rewrite Z.eqb_neq.
    split.
    - intros H m mw Hm Hw En. by destruct (H m Hm mw Hw).
    - intros H m Hm mw Hw. destruct (decide (mw_name mw = wl_name wl)); [right|by left]. eauto. }
  rewrite !seq_ok, Hq, !refuse_ok, orb_false_iff. unfold is_unspecified. rewrite !Z.eqb_neq.
  split; [intros (? & ? & ? & ? & ?) ? [= <-]; done|].
  intros H. destruct (H s eq_refl) as (? & ? & ? & ? & ?). by split_and!.
Qed.

Lemma check_blocks_ok f wl :
  for_each (λ z, b <-? zone_block z ;;
                 refuse_if (overlaps (wl_prefix wl) b)
                   (WlOverlapsZone (wl_name wl) (wl_prefix wl) (z_name z) b)) (f_zones f) = Ok tt ↔
  ∀ z, z ∈ f_zones f → ∃ b, zone_block z = Ok b ∧ overlaps (wl_prefix wl) b = false.
Proof.
  rewrite for_each_ok, list.Forall_forall. split; intros H z Hz; specialize (H z Hz).
  - destruct (zone_block z) as [b|]; [|done]. apply refuse_ok in H. by exists b.
  - destruct H as (b & -> & ->). done.
Qed.

Lemma check_workload_ok f wl :
  (is_ok (zone f (wl_name wl)) = false ∧ leg_collides f (leg_ifname wl) = false ∧
   check_workload f wl = Ok tt) ↔ valid_workload f wl.
Proof.
  unfold check_workload.
  rewrite !seq_ok, check_dhcp_server_ok, check_blocks_ok, !refuse_ok, for_each_ok,
    list.Forall_forall, orb_false_iff, !negb_false_iff, any_true, Z.ltb_ge, !Z.eqb_neq,
    bool_decide_eq_false.
  setoid_rewrite refuse_ok. setoid_rewrite negb_false_iff. setoid_rewrite zone_ok_iff.
  setoid_rewrite carries_true. rewrite <-not_true_iff_false, zone_ok_iff.
  split; [|intros [? ? ? ? [? ?] ? ? [? ?] ? ?]; by split_and!].
  intros (? & ? & ? & ? & [? ?] & ? & ? & ? & ? & ? & ?). by split.
Qed.

Lemma check_workloads_from_ok f seen legs vlans l :
  check_workloads_from f seen legs vlans l = Ok tt ↔
    Forall (valid_workload f) l ∧
    (NoDup (wl_name <$> l) ∧ ∀ n, n ∈ wl_name <$> l → n ∉ seen) ∧
    (NoDup (leg_ifname <$> l) ∧ ∀ n, n ∈ leg_ifname <$> l → legs !! n = None) ∧
    (NoDup ((λ w, (wl_uplink w, wl_vid w)) <$> l) ∧
     ∀ n, n ∈ (λ w, (wl_uplink w, wl_vid w)) <$> l → vlans !! n = None).
Proof.
  revert seen legs vlans. induction l as [|wl l IH]; intros seen legs vlans;
    cbn -[refuse_if check_workload leg_ifname].
  { split; [|done]. intros _. split_and!; try constructor; set_solver. }
  assert (Hm : ∀ {B} (o : option B) (e : B → Refusal),
    (match o with Some x => Err (e x) | None => Ok tt end) = Ok tt ↔ o = None).
  { intros B [x|] e; split; done. }
  rewrite !seq_ok, !Hm, !refuse_ok, IH, list.Forall_cons, <-check_workload_ok, bool_decide_eq_false,
    !list.NoDup_cons. clear IH. split.
  - intros (Hz & Hs & Hl & Hv & Hc & Hw & HF & (H1 & H2) & (H3 & H4) & (H5 & H6)).
    split_and!; try done.
    + intros Hin. specialize (H2 _ Hin). set_solver.
    + intros n [->|Hn]%elem_of_cons; [done|]. specialize (H2 _ Hn). set_solver.
    + intros Hin. specialize (H4 _ Hin). by rewrite lookup_insert_eq in H4.
    + intros n [->|Hn]%elem_of_cons; [done|]. specialize (H4 _ Hn).
      by apply lookup_insert_None in H4 as [? _].
    + intros Hin. specialize (H6 _ Hin). by rewrite lookup_insert_eq in H6.
    + intros n [->|Hn]%elem_of_cons; [done|]. specialize (H6 _ Hn).
      by apply lookup_insert_None in H6 as [? _].
  - intros (((Hz & Hc & Hw) & HF) & ((N1 & H1) & H2) & ((N3 & H3) & H4) & ((N5 & H5) & H6)).
    split_and!; try done; [apply H2; left|apply H4; left|apply H6; left| | |].
    + intros n Hn. assert (n ∉ seen) by (apply H2; by right). set_solver.
    + intros n Hn. apply lookup_insert_None. split; [apply H4; by right|by intros <-].
    + intros n Hn. apply lookup_insert_None. split; [apply H6; by right|by intros <-].
Qed.

Lemma check_member_workloads_from_ok f m seen l :
  check_member_workloads_from f m seen l = Ok tt ↔
    (NoDup (mw_name <$> l) ∧ ∀ n, n ∈ mw_name <$> l → n ∉ seen) ∧ Forall (valid_address f m) l.
Proof.
  revert seen. induction l as [|mw l IH]; intros seen; cbn -[refuse_if].
  { split; [|done]. intros _. split; [|constructor]. split; [constructor|set_solver]. }
  rewrite !seq_ok, !refuse_ok, IH, list.Forall_cons, list.NoDup_cons, bool_decide_eq_false.
  match goal with |- context [?X = Ok tt ∧ _] =>
    assert (Hmw : X = Ok tt ↔ valid_address f m mw) end.
  { unfold valid_address. destruct (workload f (mw_name mw)) as [wl|].
    2:{ split; [done|]. by intros (? & ? & _). }
    rewrite !seq_ok, !refuse_ok, orb_false_iff, !negb_false_iff, bool_decide_eq_false, !Z.eqb_neq,
      Z.eqb_eq.
    split.
    - intros (Hk & ? & ? & ? & ? & ?). exists wl. split_and!; try done. by destruct (m_kind m).
    - intros (wl' & [= <-] & Hk & ? & ? & ? & ? & ?). split_and!; try done. by rewrite Hk. }
  rewrite Hmw. split.
  - intros (Hs & Hv & (H1 & H2) & HF). split_and!; try done.
    + intros Hin. specialize (H2 _ Hin). set_solver.
    + intros n [->|Hn]%elem_of_cons; [done|]. specialize (H2 _ Hn). set_solver.
  - intros (((N1 & H1) & H2) & Hv & HF). split_and!; try done; [apply H2; left|].
    intros n Hn. assert (n ∉ seen) by (apply H2; by right). set_solver.
Qed.

Lemma addresses_distinct_ok wl seen l :
  addresses_distinct wl seen l = Ok tt ↔
    let addrs := omap (λ m, mw_address <$>
      List.find (λ w, String.eqb (mw_name w) (wl_name wl)) (m_workloads m)) l in
    NoDup addrs ∧ ∀ a, a ∈ addrs → seen !! a = None.
Proof.
  cbv zeta. revert seen. induction l as [|m l IH]; intros seen; cbn.
  { split; [|done]. intros _. split; [constructor|set_solver]. }
  destruct (List.find _ _) as [mw|]; cbn; [|apply IH]. rewrite list.NoDup_cons.
  destruct (seen !! mw_address mw) as [prev|] eqn:E.
  { split; [done|]. intros [_ H]. specialize (H (mw_address mw) (list_elem_of_here _ _)). congruence. }
  rewrite IH. split.
  - intros [H1 H2]. split_and!; [|done|].
    + intros Hin. specialize (H2 _ Hin). by rewrite lookup_insert_eq in H2.
    + intros a [->|Ha]%elem_of_cons; [done|]. specialize (H2 _ Ha).
      by apply lookup_insert_None in H2 as [? _].
  - intros [[H1 H2] H3]. split; [done|]. intros a Ha. apply lookup_insert_None.
    split; [apply H3; by right|by intros <-].
Qed.

Lemma check_gw_ok f z :
  check_gw f z = Ok tt ↔ ∀ g, z_gw z = Some g →
    (gw_scope g = Universal → (String.length (gw_ifname (z_id z)) ≤ MAX_BOND_IFNAME)%nat) ∧
    (∀ s, s ∈ f_segments f → s_vid s ≠ gw_vid g) ∧
    ∃ o, router_octet g = Some o ∧ ∀ m, m ∈ f_members f → m_node m ≠ o.
Proof.
  unfold check_gw. destruct (z_gw z) as [g|]; [|by split].
  rewrite !seq_ok, !refuse_ok, any_false, andb_false_iff. setoid_rewrite Z.eqb_neq.
  unfold bond_ifname_too_long. rewrite Nat.ltb_ge.
  assert (Hr : (match router_octet g with
      | None => Err (Panics "gw router is not an IPv4 address")
      | Some octet => for_each (λ m, refuse_if (m_node m =? octet)
          (GwNodeCollides (z_name z) (gw_router g) (m_node m) (m_name m))) (f_members f)
      end) = Ok tt ↔ ∃ o, router_octet g = Some o ∧ ∀ m, m ∈ f_members f → m_node m ≠ o).
  { destruct (router_octet g) as [o|]; [|split; [done|by intros (? & ? & _)]].
    rewrite for_each_ok, list.Forall_forall. setoid_rewrite refuse_ok. setoid_rewrite Z.eqb_neq.
    split; [intros H; by exists o|by intros (? & [= <-] & H)]. }
  rewrite Hr. split.
  - intros (Hu & Hv & Hrr) ? [= <-]. split_and!; try done. intros Eg. rewrite Eg in Hu. by destruct Hu.
  - intros H. destruct (H g eq_refl) as (Hu & Hv & Hrr). split_and!; try done.
    destruct (gw_scope g); [by left|right; auto].
Qed.

Lemma gate_iff (f : Fabric) : validate f = Ok tt ↔ valid f.
Proof.
  unfold validate, check_wire_prefs, check_workloads, check_member_workloads, check_addresses.
  rewrite !seq_ok, check_domains_ok, check_segments_ok, check_zones_ok, check_members_ok,
    check_forward_ok, check_workloads_from_ok, !for_each_ok, !list.Forall_forall.
  setoid_rewrite check_wire_pref_ok. setoid_rewrite check_member_workloads_from_ok.
  setoid_rewrite addresses_distinct_ok. setoid_rewrite check_gw_ok. split.
  - intros (([? ?] & ? & Hsd & Hzd) & (? & ? & ? & ? & Hsz & Hsu) & (? & Hzs) & [? ?] & ? & ? &
      (? & [? _] & [? _] & [? _]) & Hmw & Hadr & Hgw & ?).
    split; try done; try (by apply list.Forall_forall).
    + intros s Hs. split; [by apply Hsz|]. destruct (s_scope s) eqn:E; [by eapply Hsd|by apply Hsu].
    + apply list.Forall_forall. intros z Hz. destruct (Hzs z Hz), (Hzd z Hz). by split.
    + intros z g Hz Eg. destruct (Hgw z Hz g Eg) as (? & ? & ?), (Hzd z Hz) as [_ Hd].
      split; try done. intros d. by apply Hd.
    + intros m Hm. destruct (Hmw m Hm) as [[? _] ?]. done.
    + intros wl Hwl. by destruct (Hadr wl Hwl).
  - intros [[? ?] Hms ? ? Hs ? ? ? ? Hzs ? Hgw Hp Hf Hw ? ? ? Hm Hd ?].
    rewrite list.Forall_forall in Hms. rewrite list.Forall_forall in Hzs.
    rewrite list.Forall_forall in Hp. split_and!; try done.
    + intros s d Hin E. destruct (Hs s Hin) as [_ H']. by rewrite E in H'.
    + intros z Hz. destruct (Hzs z Hz) as [? [? ?]]. split; [done|]. intros g d Eg.
      by apply (vg_domain _ _ _ (Hgw z g Hz Eg)).
    + intros s Hin. by destruct (Hs s Hin).
    + intros s Hin E. destruct (Hs s Hin) as [_ H']. by rewrite E in H'.
    + intros z Hz. destruct (Hzs z Hz) as [? [? ?]]. done.
    + by rewrite list.Forall_forall in Hw.
    + intros m Hin. destruct (Hm m Hin). split_and!; [done|set_solver|done].
    + intros wl Hwl. split; [by apply Hd|]. intros a _. apply lookup_empty.
    + intros z Hz g Eg. by destruct (Hgw z g Hz Eg).
Qed.

(** C10. The declaration gate accepts exactly the declarations that satisfy the written rules:
    every rule the documentation of [fabric.toml] states is checked, and nothing else is
    refused. *)
Theorem validate_iff (f : Fabric) : validate f = Ok tt ↔ valid f.
Proof. apply gate_iff. Qed.

(** ** A valid fabric derives *)

Lemma member_lookup f m :
  NoDup (m_name <$> f_members f) → m ∈ f_members f → member f (m_name m) = Ok m.
Proof.
  intros Hnd Hm. unfold member. destruct (List.find _ _) as [m'|] eqn:E.
  - apply find_Some_elem in E as [Hm' En%String.eqb_eq]. f_equal.
    apply list_elem_of_lookup in Hm as [i Hi], Hm' as [j Hj].
    assert (i = j) as ->; [|congruence]. eapply (list.NoDup_lookup _ _ _ (m_name m) Hnd).
    + by rewrite list_lookup_fmap, Hi.
    + rewrite list_lookup_fmap, Hj. cbn. congruence.
  - rewrite find_None_iff in E. specialize (E m Hm). cbn in E. by rewrite String.eqb_refl in E.
Qed.

(** The checks that precede the derived ones are what derivation needs. *)
Lemma checks_derivable f m :
  Forall (valid_member f) (f_members f) → NoDup (m_name <$> f_members f) →
  (∀ s, s ∈ f_segments f → s_zone s ∈ z_name <$> f_zones f) →
  Forall (valid_pref f) (f_wire_prefs f) → m ∈ f_members f → derivable f m.
Proof.
  intros Hv Hn Hs Hp Hm. rewrite list.Forall_forall in Hv. rewrite list.Forall_forall in Hp.
  split; [done|apply (Hv m Hm)|]. intros p z E n. unfold wire_pref in E.
  apply find_Some_elem in E as [Hin E]. apply andb_true_iff in E as [E1%String.eqb_eq E2%String.eqb_eq].
  destruct (vp_complete _ _ (Hp p Hin)) as (m' & Em & Hc).
  rewrite E1, (member_lookup f m Hn Hm) in Em. injection Em as <-. by rewrite <-E2.
Qed.

Lemma valid_derivable f m : valid f → m ∈ f_members f → derivable f m.
Proof.
  intros Hv Hm. apply checks_derivable; try done; by apply Hv.
Qed.

Lemma view_derives (f : Fabric) (m : Member) (z : string) :
  validate f = Ok tt → m ∈ f_members f →
  let v := {| v_fabric := f; v_member := m |} in
  view_new f (m_name m) = Ok v ∧ is_ok (class_rows v) = true ∧ is_ok (fallback_rows v) = true ∧
  is_ok (gw_rows v) = true ∧ is_ok (owned_forwarding v) = true ∧ is_ok (zone_ifs v z) = true ∧
  is_ok (wires v) = true ∧ is_ok (universal_cost f z) = true ∧ is_ok (edges_of f z) = true.
Proof.
  intros Hv%gate_iff Hm v. pose proof (λ m, valid_derivable f m Hv) as Hall.
  destruct (class_rows_ok f m (Hall m Hm)) as (rows & Er & _).
  destruct (fallback_rows_total f Hall m (Hall m Hm)) as [fb Ef].
  destruct (gw_rows_total f Hall m (Hall m Hm)) as [gs Eg].
  destruct (owned_list_total f Hall v eq_refl (Hall m Hm)) as [l El].
  destruct (universal_cost_total f Hall z) as [c Ec].
  destruct (edges_of_total f Hall z) as [g Ed].
  unfold view_new. rewrite (member_lookup f m (v_names _ Hv) Hm).
  unfold owned_forwarding, zone_ifs, wires, class_rows, fallback_rows, gw_rows.
  subst v. cbn [v_fabric v_member]. rewrite El, Er, Ef, Eg, Ec, Ed. done.
Qed.

(** C38. Every view of a fabric that passed the gate derives: none of the [panic!]s and
    [expect]s of derive.rs is reachable, whichever member and zone is asked about. *)
Theorem valid_fabric_derives (f : Fabric) (m : Member) (z : string) :
  validate f = Ok tt → m ∈ f_members f →
  let v := {| v_fabric := f; v_member := m |} in
  view_new f (m_name m) = Ok v ∧ is_ok (class_rows v) = true ∧ is_ok (fallback_rows v) = true ∧
  is_ok (gw_rows v) = true ∧ is_ok (owned_forwarding v) = true ∧ is_ok (zone_ifs v z) = true ∧
  is_ok (wires v) = true ∧ is_ok (universal_cost f z) = true ∧ is_ok (edges_of f z) = true.
Proof. apply view_derives. Qed.

(** ** Workload addresses *)

(** The [/16] of a zone, for the ids a [u8] holds. *)
Definition block_prefix (z : Zone) : Ipv4Prefix := mk_prefix (addr_new 10 (z_id z) 0 0) 16.

Lemma zone_block_ok z : 0 ≤ z_id z ≤ u8_max → zone_block z = Ok (block_prefix z).
Proof.
  intros Hz. unfold zone_block, block_prefix, block_of.
  assert (Forall (λ n, prefix_parse (("10." ++ show (Z.of_nat n)) ++ ".0.0/16")%string
    = Ok (mk_prefix (addr_new 10 (Z.of_nat n) 0 0) 16)) (seq 0 256)) as H.
  { apply list.Forall_forall. intros n Hn%elem_of_seq. do 256 (destruct n as [|n]; [done|]). lia. }
  rewrite list.Forall_forall in H. unfold u8_max in Hz.
  specialize (H (Z.to_nat (z_id z))). rewrite !Z2Nat.id in H by lia.
  rewrite H; [done|]. apply elem_of_seq. lia.
Qed.

Lemma block_prefix_ok z : 0 ≤ z_id z ≤ u8_max → prefix_ok (block_prefix z).
Proof. intros H%zone_block_ok. unfold zone_block in H. destruct (prefix_parse _) eqn:E; [|done].
  injection H as <-. by eapply prefix_parse_ok. Qed.

(** The address plan of the workloads: on a fabric that passed the gate a workload's
    prefix shares no address with any zone's [10.<id>.0.0/16]; its gateway, its DHCP server and
    its members' addresses are pairwise distinct, and the members' are host addresses of the
    prefix. *)
Theorem workload_addresses_apart (f : Fabric) (wl : Workload) :
  validate f = Ok tt → wl ∈ f_workloads f → prefix_ok (wl_prefix wl) →
  (∀ z a, z ∈ f_zones f → z_id z ≤ u8_max → addr_ok a →
    contains (wl_prefix wl) a = true → contains (block_prefix z) a = true → False) ∧
  NoDup (addresses_of f wl) ∧ (wl_gw wl ∉ addresses_of f wl) ∧
  (∀ s, wl_dhcp_server wl = Some s → s ≠ wl_gw wl ∧ (s ∉ addresses_of f wl)) ∧
  (∀ a, a ∈ addresses_of f wl → addr_ok a → net (wl_prefix wl) < a < broadcast (wl_prefix wl)).
Proof.
  intros Hv%gate_iff Hwl Hp. pose proof (v_workloads _ Hv) as Hw.
  rewrite list.Forall_forall in Hw. specialize (Hw wl Hwl).
  assert (Hvalid : ∀ a, a ∈ addresses_of f wl → ∃ m mw, m ∈ f_members f ∧ mw ∈ m_workloads m ∧
    mw_name mw = wl_name wl ∧ mw_address mw = a ∧ contains (wl_prefix wl) a = true ∧ a ≠ wl_gw wl ∧
    a ≠ net (wl_prefix wl) ∧ a ≠ broadcast (wl_prefix wl)).
  { intros a (m & Hm & Ea)%list_elem_of_omap. apply fmap_Some in Ea as (mw & Ef & ->).
    apply find_Some_elem in Ef as [Hmw En%String.eqb_eq].
    destruct (v_addresses _ Hv m Hm) as [_ HF]. rewrite list.Forall_forall in HF.
    destruct (HF mw Hmw) as (wl' & El & _ & ? & _ & ? & ? & ?). unfold workload in El.
    assert (wl' = wl) as ->; [|by exists m, mw].
    apply find_Some_elem in El as [Hin' En'%String.eqb_eq].
    apply list_elem_of_lookup in Hwl as [i Hi], Hin' as [j Hj].
    assert (i = j) as ->; [|congruence].
    eapply (list.NoDup_lookup _ _ _ (wl_name wl) (v_wl_names _ Hv)).
    - by rewrite list_lookup_fmap, Hi.
    - rewrite list_lookup_fmap, Hj. cbn. congruence. }
  split_and!.
  - intros z a Hz Hid Ha C1 C2. destruct (vw_blocks _ _ Hw z Hz) as (b & Eb & Eo).
    pose proof (v_zones _ Hv) as Hzs. rewrite list.Forall_forall in Hzs.
    pose proof (vz_id _ _ (Hzs z Hz)). rewrite zone_block_ok in Eb by lia. injection Eb as <-.
    assert (overlaps (wl_prefix wl) (block_prefix z) = true); [|congruence].
    apply overlaps_iff; [done|apply block_prefix_ok; lia|by exists a].
  - by apply (v_distinct _ Hv).
  - intros Hin. by destruct (Hvalid _ Hin) as (? & ? & ? & ? & ? & ? & ? & ? & _).
  - intros s Es. destruct (vw_dhcp _ _ Hw s Es) as (? & _ & _ & _ & Hd). split; [done|].
    intros (m & mw & Hm & Hmw & En & Ea & _)%Hvalid. by apply (Hd m mw).
  - intros a Ha Hok. destruct (Hvalid a Ha) as (_ & _ & _ & _ & _ & _ & Hc & _ & ? & ?).
    apply contains_range in Hc; [|done..]. lia.
Qed.

(** ** The address plan of the fabric *)

(** [10.<zone id>.<seg>.<node>]: a segment's address, and with [seg = 0] the identity's. *)
Lemma segment_addr_inj v v' z z' seg seg' :
  0 ≤ z_id z → 0 ≤ z_id z' → 0 ≤ seg → 0 ≤ seg' →
  0 ≤ m_node (v_member v) → 0 ≤ m_node (v_member v') →
  segment_addr v z seg = segment_addr v' z' seg' →
  z_id z = z_id z' ∧ seg = seg' ∧ m_node (v_member v) = m_node (v_member v').
Proof.
  intros ?????? E. unfold segment_addr, block_of in E.
  assert (Hf : ∀ n, 0 ≤ n → free_of "." (show n) = true) by (intros; by apply digits_free_of, show_digits).
  change "10."%string with ("10" ++ ".")%string in E.
  rewrite !str_app_assoc, !str_app_char in E.
  apply join_inj in E as [_ E]; [|done..].
  apply join_inj in E as [E1 E]; [|by apply Hf..].
  apply join_inj in E as [E2 E3]; [|by apply Hf..].
  apply show_inj in E1, E2, E3; try done.
Qed.

Lemma identity_is_segment_zero v z : identity_addr v z = segment_addr v z 0.
Proof. done. Qed.

(** On a fabric that passed the gate no address is given out twice: two (zone, segment,
    member) triples that derive the same address are the same triple, and a member's identity
    in a zone, which is the address of segment number 0, is no segment's address as long as no
    segment is numbered 0. *)
Theorem addresses_unique (f : Fabric) (v v' : View) (z z' : Zone) (seg seg' : Z) :
  validate f = Ok tt →
  v_fabric v = f → v_fabric v' = f → v_member v ∈ f_members f → v_member v' ∈ f_members f →
  0 ≤ m_node (v_member v) → 0 ≤ m_node (v_member v') →
  z ∈ f_zones f → z' ∈ f_zones f → 0 ≤ seg → 0 ≤ seg' →
  (segment_addr v z seg = segment_addr v' z' seg' → v = v' ∧ z = z' ∧ seg = seg') ∧
  (identity_addr v z = segment_addr v' z' seg' → seg' = 0) ∧
  (identity_addr v z = identity_addr v' z' → v = v' ∧ z = z').
Proof.
  intros Hv%gate_iff Ev Ev' Hm Hm' Hn Hn' Hz Hz' Hs Hs'.
  pose proof (v_zones _ Hv) as Hzs. rewrite list.Forall_forall in Hzs.
  pose proof (vz_id _ _ (Hzs z Hz)). pose proof (vz_id _ _ (Hzs z' Hz')).
  assert (Hall : ∀ s s', 0 ≤ s → 0 ≤ s' → segment_addr v z s = segment_addr v' z' s' →
    v = v' ∧ z = z' ∧ s = s').
  { intros s s' ?? (Ez & -> & Em)%segment_addr_inj; [|lia..].
    assert (v_member v = v_member v') as E.
    { eapply (NoDup_fmap_inj_on (λ m, show (m_node m))); [apply (v_nodes _ Hv)|done..|by rewrite Em]. }
    split_and!; [|eapply (NoDup_fmap_inj_on (λ z, show (z_id z))); [apply (v_zone_ids _ Hv)|done..|by rewrite Ez]|done].
    destruct v, v'; cbn in *; congruence. }
  rewrite !identity_is_segment_zero. split_and!.
  - intros E. by apply Hall.
  - intros E. by destruct (Hall 0 seg' ltac:(lia) Hs' E) as (_ & _ & <-).
  - intros E. by destruct (Hall 0 0 ltac:(lia) ltac:(lia) E) as (-> & -> & _).
Qed.

(** ** Leg names *)

Lemma char_ends_bound i s e : e ∈ char_ends i s → (i < e ≤ i + String.length s)%nat.
Proof.
  revert i. induction s as [|c s IH]; intros i; cbn; [set_solver|].
  destruct s as [|c' s']; [intros ->%list_elem_of_singleton; cbn; lia|].
  destruct (is_cont c').
  - intros H%IH. cbn [String.length] in *. lia.
  - intros [->|H%IH]%elem_of_cons; cbn [String.length] in *; lia.
Qed.

Lemma char_ends_sorted i s : StronglySorted lt (char_ends i s).
Proof.
  revert i. induction s as [|c s IH]; intros i; cbn; [constructor|].
  destruct s as [|c' s']; [repeat constructor|]. destruct (is_cont c'); [apply IH|].
  constructor; [apply IH|]. apply list.Forall_forall. intros e H%char_ends_bound. lia.
Qed.

Lemma take_while_le n l e :
  StronglySorted lt l → e ∈ l → (e ≤ n)%nat → e ∈ take_while (λ x, (x <=? n)%nat) l.
Proof.
  induction 1 as [|x l _ IH Hx]; [set_solver|]. cbn. intros He Hle.
  destruct (Nat.leb_spec x n) as [Hl|Hl].
  - apply elem_of_cons in He as [->|He]; [left|right; auto].
  - apply elem_of_cons in He as [->|He]; [lia|]. rewrite list.Forall_forall in Hx.
    specialize (Hx e He). lia.
Qed.

Lemma take_while_elem {A} (q : A → bool) l e : e ∈ take_while q l → e ∈ l ∧ q e = true.
Proof.
  induction l as [|x l IH]; cbn; [set_solver|]. destruct (q x) eqn:E; [|set_solver].
  intros [->|H]%elem_of_cons; [split; [left|done]|]. destruct (IH H). split; [by right|done].
Qed.

Lemma take_while_sorted l q : StronglySorted lt l → StronglySorted lt (take_while q l).
Proof.
  induction 1 as [|x l Hl IH Hx]; cbn; [constructor|]. destruct (q x); [|constructor].
  constructor; [done|]. apply list.Forall_forall. intros e [He _]%take_while_elem.
  by rewrite list.Forall_forall in Hx; apply Hx.
Qed.

Lemma last_sorted_max l e m :
  StronglySorted lt l → list.last l = Some m → e ∈ l → (e ≤ m)%nat.
Proof.
  induction 1 as [|x l Hl IH Hx]; [done|]. destruct l as [|y l'].
  - intros [= <-] ->%list_elem_of_singleton. done.
  - intros E. rewrite list.last_cons_cons in E. intros [->|He]%elem_of_cons; [|by apply IH].
    rewrite list.Forall_forall in Hx. assert (m ∈ y :: l') as Hm.
    { apply list.last_Some_elem_of. done. }
    specialize (Hx m Hm). lia.
Qed.

(** A workload's leg fits the kernel: its name is at most [IFNAMSIZ - 1] bytes, carries as
    much of the workload's name as fits, and is cut between two characters, never inside one. *)
Theorem leg_ifname_fits (w : Workload) :
  (String.length (leg_ifname w) ≤ IFNAME_MAX)%nat ∧
  (leg_cut (wl_name w) = 0%nat ∨ leg_cut (wl_name w) ∈ char_ends 0 (wl_name w)) ∧
  (∀ e, e ∈ char_ends 0 (wl_name w) →
    (e ≤ IFNAME_MAX - String.length LEG_PREFIX)%nat → (e ≤ leg_cut (wl_name w))%nat) ∧
  leg_ifname w = (LEG_PREFIX ++ String.substring 0 (leg_cut (wl_name w)) (wl_name w))%string.
Proof.
  set (room := (IFNAME_MAX - String.length LEG_PREFIX)%nat).
  set (l := take_while (λ e, (e <=? room)%nat) (char_ends 0 (wl_name w))).
  assert (Hcut : leg_cut (wl_name w) = unwrap_or (list.last l) 0%nat) by done.
  assert (leg_cut (wl_name w) ≤ room ∧
    (leg_cut (wl_name w) = 0%nat ∨ leg_cut (wl_name w) ∈ char_ends 0 (wl_name w)))%nat as [Hr Hin].
  { rewrite Hcut. destruct (list.last l) as [m|] eqn:E; cbn; [|split; [lia|by left]].
    apply list.last_Some_elem_of, take_while_elem in E as [? E%Nat.leb_le]. auto. }
  split_and!; [|done| |done].
  - unfold leg_ifname. rewrite str_length_app. pose proof (substring_length (leg_cut (wl_name w)) (wl_name w)).
    subst room. unfold IFNAME_MAX, LEG_PREFIX in *. cbn in *. lia.
  - intros e He Hle. rewrite Hcut.
    assert (e ∈ l) as Hel by (apply take_while_le; [apply char_ends_sorted|done|done]).
    destruct (list.last l) as [m|] eqn:E; cbn.
    + eapply last_sorted_max; [|done|done]. apply take_while_sorted, char_ends_sorted.
    + apply list.last_None in E. rewrite E in Hel. set_solver.
Qed.

(** ** A declaration never panics the gate *)

(** Is the refusal a [panic!], under any wording? *)
Fixpoint panics (e : Refusal) : bool :=
  match e with Panics _ => true | Context _ e => panics e | _ => false end.
Definition no_panic {A} (r : result Refusal A) : Prop := ∀ e, r = Err e → panics e = false.

Lemma np_ok {A} (a : A) : no_panic (Ok a).
Proof. by intros e. Qed.
Lemma np_err {A} e : panics e = false → no_panic (Err (A:=A) e).
Proof. intros H e' [= <-]. done. Qed.
Lemma np_refuse c e : panics e = false → no_panic (refuse_if c e).
Proof. intros H. unfold refuse_if. destruct c; [by apply np_err|apply np_ok]. Qed.
Lemma np_seq {A} (r : result Refusal unit) (k : result Refusal A) :
  no_panic r → (r = Ok tt → no_panic k) → no_panic (r ;;? k).
Proof. intros Hr Hk. destruct r as [[]|e]; [by apply Hk|]. intros e' [= <-]. by apply Hr. Qed.
Lemma np_bind {A B} (r : result Refusal A) (k : A → result Refusal B) :
  no_panic r → (∀ a, r = Ok a → no_panic (k a)) → no_panic (x <-? r ;; k x).
Proof. intros Hr Hk. destruct r as [a|e]; [by apply Hk|]. intros e' [= <-]. by apply Hr. Qed.
Lemma np_for_each {A} (g : A → result Refusal unit) l :
  (∀ x, x ∈ l → no_panic (g x)) → no_panic (for_each g l).
Proof.
  induction l as [|x l IH]; intros H; cbn [for_each]; [apply np_ok|].
  apply np_seq; [apply H; left|]. intros _. apply IH. intros y Hy. apply H. by right.
Qed.
Lemma np_collect {A B} (g : A → result Refusal B) l :
  (∀ x, no_panic (g x)) → no_panic (collect g l).
Proof.
  intros H. induction l as [|x l IH]; cbn [collect]; [apply np_ok|].
  apply np_bind; [apply H|]. intros y _. apply np_bind; [done|]. intros ys _. apply np_ok.
Qed.
Lemma np_context {A} w (r : result Refusal A) : no_panic r → no_panic (context w r).
Proof. intros H. destruct r as [a|e]; [apply np_ok|]. apply np_err. by apply (H e). Qed.
Lemma np_is_ok {A} (r : result Refusal A) : (∃ a, r = Ok a) → no_panic r.
Proof. intros [a ->]. apply np_ok. Qed.

Lemma np_dup e l : (∀ s, panics (e s) = false) → no_panic (refuse_dup e l).
Proof. intros H. unfold refuse_dup. destruct (dup l); [by apply np_err|apply np_ok]. Qed.

Create HintDb np.
#[export] Hint Resolve np_ok np_err np_refuse np_collect np_context np_for_each np_dup : np.

(** Walk through a chain of refusals none of which is a panic. *)
Ltac np_step :=
  match goal with
  | |- no_panic (Ok _) => apply np_ok
  | |- no_panic (Err _) => apply np_err; reflexivity
  | |- no_panic (refuse_if _ _) => apply np_refuse; reflexivity
  | |- no_panic (refuse_dup _ _) => apply np_dup; intros ?; reflexivity
  | |- no_panic (context _ _) => apply np_context
  | |- no_panic (collect _ _) => apply np_collect; intros ?
  | |- no_panic (for_each _ _) => apply np_for_each; intros ? ?
  | |- no_panic (match ?r with Ok _ => ?k | Err e => Err e end) => apply (np_seq r k); [|intros ?]
  | |- no_panic (match ?r with Ok x => _ | Err e => Err e end) => apply (np_bind r); [|intros ? ?]
  | |- no_panic (match ?o with Some _ => _ | None => _ end) => destruct o eqn:?
  | |- no_panic (if ?b then _ else _) => destruct b eqn:?
  end.
Ltac np := repeat np_step.

Lemma np_domain_parse s : no_panic (domain_parse s).
Proof. unfold domain_parse. np. Qed.
Lemma np_scope_parse s : no_panic (scope_parse s).
Proof. unfold scope_parse. np. apply np_domain_parse. Qed.
Lemma np_prefix_parse s : no_panic (prefix_parse s).
Proof. unfold prefix_parse. np. destruct p. np. Qed.
Lemma np_zone_known f z : no_panic (zone_known f z).
Proof. unfold zone_known, zone. np. Qed.

Lemma np_resolve_member m : no_panic (resolve_member m).
Proof.
  unfold resolve_member, resolve_wire, resolve_member_workload. np; [apply np_domain_parse|].
  destruct p. np.
Qed.

Lemma np_resolve_gw z g : no_panic (resolve_gw z g).
Proof. unfold resolve_gw. np. destruct p. np. apply np_scope_parse. Qed.

Lemma np_resolve_zone z : no_panic (resolve_zone z).
Proof.
  unfold resolve_zone, resolve_segment. np; try apply np_domain_parse. apply np_resolve_gw.
Qed.

Lemma np_resolve_workload w : no_panic (refuse_retired_workload_keys w ;;? resolve_workload w).
Proof.
  unfold refuse_retired_workload_keys, resolve_workload. np. apply np_prefix_parse.
Qed.

(** *** The checks *)

Lemma np_wires_distinct m seen l : no_panic (wires_distinct m seen l).
Proof. revert seen. induction l as [|w l IH]; intros seen; cbn [wires_distinct]; np. apply IH. Qed.

Lemma np_check_domains f : no_panic (check_domains f).
Proof.
  unfold check_domains, check_member_wires, check_segment_domain, check_zone_domains. np.
  apply np_wires_distinct.
Qed.

Lemma np_check_segments f : no_panic (check_segments f).
Proof. unfold check_segments. np. apply np_zone_known. Qed.

(** What [from_decl] builds, whatever it read: zone ids are a [u8]'s, an ingress router is four
    octets, and a preference row is one of a member. *)
Record built (f : Fabric) : Prop := {
  bl_offset : 0 ≤ f_leaf_cost_offset f;
  bl_ids z : z ∈ f_zones f → 0 ≤ z_id z ≤ u8_max;
  bl_routers z g : z ∈ f_zones f → z_gw z = Some g → is_Some (router_octet g);
  bl_prefs p : p ∈ f_wire_prefs f → wp_member p ∈ m_name <$> f_members f
}.

Lemma np_check_wire_prefs f : built f → no_panic (check_wire_prefs f).
Proof.
  intros Hb. unfold check_wire_prefs. np. unfold check_wire_pref.
  destruct (member f (wp_member x)) as [m|e] eqn:E; [np; apply np_zone_known|].
  unfold member in E. destruct (List.find _ _) eqn:Ef; [done|]. rewrite find_None_iff in Ef.
  pose proof (bl_prefs _ Hb _ H) as (m & Em & Hm)%list_elem_of_fmap. specialize (Ef m Hm).
  cbn in Ef. by rewrite Em, String.eqb_refl in Ef.
Qed.

Lemma np_check_workload f wl : built f → no_panic (check_workload f wl).
Proof.
  intros Hb. unfold check_workload, check_dhcp_server. np.
  rewrite zone_block_ok by (by apply (bl_ids _ Hb)). np.
Qed.

Lemma np_check_workloads f : built f → no_panic (check_workloads f).
Proof.
  intros Hb. unfold check_workloads. generalize (∅ : gset string) (∅ : gmap string string)
    (∅ : gmap (string * Z) string).
  induction (f_workloads f) as [|wl l IH]; intros seen legs vlans; cbn [check_workloads_from];
    [apply np_ok|]. np; [by apply np_check_workload|apply IH].
Qed.

Lemma np_check_member_workloads f : no_panic (check_member_workloads f).
Proof.
  unfold check_member_workloads. np. generalize (∅ : gset string).
  induction (m_workloads x) as [|mw l IH]; intros seen; cbn [check_member_workloads_from]; np.
  apply IH.
Qed.

Lemma np_check_addresses f : no_panic (check_addresses f).
Proof.
  unfold check_addresses. np. generalize (∅ : gmap Ipv4Addr string).
  induction (f_members f) as [|m l IH]; intros seen; cbn [addresses_distinct]; np; apply IH.
Qed.

Lemma np_check_gw f z : built f → z ∈ f_zones f → no_panic (check_gw f z).
Proof.
  intros Hb Hz. unfold check_gw. destruct (z_gw z) as [g|] eqn:Eg; [|apply np_ok].
  destruct (bl_routers _ Hb z g Hz Eg) as [o ->]. np.
Qed.

Lemma np_first_shared f m l :
  (∀ n, n ∈ l → n ∈ wire_name <$> m_wires m) → no_panic (first_shared f m l).
Proof.
  induction l as [|n l IH]; intros H; cbn [first_shared]; [apply np_ok|].
  destruct (wire_named m n) as [w|] eqn:E.
  - destruct (shared _ _ _); [apply np_ok|]. apply IH. set_solver.
  - apply wire_named_None in E. destruct E. apply H. left.
Qed.

Lemma pref_order_wires f m z n :
  derivable f m → n ∈ hp_order (pref_of f m z) → n ∈ wire_name <$> m_wires m.
Proof.
  intros Hm Hn. apply elem_of_pref_order in Hn; [|done].
  apply list_elem_of_fmap in Hn as (w & -> & [_ Hw]%list_elem_of_filter).
  apply list_elem_of_fmap. by exists w.
Qed.

Lemma np_check_rank0 f z m : derivable f m → no_panic (check_rank0_member f z m).
Proof.
  intros Hm. unfold check_rank0_member. destruct (m_kind m); [|apply np_ok].
  destruct (List.find _ _) as [p|] eqn:E; cbn; [|apply np_ok].
  apply find_Some_elem in E as [(z' & -> & _)%list_elem_of_fmap _].
  destruct (hp_order (pref_of f m z')) as [|n rest] eqn:Eo; [apply np_ok|].
  destruct (wire_named m n) as [w|] eqn:Ew.
  - destruct (shared _ _ _); [apply np_ok|]. apply np_bind; [|intros [|] _; np].
    apply np_first_shared. intros x Hx. eapply pref_order_wires; [done|]. rewrite Eo. by right.
  - apply wire_named_None in Ew. destruct Ew. eapply pref_order_wires; [done|]. rewrite Eo. left.
Qed.

Lemma np_validate_derived f :
  0 ≤ f_leaf_cost_offset f → (∀ m, m ∈ f_members f → derivable f m) →
  no_panic (validate_derived f).
Proof.
  intros Ho Hall. unfold validate_derived, check_rank0_is_shared. np.
  - unfold check_universal_cost. destruct (negb _); [apply np_ok|].
    destruct (universal_cost_total f Hall (z_name x)) as [c ->]. np.
  - apply np_check_rank0. by apply Hall.
  - unfold check_no_equal_cost_paths. destruct (edges_of_total f Hall (z_name x)) as [g Eg].
    rewrite Eg. apply np_for_each. intros m Hm. unfold check_paths_from.
    destruct (search_returns f (z_name x) g m Eg Hm) as [p ->]. np.
    by match goal with p : string * Z |- _ => destruct p; np end.
Qed.

Lemma np_validate f : built f → no_panic (validate f).
Proof.
  intros Hb. unfold validate.
  apply np_seq; [apply np_check_domains|intros (_ & Hms & _)%check_domains_ok].
  apply np_seq; [apply np_check_segments|intros (_ & _ & _ & _ & Hs & _)%check_segments_ok].
  apply np_seq; [unfold check_zones, check_zone; np|intros _].
  apply np_seq; [unfold check_members; np|intros [Hn _]%check_members_ok].
  apply np_seq; [by apply np_check_wire_prefs|intros Hp].
  apply np_seq; [unfold check_forward_allow; np|intros _].
  apply np_seq; [by apply np_check_workloads|intros _].
  apply np_seq; [apply np_check_member_workloads|intros _].
  apply np_seq; [apply np_check_addresses|intros _].
  apply np_seq; [apply np_for_each; intros; by apply np_check_gw|intros _].
  apply np_validate_derived; [apply Hb|]. intros m Hm. apply checks_derivable; try done.
  unfold check_wire_prefs in Hp. rewrite for_each_ok in Hp. eapply list.Forall_impl; [exact Hp|].
  intros p. apply check_wire_pref_ok.
Qed.

(** *** What [from_decl] builds *)

Lemma rsplit_split d s :
  ∃ ps b, split d s = ps ++ [b] ∧
    match ps with
    | [] => rsplit_once d s = None ∧ s = b
    | _ => ∃ a, rsplit_once d s = Some (a, b)
    end.
Proof.
  induction s as [|c s (ps & b & E & IH)]; cbn -[Ascii.eqb]; [by exists [], EmptyString|].
  rewrite E. destruct (Ascii.eqb c d).
  - exists (EmptyString :: ps), b. split; [done|].
    destruct ps; [destruct IH as [-> ->]; by eexists|]. destruct IH as [pre ->]. by eexists.
  - destruct ps as [|p ps]; cbn [app].
    + destruct IH as [-> ->]. by exists [], (String c b).
    + destruct IH as [pre ->]. exists (String c p :: ps), b. split; [done|]. by eexists.
Qed.

Lemma resolve_gw_router z g g' : resolve_gw z g = Ok g' → is_Some (router_octet g').
Proof.
  unfold resolve_gw. destruct (split_once _ _) as [[router l]|]; [|done].
  destruct (negb (String.eqb l "24")); [done|].
  destruct (rsplit_split "." router) as (ps & b & E & Hr). rewrite E.
  destruct (_ || _) eqn:B; [done|]. destruct (context _ _); [|done]. intros [= <-].
  apply orb_false_iff in B as [B1 B2]. split_bools. apply Nat.eqb_eq in B1.
  rewrite any_false in B2. unfold router_octet. cbn [gw_router].
  destruct ps as [|p ps]; [done|]. destruct Hr as [pre ->]. cbn [mbind option_bind].
  specialize (B2 b). rewrite bool_decide_eq_false in B2. apply not_eq_None_Some, B2.
  apply elem_of_app. right. left.
Qed.

Lemma collect_elem {E A B} (g : A → result E B) l ys y :
  collect g l = Ok ys → y ∈ ys → ∃ x, x ∈ l ∧ g x = Ok y.
Proof.
  intros H%collect_ok Hy. apply list_elem_of_lookup in Hy as [i Hi].
  destruct (Forall2_lookup_r _ _ _ _ _ H Hi) as (x & Hx & ?).
  exists x. split; [by eapply list_elem_of_lookup_2|done].
Qed.

(** The widths of the declaration's fields. *)
Definition decl_typed (d : Declaration) : Prop :=
  Forall (λ z, 0 ≤ zd_id z ≤ u8_max) (d_zones d) ∧
  0 ≤ co_leaf_offset (unwrap_or (d_cost d) cost_default).

Lemma built_from d domains members zones workloads forward_allow :
  decl_typed d → collect resolve_member (d_members d) = Ok members →
  collect resolve_zone (d_zones d) = Ok zones →
  built (fabric_of d domains members zones workloads forward_allow).
Proof.
  intros [Hids Hoff] Em Ez. rewrite list.Forall_forall in Hids. split; cbn.
  - done.
  - intros z ([z' segs] & -> & Hz)%list_elem_of_fmap.
    destruct (collect_elem _ _ _ _ Ez Hz) as (zd & Hzd & E). unfold resolve_zone in E.
    destruct (collect (resolve_segment zd) _); [|done].
    destruct (zd_gw zd); [destruct (resolve_gw _ _); [|done]|];
      (destruct (context _ _); [|done]); injection E as <- <-; by apply Hids.
  - intros z g ([z' segs] & -> & Hz)%list_elem_of_fmap Eg.
    destruct (collect_elem _ _ _ _ Ez Hz) as (zd & Hzd & E). unfold resolve_zone in E.
    destruct (collect (resolve_segment zd) _); [|done]. destruct (zd_gw zd) as [gd|].
    + destruct (resolve_gw _ _) as [g'|] eqn:Er; [|done]. destruct (context _ _); [|done].
      injection E as <- <-. cbn in Eg. injection Eg as <-. by eapply resolve_gw_router.
    + destruct (context _ _); [|done]. by injection E as <- <-.
  - intros p Hp. rewrite list_elem_of_In, List.in_concat in Hp.
    setoid_rewrite <-list_elem_of_In in Hp. destruct Hp as (ps & Hps & Hp).
    apply list_elem_of_fmap in Hps as ([m ps'] & -> & Hm). apply list_elem_of_fmap.
    exists m. destruct (collect_elem _ _ _ _ Em Hm) as (md & _ & E). unfold resolve_member in E.
    destruct (collect (resolve_wire md) _); [|done].
    destruct (collect (resolve_member_workload md) _); [|done]. injection E as <- <-. cbn in Hp.
    apply list_elem_of_fmap in Hp as (zo & -> & _). split; [done|].
    apply list_elem_of_fmap. eexists. split; [|done]. done.
Qed.

(** C37. Reading a declaration never panics: whatever [fabric.toml] says, [from_decl] answers
    with a fabric that passed the gate or with a worded refusal. *)
Theorem from_decl_never_panics (d : Declaration) :
  decl_typed d →
  match from_decl d with
  | Ok f => validate f = Ok tt
  | Err e => panics e = false
  end.
Proof.
  intros Hd. unfold from_decl.
  assert (Hcase : ∀ (r : result Refusal Fabric), no_panic r → (∀ f, r = Ok f → validate f = Ok tt) →
    match r with Ok f => validate f = Ok tt | Err e => panics e = false end).
  { intros [f|e] H1 H2; [by apply H2|by apply H1]. }
  apply Hcase.
  - apply np_bind; [np; apply np_domain_parse|intros domains _].
    apply np_bind; [np; apply np_resolve_member|intros members Em].
    apply np_bind; [np; apply np_resolve_zone|intros zones Ez].
    apply np_bind; [apply np_collect; intros w; apply np_resolve_workload|intros workloads _].
    apply np_bind; [unfold resolve_forward; np|intros forward_allow _].
    apply np_seq; [np|intros _]. apply np_seq; [np|intros _].
    apply np_seq; [|intros _; apply np_ok]. by apply np_validate, built_from.
  - intros f. repeat (case_match; try done). intros [= <-].
    by match goal with u : unit |- _ => destruct u end.
Qed.

(** ** Concrete inputs *)

Lemma valid_fabric_derives_witness :
  validate Sample.fabric = Ok tt ∧
  let v := {| v_fabric := Sample.fabric; v_member := Sample.leaf |} in
  view_new Sample.fabric "l1" = Ok v ∧ is_ok (class_rows v) = true ∧
  is_ok (fallback_rows v) = true ∧ is_ok (gw_rows v) = true ∧
  is_ok (owned_forwarding v) = true ∧ is_ok (zone_ifs v "storage") = true ∧
  is_ok (wires v) = true ∧ is_ok (universal_cost Sample.fabric "storage") = true ∧
  is_ok (edges_of Sample.fabric "storage") = true.
Proof.
  split; [by vm_compute|].
  apply (valid_fabric_derives Sample.fabric Sample.leaf "storage"); [by vm_compute|].
  cbn. right. right. left.
Defined.

Lemma workload_addresses_witness :
  addresses_of Sample.fabric Sample.vms = [3232235522] ∧
  (∀ z a, z ∈ f_zones Sample.fabric → z_id z ≤ u8_max → addr_ok a →
    contains (wl_prefix Sample.vms) a = true → contains (block_prefix z) a = true → False) ∧
  NoDup (addresses_of Sample.fabric Sample.vms) ∧
  (wl_gw Sample.vms ∉ addresses_of Sample.fabric Sample.vms) ∧
  (∀ s, wl_dhcp_server Sample.vms = Some s →
    s ≠ wl_gw Sample.vms ∧ (s ∉ addresses_of Sample.fabric Sample.vms)) ∧
  (∀ a, a ∈ addresses_of Sample.fabric Sample.vms → addr_ok a →
    net (wl_prefix Sample.vms) < a < broadcast (wl_prefix Sample.vms)).
Proof.
  split; [by vm_compute|]. apply workload_addresses_apart; [by vm_compute|cbn; left|].
  unfold prefix_ok, addr_ok. cbn. split_and!; by vm_compute.
Defined.

Lemma addresses_unique_witness :
  let v := {| v_fabric := Sample.fabric; v_member := Sample.h1 |} in
  let v' := {| v_fabric := Sample.fabric; v_member := Sample.h2 |} in
  segment_addr v Sample.storage 1 = "10.10.1.1"%string ∧
  (segment_addr v Sample.storage 1 = segment_addr v' Sample.storage 2 →
    v = v' ∧ Sample.storage = Sample.storage ∧ 1 = 2) ∧
  (identity_addr v Sample.storage = segment_addr v' Sample.storage 2 → 2 = 0) ∧
  (identity_addr v Sample.storage = identity_addr v' Sample.storage →
    v = v' ∧ Sample.storage = Sample.storage).
Proof.
  intros v v'. split; [by vm_compute|].
  apply (addresses_unique Sample.fabric v v' Sample.storage Sample.storage 1 2);
    [by vm_compute|done|done|cbn; left|cbn; right; left|done|done|cbn; left|cbn; left|done|done].
Defined.

(** The declaration the sample fabric comes from, less its override and its leaf. *)
Definition sample_decl : Declaration :=
  {| d_dns_domain := "example.net";
     d_domains := {["a" := "switch a"; "b" := "switch b"]};
     d_members := [
       {| md_name := "h1"; md_node := 1; md_kind := Host;
          md_wires := [
            {| wd_nic := "eth0"; wd_domain := "a"; wd_speed_mbps := 10000;
               wd_driver_features := None; wd_usb := None |};
            {| wd_nic := "eth1"; wd_domain := "b"; wd_speed_mbps := 1000;
               wd_driver_features := None; wd_usb := None |} ];
          md_prefs := {["storage" := ["eth0"; "eth1"]]};
          md_workloads := [ {| mwd_name := "vms"; mwd_address := "192.168.0.2/24" |} ] |};
       {| md_name := "h2"; md_node := 2; md_kind := Host;
          md_wires := [
            {| wd_nic := "eth0"; wd_domain := "a"; wd_speed_mbps := 10000;
               wd_driver_features := None; wd_usb := None |} ];
          md_prefs := ∅; md_workloads := [] |} ];
     d_zones := [
       {| zd_name := "storage"; zd_id := 10; zd_pcp := 3; zd_dscp := Cs2; zd_floor_mbps := 1000;
          zd_band := 1; zd_weight := 2; zd_primary := "a";
          zd_segments := [
            {| sd_ifname := "st-a"; sd_domain := "a"; sd_seg := 1; sd_vid := 101 |};
            {| sd_ifname := "st-b"; sd_domain := "b"; sd_seg := 2; sd_vid := 102 |} ];
          zd_universal := Some {| ud_ifname := "st-any"; ud_seg := 9; ud_vid := 109 |};
          zd_gw := Some {| gd_domain := "any"; gd_vid := 250; gd_router := "172.16.0.254/24" |} |} ];
     d_workload := [
       {| wld_name := "vms"; wld_uplink := "eth2"; wld_vid := 300; wld_prefix := "192.168.0.0/24";
          wld_gw := "192.168.0.1"; wld_dhcp_server := Some "192.168.2.1"; wld_allow := ["storage"];
          wld_router := None; wld_span := None |} ];
     d_forward := {| fd_enabled := true; fd_allow := ["storage>storage"] |};
     d_admin := None; d_marking := None; d_cost := None; d_bfd := None; d_ospf := None;
     d_bgp := None; d_runtime := None |}.

Lemma from_decl_witness :
  decl_typed sample_decl ∧ is_ok (from_decl sample_decl) = true ∧
  match from_decl sample_decl with Ok f => validate f = Ok tt | Err e => panics e = false end.
Proof.
  assert (decl_typed sample_decl) as H.
  { split; [repeat constructor; cbn; done|cbn; done]. }
  split_and!; [exact H|by vm_compute|]. exact (from_decl_never_panics sample_decl H).
Defined.

(** A segment numbered 0 passes the gate, and takes the members' identity addresses. *)
Definition with_segment_zero (f : Fabric) : Fabric :=
  {| f_domains := f_domains f; f_members := f_members f; f_zones := f_zones f;
     f_segments := (λ s, if s_seg s =? 1
       then {| s_ifname := s_ifname s; s_scope := s_scope s; s_zone := s_zone s; s_seg := 0;
               s_vid := s_vid s |} else s) <$> f_segments f;
     f_wire_prefs := f_wire_prefs f; f_leaf_cost_offset := f_leaf_cost_offset f;
     f_host_forward := f_host_forward f; f_forward_allow := f_forward_allow f;
     f_admin_floor_mbps := f_admin_floor_mbps f; f_admin_band := f_admin_band f;
     f_pcp_ctrl := f_pcp_ctrl f; f_dscp_mark := f_dscp_mark f; f_bfd := f_bfd f;
     f_ospf := f_ospf f; f_bgp := f_bgp f; f_run_dir := f_run_dir f;
     f_dns_domain := f_dns_domain f; f_workloads := f_workloads f |}.

Lemma segment_zero_takes_the_identity :
  let f := with_segment_zero Sample.fabric in
  let v := {| v_fabric := f; v_member := Sample.h1 |} in
  validate f = Ok tt ∧
  (∃ r, class_rows v = Ok r ∧ 0 ∈ cr_seg <$> r) ∧
  segment_addr v Sample.storage 0 = identity_addr v Sample.storage.
Proof. split_and!; [by vm_compute| |done]. eexists. split; [by vm_compute|cbn; left]. Qed.

(** Nothing keeps two zones from having one name: the second's segments and gateway are then
    looked up under the first. *)
Definition with_second_storage (f : Fabric) : Fabric :=
  {| f_domains := f_domains f; f_members := f_members f;
     f_zones := f_zones f ++
       [ {| z_name := "storage"; z_id := 11; z_pcp := 3; z_dscp := Cs2; z_floor_mbps := 1000;
            z_band := 2; z_weight := 2; z_primary := "b"; z_gw := None |} ];
     f_segments := f_segments f;
     f_wire_prefs := f_wire_prefs f; f_leaf_cost_offset := f_leaf_cost_offset f;
     f_host_forward := f_host_forward f; f_forward_allow := f_forward_allow f;
     f_admin_floor_mbps := f_admin_floor_mbps f; f_admin_band := f_admin_band f;
     f_pcp_ctrl := f_pcp_ctrl f; f_dscp_mark := f_dscp_mark f; f_bfd := f_bfd f;
     f_ospf := f_ospf f; f_bgp := f_bgp f; f_run_dir := f_run_dir f;
     f_dns_domain := f_dns_domain f; f_workloads := f_workloads f |}.

Lemma two_zones_of_one_name :
  let f := with_second_storage Sample.fabric in
  validate f = Ok tt ∧ z_id <$> f_zones f = [10; 11] ∧ zone f "storage" = Ok Sample.storage.
Proof. split_and!; by vm_compute. Qed.
