(* ===== verification/Shape.v ===== *)
(** The floor-and-borrow HTB tree of one wire (src/src/emit/shape.rs): the derivation, the tc
    program that installs it, and the record of what was installed. *)
From Stdlib Require Import Ascii String.
From S2P Require Import Prelude Text Net Decl Fabric Derive.
Local Open Scope Z_scope.

Definition L_EFF_PCT : Z := 97.

Inductive LinkSource := Measured | Declared.
(** The code's [Dscp(d)] is [Marked d] here: [Dscp] is the type's name. *)
Inductive BandClass := Marked (d : Dscp) | Untagged.

#[export] Instance BandClass_eq_dec : EqDecision BandClass.
Proof. solve_decision. Defined.

Record Band := {
  b_minor : Z; b_prio : Z; b_floor : Z; b_eff : Z; b_class : BandClass; b_is_default : bool;
  b_label : string; b_effective_primary : option string
}.

Inductive Warning :=
| UsingDeclared (dev : string) (speed : Z)
| HardOversubscribed (dev : string) (protected l sum_floor : Z)
| Oversubscribed (dev : string) (sum_floor l protected : Z).

Record Derivation := {
  dv_dev : string; dv_l_raw : Z; dv_l : Z; dv_source : LinkSource; dv_bands : list Band;
  dv_default_minor : Z; dv_sum_eff : Z; dv_warnings : list Warning
}.

Inductive ShapeError :=
| Model (e : Refusal)
| NoZoneOnWire (dev : string)
| NoDefaultBand (dev : string).

Definition from_model {A} (r : result Refusal A) : result ShapeError A :=
  match r with Ok a => Ok a | Err e => Err (Model e) end.

(** ** The derivation *)

(** [a.0.cmp(&b.0).then_with(|| a.1.cmp(&b.1))]. *)
Definition num_name_leb (a b : Z * string) : bool :=
  (a.1 <? b.1) || ((a.1 =? b.1) && str_leb a.2 b.2).

Definition eff_primary_dev (v : View) (z : string) (up : string → bool)
    : result Refusal (option string) :=
  rows <-? class_rows v ;;
  let rows := (λ r, (cr_ospf_cost r, cr_wire r)) <$> filter (λ r, String.eqb (cr_zone r) z) rows in
  Ok (snd <$> List.find (λ cw : Z * string, up cw.2) (merge_sort (leb_rel num_name_leb) rows)).

Definition link_capacity (v : View) (dev : string) (measured_cap : option Z)
    : result ShapeError (Z * LinkSource * list Warning) :=
  let declared :=
    speed <-? from_model (link_speed v dev) ;;
    Ok (speed, Declared, [UsingDeclared dev speed]) in
  match measured_cap with
  | Some c => if 0 <? c then Ok (c, Measured, []) else declared
  | None => declared
  end.

(** The zones whose sub-interfaces sit on the wire, sorted and once each. *)
Definition zones_on (v : View) (dev : string) : result ShapeError (list string) :=
  rows <-? from_model (class_rows v) ;;
  Ok (btree_set_iter str_leb
        (list_to_set (cr_zone <$> filter (λ r, String.eqb (cr_wire r) dev) rows))).

Definition band_order (v : View) (dev : string) (zones : list string)
    : result ShapeError (list (Z * string)) :=
  order <-? collect (λ zn, z <-? from_model (zone (v_fabric v) zn) ;; Ok (z_band z, zn)) zones ;;
  let order := order ++ (if is_admin_if v dev then [(f_admin_band (v_fabric v), "admin"%string)] else []) in
  Ok (merge_sort (leb_rel num_name_leb) order).

(** One band of the loop; [rank] is its place in the order. *)
Definition make_band (v : View) (dev : string) (up : string → bool) (ro : nat * (Z * string))
    : result ShapeError Band :=
  let '(rank, (band, label)) := ro in
  let minor := (Z.of_nat rank + 1) * 10 in
  cf <-? (if String.eqb label "admin" then Ok (Untagged, f_admin_floor_mbps (v_fabric v))
          else z <-? from_model (zone (v_fabric v) label) ;; Ok (Marked (z_dscp z), z_floor_mbps z)) ;;
  let '(class, floor) := cf in
  if bool_decide (class = Marked Cs0) then
    ep <-? from_model (eff_primary_dev v label up) ;;
    let floor := if bool_decide (ep = Some dev) then floor else 1 in
    Ok {| b_minor := minor; b_prio := band; b_floor := floor; b_eff := floor; b_class := class;
          b_is_default := true; b_label := label; b_effective_primary := ep |}
  else
    Ok {| b_minor := minor; b_prio := band; b_floor := floor; b_eff := floor; b_class := class;
          b_is_default := false; b_label := label; b_effective_primary := None |}.

(** [default_minor] is overwritten by each default band. *)
Definition default_of (bands : list Band) : option Z := b_minor <$> list.last (filter b_is_default bands).

Definition sum_of (f : Band → Z) (bands : list Band) : Z := foldr Z.add 0 (f <$> bands).
Definition protected_sum (bands : list Band) : Z := sum_of b_floor (filter (λ b, b_prio b = 0) bands).
Definition degradable_sum (bands : list Band) : Z := sum_of b_floor (filter (λ b, b_prio b ≠ 0) bands).

Definition set_eff (b : Band) (e : Z) : Band :=
  {| b_minor := b_minor b; b_prio := b_prio b; b_floor := b_floor b; b_eff := e;
     b_class := b_class b; b_is_default := b_is_default b; b_label := b_label b;
     b_effective_primary := b_effective_primary b |}.

(** What the loop over the bands gives one of them, when the floors do not fit. *)
Definition degraded_eff (l protected degradable sum_floor : Z) (b : Band) : Z :=
  if l <? protected then b_floor b * l / sum_floor
  else if b_prio b =? 0 then b_floor b
  else if degradable =? 0 then 0 else b_floor b * (l - protected) / degradable.

Definition degrade (dev : string) (l : Z) (bands : list Band) : list Band * list Warning :=
  let sum_floor := sum_of b_floor bands in
  let protected := protected_sum bands in
  let degradable := degradable_sum bands in
  if sum_floor <=? l then (bands, [])
  else ((λ b, set_eff b (degraded_eff l protected degradable sum_floor b)) <$> bands,
        [if l <? protected then HardOversubscribed dev protected l sum_floor
         else Oversubscribed dev sum_floor l protected]).

Definition derive (v : View) (dev : string) (measured_cap : option Z) (up : string → bool)
    : result ShapeError Derivation :=
  cap <-? link_capacity v dev measured_cap ;;
  let '(l_raw, source, warnings) := cap in
  let l := l_raw * L_EFF_PCT / 100 in
  zones <-? zones_on v dev ;;
  refuse_if (bool_decide (zones = [])) (NoZoneOnWire dev) ;;?
  order <-? band_order v dev zones ;;
  bands <-? collect (make_band v dev up) (enumerate order) ;;
  match default_of bands with
  | None => Err (NoDefaultBand dev)
  | Some default_minor =>
      let '(bands, more) := degrade dev l bands in
      Ok {| dv_dev := dev; dv_l_raw := l_raw; dv_l := l; dv_source := source; dv_bands := bands;
            dv_default_minor := default_minor; dv_sum_eff := sum_of b_eff bands;
            dv_warnings := warnings ++ more |}
  end.

Definition line (s : string) : string := (s ++ String char_lf EmptyString)%string.

(** ** The human derivation *)

Definition derive_head (d : Derivation) (v : View) : string :=
  ("gen-shape derive: dev " ++ dv_dev d ++ ", link L = " ++ show (dv_l d) ++ " Mb/s = 0."
   ++ show L_EFF_PCT ++ " × " ++ show (dv_l_raw d)
   ++ match dv_source d with
      | Measured => " (measured)"
      | Declared => " (declared for " ++ m_name (v_member v) ++ ":" ++ dv_dev d ++ ", UNMEASURED)"
      end)%string.

Definition band_tag (b : Band) : string :=
  match b_class b with
  | Marked c => if b_is_default b then "default/bulk, no filter (htb default)"
                else ("filtered on " ++ dscp_str c ++ " / tos " ++ tos c)%string
  | Untagged => "filtered on NOT 802.1Q-tagged"
  end.

Definition band_why (dev : string) (b : Band) : string :=
  match b_class b with
  | Marked c =>
      if b_is_default b then
        if bool_decide (b_effective_primary b = Some dev)
        then (b_label b ++ " effective-primary on " ++ dev ++ " -> full floor")%string
        else (b_label b ++ " not effective-primary on " ++ dev
              ++ " -> 1mbit token (real floor re-derives on failover)")%string
      else (b_label b ++ " marked traffic (" ++ dscp_str c
            ++ " on every sub-if, incl. control) -> full floor")%string
  | Untagged => ("untagged admin traffic (SSH/GUI) on admin NIC " ++ dev ++ " -> full floor")%string
  end.

Definition band_line (dev : string) (b : Band) : string :=
  ("    1:" ++ show (b_minor b) ++ "  " ++ b_label b ++ "  prio " ++ show (b_prio b) ++ "  floor "
   ++ show (b_floor b)
   ++ (if (b_eff b =? b_floor b)%Z then " Mb/s"
       else " -> " ++ show (b_eff b) ++ " Mb/s (degraded, factor " ++ show (b_eff b) ++ "/"
            ++ show (b_floor b) ++ ")")
   ++ "  [" ++ band_tag b ++ "]  — " ++ band_why dev b)%string.

(** The headroom is a signed difference. *)
Definition render_derive (d : Derivation) (v : View) : string :=
  String.concat "" (line <$>
    [derive_head d v;
     "  bands (one HTB class per DSCP band; rate=effective floor guarantee, ceil=L so idle bands lend):"%string]
    ++ (band_line (dv_dev d) <$> dv_bands d)
    ++ [("H = L - Sum(effective) = " ++ show (dv_l d) ++ " - " ++ show (dv_sum_eff d) ++ " = "
         ++ show_signed (dv_l d - dv_sum_eff d)%Z
         ++ " Mb/s  (borrowable headroom; H<0 impossible post-degrade)")%string]).

(** ** The tc program *)

Definition quantum_for (rate : Z) : Z := if 1000 <=? rate then 60000 else 1514.
Definition rate_str (rate : Z) : string :=
  if 1 <=? rate then (show rate ++ "mbit")%string else "1kbit".
Definition rate_token (eff : Z) : string :=
  if (1000 <=? eff) && (eff mod 1000 =? 0) then (show (eff / 1000) ++ "Gbit")%string
  else if 1 <=? eff then (show eff ++ "Mbit")%string
  else "1Kbit".

Definition words (s : string) : list string := split " "%char s.
Definition Cmdline : Type := list string * bool.

Definition root_cmds (d : Derivation) : list Cmdline :=
  let dev := dv_dev d in
  let l := show (dv_l d) in
  [ (words ("tc qdisc del dev " ++ dev ++ " root")%string, true);
    (words ("tc qdisc add dev " ++ dev ++ " root handle 1: htb default "
            ++ show (dv_default_minor d))%string, false);
    (words ("tc class add dev " ++ dev ++ " parent 1: classid 1:1 htb rate " ++ l ++ "mbit ceil "
            ++ l ++ "mbit burst 64k quantum " ++ show (quantum_for (dv_l d)))%string, false) ].

Definition class_cmd (d : Derivation) (b : Band) : Cmdline :=
  (words ("tc class add dev " ++ dv_dev d ++ " parent 1:1 classid 1:" ++ show (b_minor b)
     ++ " htb rate " ++ rate_str (b_eff b) ++ " ceil " ++ show (dv_l d) ++ "mbit prio "
     ++ show (b_prio b) ++ " burst 64k quantum " ++ show (quantum_for (b_eff b)))%string, false).

Definition qdisc_cmd (d : Derivation) (b : Band) : Cmdline :=
  (words ("tc qdisc add dev " ++ dv_dev d ++ " parent 1:" ++ show (b_minor b) ++ " handle "
     ++ show (b_minor b) ++ ": fq_codel")%string, false).

Definition filter_cmd (d : Derivation) (fprio : Z) (b : Band) : Cmdline :=
  match b_class b with
  | Untagged =>
      (words ("tc filter add dev " ++ dv_dev d ++ " parent 1: protocol ip prio " ++ show fprio
         ++ " flower flowid 1:" ++ show (b_minor b))%string, false)
  | Marked c =>
      (words ("tc filter add dev " ++ dv_dev d ++ " parent 1: protocol 802.1Q prio " ++ show fprio
         ++ " flower vlan_ethtype ip ip_tos " ++ tos c ++ " flowid 1:" ++ show (b_minor b))%string,
       false)
  end.

(** One filter per band that is not the default, numbered from one. *)
Definition filter_cmds (d : Derivation) : list Cmdline :=
  (λ kb : nat * Band, filter_cmd d (Z.of_nat kb.1 + 1) kb.2)
    <$> enumerate (filter (λ b, negb (b_is_default b)) (dv_bands d)).

Definition tc_argv (d : Derivation) : list Cmdline :=
  root_cmds d ++ (class_cmd d <$> dv_bands d) ++ (qdisc_cmd d <$> dv_bands d) ++ filter_cmds d.

Definition render_tc (d : Derivation) : string :=
  String.concat "" ((λ c : Cmdline,
    let l := String.concat " " c.1 in
    line (if c.2 then l ++ " 2>/dev/null || true" else l)%string) <$> tc_argv d).

(** ** What status compares *)

Definition applied_classes (d : Derivation) : list (string * string) :=
  (λ b, (("1:" ++ show (b_minor b))%string, rate_token (b_eff b))) <$> dv_bands d.

Definition render_expect (d : Derivation) : string :=
  String.concat "" ((λ b, line ("1:" ++ show (b_minor b) ++ " " ++ show (b_eff b))%string) <$> dv_bands d).

Inductive AppliedWire :=
| Shaped (classes : list (string * string))
| NoCarrier
| Failed (msg : string).

Record ShapeApplied := { sa_tick : Z; sa_wires : gmap string AppliedWire }.

Definition APPLIED_HEADER : string := "cfab-shape-applied 1".

Definition render_wire (dw : string * AppliedWire) : string :=
  let '(dev, w) := dw in
  ("dev " ++ dev ++ match w with
   | Shaped classes => " shaped" ++ String.concat "" ((λ cr : string * string, " " ++ cr.1 ++ "=" ++ cr.2) <$> classes)
   | NoCarrier => " no-carrier"
   | Failed msg => " failed " ++ replace_char char_lf " "%char msg
   end)%string.

Definition sa_render (a : ShapeApplied) : string :=
  String.concat "" (line <$> APPLIED_HEADER :: ("tick " ++ show (sa_tick a))%string ::
    (render_wire <$> btree_iter str_leb (sa_wires a))).

Inductive RecordError := BadHeader | BadTick | BadLine (l : string) | BadClass (t : string).

Definition parse_class (t : string) : result RecordError (string * string) :=
  match split_once "="%char t with Some cr => Ok cr | None => Err (BadClass t) end.

Definition parse_wire (l : string) : result RecordError (string * AppliedWire) :=
  match strip_prefix "dev " l ≫= split_once " "%char with
  | None => Err (BadLine l)
  | Some (dev, rest) =>
      if String.eqb rest "no-carrier" then Ok (dev, NoCarrier)
      else match strip_prefix "failed " rest with
      | Some msg => Ok (dev, Failed msg)
      | None =>
          match strip_prefix "shaped" rest with
          | Some spec => cs <-? collect parse_class (split_whitespace spec) ;; Ok (dev, Shaped cs)
          | None => Err (BadLine l)
          end
      end
  end.

(** The loop over the lines after the tick: a later line for the same wire replaces it. *)
Fixpoint parse_wires (m : gmap string AppliedWire) (ls : list string)
    : result RecordError (gmap string AppliedWire) :=
  match ls with
  | [] => Ok m
  | l :: ls' =>
      if bool_decide (trim l = EmptyString) then parse_wires m ls'
      else dw <-? parse_wire l ;; parse_wires (<[dw.1 := dw.2]> m) ls'
  end.

Definition sa_parse (text : string) : result RecordError ShapeApplied :=
  match lines text with
  | [] => Err BadHeader
  | h :: ls =>
      if negb (String.eqb h APPLIED_HEADER) then Err BadHeader
      else match (head ls ≫= strip_prefix "tick ") ≫= (λ t, parse_uint u64_max (trim t)) with
      | None => Err BadTick
      | Some tick =>
          ws <-? parse_wires ∅ (tail ls) ;; Ok {| sa_tick := tick; sa_wires := ws |}
      end
  end.

(** ** The floors fit *)

Lemma sum_of_nonneg f bands : (∀ b, b ∈ bands → 0 ≤ f b) → 0 ≤ sum_of f bands.
Proof.
  unfold sum_of. induction bands as [|b l IH]; cbn; [done|]. intros H.
  specialize (IH (λ x Hx, H x (list_elem_of_further _ _ _ Hx))).
  specialize (H b (list_elem_of_here _ _)). lia.
Qed.

Lemma sum_of_mono f g bands : (∀ b, b ∈ bands → f b ≤ g b) → sum_of f bands ≤ sum_of g bands.
Proof.
  unfold sum_of. induction bands as [|b l IH]; cbn; [done|]. intros H.
  specialize (IH (λ x Hx, H x (list_elem_of_further _ _ _ Hx))).
  specialize (H b (list_elem_of_here _ _)). lia.
Qed.

Lemma sum_of_scale f k bands : sum_of (λ b, f b * k) bands = sum_of f bands * k.
Proof. unfold sum_of. induction bands as [|b l IH]; cbn; [done|]. rewrite IH. lia. Qed.

(** Scaling every share down, rounding each towards zero, never exceeds the whole. *)
Lemma sum_of_shares f k s bands :
  0 < s → (∀ b, b ∈ bands → 0 ≤ f b * k) → sum_of (λ b, f b * k / s) bands * s ≤ sum_of f bands * k.
Proof.
  intros Hs H. rewrite <-sum_of_scale. unfold sum_of.
  induction bands as [|b l IH]; cbn; [done|].
  specialize (IH (λ x Hx, H x (list_elem_of_further _ _ _ Hx))).
  pose proof (Z.mul_div_le (f b * k) s Hs). lia.
Qed.

Lemma sum_of_split f (P : Band → Prop) `{∀ b, Decision (P b)} bands :
  sum_of f bands = sum_of f (filter P bands) + sum_of f (filter (λ b, ¬ P b) bands).
Proof.
  unfold sum_of. induction bands as [|b l IH]; [done|]. rewrite fmap_cons, !filter_cons.
  cbn [foldr]. rewrite IH. destruct (decide (P b)), (decide (¬ P b)); try done;
    rewrite fmap_cons; cbn [foldr]; lia.
Qed.

Lemma sum_of_fmap f h bands : sum_of f (h <$> bands) = sum_of (λ b, f (h b)) bands.
Proof. unfold sum_of. by rewrite <-list_fmap_compose. Qed.

Lemma sum_of_ext f g bands : (∀ b, b ∈ bands → f b = g b) → sum_of f bands = sum_of g bands.
Proof. intros H. apply Z.le_antisymm; apply sum_of_mono; intros b Hb; rewrite (H b Hb); done. Qed.

Lemma sum_floor_split bands : sum_of b_floor bands = protected_sum bands + degradable_sum bands.
Proof. unfold protected_sum, degradable_sum. apply sum_of_split. Qed.

(** No band's floor is negative, and none is granted more than its floor. *)
Lemma degraded_eff_bounds l bands b :
  0 ≤ l → (∀ b, b ∈ bands → 0 ≤ b_floor b) → l < sum_of b_floor bands → b ∈ bands →
  0 ≤ degraded_eff l (protected_sum bands) (degradable_sum bands) (sum_of b_floor bands) b ≤ b_floor b.
Proof.
  intros Hl Hf Hover Hb. unfold degraded_eff. pose proof (Hf b Hb) as Hb0.
  pose proof (sum_floor_split bands) as Hs.
  assert (0 ≤ protected_sum bands ∧ 0 ≤ degradable_sum bands) as [Hp Hd].
  { split; apply sum_of_nonneg; intros x [_ Hx]%list_elem_of_filter; auto. }
  destruct (Z.ltb_spec l (protected_sum bands)).
  - split; [apply Z.div_pos; nia|]. apply Z.div_le_upper_bound; nia.
  - destruct (b_prio b =? 0); [lia|]. destruct (Z.eqb_spec (degradable_sum bands) 0); [lia|].
    split; [apply Z.div_pos; nia|]. apply Z.div_le_upper_bound; nia.
Qed.

Lemma degrade_fits dev l bands :
  0 ≤ l → (∀ b, b ∈ bands → 0 ≤ b_floor b ∧ b_eff b = b_floor b) →
  sum_of b_eff (degrade dev l bands).1 ≤ l.
Proof.
  intros Hl Hb. unfold degrade. destruct (Z.leb_spec (sum_of b_floor bands) l) as [Hfit|Hover]; cbn [fst].
  { rewrite (sum_of_ext b_eff b_floor); [done|]. intros b H. by apply Hb. }
  rewrite sum_of_fmap. cbn [b_eff set_eff].
  pose proof (sum_floor_split bands) as Hs. unfold degraded_eff.
  assert (0 ≤ degradable_sum bands) as Hd.
  { apply sum_of_nonneg. intros x [_ Hx]%list_elem_of_filter. by apply Hb. }
  destruct (Z.ltb_spec l (protected_sum bands)) as [Hp|Hp].
  - pose proof (sum_of_shares b_floor l (sum_of b_floor bands) bands) as Hsh.
    assert (0 ≤ sum_of (λ b, b_floor b * l / sum_of b_floor bands) bands).
    { apply sum_of_nonneg. intros b H. apply Z.div_pos; [|lia].
      apply Z.mul_nonneg_nonneg; [by apply Hb|done]. }
    assert (0 < sum_of b_floor bands) by lia.
    assert (Hge : ∀ b, b ∈ bands → 0 ≤ b_floor b * l) by (intros b H'; apply Z.mul_nonneg_nonneg; [by apply Hb|done]).
    specialize (Hsh ltac:(lia) Hge). nia.
  - rewrite (sum_of_split _ (λ b, b_prio b = 0)).
    rewrite (sum_of_ext _ b_floor (filter (λ b, b_prio b = 0) bands)).
    2:{ intros b [E _]%list_elem_of_filter. by rewrite E. }
    fold (protected_sum bands).
    destruct (Z.eqb_spec (degradable_sum bands) 0) as [Hz|Hz].
    + rewrite (sum_of_ext _ (λ _, 0) (filter (λ b, b_prio b ≠ 0) bands)).
      2:{ intros b [E _]%list_elem_of_filter. by rewrite (proj2 (Z.eqb_neq _ _) E). }
      assert (sum_of (λ _, 0) (filter (λ b, b_prio b ≠ 0) bands) = 0) as ->; [|lia].
      unfold sum_of. generalize (filter (λ b, b_prio b ≠ 0) bands). clear. intros bs.
      induction bs; cbn; [done|lia].
    + rewrite (sum_of_ext _ (λ b, b_floor b * (l - protected_sum bands) / degradable_sum bands)
        (filter (λ b, b_prio b ≠ 0) bands)).
      2:{ intros b [E _]%list_elem_of_filter. by rewrite (proj2 (Z.eqb_neq _ _) E). }
      pose proof (sum_of_shares b_floor (l - protected_sum bands) (degradable_sum bands)
        (filter (λ b, b_prio b ≠ 0) bands)) as Hsh.
      assert (Hge : ∀ b, b ∈ filter (λ b, b_prio b ≠ 0) bands →
        0 ≤ b_floor b * (l - protected_sum bands)).
      { intros b [_ H]%list_elem_of_filter. apply Z.mul_nonneg_nonneg; [by apply Hb|lia]. }
      specialize (Hsh ltac:(lia) Hge). fold (degradable_sum bands) in Hsh. nia.
Qed.

Lemma fmap_filter_prio (h : Band → Z) (bands : list Band) :
  filter (λ b, b_prio b = 0) ((λ b, set_eff b (h b)) <$> bands) =
  (λ b, set_eff b (h b)) <$> filter (λ b, b_prio b = 0) bands.
Proof.
  induction bands as [|b l IH]; [done|]. rewrite fmap_cons, !filter_cons, IH. cbn [b_prio set_eff].
  by destruct (decide (b_prio b = 0)).
Qed.

(** What the declaration's unsigned fields give the derivation. *)
Record floors_ok (v : View) : Prop := {
  fl_zone z : z ∈ f_zones (v_fabric v) → 0 ≤ z_floor_mbps z;
  fl_admin : 0 ≤ f_admin_floor_mbps (v_fabric v);
  fl_wire w : w ∈ m_wires (v_member v) → 0 ≤ wire_speed w
}.

Lemma zone_elem f n z : zone f n = Ok z → z ∈ f_zones f ∧ z_name z = n.
Proof.
  unfold zone. destruct (List.find _ _) as [z'|] eqn:E; [|done]. intros [= <-].
  by apply find_Some_elem in E as [? E%String.eqb_eq].
Qed.

Lemma make_band_spec v dev up rank band label b :
  make_band v dev up (rank, (band, label)) = Ok b →
  b_minor b = (Z.of_nat rank + 1) * 10 ∧ b_prio b = band ∧ b_label b = label ∧
  b_eff b = b_floor b ∧ b_is_default b = bool_decide (b_class b = Marked Cs0) ∧
  (floors_ok v → 0 ≤ b_floor b) ∧
  (b_is_default b = true → eff_primary_dev v label up = Ok (b_effective_primary b) ∧
    (b_effective_primary b ≠ Some dev → b_floor b = 1)).
Proof.
  unfold make_band. destruct (if String.eqb label "admin" then _ else _) as [[class floor]|] eqn:Ecf;
    [|done].
  assert (Hf : floors_ok v → 0 ≤ floor).
  { intros [Hz Ha _]. destruct (String.eqb label "admin"); [by simplify_eq|].
    destruct (zone (v_fabric v) label) as [z|] eqn:Ez; cbn in Ecf; [|done]. simplify_eq.
    apply Hz. by apply (zone_elem _ _ _ Ez). }
  case_bool_decide as Hc; cbv beta iota zeta.
  - destruct (eff_primary_dev v label up) as [ep|] eqn:Ep; cbn [from_model]; [|done].
    intros [= <-]. cbn. rewrite (bool_decide_eq_true_2 (class = Marked Cs0)) by done. split_and!; try done.
    + intros H. case_bool_decide; [by apply Hf|done].
    + intros _. split; [done|]. intros Hne. by rewrite bool_decide_eq_false_2.
  - intros [= <-]. cbn. rewrite (bool_decide_eq_false_2 (class = Marked Cs0)) by done. split_and!; try done.
Qed.

Lemma collect_lookup {E A B} (g : A → result E B) l ys i y :
  collect g l = Ok ys → ys !! i = Some y → ∃ x, l !! i = Some x ∧ g x = Ok y.
Proof. intros H%collect_ok Hy. by destruct (Forall2_lookup_r _ _ _ _ _ H Hy) as (x & ? & ?); exists x. Qed.

Lemma enumerate_lookup {A} (l : list A) i j x : enumerate l !! i = Some (j, x) → j = i ∧ l !! i = Some x.
Proof.
  unfold enumerate. intros H. apply lookup_zip_Some in H as [H1 H2]. split; [|done].
  apply lookup_seq in H1. lia.
Qed.

(** The bands of one derivation before the floors are made to fit. *)
Definition raw_bands (v : View) (dev : string) (up : string → bool) : result ShapeError (list Band) :=
  zones <-? zones_on v dev ;;
  order <-? band_order v dev zones ;;
  collect (make_band v dev up) (enumerate order).

Lemma derive_inv v dev cap up d :
  derive v dev cap up = Ok d →
  ∃ src ws bands, link_capacity v dev cap = Ok (dv_l_raw d, src, ws) ∧
    dv_l d = dv_l_raw d * L_EFF_PCT / 100 ∧ raw_bands v dev up = Ok bands ∧ dv_dev d = dev ∧
    dv_bands d = (degrade dev (dv_l d) bands).1 ∧ default_of bands = Some (dv_default_minor d) ∧
    dv_sum_eff d = sum_of b_eff (dv_bands d).
Proof.
  unfold derive, raw_bands. destruct (link_capacity v dev cap) as [[[l_raw src] ws]|]; [|done].
  destruct (zones_on v dev) as [zones|]; [|done]. destruct (refuse_if _ _); [|done].
  destruct (band_order v dev zones) as [order|]; [|done].
  destruct (collect _ _) as [bands|]; [|done]. destruct (default_of bands) as [dm|] eqn:Ed; [|done].
  destruct (degrade dev _ bands) as [bands' more] eqn:Eg. intros [= <-]. cbn.
  exists src, ws, bands. by rewrite Eg.
Qed.

Lemma raw_band_spec v dev up bands i b :
  raw_bands v dev up = Ok bands → bands !! i = Some b →
  ∃ band label, make_band v dev up (i, (band, label)) = Ok b.
Proof.
  unfold raw_bands. destruct (zones_on v dev) as [zones|]; [|done].
  destruct (band_order v dev zones) as [order|]; [|done]. intros H Hb.
  destruct (collect_lookup _ _ _ _ _ H Hb) as ([j [band label]] & Hx & Hm).
  apply enumerate_lookup in Hx as [-> _]. by exists band, label.
Qed.

Lemma link_capacity_nonneg v dev cap l src ws :
  floors_ok v → link_capacity v dev cap = Ok (l, src, ws) → 0 ≤ l.
Proof.
  intros Hv. unfold link_capacity, link_speed, wire_named.
  assert (Hd : ∀ w, List.find (λ w, String.eqb (wire_name w) dev) (m_wires (v_member v)) = Some w →
    0 ≤ wire_speed w).
  { intros w [Hw _]%find_Some_elem. by apply Hv. }
  destruct cap as [c|]; [destruct (Z.ltb_spec 0 c); [intros [= <- _ _]; lia|]|];
    (destruct (List.find _ _) as [w|]; cbn; [|done]); intros [= <- _ _]; by apply Hd.
Qed.

(** C28. What the shaper guarantees never exceeds the link: whatever capacity was measured and
    whichever wires are up, the effective floors of one tree sum to at most 97 percent of the
    capacity, none is above its declared floor, the floors are untouched when they fit, and the
    control band keeps its floor in full unless it alone does not fit. *)
Theorem floors_never_exceed_link (v : View) (dev : string) (cap : option Z) (up : string → bool)
    (d : Derivation) :
  floors_ok v → derive v dev cap up = Ok d →
  0 ≤ dv_l d ≤ dv_l_raw d ∧
  dv_sum_eff d = sum_of b_eff (dv_bands d) ∧ dv_sum_eff d ≤ dv_l d ∧
  (∀ b, b ∈ dv_bands d → 0 ≤ b_eff b ≤ b_floor b) ∧
  (sum_of b_floor (dv_bands d) ≤ dv_l d → ∀ b, b ∈ dv_bands d → b_eff b = b_floor b) ∧
  (protected_sum (dv_bands d) ≤ dv_l d → ∀ b, b ∈ dv_bands d → b_prio b = 0 → b_eff b = b_floor b).
Proof.
  intros Hv Hd. destruct (derive_inv _ _ _ _ _ Hd) as (src & ws & bands & Hc & El & Hr & _ & Eb & _ & Es).
  pose proof (link_capacity_nonneg _ _ _ _ _ _ Hv Hc) as Hl0.
  assert (0 ≤ dv_l d ≤ dv_l_raw d) as Hl.
  { rewrite El. unfold L_EFF_PCT. Z.div_mod_to_equations. lia. }
  assert (Hraw : ∀ b, b ∈ bands → 0 ≤ b_floor b ∧ b_eff b = b_floor b).
  { intros b [i Hi]%list_elem_of_lookup.
    destruct (raw_band_spec _ _ _ _ _ _ Hr Hi) as (band & label & Hm).
    destruct (make_band_spec _ _ _ _ _ _ _ Hm) as (_ & _ & _ & ? & _ & ? & _). auto. }
  pose proof (degrade_fits dev (dv_l d) bands ltac:(lia) Hraw) as Hfit.
  rewrite Es, Eb. split_and!; [lia..|done|done| | |]; revert Hfit; unfold degrade;
    destruct (Z.leb_spec (sum_of b_floor bands) (dv_l d)) as [Hle|Hlt]; cbn [fst]; intros _.
  - intros b Hb. destruct (Hraw b Hb). lia.
  - intros b (b' & -> & Hb)%list_elem_of_fmap. cbn.
    apply degraded_eff_bounds; try done; [lia|]. intros x Hx. by apply Hraw.
  - intros _ b Hb. by apply Hraw.
  - rewrite sum_of_fmap. cbn [b_floor set_eff].
    change (sum_of (λ b, b_floor b) bands) with (sum_of b_floor bands). lia.
  - intros _ b Hb _. by apply Hraw.
  - intros Hp b (b' & -> & Hb)%list_elem_of_fmap Hz. cbn in Hz |- *.
    assert (protected_sum bands ≤ dv_l d) as Hp'.
    { etrans; [|exact Hp]. unfold protected_sum.
      rewrite (fmap_filter_prio _ bands), sum_of_fmap. done. }
    unfold degraded_eff. rewrite (proj2 (Z.ltb_ge _ _) Hp'), Hz. done.
Qed.

(** ** The bulk floor follows the traffic *)

#[export] Instance num_name_total : Total (leb_rel num_name_leb).
Proof.
  intros [a x] [b y]. unfold leb_rel, num_name_leb, str_leb. cbn.
  destruct (Z.ltb_spec a b); [by left|]. destruct (Z.ltb_spec b a); [by right|].
  assert (a = b) as -> by lia. rewrite Z.eqb_refl, (String.compare_antisym x y). cbn.
  destruct (String.compare y x); auto.
Qed.

Lemma num_name_le a b : leb_rel num_name_leb a b → a.1 ≤ b.1.
Proof.
  unfold leb_rel, num_name_leb. rewrite orb_true_iff, andb_true_iff, Z.ltb_lt, Z.eqb_eq. lia.
Qed.

Lemma Sorted_le_sorted (l : list (Z * string)) :
  Sorted (leb_rel num_name_leb) l → StronglySorted (λ a b, a.1 ≤ b.1) l.
Proof.
  intros H. apply Sorted_StronglySorted; [intros a b c; lia|].
  induction H as [|x l _ IH Hx]; constructor; [done|].
  destruct Hx as [|y l Hy]; constructor. by apply num_name_le.
Qed.

Lemma find_sorted_least (up : string → bool) (l : list (Z * string)) x y :
  StronglySorted (λ a b, a.1 ≤ b.1) l → List.find (λ cw, up cw.2) l = Some x →
  y ∈ l → up y.2 = true → x.1 ≤ y.1.
Proof.
  induction 1 as [|z l _ IH Hz]; cbn; [done|]. destruct (up z.2) eqn:E.
  - intros [= ->] [->|Hy]%elem_of_cons _; [done|]. rewrite list.Forall_forall in Hz. by apply Hz.
  - intros Hf [->|Hy]%elem_of_cons Hu; [congruence|]. by apply IH.
Qed.

(** The effective primary carries the zone, is up, and is the cheapest that is. *)
Lemma eff_primary_spec v z up ep rows :
  eff_primary_dev v z up = Ok ep → class_rows v = Ok rows →
  match ep with
  | Some w => up w = true ∧ ∃ r, r ∈ rows ∧ cr_zone r = z ∧ cr_wire r = w ∧
      ∀ r', r' ∈ rows → cr_zone r' = z → up (cr_wire r') = true → cr_ospf_cost r ≤ cr_ospf_cost r'
  | None => ∀ r, r ∈ rows → cr_zone r = z → up (cr_wire r) = false
  end.
Proof.
  unfold eff_primary_dev. intros He Hr. rewrite Hr in He. injection He as <-.
  set (l := (λ r, (cr_ospf_cost r, cr_wire r)) <$> filter (λ r, String.eqb (cr_zone r) z) rows).
  assert (Hl : ∀ r, r ∈ rows → cr_zone r = z → (cr_ospf_cost r, cr_wire r) ∈ l).
  { intros r Hin Ez. apply list_elem_of_fmap. exists r. split; [done|]. apply list_elem_of_filter.
    split; [|done]. by rewrite Ez, String.eqb_refl. }
  pose proof (merge_sort_Permutation (leb_rel num_name_leb) l) as Hp.
  destruct (List.find _ _) as [[c w]|] eqn:Ef; cbn [fmap option_fmap option_map snd].
  - pose proof (find_Some_elem _ _ _ Ef) as [Hin Hup]. cbn in Hup. split; [done|].
    rewrite Hp in Hin. apply list_elem_of_fmap in Hin as (r & Er & Hin). injection Er as -> ->.
    apply list_elem_of_filter in Hin as [Ez Hin]. apply Is_true_true, String.eqb_eq in Ez.
    exists r. split_and!; try done. intros r' Hr' Ez' Hu.
    eapply (find_sorted_least up _ (cr_ospf_cost r, cr_wire r) (cr_ospf_cost r', cr_wire r')); [|exact Ef| |done].
    + apply Sorted_le_sorted, Sorted_merge_sort. apply _.
    + rewrite Hp. by apply Hl.
  - rewrite find_None_iff in Ef. intros r Hin Ez.
    specialize (Ef (cr_ospf_cost r, cr_wire r)). cbn in Ef. apply Ef. rewrite Hp. by apply Hl.
Qed.

(** The bands of a tree: band [i] is class [1:10(i+1)], the htb default is a bulk (cs0)
    band of the tree, and a bulk band holds its declared floor only on its zone's effective
    primary, the cheapest wire of the zone that is up: elsewhere its floor is one. So with one
    up-set no two wires hold the full floor of one zone. *)
Theorem bulk_floor_follows_primary (v : View) (dev : string) (cap : option Z)
    (up : string → bool) (d : Derivation) (rows : list ClassRow) :
  derive v dev cap up = Ok d → class_rows v = Ok rows →
  (∀ i b, dv_bands d !! i = Some b → b_minor b = 10 * (Z.of_nat i + 1)) ∧
  (∃ b, b ∈ dv_bands d ∧ b_minor b = dv_default_minor d ∧ b_class b = Marked Cs0) ∧
  (∀ b, b ∈ dv_bands d → b_class b = Marked Cs0 → b_floor b ≠ 1 →
    up dev = true ∧ ∃ r, r ∈ rows ∧ cr_zone r = b_label b ∧ cr_wire r = dev ∧
      ∀ r', r' ∈ rows → cr_zone r' = b_label b → up (cr_wire r') = true →
        cr_ospf_cost r ≤ cr_ospf_cost r') ∧
  (∀ dev' cap' d' b b', derive v dev' cap' up = Ok d' → b ∈ dv_bands d → b' ∈ dv_bands d' →
    b_class b = Marked Cs0 → b_class b' = Marked Cs0 → b_label b = b_label b' →
    b_floor b ≠ 1 → b_floor b' ≠ 1 → dev = dev').
Proof.
  intros Hd Hr.
  assert (Hband : ∀ dev cap d i b, derive v dev cap up = Ok d → dv_bands d !! i = Some b →
    b_minor b = 10 * (Z.of_nat i + 1) ∧ b_is_default b = bool_decide (b_class b = Marked Cs0) ∧
    (b_is_default b = true → b_floor b ≠ 1 → eff_primary_dev v (b_label b) up = Ok (Some dev))).
  { clear dev cap d Hd. intros dev cap d i b Hd Hi.
    destruct (derive_inv _ _ _ _ _ Hd) as (src & ws & bands & _ & _ & Hraw & _ & Eb & _).
    assert (∃ b0 e, bands !! i = Some b0 ∧ b = set_eff b0 e) as (b0 & e & Hb0 & ->).
    { rewrite Eb in Hi. unfold degrade in Hi. destruct (_ <=? _); cbn [fst] in Hi.
      - exists b, (b_eff b). split; [done|by destruct b].
      - rewrite list_lookup_fmap in Hi. apply fmap_Some in Hi as (b0 & ? & ->). by eexists _, _. }
    destruct (raw_band_spec _ _ _ _ _ _ Hraw Hb0) as (band & label & Hm).
    destruct (make_band_spec _ _ _ _ _ _ _ Hm) as (? & _ & El & _ & ? & _ & Hep). cbn.
    split_and!; [lia|done|]. intros Hdef Hf. destruct (Hep Hdef) as [Ep H1]. rewrite El, Ep.
    destruct (decide (b_effective_primary b0 = Some dev)) as [->|]; [done|]. by destruct Hf; auto. }
  assert (Hep : ∀ dev cap d b, derive v dev cap up = Ok d → b ∈ dv_bands d →
    b_class b = Marked Cs0 → b_floor b ≠ 1 → eff_primary_dev v (b_label b) up = Ok (Some dev)).
  { intros dev' cap' d' b Hd' [i Hi]%list_elem_of_lookup Hc Hf.
    destruct (Hband _ _ _ _ _ Hd' Hi) as (_ & Hdef & He). apply He; [|done].
    by rewrite Hdef, bool_decide_eq_true_2. }
  split_and!.
  - intros i b Hi. by destruct (Hband _ _ _ _ _ Hd Hi).
  - destruct (derive_inv _ _ _ _ _ Hd) as (src & ws & bands & _ & _ & Hraw & _ & Eb & Edef & _).
    unfold default_of in Edef. apply fmap_Some in Edef as (b & Hlast & ->).
    apply list.last_Some_elem_of, list_elem_of_filter in Hlast as [Hb Hin].
    apply Is_true_true in Hb. pose proof Hin as [i Hi]%list_elem_of_lookup.
    destruct (raw_band_spec _ _ _ _ _ _ Hraw Hi) as (band & label & Hm).
    destruct (make_band_spec _ _ _ _ _ _ _ Hm) as (_ & _ & _ & _ & Hdef & _).
    rewrite Hb in Hdef. symmetry in Hdef. apply bool_decide_eq_true_1 in Hdef.
    rewrite Eb. unfold degrade. destruct (_ <=? _); cbn [fst]; [by exists b|].
    eexists. split; [apply list_elem_of_fmap; by exists b|done].
  - intros b Hb Hc Hf. pose proof (eff_primary_spec _ _ _ _ _ (Hep _ _ _ _ Hd Hb Hc Hf) Hr). done.
  - intros dev' cap' d' b b' Hd' Hb Hb' Hc Hc' El Hf Hf'.
    pose proof (Hep _ _ _ _ Hd Hb Hc Hf) as E1. pose proof (Hep _ _ _ _ Hd' Hb' Hc' Hf') as E2.
    rewrite El in E1. congruence.
Qed.

(** ** The record is read back *)

Lemma lines_of_lines ls :
  Forall (λ l, plain l = true) ls → lines (String.concat "" (line <$> ls)) = ls.
Proof.
  unfold lines. induction 1 as [|l ls Hl _ IH]; [done|].
  apply andb_true_iff in Hl as [Hlf Hcr].
  rewrite fmap_cons, concat_cons. unfold line at 1. rewrite str_app_assoc, str_app_char, split_join by done.
  destruct (split char_lf (String.concat "" (line <$> ls))) as [|p ps] eqn:E.
  - exfalso. clear -E. destruct (String.concat "" (line <$> ls)); cbn -[Ascii.eqb] in E; [done|].
    destruct (Ascii.eqb _ _); [done|]. by destruct (split _ _).
  - change (join_lines (l :: p :: ps)) with (strip_cr l :: join_lines (p :: ps)).
    by rewrite IH, strip_cr_free.
Qed.

Lemma split_whitespace_space s :
  split_whitespace (String " " s) = split_whitespace s.
Proof. done. Qed.

(** The words of a line of words, each behind a space. *)
Lemma split_whitespace_words ts :
  Forall (λ t, word t = true ∧ t ≠ EmptyString) ts →
  split_whitespace (String.concat "" ((λ t, " " ++ t)%string <$> ts)) = ts.
Proof.
  assert (Hw : ∀ t s, word t = true → t ≠ EmptyString →
    (s = EmptyString ∨ ∃ s', s = String " " s') →
    split_whitespace (t ++ s)%string = t :: split_whitespace s).
  { intros t s. unfold word. induction t as [|c t IH]; [done|]. intros H _ Hs.
    rewrite str_app_cons. cbn in H. destruct (is_whitespace c) eqn:Ec; cbn in H; [done|].
    cbn [split_whitespace]. rewrite Ec. destruct t as [|c' t].
    - destruct Hs as [->|[s' ->]]; done.
    - rewrite str_app_cons in *. cbn in H. destruct (is_whitespace c') eqn:Ec'; cbn in H; [done|].
      rewrite IH; [done| |done|done]. cbn. by rewrite Ec'. }
  induction 1 as [|t ts [H1 H2] Hts IH]; [done|].
  rewrite fmap_cons, concat_cons, str_app_assoc, str_app_char, split_whitespace_space, Hw, IH; [done..|].
  destruct ts; [by left|right]. rewrite fmap_cons, concat_cons, str_app_assoc, str_app_char. by eexists.
Qed.

(** What a record may hold: the names and classes the shaper itself writes. *)
Definition wire_ok (w : AppliedWire) : bool :=
  match w with
  | Shaped cs => all (λ cr : string * string, word cr.1 && free_of "=" cr.1 && word cr.2) cs
  | NoCarrier => true
  | Failed msg => free_of char_cr msg
  end.
Definition record_ok (a : ShapeApplied) : Prop :=
  0 ≤ sa_tick a ≤ u64_max ∧
  map_Forall (λ dev w, word dev = true ∧ wire_ok w = true) (sa_wires a).

(** A message keeps to its line: the newlines in it are spaces when it is read back. *)
Definition one_line (w : AppliedWire) : AppliedWire :=
  match w with Failed msg => Failed (replace_char char_lf " " msg) | _ => w end.

Lemma replace_plain s : free_of char_cr s = true → plain (replace_char char_lf " " s) = true.
Proof.
  unfold plain, free_of. induction s as [|c s IH]; cbn -[Ascii.eqb]; [done|].
  destruct (Ascii.eqb_spec c char_lf) as [->|Hc]; cbn -[Ascii.eqb].
  - intros H. apply andb_true_iff in H as [_ H]. specialize (IH H). apply andb_true_iff in IH as [-> ->].
    done.
  - destruct (Ascii.eqb c char_cr); cbn -[Ascii.eqb]; [done|]. intros H. specialize (IH H).
    apply andb_true_iff in IH as [-> ->]. by destruct (Ascii.eqb_spec c char_lf).
Qed.

Lemma parse_classes cs :
  Forall (λ cr : string * string, word cr.1 && free_of "=" cr.1 && word cr.2 = true) cs →
  collect parse_class
    (split_whitespace (String.concat "" ((λ cr : string * string, " " ++ cr.1 ++ "=" ++ cr.2)%string <$> cs)))
  = Ok cs ∧
  plain (String.concat "" ((λ cr : string * string, " " ++ cr.1 ++ "=" ++ cr.2)%string <$> cs)) = true.
Proof.
  intros H. set (toks := (λ cr : string * string, (cr.1 ++ "=" ++ cr.2)%string) <$> cs).
  change ((λ cr : string * string, (" " ++ cr.1 ++ "=" ++ cr.2)%string) <$> cs)
    with ((λ cr : string * string, (λ t, (" " ++ t)%string) (cr.1 ++ "=" ++ cr.2)%string) <$> cs).
  rewrite (list_fmap_compose (λ cr : string * string, (cr.1 ++ "=" ++ cr.2)%string) (λ t, (" " ++ t)%string)).
  fold toks.
  assert (Ht : Forall (λ t, word t = true ∧ t ≠ EmptyString) toks).
  { unfold toks. apply list.Forall_fmap. eapply list.Forall_impl; [exact H|]. intros [c r] Hcr. cbn [fst snd] in *.
    apply andb_true_iff in Hcr as [[Hc _]%andb_true_iff Hr].
    split.
    - cbn [fst snd]. by rewrite !word_app, Hc, Hr.
    - by destruct c. }
  split.
  - rewrite split_whitespace_words by done. unfold toks. clear Ht toks. apply collect_ok.
    induction H as [|[c r] cs Hcr _ IH]; constructor; [|done]. cbn [fst snd] in *. unfold parse_class.
    rewrite str_app_char, split_once_join; [done|].
    by apply andb_true_iff in Hcr as [[_ ?]%andb_true_iff _].
  - clear -Ht. induction Ht as [|t ts [Hw _] _ IH]; [done|]. rewrite fmap_cons, concat_cons, !plain_app, IH.
    by rewrite (word_plain t Hw).
Qed.

Lemma parse_render_wire dev w :
  word dev = true → wire_ok w = true →
  parse_wire (render_wire (dev, w)) = Ok (dev, one_line w) ∧ plain (render_wire (dev, w)) = true ∧
  trim (render_wire (dev, w)) ≠ EmptyString.
Proof.
  intros Hd Hw. split_and!; [| |by apply trim_not_empty].
  - unfold parse_wire, render_wire. rewrite strip_prefix_app. cbn [mbind option_bind].
    assert (free_of " " dev = true) as Hf by (by apply word_free_of).
    destruct w as [cs| |msg].
    + change (" shaped" ++ ?x)%string with (String " " ("shaped" ++ x)%string).
      rewrite (split_once_join " " dev) by done. cbn [String.eqb]. 
      change (String.eqb ("shaped" ++ ?x)%string "no-carrier") with false.
      change (strip_prefix "failed " ("shaped" ++ ?x)%string) with (@None string). cbv iota.
      rewrite strip_prefix_app. destruct (parse_classes cs) as [-> _]; [|done].
      cbn in Hw. unfold all in Hw. rewrite List.forallb_forall in Hw. apply list.Forall_forall.
      intros cr Hcr%list_elem_of_In. by apply Hw.
    + by rewrite (split_once_join " " dev "no-carrier").
    + change (" failed " ++ ?x)%string with (String " " ("failed " ++ x)%string).
      rewrite (split_once_join " " dev) by done.
      change (String.eqb ("failed " ++ ?x)%string "no-carrier") with false. cbv iota.
      by rewrite strip_prefix_app.
  - unfold render_wire. rewrite plain_app. change (plain "dev ") with true. cbn [andb].
    rewrite plain_app, word_plain by done. cbn [andb].
    destruct w as [cs| |msg]; [| done |].
    + rewrite plain_app. destruct (parse_classes cs) as [_ ->]; [|done].
      cbn in Hw. unfold all in Hw. rewrite List.forallb_forall in Hw. apply list.Forall_forall.
      intros cr Hcr%list_elem_of_In. by apply Hw.
    + rewrite plain_app. by rewrite replace_plain.
Qed.

Lemma parse_wires_render m l :
  NoDup (l.*1) → Forall (λ dw, word dw.1 = true ∧ wire_ok dw.2 = true) l →
  ∃ m', parse_wires m (render_wire <$> l) = Ok m' ∧
    (∀ dev w, (dev, w) ∈ l → m' !! dev = Some (one_line w)) ∧
    (∀ dev, dev ∉ l.*1 → m' !! dev = m !! dev).
Proof.
  revert m. induction l as [|[dev w] l IH]; intros m Hnd HF; cbn [fmap list_fmap parse_wires].
  { exists m. split_and!; [done|set_solver|done]. }
  apply list.NoDup_cons in Hnd as [Hn Hnd]. apply list.Forall_cons in HF as [[Hd Hw] HF]. cbn in Hd, Hw.
  destruct (parse_render_wire dev w Hd Hw) as (Hp & _ & Ht).
  rewrite bool_decide_eq_false_2 by done. rewrite Hp. cbn [fst snd].
  destruct (IH (<[dev:=one_line w]> m) Hnd HF) as (m' & -> & Hin & Hout). exists m'.
  split_and!; [done| |].
  - intros dev' w' [Eq|Hl]%elem_of_cons; [|by apply Hin]. injection Eq as -> ->.
    rewrite Hout by done. apply lookup_insert_eq.
  - intros dev' Hnot. apply not_elem_of_cons in Hnot as [Hne Hnot]. cbn in Hne.
    rewrite Hout by done. by rewrite lookup_insert_ne.
Qed.

(** The record of an apply survives the file: what [render] writes, [parse] reads back, with
    the newlines of a failure's message turned into spaces, so no message can forge a line. *)
Theorem record_roundtrip (a : ShapeApplied) :
  record_ok a →
  sa_parse (sa_render a) = Ok {| sa_tick := sa_tick a; sa_wires := one_line <$> sa_wires a |}.
Proof.
  intros [Ht Hws]. unfold sa_parse, sa_render.
  set (l := btree_iter str_leb (sa_wires a)).
  assert (HF : Forall (λ dw, word dw.1 = true ∧ wire_ok dw.2 = true) l).
  { apply list.Forall_forall. intros [dev w] Hin%elem_of_btree_iter. apply (Hws dev w Hin). }
  rewrite lines_of_lines.
  2:{ repeat constructor.
      - rewrite plain_app. by rewrite (word_plain (show _)) by (apply show_word; lia).
      - apply list.Forall_fmap. eapply list.Forall_impl; [exact HF|]. intros [dev w] [Hd Hw].
        by destruct (parse_render_wire dev w Hd Hw) as (_ & ? & _). }
  rewrite String.eqb_refl. cbn [negb head hd_error tail mbind option_bind].
  rewrite strip_prefix_app. cbn [option_bind mbind].
  rewrite trim_word, parse_uint_show by (done || apply show_word; lia).
  destruct (parse_wires_render ∅ l (btree_keys_NoDup _ _) HF) as (m & -> & Hin & Hout).
  f_equal. f_equal. apply map_eq. intros dev. rewrite lookup_fmap.
  destruct (sa_wires a !! dev) as [w|] eqn:E; cbn.
  - apply Hin. by apply elem_of_btree_iter.
  - rewrite Hout; [apply lookup_empty|]. intros H.
    change (l.*1) with (btree_keys str_leb (sa_wires a)) in H. apply elem_of_btree_keys in H.
    rewrite E in H. by destruct H.
Qed.

(** The classes the shaper records are ones the record can hold. *)
Lemma applied_classes_ok d :
  Forall (λ b, 0 ≤ b_minor b ∧ 0 ≤ b_eff b) (dv_bands d) → wire_ok (Shaped (applied_classes d)) = true.
Proof.
  intros H. cbn. unfold all, applied_classes. apply List.forallb_forall. intros cr Hcr%list_elem_of_In.
  apply list_elem_of_fmap in Hcr as (b & -> & Hb). rewrite list.Forall_forall in H.
  destruct (H b Hb) as [Hm He]. cbn [fst snd].
  assert (Hshow : ∀ n, 0 ≤ n → free_of "=" (show n) = true)
    by (intros; by apply digits_free_of, show_digits).
  rewrite word_app, free_of_app, (Hshow _ Hm), (show_word _ Hm). change (word "1:") with true. change (free_of "=" "1:") with true.
  cbn [andb].
  unfold rate_token. destruct (_ && _) eqn:G; [|destruct (1 <=? b_eff b)]; try done;
    rewrite word_app, show_word; try done. apply Z.div_pos; lia.
Qed.

(** ** Concrete inputs *)

Module ShapeSample.
(** The sample fabric with its zone as bulk and a control zone beside it, on a slow link. *)
Definition bulk : Zone :=
  {| z_name := "storage"; z_id := 10; z_pcp := 0; z_dscp := Cs0; z_floor_mbps := 700; z_band := 2;
     z_weight := 1; z_primary := "a"; z_gw := None |}.
Definition ctrl : Zone :=
  {| z_name := "ctrl"; z_id := 11; z_pcp := 6; z_dscp := Cs6; z_floor_mbps := 300; z_band := 0;
     z_weight := 1; z_primary := "a"; z_gw := None |}.
Definition fabric : Fabric :=
  let f := Sample.fabric in
  {| f_domains := f_domains f; f_members := f_members f; f_zones := [bulk; ctrl];
     f_segments := f_segments f ++
       [ {| s_ifname := "ct-a"; s_scope := OnDomain "a"; s_zone := "ctrl"; s_seg := 3; s_vid := 103 |} ];
     f_wire_prefs := []; f_leaf_cost_offset := f_leaf_cost_offset f;
     f_host_forward := false; f_forward_allow := []; f_admin_floor_mbps := 100; f_admin_band := 1;
     f_pcp_ctrl := 6; f_dscp_mark := true; f_bfd := bfd_default; f_ospf := ospf_default;
     f_bgp := bgp_default; f_run_dir := RUN_DIR; f_dns_domain := ""; f_workloads := [] |}.
Definition view : View := {| v_fabric := fabric; v_member := Sample.h1 |}.
(** 1000 Mb/s measured on [eth0]: floors of 1100 do not fit 970. *)
Definition tree : result ShapeError Derivation := derive view "eth0" (Some 1000) (λ _, true).
End ShapeSample.

Lemma shape_sample_floors : floors_ok ShapeSample.view.
Proof.
  split; [intros z Hz|done|intros w Hw]; cbn in Hz || cbn in Hw.
  - repeat (apply elem_of_cons in Hz as [->|Hz]; [done|]). by apply not_elem_of_nil in Hz.
  - repeat (apply elem_of_cons in Hw as [->|Hw]; [done|]). by apply not_elem_of_nil in Hw.
Qed.

(** The control band keeps its 300, the admin band's 100 and the bulk band's 700 share the rest:
    83 and 586. *)
Lemma floors_witness :
  (λ d, ((λ b, (b_label b, b_eff b)) <$> dv_bands d, dv_default_minor d))
    <$> (match ShapeSample.tree with Ok d => Some d | Err _ => None end)
    = Some ([("ctrl"%string, 300); ("admin"%string, 83); ("storage"%string, 586)], 30) ∧
  ∃ d, ShapeSample.tree = Ok d ∧
    0 ≤ dv_l d ≤ dv_l_raw d ∧
    dv_sum_eff d = sum_of b_eff (dv_bands d) ∧ dv_sum_eff d ≤ dv_l d ∧
    (∀ b, b ∈ dv_bands d → 0 ≤ b_eff b ≤ b_floor b) ∧
    (sum_of b_floor (dv_bands d) ≤ dv_l d → ∀ b, b ∈ dv_bands d → b_eff b = b_floor b) ∧
    (protected_sum (dv_bands d) ≤ dv_l d →
      ∀ b, b ∈ dv_bands d → b_prio b = 0 → b_eff b = b_floor b).
Proof.
  split; [by vm_compute|]. eexists. split; [vm_compute; reflexivity|].
  apply (floors_never_exceed_link ShapeSample.view "eth0" (Some 1000) (λ _, true));
    [apply shape_sample_floors|vm_compute; reflexivity].
Defined.

Lemma bulk_floor_witness :
  ∃ d rows, ShapeSample.tree = Ok d ∧ class_rows ShapeSample.view = Ok rows ∧
  (∀ i b, dv_bands d !! i = Some b → b_minor b = 10 * (Z.of_nat i + 1)) ∧
  (∃ b, b ∈ dv_bands d ∧ b_minor b = dv_default_minor d ∧ b_class b = Marked Cs0) ∧
  (∀ b, b ∈ dv_bands d → b_class b = Marked Cs0 → b_floor b ≠ 1 →
    true = true ∧ ∃ r, r ∈ rows ∧ cr_zone r = b_label b ∧ cr_wire r = "eth0"%string ∧
      ∀ r', r' ∈ rows → cr_zone r' = b_label b → true = true → cr_ospf_cost r ≤ cr_ospf_cost r') ∧
  (∀ dev' cap' d' b b', derive ShapeSample.view dev' cap' (λ _, true) = Ok d' →
    b ∈ dv_bands d → b' ∈ dv_bands d' → b_class b = Marked Cs0 → b_class b' = Marked Cs0 →
    b_label b = b_label b' → b_floor b ≠ 1 → b_floor b' ≠ 1 → "eth0"%string = dev').
Proof.
  eexists _, _. split; [vm_compute; reflexivity|]. split; [vm_compute; reflexivity|].
  apply (bulk_floor_follows_primary ShapeSample.view "eth0" (Some 1000) (λ _, true));
    vm_compute; reflexivity.
Defined.

Definition sample_record : ShapeApplied :=
  {| sa_tick := 1700000000;
     sa_wires := {["eth0" := Shaped [("1:10", "300Mbit"); ("1:20", "1Gbit")];
                   "eth1" := NoCarrier;
                   "eth2" := Failed (String char_lf "two lines")]}%string |}.

Lemma record_witness :
  record_ok sample_record ∧
  sa_parse (sa_render sample_record) =
    Ok {| sa_tick := sa_tick sample_record; sa_wires := one_line <$> sa_wires sample_record |}.
Proof.
  assert (record_ok sample_record) as H.
  { split; [vm_compute; split; discriminate|]. apply (bool_decide_unpack _). by vm_compute. }
  split; [exact H|]. exact (record_roundtrip sample_record H).
Defined.

(** A record cut off inside its tick line is not refused: it reads as an apply that shaped
    nothing, at another time. *)
Example cut_record_accepted :
  sa_parse (String.substring 0 28 (sa_render sample_record)) =
    Ok {| sa_tick := 17; sa_wires := ∅ |}.
Proof. by vm_compute. Qed.
