(* ===== verification/Supervisor.v ===== *)
(** The supervisor (src/src/supervisor/mod.rs): its three children as processes, the command
    loop that restarts them, the re-apply, and the stop sequence.

    The code is one task: between two [await]s nothing else runs in it. What can happen
    meanwhile is that a process ends, which its [wait] task reports on a channel. So the model is
    a state [Sup], one [Action] per stretch of code between two [await]s, and [Die] for the end of
    a process; an action carries what the world answered there (the clock, the pid of a fork, the
    reply of a socket) and is refused ([None]) where the code does not stand at that point, where
    the clock would go back, or where the kernel would hand out a pid that is in use. [run] plays
    a list of actions and returns the trace of what the supervisor did. *)
From Stdlib Require Import Ascii String.
From S2P Require Import Prelude Text Net Decl Fabric Child Derive Validate.
Local Open Scope Z_scope.

(** ** Constants *)

Definition EXIT_OK : Z := 0.
Definition EXIT_INTERNAL : Z := 1.
Definition EXIT_APPLY_REFUSED : Z := 3.
Definition EXIT_LOCK_HELD : Z := 4.
Definition EXIT_RELOAD : Z := 6.
Definition START_WAIT_MS : Z := 30000.
Definition POLL_MS : Z := 500.
(** src/src/commands/engine_ctl.rs *)
Definition SETTLE_MS : Z := 3000.
Definition CHILD_STOP_GRACE : Duration := from_secs 10.
(** The deadline [restart_child] writes inline. *)
Definition RESTART_WAIT : Duration := from_secs 10.

(** ** The watchdog feed *)

Inductive ApplyState := Applying (since_s : Z) | Idle.
Inductive StateRead := ReadOk | ReadFailed.

#[export] Instance StateRead_eq_dec : EqDecision StateRead.
Proof. solve_decision. Defined.

Definition should_feed (apply : ApplyState) (engine : State) (read : StateRead) : bool :=
  match apply with
  | Applying since_s => since_s <? (START_WAIT_MS + SETTLE_MS + 30000) / 1000
  | Idle =>
      match engine with
      | Running => bool_decide (read = ReadOk)
      | Starting | Restarting => true
      | Stopped => false
      end
  end.

(** [feed_during_reapply]: whether it feeds. *)
Definition feed_during_reapply (now apply_started : Instant) : bool :=
  should_feed (Applying (saturating_since now apply_started / nanos_per_sec)) Starting ReadFailed.

(** ** [wait_ready]

    What a reply of the engine's socket holds: whether it is ready, and what
    [engine_ctl::readback] says of it. No reply, or one that does not parse, is [None]. *)
Record EngineDoc := { doc_ready : bool; doc_readback : result Error unit }.

(** [None] is an exhausted fuel; [k] counts the requests. *)
Fixpoint wait_loop (fuel : nat) (req : nat → option EngineDoc) (k : nat) (waited : Z)
    : option (option EngineDoc) :=
  match fuel with
  | O => None
  | S fuel =>
      match (doc ← req k; if doc_ready doc then Some doc else None) with
      | Some doc => Some (Some doc)
      | None => if START_WAIT_MS <=? waited then Some None
                else wait_loop fuel req (S k) (waited + POLL_MS)
      end
  end.
Definition WAIT_TURNS : nat := 61.
Definition wait_ready (req : nat → option EngineDoc) : option (option EngineDoc) :=
  wait_loop WAIT_TURNS req 0 0.

(** ** How a child died *)

(** [ExitStatus] of a process: its code, or the signal that killed it, and the name the [nix]
    crate has for that signal. *)
Inductive ExitStatus := Exit (code : Z) | Killed (sig : Z) | OtherStatus.

Definition cause_of (sig_name : Z → option string) (status : option ExitStatus) : string :=
  match status with
  | Some (Exit code) =>
      if (code =? 5)%Z then "exit 5 (supervisor vanished at spawn)" else "exit " ++ show_signed code
  | Some (Killed sig) =>
      match sig_name sig with
      | Some name => "signal " ++ name
      | None => "signal " ++ show_signed sig
      end
  | Some OtherStatus | None => "unknown"
  end%string.

(** ** The reload decision *)

Inductive Reload := Identical | Changed | Invalid (why : string).

Section reload.
(** The text of [fabric.toml] is read by the toml crate; a refusal's wording is not modelled. *)
Context (parse : string → result Error Declaration) (refusal_error : Refusal → Error).

Definition from_refusal {A} (r : result Refusal A) : result Error A :=
  match r with Ok a => Ok a | Err e => Err (refusal_error e) end.

Definition parse_for_member (member_ : string) (text : string) : result Error Fabric :=
  decl <-? parse text ;;
  next <-? from_refusal (from_decl decl) ;;
  from_refusal (member next member_) ;;? Ok next.

Definition classify_reload (current : Fabric) (member_ config text : string) : Reload :=
  match parse_for_member member_ text with
  | Err (Config msg) => Invalid (config ++ ": " ++ msg)
  | Err e => Invalid (config ++ ": " ++ display e)
  | Ok next => if decide (next = current) then Identical else Changed
  end%string.

(** [read]: what reading the file gave. *)
Definition read_reload (view : View) (config : string) (read : result string string) : Reload :=
  match read with
  | Ok text => classify_reload (v_fabric view) (m_name (v_member view)) config text
  | Err e => Invalid ("cannot read " ++ config ++ ": " ++ e)%string
  end.
End reload.

(** ** State

    [Shared]: the entries the command loop writes. The relays', the actor's and the prober's are
    in [Relay], [Actor] and [Prober]. The children are in the order of the [Vec]. *)
Record Children := { engine : Child; shape_daemon : Child; conf_sync : Child }.

Definition child (cs : Children) (n : ChildName) : Child :=
  match n with Engine => engine cs | ShapeDaemon => shape_daemon cs | ConfSync => conf_sync cs end.

(** [*child_mut(n) = c]. *)
Definition child_set (cs : Children) (n : ChildName) (c : Child) : Children :=
  match n with
  | Engine => {| engine := c; shape_daemon := shape_daemon cs; conf_sync := conf_sync cs |}
  | ShapeDaemon => {| engine := engine cs; shape_daemon := c; conf_sync := conf_sync cs |}
  | ConfSync => {| engine := engine cs; shape_daemon := shape_daemon cs; conf_sync := c |}
  end.

Record Shared := {
  sh_pid : Z; sh_started_at : Instant; sh_applying : bool; sh_apply_started_at : option Instant;
  sh_applies : Z; sh_last_apply_error : option string; sh_children : Children
}.

Definition shared_new (pid : Z) (now : Instant) : Shared :=
  {| sh_pid := pid; sh_started_at := now; sh_applying := false; sh_apply_started_at := None;
     sh_applies := 0; sh_last_apply_error := None;
     sh_children := {| engine := child_new Engine; shape_daemon := child_new ShapeDaemon;
                       conf_sync := child_new ConfSync |} |}.

(** Where [restart_child n] stands: about to look for the old process, waiting for the exit of
    [pid], or about to launch. *)
Inductive Stage :=
| RBegin
| RWait (pid : Z) (deadline : Instant) (killed : bool)
| RLaunch.

(** Where the task stands. *)
Inductive Phase :=
| Fresh
| Locked
| Applied
| AwaitReady
| Engaged
| Serving
| Reapply (n : ChildName) (stage : Stage) (todo : list ChildName) (started : Instant) (reply : bool)
| StopBegin (reload : bool)
| Stopping (reload : bool) (deadline : Instant) (targets : list (ChildName * Z)) (alive : list ChildName)
| Exited (code : Z).

Record Sup := {
  s_shared : Shared;
  s_pending : list (ChildName * Instant);
  s_exits : list (ChildName * string);   (* the channel of [ChildExit] *)
  s_live : gmap Z ChildName;             (* the child processes the kernel runs *)
  s_phase : Phase;
  s_now : Instant                        (* the last reading of the clock *)
}.

Definition sup_init (pid : Z) (now : Instant) : Sup :=
  {| s_shared := shared_new pid now; s_pending := []; s_exits := []; s_live := ∅;
     s_phase := Fresh; s_now := now |}.

Inductive Signal := SIGTERM | SIGKILL.

(** What the supervisor does to the world, and in [GaveUp] the one thing worth naming that it
    does not do: go on waiting for the process it is restarting. *)
Inductive Event :=
| EvSpawned (n : ChildName) (pid : Z)
| EvSpawnFailed (n : ChildName)
| EvExit (n : ChildName) (cause : string)
| EvGaveUp (n : ChildName)
| EvSignal (pid : Z) (sig : Signal)
| EvFeed
| EvReply (r : result string unit)
| EvReady
| EvStopping
| EvForwardingOff
| EvTeardown.

(** ** Field updates *)

Definition set_shared (s : Sup) (x : Shared) : Sup :=
  {| s_shared := x; s_pending := s_pending s; s_exits := s_exits s; s_live := s_live s;
     s_phase := s_phase s; s_now := s_now s |}.
Definition set_pending (s : Sup) (x : list (ChildName * Instant)) : Sup :=
  {| s_shared := s_shared s; s_pending := x; s_exits := s_exits s; s_live := s_live s;
     s_phase := s_phase s; s_now := s_now s |}.
Definition set_exits (s : Sup) (x : list (ChildName * string)) : Sup :=
  {| s_shared := s_shared s; s_pending := s_pending s; s_exits := x; s_live := s_live s;
     s_phase := s_phase s; s_now := s_now s |}.
Definition set_live (s : Sup) (x : gmap Z ChildName) : Sup :=
  {| s_shared := s_shared s; s_pending := s_pending s; s_exits := s_exits s; s_live := x;
     s_phase := s_phase s; s_now := s_now s |}.
Definition set_phase (s : Sup) (x : Phase) : Sup :=
  {| s_shared := s_shared s; s_pending := s_pending s; s_exits := s_exits s; s_live := s_live s;
     s_phase := x; s_now := s_now s |}.
Definition set_now (s : Sup) (x : Instant) : Sup :=
  {| s_shared := s_shared s; s_pending := s_pending s; s_exits := s_exits s; s_live := s_live s;
     s_phase := s_phase s; s_now := x |}.

Definition the_child (s : Sup) (n : ChildName) : Child := child (sh_children (s_shared s)) n.
Definition put_child (s : Sup) (n : ChildName) (c : Child) : Sup :=
  let sh := s_shared s in
  set_shared s
    {| sh_pid := sh_pid sh; sh_started_at := sh_started_at sh; sh_applying := sh_applying sh;
       sh_apply_started_at := sh_apply_started_at sh; sh_applies := sh_applies sh;
       sh_last_apply_error := sh_last_apply_error sh;
       sh_children := child_set (sh_children sh) n c |}.
Definition set_apply (s : Sup) (applying : bool) (at_ : option Instant) (applies : Z)
    (err : option string) : Sup :=
  let sh := s_shared s in
  set_shared s
    {| sh_pid := sh_pid sh; sh_started_at := sh_started_at sh; sh_applying := applying;
       sh_apply_started_at := at_; sh_applies := applies; sh_last_apply_error := err;
       sh_children := sh_children sh |}.

(** [pending.retain(|(m, _)| *m != n)]. *)
Definition retain_not (n : ChildName) (p : list (ChildName * Instant)) : list (ChildName * Instant) :=
  filter (λ q, q.1 ≠ n) p.

(** [Shared::mark_stopped]. *)
Definition mark_stopped (s : Sup) (n : ChildName) (why : string) : Sup :=
  let c := the_child s n in
  put_child s n
    {| c_name := c_name c; c_state := Stopped; c_want := false; c_restarts := c_restarts c;
       c_why_stopped := Some why; c_pid := c_pid c; c_started_at := c_started_at c;
       c_last_exit := c_last_exit c; c_exited_at := c_exited_at c; c_log := c_log c |}.

(** ** The steps of the code *)

(** A step gives the state after it and what was done, unless it is not possible. *)
Definition Step : Type := option (Sup * list Event).

Definition then_ (x : Step) (k : Sup → Step) : Step :=
  match x with
  | None => None
  | Some (s, e) => match k s with None => None | Some (s', e') => Some (s', e ++ e') end
  end.

Notation "s <~ x ;; k" := (then_ x (λ s, k))
  (at level 100, x at next level, k at level 200, right associativity) : cfab_scope.

Definition emit (s : Sup) (e : list Event) : Step := Some (s, e).

(** [Instant::now()]: the clock is monotonic. *)
Definition reads (s : Sup) (t : Instant) : Step :=
  if s_now s <=? t then Some (set_now s t, []) else None.

(** What one fork answered, and the clock after it. *)
Record LaunchIo := { l_spawn : result string Z; l_at : Instant }.

Definition needs_readiness (n : ChildName) : bool := bool_decide (n = Engine).

Definition launch (n : ChildName) (io : LaunchIo) (s : Sup) : Step :=
  let s := put_child s n (set_want (the_child s n) true) in
  s <~ reads s (l_at io) ;;
  match l_spawn io with
  | Ok pid =>
      if decide (is_Some (s_live s !! pid)) then None
      else
        let s := put_child s n (spawned (the_child s n) pid (l_at io) (needs_readiness n)) in
        emit (set_live s (<[pid := n]> (s_live s))) [EvSpawned n pid]
  | Err e =>
      let s := put_child s n (exited (the_child s n) ("spawn failed: " ++ e) (l_at io)).1 in
      emit (set_pending s (retain_not n (s_pending s) ++ [(n, l_at io + BACKOFF)])) [EvSpawnFailed n]
  end.

Fixpoint launch_all (ns : list ChildName) (ios : list LaunchIo) (s : Sup) : Step :=
  match ns, ios with
  | [], [] => emit s []
  | n :: ns, io :: ios => s <~ launch n io s ;; launch_all ns ios s
  | _, _ => None
  end.

(** The body of the [exit_rx.recv()] arm, and of [restart_child] for another child's exit. *)
Definition on_exit (n : ChildName) (cause : string) (now : Instant) (s : Sup) : Step :=
  let '(c, respawn) := exited (the_child s n) cause now in
  let s := put_child s n c in
  emit (match respawn with
        | Some _ => set_pending s (retain_not n (s_pending s) ++ [(n, now + BACKOFF)])
        | None => s
        end) [EvExit n cause].

(** [child_mut(n).exited(cause, now)] with the respawn instant dropped. *)
Definition note_exit (n : ChildName) (cause : string) (now : Instant) (s : Sup) : Step :=
  emit (put_child s n (exited (the_child s n) cause now).1) [EvExit n cause].

(** The respawn arm. *)
Definition respawn_due (now : Instant) (ios : list LaunchIo) (s : Sup) : Step :=
  s <~ reads s now ;;
  let due := (filter (λ p : ChildName * Instant, p.2 ≤ now) (s_pending s)).*1 in
  launch_all due ios (set_pending s (filter (λ p : ChildName * Instant, now < p.2) (s_pending s))).

(** *** The stop sequence *)

Definition begin_stop (reload : bool) (s : Sup) : Step :=
  emit (set_phase s (StopBegin reload)) [].

(** [for c in &mut st.children { c.want = false }]. *)
Definition unwant (n : ChildName) (s : Sup) : Sup := put_child s n (set_want (the_child s n) false).
Definition unwant_all (s : Sup) : Sup := unwant ConfSync (unwant ShapeDaemon (unwant Engine s)).

(** The children that have a process, in the order of the [Vec]. *)
Definition targets_of (s : Sup) : list (ChildName * Z) :=
  omap (λ n, p ← c_pid (the_child s n); Some (n, p)) [Engine; ShapeDaemon; ConfSync].

(** Steps 1 to 3: nobody is wanted, forwarding is off, every child is asked to go. *)
Definition stop_signal (t : Instant) (stop_grace : Duration) (reload : bool) (s : Sup) : Step :=
  let s := unwant_all s in
  let targets := targets_of s in
  s <~ reads s t ;;
  emit (set_phase s (Stopping reload (t + stop_grace) targets targets.*1))
       ([EvStopping; EvForwardingOff] ++ ((λ np, EvSignal np.2 SIGTERM) <$> targets)).

(** What a [timeout(_, exit_rx.recv())] gave: the first exit on the channel, or nothing before the
    deadline; and the clock after it. *)
Inductive Waited := Got (t : Instant) | Elapsed (t : Instant).

(** Steps 4 to 6. *)
Definition finish_stop (reload : bool) (targets : list (ChildName * Z)) (alive : list ChildName)
    (s : Sup) : Step :=
  emit (set_phase s (Exited (if reload then EXIT_RELOAD else EXIT_OK)))
       (((λ np, EvSignal np.2 SIGKILL) <$> filter (λ np, np.1 ∈ alive) targets) ++ [EvTeardown]).

(** One turn of the loop of step 4; [w] is [None] where the turn does not wait. *)
Definition stop_turn (t : Instant) (w : option Waited) (reload : bool) (deadline : Instant)
    (targets : list (ChildName * Z)) (alive : list ChildName) (s : Sup) : Step :=
  if decide (alive = []) then finish_stop reload targets alive s
  else
    s <~ reads s t ;;
    if deadline <=? t then finish_stop reload targets alive s
    else match w with
    | None => None
    | Some (Elapsed t') => s <~ reads s t' ;; finish_stop reload targets alive s
    | Some (Got t') =>
        s <~ reads s t' ;;
        match s_exits s with
        | [] => None
        | (n, cause) :: q =>
            s <~ note_exit n cause t' (set_exits s q) ;;
            emit (set_phase s (Stopping reload deadline targets (filter (λ m, m ≠ n) alive))) []
        end
    end.

(** *** The re-apply *)

(** The next of [do_reapply]'s restarts, or its end. *)
Definition next_restart (todo : list ChildName) (started : Instant) (reply : bool) (s : Sup) : Step :=
  match todo with
  | n :: todo => emit (set_phase s (Reapply n RBegin todo started reply)) []
  | [] =>
      let s := set_apply s false (sh_apply_started_at (s_shared s)) (sh_applies (s_shared s) + 1) None in
      emit (set_phase s Serving) (if reply then [EvReply (Ok tt)] else [])
  end.

(** The head of [restart_child]: the old process, if there is one, is asked to go. *)
Definition restart_begin (t : Instant) (n : ChildName) (todo : list ChildName) (started : Instant)
    (reply : bool) (s : Sup) : Step :=
  match c_pid (the_child s n) with
  | None => emit (set_phase s (Reapply n RLaunch todo started reply)) []
  | Some p =>
      s <~ reads s t ;;
      emit (set_phase s (Reapply n (RWait p (t + RESTART_WAIT) false) todo started reply))
           [EvSignal p SIGTERM]
  end.

(** One turn of the wait of [restart_child]. *)
Definition restart_wait (t : Instant) (w : option Waited) (n : ChildName) (p : Z)
    (deadline : Instant) (killed : bool) (todo : list ChildName) (started : Instant) (reply : bool)
    (s : Sup) : Step :=
  let stop_waiting s := emit (set_phase s (Reapply n RLaunch todo started reply)) [EvGaveUp n] in
  s <~ reads s t ;;
  if deadline <=? t then stop_waiting s
  else match w with
  | None => None
  | Some (Elapsed t') =>
      s <~ reads s t' ;;
      if killed then stop_waiting s
      else emit (set_phase s (Reapply n (RWait p deadline true) todo started reply))
                [EvSignal p SIGKILL]
  | Some (Got t') =>
      s <~ reads s t' ;;
      match s_exits s with
      | [] => None
      | (m, cause) :: q =>
          if decide (m = n) then
            s <~ note_exit n cause t' (set_exits s q) ;;
            emit (set_phase s (Reapply n RLaunch todo started reply)) []
          else on_exit m cause t' (set_exits s q)
      end
  end.

(** The tail of [restart_child], the feed that follows it in [do_reapply], and the next one. *)
Definition restart_launch (io : LaunchIo) (fed_at : Instant) (n : ChildName) (todo : list ChildName)
    (started : Instant) (reply : bool) (s : Sup) : Step :=
  s <~ launch n io (set_pending s (retain_not n (s_pending s))) ;;
  s <~ reads s fed_at ;;
  s <~ emit s (if feed_during_reapply fed_at started then [EvFeed] else []) ;;
  next_restart todo started reply s.

(** What [apply::run] did, with the clock before it and after it. *)
Record ApplyIo := { ap_at : Instant; ap_result : result Error unit; ap_done_at : Instant }.

Definition replied (reply : bool) (r : result string unit) : list Event :=
  if reply then [EvReply r] else [].

(** [do_reapply] up to its first restart. *)
Definition do_reapply (host : bool) (io : ApplyIo) (reply : bool) (s : Sup) : Step :=
  s <~ reads s (ap_at io) ;;
  let s := set_apply s true (Some (ap_at io)) (sh_applies (s_shared s))
             (sh_last_apply_error (s_shared s)) in
  s <~ reads s (ap_done_at io) ;;
  match ap_result io with
  | Err e =>
      let s := set_apply s false (sh_apply_started_at (s_shared s)) (sh_applies (s_shared s))
                 (Some (display e)) in
      emit s (replied reply (Err (display e)))
  | Ok _ =>
      s <~ emit s (if feed_during_reapply (ap_done_at io) (ap_at io) then [EvFeed] else []) ;;
      emit (set_phase s (Reapply Engine RBegin (if host then [ShapeDaemon] else []) (ap_at io) reply)) []
  end.

(** The three outcomes of a SIGHUP or a [reapply] request. *)
Definition on_reload (host : bool) (r : Reload) (io : ApplyIo) (reply : bool) (s : Sup) : Step :=
  match r with
  | Identical => do_reapply host io reply s
  | Changed => s <~ emit s (replied reply (Ok tt)) ;; begin_stop true s
  | Invalid why =>
      let e := display (Config ("reload refused, keeping the running fabric: " ++ why)) in
      let sh := s_shared s in
      emit (set_apply s (sh_applying sh) (sh_apply_started_at sh) (sh_applies sh) (Some e))
           (replied reply (Err e))
  end.

(** *** Start *)

(** The run directory, the lock, the socket's other owner, and the bind, in that order. *)
Definition acquire (dir_ok lock_free sock_free bound : bool) (s : Sup) : Step :=
  let exit code := emit (set_phase s (Exited code)) [] in
  if negb dir_ok then exit EXIT_INTERNAL
  else if negb lock_free then exit EXIT_LOCK_HELD
  else if negb sock_free then exit EXIT_LOCK_HELD
  else if negb bound then exit EXIT_INTERNAL
  else emit (set_phase s Locked) [].

Definition initial_apply (io : ApplyIo) (s : Sup) : Step :=
  s <~ reads s (ap_at io) ;;
  let s := set_apply s true (Some (ap_at io)) (sh_applies (s_shared s))
             (sh_last_apply_error (s_shared s)) in
  s <~ reads s (ap_done_at io) ;;
  match ap_result io with
  | Ok _ =>
      let sh := s_shared s in
      emit (set_phase (set_apply s false (sh_apply_started_at sh) (sh_applies sh + 1)
                        (sh_last_apply_error sh)) Applied) []
  | Err _ => emit (set_phase s (Exited EXIT_APPLY_REFUSED)) []
  end.

Definition launch_engine (io : LaunchIo) (s : Sup) : Step :=
  s <~ launch Engine io s ;; emit (set_phase s AwaitReady) [].

(** What follows [wait_ready]; [None] only where that ran out of fuel. *)
Definition after_wait (w : option (option EngineDoc)) (s : Sup) : Step :=
  match w with
  | None => None
  | Some None => emit (set_phase s Engaged) []
  | Some (Some doc) =>
      let s := put_child s Engine (became_ready (the_child s Engine)) in
      match doc_readback doc with
      | Ok _ => emit (set_phase s Engaged) []
      | Err _ =>
          emit (set_phase s (Exited EXIT_APPLY_REFUSED))
               match c_pid (the_child s Engine) with Some p => [EvSignal p SIGTERM] | None => [] end
      end
  end.
Definition engine_ready (req : nat → option EngineDoc) (s : Sup) : Step :=
  after_wait (wait_ready req) s.

(** A child whose predicate is false is marked stopped; its launch's answer is then not read. *)
Definition launch_if (c : bool) (n : ChildName) (why : string) (io : LaunchIo) (s : Sup) : Step :=
  if c then launch n io s else emit (mark_stopped s n why) [].

Definition launch_rest (host clustered : bool) (shape sync : LaunchIo) (s : Sup) : Step :=
  s <~ launch_if host ShapeDaemon "not a host" shape s ;;
  s <~ launch_if clustered ConfSync "not clustered" sync s ;;
  emit (set_phase s Serving) [EvReady].

(** *** Ticks of the loop *)

(** [applying] is aged at the reading [t]. *)
Definition feed_tick (t : Instant) (read : StateRead) (s : Sup) : Step :=
  s <~ reads s t ;;
  let sh := s_shared s in
  let apply := if sh_applying sh
               then Applying (unwrap_or ((λ t0, saturating_since t t0 / nanos_per_sec)
                                           <$> sh_apply_started_at sh) 0)
               else Idle in
  let st := c_state (the_child s Engine) in
  let read := if decide (st = Running) then read else ReadFailed in
  emit s (if should_feed apply st read then [EvFeed] else []).

(** [ready]: the socket answered, and the document says ready. *)
Definition ready_tick (ready : bool) (s : Sup) : Step :=
  let c := the_child s Engine in
  emit (if decide (c_state c = Starting) then (if ready then put_child s Engine (became_ready c) else s)
        else s) [].

(** ** Runs *)

Inductive Action :=
| Die (pid : Z) (cause : string)
| Log (n : ChildName) (line : string)
| Acquire (dir_ok lock_free sock_free bound : bool)
| InitialApply (io : ApplyIo)
| LaunchEngine (io : LaunchIo)
| EngineReady (req : nat → option EngineDoc)
| LaunchRest (shape sync : LaunchIo)
| TakeExit (t : Instant)
| RespawnDue (t : Instant) (ios : list LaunchIo)
| TakeReload (read : result string string) (io : ApplyIo) (reply : bool)
| Terminate
| FeedTick (t : Instant) (read : StateRead)
| ReadyTick (ready : bool)
| RestartBegin (t : Instant)
| RestartWait (t : Instant) (w : option Waited)
| RestartLaunch (io : LaunchIo) (fed_at : Instant)
| StopSignal (t : Instant)
| StopTurn (t : Instant) (w : option Waited).

(** The end of a process: its [wait] task reports it. *)
Definition die (pid : Z) (cause : string) (s : Sup) : Step :=
  match s_live s !! pid with
  | Some n => emit (set_exits (set_live s (delete pid (s_live s))) (s_exits s ++ [(n, cause)])) []
  | None => None
  end.

Section runs.
(** The member, whether it is clustered, and how a declaration's text is read. *)
Context (view : View) (config : string) (clustered : bool) (stop_grace : Duration)
        (parse : string → result Error Declaration) (refusal_error : Refusal → Error).

Definition is_host : bool := bool_decide (m_kind (v_member view) = Host).

Definition step (a : Action) (s : Sup) : Step :=
  match a, s_phase s with
  | Die pid cause, _ => die pid cause s
  | Log n line, _ => emit (put_child s n (push_log (the_child s n) line)) []
  | Acquire d l f b, Fresh => acquire d l f b s
  | InitialApply io, Locked => initial_apply io s
  | LaunchEngine io, Applied => launch_engine io s
  | EngineReady req, AwaitReady => engine_ready req s
  | LaunchRest shape sync, Engaged => launch_rest is_host clustered shape sync s
  | TakeExit t, Serving =>
      s <~ reads s t ;;
      match s_exits s with
      | [] => None
      | (n, cause) :: q => on_exit n cause t (set_exits s q)
      end
  | RespawnDue t ios, Serving => respawn_due t ios s
  | TakeReload read io reply, Serving =>
      on_reload is_host (read_reload parse refusal_error view config read) io reply s
  | Terminate, Serving => begin_stop false s
  | FeedTick t read, Serving => feed_tick t read s
  | ReadyTick ready, Serving => ready_tick ready s
  | RestartBegin t, Reapply n RBegin todo started reply => restart_begin t n todo started reply s
  | RestartWait t w, Reapply n (RWait p deadline killed) todo started reply =>
      restart_wait t w n p deadline killed todo started reply s
  | RestartLaunch io fed_at, Reapply n RLaunch todo started reply =>
      restart_launch io fed_at n todo started reply s
  | StopSignal t, StopBegin reload => stop_signal t stop_grace reload s
  | StopTurn t w, Stopping reload deadline targets alive =>
      stop_turn t w reload deadline targets alive s
  | _, _ => None
  end.

Fixpoint run (acts : list Action) (s : Sup) : Step :=
  match acts with
  | [] => emit s []
  | a :: acts => s <~ step a s ;; run acts s
  end.
End runs.

(** ** Reading a step backwards *)

Lemma then_some x k s' e :
  then_ x k = Some (s', e) →
  ∃ s1 e1 e2, x = Some (s1, e1) ∧ k s1 = Some (s', e2) ∧ e = e1 ++ e2.
Proof.
  unfold then_. destruct x as [[s1 e1]|]; [|done]. destruct (k s1) as [[s2 e2]|] eqn:E; [|done].
  intros [= <- <-]. by exists s1, e1, e2.
Qed.

Lemma reads_some s t s' e : reads s t = Some (s', e) → s' = set_now s t ∧ e = [] ∧ s_now s ≤ t.
Proof. unfold reads. destruct (Z.leb_spec (s_now s) t); [|done]. by intros [= <- <-]. Qed.

(** Takes a successful step apart, one construct of the step language at a time. *)
Ltac step_inv1 :=
  match goal with
  | H : then_ _ _ = Some (_, _) |- _ =>
      let s1 := fresh "s1" in let e1 := fresh "e1" in let e2 := fresh "e2" in
      let H1 := fresh "H" in let H2 := fresh "H" in
      apply then_some in H as (s1 & e1 & e2 & H1 & H2 & ->)
  | H : reads _ _ = Some (_, _) |- _ =>
      let Ht := fresh "Ht" in apply reads_some in H as (-> & -> & Ht)
  | H : emit _ _ = Some (_, _) |- _ => unfold emit in H; injection H as <- <-
  | H : None = Some _ |- _ => discriminate H
  | H : Some (_, _) = Some (_, _) |- _ => injection H as <- <-
  | H : (let _ := _ in _) = Some (_, _) |- _ => cbv zeta in H
  | H : (if ?b then _ else _) = Some (_, _) |- _ => destruct b eqn:?
  | H : match ?x with _ => _ end = Some (_, _) |- _ => destruct x eqn:?
  end.
Ltac step_inv := repeat (step_inv1; cbv beta in *; try discriminate).

(** ** What the invariants look at *)

Lemma the_child_put_eq s n c : the_child (put_child s n c) n = c.
Proof. by destruct n. Qed.
Lemma the_child_put_ne s n m c : m ≠ n → the_child (put_child s n c) m = the_child s m.
Proof. by destruct n, m. Qed.

(** A child and the other fields of the state are read past each other's updates. *)
Create Rewrite HintDb sup.
Arguments the_child : simpl never.
Arguments put_child : simpl never.

Lemma put_pending s n c : s_pending (put_child s n c) = s_pending s.
Proof. done. Qed.
Lemma put_exits s n c : s_exits (put_child s n c) = s_exits s.
Proof. done. Qed.
Lemma put_live s n c : s_live (put_child s n c) = s_live s.
Proof. done. Qed.
Lemma put_phase s n c : s_phase (put_child s n c) = s_phase s.
Proof. done. Qed.
Lemma put_now s n c : s_now (put_child s n c) = s_now s.
Proof. done. Qed.
Lemma child_pending s n x : the_child (set_pending s x) n = the_child s n.
Proof. done. Qed.
Lemma child_exits s n x : the_child (set_exits s x) n = the_child s n.
Proof. done. Qed.
Lemma child_live s n x : the_child (set_live s x) n = the_child s n.
Proof. done. Qed.
Lemma child_phase s n x : the_child (set_phase s x) n = the_child s n.
Proof. done. Qed.
Lemma child_now s n x : the_child (set_now s x) n = the_child s n.
Proof. done. Qed.
Lemma child_apply s n a b c d : the_child (set_apply s a b c d) n = the_child s n.
Proof. done. Qed.
#[export] Hint Rewrite put_pending put_exits put_live put_phase put_now child_pending child_exits
  child_live child_phase child_now child_apply the_child_put_eq : sup.
#[export] Hint Rewrite the_child_put_ne using done : sup.
Ltac sup := repeat progress (cbn in *; autorewrite with sup in *).

(** The fields of a child that do not record the past. *)
Definition core (c : Child) : State * bool * option Z * Z :=
  (c_state c, c_want c, c_pid c, c_restarts c).
Definition pids (c : Child) : nat := match c_pid c with Some _ => 1 | None => 0 end.
Definition pending_of (n : ChildName) (p : list (ChildName * Instant)) : list (ChildName * Instant) :=
  filter (λ q, q.1 = n) p.
Definition procs (n : ChildName) (m : gmap Z ChildName) : nat := size (filter (λ p, p.2 = n) m).
Definition queued (n : ChildName) (q : list (ChildName * string)) : nat :=
  length (filter (λ e, e.1 = n) q).

(** The processes of a child whose exit has not been taken: running, or reported and waiting. *)
Definition outstanding (n : ChildName) (s : Sup) : nat := (procs n (s_live s) + queued n (s_exits s))%nat.

Definition launching (n : ChildName) (ph : Phase) : bool :=
  match ph with Reapply m RLaunch _ _ _ => bool_decide (m = n) | _ => false end.
Definition active (ph : Phase) : bool :=
  match ph with StopBegin _ | Stopping _ _ _ _ | Exited _ => false | _ => true end.

Definition is_gave_up (n : ChildName) (e : Event) : bool :=
  match e with EvGaveUp m => bool_decide (m = n) | _ => false end.
Definition is_attempt (n : ChildName) (e : Event) : bool :=
  match e with EvSpawned m _ | EvSpawnFailed m => bool_decide (m = n) | _ => false end.
Definition count_events (p : Event → bool) (tr : list Event) : nat := length (List.filter p tr).
Definition gave_up (n : ChildName) : list Event → nat := count_events (is_gave_up n).
Definition attempts (n : ChildName) : list Event → nat := count_events (is_attempt n).

Lemma count_events_app p a b : count_events p (a ++ b) = (count_events p a + count_events p b)%nat.
Proof. unfold count_events. by rewrite List.filter_app, length_app. Qed.
Lemma gave_up_app n a b : gave_up n (a ++ b) = (gave_up n a + gave_up n b)%nat.
Proof. apply count_events_app. Qed.
Lemma attempts_app n a b : attempts n (a ++ b) = (attempts n a + attempts n b)%nat.
Proof. apply count_events_app. Qed.

Arguments queued : simpl never.
Arguments procs : simpl never.
Arguments pending_of : simpl never.
Arguments retain_not : simpl never.

(** *** Counting processes *)

Lemma procs_insert n m pid l :
  l !! pid = None → procs n (<[pid := m]> l) = ((if decide (m = n) then 1 else 0) + procs n l)%nat.
Proof.
  intros H. unfold procs. destruct (decide (m = n)) as [E|E].
  - rewrite map_filter_insert_True by done. rewrite map_size_insert_None; [done|].
    by apply map_lookup_filter_None; left.
  - rewrite map_filter_insert_False by done. by rewrite delete_id.
Qed.

Lemma procs_delete n m pid l :
  l !! pid = Some m → procs n l = ((if decide (m = n) then 1 else 0) + procs n (delete pid l))%nat.
Proof.
  intros H. rewrite <-(insert_delete_id l pid m H) at 1.
  by rewrite procs_insert by apply lookup_delete_eq.
Qed.

Lemma procs_pos n pid l : l !! pid = Some n → (0 < procs n l)%nat.
Proof. intros H. rewrite (procs_delete n n pid l H). destruct (decide (n = n)); [lia|done]. Qed.

Lemma procs_zero n pid l : procs n l = 0%nat → l !! pid ≠ Some n.
Proof. intros H Hl. pose proof (procs_pos n pid l Hl). lia. Qed.

Lemma queued_app n a b : queued n (a ++ b) = (queued n a + queued n b)%nat.
Proof. unfold queued. by rewrite list.filter_app, length_app. Qed.
Lemma queued_cons n m c q :
  queued n ((m, c) :: q) = ((if decide (m = n) then 1 else 0) + queued n q)%nat.
Proof. unfold queued. rewrite filter_cons. cbn. by destruct (decide (m = n)). Qed.

(** *** Pending respawns *)

Lemma pending_of_app n a b : pending_of n (a ++ b) = pending_of n a ++ pending_of n b.
Proof. apply list.filter_app. Qed.
Lemma pending_of_retain n p : pending_of n (retain_not n p) = [].
Proof.
  unfold pending_of, retain_not. induction p as [|q p IH]; [done|].
  rewrite filter_cons. destruct (decide (q.1 ≠ n)); [|done].
  rewrite filter_cons. by destruct (decide (q.1 = n)).
Qed.
Lemma pending_of_retain_ne n m p : m ≠ n → pending_of m (retain_not n p) = pending_of m p.
Proof.
  intros Hne. unfold pending_of, retain_not. induction p as [|q p IH]; [done|].
  rewrite !(filter_cons _ q p). destruct (decide (q.1 ≠ n)) as [|E%dec_stable].
  - rewrite filter_cons. by rewrite IH.
  - rewrite IH. destruct (decide (q.1 = m)); [congruence|done].
Qed.

Lemma pending_of_push n m p d :
  pending_of n (retain_not m p ++ [(m, d)]) = if decide (m = n) then [(m, d)] else pending_of n p.
Proof.
  rewrite pending_of_app. unfold pending_of at 2. rewrite filter_cons. cbn.
  destruct (decide (m = n)) as [->|Hne].
  - by rewrite pending_of_retain.
  - rewrite pending_of_retain_ne by done. by rewrite app_nil_r.
Qed.

(** ** The invariant of one child *)

Record Proc (n : ChildName) (s : Sup) (tr : list Event) : Prop := {
  pr_upper : (outstanding n s ≤ pids (the_child s n) + gave_up n tr)%nat;
  pr_lower : (pids (the_child s n) ≤ outstanding n s)%nat;
  pr_same : gave_up n tr = 0%nat →
    ∀ pid, s_live s !! pid = Some n → c_pid (the_child s n) = Some pid
}.

Record Acc (n : ChildName) (s : Sup) (tr : list Event) : Prop := {
  ac_count : Z.of_nat (attempts n tr) = c_restarts (the_child s n) + Z.of_nat (outstanding n s);
  ac_nonneg : 0 ≤ c_restarts (the_child s n);
  ac_unwanted : c_want (the_child s n) = false → attempts n tr = 0%nat
}.

(** What the loop promises of a child whenever it is not in the middle of restarting it. *)
Definition settled (n : ChildName) (s : Sup) : Prop :=
  let c := the_child s n in
  if c_want c then
    match c_pid c with
    | Some _ => (c_state c = Starting ∨ c_state c = Running) ∧ pending_of n (s_pending s) = []
    | None => c_state c = Restarting ∧
        ∃ d, pending_of n (s_pending s) = [(n, d)] ∧ d ≤ s_now s + BACKOFF
    end
  else c_state c = Stopped ∧ c_pid c = None ∧ pending_of n (s_pending s) = [].

Definition launchable (n : ChildName) (s : Sup) (tr : list Event) : Prop :=
  (outstanding n s ≤ gave_up n tr)%nat ∧ c_want (the_child s n) = true.

(** A step that leaves child [n] alone, but for its log and the end of a process of it. *)
Record Frame (n : ChildName) (s s' : Sup) : Prop := {
  fr_core : core (the_child s' n) = core (the_child s n);
  fr_pending : pending_of n (s_pending s') = pending_of n (s_pending s);
  fr_out : outstanding n s' = outstanding n s;
  fr_live : ∀ pid, s_live s' !! pid = Some n → s_live s !! pid = Some n;
  fr_now : s_now s ≤ s_now s'
}.

(** Closes [Frame n s s'] where [s'] has the children, channel and processes of [s]. *)
Ltac frame := constructor; cbn; done || lia.

Lemma frame_refl n s : Frame n s s.
Proof. by constructor. Qed.

Lemma frame_trans n s1 s2 s3 : Frame n s1 s2 → Frame n s2 s3 → Frame n s1 s3.
Proof. intros [A1 A2 A3 A4 A5] [B1 B2 B3 B4 B5]. constructor; [congruence..|auto|lia]. Qed.

Lemma core_fields c c' :
  core c' = core c →
  c_state c' = c_state c ∧ c_want c' = c_want c ∧ c_pid c' = c_pid c ∧ c_restarts c' = c_restarts c ∧
  pids c' = pids c.
Proof. unfold core, pids. intros [= -> -> -> ->]. done. Qed.

Lemma frame_proc n s s' tr e :
  Frame n s s' → gave_up n e = 0%nat → Proc n s tr → Proc n s' (tr ++ e).
Proof.
  intros [Fc Fp Fo Fl Fn] He [A B D]. apply core_fields in Fc as (_ & _ & Ep & _ & Epids).
  constructor; rewrite ?gave_up_app, ?He, ?Nat.add_0_r, ?Fo, ?Epids, ?Ep; auto.
Qed.

Lemma frame_acc n s s' tr e :
  Frame n s s' → attempts n e = 0%nat → Acc n s tr → Acc n s' (tr ++ e).
Proof.
  intros [Fc Fp Fo Fl Fn] He [A B D]. apply core_fields in Fc as (_ & Ew & _ & Er & _).
  constructor; rewrite ?attempts_app, ?He, ?Nat.add_0_r, ?Fo, ?Ew, ?Er; auto.
Qed.

Lemma frame_settled n s s' : Frame n s s' → settled n s → settled n s'.
Proof.
  intros [Fc Fp Fo Fl Fn]. apply core_fields in Fc as (Es & Ew & Ep & _).
  unfold settled. cbv zeta. rewrite Es, Ew, Ep, Fp. intros H.
  destruct (c_want (the_child s n)); [|exact H]. destruct (c_pid (the_child s n)); [exact H|].
  destruct H as (? & d & ? & ?). split; [done|]. exists d. split; [done|lia].
Qed.

Lemma frame_launchable n s s' tr e :
  Frame n s s' → launchable n s tr → launchable n s' (tr ++ e).
Proof.
  intros [Fc Fp Fo Fl Fn] [H1 H2]. apply core_fields in Fc as (_ & Ew & _).
  split; [rewrite Fo, gave_up_app; lia|by rewrite Ew].
Qed.

(** The three facts about a child the loop maintains before the stop. *)
Definition Good (n : ChildName) (s : Sup) (tr : list Event) : Prop :=
  Proc n s tr ∧ Acc n s tr ∧ settled n s.

(** What one step may have done to the other children. *)
Definition Apart (n : ChildName) (s s' : Sup) (e : list Event) : Prop :=
  ∀ m, m ≠ n → Frame m s s' ∧ gave_up m e = 0%nat ∧ attempts m e = 0%nat.

Lemma good_frame n s s' tr e :
  Frame n s s' → gave_up n e = 0%nat → attempts n e = 0%nat → Good n s tr → Good n s' (tr ++ e).
Proof.
  intros F H1 H2 (P & A & S). split_and!;
    [by eapply frame_proc|by eapply frame_acc|by eapply frame_settled].
Qed.

Lemma good_apart n m s s' tr e :
  Apart n s s' e → m ≠ n → Good m s tr → Good m s' (tr ++ e).
Proof. intros H Hm. destruct (H m Hm) as (F & H1 & H2). by apply good_frame. Qed.

(** *** What each primitive does *)

(** The other fields of the state, which the primitives on children leave alone. *)
Definition rest (s : Sup) : Phase * bool * option Instant * Z * option string :=
  let sh := s_shared s in
  (s_phase s, sh_applying sh, sh_apply_started_at sh, sh_applies sh, sh_last_apply_error sh).

Lemma attempts_one n e : is_attempt n e = true → attempts n [e] = 1%nat.
Proof. unfold attempts, count_events. cbn. by intros ->. Qed.

Lemma launch_spec n io s s' e tr :
  launch n io s = Some (s', e) →
  pending_of n (s_pending s) = [] → (outstanding n s ≤ gave_up n tr)%nat →
  Acc n s tr → (gave_up n tr = 0%nat → ∀ pid, s_live s !! pid ≠ Some n) →
  Good n s' (tr ++ e) ∧ c_want (the_child s' n) = true ∧ rest s' = rest s ∧ Apart n s s' e ∧
  s_exits s' = s_exits s.
Proof.
  unfold launch. intros H Hp Hout [Hc Hn Hu] Hno. unfold outstanding in *.
  assert (Hat : ∀ x, is_attempt n x = bool_decide (n = n) → attempts n (tr ++ [x]) = S (attempts n tr)).
  { intros x Hx. rewrite attempts_app, (attempts_one n x); [lia|].
    rewrite Hx. by apply bool_decide_eq_true_2. }
  assert (Hap : ∀ m, m ≠ n → bool_decide (n = m) = false).
  { intros m Hm. by apply bool_decide_eq_false_2. }
  step_inv; sup.
  - assert (Hl : s_live s !! a = None) by (by apply eq_None_not_Some).
    unfold Good, Apart. split_and!; [| | |done|done| |done].
    + constructor; unfold pids, outstanding; sup; rewrite ?procs_insert, ?decide_True by done;
        rewrite ?gave_up_app; cbn; [lia|lia|].
      intros G pid [[<- _]|[_ H]]%lookup_insert_Some; [done|]. exfalso. apply (Hno ltac:(lia) pid H).
    + constructor; unfold outstanding; sup; rewrite ?procs_insert, ?decide_True, ?Hat by done; [lia|done..].
    + unfold settled. sup. unfold needs_readiness. split; [destruct (bool_decide (n = Engine)); auto|done].
    + intros m Hm. split_and!; [|done|].
      * constructor; unfold outstanding; sup; try done; [by rewrite procs_insert, decide_False by done|].
        by intros pid [[_ ?]|[_ ?]]%lookup_insert_Some.
      * unfold attempts, count_events. cbn. by rewrite Hap.
  - unfold Good, Apart. split_and!; [| | |done|done| |done].
    + constructor; unfold pids, outstanding; sup; rewrite ?gave_up_app; cbn; [lia|lia|].
      intros G pid H. exfalso. apply (Hno ltac:(lia) pid H).
    + constructor; unfold outstanding; sup; rewrite ?Hat by done; [lia|lia|done].
    + unfold settled. sup. split; [done|]. exists (l_at io + BACKOFF).
      by rewrite pending_of_push, decide_True by done.

    + intros m Hm. split_and!; [|done|].
      * constructor; unfold outstanding; sup; try done. by rewrite pending_of_push, decide_False by done.
      * unfold attempts, count_events. cbn. by rewrite Hap.
Qed.

Lemma launch_all_spec ns ios s s' e tr :
  launch_all ns ios s = Some (s', e) → NoDup ns →
  (∀ n, n ∈ ns → pending_of n (s_pending s) = [] ∧ c_pid (the_child s n) = None ∧
     Proc n s tr ∧ Acc n s tr) →
  rest s' = rest s ∧ s_exits s' = s_exits s ∧
  (∀ n, n ∈ ns → Good n s' (tr ++ e) ∧ c_want (the_child s' n) = true) ∧
  (∀ m, m ∉ ns → Frame m s s' ∧ gave_up m e = 0%nat ∧ attempts m e = 0%nat).
Proof.
  revert ios s e tr. induction ns as [|n ns IH]; intros [|io ios] s e tr H Hnd Hpre;
    cbn [launch_all] in H; try done.
  { step_inv. split_and!; [done|done|set_solver|]. intros m _. split; [apply frame_refl|done]. }
  apply list.NoDup_cons in Hnd as [Hn Hnd]. step_inv.
  destruct (Hpre n) as (Hp & Hc & P & A); [by left|].
  assert (pids (the_child s n) = 0%nat) as Hpids by (unfold pids; by rewrite Hc).
  destruct (launch_spec n io s s1 e1 tr) as (G & Gw & Gr & Ap & Ex); try done.
  { pose proof (pr_upper _ _ _ P). lia. }
  { intros Gu pid Hl. pose proof (pr_same _ _ _ P Gu pid Hl). congruence. }
  destruct (IH ios s1 e2 (tr ++ e1)) as (R & X & Hin & Hout); try done.
  { intros m Hm. assert (m ≠ n) by (intros ->; done). destruct (Ap m) as (F & F1 & F2); [done|].
    destruct (Hpre m) as (Mp & Mc & MP & MA); [by right|]. split_and!.
    - by rewrite (fr_pending _ _ _ F).
    - destruct (core_fields _ _ (fr_core _ _ _ F)) as (_ & _ & -> & _). done.
    - by eapply frame_proc.
    - by eapply frame_acc. }
  split_and!; [congruence|congruence| |].
  - intros m [->|Hm]%elem_of_cons.
    + destruct (Hout n Hn) as (F & F1 & F2). rewrite app_assoc. split; [by eapply good_frame|].
      by destruct (core_fields _ _ (fr_core _ _ _ F)) as (_ & -> & _).
    + rewrite app_assoc. by apply Hin.
  - intros m [Hne Hm]%not_elem_of_cons. destruct (Hout m Hm) as (F & F1 & F2).
    destruct (Ap m Hne) as (F' & F1' & F2'). rewrite gave_up_app, attempts_app, F1, F2, F1', F2'.
    split; [by eapply frame_trans|done].
Qed.

(** An exit on the channel is of a process that was counted, so of a child that is wanted. *)
Lemma queued_head n cause q s :
  s_exits s = (n, cause) :: q → outstanding n s = S (outstanding n (set_exits s q)).
Proof. intros E. unfold outstanding. cbn. rewrite E, queued_cons, decide_True by done. lia. Qed.

Lemma queued_wanted n cause q s tr :
  s_exits s = (n, cause) :: q → Acc n s tr → c_want (the_child s n) = true.
Proof.
  intros E [Hc Hn Hu]. destruct (c_want _); [done|]. rewrite Hu in Hc by done.
  pose proof (queued_head _ _ _ _ E). lia.
Qed.

Lemma exit_proc n cause q s s' tr e :
  s_exits s = (n, cause) :: q → Proc n s tr → gave_up n e = 0%nat →
  c_pid (the_child s' n) = None → s_live s' = s_live s → s_exits s' = q →
  Proc n s' (tr ++ e) ∧ (outstanding n s' ≤ gave_up n (tr ++ e))%nat.
Proof.
  intros E [A B D] He Hpid Hl Hq. pose proof (queued_head _ _ _ _ E) as Hh.
  assert (outstanding n s' = outstanding n (set_exits s q)) as Ho.
  { unfold outstanding. cbn. by rewrite Hl, Hq. }
  assert (pids (the_child s n) ≤ 1)%nat by (unfold pids; destruct (c_pid _); lia).
  assert (outstanding n s' ≤ gave_up n (tr ++ e))%nat as Hup by (rewrite gave_up_app; lia).
  split; [|done]. constructor; unfold pids; rewrite ?Hpid; [lia|lia|].
  intros G pid Hlive. rewrite G in Hup. exfalso. apply (procs_zero n pid (s_live s')); [|done].
  unfold outstanding in Hup. lia.
Qed.

Lemma exit_acc n cause q s s' tr e :
  s_exits s = (n, cause) :: q → Acc n s tr → attempts n e = 0%nat →
  c_restarts (the_child s' n) = c_restarts (the_child s n) + 1 →
  c_want (the_child s' n) = true → s_live s' = s_live s → s_exits s' = q →
  Acc n s' (tr ++ e).
Proof.
  intros E [Hc Hn Hu] He Hr Hw Hl Hq. pose proof (queued_head _ _ _ _ E) as Hh.
  assert (outstanding n s' = outstanding n (set_exits s q)) as Ho.
  { unfold outstanding. cbn. by rewrite Hl, Hq. }
  constructor; rewrite ?attempts_app, ?Hr, ?Hw; [lia|lia|done].
Qed.

Lemma apart_exit n cause q s s' e :
  s_exits s = (n, cause) :: q → s_live s' = s_live s → s_exits s' = q → s_now s ≤ s_now s' →
  (∀ m, m ≠ n → core (the_child s' m) = core (the_child s m) ∧
     pending_of m (s_pending s') = pending_of m (s_pending s)) →
  (∀ m, gave_up m e = 0%nat ∧ attempts m e = 0%nat) → Apart n s s' e.
Proof.
  intros E Hl Hq Hnow Hc He m Hm. destruct (Hc m Hm) as [H1 H2]. split; [|apply He].
  constructor; [done|done| |by rewrite Hl|done].
  unfold outstanding. rewrite Hl, Hq, E, queued_cons, decide_False by done. lia.
Qed.

Lemma on_exit_spec n cause q now s s' e tr :
  s_exits s = (n, cause) :: q → s_now s = now → Proc n s tr → Acc n s tr →
  on_exit n cause now (set_exits s q) = Some (s', e) →
  Good n s' (tr ++ e) ∧ c_want (the_child s' n) = true ∧ rest s' = rest s ∧ Apart n s s' e ∧
  s_exits s' = q.
Proof.
  intros E Hnow P A H. pose proof (queued_wanted _ _ _ _ _ E A) as Hw.
  unfold on_exit, exited in H. sup. rewrite Hw in H. step_inv. sup.
  unfold Good. split_and!; sup; try done.
  - eapply exit_proc; sup; done.
  - eapply exit_acc; sup; done.
  - unfold settled. sup. split; [done|]. exists (s_now s + BACKOFF).
    rewrite pending_of_push, decide_True by done. by rewrite ?Hnow.
  - eapply apart_exit; sup; try done. intros m Hm. sup.
    by rewrite pending_of_push, decide_False by done.
Qed.

Lemma note_exit_spec n cause q now s s' e tr :
  s_exits s = (n, cause) :: q → Proc n s tr →
  note_exit n cause now (set_exits s q) = Some (s', e) →
  Proc n s' (tr ++ e) ∧ (outstanding n s' ≤ gave_up n (tr ++ e))%nat ∧
  (c_want (the_child s n) = true → Acc n s tr → Acc n s' (tr ++ e)) ∧
  c_want (the_child s' n) = c_want (the_child s n) ∧
  rest s' = rest s ∧ Apart n s s' e ∧ s_exits s' = q.
Proof.
  intros E P H. unfold note_exit, exited in H. sup. step_inv. sup.
  split_and!; sup; try done.
  - eapply exit_proc; sup; done.
  - eapply exit_proc; sup; done.
  - intros Hw A. eapply exit_acc; sup; try done. by rewrite Hw.
  - eapply apart_exit; sup; try done. intros m Hm. by sup.
Qed.

Lemma die_spec pid cause s s' e m :
  die pid cause s = Some (s', e) → Frame m s s' ∧ e = [] ∧ rest s' = rest s.
Proof.
  unfold die. intros H. step_inv. split_and!; [|done|done].
  constructor; sup; try done.
  - unfold outstanding. sup. rewrite queued_app, queued_cons.
    rewrite (procs_delete m c pid (s_live s)) by done. change (queued m []) with 0%nat. lia.
  - intros p [_ ?]%lookup_delete_Some. done.
Qed.

(** ** The invariant of the supervisor *)

Definition want (s : Sup) (n : ChildName) : bool := c_want (the_child s n).

(** Who is wanted, by phase; whom a re-apply restarts; when an apply is said to run. *)
Definition PhaseInv (host clustered : bool) (s : Sup) : Prop :=
  match s_phase s with
  | Fresh | Locked => ∀ n, want s n = false
  | Applied => (∀ n, want s n = false) ∧ sh_applying (s_shared s) = false
  | AwaitReady | Engaged =>
      want s Engine = true ∧ want s ShapeDaemon = false ∧ want s ConfSync = false ∧
      sh_applying (s_shared s) = false
  | Serving =>
      want s Engine = true ∧ want s ShapeDaemon = host ∧ want s ConfSync = clustered ∧
      sh_applying (s_shared s) = false
  | Reapply n _ todo _ _ =>
      want s Engine = true ∧ want s ShapeDaemon = host ∧ want s ConfSync = clustered ∧
      sh_applying (s_shared s) = true ∧
      (n = Engine ∧ todo = (if host then [ShapeDaemon] else []) ∨
       n = ShapeDaemon ∧ host = true ∧ todo = [])
  | Stopping _ _ _ _ => ∀ n, want s n = false
  | StopBegin _ | Exited _ => True
  end.

Definition ChildInv (n : ChildName) (s : Sup) (tr : list Event) : Prop :=
  Proc n s tr ∧
  (active (s_phase s) = true →
     Acc n s tr ∧ if launching n (s_phase s) then launchable n s tr else settled n s).

Definition Inv (host clustered : bool) (s : Sup) (tr : list Event) : Prop :=
  (∀ n, ChildInv n s tr) ∧ PhaseInv host clustered s.

Lemma childinv_frame n s s' tr e :
  Frame n s s' → gave_up n e = 0%nat → attempts n e = 0%nat →
  (active (s_phase s') = true → active (s_phase s) = true) →
  (active (s_phase s') = true → launching n (s_phase s') = launching n (s_phase s)) →
  ChildInv n s tr → ChildInv n s' (tr ++ e).
Proof.
  intros F H1 H2 Ha Hl [P HA]. split; [by eapply frame_proc|]. intros Hact.
  destruct (HA (Ha Hact)) as [A S]. split; [by eapply frame_acc|]. rewrite (Hl Hact).
  destruct (launching n (s_phase s)); [by eapply frame_launchable|by eapply frame_settled].
Qed.

Lemma childinv_good n s tr :
  Good n s tr → (active (s_phase s) = true → launching n (s_phase s) = false) → ChildInv n s tr.
Proof. intros (P & A & S) Hl. split; [done|]. intros Ha. by rewrite Hl. Qed.

Lemma inv_good host cl s tr n :
  Inv host cl s tr → active (s_phase s) = true → launching n (s_phase s) = false → Good n s tr.
Proof.
  intros [HC _] Ha Hl. destruct (HC n) as [P H]. destruct (H Ha) as [A S]. rewrite Hl in S. done.
Qed.

(** The common case: one child was worked on, the others were not, and nobody is launching. *)
Lemma inv_step_one host cl n s s' tr e :
  Inv host cl s tr → Apart n s s' e → ChildInv n s' (tr ++ e) →
  (active (s_phase s') = true → active (s_phase s) = true) →
  (∀ m, m ≠ n → active (s_phase s') = true → launching m (s_phase s') = launching m (s_phase s)) →
  PhaseInv host cl s' → Inv host cl s' (tr ++ e).
Proof.
  intros [HC _] Hap Hn Ha Hl HP. split; [|done]. intros m.
  destruct (decide (m = n)) as [->|Hm]; [done|]. destruct (Hap m Hm) as (F & H1 & H2).
  apply (childinv_frame m s s' tr e F H1 H2 Ha); [|apply HC]. by apply Hl.
Qed.

(** The other common case: no child was worked on. *)
Lemma inv_step_none host cl s s' tr e :
  Inv host cl s tr → (∀ n, Frame n s s' ∧ gave_up n e = 0%nat ∧ attempts n e = 0%nat) →
  (active (s_phase s') = true → active (s_phase s) = true) →
  (∀ n, active (s_phase s') = true → launching n (s_phase s') = launching n (s_phase s)) →
  PhaseInv host cl s' → Inv host cl s' (tr ++ e).
Proof.
  intros [HC _] HF Ha Hl HP. split; [|done]. intros n. destruct (HF n) as (F & H1 & H2).
  eapply childinv_frame; eauto.
Qed.

(** [want] is part of [core]. *)
Lemma frame_want n s s' : Frame n s s' → want s' n = want s n.
Proof. intros F. by destruct (core_fields _ _ (fr_core _ _ _ F)) as (_ & ? & _). Qed.

Lemma apart_want n s s' e m : Apart n s s' e → m ≠ n → want s' m = want s m.
Proof. intros H Hm. by apply frame_want, (H m Hm). Qed.

(** A phase that keeps what is wanted and whether an apply runs keeps its invariant. *)
Lemma phaseinv_same host cl s s' :
  s_phase s' = s_phase s → (∀ n, want s' n = want s n) →
  sh_applying (s_shared s') = sh_applying (s_shared s) → PhaseInv host cl s → PhaseInv host cl s'.
Proof.
  intros Hp Hw Ha. unfold PhaseInv. rewrite Hp, Ha.
  destruct (s_phase s); rewrite ?Hw; try done.
  all: try (intros H n'; rewrite Hw; apply H).
  intros [H1 H2]. split; [|done]. intros n'. rewrite Hw. apply H1.
Qed.

Lemma rest_fields s s' :
  rest s' = rest s → s_phase s' = s_phase s ∧ sh_applying (s_shared s') = sh_applying (s_shared s).
Proof. unfold rest. by intros [= -> -> _ _ _]. Qed.

(** One child was worked on and is well again; the loop stands where it stood. *)
Lemma inv_step_good host cl n s s' tr e :
  Inv host cl s tr → rest s' = rest s → Apart n s s' e → Good n s' (tr ++ e) →
  launching n (s_phase s) = false → want s' n = want s n → Inv host cl s' (tr ++ e).
Proof.
  intros HI Hr Hap HG Hl Hw. destruct (rest_fields _ _ Hr) as [Hp Ha].
  assert (∀ m, want s' m = want s m) as Hwant.
  { intros m. destruct (decide (m = n)) as [->|Hm]; [done|]. by eapply apart_want. }
  apply (inv_step_one host cl n s); [done|done| |by rewrite Hp|by rewrite Hp|].
  - apply childinv_good; [done|]. by rewrite Hp.
  - destruct HI as [_ HP]. by apply (phaseinv_same host cl s).
Qed.

(** *** Steps that touch no child *)

Lemma frame_now n s t : s_now s ≤ t → Frame n s (set_now s t).
Proof. intros Ht. by constructor. Qed.

Lemma frame_log n m line s :
  Frame n s (put_child s m (push_log (the_child s m) line)).
Proof.
  constructor; sup; try done. destruct (decide (n = m)) as [->|Hm]; [by rewrite the_child_put_eq|].
  by rewrite the_child_put_ne.
Qed.

Lemma ready_good n s s' tr e :
  Good n s tr → s' = put_child s n (became_ready (the_child s n)) → gave_up n e = 0%nat →
  attempts n e = 0%nat →
  Good n s' (tr ++ e) ∧ Apart n s s' [] ∧ want s' n = want s n.
Proof.
  intros (P & A & S) -> H1 H2.
  assert (∀ c, c_want (became_ready c) = c_want c ∧ c_pid (became_ready c) = c_pid c ∧
    c_restarts (became_ready c) = c_restarts c) as Hr.
  { intros c. unfold became_ready. by destruct (decide _). }
  destruct (Hr (the_child s n)) as (Hw & Hp & Hs). split_and!; [split_and!| |].
  - destruct P as [B C D]. constructor; unfold pids, outstanding in *; sup;
      rewrite ?gave_up_app, ?H1, ?Nat.add_0_r, ?Hp; auto.
  - destruct A as [B C D]. constructor; unfold outstanding in *; sup;
      rewrite ?attempts_app, ?H2, ?Nat.add_0_r, ?Hw, ?Hs; auto.
  - unfold settled in *. sup. rewrite Hw, Hp. unfold became_ready.
    destruct (decide (c_state (the_child s n) = Starting)) as [E|E]; [|done]. cbn.
    rewrite E in S. destruct (c_want (the_child s n)), (c_pid (the_child s n)); destruct S as [? ?]; [auto|done..].
  - intros m Hm. split_and!; [|done|done]. constructor; unfold outstanding; by sup.
  - unfold want. by sup.
Qed.

(** *** Every step keeps the invariant *)

(** Away from a launch, the invariant is that every child is well. *)
Definition AllGood (s : Sup) (tr : list Event) : Prop := ∀ n, Good n s tr.

Definition no_launch (ph : Phase) : Prop := ∀ n, launching n ph = false.

Lemma inv_allgood host cl s tr :
  active (s_phase s) = true → no_launch (s_phase s) →
  Inv host cl s tr ↔ AllGood s tr ∧ PhaseInv host cl s.
Proof.
  intros Ha Hl. split.
  - intros HI. split; [|apply HI]. intros n. by eapply inv_good.
  - intros [HG HP]. split; [|done]. intros n. apply childinv_good; [apply HG|]. auto.
Qed.

Lemma allgood_apart n s s' tr e :
  AllGood s tr → Apart n s s' e → Good n s' (tr ++ e) → AllGood s' (tr ++ e).
Proof.
  intros HG Hap Hn m. destruct (decide (m = n)) as [->|Hm]; [done|]. by eapply good_apart.
Qed.

Lemma allgood_frame s s' tr e :
  AllGood s tr → (∀ n, Frame n s s' ∧ gave_up n e = 0%nat ∧ attempts n e = 0%nat) →
  AllGood s' (tr ++ e).
Proof. intros HG HF n. destruct (HF n) as (? & ? & ?). by eapply good_frame. Qed.

Lemma allgood_phase s tr p : AllGood s tr → AllGood (set_phase s p) tr.
Proof.
  intros H n. rewrite <-(app_nil_r tr). eapply good_frame; [|done|done|apply H]. by constructor.
Qed.

(** A child that is not wanted yet has no process and no exit on its way. *)
Lemma unwanted_idle n s tr :
  Good n s tr → want s n = false →
  outstanding n s = 0%nat ∧ pending_of n (s_pending s) = [].
Proof.
  intros (P & A & S) Hw. unfold want in Hw. unfold settled in S. rewrite Hw in S.
  destruct A as [Hc Hn Hu]. rewrite (Hu Hw) in Hc. split; [lia|tauto].
Qed.

Lemma launch_boot n io s s' e tr :
  Good n s tr → want s n = false → launch n io s = Some (s', e) →
  Good n s' (tr ++ e) ∧ want s' n = true ∧ rest s' = rest s ∧ Apart n s s' e.
Proof.
  intros G Hw H. destruct (unwanted_idle n s tr G Hw) as [Ho Hp]. destruct G as (P & A & S).
  destruct (launch_spec n io s s' e tr H) as (? & ? & ? & ? & ?); try done; [lia|].
  intros _ pid Hl. apply (procs_zero n pid (s_live s)); [|done]. unfold outstanding in Ho. lia.
Qed.

Lemma launch_if_boot c n why io s s' e tr :
  Good n s tr → want s n = false → launch_if c n why io s = Some (s', e) →
  Good n s' (tr ++ e) ∧ want s' n = c ∧ rest s' = rest s ∧ Apart n s s' e.
Proof.
  intros G Hw H. destruct c; cbn in H; [by eapply launch_boot|]. step_inv.
  rewrite app_nil_r. destruct G as ([B C D] & [X Y Z] & S). unfold mark_stopped.
  unfold want, settled in *. rewrite Hw in S. split_and!; [split_and!| |done|].
  - constructor; unfold outstanding, pids in *; sup; auto.
  - constructor; unfold outstanding in *; sup; auto.
  - unfold settled. sup. tauto.
  - by sup.
  - intros m Hm. split_and!; [|done|done]. constructor; unfold outstanding; by sup.
Qed.

Section preservation.
Context (host cl : bool).

Lemma launch_engine_inv io s s' e tr :
  s_phase s = Applied → Inv host cl s tr → launch_engine io s = Some (s', e) →
  Inv host cl s' (tr ++ e).
Proof.
  intros Hph HI H. unfold launch_engine in H. step_inv. rewrite app_nil_r.
  apply inv_allgood in HI as [HG HP]; [|by rewrite Hph|by rewrite Hph].
  unfold PhaseInv in HP. rewrite Hph in HP. destruct HP as [HP Happ].
  destruct (launch_boot Engine io s s1 e1 tr) as (G & W & R & Ap); [done..|].
  destruct (rest_fields _ _ R) as [_ Ra].
  apply inv_allgood; [done|done|]. split.
  - apply allgood_phase. by apply (allgood_apart Engine s s1).
  - unfold PhaseInv. cbn [s_phase set_phase].
    change (want (set_phase s1 AwaitReady)) with (want s1).
    rewrite (apart_want Engine s s1 e1 ShapeDaemon), (apart_want Engine s s1 e1 ConfSync) by done. split_and!; [done|apply HP..|cbn; congruence].
Qed.

Lemma launch_rest_inv shape sync s s' e tr :
  s_phase s = Engaged → Inv host cl s tr →
  launch_rest host cl shape sync s = Some (s', e) → Inv host cl s' (tr ++ e).
Proof.
  intros Hph HI H. unfold launch_rest in H. step_inv.
  apply inv_allgood in HI as [HG HP]; [|by rewrite Hph|by rewrite Hph].
  unfold PhaseInv in HP. rewrite Hph in HP. destruct HP as (W1 & W2 & W3 & W4).
  destruct (launch_if_boot host ShapeDaemon "not a host" shape s s1 e1 tr) as (G & W & R & Ap); [done..|].
  destruct (launch_if_boot cl ConfSync "not clustered" sync s1 s0 e0 (tr ++ e1)) as (G' & W' & R' & Ap').
  { by eapply good_apart. }
  { by rewrite (apart_want ShapeDaemon s s1 e1 ConfSync). }
  { done. }
  destruct (rest_fields _ _ R) as [_ Ra]. destruct (rest_fields _ _ R') as [_ Ra'].
  apply inv_allgood; [done|done|]. rewrite !app_assoc. split.
  - apply allgood_phase, (allgood_frame s0); [|by intros n; split; [apply frame_refl|]].
    apply (allgood_apart ConfSync s1); [|done|done]. by apply (allgood_apart ShapeDaemon s).
  - unfold PhaseInv. cbn [s_phase set_phase]. change (want (set_phase s0 Serving)) with (want s0).
    rewrite W', (apart_want ConfSync s1 s0 e0 Engine), (apart_want ConfSync s1 s0 e0 ShapeDaemon), W by done.
    rewrite (apart_want ShapeDaemon s s1 e1 Engine) by done. split_and!; [done..|cbn; congruence].
Qed.

Lemma take_exit_inv n cause q s s' e tr :
  s_phase s = Serving → s_exits s = (n, cause) :: q → Inv host cl s tr →
  on_exit n cause (s_now s) (set_exits s q) = Some (s', e) → Inv host cl s' (tr ++ e).
Proof.
  intros Hph E HI H. destruct (inv_good host cl s tr n HI) as (P & A & S); [by rewrite Hph..|].
  pose proof (queued_wanted _ _ _ _ _ E A) as Hw.
  destruct (on_exit_spec n cause q (s_now s) s s' e tr) as (G & W & R & Ap & _); try done.
  apply (inv_step_good host cl n s); try done; [by rewrite Hph|]. unfold want. by rewrite W, Hw.
Qed.

(** What is pending is without a process, and pending once. *)
Lemma pending_no_pid n d s tr :
  Good n s tr → (n, d) ∈ s_pending s → want s n = true ∧ c_pid (the_child s n) = None ∧
    pending_of n (s_pending s) = [(n, d)].
Proof.
  intros (P & A & S) Hin. assert ((n, d) ∈ pending_of n (s_pending s)) as Hp
    by (by apply list_elem_of_filter).
  unfold want, settled in *. destruct (c_want (the_child s n)).
  - destruct (c_pid (the_child s n)).
    + destruct S as [_ S]. rewrite S in Hp. by apply not_elem_of_nil in Hp.
    + destruct S as (_ & d' & S & _). rewrite S in *. apply list_elem_of_singleton in Hp.
      injection Hp as ->. done.
  - destruct S as (_ & _ & S). rewrite S in Hp. by apply not_elem_of_nil in Hp.
Qed.

Lemma pending_of_filter n (P : ChildName * Instant → Prop) `{∀ x, Decision (P x)} p :
  pending_of n (filter P p) = filter P (pending_of n p).
Proof.
  unfold pending_of. induction p as [|q p IH]; [done|]. rewrite !filter_cons.
  destruct (decide (P q)) eqn:E1, (decide (q.1 = n)) eqn:E2; rewrite ?filter_cons, ?E1, ?E2, ?IH; done.
Qed.

Lemma settled_pending_once n s : settled n s → (length (pending_of n (s_pending s)) ≤ 1)%nat.
Proof.
  unfold settled. destruct (c_want (the_child s n)), (c_pid (the_child s n)).
  - intros (_ & ->). cbn. lia.
  - intros (_ & d & -> & _). cbn. lia.
  - intros (_ & _ & ->). cbn. lia.
  - intros (_ & _ & ->). cbn. lia.
Qed.

Lemma due_elem n p now : n ∈ (filter (λ q : ChildName * Instant, q.2 ≤ now) p).*1 →
  ∃ d, (n, d) ∈ p ∧ d ≤ now.
Proof.
  intros ([m d] & -> & [H1 H2]%list_elem_of_filter)%list_elem_of_fmap. by exists d.
Qed.

Lemma due_NoDup p (now : Instant) :
  (∀ n, (length (pending_of n p) ≤ 1)%nat) →
  NoDup ((filter (λ q : ChildName * Instant, q.2 ≤ now) p).*1).
Proof.
  induction p as [|[n d] p IH]; intros H; [constructor|]. rewrite filter_cons.
  assert (∀ m, (length (pending_of m p) ≤ 1)%nat) as H'.
  { intros m. specialize (H m). unfold pending_of in *. rewrite filter_cons in H.
    destruct (decide _); cbn in H; lia. }
  destruct (decide _); [|by apply IH]. cbn. constructor; [|by apply IH].
  intros (d' & Hin & _)%due_elem. specialize (H n). unfold pending_of in H.
  rewrite filter_cons, decide_True in H by done. cbn in H.
  assert ((n, d') ∈ filter (λ q : ChildName * Instant, q.1 = n) p) as Hf by (by apply list_elem_of_filter).
  destruct (filter (λ q : ChildName * Instant, q.1 = n) p); [by apply not_elem_of_nil in Hf|cbn in H; lia].
Qed.

Lemma respawn_inv now ios s s' e tr :
  s_phase s = Serving → Inv host cl s tr → respawn_due now ios s = Some (s', e) →
  Inv host cl s' (tr ++ e).
Proof.
  intros Hph HI H. unfold respawn_due in H. step_inv. cbn [s_pending set_now app] in *.
  pose proof HI as HI'. apply inv_allgood in HI' as [HG HP]; [|by rewrite Hph|by rewrite Hph].
  set (due := (filter (λ p, p.2 ≤ now) (s_pending s)).*1) in *.
  set (s0 := set_pending (set_now s now) (filter (λ p, now < p.2) (s_pending s))) in *.
  assert (Hdue : ∀ n, n ∈ due → want s n = true ∧ c_pid (the_child s n) = None ∧
    pending_of n (s_pending s0) = []).
  { intros n (d & Hin & Hd)%due_elem. destruct (pending_no_pid n d s tr (HG n) Hin) as (W & Hp & Hl).
    split_and!; [done|done|]. cbn. rewrite pending_of_filter, Hl, filter_cons, decide_False; [done|].
    cbn. lia. }
  assert (Hother : ∀ n, n ∉ due → Frame n s s0).
  { intros n Hn. constructor; cbn; try done. rewrite pending_of_filter.
    apply filter_list_all, list.Forall_forall. intros [m d] [E Hin]%list_elem_of_filter. cbn in E. subst m.
    cbn. destruct (decide (now < d)); [done|]. exfalso. apply Hn, list_elem_of_fmap. exists (n, d).
    split; [done|]. apply list_elem_of_filter. cbn. split; [lia|done]. }
  destruct (launch_all_spec due ios s0 s' e2 tr) as (R & _ & Hin & Hout).
  - done.
  - apply due_NoDup. intros n. destruct (HG n) as (_ & _ & S).
    by apply settled_pending_once.
  - intros n Hn. destruct (Hdue n Hn) as (W & Hp & Hl). destruct (HG n) as ([A B C] & [D E F] & _).
    split_and!; [done|done|by constructor|by constructor].
  - assert (∀ n, want s' n = want s n) as HW.
    { intros n. destruct (decide (n ∈ due)) as [Hn|Hn].
      - destruct (Hin n Hn) as [_ W]. unfold want at 1. rewrite W. by destruct (Hdue n Hn) as (-> & _).
      - destruct (Hout n Hn) as (F & _ & _). by rewrite (frame_want n s0 s' F). }
    destruct (rest_fields _ _ R) as [Rp Ra]. cbn in Rp, Ra.
    apply inv_allgood; [by rewrite Rp, Hph|by rewrite Rp, Hph|]. split; [|by apply (phaseinv_same host cl s)].
    intros n. destruct (decide (n ∈ due)) as [Hn|Hn]; [by apply Hin|].
    destruct (Hout n Hn) as (F & F1 & F2). eapply good_frame; [|done|done|apply HG].
    eapply frame_trans; [by apply Hother|done].
Qed.

(** A step that leaves every child, the channel and the processes alone: what it says neither
    spawns nor gives up. *)
Definition silent (e : list Event) : Prop := ∀ n, gave_up n e = 0%nat ∧ attempts n e = 0%nat.

Lemma untouched_inv s s' e tr :
  Inv host cl s tr → active (s_phase s) = true → no_launch (s_phase s) →
  (∀ n, Frame n s s') → silent e →
  (active (s_phase s') = true → no_launch (s_phase s')) → PhaseInv host cl s' →
  Inv host cl s' (tr ++ e).
Proof.
  intros HI Ha Hl HF He Hl' HP. apply (inv_step_none host cl s); [done|done|done| |done].
  intros n Ha'. rewrite (Hl n). by apply Hl'.
Qed.

Lemma silent_replied reply r : silent (replied reply r).
Proof. by destruct reply. Qed.

Lemma do_reapply_inv io reply s s' e tr :
  s_phase s = Serving → Inv host cl s tr → do_reapply host io reply s = Some (s', e) →
  Inv host cl s' (tr ++ e).
Proof.
  intros Hph HI H. unfold do_reapply in H. pose proof (proj2 HI) as HP.
  unfold PhaseInv in HP. rewrite Hph in HP. destruct HP as (W1 & W2 & W3 & _).
  step_inv; cbn in *;
    (apply untouched_inv with s; [done|by rewrite Hph|by rewrite Hph|..]).
  - intros n. frame.
  - intros n. by destruct (_ <? _).
  - done.
  - unfold PhaseInv. cbn. split_and!; auto.
  - intros n. frame.
  - intros n. by apply silent_replied.
  - cbn. by rewrite Hph.
  - unfold PhaseInv, want in *. cbn. by rewrite Hph.
Qed.

Lemma on_reload_inv r io reply s s' e tr :
  s_phase s = Serving → Inv host cl s tr → on_reload host r io reply s = Some (s', e) →
  Inv host cl s' (tr ++ e).
Proof.
  intros Hph HI H. destruct r; cbn [on_reload] in H; [by eapply do_reapply_inv|..].
  - unfold begin_stop in H. step_inv.
    apply untouched_inv with s; [done|by rewrite Hph|by rewrite Hph|intros n; frame| |done|done].
    intros n. rewrite app_nil_r. apply silent_replied.
  - step_inv. apply untouched_inv with s; [done|by rewrite Hph|by rewrite Hph|intros n; frame| | |].
    + apply silent_replied.
    + cbn. by rewrite Hph.
    + destruct HI as [_ HP]. by apply (phaseinv_same host cl s).
Qed.

Lemma ready_inv s s' e' tr :
  active (s_phase s) = true → no_launch (s_phase s) → Inv host cl s tr →
  s' = put_child s Engine (became_ready (the_child s Engine)) → silent e' →
  Inv host cl s' (tr ++ e').
Proof.
  intros Ha Hl HI -> He. destruct (He Engine) as [H1 H2].
  destruct (ready_good Engine s _ tr e' (inv_good host cl s tr Engine HI Ha (Hl Engine)) eq_refl H1 H2)
    as (G & Ap & W).
  apply (inv_step_good host cl Engine s); [done|done| |done|apply Hl|done].
  intros m Hm. destruct (Ap m Hm) as (F & _). split; [done|apply He].
Qed.

Lemma after_wait_inv w s s' e tr :
  s_phase s = AwaitReady → Inv host cl s tr → after_wait w s = Some (s', e) →
  Inv host cl s' (tr ++ e).
Proof.
  intros Hph HI H. pose proof (proj2 HI) as HP. unfold PhaseInv in HP. rewrite Hph in HP.
  unfold after_wait in H.
  set (s1 := put_child s Engine (became_ready (the_child s Engine))) in *.
  assert (HR : Inv host cl s1 tr).
  { rewrite <-(app_nil_r tr). eapply ready_inv; try done; by rewrite Hph. }
  assert (Hph1 : s_phase s1 = AwaitReady) by done.
  assert (HP1 : PhaseInv host cl s1) by apply HR. unfold PhaseInv in HP1. rewrite Hph1 in HP1.
  step_inv.
  - apply untouched_inv with s1; [done|by rewrite Hph1|by rewrite Hph1|intros n; frame|done|done|].
    unfold PhaseInv. cbn. done.
  - apply untouched_inv with s1; [done|by rewrite Hph1|by rewrite Hph1|intros n; frame| |done|done].
    by destruct (c_pid (the_child s1 Engine)).
  - apply untouched_inv with s; [done|by rewrite Hph|by rewrite Hph|intros n; frame|done|done|].
    unfold PhaseInv. cbn. done.
Qed.

Lemma ready_tick_inv ready s s' e tr :
  s_phase s = Serving → Inv host cl s tr → ready_tick ready s = Some (s', e) →
  Inv host cl s' (tr ++ e).
Proof.
  intros Hph HI H. unfold ready_tick in H. step_inv.
  destruct (decide _), ready; try (by rewrite app_nil_r).
  eapply ready_inv; [by rewrite Hph|by rewrite Hph|done|done|done].
Qed.

Lemma feed_tick_inv t read s s' e tr :
  s_phase s = Serving → Inv host cl s tr → feed_tick t read s = Some (s', e) →
  Inv host cl s' (tr ++ e).
Proof.
  intros Hph HI H. unfold feed_tick in H. step_inv.
  apply untouched_inv with s; [done|by rewrite Hph|by rewrite Hph|intros n; frame| | |].
  - intros n. by destruct (should_feed _ _ _).
  - cbn. by rewrite Hph.
  - destruct HI as [_ HP]. by apply (phaseinv_same host cl s).
Qed.

Lemma acquire_inv a b c d s s' e tr :
  s_phase s = Fresh → Inv host cl s tr → acquire a b c d s = Some (s', e) → Inv host cl s' (tr ++ e).
Proof.
  intros Hph HI H. pose proof (proj2 HI) as HP. unfold PhaseInv in HP. rewrite Hph in HP.
  unfold acquire in H. step_inv;
    (apply untouched_inv with s; [done|by rewrite Hph|by rewrite Hph|intros n; frame|done|done|done]).
Qed.

Lemma initial_apply_inv io s s' e tr :
  s_phase s = Locked → Inv host cl s tr → initial_apply io s = Some (s', e) →
  Inv host cl s' (tr ++ e).
Proof.
  intros Hph HI H. pose proof (proj2 HI) as HP. unfold PhaseInv in HP. rewrite Hph in HP.
  unfold initial_apply in H. step_inv; cbn in *;
    (apply untouched_inv with s; [done|by rewrite Hph|by rewrite Hph|intros n; frame|done|done|done]).
Qed.

(** *** The steps of a re-apply *)

(** The members of [PhaseInv] in a re-apply that do not depend on its stage. *)
Lemma reapply_phase s s' n st todo started reply st' :
  PhaseInv host cl s → s_phase s = Reapply n st todo started reply →
  s_phase s' = Reapply n st' todo started reply → (∀ m, want s' m = want s m) →
  sh_applying (s_shared s') = sh_applying (s_shared s) → PhaseInv host cl s'.
Proof.
  intros HP Hph Hph' Hw Ha. unfold PhaseInv in *. rewrite Hph in HP. rewrite Hph', !Hw, Ha. done.
Qed.

Lemma reapply_wanted s n st todo started reply :
  PhaseInv host cl s → s_phase s = Reapply n st todo started reply → want s n = true.
Proof.
  intros HP Hph. unfold PhaseInv in HP. rewrite Hph in HP.
  destruct HP as (W1 & W2 & W3 & _ & [[-> _]|(-> & -> & _)]); done.
Qed.

Lemma launching_ne m n todo started reply :
  m ≠ n → launching m (Reapply n RLaunch todo started reply) = false.
Proof. intros Hm. cbn. by apply bool_decide_eq_false_2. Qed.
Lemma launching_eq n todo started reply : launching n (Reapply n RLaunch todo started reply) = true.
Proof. cbn. by apply bool_decide_eq_true_2. Qed.

(** The wait is over: child [n] may be launched. *)
Lemma to_launch_inv n st todo started reply s s0 s' tr e :
  Inv host cl s tr → s_phase s = Reapply n st todo started reply → st ≠ RLaunch →
  Apart n s s0 e → Proc n s0 (tr ++ e) → Acc n s0 (tr ++ e) → launchable n s0 (tr ++ e) →
  want s0 n = want s n → sh_applying (s_shared s0) = sh_applying (s_shared s) →
  s' = set_phase s0 (Reapply n RLaunch todo started reply) → Inv host cl s' (tr ++ e).
Proof.
  intros HI Hph Hst Hap P A L W Ha ->.
  assert (Frame n s0 (set_phase s0 (Reapply n RLaunch todo started reply))) as F by (intros; frame).
  assert (∀ m, want s0 m = want s m) as Hw.
  { intros m. destruct (decide (m = n)) as [->|Hm]; [done|]. by eapply apart_want. }
  apply (inv_step_one host cl n s); [done| | |by rewrite Hph| |].
  - intros m Hm. destruct (Hap m Hm) as (F' & H). split; [|done].
    eapply frame_trans; [done|]. by constructor.
  - rewrite <-(app_nil_r (tr ++ e)). split; [by eapply frame_proc|]. intros _.
    split; [by eapply frame_acc|]. cbn [s_phase set_phase]. rewrite launching_eq.
    by eapply frame_launchable.
  - intros m Hm _. cbn [s_phase set_phase]. rewrite launching_ne, Hph by done. by destruct st.
  - eapply reapply_phase; [apply HI|done|done|done|done].
Qed.

Lemma gave_up_one n : gave_up n [EvGaveUp n] = 1%nat.
Proof. unfold gave_up, count_events. cbn. by rewrite bool_decide_eq_true_2. Qed.
Lemma gave_up_other n m : m ≠ n → gave_up m [EvGaveUp n] = 0%nat.
Proof. intros Hm. unfold gave_up, count_events. cbn. by rewrite bool_decide_eq_false_2 by done. Qed.

Lemma give_up_inv n st todo started reply s s0 s' tr :
  Inv host cl s tr → s_phase s = Reapply n st todo started reply → st ≠ RLaunch →
  (∀ m, Frame m s s0) → sh_applying (s_shared s0) = sh_applying (s_shared s) →
  s' = set_phase s0 (Reapply n RLaunch todo started reply) → Inv host cl s' (tr ++ [EvGaveUp n]).
Proof.
  intros HI Hph Hst HF Ha ->.
  destruct (inv_good host cl s tr n HI) as (P & A & St); [by rewrite Hph|rewrite Hph; by destruct st|].
  pose proof (HF n) as F. destruct (core_fields _ _ (fr_core _ _ _ F)) as (_ & Ew & Ep & _ & Epids).
  pose proof (reapply_wanted s n st todo started reply (proj2 HI) Hph) as W.
  assert (gave_up n (tr ++ [EvGaveUp n]) = S (gave_up n tr)) as Hg
    by (rewrite gave_up_app, gave_up_one; lia).
  eapply to_launch_inv; try done.
  - intros m Hm. split_and!; [apply HF|by apply gave_up_other|done].
  - destruct P as [B C D]. constructor; rewrite ?Hg, ?Epids, ?(fr_out _ _ _ F); [lia|lia|done].
  - by eapply frame_acc.
  - split; [|unfold want in W; by rewrite Ew]. rewrite Hg, (fr_out _ _ _ F).
    destruct P as [B C D]. assert (pids (the_child s n) ≤ 1)%nat by (unfold pids; destruct (c_pid _); lia).
    lia.
Qed.

Lemma restart_begin_inv t n todo started reply s s' e tr :
  s_phase s = Reapply n RBegin todo started reply → Inv host cl s tr →
  restart_begin t n todo started reply s = Some (s', e) → Inv host cl s' (tr ++ e).
Proof.
  intros Hph HI H. unfold restart_begin in H. step_inv.
  - apply untouched_inv with s; [done|by rewrite Hph|by rewrite Hph|intros m; frame|done|done|].
    by eapply reapply_phase; [apply HI|..].
  - destruct (inv_good host cl s tr n HI) as (P & A & St); [by rewrite Hph..|].
    pose proof (reapply_wanted s n RBegin todo started reply (proj2 HI) Hph) as W.
    eapply to_launch_inv; try done; rewrite ?app_nil_r; try done.
    split; [|done]. destruct P as [B C D]. unfold pids in B. rewrite Heqo in B. lia.
Qed.

Lemma restart_wait_inv t w n p deadline killed todo started reply s s' e tr :
  s_phase s = Reapply n (RWait p deadline killed) todo started reply → Inv host cl s tr →
  restart_wait t w n p deadline killed todo started reply s = Some (s', e) →
  Inv host cl s' (tr ++ e).
Proof.
  intros Hph HI H. unfold restart_wait in H. step_inv; cbn [app s_now set_now s_exits] in *.
  - apply (give_up_inv n (RWait p deadline killed) todo started reply s (set_now s t)); try done.
  - (* its own exit *)
    subst c.
    destruct (inv_good host cl s tr n HI) as (P & A & St); [by rewrite Hph..|].
    pose proof (reapply_wanted s n _ todo started reply (proj2 HI) Hph) as W.
    set (s2 := set_now (set_now s t) t0) in *.
    assert (∀ m, Frame m s s2) as HF by (intros m; frame).
    assert (Proc n s2 tr ∧ Acc n s2 tr) as [P2 A2].
    { rewrite <-(app_nil_r tr). split; [by eapply frame_proc|by eapply frame_acc]. }
    destruct (note_exit_spec n s0 l t0 s2 s1 e1 tr) as (P' & L & A' & W' & R & Ap & _); try done.
    rewrite app_nil_r.
    apply (to_launch_inv n (RWait p deadline killed) todo started reply s s1); try done.
    + intros m Hm. destruct (Ap m Hm) as (F & HE). split; [|done]. by eapply frame_trans.
    + by apply A'.
    + split; [done|]. by rewrite W'.
    + by destruct (rest_fields _ _ R) as [_ ->].
  - (* another child's *)
    set (s2 := set_now (set_now s t) t0) in *.
    assert (∀ m, Frame m s s2) as HF by (intros m; frame).
    destruct (inv_good host cl s tr c HI) as (P & A & St); [by rewrite Hph..|].
    assert (Proc c s2 tr ∧ Acc c s2 tr) as [P2 A2].
    { rewrite <-(app_nil_r tr). split; [by eapply frame_proc|by eapply frame_acc]. }
    destruct (on_exit_spec c s0 l t0 s2 s' e0 tr) as (G & W & R & Ap & _); try done.
    assert (want s c = true) as Wc by (by apply (queued_wanted c s0 l s2 tr)).
    apply (inv_step_good host cl c s); try done; [|by rewrite Hph|by unfold want in *; congruence].
    intros m Hm. destruct (Ap m Hm) as (F & HE). split; [|done]. by eapply frame_trans.
  - apply (give_up_inv n (RWait p deadline true) todo started reply s (set_now (set_now s t) t0));
      try done. intros m. frame.
  - apply untouched_inv with s; [done|by rewrite Hph|by rewrite Hph|intros m; frame|done|done|].
    by eapply reapply_phase; [apply HI|..].
Qed.

Lemma restart_launch_good io n todo started reply s s1 e1 tr :
  s_phase s = Reapply n RLaunch todo started reply → Inv host cl s tr →
  launch n io (set_pending s (retain_not n (s_pending s))) = Some (s1, e1) →
  AllGood s1 (tr ++ e1) ∧ (∀ m, want s1 m = want s m) ∧ rest s1 = rest s.
Proof.
  intros Hph HI H. set (s0 := set_pending s (retain_not n (s_pending s))) in *.
  assert (∀ m, m ≠ n → Frame m s s0) as HF.
  { intros m Hm. constructor; cbn; try done. by apply pending_of_retain_ne. }
  destruct HI as [HC HP]. pose proof (HC n) as [P HA].
  rewrite Hph in HA. rewrite launching_eq in HA. destruct (HA eq_refl) as [A [L W]].
  destruct (launch_spec n io s0 s1 e1 tr H) as (G & W1 & R & Ap & _).
  { apply pending_of_retain. }
  { exact L. }
  { destruct A as [B C D]. by constructor. }
  { intros Gu pid Hl. apply (procs_zero n pid (s_live s)); [|done].
    unfold outstanding in L. lia. }
  split_and!; [| |by rewrite R].
  - intros m. destruct (decide (m = n)) as [->|Hm]; [done|]. destruct (Ap m Hm) as (F & F1 & F2).
    apply (good_frame m s); [by eapply frame_trans; [apply HF|]|done|done|].
    destruct (HC m) as [Pm HAm]. rewrite Hph, launching_ne in HAm by done.
    by destruct (HAm eq_refl) as [Am Sm].
  - intros m. destruct (decide (m = n)) as [->|Hm]; [unfold want; by rewrite W1, W|].
    by apply (apart_want n s0 s1 e1).
Qed.

Lemma allgood_same s s' tr e :
  AllGood s tr → (∀ n, Frame n s s') → silent e → AllGood s' (tr ++ e).
Proof. intros HG HF He. apply (allgood_frame s); [done|]. intros n. split; [apply HF|apply He]. Qed.

Lemma restart_launch_inv io fed_at n todo started reply s s' e tr :
  s_phase s = Reapply n RLaunch todo started reply → Inv host cl s tr →
  restart_launch io fed_at n todo started reply s = Some (s', e) → Inv host cl s' (tr ++ e).
Proof.
  intros Hph HI H. unfold restart_launch, next_restart in H. step_inv1.
  destruct (restart_launch_good io n todo started reply s s1 e1 tr Hph HI H0) as (G & W & R).
  destruct (rest_fields _ _ R) as [_ Ra]. pose proof (proj2 HI) as HP. unfold PhaseInv in HP.
  rewrite Hph in HP. destruct HP as (W1 & W2 & W3 & W4 & HT). clear HI H0.
  step_inv; rewrite (app_assoc tr e1); apply inv_allgood; try done; split.
  - apply (allgood_same s1); [done|intros m; frame|]. intros m.
    by destruct (feed_during_reapply _ _), reply.
  - unfold PhaseInv, want in *. cbn [s_phase set_phase]. sup. by rewrite !W.
  - apply (allgood_same s1); [done|intros m; frame|]. intros m.
    by destruct (feed_during_reapply _ _).
  - unfold PhaseInv, want in *. cbn [s_phase set_phase]. sup. rewrite !W, Ra.
    destruct HT as [[-> E]|(-> & -> & E)]; [|done]. destruct host; [|done]. injection E as -> ->.
    split_and!; try done. by right.
Qed.

(** *** The stop sequence *)

Lemma proc_same n s s' tr e :
  c_pid (the_child s' n) = c_pid (the_child s n) → s_live s' = s_live s → s_exits s' = s_exits s →
  gave_up n e = 0%nat → Proc n s tr → Proc n s' (tr ++ e).
Proof.
  intros Hp Hl Hx He [A B C]. unfold pids, outstanding in *.
  constructor; unfold pids, outstanding; rewrite ?gave_up_app, ?He, ?Hp, ?Hl, ?Hx, ?Nat.add_0_r; done.
Qed.

Lemma stopping_inv s' tr e :
  (∀ n, Proc n s' (tr ++ e)) → active (s_phase s') = false → PhaseInv host cl s' →
  Inv host cl s' (tr ++ e).
Proof. intros HP Ha HPh. split; [|done]. intros n. split; [apply HP|]. by rewrite Ha. Qed.

Lemma signals_silent (sig : Signal) (targets : list (ChildName * Z)) (e : list Event) :
  silent e → silent (((λ np, EvSignal np.2 sig) <$> targets) ++ e).
Proof. intros He. by induction targets as [|np targets IH]. Qed.

Lemma unwant_all_child s n : the_child (unwant_all s) n = set_want (the_child s n) false.
Proof. unfold unwant_all, unwant. destruct n; by sup. Qed.

Lemma targets_of_elem s n p : (n, p) ∈ targets_of s ↔ c_pid (the_child s n) = Some p.
Proof.
  unfold targets_of. rewrite list_elem_of_omap. split.
  - intros (m & _ & H). destruct (c_pid (the_child s m)) eqn:E; [|done]. by injection H as -> ->.
  - intros H. exists n. split; [destruct n; set_solver|]. by rewrite H.
Qed.

Lemma stop_signal_inv t grace reload s s' e tr :
  Inv host cl s tr → stop_signal t grace reload s = Some (s', e) → Inv host cl s' (tr ++ e).
Proof.
  intros [HC _] H. unfold stop_signal in H. step_inv. apply stopping_inv; [|done|].
  - intros n. apply (proc_same n s); [|done|done| |apply HC].
    + cbn. sup. by rewrite unwant_all_child.
    + rewrite gave_up_app, <-(app_nil_r (_ <$> _)). by apply signals_silent.
  - intros n. unfold want. sup. by rewrite unwant_all_child.
Qed.

Lemma finish_stop_inv reload targets alive s0 s s' e tr :
  (∀ n, Proc n s tr) → finish_stop reload targets alive s0 = Some (s', e) →
  (∀ n, Proc n s tr → Proc n s0 tr) → Inv host cl s' (tr ++ e).
Proof.
  intros HP H Hs. unfold finish_stop in H. step_inv. apply stopping_inv; [|done|done].
  intros n. apply (proc_same n s0); [done..| |by apply Hs].
  by apply signals_silent.
Qed.

Lemma stop_turn_inv t w reload deadline targets alive s s' e tr :
  s_phase s = Stopping reload deadline targets alive → Inv host cl s tr →
  stop_turn t w reload deadline targets alive s = Some (s', e) → Inv host cl s' (tr ++ e).
Proof.
  intros Hph HI H. assert (HP : ∀ n, Proc n s tr) by apply HI.
  destruct HI as [_ HPh]. unfold PhaseInv in HPh. rewrite Hph in HPh.
  unfold stop_turn in H. step_inv; cbn [app s_exits s_now set_now] in *;
    try (eapply finish_stop_inv; [exact HP|eassumption|]; intros n' P'; rewrite <-(app_nil_r tr);
         by apply (proc_same n' s)).
  rewrite app_nil_r. set (s2 := set_now (set_now s t) t0) in *.
  assert (∀ m, Frame m s s2) as HF by (intros m; frame).
  assert (∀ m, Proc m s2 tr) as HP2 by (intros m; rewrite <-(app_nil_r tr); by eapply frame_proc).
  match goal with H : note_exit ?c ?x t0 (set_exits s2 ?l) = _ |- _ =>
    destruct (note_exit_spec c x l t0 s2 s1 e1 tr) as (P' & L & A' & W' & R & Ap & _); [done..|] end.
  assert (∀ m, Proc m s1 (tr ++ e1) ∧ want s1 m = want s m) as HP1.
  { intros m. destruct (decide (m = c)) as [->|Hm]; [by split; [|unfold want; rewrite W']|].
    destruct (Ap m Hm) as (F & F1 & F2). split; [by eapply frame_proc|].
    by rewrite (frame_want m s2 s1). }
  apply stopping_inv; [|done|].
  - intros m. destruct (HP1 m) as [P1 _]. rewrite <-(app_nil_r (tr ++ e1)). by apply (proc_same m s1).
  - intros m. destruct (HP1 m) as [_ Wm]. change (want s1 m = false). by rewrite Wm.
Qed.

Lemma inv_init pid now : Inv host cl (sup_init pid now) [].
Proof.
  split; [|by intros []]. intros n. assert (outstanding n (sup_init pid now) = 0%nat) as Ho.
  { unfold outstanding, procs, queued. cbn. by rewrite map_filter_empty, map_size_empty. }
  split; [|intros _; split].
  - constructor; rewrite ?Ho; [lia|by destruct n|]. intros _ pid' H. cbn in H. by rewrite lookup_empty in H.
  - constructor; rewrite ?Ho; by destruct n.
  - cbn. by destruct n.
Qed.
End preservation.

(** ** Runs *)

Section runs_facts.
Context (view : View) (config : string) (clustered : bool) (stop_grace : Duration)
        (parse : string → result Error Declaration) (refusal_error : Refusal → Error).

Local Abbreviation host := (is_host view).
Local Abbreviation vstep := (step view config clustered stop_grace parse refusal_error).
Local Abbreviation vrun := (run view config clustered stop_grace parse refusal_error).

Lemma die_inv pid cause s s' e tr :
  die pid cause s = Some (s', e) → Inv host clustered s tr → Inv host clustered s' (tr ++ e).
Proof.
  intros H HI.
  assert (∀ m, Frame m s s' ∧ e = [] ∧ rest s' = rest s) as HD by (intros m; by eapply die_spec).
  destruct (HD Engine) as (_ & -> & R). destruct (rest_fields _ _ R) as [Rp Ra].
  apply (inv_step_none host clustered s); [done|intros n; split; [apply HD|done]|by rewrite Rp|by rewrite Rp|].
  apply (phaseinv_same host clustered s); [done| |done|apply HI]. intros n. by apply frame_want, HD.
Qed.

Lemma log_inv n line s s' e tr :
  emit (put_child s n (push_log (the_child s n) line)) [] = Some (s', e) →
  Inv host clustered s tr → Inv host clustered s' (tr ++ e).
Proof.
  intros H HI. step_inv.
  apply (inv_step_none host clustered s); [done|intros m; split; [apply frame_log|done]|done|done|].
  apply (phaseinv_same host clustered s); [done| |done|apply HI]. intros m. by apply frame_want, frame_log.
Qed.

Lemma step_keeps a s s' e tr :
  vstep a s = Some (s', e) → Inv host clustered s tr → Inv host clustered s' (tr ++ e).
Proof.
  intros H HI. destruct a; cbn [step] in H; [by eapply die_inv|by eapply log_inv|..];
    destruct (s_phase s) eqn:Hph; try done; try (destruct stage; try done).
  - by eapply acquire_inv.
  - by eapply initial_apply_inv.
  - by eapply launch_engine_inv.
  - by eapply after_wait_inv.
  - by eapply launch_rest_inv.
  - step_inv. cbn [app s_exits set_now] in *.
    assert (Inv host clustered (set_now s t) tr) as HI'.
    { rewrite <-(app_nil_r tr). eapply untouched_inv; [done|by rewrite Hph|by rewrite Hph| |done| |].
      - intros m. frame.
      - cbn. by rewrite Hph.
      - apply (phaseinv_same host clustered s); [done..|apply HI]. }
    by eapply (take_exit_inv host clustered _ _ _ (set_now s t)).
  - by eapply respawn_inv.
  - by eapply on_reload_inv.
  - unfold begin_stop in H. step_inv.
    apply (untouched_inv host clustered s); [done|by rewrite Hph|by rewrite Hph|intros m; frame|done..].
  - by eapply feed_tick_inv.
  - by eapply ready_tick_inv.
  - by eapply restart_begin_inv.
  - by eapply restart_wait_inv.
  - by eapply restart_launch_inv.
  - by eapply stop_signal_inv.
  - by eapply stop_turn_inv.
Qed.

Lemma run_keeps acts s s' e tr :
  vrun acts s = Some (s', e) → Inv host clustered s tr → Inv host clustered s' (tr ++ e).
Proof.
  revert s e tr. induction acts as [|a acts IH]; intros s e tr H HI; cbn [run] in H.
  - step_inv. by rewrite app_nil_r.
  - step_inv. rewrite app_assoc. eapply IH; [done|]. by eapply step_keeps.
Qed.

Lemma run_inv acts pid now s tr :
  vrun acts (sup_init pid now) = Some (s, tr) → Inv host clustered s tr.
Proof. intros H. apply (run_keeps acts _ s tr [] H), inv_init. Qed.

(** C20. In any run of the supervisor a child has at most one process that is not accounted for,
    plus one for each restart of it that stopped waiting; while no restart of it did, the process
    the supervisor holds the pid of is the only one, and it is the child's only exit to come. *)
Theorem processes_bounded acts pid now s tr :
  vrun acts (sup_init pid now) = Some (s, tr) →
  ∀ n, (procs n (s_live s) + queued n (s_exits s) ≤ 1 + gave_up n tr)%nat ∧
  (gave_up n tr = 0%nat →
    ((procs n (s_live s) + queued n (s_exits s) = 1)%nat ↔ is_Some (c_pid (the_child s n))) ∧
    ∀ p, s_live s !! p = Some n → c_pid (the_child s n) = Some p).
Proof.
  intros H n. destruct (run_inv _ _ _ _ _ H) as [HC _]. destruct (HC n) as [[A B D] _].
  unfold outstanding, pids in *. split; [destruct (c_pid (the_child s n)); lia|].
  intros G. split; [|by apply D]. rewrite G in A.
  destruct (c_pid (the_child s n)) as [p|]; split; intros Hx; try lia; [done|by destruct Hx].
Qed.

(** C7. While the loop serves, every child this member runs either has a process or has exactly
    one respawn pending, due within the backoff, and is reported as restarting; a child it does
    not run is stopped, with neither. *)
Theorem wanted_child_never_forgotten acts pid now s tr :
  vrun acts (sup_init pid now) = Some (s, tr) → s_phase s = Serving →
  ∀ n, let c := the_child s n in
  c_want c = match n with Engine => true | ShapeDaemon => host | ConfSync => clustered end ∧
  if c_want c then
    match c_pid c with
    | Some _ => (c_state c = Starting ∨ c_state c = Running) ∧ pending_of n (s_pending s) = []
    | None => c_state c = Restarting ∧
        ∃ d, pending_of n (s_pending s) = [(n, d)] ∧ d ≤ s_now s + BACKOFF
    end
  else c_state c = Stopped ∧ c_pid c = None ∧ pending_of n (s_pending s) = [].
Proof.
  intros H Hph n c. pose proof (run_inv _ _ _ _ _ H) as HI.
  destruct (inv_good host clustered s tr n HI) as (_ & _ & St); [by rewrite Hph..|].
  split; [|exact St]. destruct HI as [_ HP]. unfold PhaseInv in HP. rewrite Hph in HP.
  destruct HP as (W1 & W2 & W3 & _). by destruct n.
Qed.

(** The restart counter of a child is the number of times it was launched, less the
    processes of it not yet accounted for: it never resets and misses no exit, so a crash loop
    shows. While no restart stopped waiting it is the launches less one if the child runs. *)
Theorem restarts_count_launches acts pid now s tr :
  vrun acts (sup_init pid now) = Some (s, tr) → active (s_phase s) = true →
  ∀ n, Z.of_nat (attempts n tr) =
         c_restarts (the_child s n) + Z.of_nat (procs n (s_live s) + queued n (s_exits s)) ∧
       (gave_up n tr = 0%nat →
          c_restarts (the_child s n) =
            Z.of_nat (attempts n tr) - match c_pid (the_child s n) with Some _ => 1 | None => 0 end).
Proof.
  intros H Ha n. destruct (run_inv _ _ _ _ _ H) as [HC _]. destruct (HC n) as [[A B D] HA].
  destruct (HA Ha) as [[C E F] _]. split; [exact C|]. intros G. rewrite G in A.
  unfold pids in *. destruct (c_pid (the_child s n)); lia.
Qed.

(** Systemd's watchdog is fed on every tick of a serving supervisor, but for one case: an
    engine that is running and does not answer. A child that starts or crash-loops never costs
    the unit its life, and neither does one that is not run here. *)
Theorem feed_withheld_only_for_silent_engine acts pid now s tr t read s' e :
  vrun acts (sup_init pid now) = Some (s, tr) → s_phase s = Serving →
  vstep (FeedTick t read) s = Some (s', e) →
  s' = set_now s t ∧
  e = (if decide (c_state (the_child s Engine) = Running ∧ read = ReadFailed) then [] else [EvFeed]).
Proof.
  intros H Hph Hs. pose proof (run_inv _ _ _ _ _ H) as HI.
  destruct (inv_good host clustered s tr Engine HI) as (_ & _ & St); [by rewrite Hph..|].
  destruct HI as [_ HP]. unfold PhaseInv in HP. rewrite Hph in HP. destruct HP as (W1 & _ & _ & Ha).
  cbn [step] in Hs. rewrite Hph in Hs. unfold feed_tick in Hs. step_inv. split; [done|].
  change (sh_applying (s_shared (set_now s t))) with (sh_applying (s_shared s)). rewrite Ha.
  change (the_child (set_now s t) Engine) with (the_child s Engine).
  unfold settled in St. unfold want in W1. rewrite W1 in St.
  destruct (c_state (the_child s Engine)); destruct read; try done;
    destruct (c_pid (the_child s Engine)); destruct St as [St _]; (by destruct St) || done.
Qed.
End runs_facts.

(** ** [wait_ready] *)

Definition answered (o : option EngineDoc) : option EngineDoc :=
  doc ← o; if doc_ready doc then Some doc else None.

Lemma wait_loop_spec fuel req k :
  (k + S fuel = WAIT_TURNS)%nat →
  wait_loop (S fuel) req k (POLL_MS * Z.of_nat k) =
    Some (head (omap (λ k, answered (req k)) (seq k (S fuel)))).
Proof.
  revert k. induction fuel as [|fuel IH]; intros k Hk.
  - assert (k = 60%nat) as -> by (unfold WAIT_TURNS in Hk; lia). cbn.
    unfold answered. by destruct (req 60%nat ≫= _).
  - cbn [wait_loop]. change (seq k (S (S fuel))) with (k :: seq (S k) (S fuel)). cbn [omap list_omap].
    unfold answered at 1. destruct (req k ≫= _) as [doc|]; [done|].
    destruct (Z.leb_spec START_WAIT_MS (POLL_MS * Z.of_nat k)) as [Hle|Hlt].
    { unfold START_WAIT_MS, POLL_MS, WAIT_TURNS in *. lia. }
    replace (POLL_MS * Z.of_nat k + POLL_MS) with (POLL_MS * Z.of_nat (S k)) by lia.
    apply IH. lia.
Qed.

(** The readiness wait always returns: it asks the engine at most 61 times, every 500 ms for
    30 s, and answers the first document that says ready, or nothing if none of them does. *)
Theorem wait_ready_returns (req : nat → option EngineDoc) :
  wait_ready req = Some (head (omap (λ k, answered (req k)) (seq 0 61))) ∧
  POLL_MS * 60 = START_WAIT_MS.
Proof. split; [by apply (wait_loop_spec 60)|done]. Qed.

(** ** The reload *)

Section reload_facts.
Context (view : View) (config : string) (clustered : bool) (stop_grace : Duration)
        (parse : string → result Error Declaration) (refusal_error : Refusal → Error).

Local Abbreviation vstep := (step view config clustered stop_grace parse refusal_error).
Local Abbreviation vrun := (run view config clustered stop_grace parse refusal_error).

(** What the file on disk says of this member's fabric, if it says anything. *)
Definition on_disk (read : result string string) : option Fabric :=
  match read with
  | Ok text =>
      match parse_for_member parse refusal_error (m_name (v_member view)) text with
      | Ok f => Some f
      | Err _ => None
      end
  | Err _ => None
  end.

Lemma read_reload_spec read :
  match read_reload parse refusal_error view config read with
  | Identical => on_disk read = Some (v_fabric view)
  | Changed => ∃ f, on_disk read = Some f ∧ f ≠ v_fabric view
  | Invalid _ => on_disk read = None
  end.
Proof.
  destruct read as [text|e]; cbn; [|done]. unfold classify_reload.
  destruct (parse_for_member _ _ _ _) as [f|e]; [|by destruct e].
  destruct (decide (f = v_fabric view)) as [->|Hne]; [done|]. by exists f.
Qed.

(** The children, the processes, the pending respawns and the exits to come are what they were. *)
Definition fabric_kept (s s' : Sup) : Prop :=
  sh_children (s_shared s') = sh_children (s_shared s) ∧ s_live s' = s_live s ∧
  s_pending s' = s_pending s ∧ s_exits s' = s_exits s.

(** What a SIGHUP or a [reapply] does, by what is on disk. Unreadable, unparseable, invalid,
    or another member's: the running fabric is kept and the caller told. Another valid fabric of
    this member: the stop sequence, to be restarted on it. The same fabric: it is applied again;
    if that is refused the fabric is kept, else the engine is restarted first, with the apply
    counted only at the end. The processes are untouched in every case. *)
Theorem reload_by_what_is_on_disk read io reply s s' e :
  s_phase s = Serving → vstep (TakeReload read io reply) s = Some (s', e) →
  fabric_kept s s' ∧ (∀ n, attempts n e = 0%nat) ∧ (∀ p sig, EvSignal p sig ∉ e) ∧
  match on_disk read with
  | None => s_phase s' = Serving ∧ ∃ why, e = replied reply (Err why) ∧
      sh_last_apply_error (s_shared s') = Some why
  | Some f =>
      if decide (f = v_fabric view) then
        match ap_result io with
        | Err err => s_phase s' = Serving ∧ e = replied reply (Err (display err)) ∧
            sh_applying (s_shared s') = false ∧ sh_applies (s_shared s') = sh_applies (s_shared s)
        | Ok _ => s_phase s' =
            Reapply Engine RBegin (if is_host view then [ShapeDaemon] else []) (ap_at io) reply ∧
            sh_applying (s_shared s') = true ∧ sh_applies (s_shared s') = sh_applies (s_shared s)
        end
      else s_phase s' = StopBegin true ∧ e = replied reply (Ok tt)
  end.
Proof.
  intros Hph H. cbn [step] in H. rewrite Hph in H.
  pose proof (read_reload_spec read) as HR. unfold on_reload, begin_stop, do_reapply in H.
  destruct (read_reload _ _ _ _ _) as [| |why].
  - rewrite HR, decide_True by done. step_inv; split_and!; try done; try (by destruct reply);
      try (intros; rewrite ?app_nil_r; by destruct (feed_during_reapply _ _)).
    + intros p sig. destruct (feed_during_reapply _ _); cbn; set_solver.
    + intros p sig. destruct reply; cbn; set_solver.
  - destruct HR as (f & -> & Hne). rewrite decide_False by done. step_inv. rewrite app_nil_r.
    split_and!; try done; [by destruct reply|]. intros p sig. destruct reply; cbn; set_solver.
  - rewrite HR. step_inv. split_and!; try done; [by destruct reply|destruct reply; cbn; set_solver|].
    by eexists.
Qed.
End reload_facts.

(** ** The stop sequence *)

Section stop_facts.
Context (view : View) (config : string) (clustered : bool) (stop_grace : Duration)
        (parse : string → result Error Declaration) (refusal_error : Refusal → Error).

Local Abbreviation vstep := (step view config clustered stop_grace parse refusal_error).
Local Abbreviation vrun := (run view config clustered stop_grace parse refusal_error).

(** What the stop owes child [n], which had process [p] when it began. *)
Definition StopInv (reload : bool) (n : ChildName) (p : Z) (s : Sup) (tr : list Event) : Prop :=
  (∀ m, attempts m tr = 0%nat) ∧
  let told := ∃ tr1 tr2, tr = tr1 ++ EvForwardingOff :: tr2 ∧ (∀ q sig, EvSignal q sig ∉ tr1) ∧
                EvSignal p SIGTERM ∈ tr2 in
  match s_phase s with
  | StopBegin r => r = reload ∧ c_pid (the_child s n) = Some p ∧ ∀ q sig, EvSignal q sig ∉ tr
  | Stopping r _ targets alive => r = reload ∧ told ∧ (n, p) ∈ targets ∧
      (n ∈ alive ∨ ∃ cause, EvExit n cause ∈ tr)
  | Exited code => code = (if reload then EXIT_RELOAD else EXIT_OK) ∧ told ∧
      (EvSignal p SIGKILL ∈ tr ∨ ∃ cause, EvExit n cause ∈ tr) ∧
      ∃ tr', tr = tr' ++ [EvTeardown]
  | _ => False
  end.

Lemma told_app tr e p :
  (∃ tr1 tr2, tr = tr1 ++ EvForwardingOff :: tr2 ∧ (∀ q sig, EvSignal q sig ∉ tr1) ∧
                EvSignal p SIGTERM ∈ tr2) →
  ∃ tr1 tr2, tr ++ e = tr1 ++ EvForwardingOff :: tr2 ∧ (∀ q sig, EvSignal q sig ∉ tr1) ∧
                EvSignal p SIGTERM ∈ tr2.
Proof.
  intros (tr1 & tr2 & -> & H1 & H2). exists tr1, (tr2 ++ e). rewrite <-app_assoc. set_solver.
Qed.

Lemma stop_signal_keeps n p t reload s s' e tr :
  s_phase s = StopBegin reload → StopInv reload n p s tr →
  stop_signal t stop_grace reload s = Some (s', e) → StopInv reload n p s' (tr ++ e).
Proof.
  intros Hph [HA HI] H. rewrite Hph in HI. destruct HI as (_ & Hp & Hno). unfold stop_signal in H.
  step_inv. cbn [app]. set (targets := targets_of (unwant_all s)).
  assert (Hin : (n, p) ∈ targets) by (by apply targets_of_elem; rewrite unwant_all_child).
  split.
  - intros m. rewrite attempts_app, HA. cbn. pose proof (signals_silent SIGTERM targets [] ltac:(done) m) as [_ Hs].
    rewrite app_nil_r in Hs. exact Hs.
  - cbn. split_and!; [done| |done|left; apply list_elem_of_fmap; by exists (n, p)].
    exists (tr ++ [EvStopping]), ((λ np, EvSignal np.2 SIGTERM) <$> targets).
    rewrite <-app_assoc. split_and!; [done|set_solver|]. apply list_elem_of_fmap. by exists (n, p).
Qed.

Lemma finish_stop_keeps n p reload targets alive s0 s s' e tr d :
  s_phase s = Stopping reload d targets alive → StopInv reload n p s tr →
  finish_stop reload targets alive s0 = Some (s', e) → StopInv reload n p s' (tr ++ e).
Proof.
  intros Hph [HA HI] H. rewrite Hph in HI. destruct HI as (_ & HT & Hin & HO).
  unfold finish_stop in H. step_inv. split.
  - intros m. rewrite attempts_app, HA. apply signals_silent; done.
  - cbn. split_and!; [done|by apply told_app| |by eexists; rewrite app_assoc].
    destruct HO as [Ha|[c Hc]]; [left|right; exists c; set_solver].
    apply elem_of_app. right. apply elem_of_app. left. apply list_elem_of_fmap. exists (n, p).
    split; [done|]. by apply list_elem_of_filter.
Qed.

Lemma stop_turn_keeps n p t w reload d targets alive s s' e tr :
  s_phase s = Stopping reload d targets alive → StopInv reload n p s tr →
  stop_turn t w reload d targets alive s = Some (s', e) → StopInv reload n p s' (tr ++ e).
Proof.
  intros Hph HI H. unfold stop_turn in H.
  step_inv; cbn [app s_exits s_now set_now] in *; try (by eapply finish_stop_keeps).
  destruct HI as [HA HI]. rewrite Hph in HI. destruct HI as (_ & HT & Hin & HO).
  unfold note_exit in H. step_inv. split.
  - intros m. rewrite attempts_app, HA. done.
  - cbn. split_and!; [done|by apply told_app|done|].
    destruct HO as [Ha|[x Hx]]; [|right; exists x; set_solver].
    destruct (decide (n = c)) as [->|Hne]; [right; eexists; apply elem_of_app; right; cbn; apply list_elem_of_here|].
    left. by apply list_elem_of_filter.
Qed.

Lemma stop_step_keeps reload n p a s s' e tr :
  vstep a s = Some (s', e) → StopInv reload n p s tr → StopInv reload n p s' (tr ++ e).
Proof.
  intros H HI. pose proof HI as [HA HP].
  destruct a; cbn [step] in H; [| |destruct (s_phase s) eqn:Hph; try done..];
    try (destruct HP as [-> HP]).
  - unfold die in H. step_inv. by rewrite app_nil_r.
  - step_inv. rewrite app_nil_r. split; [done|]. sup.
    destruct (s_phase s); try done. destruct HP as (? & Hp & ?). split_and!; [done| |done].
    destruct (decide (n = n0)) as [->|Hm]; by sup.
  - by eapply stop_signal_keeps.
  - by eapply stop_turn_keeps.
Qed.

Lemma stop_run_keeps reload n p acts s s' e tr :
  vrun acts s = Some (s', e) → StopInv reload n p s tr → StopInv reload n p s' (tr ++ e).
Proof.
  revert s e tr. induction acts as [|a acts IH]; intros s e tr H HI; cbn [run] in H.
  - step_inv. by rewrite app_nil_r.
  - step_inv. rewrite app_assoc. eapply IH; [done|]. by eapply stop_step_keeps.
Qed.

(** From the first moment of the stop sequence nothing is launched any more; when it has
    exited, forwarding was turned off before any child was signalled, every child that had a
    process was asked to go, and then either its exit was taken or it was killed; the teardown
    is the last thing done, and the exit code says whether to start again. *)
Theorem stop_accounts_for_every_child acts reload s s' tr code :
  s_phase s = StopBegin reload → vrun acts s = Some (s', tr) → s_phase s' = Exited code →
  ∀ n p, c_pid (the_child s n) = Some p →
    code = (if reload then EXIT_RELOAD else EXIT_OK) ∧
    (∀ m, attempts m tr = 0%nat) ∧
    (∃ tr1 tr2, tr = tr1 ++ EvForwardingOff :: tr2 ∧ (∀ q sig, EvSignal q sig ∉ tr1) ∧
       EvSignal p SIGTERM ∈ tr2) ∧
    (EvSignal p SIGKILL ∈ tr ∨ ∃ cause, EvExit n cause ∈ tr) ∧
    ∃ tr', tr = tr' ++ [EvTeardown].
Proof.
  intros Hph H Hex n p Hp.
  assert (StopInv reload n p s []) as HI.
  { split; [done|]. rewrite Hph. split_and!; [done|done|set_solver]. }
  pose proof (stop_run_keeps reload n p acts s s' tr [] H HI) as [HA HP]. cbn [app] in *.
  rewrite Hex in HP. destruct HP as (-> & HT & HK & HD). done.
Qed.

(** Once the grace is over, the next turn of the stop ends it, whatever the children do. *)
Lemma stop_ends t w reload d targets alive s :
  s_phase s = Stopping reload d targets alive → s_now s ≤ t → d ≤ t →
  ∃ s' e, vstep (StopTurn t w) s = Some (s', e) ∧
    s_phase s' = Exited (if reload then EXIT_RELOAD else EXIT_OK).
Proof.
  intros Hph Ht Hd. cbn [step]. rewrite Hph. unfold stop_turn.
  destruct (decide (alive = [])); [by eexists _, _|]. unfold reads.
  destruct (Z.leb_spec (s_now s) t); [|lia]. cbn. destruct (Z.leb_spec d t); [|lia]. by eexists _, _.
Qed.
End stop_facts.

(** ** The respawn arm *)

Definition mentions (n : ChildName) (ns : list ChildName) : nat := length (filter (λ m, m = n) ns).

Lemma launch_event n m io s s' e :
  launch m io s = Some (s', e) → attempts n e = (if decide (m = n) then 1 else 0)%nat.
Proof.
  unfold launch. intros H. step_inv; unfold attempts, count_events; cbn;
    (destruct (decide (m = n)) as [->|Hne];
     [by rewrite bool_decide_eq_true_2|by rewrite bool_decide_eq_false_2]).
Qed.

Lemma launch_all_event n ns ios s s' e :
  launch_all ns ios s = Some (s', e) → attempts n e = mentions n ns.
Proof.
  unfold mentions. revert ios s e. induction ns as [|m ns IH]; intros [|io ios] s e H;
    cbn [launch_all] in H; try done; step_inv; [done|].
  rewrite attempts_app, filter_cons. rewrite (launch_event n m io s s1 e1) by done.
  rewrite (IH ios s1 e2) by done. by destruct (decide (m = n)).
Qed.

Lemma due_mentions n now p :
  mentions n ((filter (λ q : ChildName * Instant, q.2 ≤ now) p).*1) =
    length (filter (λ q : ChildName * Instant, q.2 ≤ now) (pending_of n p)).
Proof.
  unfold mentions, pending_of. induction p as [|[m d] p IH]; [done|].
  rewrite (filter_cons _ (m, d)), (filter_cons (λ q : ChildName * Instant, q.1 = n)). cbn [fst snd].
  destruct (decide (d ≤ now)) as [Hd|Hd], (decide (m = n)) as [E|E];
    rewrite ?fmap_cons, ?filter_cons; cbn [fst snd];
    rewrite ?(decide_True _ _ E), ?(decide_False _ _ E), ?(decide_True _ _ Hd), ?(decide_False _ _ Hd);
    cbn [length]; congruence.
Qed.

Lemma due_once n d now s tr :
  Good n s tr → (n, d) ∈ s_pending s → d ≤ now →
  length (filter (λ q : ChildName * Instant, q.2 ≤ now) (pending_of n (s_pending s))) = 1%nat.
Proof.
  intros G Hin Hd. destruct (pending_no_pid n d s tr G Hin) as (_ & _ & ->).
  by rewrite filter_cons, decide_True.
Qed.

Lemma launch_all_failing ns t s :
  s_now s ≤ t →
  ∃ s' e, launch_all ns (replicate (length ns) {| l_spawn := Err "EAGAIN"%string; l_at := t |}) s
    = Some (s', e).
Proof.
  revert s. induction ns as [|n ns IH]; intros s Ht; cbn [length replicate launch_all]; [by eexists _, _|].
  unfold launch at 1. cbn [l_at l_spawn]. unfold reads. sup.
  destruct (Z.leb_spec (s_now s) t); [|lia]. cbn [then_ emit].
  match goal with |- context [launch_all ns _ ?x] => destruct (IH x) as (s' & e & ->) end; [sup; lia|].
  by eexists _, _.
Qed.

Section respawn_facts.
Context (view : View) (config : string) (clustered : bool) (stop_grace : Duration)
        (parse : string → result Error Declaration) (refusal_error : Refusal → Error).

Local Abbreviation vstep := (step view config clustered stop_grace parse refusal_error).
Local Abbreviation vrun := (run view config clustered stop_grace parse refusal_error).

(** Nothing keeps a child from coming back: from the moment its respawn is due the loop can
    take the respawn, even if every fork fails, and whatever the forks answer it tries every
    child that is due exactly once, and no other. *)
Theorem respawn_when_due acts pid now s tr t n d :
  vrun acts (sup_init pid now) = Some (s, tr) → s_phase s = Serving → s_now s ≤ t →
  (n, d) ∈ s_pending s → d ≤ t →
  (∃ ios s' e, vstep (RespawnDue t ios) s = Some (s', e)) ∧
  ∀ ios s' e, vstep (RespawnDue t ios) s = Some (s', e) →
    attempts n e = 1%nat ∧
    ∀ m, (∀ d', (m, d') ∈ s_pending s → t < d') → attempts m e = 0%nat.
Proof.
  intros H Hph Ht Hin Hd. pose proof (run_inv _ _ _ _ _ _ _ _ _ _ _ H) as HI.
  pose proof (inv_good _ clustered s tr n HI) as G. rewrite Hph in G. specialize (G eq_refl eq_refl).
  split.
  - set (due := (filter (λ p : ChildName * Instant, p.2 ≤ t) (s_pending s)).*1).
    destruct (launch_all_failing due t
      (set_pending (set_now s t) (filter (λ p : ChildName * Instant, t < p.2) (s_pending s)))) as (s' & e & E); [done|].
    exists (replicate (length due) {| l_spawn := Err "EAGAIN"%string; l_at := t |}), s', e. cbn [step]. rewrite Hph. unfold respawn_due, reads.
    destruct (Z.leb_spec (s_now s) t); [|lia]. cbn [then_ s_pending set_now].
    fold due. by rewrite E.
  - intros ios s' e Hs. cbn [step] in Hs. rewrite Hph in Hs. unfold respawn_due in Hs.
    step_inv. cbn [app]. split.
    + rewrite (launch_all_event n _ ios _ s' e2) by done. rewrite due_mentions.
      by apply (due_once n d t s tr).
    + intros m Hm. rewrite (launch_all_event m _ ios _ s' e2) by done. rewrite due_mentions.
      match goal with |- length ?l = _ => destruct l as [|[k d'] l'] eqn:E; [done|exfalso] end.
      assert ((k, d') ∈ (k, d') :: l') as Hx by apply list_elem_of_here. rewrite <-E in Hx.
      apply list_elem_of_filter in Hx as [Hle [Ek Hx]%list_elem_of_filter]. cbn in Ek, Hle, Hx. subst k.
      specialize (Hm d' Hx). lia.
Qed.
End respawn_facts.

(** ** Concrete runs *)

Module SupSample.
Definition fabric : Fabric := match from_decl sample_decl with Ok f => f | Err _ => Sample.fabric end.
Definition view : View := {| v_fabric := fabric; v_member := Sample.h1 |}.
(** The one text that is the declaration, and the one that is not. *)
Definition parse (text : string) : result Error Declaration :=
  if String.eqb text "fabric" then Ok sample_decl else Err (Config "bad toml").
Definition refusal_error (r : Refusal) : Error := Config "refused".
Definition play := run view "/etc/cfab/fabric.toml" true CHILD_STOP_GRACE parse refusal_error.
Definition turn := step view "/etc/cfab/fabric.toml" true CHILD_STOP_GRACE parse refusal_error.
Definition init : Sup := sup_init 1 0.
Definition sec (n : Z) : Instant := from_secs n.
Definition fork (pid : Z) (t : Z) : LaunchIo := {| l_spawn := Ok pid; l_at := sec t |}.
Definition applied (t : Z) : ApplyIo := {| ap_at := sec t; ap_result := Ok tt; ap_done_at := sec t |}.
Definition ready_at (k : nat) (i : nat) : option EngineDoc :=
  if (i <? k)%nat then None else Some {| doc_ready := true; doc_readback := Ok tt |}.

(** Up to [Serving]: the engine is 100, the shape daemon 101, conf-sync 102. *)
Definition boot : list Action :=
  [Acquire true true true true; InitialApply (applied 1); LaunchEngine (fork 100 2);
   EngineReady (ready_at 3); LaunchRest (fork 101 4) (fork 102 4)].
(** The engine dies. *)
Definition crash : list Action := boot ++ [Die 100 "signal SIGSEGV"; TakeExit (sec 10)].
(** A reload whose engine does not go in time. *)
Definition overrun : list Action :=
  boot ++ [TakeReload (Ok "fabric"%string) (applied 20) true; RestartBegin (sec 20);
           RestartWait (sec 20) (Some (Elapsed (sec 30))); RestartWait (sec 30) None;
           RestartLaunch (fork 103 30) (sec 30); RestartBegin (sec 30); Die 101 "exit 0";
           RestartWait (sec 30) (Some (Got (sec 31))); RestartLaunch (fork 104 31) (sec 31)].
(** The old engine goes at last. *)
Definition stale_exit : list Action :=
  overrun ++ [Die 100 "signal SIGKILL"; TakeExit (sec 32); RespawnDue (sec 34) [fork 105 34]].
Definition stop : list Action :=
  [StopSignal (sec 11); Die 102 "exit 0"; StopTurn (sec 11) (Some (Got (sec 12)));
   StopTurn (sec 12) (Some (Elapsed (sec 21)))].
End SupSample.

(** After a restart that stopped waiting, the old engine's exit is taken for the new one's: the
    supervisor records no engine while 103 runs, counts a restart, and launches another. *)
Example stale_exit_leaves_two_engines :
  (λ st : Sup * list Event, (procs Engine (s_live st.1), c_pid (the_child st.1 Engine),
     gave_up Engine st.2, s_live st.1 !! 103)) <$> SupSample.play SupSample.stale_exit SupSample.init
  = Some (2%nat, Some 105, 1%nat, Some Engine).
Proof. by vm_compute. Qed.

(** A readback that refuses ends the start with the code whose comment says that no child was
    started. *)
Example refused_after_launch :
  (λ st : Sup * list Event, (s_phase st.1, st.2)) <$>
    SupSample.play [Acquire true true true true; InitialApply (SupSample.applied 1);
      LaunchEngine (SupSample.fork 100 2);
      EngineReady (λ _, Some {| doc_ready := true; doc_readback := Err (Fatal "vid") |})] SupSample.init
  = Some (Exited EXIT_APPLY_REFUSED, [EvSpawned Engine 100; EvSignal 100 SIGTERM]).
Proof. by vm_compute. Qed.

Lemma processes_witness :
  ∃ s tr, SupSample.play SupSample.overrun SupSample.init = Some (s, tr) ∧
  (procs Engine (s_live s), gave_up Engine tr, procs ShapeDaemon (s_live s)) = (2, 1, 1)%nat ∧
  ∀ n, (procs n (s_live s) + queued n (s_exits s) ≤ 1 + gave_up n tr)%nat ∧
  (gave_up n tr = 0%nat →
    ((procs n (s_live s) + queued n (s_exits s) = 1)%nat ↔ is_Some (c_pid (the_child s n))) ∧
    ∀ p, s_live s !! p = Some n → c_pid (the_child s n) = Some p).
Proof.
  eexists _, _. split; [vm_compute; reflexivity|]. split; [by vm_compute|].
  apply (processes_bounded SupSample.view "/etc/cfab/fabric.toml" true CHILD_STOP_GRACE
    SupSample.parse SupSample.refusal_error SupSample.overrun 1 0). vm_compute; reflexivity.
Defined.

(** After the engine's death: no process, one respawn due two seconds later. *)
Lemma wanted_child_witness :
  ∃ s tr, SupSample.play SupSample.crash SupSample.init = Some (s, tr) ∧ s_phase s = Serving ∧
  s_pending s = [(Engine, SupSample.sec 12)] ∧
  ∀ n, let c := the_child s n in
  c_want c = match n with Engine => true | ShapeDaemon => is_host SupSample.view | ConfSync => true end ∧
  if c_want c then
    match c_pid c with
    | Some _ => (c_state c = Starting ∨ c_state c = Running) ∧ pending_of n (s_pending s) = []
    | None => c_state c = Restarting ∧
        ∃ d, pending_of n (s_pending s) = [(n, d)] ∧ d ≤ s_now s + BACKOFF
    end
  else c_state c = Stopped ∧ c_pid c = None ∧ pending_of n (s_pending s) = [].
Proof.
  eexists _, _. split; [vm_compute; reflexivity|]. split; [reflexivity|]. split; [by vm_compute|].
  eapply (wanted_child_never_forgotten SupSample.view "/etc/cfab/fabric.toml" true CHILD_STOP_GRACE
    SupSample.parse SupSample.refusal_error SupSample.crash 1 0); [vm_compute; reflexivity|reflexivity].
Defined.

Lemma restarts_witness :
  ∃ s tr, SupSample.play SupSample.crash SupSample.init = Some (s, tr) ∧
  (c_restarts (the_child s Engine), attempts Engine tr) = (1, 1%nat) ∧
  ∀ n, Z.of_nat (attempts n tr) =
         c_restarts (the_child s n) + Z.of_nat (procs n (s_live s) + queued n (s_exits s)) ∧
       (gave_up n tr = 0%nat →
          c_restarts (the_child s n) =
            Z.of_nat (attempts n tr) - match c_pid (the_child s n) with Some _ => 1 | None => 0 end).
Proof.
  eexists _, _. split; [vm_compute; reflexivity|]. split; [by vm_compute|].
  apply (restarts_count_launches SupSample.view "/etc/cfab/fabric.toml" true CHILD_STOP_GRACE
    SupSample.parse SupSample.refusal_error SupSample.crash 1 0); [vm_compute; reflexivity|reflexivity].
Defined.

(** The engine is restarting: a failed read costs nothing. *)
Lemma feed_witness :
  ∃ s tr s' e, SupSample.play SupSample.crash SupSample.init = Some (s, tr) ∧
  SupSample.turn (FeedTick (SupSample.sec 11) ReadFailed) s = Some (s', e) ∧ e = [EvFeed] ∧
  s' = set_now s (SupSample.sec 11) ∧
  e = (if decide (c_state (the_child s Engine) = Running ∧ ReadFailed = ReadFailed) then []
       else [EvFeed]).
Proof.
  eexists _, _, _, _. split; [vm_compute; reflexivity|]. split; [vm_compute; reflexivity|].
  split; [reflexivity|].
  eapply (feed_withheld_only_for_silent_engine SupSample.view "/etc/cfab/fabric.toml" true
    CHILD_STOP_GRACE SupSample.parse SupSample.refusal_error SupSample.crash 1 0 _ _ _ ReadFailed); vm_compute; reflexivity.
Defined.

Lemma respawn_witness :
  ∃ s tr, SupSample.play SupSample.crash SupSample.init = Some (s, tr) ∧
  (∃ ios s' e, SupSample.turn (RespawnDue (SupSample.sec 12) ios) s = Some (s', e)) ∧
  ∀ ios s' e, SupSample.turn (RespawnDue (SupSample.sec 12) ios) s = Some (s', e) →
    attempts Engine e = 1%nat ∧
    ∀ m, (∀ d', (m, d') ∈ s_pending s → SupSample.sec 12 < d') → attempts m e = 0%nat.
Proof.
  eexists _, _. split; [vm_compute; reflexivity|].
  eapply (respawn_when_due SupSample.view "/etc/cfab/fabric.toml" true CHILD_STOP_GRACE
    SupSample.parse SupSample.refusal_error SupSample.crash 1 0 _ _ (SupSample.sec 12) Engine (SupSample.sec 12));
    [vm_compute; reflexivity|reflexivity|by vm_compute|apply list_elem_of_here|by vm_compute].
Defined.

(** The file no longer parses: everything stays, and the caller is told. *)
Lemma reload_witness :
  ∃ s tr s' e, SupSample.play SupSample.boot SupSample.init = Some (s, tr) ∧
  SupSample.turn (TakeReload (Ok "x"%string) (SupSample.applied 20) true) s = Some (s', e) ∧
  on_disk SupSample.view SupSample.parse SupSample.refusal_error (Ok "fabric"%string)
    = Some SupSample.fabric ∧
  fabric_kept s s' ∧ (∀ n, attempts n e = 0%nat) ∧ (∀ p sig, EvSignal p sig ∉ e) ∧
  s_phase s' = Serving ∧ ∃ why, e = replied true (Err why) ∧
    sh_last_apply_error (s_shared s') = Some why.
Proof.
  eexists _, _, _, _. split; [vm_compute; reflexivity|]. split; [vm_compute; reflexivity|].
  split; [by vm_compute|].
  apply (reload_by_what_is_on_disk SupSample.view "/etc/cfab/fabric.toml" true CHILD_STOP_GRACE
    SupSample.parse SupSample.refusal_error (Ok "x"%string) (SupSample.applied 20) true);
    [reflexivity|vm_compute; reflexivity].
Defined.

(** A stop after the crash: conf-sync goes by itself, the shape daemon is killed. *)
Lemma stop_witness :
  ∃ s tr0 s' tr, SupSample.play (SupSample.boot ++ [Terminate]) SupSample.init = Some (s, tr0) ∧
  SupSample.play SupSample.stop s = Some (s', tr) ∧
  tr = [EvStopping; EvForwardingOff; EvSignal 100 SIGTERM; EvSignal 101 SIGTERM;
        EvSignal 102 SIGTERM; EvExit ConfSync "exit 0"; EvSignal 100 SIGKILL;
        EvSignal 101 SIGKILL; EvTeardown] ∧
  (∀ n p, c_pid (the_child s n) = Some p →
    EXIT_OK = EXIT_OK ∧ (∀ m, attempts m tr = 0%nat) ∧
    (∃ tr1 tr2, tr = tr1 ++ EvForwardingOff :: tr2 ∧ (∀ q sig, EvSignal q sig ∉ tr1) ∧
       EvSignal p SIGTERM ∈ tr2) ∧
    (EvSignal p SIGKILL ∈ tr ∨ ∃ cause, EvExit n cause ∈ tr) ∧
    ∃ tr', tr = tr' ++ [EvTeardown]).
Proof.
  eexists _, _, _, _. split; [vm_compute; reflexivity|]. split; [vm_compute; reflexivity|].
  split; [by vm_compute|].
  eapply (stop_accounts_for_every_child SupSample.view "/etc/cfab/fabric.toml" true CHILD_STOP_GRACE
    SupSample.parse SupSample.refusal_error SupSample.stop false);
    [reflexivity|vm_compute; reflexivity|reflexivity].
Defined.
