(* ===== verification/NeighTable.v ===== *)
(** The neighbor write table (src/src/workload/table.rs).

    What a relayed DHCPACK may claim, for how long, and how many claims one workload row may
    hold. The mutex of the source is not modelled: each operation here is what it does under
    one lock acquisition. [Notify::notify_one] is the boolean an operation returns beside its
    result: whether it woke the flush actor. *)
From S2P Require Import Prelude Text Net.

(** ** Lease bounds *)

Definition MIN_LEASE : Duration := from_secs 60.
Definition MAX_LEASE : Duration := from_secs (24 * 60 * 60).
Definition NO_LEASE_DEFAULT : Duration := from_secs (60 * 60).
Definition GC_THRESH3_DEFAULT : Z := 1024.

Definition clamp_lease (option_51 : option Z) : Duration :=
  match option_51 with
  | None => NO_LEASE_DEFAULT
  | Some s => Z.min (Z.max (from_secs s) MIN_LEASE) MAX_LEASE
  end.

(** ** The per-row cap *)

Inductive CapBound := BoundPrefix | BoundGcThresh3.

Record RowCap := { cap_value : Z; bound_by : CapBound; rc_gc_thresh3 : Z; rc_rows : Z }.

(** [refusal_line]: which of its three sentences, and the values it names. *)
Inductive RefusalLine :=
| RefusedByPrefix (row : string) (addr : Ipv4Addr) (c : Z) (p : Ipv4Prefix) (gc : Z)
| RefusedRaiseGc (row : string) (addr : Ipv4Addr) (c gc rows : Z)
| RefusedAtDefault (row : string) (addr : Ipv4Addr) (c gc rows : Z).

Definition refusal_line (self : RowCap) (row : string) (addr : Ipv4Addr) (p : Ipv4Prefix)
    : RefusalLine :=
  match bound_by self with
  | BoundPrefix => RefusedByPrefix row addr (cap_value self) p (rc_gc_thresh3 self)
  | BoundGcThresh3 =>
      if rc_gc_thresh3 self <? GC_THRESH3_DEFAULT
      then RefusedRaiseGc row addr (cap_value self) (rc_gc_thresh3 self) (rc_rows self)
      else RefusedAtDefault row addr (cap_value self) (rc_gc_thresh3 self) (rc_rows self)
  end.

Record CapSource := { gc_thresh3 : Z; rows : Z }.

(** Why [CapSource::read] fell back to the default. *)
Inductive CapReadError := CapParseError (text : string) | CapIoError (why : string).

(** [CapSource::read], given what [sys.read(GC_THRESH3_PATH)] answered. *)
Definition cap_read (answer : result string string) (rows : Z)
    : CapSource * option CapReadError :=
  match answer with
  | Ok text =>
      match parse_uint u32_max (trim text) with
      | Some gc => ({| gc_thresh3 := gc; rows := rows |}, None)
      | None => ({| gc_thresh3 := GC_THRESH3_DEFAULT; rows := rows |},
                 Some (CapParseError (trim text)))
      end
  | Err e => ({| gc_thresh3 := GC_THRESH3_DEFAULT; rows := rows |}, Some (CapIoError e))
  end.

Definition prefix_hosts (p : Ipv4Prefix) : Z :=
  let all := Z.shiftl 1 (32 - len p) in
  Z.min (sat_sub all 2) u32_max.

Definition for_prefix (self : CapSource) (p : Ipv4Prefix) : RowCap :=
  let hosts := prefix_hosts p in
  let kernel := Z.min (gc_thresh3 self) GC_THRESH3_DEFAULT / 2 / Z.max (rows self) 1 in
  let '(value, bound) :=
    if hosts <=? kernel then (hosts, BoundPrefix) else (kernel, BoundGcThresh3) in
  {| cap_value := value; bound_by := bound;
     rc_gc_thresh3 := gc_thresh3 self; rc_rows := rows self |}.

(** ** The table *)

Record Entry := mk_entry { leg : string; mac : Mac; expires_at : Instant; dirty : bool }.

Inductive Upsert := UpsertAdmitted | UpsertRefused (first_of_streak : bool).

Record Taken := { t_row : string; t_leg : string; t_addr : Ipv4Addr; t_mac : Mac }.
Record NextDirty := { taken : option Taken; expired : list string }.

(** The key of a claim: [(row, addr)], ordered by row first, as [BTreeMap] orders it. *)
Abbreviation Key := (string * Ipv4Addr)%type.

Definition key_leb (a b : Key) : bool :=
  match String.compare a.1 b.1 with
  | Lt => true
  | Eq => a.2 <=? b.2
  | Gt => false
  end.

Record Inner := mk_inner {
  entries : gmap Key Entry;
  queue : list (Key * Instant);
  refusing : gset string;
  cap_refusals : gmap string Z
}.

Definition inner_default : Inner := mk_inner ∅ [] ∅ ∅.

(** [row_len]: the keys of the range [(row, 0.0.0.0) ..= (row, 255.255.255.255)]. *)
Definition in_row_range (row : string) (k : Key) : Prop :=
  key_leb (row, UNSPECIFIED) k = true ∧ key_leb k (row, BROADCAST) = true.
#[export] Instance in_row_range_dec row k : Decision (in_row_range row k).
Proof. unfold in_row_range. apply _. Defined.

Definition row_len (es : gmap Key Entry) (row : string) : Z :=
  Z.min (Z.of_nat (size (filter (λ kv, in_row_range row kv.1) es))) u32_max.

Definition is_dirty (kv : Key * Entry) : Prop := dirty kv.2 = true.
#[export] Instance is_dirty_dec kv : Decision (is_dirty kv).
Proof. unfold is_dirty. apply _. Defined.

Definition set_dirty (e : Entry) (d : bool) : Entry :=
  mk_entry (leg e) (mac e) (expires_at e) d.

(** [NeighborTable::upsert]; the boolean is [notify_one]. *)
Definition upsert (g : Inner) (row lg : string) (addr : Ipv4Addr) (m : Mac)
    (expires : Instant) (cap : RowCap) (now : Instant) : Inner * Upsert * bool :=
  let key := (row, addr) in
  match entries g !! key with
  | Some e =>
      let q := if dirty e then queue g else queue g ++ [(key, now)] in
      (mk_inner (<[key := mk_entry lg m expires true]> (entries g)) q
         (refusing g ∖ {[row]}) (cap_refusals g),
       UpsertAdmitted, true)
  | None =>
      if cap_value cap <=? row_len (entries g) row then
        (mk_inner (entries g) (queue g) (refusing g ∪ {[row]}) (bump (cap_refusals g) row 1),
         UpsertRefused (bool_decide (row ∉ refusing g)), false)
      else
        (mk_inner (<[key := mk_entry lg m expires true]> (entries g))
           (queue g ++ [(key, now)]) (refusing g ∖ {[row]}) (cap_refusals g),
         UpsertAdmitted, true)
  end.

(** [NeighborTable::re_dirty]: the dropped row, if the lease had run out, and the wakeup. *)
Definition re_dirty (g : Inner) (row : string) (addr : Ipv4Addr) (now : Instant)
    : Inner * option string * bool :=
  let key := (row, addr) in
  match entries g !! key with
  | None => (g, None, false)
  | Some e =>
      if expires_at e <=? now then
        (mk_inner (delete key (entries g)) (queue g) (refusing g) (cap_refusals g),
         Some row, false)
      else if dirty e then (g, None, false)
      else
        (mk_inner (<[key := set_dirty e true]> (entries g)) (queue g ++ [(key, now)])
           (refusing g) (cap_refusals g), None, true)
  end.

(** The [while let Some(..) = queue.pop_front()] loop of [take_next_dirty]. *)
Fixpoint take_loop (now : Instant) (es : gmap Key Entry) (q : list (Key * Instant))
    (exp : list string) : gmap Key Entry * list (Key * Instant) * NextDirty :=
  match q with
  | [] => (es, [], {| taken := None; expired := exp |})
  | (key, _) :: q' =>
      match es !! key with
      | None => take_loop now es q' exp
      | Some e =>
          if negb (dirty e) then take_loop now es q' exp
          else if expires_at e <=? now then
            take_loop now (delete key es) q' (exp ++ [key.1])
          else
            (<[key := set_dirty e false]> es, q',
             {| taken := Some {| t_row := key.1; t_leg := leg e;
                                 t_addr := key.2; t_mac := mac e |};
                expired := exp |})
      end
  end.

Definition take_next_dirty (g : Inner) (now : Instant) : Inner * NextDirty :=
  let '(es, q, out) := take_loop now (entries g) (queue g) [] in
  (mk_inner es q (refusing g) (cap_refusals g), out).

Definition live_at (now : Instant) (kv : Key * Entry) : Prop := now < expires_at kv.2.
#[export] Instance live_at_dec now kv : Decision (live_at now kv).
Proof. unfold live_at. apply _. Defined.

(** [NeighborTable::remove_expired]: [retain], visiting the entries in key order. *)
Definition remove_expired (g : Inner) (now : Instant) : Inner * list string :=
  (mk_inner (filter (live_at now) (entries g)) (queue g) (refusing g) (cap_refusals g),
   (λ kv : Key * Entry, kv.1.1) <$>
     filter (λ kv, ¬ live_at now kv) (btree_iter key_leb (entries g))).

Definition dirty_depth (g : Inner) : nat := size (filter is_dirty (entries g)).
Definition queued_len (g : Inner) : nat := length (queue g).
Definition table_len (g : Inner) : nat := size (entries g).
Definition table_is_empty (g : Inner) : bool := bool_decide (table_len g = 0%nat).

Definition list_entries (g : Inner) : list (string * Ipv4Addr * string) :=
  (λ kv : Key * Entry, (kv.1.1, kv.1.2, leg kv.2)) <$> btree_iter key_leb (entries g).

Definition entry (g : Inner) (row : string) (addr : Ipv4Addr) : option Entry :=
  entries g !! (row, addr).

Definition row_sizes (g : Inner) : gmap string Z :=
  foldl (λ m k, bump m k.1 1) ∅ (btree_keys key_leb (entries g)).

Definition cap_refusals_snapshot (g : Inner) : gmap string Z := cap_refusals g.

Fixpoint oldest_dirty_loop (now : Instant) (es : gmap Key Entry) (q : list (Key * Instant))
    : option Duration :=
  match q with
  | [] => None
  | (key, enqueued_at) :: q' =>
      match es !! key with
      | Some e => if dirty e then Some (saturating_since now enqueued_at)
                  else oldest_dirty_loop now es q'
      | None => oldest_dirty_loop now es q'
      end
  end.

Definition oldest_dirty_age (g : Inner) (now : Instant) : option Duration :=
  oldest_dirty_loop now (entries g) (queue g).

(** ** Helper lemmas *)

Lemma clamp_between option_51 :
  MIN_LEASE ≤ clamp_lease option_51 ≤ MAX_LEASE.
Proof.
  unfold clamp_lease, NO_LEASE_DEFAULT, MIN_LEASE, MAX_LEASE, from_secs, nanos_per_sec.
  destruct option_51; lia.
Qed.

(** For addresses that fit 32 bits the range of a row is the row. *)
Lemma in_row_range_iff row k : addr_ok k.2 → in_row_range row k ↔ k.1 = row.
Proof.
  intros Hk. unfold in_row_range, key_leb. cbn.
  rewrite (String.compare_antisym k.1 row).
  destruct (String.compare row k.1) eqn:E; cbn.
  - apply String.compare_eq_iff in E. split; [done|]. intros _.
    unfold addr_ok, UNSPECIFIED, BROADCAST in *. split; apply Z.leb_le; lia.
  - split; [by intros [_ ?]|]. intros <-.
    by rewrite str_compare_refl in E.
  - split; [by intros [? _]|]. intros <-.
    by rewrite str_compare_refl in E.
Qed.

Definition row_keys (es : gmap Key Entry) (row : string) : gset Key :=
  dom (filter (λ kv, in_row_range row kv.1) es).

Lemma row_len_keys es row : row_len es row = Z.min (Z.of_nat (size (row_keys es row))) u32_max.
Proof. unfold row_len, row_keys. by rewrite size_dom. Qed.

Lemma elem_of_row_keys es row k :
  k ∈ row_keys es row ↔ is_Some (es !! k) ∧ in_row_range row k.
Proof.
  unfold row_keys. rewrite elem_of_dom. split.
  - intros [e [??]%map_lookup_filter_Some]. eauto.
  - intros [[e He] Hr]. exists e. by rewrite map_lookup_filter_Some.
Qed.

(** A table with no new keys has no longer rows. *)
Lemma row_len_mono es es' row :
  (∀ k, is_Some (es' !! k) → is_Some (es !! k)) → row_len es' row ≤ row_len es row.
Proof.
  intros H. rewrite !row_len_keys.
  assert (size (row_keys es' row) ≤ size (row_keys es row))%nat; [|lia].
  apply subseteq_size. intros k. rewrite !elem_of_row_keys. naive_solver.
Qed.

Lemma row_len_insert es row k e :
  row_len (<[k := e]> es) row ≤ row_len es row + 1.
Proof.
  rewrite !row_len_keys.
  assert (size (row_keys (<[k:=e]> es) row) ≤ size ({[k]} ∪ row_keys es row))%nat as H1.
  { apply subseteq_size. intros k'. rewrite elem_of_union, elem_of_singleton, !elem_of_row_keys.
    destruct (decide (k' = k)) as [->|]; [by left|]. rewrite lookup_insert_ne by done. by right. }
  assert (size ({[k]} ∪ row_keys es row) ≤ 1 + size (row_keys es row))%nat as H2.
  { rewrite size_union_alt, size_singleton.
    assert (size (row_keys es row ∖ {[k]}) ≤ size (row_keys es row))%nat; [|lia].
    apply subseteq_size. set_solver. }
  lia.
Qed.

Lemma row_len_insert_other es row k e :
  ¬ in_row_range row k → row_len (<[k := e]> es) row = row_len es row.
Proof.
  intros Hk. rewrite !row_len_keys. do 3 f_equal. apply set_eq. intros k'.
  rewrite !elem_of_row_keys. destruct (decide (k' = k)) as [->|]; [naive_solver|].
  by rewrite lookup_insert_ne.
Qed.

Lemma row_len_insert_present es row k e :
  is_Some (es !! k) → row_len (<[k := e]> es) row = row_len es row.
Proof.
  intros Hk. rewrite !row_len_keys. do 3 f_equal. apply set_eq. intros k'.
  rewrite !elem_of_row_keys. destruct (decide (k' = k)) as [->|].
  - rewrite lookup_insert_eq. naive_solver.
  - by rewrite lookup_insert_ne.
Qed.

(** *** What one [take_next_dirty] walks past, drops and takes *)

(** The key names an entry the loop drops: dirty, and its lease has run out. *)
Definition dead (now : Instant) (es : gmap Key Entry) (k : Key) : Prop :=
  ∃ e, es !! k = Some e ∧ dirty e = true ∧ expires_at e ≤ now.

(** The key names an entry the loop takes: dirty, and its lease still runs. *)
Definition ready (now : Instant) (es : gmap Key Entry) (k : Key) : Prop :=
  ∃ e, es !! k = Some e ∧ dirty e = true ∧ now < expires_at e.

(** The table after the loop walked past [pre] and dropped [gone]. *)
Record walked (now : Instant) (es es1 : gmap Key Entry) (pre : list (Key * Instant))
    (gone : list Key) : Prop := {
  w_nodup : NoDup gone;
  w_gone k : k ∈ gone ↔ k ∈ pre.*1 ∧ dead now es k;
  w_es k : es1 !! k = if decide (k ∈ gone) then None else es !! k;
  w_pre k : k ∈ pre.*1 → ¬ ready now es k
}.

Lemma walked_nil now es : walked now es es [] [].
Proof. split; [constructor|set_solver|done|set_solver]. Qed.

(** Walking past a key that is neither dead nor ready changes nothing. *)
Lemma walked_skip now es es1 k ts pre gone :
  ¬ dead now es k → ¬ ready now es k → walked now es es1 pre gone →
  walked now es es1 ((k, ts) :: pre) gone.
Proof.
  intros Hd Hr [? Hg ? ?]. split; [done| |done|]; intros k'.
  - rewrite Hg, fmap_cons, elem_of_cons. cbn. naive_solver.
  - rewrite fmap_cons, elem_of_cons. cbn. naive_solver.
Qed.

(** Dropping a dead key first. *)
Lemma walked_drop now es es1 k ts pre gone :
  dead now es k → walked now (delete k es) es1 pre gone →
  walked now es es1 ((k, ts) :: pre) (k :: gone).
Proof.
  intros Hd [Hn Hg He Hp].
  assert (Hdel : ∀ k', k' ≠ k → delete k es !! k' = es !! k') by (intros; by rewrite lookup_delete_ne).
  assert (Hk : k ∉ gone).
  { rewrite Hg. intros [_ (e & E & _)]. by rewrite lookup_delete_eq in E. }
  split.
  - by constructor.
  - intros k'. rewrite fmap_cons, !elem_of_cons, Hg. cbn. unfold dead.
    destruct (decide (k' = k)) as [->|Hne]; [naive_solver|]. rewrite Hdel by done. naive_solver.
  - intros k'. rewrite He. destruct (decide (k' = k)) as [->|Hne].
    + rewrite lookup_delete_eq. repeat case_decide; set_solver.
    + rewrite Hdel by done. repeat case_decide; set_solver.
  - intros k'. rewrite fmap_cons, elem_of_cons. cbn. intros Hin (e & E & D & L).
    destruct (decide (k' = k)) as [->|Hne].
    + destruct Hd as (e' & E' & _ & L'). simplify_eq. lia.
    + destruct Hin as [?|Hin]; [done|]. apply (Hp k' Hin). exists e. by rewrite Hdel.
Qed.

(** The loop: either the whole queue was walked past, or it stopped at the first ready key. *)
Lemma take_loop_spec now es q exp es' q' out :
  take_loop now es q exp = (es', q', out) →
  ∃ pre gone es1, walked now es es1 pre gone ∧ expired out = exp ++ gone.*1 ∧
    match taken out with
    | None => q = pre ∧ q' = [] ∧ es' = es1
    | Some t => ∃ ts e, q = pre ++ ((t_row t, t_addr t), ts) :: q' ∧
        es1 !! (t_row t, t_addr t) = Some e ∧ dirty e = true ∧ now < expires_at e ∧
        t_leg t = leg e ∧ t_mac t = mac e ∧
        es' = <[(t_row t, t_addr t) := set_dirty e false]> es1
    end.
Proof.
  revert es exp. induction q as [|[k ts] q IH]; intros es exp; cbn.
  { intros [= <- <- <-]. exists [], [], es. cbn. rewrite app_nil_r. auto using walked_nil. }
  destruct (es !! k) as [e|] eqn:E; [destruct (dirty e) eqn:D; cbn;
    [destruct (expires_at e <=? now) eqn:L|]|]; split_bools.
  - intros H. apply IH in H as (pre & gone & es1 & W & -> & H).
    exists ((k, ts) :: pre), (k :: gone), es1. split; [|split].
    + apply walked_drop; [by exists e|done].
    + cbn. by rewrite <-app_assoc.
    + destruct (taken out); [|naive_solver].
      destruct H as (ts' & e' & -> & ?). by exists ts', e'.
  - intros [= <- <- <-]. exists [], [], es. cbn. rewrite app_nil_r.
    split; [apply walked_nil|split; [done|]]. exists ts, e. by destruct k.
  - intros H. apply IH in H as (pre & gone & es1 & W & -> & H).
    exists ((k, ts) :: pre), gone, es1. split; [|split; [done|]].
    + apply walked_skip; [| |done]; intros (e' & ? & ? & ?); congruence.
    + destruct (taken out); [|naive_solver].
      destruct H as (ts' & e' & -> & ?). by exists ts', e'.
  - intros H. apply IH in H as (pre & gone & es1 & W & -> & H).
    exists ((k, ts) :: pre), gone, es1. split; [|split; [done|]].
    + apply walked_skip; [| |done]; intros (e' & ? & ? & ?); congruence.
    + destruct (taken out); [|naive_solver].
      destruct H as (ts' & e' & -> & ?). by exists ts', e'.
Qed.

(** ** The table as a state machine *)

Inductive TableOp :=
| OpUpsert (row lg : string) (addr : Ipv4Addr) (m : Mac) (expires : Instant) (cap : RowCap)
    (now : Instant)
| OpReDirty (row : string) (addr : Ipv4Addr) (now : Instant)
| OpTake (now : Instant)
| OpRemoveExpired (now : Instant).

Definition apply_op (g : Inner) (op : TableOp) : Inner :=
  match op with
  | OpUpsert row lg addr m ex cap now => (upsert g row lg addr m ex cap now).1.1
  | OpReDirty row addr now => (re_dirty g row addr now).1.1
  | OpTake now => (take_next_dirty g now).1
  | OpRemoveExpired now => (remove_expired g now).1
  end.

(** An [Ipv4Addr] and a [RowCap] value fit 32 bits. *)
Definition op_ok (op : TableOp) : Prop :=
  match op with
  | OpUpsert _ _ addr _ _ cap _ => addr_ok addr ∧ cap_value cap ≤ u32_max
  | _ => True
  end.

(** The tables the operations that satisfy [ok] can produce from an empty one. *)
Inductive reachable_by (ok : TableOp → Prop) : Inner → Prop :=
| reach_init : reachable_by ok inner_default
| reach_step g op : reachable_by ok g → op_ok op → ok op → reachable_by ok (apply_op g op).

Definition reachable : Inner → Prop := reachable_by (λ _, True).

(** What every reachable table satisfies: its addresses are addresses, and an entry that is
    marked dirty is named by the queue, so the actor will reach it. *)
Record table_wf (g : Inner) : Prop := {
  wf_addr k : is_Some (entries g !! k) → addr_ok k.2;
  wf_queued k e : entries g !! k = Some e → dirty e = true → k ∈ (queue g).*1
}.

Lemma default_wf : table_wf inner_default.
Proof. split; intros k; cbn; rewrite lookup_empty; [by intros [? ?]|done]. Qed.

Lemma upsert_wf g row lg addr m ex cap now :
  addr_ok addr → table_wf g → table_wf (upsert g row lg addr m ex cap now).1.1.
Proof.
  intros Ha [Hw Hq]. unfold upsert.
  assert (Hins : ∀ q, (∀ k, k ∈ (queue g).*1 → k ∈ q.*1) → (row, addr) ∈ q.*1 →
    table_wf (mk_inner (<[(row, addr) := mk_entry lg m ex true]> (entries g)) q
                (refusing g ∖ {[row]}) (cap_refusals g))).
  { intros q Hsub Hin. split; intros k; cbn; (destruct (decide (k = (row, addr))) as [->|];
      [done|rewrite lookup_insert_ne by done; eauto]). }
  destruct (entries g !! (row, addr)) as [e|] eqn:E; [|case_match; [done|]]; cbn.
  - apply Hins.
    + intros k Hk. destruct (dirty e); [done|]. rewrite fmap_app. set_solver.
    + destruct (dirty e) eqn:D; [by eapply Hq|]. rewrite fmap_app. set_solver.
  - apply Hins; rewrite fmap_app; set_solver.
Qed.

Lemma re_dirty_wf g row addr now :
  table_wf g → table_wf (re_dirty g row addr now).1.1.
Proof.
  intros [Hw Hq]. unfold re_dirty.
  destruct (entries g !! (row, addr)) as [e|] eqn:E; [|done].
  repeat case_match; [| |]; cbn; [|done|].
  - split; intros k; cbn; rewrite lookup_delete; case_decide; [by intros [? ?]|eauto|done|eauto].
  - split; intros k; cbn; rewrite lookup_insert; case_decide.
    + subst. eauto.
    + eauto.
    + subst. intros ? _ _. rewrite fmap_app. set_solver.
    + intros e' E' D. rewrite fmap_app, elem_of_app. left. eauto.
Qed.

Lemma take_wf g now : table_wf g → table_wf (take_next_dirty g now).1.
Proof.
  intros [Hw Hq]. unfold take_next_dirty.
  destruct (take_loop now (entries g) (queue g) []) as [[es q] out] eqn:L; cbn.
  apply take_loop_spec in L as (pre & gone & es1 & [_ Hg He Hp] & _ & L).
  assert (Hes1 : ∀ k e, es1 !! k = Some e → entries g !! k = Some e ∧ k ∉ gone).
  { intros k e. rewrite He. by case_decide. }
  assert (Hpre : ∀ k e, es1 !! k = Some e → dirty e = true → k ∉ pre.*1).
  { intros k e [E Hk]%Hes1 D Hin. destruct (decide (now < expires_at e)).
    - apply (Hp k Hin). by exists e.
    - apply Hk, Hg. split; [done|]. exists e. split_and!; [done..|lia]. }
  destruct (taken out) as [t|].
  - destruct L as (ts & e & HQ & Et & _ & _ & _ & _ & ->).
    split; intros k; cbn; rewrite lookup_insert; case_decide as Hk.
    + subst k. intros _. apply Hw. apply Hes1 in Et as [? _]. eauto.
    + intros [e' [? _]%Hes1]. eauto.
    + by intros ? [= <-].
    + intros e' E' D. pose proof (Hpre _ _ E' D). apply Hes1 in E' as [E' _].
      pose proof (Hq _ _ E' D) as Hin. rewrite HQ, fmap_app, elem_of_app in Hin. set_solver.
  - destruct L as (HQ & -> & ->). split; intros k; cbn.
    + intros [e' [? _]%Hes1]. eauto.
    + intros e' E' D. destruct (Hpre _ _ E' D). rewrite <-HQ.
      apply Hes1 in E' as [E' _]. eauto.
Qed.

Lemma remove_expired_wf g now : table_wf g → table_wf (remove_expired g now).1.
Proof.
  intros [Hw Hq]. split; intros k; cbn.
  - intros [e [? _]%map_lookup_filter_Some]. eauto.
  - intros e [? _]%map_lookup_filter_Some. eauto.
Qed.

Lemma apply_op_wf g op : op_ok op → table_wf g → table_wf (apply_op g op).
Proof.
  intros Ho.
  destruct op; cbn [apply_op op_ok] in *; destruct_and?; eauto using upsert_wf, re_dirty_wf, take_wf, remove_expired_wf.
Qed.

(** The keys a table holds after an operation were there before, the admitted one apart. *)
Lemma take_keys g now k :
  is_Some (entries (take_next_dirty g now).1 !! k) → is_Some (entries g !! k).
Proof.
  unfold take_next_dirty.
  destruct (take_loop now (entries g) (queue g) []) as [[es q] out] eqn:L; cbn.
  apply take_loop_spec in L as (pre & gone & es1 & [_ _ He _] & _ & L).
  assert (Hes1 : is_Some (es1 !! k) → is_Some (entries g !! k)).
  { rewrite He. case_decide; [by intros [? ?]|done]. }
  destruct (taken out) as [t|].
  - destruct L as (ts & e & _ & Et & _ & _ & _ & _ & ->). rewrite lookup_insert.
    case_decide; [subst|by auto]. intros _. apply Hes1. eauto.
  - destruct L as (_ & _ & ->). auto.
Qed.

Lemma re_dirty_keys g row addr now k :
  is_Some (entries (re_dirty g row addr now).1.1 !! k) → is_Some (entries g !! k).
Proof.
  unfold re_dirty. destruct (entries g !! (row, addr)) as [e|] eqn:E; [|done].
  repeat case_match; cbn; [| done |].
  - rewrite lookup_delete. case_decide; [by intros [? ?]|done].
  - rewrite lookup_insert. case_decide; [subst; eauto|done].
Qed.

Lemma remove_expired_keys g now k :
  is_Some (entries (remove_expired g now).1 !! k) → is_Some (entries g !! k).
Proof. cbn. intros [e [? _]%map_lookup_filter_Some]. eauto. Qed.

(** *** The cap *)

(** One admission adds at most one entry to its row, and none when the row is at its cap. *)
Lemma upsert_row_len g row lg addr m ex cap now r :
  addr_ok addr →
  row_len (entries (upsert g row lg addr m ex cap now).1.1) r
  ≤ (if decide (r = row) then Z.max (row_len (entries g) r) (cap_value cap)
     else row_len (entries g) r).
Proof.
  intros Ha. unfold upsert.
  destruct (entries g !! (row, addr)) as [e|] eqn:E; [|case_match eqn:C]; cbn; split_bools.
  - rewrite row_len_insert_present by eauto. case_decide; lia.
  - case_decide; lia.
  - case_decide as Hr; [subst r|].
    + pose proof (row_len_insert (entries g) row (row, addr) (mk_entry lg m ex true)). lia.
    + rewrite row_len_insert_other; [lia|]. by rewrite in_row_range_iff.
Qed.

(** Every cap an operation carries for row [r] is at most [C]. *)
Definition op_cap_le (r : string) (C : Z) (op : TableOp) : Prop :=
  match op with
  | OpUpsert row _ _ _ _ cap _ => row = r → cap_value cap ≤ C
  | _ => True
  end.

Lemma apply_op_row_len g op r C :
  op_ok op → op_cap_le r C op → row_len (entries g) r ≤ C →
  row_len (entries (apply_op g op)) r ≤ C.
Proof.
  intros Ho Hc Hl. destruct op; cbn [apply_op op_ok op_cap_le] in *.
  - pose proof (upsert_row_len g row lg addr m expires cap now r (proj1 Ho)) as H.
    case_decide; [|lia]. subst. specialize (Hc eq_refl). lia.
  - etrans; [apply row_len_mono, re_dirty_keys|done].
  - etrans; [apply row_len_mono, take_keys|done].
  - etrans; [apply row_len_mono, (remove_expired_keys g now)|done].
Qed.

Lemma reachable_wf ok g : reachable_by ok g → table_wf g.
Proof. induction 1; auto using default_wf, apply_op_wf. Qed.

(** *** Draining *)

(** Take until nothing is left to take, at one instant: the keys handed over, in order. *)
Fixpoint drain (fuel : nat) (now : Instant) (g : Inner) : list Key * Inner :=
  match fuel with
  | O => ([], g)
  | S f =>
      let '(g1, out) := take_next_dirty g now in
      match taken out with
      | None => ([], g1)
      | Some t => let '(ks, g2) := drain f now g1 in ((t_row t, t_addr t) :: ks, g2)
      end
  end.

(** One take removes exactly the taken key from the ready ones, and shortens the queue. *)
Lemma take_ready g now g1 out :
  take_next_dirty g now = (g1, out) →
  match taken out with
  | None => queue g1 = [] ∧ ∀ k, k ∈ (queue g).*1 → ¬ ready now (entries g) k
  | Some t => (length (queue g1) < length (queue g))%nat ∧
      ready now (entries g) (t_row t, t_addr t) ∧
      ∀ k, ready now (entries g1) k ↔ ready now (entries g) k ∧ k ≠ (t_row t, t_addr t)
  end.
Proof.
  unfold take_next_dirty.
  destruct (take_loop now (entries g) (queue g) []) as [[es q] o] eqn:L.
  intros [= <- <-]. cbn [queue entries].
  apply take_loop_spec in L as (pre & gone & es1 & [_ Hg He Hp] & _ & L).
  assert (Hes1 : ∀ k, ready now es1 k ↔ ready now (entries g) k).
  { intros k. unfold ready. rewrite He. case_decide as Hk; [|done]. split; [naive_solver|].
    apply Hg in Hk as [_ (e & E & _ & ?)]. intros (e' & E' & _ & ?). simplify_eq. lia. }
  destruct (taken o) as [t|].
  - destruct L as (ts & e & -> & Et & D & Lt & _ & _ & ->). split; [|split].
    + rewrite length_app. cbn. lia.
    + apply Hes1. by exists e.
    + intros k. rewrite <-Hes1. unfold ready. rewrite lookup_insert. case_decide as Hk.
      * subst k. cbn. naive_solver.
      * naive_solver.
  - destruct L as (HQ & -> & ->). split; [done|]. rewrite HQ. apply Hp.
Qed.

Lemma take_none_clean g now g1 out k e :
  table_wf g → take_next_dirty g now = (g1, out) → taken out = None →
  entries g1 !! k = Some e → dirty e = false.
Proof.
  intros Hwf Ht Hn E. pose proof (take_wf g now Hwf) as [_ Hq]. rewrite Ht in Hq. cbn in Hq.
  apply take_ready in Ht. rewrite Hn in Ht. destruct Ht as [HQ _].
  destruct (dirty e) eqn:D; [|done]. specialize (Hq _ _ E D). rewrite HQ in Hq. set_solver.
Qed.

Lemma dirty_depth_zero g :
  (∀ k e, entries g !! k = Some e → dirty e = false) → dirty_depth g = 0%nat.
Proof.
  intros H. unfold dirty_depth. apply map_size_empty_iff, map_empty. intros k.
  apply map_lookup_filter_None. right. intros e E. unfold is_dirty. cbn.
  rewrite (H _ _ E). done.
Qed.

Lemma drain_spec fuel now g ks g' :
  table_wf g → (length (queue g) < fuel)%nat → drain fuel now g = (ks, g') →
  NoDup ks ∧ (∀ k, k ∈ ks ↔ ready now (entries g) k) ∧
  queue g' = [] ∧ dirty_depth g' = 0%nat.
Proof.
  revert g ks. induction fuel as [|f IH]; intros g ks Hwf Hf; cbn; [lia|].
  destruct (take_next_dirty g now) as [g1 out] eqn:T.
  pose proof (take_wf g now Hwf) as Hwf1. rewrite T in Hwf1. cbn in Hwf1.
  pose proof (take_ready _ _ _ _ T) as Hr.
  destruct (taken out) as [t|] eqn:Ht.
  - destruct Hr as (Hlen & Hrdy & Hiff). destruct (drain f now g1) as [ks1 g2] eqn:Hd.
    intros [= <- <-]. apply IH in Hd as (Hn & Hk & ? & ?); [|done|lia].
    split_and!; [|..|done|done].
    + constructor; [|done]. rewrite Hk, Hiff. naive_solver.
    + intros k. rewrite elem_of_cons, Hk, Hiff.
      destruct (decide (k = (t_row t, t_addr t))) as [->|]; naive_solver.
  - intros [= <- <-]. destruct Hr as [HQ Hnone]. split_and!; [constructor| |done|].
    + intros k. split; [set_solver|]. intros (e & E & D & L).
      destruct (Hnone k); [exact (wf_queued g Hwf k e E D)|by exists e].
    + apply dirty_depth_zero. intros k e. exact (take_none_clean _ _ _ _ k e Hwf T Ht).
Qed.

(** ** The abstract table

    What the table promises its clients, without the queue: a set of claims, the ones still
    to be written, and steps between such states. *)
Module Spec.
Record claim := mk_claim { c_leg : string; c_mac : Mac; c_expires : Instant }.
Record state := mk_state { claims : gmap Key claim; pending : gset Key }.

Definition key_in_row (row : string) (k : Key) : Prop := k.1 = row.
#[export] Instance key_in_row_dec row k : Decision (key_in_row row k).
Proof. unfold key_in_row. apply _. Defined.

(** How many claims a row holds. *)
Definition row_claims (s : state) (row : string) : Z :=
  Z.of_nat (size (filter (key_in_row row) (dom (claims s)))).

(** Claims leave the table because their lease ran out, and for no other reason. *)
Definition drop (D : gset Key) (s : state) : state :=
  mk_state (filter (λ kv, kv.1 ∉ D) (claims s)) (pending s ∖ D).
Definition all_expired (now : Instant) (D : gset Key) (s : state) : Prop :=
  ∀ k, k ∈ D → ∃ c, claims s !! k = Some c ∧ c_expires c ≤ now.

Inductive step (s : state) : TableOp → state → Prop :=
| step_admit row lg addr m ex cap now :
    is_Some (claims s !! (row, addr)) ∨ row_claims s row < cap_value cap →
    step s (OpUpsert row lg addr m ex cap now)
      (mk_state (<[(row, addr) := mk_claim lg m ex]> (claims s)) (pending s ∪ {[(row, addr)]}))
| step_refuse row lg addr m ex cap now :
    claims s !! (row, addr) = None → cap_value cap ≤ row_claims s row →
    step s (OpUpsert row lg addr m ex cap now) s
| step_requeue row addr now c :
    claims s !! (row, addr) = Some c → now < c_expires c →
    step s (OpReDirty row addr now) (mk_state (claims s) (pending s ∪ {[(row, addr)]}))
| step_requeue_gone row addr now :
    claims s !! (row, addr) = None → step s (OpReDirty row addr now) s
| step_requeue_expired row addr now :
    all_expired now {[(row, addr)]} s →
    step s (OpReDirty row addr now) (drop {[(row, addr)]} s)
| step_take now D k c :
    all_expired now D s → D ⊆ pending s →
    k ∈ pending s → claims s !! k = Some c → now < c_expires c →
    step s (OpTake now) (mk_state (claims (drop D s)) (pending (drop D s) ∖ {[k]}))
| step_take_none now :
    all_expired now (pending s) s → step s (OpTake now) (drop (pending s) s)
| step_sweep now D :
    all_expired now D s →
    (∀ k c, claims s !! k = Some c → k ∉ D → now < c_expires c) →
    step s (OpRemoveExpired now) (drop D s).
End Spec.

(** The abstraction: forget the queue, keep which claims are dirty. *)
Definition claim_of (e : Entry) : Spec.claim := Spec.mk_claim (leg e) (mac e) (expires_at e).
Definition dirty_keys (es : gmap Key Entry) : gset Key := dom (filter is_dirty es).
Definition absr (g : Inner) : Spec.state :=
  Spec.mk_state (claim_of <$> entries g) (dirty_keys (entries g)).

Lemma elem_of_dirty_keys es k :
  k ∈ dirty_keys es ↔ ∃ e, es !! k = Some e ∧ dirty e = true.
Proof.
  unfold dirty_keys. rewrite elem_of_dom. split.
  - intros [e [? ?]%map_lookup_filter_Some]. eauto.
  - intros (e & ? & ?). exists e. by rewrite map_lookup_filter_Some.
Qed.

Lemma dirty_keys_insert es k e :
  dirty_keys (<[k := e]> es)
  = if dirty e then dirty_keys es ∪ {[k]} else dirty_keys es ∖ {[k]}.
Proof.
  apply set_eq. intros k'. rewrite elem_of_dirty_keys.
  assert (k' ∈ dirty_keys es ↔ ∃ e0, es !! k' = Some e0 ∧ dirty e0 = true) as Hd
    by apply elem_of_dirty_keys.
  destruct (decide (k' = k)) as [->|]; [rewrite lookup_insert_eq|rewrite lookup_insert_ne by done].
  - destruct (dirty e) eqn:D; split; intros H.
    + set_solver.
    + by exists e.
    + destruct H as (e0 & [= <-] & ?). congruence.
    + set_solver.
  - rewrite <-Hd. destruct (dirty e); set_solver.
Qed.

(** A table that lost exactly the keys of [D] abstracts to the dropped state. *)
Lemma absr_drop (D : gset Key) (g : Inner) es q r c :
  (∀ k, es !! k = if decide (k ∈ D) then None else entries g !! k) →
  absr (mk_inner es q r c) = Spec.drop D (absr g).
Proof.
  intros He. unfold absr, Spec.drop. cbn. f_equal.
  - apply map_eq. intros k. rewrite lookup_fmap, He. case_decide as Hk.
    + symmetry. apply map_lookup_filter_None. right. intros c' _ Hn. by apply Hn.
    + symmetry. destruct (entries g !! k) as [e|] eqn:E; cbn.
      * apply map_lookup_filter_Some. by rewrite lookup_fmap, E.
      * apply map_lookup_filter_None. left. by rewrite lookup_fmap, E.
  - apply set_eq. intros k.
    rewrite elem_of_difference, !elem_of_dirty_keys. rewrite He. case_decide; naive_solver.
Qed.

Lemma absr_lookup g k e :
  entries g !! k = Some e → Spec.claims (absr g) !! k = Some (claim_of e).
Proof. intros E. cbn. by rewrite lookup_fmap, E. Qed.

Lemma absr_row_claims g row :
  table_wf g → row_len (entries g) row = Z.min (Spec.row_claims (absr g) row) u32_max.
Proof.
  intros [Hw _]. rewrite row_len_keys. unfold Spec.row_claims. cbn. do 3 f_equal.
  apply set_eq. intros k. rewrite elem_of_row_keys, elem_of_filter, elem_of_dom, lookup_fmap.
  rewrite fmap_is_Some. unfold Spec.key_in_row. split.
  - intros [Hk Hr]. by rewrite in_row_range_iff in Hr by auto.
  - intros [Hr Hk]. by rewrite in_row_range_iff by auto.
Qed.

Lemma upsert_refines g row lg addr m ex cap now :
  table_wf g → cap_value cap ≤ u32_max →
  Spec.step (absr g) (OpUpsert row lg addr m ex cap now)
    (absr (upsert g row lg addr m ex cap now).1.1).
Proof.
  intros Hwf Hcap.
  assert (Hadm : ∀ q r c, absr (mk_inner (<[(row, addr) := mk_entry lg m ex true]> (entries g)) q r c)
    = Spec.mk_state (<[(row, addr) := Spec.mk_claim lg m ex]> (Spec.claims (absr g)))
        (Spec.pending (absr g) ∪ {[(row, addr)]})).
  { intros. unfold absr. cbn. f_equal; [by rewrite fmap_insert|by rewrite dirty_keys_insert]. }
  unfold upsert. pose proof (absr_row_claims g row Hwf) as Hr.
  destruct (entries g !! (row, addr)) as [e|] eqn:E; [|case_match eqn:C]; cbn [fst]; split_bools.
  - rewrite Hadm. constructor. left. erewrite absr_lookup by done. eauto.
  - apply Spec.step_refuse; [cbn; by rewrite lookup_fmap, E|].
    change (cap_value cap ≤ Spec.row_claims (absr g) row). lia.
  - rewrite Hadm. constructor. right. lia.
Qed.

Lemma re_dirty_refines g row addr now :
  Spec.step (absr g) (OpReDirty row addr now) (absr (re_dirty g row addr now).1.1).
Proof.
  unfold re_dirty. destruct (entries g !! (row, addr)) as [e|] eqn:E; cbn [fst].
  2: { apply Spec.step_requeue_gone. cbn. by rewrite lookup_fmap, E. }
  pose proof (absr_lookup _ _ _ E) as Hc.
  case_match eqn:L; split_bools; [|case_match eqn:D]; cbn [fst].
  - rewrite (absr_drop {[(row, addr)]} g).
    + apply Spec.step_requeue_expired. intros k ->%elem_of_singleton. eauto.
    + intros k. rewrite lookup_delete. repeat case_decide; set_solver.
  - replace (absr g) with (Spec.mk_state (Spec.claims (absr g))
      (Spec.pending (absr g) ∪ {[(row, addr)]})) at 2.
    + by eapply Spec.step_requeue.
    + unfold absr. cbn. f_equal.
      assert ((row, addr) ∈ dirty_keys (entries g)); [rewrite elem_of_dirty_keys; eauto|].
      set_solver.
  - assert (absr (mk_inner (<[(row, addr) := set_dirty e true]> (entries g))
       (queue g ++ [((row, addr), now)]) (refusing g) (cap_refusals g))
      = Spec.mk_state (Spec.claims (absr g)) (Spec.pending (absr g) ∪ {[(row, addr)]})) as ->.
    + unfold absr. cbn. f_equal; [|by rewrite dirty_keys_insert].
      rewrite fmap_insert. apply insert_id. by rewrite lookup_fmap, E.
    + by eapply Spec.step_requeue.
Qed.

Lemma walked_gone_expired now g es1 pre gone :
  walked now (entries g) es1 pre gone →
  Spec.all_expired now (list_to_set gone) (absr g).
Proof.
  intros [_ Hg _ _] k Hk%elem_of_list_to_set. apply Hg in Hk as (_ & e & E & _ & ?).
  exists (claim_of e). eauto using absr_lookup.
Qed.

(** Taking clears one dirty mark and changes nothing else the abstraction sees. *)
Lemma absr_take_one es k e q q' r c :
  es !! k = Some e →
  absr (mk_inner (<[k := set_dirty e false]> es) q r c)
  = Spec.mk_state (Spec.claims (absr (mk_inner es q' r c)))
      (Spec.pending (absr (mk_inner es q' r c)) ∖ {[k]}).
Proof.
  intros E. unfold absr. cbn. f_equal; [|by rewrite dirty_keys_insert].
  rewrite fmap_insert. apply insert_id. by rewrite lookup_fmap, E.
Qed.

Lemma take_refines g now :
  table_wf g → Spec.step (absr g) (OpTake now) (absr (take_next_dirty g now).1).
Proof.
  intros Hwf. unfold take_next_dirty.
  destruct (take_loop now (entries g) (queue g) []) as [[es q] out] eqn:L; cbn [fst].
  apply take_loop_spec in L as (pre & gone & es1 & W & _ & L).
  pose proof (walked_gone_expired _ _ _ _ _ W) as Hexp. destruct W as [_ Hg He Hp].
  assert (Hdrop : ∀ q r c, absr (mk_inner es1 q r c) = Spec.drop (list_to_set gone) (absr g)).
  { intros. apply absr_drop. intros k. rewrite He.
    repeat case_decide; [done|set_solver|set_solver|done]. }
  destruct (taken out) as [t|] eqn:Ht.
  - destruct L as (ts & e & HQ & Et & D & Lt & _ & _ & ->).
    set (k := (t_row t, t_addr t)) in *.
    assert (Hk : entries g !! k = Some e) by (rewrite He in Et; by case_decide).
    rewrite (absr_take_one es1 k e q q) by done. rewrite Hdrop.
    apply (Spec.step_take _ now (list_to_set gone) k (claim_of e)); [done| | | |exact Lt].
    + intros k' Hin. apply elem_of_dirty_keys. apply elem_of_list_to_set, Hg in Hin.
      destruct Hin as (_ & e' & ? & ? & _). eauto.
    + apply elem_of_dirty_keys. eauto.
    + by apply absr_lookup in Hk.
  - destruct L as (HQ & -> & ->). rewrite Hdrop.
    assert (list_to_set gone = Spec.pending (absr g)) as HD.
    { apply set_eq. intros k. cbn. rewrite elem_of_list_to_set, elem_of_dirty_keys, Hg. split.
      - intros (_ & e & ? & ? & _). eauto.
      - intros (e & E & D). pose proof (wf_queued g Hwf k e E D) as Hin. rewrite HQ in Hin.
        split; [done|]. exists e. split_and!; [done..|].
        destruct (decide (expires_at e ≤ now)); [done|]. destruct (Hp k Hin). exists e.
        split_and!; [done..|lia]. }
    rewrite HD in *. by apply Spec.step_take_none.
Qed.

Lemma remove_expired_refines g now :
  Spec.step (absr g) (OpRemoveExpired now) (absr (remove_expired g now).1).
Proof.
  set (D := dom (filter (λ kv, ¬ live_at now kv) (entries g))).
  assert (HD : ∀ k, k ∈ D ↔ ∃ e, entries g !! k = Some e ∧ expires_at e ≤ now).
  { intros k. unfold D. rewrite elem_of_dom. split.
    - intros [e [E Hl]%map_lookup_filter_Some]. exists e. unfold live_at in Hl. cbn in Hl.
      split; [done|lia].
    - intros (e & E & ?). exists e. apply map_lookup_filter_Some. split; [done|].
      unfold live_at. cbn. lia. }
  unfold remove_expired. cbn [fst]. rewrite (absr_drop D g).
  - apply Spec.step_sweep.
    + intros k (e & E & ?)%HD. exists (claim_of e). eauto using absr_lookup.
    + intros k c. cbn. rewrite lookup_fmap. destruct (entries g !! k) as [e|] eqn:E; [|done].
      cbn. intros [= <-] Hk. rewrite HD in Hk. destruct (decide (now < expires_at e)); [done|].
      destruct Hk. exists e. split; [done|lia].
  - intros k. case_decide as Hk.
    + apply HD in Hk as (e & E & ?). apply map_lookup_filter_None. right. intros e' E'.
      unfold live_at. cbn. simplify_eq. lia.
    + destruct (entries g !! k) as [e|] eqn:E; [apply map_lookup_filter_Some|
        apply map_lookup_filter_None; by left].
      split; [done|]. unfold live_at. cbn. destruct (decide (now < expires_at e)); [done|].
      destruct Hk. apply HD. exists e. split; [done|lia].
Qed.

(** ** Lemmas on the caps *)

Lemma prefix_hosts_bounds p : 0 ≤ prefix_hosts p ≤ u32_max.
Proof. unfold prefix_hosts, sat_sub. assert (0 ≤ u32_max) by (unfold u32_max; lia). lia. Qed.

Lemma for_prefix_le s p :
  cap_value (for_prefix s p) ≤ Z.min (gc_thresh3 s) GC_THRESH3_DEFAULT / 2 / Z.max (rows s) 1.
Proof. unfold for_prefix. destruct (_ <=? _) eqn:E; split_bools; cbn; lia. Qed.

Lemma cap_read_bounds answer n :
  0 ≤ gc_thresh3 (cap_read answer n).1.
Proof.
  unfold cap_read. destruct answer as [text|e]; [|done].
  destruct (parse_uint u32_max (trim text)) as [gc|] eqn:E; [|done].
  cbn. apply parse_uint_bounds in E. lia.
Qed.

Lemma sum_list_const_le {A} (f : A → Z) (l : list A) b :
  (∀ x, f x ≤ b) → foldr Z.add 0 (f <$> l) ≤ Z.of_nat (length l) * b.
Proof. intros Hf. induction l as [|x l IH]; [cbn; lia|].
  rewrite fmap_cons. cbn [foldr length]. specialize (Hf x). lia.
Qed.

(** ** What the table promises *)

(** C13. No workload row ever holds more claims than the largest cap any admission into it was
    checked against, whatever sequence of admissions, retries, drains and sweeps ran. *)
Theorem row_cap_never_exceeded (r : string) (C : Z) (g : Inner) :
  0 ≤ C → reachable_by (op_cap_le r C) g → row_len (entries g) r ≤ C.
Proof.
  intros HC. induction 1 as [|g op _ IH Ho Hc].
  - rewrite row_len_keys. unfold row_keys. cbn. rewrite map_filter_empty, dom_empty_L, size_empty.
    unfold u32_max. lia.
  - by apply apply_op_row_len.
Qed.

(** Draining at one instant hands over exactly the dirty claims whose lease still runs, each
    once, and leaves an empty queue and nothing dirty: no admitted claim is lost. *)
Theorem drain_hands_over_every_claim (g g' : Inner) (now : Instant) (ks : list Key) :
  reachable g → drain (S (length (queue g))) now g = (ks, g') →
  NoDup ks ∧ (∀ k, k ∈ ks ↔ ready now (entries g) k) ∧ queue g' = [] ∧ dirty_depth g' = 0%nat.
Proof. intros Hr. apply drain_spec; [by eapply reachable_wf|lia]. Qed.

(** A take hands over the FIRST queued key that names a dirty claim with a running lease,
    with the MAC and leg of the claim's last admission; it reports one row per claim it drops,
    and a claim it drops had expired. *)
Theorem take_is_first_live_dirty (g g' : Inner) (now : Instant) (out : NextDirty) (t : Taken) :
  take_next_dirty g now = (g', out) → taken out = Some t →
  ∃ pre ts gone e,
    queue g = pre ++ ((t_row t, t_addr t), ts) :: queue g' ∧
    (∀ k, k ∈ pre.*1 → ¬ ready now (entries g) k) ∧
    entries g !! (t_row t, t_addr t) = Some e ∧ dirty e = true ∧ now < expires_at e ∧
    t_leg t = leg e ∧ t_mac t = mac e ∧
    entries g' !! (t_row t, t_addr t) = Some (set_dirty e false) ∧
    expired out = gone.*1 ∧ NoDup gone ∧
    (∀ k, k ∈ gone → dead now (entries g) k ∧ entries g' !! k = None).
Proof.
  unfold take_next_dirty.
  destruct (take_loop now (entries g) (queue g) []) as [[es q] o] eqn:L.
  intros [= <- <-] Ht. cbn. apply take_loop_spec in L as (pre & gone & es1 & [Hn Hg He Hp] & Hx & L).
  rewrite Ht in L. destruct L as (ts & e & HQ & Et & D & Lt & Hl & Hm & ->).
  assert (entries g !! (t_row t, t_addr t) = Some e) as E by (rewrite He in Et; by case_decide).
  exists pre, ts, gone, e. rewrite lookup_insert_eq. split_and!; try done.
  intros k Hk. pose proof (proj2 (proj1 (Hg k) Hk)) as Hd. split; [done|].
  destruct (decide (k = (t_row t, t_addr t))) as [->|].
  - destruct Hd as (e' & ? & _ & ?). simplify_eq. lia.
  - rewrite lookup_insert_ne, He by done. by rewrite decide_True.
Qed.

(** Admission on every branch: a claim is refused exactly when it is new and its row is at
    the cap, and a refusal changes no claim and wakes nobody, and is the first of its streak
    exactly when the row was not already refusing; an admission stores the claim as dirty,
    ends the row's streak and wakes the actor, and queues the key at the back unless the claim
    was dirty already, when it keeps its position. *)
Theorem upsert_cases (g g' : Inner) row lg addr m ex cap now out woke :
  upsert g row lg addr m ex cap now = (g', out, woke) →
  match out with
  | UpsertRefused first =>
      entries g !! (row, addr) = None ∧ cap_value cap ≤ row_len (entries g) row ∧
      entries g' = entries g ∧ queue g' = queue g ∧ woke = false ∧
      (first = true ↔ row ∉ refusing g) ∧ row ∈ refusing g' ∧
      cap_refusals g' !! row = Some (unwrap_or (cap_refusals g !! row) 0 + 1)
  | UpsertAdmitted =>
      (is_Some (entries g !! (row, addr)) ∨ row_len (entries g) row < cap_value cap) ∧
      entries g' = <[(row, addr) := mk_entry lg m ex true]> (entries g) ∧
      (row ∉ refusing g') ∧ cap_refusals g' = cap_refusals g ∧ woke = true ∧
      queue g' = (if bool_decide ((row, addr) ∈ dirty_keys (entries g)) then queue g
                  else queue g ++ [((row, addr), now)])
  end.
Proof.
  unfold upsert. destruct (entries g !! (row, addr)) as [e|] eqn:E; [|case_match eqn:C];
    intros [= <- <- <-]; cbn; split_bools.
  - split_and!; [by left; eauto|done|set_solver|done|done|].
    case_bool_decide as Hd; rewrite elem_of_dirty_keys in Hd; destruct (dirty e) eqn:D; try done.
    + destruct Hd as (e' & ? & ?). congruence.
    + destruct Hd. eauto.
  - split_and!; try done; [|set_solver|].
    + by rewrite bool_decide_eq_true.
    + unfold bump. by rewrite lookup_insert_eq.
  - split_and!; [by right|done|set_solver|done|done|].
    rewrite bool_decide_eq_false_2; [done|]. rewrite elem_of_dirty_keys. naive_solver.
Qed.

(** C34. The table refines its abstract specification: every operation on a reachable table is a
    step of the queue-free machine, which loses a claim only when its lease has run out. *)
Theorem table_refines (g : Inner) (op : TableOp) :
  reachable g → op_ok op → Spec.step (absr g) op (absr (apply_op g op)).
Proof.
  intros Hr%reachable_wf Ho. destruct op; cbn [apply_op op_ok] in *.
  - apply upsert_refines; tauto.
  - apply re_dirty_refines.
  - by apply take_refines.
  - apply remove_expired_refines.
Qed.

(** The caps of at most [rows] workload rows together never exceed half of the kernel's
    neighbour table, nor 512, whatever prefixes the rows declare. *)
Theorem caps_sum_within_half (s : CapSource) (ps : list Ipv4Prefix) :
  0 ≤ gc_thresh3 s → Z.of_nat (length ps) ≤ rows s →
  foldr Z.add 0 ((λ p, cap_value (for_prefix s p)) <$> ps)
  ≤ Z.min (gc_thresh3 s / 2) 512.
Proof.
  intros Hg Hl. etrans; [apply (sum_list_const_le _ ps _ (for_prefix_le s))|].
  unfold GC_THRESH3_DEFAULT. set (h := Z.min (gc_thresh3 s) 1024 / 2).
  assert (0 ≤ h ≤ Z.min (gc_thresh3 s / 2) 512) as Hh.
  { unfold h. split; [apply Z.div_pos; lia|]. Z.div_mod_to_equations. lia. }
  destruct ps as [|p ps]; [cbn; lia|]. cbn [length] in *.
  pose proof (Z.mul_div_le h (Z.max (rows s) 1)) as Hd.
  assert (0 ≤ h / Z.max (rows s) 1) by (apply Z.div_pos; lia). nia.
Qed.

(** Each sentence of the refusal line that says raising [gc_thresh3] does not help is true:
    no larger value of the sysctl changes the row's cap. *)
Theorem refusal_remedy_true (s : CapSource) (row : string) (addr : Ipv4Addr)
    (p : Ipv4Prefix) (gc' : Z) :
  gc_thresh3 s ≤ gc' →
  match refusal_line (for_prefix s p) row addr p with
  | RefusedRaiseGc _ _ _ _ _ => gc_thresh3 s < GC_THRESH3_DEFAULT
  | _ => cap_value (for_prefix {| gc_thresh3 := gc'; rows := rows s |} p)
         = cap_value (for_prefix s p)
  end.
Proof.
  intros Hgc. unfold refusal_line, for_prefix. cbn [gc_thresh3 rows].
  set (k := Z.min (gc_thresh3 s) GC_THRESH3_DEFAULT / 2 / Z.max (rows s) 1).
  set (k' := Z.min gc' GC_THRESH3_DEFAULT / 2 / Z.max (rows s) 1).
  assert (k ≤ k') by (unfold k, k'; apply Z.div_le_mono; [lia|apply Z.div_le_mono; lia]).
  destruct (prefix_hosts p <=? k) eqn:E; cbn; split_bools.
  - assert ((prefix_hosts p <=? k') = true) as -> by (apply Z.leb_le; lia). done.
  - destruct (gc_thresh3 s <? GC_THRESH3_DEFAULT) eqn:G; split_bools; [done|].
    assert (k' = k) as ->; [|by rewrite (proj2 (Z.leb_gt _ _) E)].
    unfold k, k'. by rewrite !Z.min_r by lia.
Qed.

(** A lease is never worth less than a minute nor more than a day, and a lease inside those
    bounds is honoured to the second. *)
Theorem clamp_lease_bounds (option_51 : option Z) :
  MIN_LEASE ≤ clamp_lease option_51 ≤ MAX_LEASE ∧
  ∀ s, option_51 = Some s → 60 ≤ s ≤ 86400 → clamp_lease option_51 = from_secs s.
Proof.
  split; [apply clamp_between|]. intros s -> Hs.
  unfold clamp_lease, MIN_LEASE, MAX_LEASE, from_secs, nanos_per_sec. lia.
Qed.

(** ** Concrete runs *)

Definition row_a : string := "guest".
Definition cap2 : RowCap :=
  {| cap_value := 2; bound_by := BoundGcThresh3; rc_gc_thresh3 := 12; rc_rows := 3 |}.
Definition mac_of (n : Z) : Mac := [2; 0; 0; 0; 0; n].
Definition sec (n : Z) : Instant := from_secs n.

(** Three admissions into a row capped at two: the third is refused. *)
Definition filled : Inner :=
  apply_op (apply_op (apply_op inner_default
    (OpUpsert row_a "v100" 1 (mac_of 1) (sec 60) cap2 (sec 0)))
    (OpUpsert row_a "v100" 2 (mac_of 2) (sec 90) cap2 (sec 0)))
    (OpUpsert row_a "v100" 3 (mac_of 3) (sec 90) cap2 (sec 0)).

Lemma filled_reachable : reachable_by (op_cap_le row_a 2) filled.
Proof.
  unfold filled. repeat apply reach_step; try (cbn; unfold addr_ok, u32_max; lia).
  apply reach_init.
Qed.

Lemma reachable_any ok g : reachable_by ok g → reachable g.
Proof. induction 1; [apply reach_init|by apply reach_step]. Qed.

Lemma row_cap_witness : row_len (entries filled) row_a = 2 ∧ row_len (entries filled) row_a ≤ 2.
Proof.
  split; [vm_compute; reflexivity|].
  apply (row_cap_never_exceeded row_a 2); [lia|exact filled_reachable].
Defined.

Lemma drain_witness :
  (∀ k, k ∈ [(row_a, 2)] ↔ ready (sec 60) (entries filled) k) ∧
  (drain 3 (sec 60) filled).1 = [(row_a, 2)].
Proof.
  assert (drain 3 (sec 60) filled = ([(row_a, 2)], (drain 3 (sec 60) filled).2)) as H
    by (vm_compute; reflexivity).
  split; [|by rewrite H].
  apply (drain_hands_over_every_claim filled _ (sec 60) _
    (reachable_any _ _ filled_reachable) H).
Defined.

Lemma take_witness :
  ∃ t, taken (take_next_dirty filled (sec 60)).2 = Some t ∧ t_addr t = 2 ∧
  ∃ pre ts, queue filled = pre ++ ((row_a, 2), ts) :: queue (take_next_dirty filled (sec 60)).1.
Proof.
  eexists {| t_row := row_a; t_leg := "v100"; t_addr := 2; t_mac := mac_of 2 |}.
  assert (taken (take_next_dirty filled (sec 60)).2
    = Some {| t_row := row_a; t_leg := "v100"; t_addr := 2; t_mac := mac_of 2 |}) as H
    by (vm_compute; reflexivity).
  split; [exact H|]. split; [reflexivity|].
  destruct (take_is_first_live_dirty filled _ (sec 60) _ _ (surjective_pairing _) H)
    as (pre & ts & _ & _ & HQ & _). eauto.
Defined.

Lemma upsert_witness :
  upsert filled row_a "v100" 3 (mac_of 3) (sec 90) cap2 (sec 1)
    = (mk_inner (entries filled) (queue filled) (refusing filled ∪ {[row_a]})
         (bump (cap_refusals filled) row_a 1), UpsertRefused false, false) ∧
  cap_refusals filled !! row_a = Some 1.
Proof.
  assert (upsert filled row_a "v100" 3 (mac_of 3) (sec 90) cap2 (sec 1)
    = (mk_inner (entries filled) (queue filled) (refusing filled ∪ {[row_a]})
         (bump (cap_refusals filled) row_a 1), UpsertRefused false, false)) as H
    by (vm_compute; reflexivity).
  pose proof (upsert_cases _ _ _ _ _ _ _ _ _ _ _ H) as (_ & _ & _ & _ & _ & Hf & _).
  split; [exact H|]. vm_compute. reflexivity.
Defined.

Lemma table_refines_witness :
  Spec.step (absr filled) (OpTake (sec 60)) (absr (apply_op filled (OpTake (sec 60)))).
Proof. apply (table_refines filled); [exact (reachable_any _ _ filled_reachable)|exact I]. Defined.

Definition slash24 (n : Z) : Ipv4Prefix := mk_prefix (addr_new 10 0 n 0) 24.
Lemma caps_sum_witness :
  foldr Z.add 0 ((λ p, cap_value (for_prefix {| gc_thresh3 := 1000; rows := 2 |} p)) <$>
     [slash24 1; slash24 2]) = 500 ∧
  foldr Z.add 0 ((λ p, cap_value (for_prefix {| gc_thresh3 := 1000; rows := 2 |} p)) <$>
     [slash24 1; slash24 2]) ≤ Z.min (1000 / 2) 512.
Proof.
  split; [vm_compute; reflexivity|].
  apply (caps_sum_within_half {| gc_thresh3 := 1000; rows := 2 |}); cbn; lia.
Defined.

Lemma refusal_remedy_witness :
  cap_value (for_prefix {| gc_thresh3 := 4096; rows := 1 |} (slash24 1)) = 254.
Proof.
  transitivity (cap_value (for_prefix {| gc_thresh3 := 1024; rows := 1 |} (slash24 1)));
    [|vm_compute; reflexivity].
  refine (refusal_remedy_true {| gc_thresh3 := 1024; rows := 1 |} row_a 7 (slash24 1) 4096 _).
  cbn. lia.
Defined.

(** The sentence that tells the operator to raise [gc_thresh3] can be false: at 1023 with
    three rows the cap is already the one the kernel default gives. *)
Theorem raise_gc_can_change_nothing :
  let s := {| gc_thresh3 := 1023; rows := 3 |} in
  refusal_line (for_prefix s (slash24 1)) row_a 7 (slash24 1) = RefusedRaiseGc row_a 7 170 1023 3 ∧
  ∀ gc', 1023 ≤ gc' →
    cap_value (for_prefix {| gc_thresh3 := gc'; rows := 3 |} (slash24 1)) = 170.
Proof.
  split; [vm_compute; reflexivity|]. intros gc' Hgc. unfold for_prefix. cbn [gc_thresh3 rows].
  assert (Z.min gc' GC_THRESH3_DEFAULT / 2 / Z.max 3 1 = 170) as ->.
  { unfold GC_THRESH3_DEFAULT.
    destruct (decide (gc' = 1023)) as [->|]; [reflexivity|]. by rewrite Z.min_r by lia. }
  reflexivity.
Qed.

(** A claim re-admitted after its lease ran out in the queue inherits its old position: the
    stale key is not told apart from the new one, so the late claim is written before the claim
    that has waited longer. *)
Theorem readmitted_claim_jumps_queue :
  let g := apply_op (apply_op (apply_op (apply_op inner_default
      (OpUpsert row_a "v100" 1 (mac_of 1) (sec 60) cap2 (sec 0)))
      (OpUpsert row_a "v100" 2 (mac_of 2) (sec 900) cap2 (sec 10)))
      (OpRemoveExpired (sec 60)))
      (OpUpsert row_a "v100" 1 (mac_of 1) (sec 900) cap2 (sec 70)) in
  (queue g).*1 = [(row_a, 1); (row_a, 2); (row_a, 1)] ∧
  t_addr <$> taken (take_next_dirty g (sec 70)).2 = Some 1.
Proof. split; vm_compute; reflexivity. Qed.
