(* ===== verification/Announce.v ===== *)
(** The gateway announcer (src/src/workload/announce.rs).

    Two independent deadlines per workload: the beacon, which advances by whole periods, and
    the burst a learned MAC arms. [announce_due] takes what the socket answered as an argument;
    the two ARP frames are byte lists. *)
From S2P Require Import Prelude Net.

Definition PERIOD : Duration := from_secs 5.
Definition BURST_LEN : Z := 3.
Definition BURST_GAP : Duration := from_secs 1.
Definition BURST_MIN_GAP : Duration := PERIOD.

Record Announcer := mk_announcer {
  a_ifname : string;
  a_gw : Ipv4Addr;
  beacon_due : Instant;
  burst_left : Z;
  burst_due : option Instant;
  last_burst : option Instant;
  announces : Z;
  bursts : Z
}.

Definition announcer_new (ifname : string) (gw : Ipv4Addr) (now : Instant) : Announcer :=
  mk_announcer ifname gw now 0 None None 0 0.

Definition on_event (self : Announcer) (now : Instant) : Announcer :=
  if 0 <? burst_left self then self
  else if is_some_and (last_burst self) (λ t, now <? t + BURST_MIN_GAP) then self
  else mk_announcer (a_ifname self) (a_gw self) (beacon_due self)
         BURST_LEN (Some now) (Some now) (announces self) (bursts self + 1).

Definition next_due (self : Announcer) : Instant :=
  match burst_due self with
  | Some b => Z.min b (beacon_due self)
  | None => beacon_due self
  end.

(** [while self.beacon_due <= now { self.beacon_due += PERIOD }] *)
Fixpoint advance (fuel : nat) (due now : Instant) : Instant :=
  match fuel with
  | O => due
  | S f => if due <=? now then advance f (due + PERIOD) now else due
  end.
Definition advance_fuel (due now : Instant) : nat := Z.to_nat ((now - due) / PERIOD + 2).

(** The burst half of [fire]: whether it sends, [burst_left] and [burst_due] after it. *)
Definition fire_burst (left_ : Z) (due : option Instant) (now : Instant)
    : bool * Z * option Instant :=
  match due with
  | Some b =>
      if b <=? now then
        let n := usize_sub left_ 1 in
        (true, n, if 0 <? n then Some (b + BURST_GAP) else None)
      else (false, left_, due)
  | None => (false, left_, due)
  end.

Definition fire (self : Announcer) (now : Instant) : Announcer * bool :=
  let '(send1, n, due) := fire_burst (burst_left self) (burst_due self) now in
  let send2 := beacon_due self <=? now in
  let beacon := if send2 then advance (advance_fuel (beacon_due self) now) (beacon_due self) now
                else beacon_due self in
  let send := send1 || send2 in
  (mk_announcer (a_ifname self) (a_gw self) beacon n due (last_burst self)
     (if send then announces self + 1 else announces self) (bursts self),
   send).

Definition counters (self : Announcer) : Z * Z := (announces self, bursts self).

(** The eight bytes every ARP request of the program carries: Ethernet, IPv4, 6, 4, request. *)
Definition arp_request_head : list Z := [0; 1; 8; 0; 6; 4; 0; 1].

Definition unicast_probe (src_mac dst_mac : Mac) (sender_ip target_ip : Ipv4Addr) : list Z :=
  let f := zeros 42 in
  let f := splice f 0 dst_mac in
  let f := splice f 6 src_mac in
  let f := splice f 12 [8; 6] in
  let f := splice f 14 arp_request_head in
  let f := splice f 22 src_mac in
  let f := splice f 28 (octets sender_ip) in
  splice f 38 (octets target_ip).

Definition gratuitous (src_mac : Mac) (gw : Ipv4Addr) : list Z :=
  let f := zeros 42 in
  let f := splice f 0 (replicate 6 255) in
  let f := splice f 6 src_mac in
  let f := splice f 12 [8; 6] in
  let f := splice f 14 arp_request_head in
  let f := splice f 22 src_mac in
  let f := splice f 28 (octets gw) in
  splice f 38 (octets gw).

(** [announce_due]: [send] is what the socket answers to one frame. *)
Definition announce_due {E} (send : string → list Z → result E unit) (self : Announcer)
    (src_mac : Mac) (now : Instant) : Announcer * result E bool :=
  let '(self', due) := fire self now in
  (self',
   if negb due then Ok false
   else send (a_ifname self') (gratuitous src_mac (a_gw self')) ;;? Ok true).

(** ** Helper lemmas *)

Lemma PERIOD_pos : 0 < PERIOD.
Proof. reflexivity. Qed.

Lemma advance_spec fuel due now :
  due ≤ now → (now - due) / PERIOD < Z.of_nat fuel →
  advance fuel due now = due + ((now - due) / PERIOD + 1) * PERIOD.
Proof.
  pose proof PERIOD_pos as HP.
  revert due. induction fuel as [|f IH]; intros due Hle Hf.
  - pose proof (Z.div_pos (now - due) PERIOD). lia.
  - cbn [advance]. rewrite (proj2 (Z.leb_le due now)) by done.
    assert (Hq : (now - due) / PERIOD = (now - (due + PERIOD)) / PERIOD + 1).
    { replace (now - due) with (now - (due + PERIOD) + 1 * PERIOD) by lia.
      rewrite Z.div_add by lia. lia. }
    destruct (decide (due + PERIOD ≤ now)).
    + rewrite IH by lia. lia.
    + assert ((now - (due + PERIOD)) / PERIOD = -1) as Hm.
      { symmetry. apply (Z.div_unique_pos _ _ _ (now - due)); lia. }
      rewrite Hq, Hm. destruct f as [|f]; cbn [advance]; [lia|].
      rewrite (proj2 (Z.leb_gt _ _)); lia.
Qed.

(** The loop stops at the first deadline of the schedule that lies after [now]. *)
Lemma advance_bounds due now :
  due ≤ now →
  (now < advance (advance_fuel due now) due now ≤ now + PERIOD)
  ∧ (advance (advance_fuel due now) due now - due) mod PERIOD = 0.
Proof.
  pose proof PERIOD_pos as HP. intros Hle.
  assert (0 ≤ (now - due) / PERIOD) by (apply Z.div_pos; lia).
  rewrite advance_spec; [|done|unfold advance_fuel; lia].
  pose proof (Z.mod_pos_bound (now - due) PERIOD HP).
  pose proof (Z.div_mod (now - due) PERIOD). split; [nia|].
  rewrite Z.add_simpl_l. apply Z.mod_mul. lia.
Qed.

(** ** The announcer as a state machine *)

Inductive AnnStep := AEvent (now : Instant) | AFire (now : Instant).
Definition step_time (s : AnnStep) : Instant :=
  match s with AEvent t => t | AFire t => t end.
Definition ann_step (a : Announcer) (s : AnnStep) : Announcer :=
  match s with AEvent t => on_event a t | AFire t => (fire a t).1 end.

(** The announcers a caller whose clock never goes back can hold at time [t]. *)
Inductive ran (ifname : string) (gw : Ipv4Addr) (t0 : Instant) : Announcer → Instant → Prop :=
| ran_new : ran ifname gw t0 (announcer_new ifname gw t0) t0
| ran_step a t s : ran ifname gw t0 a t → t ≤ step_time s →
    ran ifname gw t0 (ann_step a s) (step_time s).

(** What every such announcer satisfies. *)
Record ann_ok (t0 : Instant) (a : Announcer) (t : Instant) : Prop := {
  ao_left : 0 ≤ burst_left a ≤ BURST_LEN;
  ao_armed : is_Some (burst_due a) ↔ 0 < burst_left a;
  ao_sched : (beacon_due a - t0) mod PERIOD = 0;
  ao_beacon : t0 ≤ beacon_due a ≤ t + PERIOD;
  ao_last : match last_burst a with
            | Some b => t0 ≤ b ≤ t ∧ (bursts a - 1) * PERIOD ≤ b - t0
            | None => bursts a = 0
            end;
  ao_rate : announces a ≤ (beacon_due a - t0) / PERIOD + (BURST_LEN * bursts a - burst_left a)
}.

Lemma ann_ok_new ifname gw t0 : ann_ok t0 (announcer_new ifname gw t0) t0.
Proof.
  pose proof PERIOD_pos. split; cbn; unfold BURST_LEN; try lia.
  - split; [by intros [? ?]|lia].
  - by rewrite Z.sub_diag.
  - rewrite Z.sub_diag. done.
Qed.

Lemma ann_ok_event t0 a t now : t0 ≤ t → ann_ok t0 a t → t ≤ now → ann_ok t0 (on_event a now) now.
Proof.
  pose proof PERIOD_pos. intros H0 [Hl Ha Hs Hb Hlast Hr] Ht. unfold on_event.
  assert (Hkeep : ann_ok t0 a now).
  { split; try done; [lia|]. destruct (last_burst a); lia. }
  destruct (0 <? burst_left a) eqn:L; [done|].
  destruct (is_some_and _ _) eqn:E; [done|]. split_bools.
  split; cbn; try done; unfold BURST_LEN in *; try lia.
  destruct (last_burst a) as [b|]; cbn in E; split_bools; unfold BURST_MIN_GAP in *; nia.
Qed.

Lemma fire_burst_ok n due now :
  0 ≤ n ≤ BURST_LEN → (is_Some due ↔ 0 < n) →
  let '(send, n', due') := fire_burst n due now in
  0 ≤ n' ≤ BURST_LEN ∧ (is_Some due' ↔ 0 < n') ∧ n' = n - (if send then 1 else 0).
Proof.
  unfold BURST_LEN. intros Hl Hd. unfold fire_burst.
  destruct due as [b|]; [|split; [done|split; [done|cbn; lia]]].
  assert (0 < n) by (apply Hd; eauto).
  destruct (b <=? now); [|split; [done|split; [done|cbn; lia]]].
  unfold usize_sub. rewrite Z.mod_small by (unfold usize_max; lia).
  destruct (0 <? n - 1) eqn:E; split_bools; (split; [lia|split; [|lia]]).
  - split; [lia|eauto].
  - split; [by intros [? ?]|lia].
Qed.

Lemma ann_ok_fire t0 a t now : ann_ok t0 a t → t ≤ now → ann_ok t0 (fire a now).1 now.
Proof.
  pose proof PERIOD_pos as HP. intros [Hl Ha Hs Hb Hlast Hr] Ht. unfold fire.
  pose proof (fire_burst_ok _ _ now Hl Ha) as Hf.
  destruct (fire_burst (burst_left a) (burst_due a) now) as [[s1 n] due].
  destruct Hf as (Hl' & Hd' & Heq). cbn [fst].
  destruct (beacon_due a <=? now) eqn:B; split_bools.
  - pose proof (advance_bounds (beacon_due a) now B) as [Hn Hm].
    set (due2 := advance _ _ now) in *.
    assert (Hm2 : (due2 - t0) mod PERIOD = 0).
    { replace (due2 - t0) with ((due2 - beacon_due a) + (beacon_due a - t0)) by lia.
      rewrite Z.add_mod, Hm, Hs by lia. done. }
    assert ((beacon_due a - t0) / PERIOD + 1 ≤ (due2 - t0) / PERIOD) as Hdiv.
    { pose proof (Z.div_mod (due2 - t0) PERIOD). pose proof (Z.div_mod (beacon_due a - t0) PERIOD).
      nia. }
    split; cbn; try done; [lia| |].
    + destruct (last_burst a); lia.
    + rewrite orb_true_r. unfold BURST_LEN in *. destruct s1; lia.
  - split; cbn; try done; [lia| |].
    + destruct (last_burst a); lia.
    + rewrite orb_false_r. unfold BURST_LEN in *. destruct s1; lia.
Qed.

Lemma ran_ok ifname gw t0 a t : ran ifname gw t0 a t → t0 ≤ t ∧ ann_ok t0 a t.
Proof.
  induction 1 as [|a t s _ [Ht IH] Hs]; [split; [lia|apply ann_ok_new]|].
  destruct s; cbn in *; split; [lia|by eapply ann_ok_event|lia|by eapply ann_ok_fire].
Qed.

(** ** What the announcer promises *)

(** Over any run the announcer produces at most [BURST_LEN + 1] frames per period: with
    [d] time gone since it started, at most four per started period, however fast MACs churn
    and however the caller is late. *)
Theorem announce_rate_bounded ifname gw t0 a t :
  ran ifname gw t0 a t →
  announces a ≤ (BURST_LEN + 1) * ((t - t0) / PERIOD + 1).
Proof.
  pose proof PERIOD_pos as HP. intros [Ht [Hl Ha Hs Hb Hlast Hr]]%ran_ok. unfold BURST_LEN in *.
  assert ((beacon_due a - t0) / PERIOD ≤ (t - t0) / PERIOD + 1) as H1.
  { replace ((t - t0) / PERIOD + 1) with ((t - t0 + 1 * PERIOD) / PERIOD)
      by (rewrite Z.div_add; lia).
    apply Z.div_le_mono; lia. }
  assert (bursts a ≤ (t - t0) / PERIOD + 1) as H2.
  { destruct (last_burst a) as [b|].
    - assert (bursts a - 1 ≤ (t - t0) / PERIOD); [|lia]. apply Z.div_le_lower_bound; lia.
    - pose proof (Z.div_pos (t - t0) PERIOD). lia. }
  lia.
Qed.

(** The burst counter never runs below zero, and a burst deadline is pending exactly while
    burst frames are left: the machine subtraction of [fire] cannot wrap. *)
Theorem burst_never_underflows ifname gw t0 a t :
  ran ifname gw t0 a t →
  (0 ≤ burst_left a ≤ BURST_LEN) ∧ (is_Some (burst_due a) ↔ 0 < burst_left a).
Proof. intros [_ [? ? _ _ _ _]]%ran_ok. done. Qed.

(** One [fire] at [now] sends exactly when [next_due] has come; the beacon deadline after it
    is the first one of the fixed schedule [t0 + k * PERIOD] that lies after [now], so neither
    a late caller nor a slept-through stretch shifts the schedule or owes a backlog. *)
Theorem fire_keeps_schedule ifname gw t0 a t now :
  ran ifname gw t0 a t → t ≤ now →
  let '(a', sent) := fire a now in
  (sent = true ↔ next_due a ≤ now) ∧
  now < beacon_due a' ≤ Z.max (now + PERIOD) (beacon_due a) ∧
  (beacon_due a' - t0) mod PERIOD = 0 ∧
  announces a' = announces a + (if sent then 1 else 0).
Proof.
  intros [_ Hok]%ran_ok Hle. pose proof (ann_ok_fire _ _ _ now Hok Hle) as [_ _ Hs _ _ _].
  revert Hs. unfold fire, next_due.
  destruct (fire_burst (burst_left a) (burst_due a) now) as [[s1 n] due] eqn:F. cbn.
  assert (s1 = true ↔ ∃ b, burst_due a = Some b ∧ b ≤ now) as Hs1.
  { unfold fire_burst in F. destruct (burst_due a) as [b|];
      [destruct (b <=? now) eqn:B|]; simplify_eq; split_bools.
    - split; eauto.
    - split; [done|]. intros (b' & [= <-] & ?). lia.
    - split; [done|]. by intros (? & ? & _). }
  intros Hs. split; [|split; [|split; [done|destruct (s1 || _); cbn; lia]]].
  - rewrite orb_true_iff, Hs1, Z.leb_le. destruct (burst_due a) as [b|]; [|naive_solver].
    rewrite Z.min_le_iff. naive_solver.
  - destruct (beacon_due a <=? now) eqn:B; split_bools; [|lia].
    pose proof (advance_bounds _ _ B). lia.
Qed.

(** The fields of an ARP frame: destination, source, ethertype and ARP head, sender, target. *)
Definition arp_view (f : list Z) : list Z * list Z * list Z * list Z * list Z * list Z * list Z :=
  (take 6 f, take 6 (drop 6 f), take 10 (drop 12 f), take 6 (drop 22 f), take 4 (drop 28 f),
   take 6 (drop 32 f), take 4 (drop 38 f)).

(** Both ARP frames are 42 bytes with every field in its place: the beacon is a broadcast
    request whose sender and target are the gateway, the probe a request to the VM's own MAC,
    and the target MAC is zero in both. *)
Theorem arp_frames_well_formed (src dst : Mac) (gw ip : Ipv4Addr) :
  length src = 6%nat → length dst = 6%nat →
  length (gratuitous src gw) = 42%nat ∧ length (unicast_probe src dst gw ip) = 42%nat ∧
  arp_view (gratuitous src gw)
  = (replicate 6 255, src, [8; 6] ++ arp_request_head, src, octets gw, zeros 6, octets gw) ∧
  arp_view (unicast_probe src dst gw ip)
  = (dst, src, [8; 6] ++ arp_request_head, src, octets gw, zeros 6, octets ip).
Proof.
  intros Hs Hd.
  destruct src as [|s0 [|s1 [|s2 [|s3 [|s4 [|s5 [|]]]]]]]; try done.
  destruct dst as [|d0 [|d1 [|d2 [|d3 [|d4 [|d5 [|]]]]]]]; done.
Qed.

(** ** Concrete runs *)

(** A run given as its list of steps. *)
Fixpoint run_times_ok (t : Instant) (l : list AnnStep) : bool :=
  match l with [] => true | s :: l' => (t <=? step_time s) && run_times_ok (step_time s) l' end.
Fixpoint run_end (t : Instant) (l : list AnnStep) : Instant :=
  match l with [] => t | s :: l' => run_end (step_time s) l' end.

Lemma ran_foldl ifname gw t0 a t l :
  ran ifname gw t0 a t → run_times_ok t l = true →
  ran ifname gw t0 (foldl ann_step a l) (run_end t l).
Proof.
  revert a t. induction l as [|s l IH]; intros a t Hr; cbn; [done|].
  intros H. split_bools. apply IH; [|done]. by eapply ran_step.
Qed.

Definition churn : list AnnStep :=
  [AEvent 0; AFire 0; AFire (from_secs 1); AEvent (from_secs 2); AFire (from_secs 2);
   AEvent (from_secs 6)].
Definition churned : Announcer := foldl ann_step (announcer_new "v100" 1 0) churn.

Lemma announce_rate_witness :
  announces churned = 3 ∧ announces churned ≤ 4 * ((from_secs 6 - 0) / PERIOD + 1).
Proof.
  split; [vm_compute; reflexivity|].
  apply (announce_rate_bounded "v100" 1 0 churned (from_secs 6)).
  apply (ran_foldl _ _ _ _ 0 churn); [apply ran_new|vm_compute; reflexivity].
Defined.

Lemma burst_underflow_witness : is_Some (burst_due churned) ↔ 0 < burst_left churned.
Proof.
  apply (burst_never_underflows "v100" 1 0 churned (from_secs 6)).
  apply (ran_foldl _ _ _ _ 0 churn); [apply ran_new|vm_compute; reflexivity].
Defined.

Lemma fire_schedule_witness :
  (fire churned (from_secs 23)).2 = true ∧
  (beacon_due (fire churned (from_secs 23)).1 - 0) mod PERIOD = 0.
Proof.
  assert (ran "v100" 1 0 churned (from_secs 6)) as H
    by (apply (ran_foldl _ _ _ _ 0 churn); [apply ran_new|vm_compute; reflexivity]).
  assert (from_secs 6 ≤ from_secs 23) as Hle by (vm_compute; discriminate).
  pose proof (fire_keeps_schedule "v100" 1 0 churned _ _ H Hle) as Hf.
  destruct (fire churned (from_secs 23)) as [a' sent] eqn:F.
  split; [|exact (proj1 (proj2 (proj2 Hf)))].
  apply (proj1 Hf). vm_compute. discriminate.
Defined.

Lemma arp_frames_witness :
  length (gratuitous [2; 0; 0; 0; 0; 1] (addr_new 10 0 0 1)) = 42%nat.
Proof.
  apply (arp_frames_well_formed [2; 0; 0; 0; 0; 1] [2; 0; 0; 0; 0; 2] (addr_new 10 0 0 1) 7);
    reflexivity.
Defined.
