(* ===== verification/Decide.v ===== *)
(** The prober's two pure decisions (src/src/prober/decide.rs): when a wire's reachability
    changes, and which port the bond should be active on. *)
From S2P Require Import Prelude.

(** ** Hysteresis *)

Definition HYSTERESIS : Z := 3.

Record Hysteresis := mk_hyst { h_reachable : bool; streak : Z }.

#[export] Instance Hysteresis_eq_dec : EqDecision Hysteresis.
Proof. solve_decision. Defined.

Definition hyst_default : Hysteresis := mk_hyst true 0.

Definition observe (self : Hysteresis) (replied : bool) : Hysteresis :=
  if Bool.eqb replied (h_reachable self) then mk_hyst (h_reachable self) 0
  else
    let s := Z.min 255 (streak self + 1) in
    if HYSTERESIS <=? s then mk_hyst replied 0 else mk_hyst (h_reachable self) s.

Definition heard (self : Hysteresis) : Hysteresis := mk_hyst true 0.

Definition precharge (self : Hysteresis) : Hysteresis :=
  if h_reachable self then mk_hyst true (sat_sub HYSTERESIS 1) else self.

(** ** The port decision *)

Inductive BondLink := Up | GoingBack | GoingDown | Down | Unknown (raw : Z).

#[export] Instance BondLink_eq_dec : EqDecision BondLink.
Proof. solve_decision. Defined.

Record Candidate := mk_cand {
  c_ifname : string;
  c_wire : string;
  c_reachable : bool;
  c_carrier : bool;
  link_up : bool
}.

Definition usable (c : Candidate) : bool := c_reachable c && c_carrier c && link_up c.

Definition rank (prefs : list string) (wire : string) : Z :=
  unwrap_or (Z.of_nat <$> position (λ w, bool_decide (w = wire)) prefs) (usize_max - 1).

Definition by_ifname (cands : list Candidate) (a : string) : option Candidate :=
  List.find (λ c, bool_decide (c_ifname c = a)) cands.

Definition skipped_for_carrier (on : option string) (cands : list Candidate)
    (prefs : list string) : option Candidate :=
  match on ≫= by_ifname cands with
  | None => None
  | Some h =>
      let here := rank prefs (c_wire h) in
      min_by_key (λ c, rank prefs (c_wire c)) Z.ltb
        (List.filter (λ c, negb (c_carrier c) && (rank prefs (c_wire c) <? here)) cands)
  end.

(** Pairs in lexicographic order, as Rust compares tuples. *)
Definition pair_ltb (a b : Z * nat) : bool :=
  (a.1 <? b.1) || ((a.1 =? b.1) && Nat.ltb a.2 b.2).

Definition enumerate {A} (l : list A) : list (nat * A) := imap pair l.

(** The best usable port, ties going to the earlier one. *)
Definition best_usable (cands : list Candidate) (prefs : list string) : option Candidate :=
  snd <$> min_by_key (λ ic : nat * Candidate, (rank prefs (c_wire ic.2), ic.1)) pair_ltb
            (List.filter (λ ic : nat * Candidate, usable ic.2) (enumerate cands)).

Definition decide_port (active : option string) (cands : list Candidate) (prefs : list string)
    : option string :=
  match best_usable cands prefs with
  | None => None
  | Some best =>
      match active ≫= by_ifname cands with
      | Some c =>
          if usable c && (rank prefs (c_wire c) <=? rank prefs (c_wire best)) then None
          else Some (c_ifname best)
      | None => Some (c_ifname best)
      end
  end.

(** ** Helper lemmas *)

Lemma pair_ltb_irrefl a : pair_ltb a a = false.
Proof. unfold pair_ltb. rewrite Z.ltb_irrefl, Nat.ltb_irrefl, andb_false_r. done. Qed.

Lemma pair_ltb_spec a b :
  pair_ltb a b = true ↔ a.1 < b.1 ∨ (a.1 = b.1 ∧ (a.2 < b.2)%nat).
Proof.
  unfold pair_ltb. by rewrite orb_true_iff, andb_true_iff, Z.ltb_lt, Z.eqb_eq, Nat.ltb_lt.
Qed.

Lemma pair_ltb_trans a b c : pair_ltb a b = true → pair_ltb b c = true → pair_ltb a c = true.
Proof. rewrite !pair_ltb_spec. lia. Qed.

Lemma pair_ltb_total a b : pair_ltb a b = false → pair_ltb b a = false → a = b.
Proof.
  rewrite <-!not_true_iff_false, !pair_ltb_spec. destruct a, b; cbn. intros. f_equal; lia.
Qed.

Lemma elem_of_enumerate {A} (l : list A) i x : (i, x) ∈ enumerate l ↔ l !! i = Some x.
Proof.
  unfold enumerate. rewrite elem_of_lookup_imap. split.
  - by intros (j & y & [= <- <-] & ?).
  - eauto.
Qed.

Lemma by_ifname_Some cands a c : by_ifname cands a = Some c → c ∈ cands ∧ c_ifname c = a.
Proof. intros [? E]%find_Some_elem. by split_bools. Qed.

(** The candidate [best_usable] returns, with everything that makes it the one. *)
Lemma best_usable_Some cands prefs b :
  best_usable cands prefs = Some b →
  ∃ i, cands !! i = Some b ∧ usable b = true ∧
    ∀ j c, cands !! j = Some c → usable c = true →
      rank prefs (c_wire b) < rank prefs (c_wire c)
      ∨ (rank prefs (c_wire b) = rank prefs (c_wire c) ∧ (i ≤ j)%nat).
Proof.
  unfold best_usable. destruct (min_by_key _ _ _) as [[i b']|] eqn:E; [|done].
  cbn. intros [= ->].
  pose proof (min_by_key_elem _ _ _ _ E) as Hin.
  apply list_elem_of_In, List.filter_In in Hin as [Hin Hu].
  apply list_elem_of_In, elem_of_enumerate in Hin. exists i. split; [done|]. split; [done|].
  intros j c Hj Hc.
  assert ((j, c) ∈ List.filter (λ ic : nat * Candidate, usable ic.2) (enumerate cands)) as Hm.
  { apply list_elem_of_In, List.filter_In. by rewrite <-list_elem_of_In, elem_of_enumerate. }
  pose proof (min_by_key_le _ _ pair_ltb_irrefl pair_ltb_trans pair_ltb_total _ _ _ E Hm) as Hl.
  rewrite <-not_true_iff_false, pair_ltb_spec in Hl. cbn in Hl. lia.
Qed.

Lemma best_usable_None cands prefs :
  best_usable cands prefs = None ↔ ∀ c, c ∈ cands → usable c = false.
Proof.
  unfold best_usable. rewrite fmap_None, min_by_key_None. split.
  - intros E c [j Hj]%list_elem_of_lookup. destruct (usable c) eqn:U; [|done].
    assert ((j, c) ∈ List.filter (λ ic : nat * Candidate, usable ic.2) (enumerate cands)) as Hm.
    { apply list_elem_of_In, List.filter_In. by rewrite <-list_elem_of_In, elem_of_enumerate. }
    rewrite E in Hm. by apply not_elem_of_nil in Hm.
  - intros H. destruct (List.filter _ _) as [|[j c] l] eqn:E; [done|].
    assert ((j, c) ∈ (j, c) :: l) as Hm by left. rewrite <-E in Hm.
    apply list_elem_of_In, List.filter_In in Hm as [Hm U].
    apply list_elem_of_In, elem_of_enumerate, list_elem_of_lookup_2 in Hm.
    cbn in U. rewrite (H c) in U; done.
Qed.

Lemma by_ifname_unique cands c :
  NoDup (c_ifname <$> cands) → c ∈ cands → by_ifname cands (c_ifname c) = Some c.
Proof.
  unfold by_ifname. induction cands as [|d l IH]; intros Hn Hc; [by apply not_elem_of_nil in Hc|].
  apply list.NoDup_cons in Hn as [Hd Hn]. apply elem_of_cons in Hc as [->|Hc]; cbn.
  - by rewrite bool_decide_eq_true_2.
  - rewrite bool_decide_eq_false_2; [by apply IH|].
    intros E. apply Hd. rewrite E. by apply list_elem_of_fmap_2.
Qed.

(** The state a sequence of answers leaves, as an operator would say it: the value of the last
    run of three equal consecutive answers, and reachable when there never was one. [hist] is
    newest first. *)
Fixpoint last_triple (hist : list bool) : bool :=
  match hist with
  | [] => true
  | a :: rest =>
      match rest with
      | b :: c :: _ => if Bool.eqb a b && Bool.eqb b c then a else last_triple rest
      | _ => last_triple rest
      end
  end.

(** How many of the newest answers disagree with [r], up to the first that agrees. *)
Fixpoint against (r : bool) (hist : list bool) : nat :=
  match hist with
  | a :: rest => if Bool.eqb a r then 0 else S (against r rest)
  | [] => 0
  end.

Lemma last_triple_3 a b c hist :
  last_triple (a :: b :: c :: hist)
  = if Bool.eqb a b && Bool.eqb b c then a else last_triple (b :: c :: hist).
Proof. done. Qed.

Definition observed (hist : list bool) : Hysteresis := foldr (λ a h, observe h a) hyst_default hist.

Lemma observed_inv hist :
  h_reachable (observed hist) = last_triple hist ∧
  streak (observed hist) = Z.of_nat (against (last_triple hist) hist) ∧
  (against (last_triple hist) hist < 3)%nat.
Proof.
  induction hist as [|a hist (Hr & Hs & Hlt)]; [cbn; lia|].
  cbn [observed foldr]. fold (observed hist). unfold observe. rewrite Hr, Hs.
  destruct hist as [|b [|c hist]].
  - destruct a; cbn; auto with lia.
  - destruct a, b; cbn; auto with lia.
  - rewrite last_triple_3. set (r := last_triple (b :: c :: hist)) in *.
    assert (∀ q, against q (b :: c :: hist) = if Bool.eqb b q then 0%nat else
      S (if Bool.eqb c q then 0 else S (against q hist))) as Hag by done.
    assert (∀ q, against q (a :: b :: c :: hist)
      = if Bool.eqb a q then 0%nat else S (against q (b :: c :: hist))) as -> by done.
    rewrite !Hag in *. destruct a, b, c, r; cbn in *; try lia; auto with lia;
      (destruct (against _ hist); cbn in *; auto with lia).
Qed.

(** ** What the decisions promise *)

(** The hysteresis is the last run of three: whatever the order of answers, a wire reads
    reachable exactly when the last three equal consecutive answers were replies, or when there
    never were three equal ones; and three misses from any point read unreachable. *)
Theorem hysteresis_is_last_triple (hist : list bool) :
  h_reachable (observed hist) = last_triple hist ∧
  h_reachable (observed (false :: false :: false :: hist)) = false ∧
  h_reachable (observed (true :: true :: true :: hist)) = true.
Proof.
  pose proof (observed_inv hist) as (? & _ & _).
  pose proof (observed_inv (false :: false :: false :: hist)) as (-> & _ & _).
  pose proof (observed_inv (true :: true :: true :: hist)) as (-> & _ & _). done.
Qed.

(** An escalation on a reachable wire calls it dead on its first miss, and a heard frame
    undoes any evidence: from it, three more misses are needed again. *)
Theorem escalation_and_hello (h : Hysteresis) :
  (h_reachable h = true → h_reachable (observe (precharge h) false) = false) ∧
  (h_reachable h = false → precharge h = h) ∧
  (h_reachable (observe (observe (heard h) false) false) = true) ∧
  (h_reachable (observe (observe (observe (heard h) false) false) false) = false).
Proof.
  unfold precharge. destruct h as [[] s]; split; try done.
Qed.

(** [decide_port] moves the bond exactly when something usable exists and the active port is not
    a usable port at least as preferred; the port it names is usable, best preferred among the
    usable ones, and the first such in join order. *)
Theorem decide_correct (active : option string) (cands : list Candidate) (prefs : list string) :
  match decide_port active cands prefs with
  | Some n => ∃ i b, cands !! i = Some b ∧ c_ifname b = n ∧ usable b = true ∧
      (∀ j c, cands !! j = Some c → usable c = true →
        rank prefs (c_wire b) < rank prefs (c_wire c)
        ∨ (rank prefs (c_wire b) = rank prefs (c_wire c) ∧ (i ≤ j)%nat)) ∧
      (∀ c, active ≫= by_ifname cands = Some c → usable c = true →
        rank prefs (c_wire b) < rank prefs (c_wire c))
  | None => (∀ c, c ∈ cands → usable c = false) ∨
      ∃ c, active ≫= by_ifname cands = Some c ∧ usable c = true ∧
        ∀ d, d ∈ cands → usable d = true → rank prefs (c_wire c) ≤ rank prefs (c_wire d)
  end.
Proof.
  unfold decide_port. destruct (best_usable cands prefs) as [b|] eqn:B.
  2: { left. by apply (best_usable_None cands prefs). }
  apply best_usable_Some in B as (i & Hi & Hu & Hmin).
  destruct (active ≫= by_ifname cands) as [c|] eqn:A; [|by exists i, b].
  destruct (usable c && _) eqn:U; split_bools.
  - right. exists c. split; [done|]. split; [done|]. intros d [j Hj]%list_elem_of_lookup Hd.
    specialize (Hmin j d Hj Hd). lia.
  - exists i, b. split_and!; try done. intros c' [= <-] Hc. rewrite Hc in U. cbn in U.
    split_bools. lia.
Qed.

(** The decision is stable: once the bond is on the port [decide_port] named, the same facts ask
    for no further move, so two ticks never flap between ports. *)
Theorem decide_does_not_flap active cands prefs n :
  NoDup (c_ifname <$> cands) → decide_port active cands prefs = Some n →
  decide_port (Some n) cands prefs = None.
Proof.
  intros Hn. unfold decide_port. destruct (best_usable cands prefs) as [b|] eqn:B; [|done].
  intros H. assert (n = c_ifname b) as ->.
  { destruct (active ≫= _); [destruct (_ && _)|]; by simplify_eq. }
  apply best_usable_Some in B as (i & Hi & Hu & _). cbn.
  rewrite by_ifname_unique by (done || by eapply list_elem_of_lookup_2).
  by rewrite Hu, Z.leb_refl.
Qed.

(** The port named for its missing carrier is one: no carrier, strictly preferred over the
    port the bond is on, and the best preferred of those. *)
Theorem skipped_for_carrier_correct on cands prefs s :
  skipped_for_carrier on cands prefs = Some s →
  ∃ h, on ≫= by_ifname cands = Some h ∧ s ∈ cands ∧ c_carrier s = false ∧
    rank prefs (c_wire s) < rank prefs (c_wire h) ∧
    ∀ c, c ∈ cands → c_carrier c = false → rank prefs (c_wire c) < rank prefs (c_wire h) →
      rank prefs (c_wire s) ≤ rank prefs (c_wire c).
Proof.
  unfold skipped_for_carrier. destruct (on ≫= by_ifname cands) as [h|]; [|done].
  intros E. exists h. pose proof (min_by_key_elem _ _ _ _ E) as Hin.
  apply list_elem_of_In, List.filter_In in Hin as [Hin Hp].
  apply list_elem_of_In in Hin. split_bools. split_and!; try done.
  intros c Hc Hcar Hr.
  assert (c ∈ List.filter (λ c, negb (c_carrier c) &&
    (rank prefs (c_wire c) <? rank prefs (c_wire h))) cands) as Hm.
  { apply list_elem_of_In, List.filter_In. rewrite <-list_elem_of_In, Hcar. cbn.
    by rewrite Z.ltb_lt. }
  eapply min_by_key_le in E; [..|exact Hm].
  - cbn in E. split_bools. lia.
  - apply Z.ltb_irrefl.
  - intros a b d ?%Z.ltb_lt ?%Z.ltb_lt. apply Z.ltb_lt. lia.
  - intros a b ?%Z.ltb_ge ?%Z.ltb_ge. lia.
Qed.

(** ** Concrete runs *)

Definition port (n w : string) (r c l : bool) : Candidate := mk_cand n w r c l.
Definition two_ports : list Candidate :=
  [port "gw-a" "w1" false true true; port "gw-b" "w2" true true true].

Lemma decide_no_flap_witness :
  decide_port (Some "gw-a") two_ports ["w1"; "w2"] = Some "gw-b" ∧
  decide_port (Some "gw-b") two_ports ["w1"; "w2"] = None.
Proof.
  assert (decide_port (Some "gw-a") two_ports ["w1"; "w2"] = Some "gw-b") as H by reflexivity.
  split; [exact H|]. refine (decide_does_not_flap (Some "gw-a") two_ports _ _ _ H).
  apply (bool_decide_eq_true_1 (NoDup (c_ifname <$> two_ports))). vm_compute. reflexivity.
Defined.

Lemma skipped_witness :
  ∃ s, skipped_for_carrier (Some "gw-b")
         [port "gw-a" "w1" true false true; port "gw-b" "w2" true true true] ["w1"; "w2"] = Some s
       ∧ c_carrier s = false.
Proof.
  exists (port "gw-a" "w1" true false true). split; [reflexivity|].
  destruct (skipped_for_carrier_correct (Some "gw-b")
    [port "gw-a" "w1" true false true; port "gw-b" "w2" true true true] ["w1"; "w2"]
    (port "gw-a" "w1" true false true) eq_refl) as (h & _ & _ & H & _). exact H.
Defined.
