(* ===== verification/Passive.v ===== *)
(** The prober's passive channel (src/src/prober/passive.rs): how long silence on one port may
    last, and what it means when the port next to it hears the same peers. *)
From S2P Require Import Prelude.

Record Windows := mk_windows {
  w_active : Duration;
  w_backup : Duration;
  w_grace : Duration;
  w_dead : Duration;
  w_hello : Duration
}.

Definition from_ospf (hello_s dead_s : Z) : Windows :=
  let hello := from_secs hello_s in
  let dead := from_secs dead_s in
  mk_windows (hello + hello / 2) dead dead dead hello.

Definition move_fits_inside_dead (self : Windows) (tick : Duration) (dead_s : Z) : bool :=
  w_active self + tick <=? from_secs dead_s.

Record Evidence := mk_evidence {
  e_active : bool;
  e_peer : option Instant;
  e_reflected : option Instant;
  e_grace_until : option Instant
}.

Definition evidence_default : Evidence := mk_evidence false None None None.

(** [options.into_iter().flatten().filter(t <= now).max()] of two candidates. *)
Definition at_most (now : Instant) (t : option Instant) : option Instant :=
  match t with
  | Some t' => if t' <=? now then Some t' else None
  | None => None
  end.
Definition opt_max (a b : option Instant) : option Instant :=
  match a, b with
  | Some x, Some y => Some (Z.max x y)
  | Some x, None => Some x
  | None, _ => b
  end.

Definition last_life (self : Evidence) (now : Instant) : option Instant :=
  opt_max (at_most now (e_peer self))
          (at_most now (if negb (e_active self) then e_reflected self else None)).

Inductive Verdict := Good | Watch | Suspect | Quiet.

#[export] Instance Verdict_eq_dec : EqDecision Verdict.
Proof. solve_decision. Defined.

Definition window (e : Evidence) (w : Windows) : Duration :=
  if e_active e then w_active w else w_backup w.

Definition is_good (now : Instant) (w : Windows) (e : Evidence) : bool :=
  is_some_and (last_life e now) (λ t, saturating_since now t <=? window e w).

(** The judgement of one port, [g] its own goodness and [any_good] that of the leg. *)
Definition judge (now : Instant) (w : Windows) (expect_peers any_good : bool)
    (e : Evidence) (g : bool) : Verdict :=
  if g then Good
  else if is_some_and (e_grace_until e) (λ t, now <? t) then Watch
  else if negb expect_peers then Watch
  else if negb (is_none_or (last_life e now)
                  (λ t, window e w <? saturating_since now t)) then Watch
  else if any_good then Suspect
  else Quiet.

Definition verdicts (now : Instant) (ports : list Evidence) (w : Windows) (expect_peers : bool)
    : list Verdict :=
  let good := is_good now w <$> ports in
  let any_good := any (λ g, g) good in
  zip_with (judge now w expect_peers any_good) ports good.

(** ** Helper lemmas *)

Lemma verdicts_length now ports w x : length (verdicts now ports w x) = length ports.
Proof. unfold verdicts. rewrite length_zip_with, length_fmap. lia. Qed.

Lemma verdicts_lookup now ports w x i v :
  verdicts now ports w x !! i = Some v ↔
  ∃ e, ports !! i = Some e ∧
    v = judge now w x (any (λ g, g) (is_good now w <$> ports)) e (is_good now w e).
Proof.
  unfold verdicts. rewrite lookup_zip_with_Some. split.
  - intros (e & g & -> & He & Hg). rewrite list_lookup_fmap, He in Hg. cbn in Hg.
    injection Hg as <-. eauto.
  - intros (e & He & ->). exists e, (is_good now w e). by rewrite list_lookup_fmap, He.
Qed.

Lemma any_good_iff now w ports :
  any (λ g, g) (is_good now w <$> ports) = true ↔
  ∃ j e, ports !! j = Some e ∧ is_good now w e = true.
Proof.
  rewrite any_true. split.
  - intros (g & Hg & ->). apply list_elem_of_fmap in Hg as (e & Hg & [j He]%list_elem_of_lookup).
    eauto.
  - intros (j & e & He & Hg). exists true. split; [|done]. rewrite <-Hg.
    by eapply list_elem_of_fmap_2, list_elem_of_lookup_2.
Qed.

(** The silence test of the source cannot fail where it stands: a port that is not good either
    showed no life at all, or showed it longer ago than its window. *)
Lemma silent_test_redundant now w e :
  is_good now w e = false →
  is_none_or (last_life e now) (λ t, window e w <? saturating_since now t) = true.
Proof.
  unfold is_good, is_some_and, is_none_or. destruct (last_life e now); [|done].
  intros ?. split_bools. by apply Z.ltb_lt.
Qed.

(** ** What the verdicts promise *)

(** One verdict per port, and every verdict exactly when its reason holds: good when life was
    seen within the port's window, suspect only out of grace, with peers expected and another
    port of the leg good, quiet in the same case with no port good, watch otherwise. *)
Theorem verdicts_correct now ports w expect_peers :
  length (verdicts now ports w expect_peers) = length ports ∧
  ∀ i e, ports !! i = Some e →
    let others_good := ∃ j e', j ≠ i ∧ ports !! j = Some e' ∧ is_good now w e' = true in
    let judged := is_good now w e = false ∧
      is_some_and (e_grace_until e) (λ t, now <? t) = false ∧ expect_peers = true in
    ∃ v, verdicts now ports w expect_peers !! i = Some v ∧
      (v = Good ↔ is_good now w e = true) ∧
      (v = Suspect ↔ judged ∧ others_good) ∧
      (v = Quiet ↔ judged ∧ ¬ others_good) ∧
      (v = Watch ↔ is_good now w e = false ∧ ¬ judged).
Proof.
  split; [apply verdicts_length|]. intros i e He. cbn zeta.
  eexists. split; [by apply verdicts_lookup; eauto|].
  set (ag := any _ _).
  assert (is_good now w e = false →
    ag = true ↔ ∃ j e', j ≠ i ∧ ports !! j = Some e' ∧ is_good now w e' = true) as Hag.
  { intros Hg. unfold ag. rewrite any_good_iff. split; [|naive_solver].
    intros (j & e' & Hj & Hg'). exists j, e'. split_and!; [|done..]. intros ->. congruence. }
  unfold judge. destruct (is_good now w e) eqn:G; [split_and!; naive_solver|].
  rewrite silent_test_redundant by done. cbn [negb].
  specialize (Hag eq_refl). rewrite <-Hag.
  destruct (is_some_and _ _), expect_peers, ag; cbn; split_and!; naive_solver.
Qed.

(** A port is only ever suspected beside a port of the same leg that is good, a leg never
    holds a suspect and a quiet port at once, and a member with no peers suspects nothing. *)
Theorem suspicion_needs_company now ports w expect_peers i :
  verdicts now ports w expect_peers !! i = Some Suspect →
  expect_peers = true ∧
  (∃ j, j ≠ i ∧ verdicts now ports w expect_peers !! j = Some Good) ∧
  (∀ j, verdicts now ports w expect_peers !! j ≠ Some Quiet).
Proof.
  intros (e & He & Hv)%verdicts_lookup. unfold judge in Hv.
  destruct (is_good now w e) eqn:G; [done|].
  destruct (is_some_and _ _); [done|]. destruct expect_peers; [|done].
  rewrite silent_test_redundant in Hv by done. cbn [negb] in Hv.
  destruct (any (λ g, g) (is_good now w <$> ports)) eqn:A; [|done]. split; [done|]. split.
  - apply any_good_iff in A as (j & e' & Hj & Hg). exists j. split; [intros ->; congruence|].
    apply verdicts_lookup. exists e'. unfold judge. by rewrite Hg.
  - intros j (e' & _ & Hq)%verdicts_lookup. rewrite A in Hq. unfold judge in Hq.
    by repeat case_match.
Qed.

(** The declared hello and dead intervals leave room for a move exactly when one and a half
    hello periods and a tick fit inside the dead interval, and then a port silent since [t] is
    not good on the first tick past its window, still inside the dead interval. *)
Theorem suspicion_inside_dead hello_s dead_s tick (e : Evidence) (now t : Instant) :
  let w := from_ospf hello_s dead_s in
  move_fits_inside_dead w tick dead_s = true →
  e_active e = true → last_life e now = Some t →
  w_active w < saturating_since now t ≤ w_active w + tick →
  is_good now w e = false ∧ saturating_since now t ≤ w_dead w.
Proof.
  intros w Hf Ha Hl Ht. unfold move_fits_inside_dead in Hf. split_bools.
  unfold is_good, window. rewrite Hl, Ha. cbn [is_some_and]. split; [apply Z.leb_gt; lia|].
  assert (w_dead w = from_secs dead_s) by done. lia.
Qed.

(** ** Concrete runs *)

Definition w12 : Windows := from_ospf 1 4.
Definition leg_ports : list Evidence :=
  [mk_evidence true (Some 0) None None;
   mk_evidence false None (Some (from_secs 3)) None].

Lemma suspicion_witness :
  verdicts (from_secs 4) leg_ports w12 true = [Suspect; Good] ∧
  ∃ j, j ≠ 0%nat ∧ verdicts (from_secs 4) leg_ports w12 true !! j = Some Good.
Proof.
  split; [vm_compute; reflexivity|].
  apply (suspicion_needs_company (from_secs 4) leg_ports w12 true 0). vm_compute. reflexivity.
Defined.

Lemma suspicion_inside_dead_witness :
  is_good (from_secs 2) w12 (mk_evidence true (Some 0) None None) = false.
Proof.
  refine (proj1 (suspicion_inside_dead 1 4 (from_millis 500)
    (mk_evidence true (Some 0) None None) (from_secs 2) 0 eq_refl eq_refl eq_refl _)).
  split; vm_compute; congruence.
Defined.
