(* ===== verification/ProbeFrame.v ===== *)
(** The frames the prober speaks and the filter its taps wear
    (src/src/prober/frame.rs, src/src/prober/bpf.rs).

    A frame is a list of bytes; [frame.get(a..b)?] is [slice] in the option monad. The classic
    BPF program is data, and [run] is the interpreter the source proves it with: [None] is the
    interpreter's panic, an unknown opcode or a spent budget. *)
From S2P Require Import Prelude Net.

(** ** The codec *)

Definition PROBE_LEN : nat := 42.
Definition ETHERTYPE_ARP : Z := 2054.
Definition ETHERTYPE_VLAN : Z := 33024.
Definition ETHERTYPE_QINQ : Z := 34984.
Definition HTYPE_ETHERNET : Z := 1.
Definition PTYPE_IPV4 : Z := 2048.
Definition OP_REQUEST : Z := 1.
Definition OP_REPLY : Z := 2.

Definition synthetic_mac (node zone_id port_index : Z) : Mac :=
  [2; 207; 171; node; zone_id; port_index].

Definition probe (src : Mac) (router : Ipv4Addr) : list Z :=
  let f := zeros PROBE_LEN in
  let f := splice f 0 (replicate 6 255) in
  let f := splice f 6 src in
  let f := splice f 12 (be_bytes16 ETHERTYPE_ARP) in
  let f := splice f 14 (be_bytes16 HTYPE_ETHERNET) in
  let f := splice f 16 (be_bytes16 PTYPE_IPV4) in
  let f := splice f 18 [6] in
  let f := splice f 19 [4] in
  let f := splice f 20 (be_bytes16 OP_REQUEST) in
  let f := splice f 22 src in
  splice f 38 (octets router).

(** The payload's offset and ethertype, at most one VLAN tag skipped. *)
Definition payload_at (frame : list Z) : option (nat * Z) :=
  w ← slice frame 12 14;
  if (be16 w =? ETHERTYPE_VLAN) || (be16 w =? ETHERTYPE_QINQ)
  then w' ← slice frame 16 18; Some (18%nat, be16 w')
  else Some (14%nat, be16 w).

Definition reply_from (frame : list Z) (src : Mac) (targets : list Ipv4Addr) : option Mac :=
  '(arp, ethertype) ← payload_at frame;
  if negb (ethertype =? ETHERTYPE_ARP) then None else
  a ← slice frame arp (arp + 28);
  if negb (be16 a =? HTYPE_ETHERNET) || negb (be16 (drop 2 a) =? PTYPE_IPV4)
     || negb (at_ a 4 =? 6) || negb (at_ a 5 =? 4) then None else
  if negb (be16 (drop 6 a) =? OP_REPLY) then None else
  sender_mac ← slice a 8 14;
  let sender_ip := addr_new (at_ a 14) (at_ a 15) (at_ a 16) (at_ a 17) in
  target_mac ← slice a 18 24;
  if negb (bool_decide (sender_ip ∈ targets)) || negb (bool_decide (target_mac = src))
  then None
  else Some sender_mac.

Definition ALL_SPF_ROUTERS : list Z := [224; 0; 0; 5].
Definition ETHERTYPE_IPV4 : Z := 2048.
Definition IPPROTO_OSPF : Z := 89.

Definition hello_router_id (frame : list Z) : option Z :=
  '(ip, ethertype) ← payload_at frame;
  if negb (ethertype =? ETHERTYPE_IPV4) then None else
  b ← frame !! ip;
  let ihl := Z.to_nat (Z.land b 15 * 4) in
  if (ihl <? 20)%nat then None else
  hdr ← slice frame ip (ip + ihl);
  if negb (at_ hdr 9 =? IPPROTO_OSPF)
     || negb (bool_decide (slice hdr 16 20 = Some ALL_SPF_ROUTERS)) then None else
  rid ← slice frame (ip + ihl + 4) (ip + ihl + 8);
  Some (be32 rid).

(** ** The filter *)

Record Insn := mk_insn { code : Z; jt : nat; jf : nat; k_ : Z }.

Definition LD_H_ABS : Z := 40.
Definition LD_B_ABS : Z := 48.
Definition LD_W_ABS : Z := 32.
Definition JEQ_K : Z := 21.
Definition RET_K : Z := 6.
Definition SPF_WORD : Z := 3758096389.
Definition ACCEPT : Z := 262144.

Definition FILTER : list Insn := [
  mk_insn LD_H_ABS 0 0 12;
  mk_insn JEQ_K 5 0 ETHERTYPE_ARP;
  mk_insn JEQ_K 0 5 ETHERTYPE_IPV4;
  mk_insn LD_B_ABS 0 0 23;
  mk_insn JEQ_K 0 3 IPPROTO_OSPF;
  mk_insn LD_W_ABS 0 0 30;
  mk_insn JEQ_K 0 1 SPF_WORD;
  mk_insn RET_K 0 0 ACCEPT;
  mk_insn RET_K 0 0 0].

Definition BUDGET : nat := 4096.

(** An absolute load: [None] is a load past the end of the frame, which returns 0. *)
Definition load (width : nat) (frame : list Z) (k : Z) : option Z :=
  match width with
  | 1%nat => frame !! Z.to_nat k
  | 2%nat => be16 <$> slice frame (Z.to_nat k) (Z.to_nat k + 2)
  | _ => be32 <$> slice frame (Z.to_nat k) (Z.to_nat k + 4)
  end.

Fixpoint run_from (budget : nat) (prog : list Insn) (frame : list Z) (pc : nat) (a : Z)
    : option Z :=
  match budget with
  | O => None
  | S b =>
      match prog !! pc with
      | None => Some 0
      | Some i =>
          let ld w := match load w frame (k_ i) with
                      | Some v => run_from b prog frame (S pc) v
                      | None => Some 0
                      end in
          if code i =? LD_B_ABS then ld 1%nat
          else if code i =? LD_H_ABS then ld 2%nat
          else if code i =? LD_W_ABS then ld 4%nat
          else if code i =? JEQ_K then
            run_from b prog frame (S pc + (if (a =? k_ i)%Z then jt i else jf i))%nat a
          else if code i =? RET_K then Some (k_ i)
          else None
      end
  end.

Definition run (prog : list Insn) (frame : list Z) : option Z := run_from BUDGET prog frame 0 0.

(** ** Helper lemmas *)

(** What the filter decides, in words over the frame: its reference definition. *)
Definition wanted (frame : list Z) : bool :=
  match load 2 frame 12 with
  | None => false
  | Some et =>
      if et =? ETHERTYPE_ARP then true
      else if negb (et =? ETHERTYPE_IPV4) then false
      else match load 1 frame 23 with
           | None => false
           | Some proto =>
               if negb (proto =? IPPROTO_OSPF) then false
               else match load 4 frame 30 with
                    | None => false
                    | Some dst => dst =? SPF_WORD
                    end
           end
  end.

(** One instruction of each kind. *)
Lemma step_load b prog frame pc a c w k :
  prog !! pc = Some (mk_insn c 0 0 k) →
  (c = LD_B_ABS ∧ w = 1%nat) ∨ (c = LD_H_ABS ∧ w = 2%nat) ∨ (c = LD_W_ABS ∧ w = 4%nat) →
  run_from (S b) prog frame pc a
  = match load w frame k with Some v => run_from b prog frame (S pc) v | None => Some 0 end.
Proof. intros Hi Hc. cbn [run_from]. rewrite Hi. by destruct Hc as [[-> ->]|[[-> ->]|[-> ->]]]. Qed.

Lemma step_jeq b prog frame pc a t f k :
  prog !! pc = Some (mk_insn JEQ_K t f k) →
  run_from (S b) prog frame pc a
  = run_from b prog frame (S pc + (if (a =? k)%Z then t else f))%nat a.
Proof. intros Hi. cbn [run_from]. by rewrite Hi. Qed.

Lemma step_ret b prog frame pc a k :
  prog !! pc = Some (mk_insn RET_K 0 0 k) → run_from (S b) prog frame pc a = Some k.
Proof. intros Hi. cbn [run_from]. by rewrite Hi. Qed.

Lemma run_filter_from b frame :
  run_from (9 + b) FILTER frame 0 0 = Some (if wanted frame then ACCEPT else 0).
Proof.
  unfold wanted. cbn [Nat.add].
  rewrite (step_load _ _ _ _ _ LD_H_ABS 2 12) by (done || auto).
  destruct (load 2 frame 12) as [et|]; [|done]. rewrite (step_jeq _ _ _ _ _ 5 0 ETHERTYPE_ARP) by done.
  destruct (et =? ETHERTYPE_ARP); cbn [Nat.add]; [by apply step_ret|].
  rewrite (step_jeq _ _ _ _ _ 0 5 ETHERTYPE_IPV4) by done.
  destruct (et =? ETHERTYPE_IPV4); cbn [Nat.add negb]; [|by apply step_ret].
  rewrite (step_load _ _ _ _ _ LD_B_ABS 1 23) by (done || auto).
  destruct (load 1 frame 23) as [p|]; [|done]. rewrite (step_jeq _ _ _ _ _ 0 3 IPPROTO_OSPF) by done.
  destruct (p =? IPPROTO_OSPF); cbn [Nat.add negb]; [|by apply step_ret].
  rewrite (step_load _ _ _ _ _ LD_W_ABS 4 30) by (done || auto).
  destruct (load 4 frame 30) as [d|]; [|done]. rewrite (step_jeq _ _ _ _ _ 0 1 SPF_WORD) by done.
  destruct (d =? SPF_WORD); cbn [Nat.add]; by apply step_ret.
Qed.

Lemma run_filter frame : run FILTER frame = Some (if wanted frame then ACCEPT else 0).
Proof.
  unfold run. assert (BUDGET = 9 + 4087)%nat as -> by (vm_compute; reflexivity).
  apply run_filter_from.
Qed.

Lemma lookup_at l i : (i < length l)%nat → l !! i = Some (at_ l i).
Proof.
  intros [x Hx]%lookup_lt_is_Some. unfold at_. by rewrite Hx.
Qed.

Lemma untagged_at frame arp et :
  payload_at frame = Some (arp, et) → arp = 14%nat → load 2 frame 12 = Some et.
Proof.
  unfold payload_at, load. cbn [Z.to_nat Nat.add]. intros H ->.
  change (Z.to_nat 12) with 12%nat. cbn [Nat.add].
  destruct (slice frame 12 14) as [w|]; [|done]. cbn in *.
  destruct (_ || _); [|naive_solver].
  destruct (slice frame 16 18); naive_solver.
Qed.

Lemma reply_from_Some frame src targets m :
  reply_from frame src targets = Some m →
  ∃ arp a, payload_at frame = Some (arp, ETHERTYPE_ARP) ∧ slice frame arp (arp + 28) = Some a ∧
    be16 (drop 6 a) = OP_REPLY ∧ slice a 8 14 = Some m ∧ slice a 18 24 = Some src ∧
    addr_new (at_ a 14) (at_ a 15) (at_ a 16) (at_ a 17) ∈ targets.
Proof.
  unfold reply_from. destruct (payload_at frame) as [[arp et]|]; [|done]. cbn.
  destruct (et =? ETHERTYPE_ARP) eqn:E; [|done]. cbn. split_bools. subst et.
  destruct (slice frame arp _) as [a|] eqn:A; [|done]. cbn.
  destruct (_ || _); [done|]. destruct (be16 (drop 6 a) =? OP_REPLY) eqn:O; [|done]. cbn.
  split_bools.
  destruct (slice a 8 14) as [sm|] eqn:S1; [|done]. cbn.
  destruct (slice a 18 24) as [tm|] eqn:S2; [|done]. cbn.
  destruct (_ || _) eqn:T; [done|]. intros [= <-]. split_bools. subst. eauto 10.
Qed.

Lemma hello_Some frame r :
  hello_router_id frame = Some r →
  ∃ ip hdr ihl, payload_at frame = Some (ip, ETHERTYPE_IPV4) ∧ (20 ≤ ihl)%nat ∧
    slice frame ip (ip + ihl) = Some hdr ∧ at_ hdr 9 = IPPROTO_OSPF ∧
    slice hdr 16 20 = Some ALL_SPF_ROUTERS.
Proof.
  unfold hello_router_id. destruct (payload_at frame) as [[ip et]|]; [|done]. cbn.
  destruct (et =? ETHERTYPE_IPV4) eqn:E; [|done]. cbn. split_bools. subst et.
  destruct (frame !! ip) as [b|]; [|done]. cbn [mbind option_bind].
  set (ihl := Z.to_nat _). destruct (ihl <=? 19)%nat eqn:L; [done|].
  destruct (slice frame ip _) as [hdr|] eqn:H; [|done]. cbn [mbind option_bind].
  destruct (_ || _) eqn:T; [done|]. split_bools. intros _.
  apply Nat.leb_gt in L. exists ip, hdr, ihl. by split_and!; [..|lia|].
Qed.

(** A reply as a host answering the probe builds it, with [tag] in front of its ethertype. *)
Definition reply_frame (tag : list Z) (dst m : Mac) (ip : Ipv4Addr) (tha : Mac)
    (tpa pad : list Z) : list Z :=
  dst ++ m ++ tag ++ be_bytes16 ETHERTYPE_ARP ++ be_bytes16 HTYPE_ETHERNET
    ++ be_bytes16 PTYPE_IPV4 ++ [6; 4] ++ be_bytes16 OP_REPLY ++ m ++ octets ip ++ tha ++ tpa
    ++ pad.

(** The 28 bytes of such a reply's ARP body. *)
Definition reply_body (m : Mac) (ip : Ipv4Addr) (tha : Mac) (tpa : list Z) : list Z :=
  [0; 1; 8; 0; 6; 4; 0; 2] ++ m ++ octets ip ++ tha ++ tpa.

Lemma reply_from_body frame arp src targets m ip tha tpa :
  payload_at frame = Some (arp, ETHERTYPE_ARP) →
  slice frame arp (arp + 28) = Some (reply_body m ip tha tpa) →
  length m = 6%nat → length tha = 6%nat → length tpa = 4%nat → addr_ok ip →
  reply_from frame src targets = if bool_decide (ip ∈ targets ∧ tha = src) then Some m else None.
Proof.
  intros Hp Hb Hm Ht Hq Hip. unfold reply_from. rewrite Hp. cbn [mbind option_bind].
  rewrite Hb. cbn [mbind option_bind].
  destruct m as [|m0 [|m1 [|m2 [|m3 [|m4 [|m5 [|]]]]]]]; try done.
  destruct tha as [|t0 [|t1 [|t2 [|t3 [|t4 [|t5 [|]]]]]]]; try done.
  destruct tpa as [|p0 [|p1 [|p2 [|p3 [|]]]]]; try done.
  do 3 (match goal with |- context [if ?c then _ else _] =>
          replace c with false by reflexivity end; cbv iota).
  rewrite (slice_ok _ 8 14), (slice_ok _ 18 24) by (cbn; lia). cbn [mbind option_bind].
  match goal with |- context [addr_new ?a ?b ?c ?d] =>
    replace (addr_new a b c d) with ip by exact (eq_sym (addr_new_octets ip Hip)) end.
  change (take (14 - 8) _) with [m0; m1; m2; m3; m4; m5].
  change (take (24 - 18) _) with [t0; t1; t2; t3; t4; t5].
  repeat case_bool_decide; naive_solver.
Qed.

(** ** What the codec and the filter promise *)

(** The filter always returns within the interpreter's budget, and accepts exactly ARP and
    IPv4 carrying OSPF to 224.0.0.5 at the untagged offsets; everything else, short frames
    included, is dropped. *)
Theorem filter_is_wanted (frame : list Z) :
  run FILTER frame = Some (if wanted frame then ACCEPT else 0) ∧
  (wanted frame = true ↔
    load 2 frame 12 = Some ETHERTYPE_ARP ∨
    load 2 frame 12 = Some ETHERTYPE_IPV4 ∧ load 1 frame 23 = Some IPPROTO_OSPF ∧
      load 4 frame 30 = Some SPF_WORD).
Proof.
  split; [apply run_filter|]. unfold wanted.
  destruct (load 2 frame 12) as [et|]; [|naive_solver].
  destruct (et =? ETHERTYPE_ARP) eqn:E; split_bools; [naive_solver|].
  destruct (et =? ETHERTYPE_IPV4) eqn:E4; cbn [negb]; split_bools; [|naive_solver].
  destruct (load 1 frame 23) as [p|]; [|naive_solver].
  destruct (p =? IPPROTO_OSPF) eqn:P; cbn [negb]; split_bools; [|naive_solver].
  destruct (load 4 frame 30) as [d|]; [|naive_solver].
  rewrite Z.eqb_eq. subst. naive_solver.
Qed.

(** The filter hides no evidence: every untagged frame one of the two parsers accepts passes
    it. *)
Theorem filter_passes_evidence (frame : list Z) src targets et :
  payload_at frame = Some (14%nat, et) →
  is_Some (reply_from frame src targets) ∨ is_Some (hello_router_id frame) →
  run FILTER frame = Some ACCEPT.
Proof.
  intros Hp Hev. rewrite run_filter. assert (wanted frame = true) as ->; [|done].
  pose proof (untagged_at _ _ _ Hp eq_refl) as Het. unfold wanted. rewrite Het.
  destruct Hev as [[m Hm]|[r Hr]].
  - apply reply_from_Some in Hm as (arp & a & Ha & _). rewrite Hp in Ha. by simplify_eq.
  - apply hello_Some in Hr as (ip & hdr & ihl & Ha & Hihl & Hhdr & Hproto & Hdst).
    rewrite Hp in Ha. simplify_eq. cbn [Z.eqb ETHERTYPE_IPV4 ETHERTYPE_ARP Pos.eqb negb].
    pose proof (slice_length _ _ _ _ Hhdr) as Hlen.
    pose proof (proj1 (slice_Some _ _ _ _) Hhdr) as [Hfl _].
    unfold load. change (Z.to_nat 23) with 23%nat. change (Z.to_nat 30) with 30%nat.
    rewrite lookup_at by lia.
    rewrite (at_slice _ _ _ _ 9 Hhdr) in Hproto by lia. cbn [Nat.add] in Hproto.
    rewrite Hproto. cbn [Z.eqb IPPROTO_OSPF Pos.eqb negb Nat.add].
    destruct (slice frame 30 34) as [d|] eqn:D.
    2: { unfold slice in D. case_decide; [done|]. lia. }
    cbn [fmap option_fmap option_map]. apply Z.eqb_eq.
    assert (∀ i, (i < 4)%nat → at_ d i = at_ ALL_SPF_ROUTERS i) as Hd.
    { intros i Hi. rewrite (at_slice _ _ _ _ i D), (at_slice _ _ _ _ i Hdst),
        (at_slice _ _ _ _ _ Hhdr) by lia. f_equal; lia. }
    unfold be32. rewrite !Hd by lia. reflexivity.
Qed.

(** A well-formed ARP reply, bare or behind one VLAN tag and with any padding, is read
    exactly: it yields the answering MAC when the sender is one of the targets and the reply is
    addressed to this port, and nothing otherwise. *)
Theorem reply_roundtrip (tag dst m tha tpa pad : list Z) (ip : Ipv4Addr) (src : Mac)
    (targets : list Ipv4Addr) (tci : list Z) :
  length dst = 6%nat → length m = 6%nat → length tha = 6%nat → length tpa = 4%nat →
  length tci = 2%nat → addr_ok ip →
  tag = [] ∨ tag = be_bytes16 ETHERTYPE_VLAN ++ tci ∨ tag = be_bytes16 ETHERTYPE_QINQ ++ tci →
  reply_from (reply_frame tag dst m ip tha tpa pad) src targets
  = if bool_decide (ip ∈ targets ∧ tha = src) then Some m else None.
Proof.
  intros Hd Hm Ht Hp Hc Hip Htag.
  destruct dst as [|d0 [|d1 [|d2 [|d3 [|d4 [|d5 [|]]]]]]]; try done.
  destruct m as [|m0 [|m1 [|m2 [|m3 [|m4 [|m5 [|]]]]]]]; try done.
  destruct tha as [|t0 [|t1 [|t2 [|t3 [|t4 [|t5 [|]]]]]]]; try done.
  destruct tpa as [|p0 [|p1 [|p2 [|p3 [|]]]]]; try done.
  destruct tci as [|c0 [|c1 [|]]]; try done.
  assert (∀ arp frame, payload_at frame = Some (arp, ETHERTYPE_ARP) →
    slice frame arp (arp + 28) = Some (reply_body [m0; m1; m2; m3; m4; m5] ip
      [t0; t1; t2; t3; t4; t5] [p0; p1; p2; p3]) →
    reply_from frame src targets = if bool_decide (ip ∈ targets ∧ [t0; t1; t2; t3; t4; t5] = src)
      then Some [m0; m1; m2; m3; m4; m5] else None) as Hbody.
  { intros. by eapply reply_from_body. }
  destruct Htag as [->|[->| ->]]; [apply (Hbody 14%nat)|apply (Hbody 18%nat)..];
    unfold payload_at; repeat (rewrite slice_ok by (cbn; lia)); reflexivity.
Qed.

(** The prober never answers itself: a probe that floods back in is neither a reply nor a
    hello, on any port and for any targets. *)
Theorem probe_is_not_evidence (src src' : Mac) (router : Ipv4Addr) (targets : list Ipv4Addr) :
  length src = 6%nat →
  length (probe src router) = PROBE_LEN ∧
  reply_from (probe src router) src' targets = None ∧
  hello_router_id (probe src router) = None.
Proof.
  intros Hs. destruct src as [|s0 [|s1 [|s2 [|s3 [|s4 [|s5 [|]]]]]]]; done.
Qed.

(** A reply counts on one port only: the synthetic addresses of two ports differ, and a frame
    accepted on one is refused on every other. *)
Theorem reply_lands_on_one_port frame targets targets' m m' n z p n' z' p' :
  reply_from frame (synthetic_mac n z p) targets = Some m →
  reply_from frame (synthetic_mac n' z' p') targets' = Some m' →
  n = n' ∧ z = z' ∧ p = p' ∧ m = m'.
Proof.
  intros (a & x & Ha & Hx & _ & Hm & Hs & _)%reply_from_Some
         (b & y & Hb & Hy & _ & Hm' & Hs' & _)%reply_from_Some.
  rewrite Ha in Hb. simplify_eq. unfold synthetic_mac in *. naive_solver.
Qed.

(** ** Concrete frames *)

Definition my_mac : Mac := synthetic_mac 3 9 1.
Definition peer_mac : Mac := [0; 1; 2; 3; 4; 5].
Definition reply1 : list Z :=
  reply_frame [] my_mac peer_mac (addr_new 10 0 0 1) my_mac [0; 0; 0; 0] [0; 0].

Lemma filter_passes_witness : run FILTER reply1 = Some ACCEPT.
Proof.
  apply (filter_passes_evidence reply1 my_mac [addr_new 10 0 0 1] ETHERTYPE_ARP);
    [reflexivity|left; vm_compute; eauto].
Defined.

Lemma reply_roundtrip_witness :
  reply_from reply1 my_mac [addr_new 10 0 0 1] = Some peer_mac.
Proof.
  refine (reply_roundtrip [] my_mac peer_mac my_mac [0; 0; 0; 0] [0; 0] (addr_new 10 0 0 1)
    my_mac [addr_new 10 0 0 1] [0; 0] eq_refl eq_refl eq_refl eq_refl eq_refl _ _).
  - vm_compute. split; congruence.
  - left. reflexivity.
Defined.

Lemma probe_not_evidence_witness : hello_router_id (probe my_mac 7) = None.
Proof. apply (probe_is_not_evidence my_mac my_mac 7 []). reflexivity. Defined.

Lemma one_port_witness : 3 = 3 ∧ 9 = 9 ∧ 1 = 1 ∧ peer_mac = peer_mac.
Proof.
  apply (reply_lands_on_one_port reply1 [addr_new 10 0 0 1] [addr_new 10 0 0 1]);
    vm_compute; reflexivity.
Defined.
