(* ===== verification/EngineState.v ===== *)
(** The engine's state document (src/src/engine/state.rs).

    A [serde_json::Value] is an inductive type; an object is its list of members, a later
    member of a name replacing an earlier one, and [v["k"]] is [Null] where there is nothing to
    index. Parsing a reply into a value is the caller's parameter. *)
From Stdlib Require Import Ascii String.
From S2P Require Import Prelude Text.
Local Open Scope Z_scope.

(** ** JSON values *)

#[warnings="-register-all"]
Inductive Value :=
| Null
| Bool (b : bool)
| Num (n : Z)
| Str (s : string)
| Arr (l : list Value)
| Obj (m : list (string * Value)).

Fixpoint assoc_get {A} (m : list (string * A)) (k : string) : option A :=
  match m with
  | [] => None
  | (k', v) :: m' => if String.eqb k' k then Some v else assoc_get m' k
  end.

(** [map.insert(k, v)]. *)
Fixpoint assoc_insert {A} (m : list (string * A)) (k : string) (v : A) : list (string * A) :=
  match m with
  | [] => [(k, v)]
  | (k', v') :: m' => if String.eqb k' k then (k, v) :: m' else (k', v') :: assoc_insert m' k v
  end.

Definition get (v : Value) (k : string) : option Value :=
  match v with Obj m => assoc_get m k | _ => None end.
Definition index (v : Value) (k : string) : Value := unwrap_or (get v k) Null.
Definition as_str (v : Value) : option string := match v with Str s => Some s | _ => None end.
Definition as_array (v : Value) : list Value := match v with Arr l => l | _ => [] end.
Definition as_u64 (v : Value) : option Z :=
  match v with Num n => if (0 <=? n) && (n <=? u64_max) then Some n else None | _ => None end.

(** [v == "text"], and [v == true]. *)
Definition is_str (v : Value) (s : string) : bool :=
  match v with Str t => String.eqb t s | _ => false end.
Definition is_true (v : Value) : bool := match v with Bool b => b | _ => false end.

(** ** Reading the document *)

Definition NBR_STATES : list string :=
  ["down"; "attempt"; "init"; "2-way"; "exstart"; "exchange"; "loading"; "full"].

Definition at_least_two_way (state : string) : bool :=
  is_some_and (position (λ s, String.eqb s state) NBR_STATES) (λ i, (3 <=? i)%nat).

(** [s.rsplit(':').next().unwrap_or(s)]: what follows the last colon. *)
Definition after_colon (s : string) : string :=
  match rsplit_once ":"%char s with Some (_, b) => b | None => s end.

Definition ospf_neighbors (doc : Value) (zone ifname : string) : option Value :=
  (λ i, index i "neighbors") <$>
    get (index (index (index doc "ospf") zone) "interfaces") ifname.

Definition neighbor_state (nbrs : Value) (router_id : string) : string :=
  unwrap_or
    (n ← List.find (λ n, is_str (index n "router_id") router_id) (as_array nbrs);
     after_colon <$> as_str (index n "state"))
    "absent".

(** ** Building the document *)

Definition OSPFV2 : string := "ietf-ospf:ospfv2".
Definition BFDV1 : string := "ietf-bfd-types:bfdv1".
Definition BGP : string := "ietf-bgp:bgp".

Definition protocols (tree : Value) : list Value :=
  as_array (index (index (index tree "ietf-routing:routing") "control-plane-protocols")
    "control-plane-protocol").

Definition cfg_instance (cfg : Value) (name : string) : option Value :=
  List.find (λ p, is_str (index p "type") OSPFV2 && is_str (index p "name") name) (protocols cfg).

Definition list_of (v : Value) (container entry : string) : list Value :=
  as_array (index (index v container) entry).

Definition local_name (v : Value) : option string := after_colon <$> as_str v.

(** [json!] of an optional string: [null] when there is none. *)
Definition opt_str (o : option string) : Value := match o with Some s => Str s | None => Null end.

Definition neighbor_json (n : Value) : Value :=
  Obj [("router_id", index n "neighbor-router-id"); ("addr", index n "address");
       ("state", index n "state")].

(** One OSPF interface of the document. *)
Definition interface_json (cfg_ifs : list Value) (i : Value) (name : string) : Value :=
  let c := List.find (λ c, is_str (index c "name") name) cfg_ifs in
  Obj [("state", index i "state");
       ("cost", match c with Some c => index c "cost" | None => Null end);
       ("passive", Bool (match c with Some c => is_true (index c "passive") | None => false end));
       ("neighbors", Arr (neighbor_json <$> list_of i "neighbors" "neighbor"))].

Definition area_interfaces (cfg_ifs : list Value) (area : Value) (acc : list (string * Value))
    : list (string * Value) :=
  foldl (λ m i, match as_str (index i "name") with
                | None => m
                | Some name => assoc_insert m name (interface_json cfg_ifs i name)
                end) acc (list_of area "interfaces" "interface").

(** JSON equality, which [hdr["adv-router"] != router_id] needs. *)
Fixpoint value_eqb (a b : Value) : bool :=
  match a, b with
  | Null, Null => true
  | Bool x, Bool y => Bool.eqb x y
  | Num x, Num y => (x =? y)%Z
  | Str x, Str y => String.eqb x y
  | Arr x, Arr y =>
      (fix go (x y : list Value) : bool :=
         match x, y with
         | [], [] => true
         | u :: x', v :: y' => value_eqb u v && go x' y'
         | _, _ => false
         end) x y
  | Obj x, Obj y =>
      (length x =? length y)%nat &&
      (fix go (x : list (string * Value)) : bool :=
         match x with
         | [] => true
         | (k, u) :: x' =>
             match assoc_get y k with Some v => value_eqb u v | None => false end && go x'
         end) x
  | _, _ => false
  end.

(** The links this member advertises in one area, from its own router LSAs. *)
Definition area_links (router_id area : Value) : list Value :=
  t ← list_of area "database" "area-scope-lsa-type";
  lsa ← list_of t "area-scope-lsas" "area-scope-lsa";
  let hdr := index (index lsa "ospfv2") "header" in
  if negb (opt_eqb (local_name (index hdr "type")) (Some "ospfv2-router-lsa"))
     || negb (value_eqb (index hdr "adv-router") router_id) then []
  else
    link ← list_of (index (index (index lsa "ospfv2") "body") "router") "links" "link";
    let metric := match list_of link "topologies" "topology" with
                  | t :: _ => index t "metric"
                  | [] => Null
                  end in
    [Obj [("if", index link "link-data"); ("link_id", index link "link-id");
          ("type", opt_str (local_name (index link "type"))); ("metric", metric)]].

Definition ospf_instance (proto : Value) (cfg : option Value) : Value :=
  let ospf := index proto "ietf-ospf:ospf" in
  let router_id := index ospf "router-id" in
  let cfg_ifs := match cfg with
                 | None => []
                 | Some c => a ← list_of (index c "ietf-ospf:ospf") "areas" "area";
                             list_of a "interfaces" "interface"
                 end in
  let areas := list_of ospf "areas" "area" in
  Obj [("router_id", router_id);
       ("interfaces", Obj (foldl (λ m a, area_interfaces cfg_ifs a m) [] areas));
       ("self_lsa_links", Arr (a ← areas; area_links router_id a))].

Definition to_ascii_lowercase_char (c : Ascii.ascii) : Ascii.ascii :=
  if ((65 <=? code c) && (code c <=? 90))%Z
  then Ascii.ascii_of_nat (Z.to_nat (code c + 32)) else c.
Fixpoint to_ascii_lowercase (s : string) : string :=
  match s with
  | EmptyString => EmptyString
  | String c s' => String (to_ascii_lowercase_char c) (to_ascii_lowercase s')
  end.

Definition bfd_session_json (s : Value) : Value :=
  let run := index s "session-running" in
  let state := (λ st, if String.eqb st "adminDown" then "admin-down" else to_ascii_lowercase st)
                 <$> local_name (index run "local-state") in
  Obj [("local", index s "source-addr"); ("peer", index s "dest-addr");
       ("if", index s "interface"); ("state", opt_str state);
       ("rx_us", index run "negotiated-rx-interval");
       ("tx_us", index run "negotiated-tx-interval");
       ("mult", index s "remote-multiplier")].

Definition bfd_sessions (proto : Value) : list Value :=
  bfd_session_json <$>
    list_of (index (index proto "ietf-bfd:bfd") "ietf-bfd-ip-sh:ip-sh") "sessions" "session".

Definition bgp_state (state : option string) : Value :=
  match state with
  | Some s =>
      Str (if String.eqb s "idle" then "Idle"
           else if String.eqb s "connect" then "Connect"
           else if String.eqb s "active" then "Active"
           else if String.eqb s "opensent" then "OpenSent"
           else if String.eqb s "openconfirm" then "OpenConfirm"
           else if String.eqb s "established" then "Established"
           else s)
  | None => Null
  end.

Definition bgp_neighbor_json (n : Value) : Value :=
  let v4 := List.find (λ a, opt_eqb (local_name (index a "name")) (Some "ipv4-unicast"))
              (list_of n "afi-safis" "afi-safi") in
  let pfx_snt := unwrap_or
    (a ← v4; as_u64 (index (index a "prefixes") "sent")) 0%Z in
  Obj [("peer", index n "remote-address");
       ("state", bgp_state (local_name (index n "session-state")));
       ("pfx_snt", Num pfx_snt)].

Definition bgp_neighbors (proto : Value) : list Value :=
  bgp_neighbor_json <$> list_of (index proto BGP) "neighbors" "neighbor".

(** The three collections the document is built from, one protocol at a time. *)
Definition doc_step (cfg : Value) (acc : list (string * Value) * list Value * list Value)
    (proto : Value) : list (string * Value) * list Value * list Value :=
  let '(ospf, bfd, bgp) := acc in
  match as_str (index proto "type") with
  | Some ty =>
      if String.eqb ty OSPFV2 then
        match as_str (index proto "name") with
        | Some name => (assoc_insert ospf name (ospf_instance proto (cfg_instance cfg name)),
                        bfd, bgp)
        | None => acc
        end
      else if String.eqb ty BFDV1 then (ospf, app bfd (bfd_sessions proto), bgp)
      else if String.eqb ty BGP then (ospf, bfd, app bgp (bgp_neighbors proto))
      else acc
  | None => acc
  end.

Definition document (ready : bool) (cfg : Value) (state_trees : list Value) : Value :=
  let '(ospf, bfd, bgp) := foldl (doc_step cfg) ([], [], []) (state_trees ≫= protocols) in
  Obj [("ready", Bool ready); ("ospf", Obj ospf); ("bfd", Arr bfd); ("bgp", Arr bgp)].

(** ** Helper lemmas *)

Lemma assoc_get_insert {A} (m : list (string * A)) k k' v :
  assoc_get (assoc_insert m k v) k' = if String.eqb k k' then Some v else assoc_get m k'.
Proof.
  induction m as [|[k0 v0] m IH]; cbn; [done|].
  destruct (String.eqb_spec k0 k) as [->|Hk]; cbn; [by destruct (String.eqb k k')|].
  rewrite IH. destruct (String.eqb_spec k0 k') as [->|]; [|done].
  by destruct (String.eqb_spec k k').
Qed.

(** Building a map by insertion: the last item with a name decides what the name maps to. *)
Section last_wins.
Context {X A : Type} (name : X → option string) (val : X → A).

Definition insert_all (l : list X) (m : list (string * A)) : list (string * A) :=
  foldl (λ m x, match name x with Some k => assoc_insert m k (val x) | None => m end) m l.

Lemma insert_all_skip l m k :
  (∀ x, x ∈ l → name x ≠ Some k) → assoc_get (insert_all l m) k = assoc_get m k.
Proof using.
  unfold insert_all. revert m. induction l as [|x l IH]; intros m Hl; [done|]. cbn.
  rewrite IH by (intros; apply Hl; by right).
  pose proof (Hl x (list_elem_of_here _ _)) as Hx. destruct (name x) as [k'|]; [|done].
  rewrite assoc_get_insert. destruct (String.eqb_spec k' k); [congruence|done].
Qed.

Lemma insert_all_last l1 x l2 m k :
  name x = Some k → (∀ y, y ∈ l2 → name y ≠ Some k) →
  assoc_get (insert_all (l1 ++ x :: l2) m) k = Some (val x).
Proof using.
  intros Hx Hl. unfold insert_all. rewrite foldl_app. cbn [foldl]. rewrite Hx.
  change (assoc_get (insert_all l2 (assoc_insert (insert_all l1 m) k (val x))) k = Some (val x)).
  rewrite insert_all_skip by done.
  by rewrite assoc_get_insert, String.eqb_refl.
Qed.
End last_wins.

Definition proto_name (p : Value) : option string :=
  if opt_eqb (as_str (index p "type")) (Some OSPFV2) then as_str (index p "name") else None.
Definition proto_val (cfg : Value) (p : Value) : Value :=
  ospf_instance p (unwrap_or ((λ n, cfg_instance cfg n) <$> as_str (index p "name")) None).
Definition if_name (i : Value) : option string := as_str (index i "name").
Definition if_val (cfg_ifs : list Value) (i : Value) : Value :=
  interface_json cfg_ifs i (unwrap_or (if_name i) EmptyString).

Lemma doc_fold cfg l acc :
  (foldl (doc_step cfg) acc l).1.1 = insert_all proto_name (proto_val cfg) l acc.1.1.
Proof.
  unfold insert_all. revert acc. induction l as [|p l IH]; intros [[o b] g]; [done|].
  cbn [foldl]. rewrite IH. f_equal. unfold doc_step, proto_name, proto_val, opt_eqb.
  destruct (as_str (index p "type")) as [ty|]; [|done].
  destruct (String.eqb_spec ty OSPFV2) as [->|Hty].
  - rewrite bool_decide_eq_true_2 by done. by destruct (as_str (index p "name")).
  - rewrite bool_decide_eq_false_2 by congruence.
    by destruct (String.eqb ty BFDV1), (String.eqb ty BGP).
Qed.

Lemma areas_fold ifs areas acc :
  foldl (λ m a, area_interfaces ifs a m) acc areas
  = insert_all if_name (if_val ifs) (areas ≫= λ a, list_of a "interfaces" "interface") acc.
Proof.
  unfold insert_all. revert acc. induction areas as [|a l IH]; intros acc; [done|].
  cbn [foldl]. rewrite IH. cbn [mbind list_bind]. rewrite foldl_app. f_equal.
  unfold area_interfaces. generalize (list_of a "interfaces" "interface"). clear.
  intros il. revert acc. induction il as [|i il IH]; intros acc; [done|]. cbn [foldl].
  rewrite IH. f_equal. unfold if_val, if_name. by destruct (as_str (index i "name")).
Qed.

Definition proto_ifs (p : Value) : list Value :=
  list_of (index p "ietf-ospf:ospf") "areas" "area" ≫= λ a, list_of a "interfaces" "interface".

Lemma ospf_instance_interfaces p c :
  ∃ ifs, index (ospf_instance p c) "interfaces" = Obj (insert_all if_name (if_val ifs) (proto_ifs p) []).
Proof. eexists. unfold ospf_instance. cbn [index get assoc_get String.eqb]. cbn. by rewrite areas_fold. Qed.

Lemma document_ospf ready cfg trees zone :
  index (index (document ready cfg trees) "ospf") zone
  = unwrap_or (assoc_get (insert_all proto_name (proto_val cfg) (trees ≫= protocols) []) zone) Null.
Proof.
  unfold document. pose proof (doc_fold cfg (trees ≫= protocols) ([], [], [])) as H.
  destruct (foldl _ _ _) as [[o b] g]. cbn in H. by rewrite <-H.
Qed.

(** ** What the document promises its readers *)

(** What the two readers see is what the engine's trees say: the neighbours [ospf_neighbors]
    finds for a zone and interface are those of the last interface of that name in the last
    OSPFv2 instance named after the zone, an interface the engine does not carry is [None], and
    [neighbor_state] gives the first matching neighbour's state without its module prefix. *)
Theorem document_readers_agree ready cfg trees zone ifname ps1 p ps2 :
  trees ≫= protocols = ps1 ++ p :: ps2 →
  proto_name p = Some zone → (∀ q, q ∈ ps2 → proto_name q ≠ Some zone) →
  let nbrs := ospf_neighbors (document ready cfg trees) zone ifname in
  ((∀ i, i ∈ proto_ifs p → if_name i ≠ Some ifname) → nbrs = None) ∧
  (∀ is1 i is2 rid, proto_ifs p = is1 ++ i :: is2 → if_name i = Some ifname →
     (∀ j, j ∈ is2 → if_name j ≠ Some ifname) →
     nbrs = Some (Arr (neighbor_json <$> list_of i "neighbors" "neighbor")) ∧
     neighbor_state (unwrap_or nbrs Null) rid =
       match List.find (λ n, is_str (index n "neighbor-router-id") rid)
               (list_of i "neighbors" "neighbor") with
       | Some n => unwrap_or (local_name (index n "state")) "absent"
       | None => "absent"
       end).
Proof.
  intros Hps Hp Hlast. cbn zeta. unfold ospf_neighbors. rewrite document_ospf, Hps.
  rewrite (insert_all_last proto_name (proto_val cfg)) by done. cbn [unwrap_or].
  unfold proto_val.
  destruct (ospf_instance_interfaces p
    (unwrap_or ((λ n, cfg_instance cfg n) <$> as_str (index p "name")) None)) as [ifs ->].
  cbn [get]. split.
  - intros Hno. by rewrite insert_all_skip.
  - intros is1 i is2 rid -> Hi Hl. rewrite insert_all_last by done. cbn [fmap option_fmap option_map].
    assert (index (if_val ifs i) "neighbors"
      = Arr (neighbor_json <$> list_of i "neighbors" "neighbor")) as -> by done.
    split; [done|]. cbn [unwrap_or]. unfold neighbor_state. cbn [as_array].
    generalize (list_of i "neighbors" "neighbor"). clear. intros l.
    induction l as [|n l IH]; [done|]. cbn [fmap list_fmap List.find].
    assert (index (neighbor_json n) "router_id" = index n "neighbor-router-id") as -> by done.
    destruct (is_str _ rid); [|done]. cbn [mbind option_bind].
    assert (index (neighbor_json n) "state" = index n "state") as -> by done. done.
Qed.

(** The bar an adjacency must clear is exactly the five states from 2-Way on; an absent
    neighbour and every unknown word are below it. *)
Theorem two_way_bar (s : string) :
  at_least_two_way s = true ↔ s ∈ ["2-way"; "exstart"; "exchange"; "loading"; "full"].
Proof.
  unfold at_least_two_way, NBR_STATES. rewrite !elem_of_cons, elem_of_nil. cbn [position].
  repeat match goal with
  | |- context [String.eqb ?a s] => destruct (String.eqb_spec a s) as [<-|?]
  end; cbn; split; intros Hin;
    solve [discriminate | reflexivity | tauto | exfalso; decompose [or] Hin; congruence].
Qed.

(** ** Concrete documents *)

Definition tree1 : Value :=
  Obj [("ietf-routing:routing", Obj [("control-plane-protocols", Obj [("control-plane-protocol",
    Arr [Obj [("type", Str OSPFV2); ("name", Str "st"); ("ietf-ospf:ospf", Obj [("areas", Obj
      [("area", Arr [Obj [("interfaces", Obj [("interface", Arr [Obj [("name", Str "fb");
        ("neighbors", Obj [("neighbor", Arr [Obj [("neighbor-router-id", Str "10.9.0.2");
          ("state", Str "ietf-ospf:full")]])])]])])]])])])]])])])].

Lemma document_readers_witness :
  neighbor_state (unwrap_or (ospf_neighbors (document true Null [tree1]) "st" "fb") Null) "10.9.0.2"
  = "full".
Proof.
  set (p := match protocols tree1 with q :: _ => q | [] => Null end).
  set (i := match proto_ifs p with q :: _ => q | [] => Null end).
  destruct (document_readers_agree true Null [tree1] "st" "fb" [] p []
    eq_refl eq_refl ltac:(intros q Hq; by apply not_elem_of_nil in Hq)) as [_ H].
  destruct (H [] i [] "10.9.0.2" eq_refl eq_refl ltac:(intros q Hq; by apply not_elem_of_nil in Hq))
    as [_ Hn].
  transitivity (match List.find (λ n, is_str (index n "neighbor-router-id") "10.9.0.2")
               (list_of i "neighbors" "neighbor") with
       | Some n => unwrap_or (local_name (index n "state")) "absent"
       | None => "absent"
       end); [exact Hn|vm_compute; reflexivity].
Defined.
