(* ===== verification/Uplink.v ===== *)
(** Uplinks (src/src/workload/uplink.rs): the declared bridge's ports, which of them leave the
    host, and the VLAN ids they carry.

    [from_str] is [serde_json::from_str], whose answer the source only reads. *)
From Stdlib Require Import Ascii String.
From S2P Require Import Prelude Text Sys EngineState.
Local Open Scope Z_scope.

Record Uplink := { up_bridge : string; up_vid : Z; up_ports : list string }.

Definition MAX_LOWER_DEPTH : nat := 8.

Definition sysfs (dev rest : string) : string := ("/sys/class/net/" ++ dev ++ "/" ++ rest)%string.

Definition lower_of (h : Host) (dev : string) : list string :=
  omap (strip_prefix "lower_") (or_nil (h_list_dir h (sysfs dev EmptyString))).

(** [read_link(device).is_ok() || exists(device)]. *)
Definition has_device (h : Host) (port : string) : bool :=
  is_ok (h_read_link h (sysfs port "device")) || h_exists h (sysfs port "device").

(** The source counts the depth up from 0 and answers false past [MAX_LOWER_DEPTH]; [fuel] is
    [MAX_LOWER_DEPTH + 1 - depth]. *)
Fixpoint is_uplink_port (fuel : nat) (h : Host) (port : string) : bool :=
  match fuel with
  | O => false
  | S fuel' => has_device h port || any (is_uplink_port fuel' h) (lower_of h port)
  end.

Definition ports_of (h : Host) (bridge : string) : list string :=
  or_nil (h_list_dir h (sysfs bridge "brif/")).

Definition bridge_present (h : Host) (bridge : string) : bool :=
  negb (bool_decide (ports_of h bridge = [])) || h_exists h (sysfs bridge "bridge/stp_state").

Definition no_uplink (bridge : string) (ports : list string) : string :=
  "bridge " ++ bridge ++ " has no uplink port (no port has a /sys/class/net/<port>/device, "
    ++ "directly or through lower links); ports: "
    ++ match ports with [] => "(none)" | _ => String.concat ", " ports end.

Definition identify_declared (h : Host) (bridge : string) (vid : Z) : result string Uplink :=
  let ports := ports_of h bridge in
  match List.filter (is_uplink_port (S MAX_LOWER_DEPTH) h) ports with
  | [] => Err (no_uplink bridge ports)
  | up => Ok {| up_bridge := bridge; up_vid := vid; up_ports := up |}
  end.

Definition u16_max : Z := 65535.

(** [for vid in first..=last], keeping the ids a [u16] holds: none past [u16_max] can be kept,
    so the range is cut there. *)
Definition vid_range (first last : Z) : list Z :=
  seqZ first (Z.min last u16_max - first + 1).

Definition entry_vids (v : Value) : list Z :=
  match get v "vlan" ≫= as_u64 with
  | None => []
  | Some first => vid_range first (unwrap_or (get v "vlanEnd" ≫= as_u64) first)
  end.

Section json.
Context (from_str : string → option Value).

Definition parse_vids (json dev : string) : gset Z :=
  match from_str json with
  | None => ∅
  | Some doc =>
      list_to_set (entry ← as_array doc;
                   if opt_eqb (get entry "ifname" ≫= as_str) (Some dev)
                   then v ← match get entry "vlans" with Some l => as_array l | None => [] end;
                        entry_vids v
                   else [])
  end.

Definition vids_of (h : Host) (dev : string) : result Error (gset Z) :=
  out <-? run_ok h ["bridge"; "-j"; "vlan"; "show"; "dev"; dev] ;;
  Ok (parse_vids (stdout out) dev).

Fixpoint carrying (h : Host) (vid : Z) (ports : list string) : result Error (list string) :=
  match ports with
  | [] => Ok []
  | port :: ports' =>
      vids <-? vids_of h port ;;
      out <-? carrying h vid ports' ;;
      Ok (if bool_decide (vid ∈ vids) then port :: out else out)
  end.
Definition ports_carrying_vid (h : Host) (up : Uplink) : result Error (list string) :=
  carrying h (up_vid up) (up_ports up).
End json.

Definition stp_forwarding (h : Host) (bridge port : string) : result string (bool * string) :=
  let path := sysfs bridge ("brif/" ++ port ++ "/state") in
  match h_read h path with
  | Err _ => Err ("bridge " ++ bridge ++ ": port " ++ port ++ " has no " ++ path)%string
  | Ok s => let state := trim s in Ok (String.eqb state "3", state)
  end.

Definition port_ifindex (h : Host) (port : string) : option Z :=
  match h_read h (sysfs port "ifindex") with
  | Ok s => parse_uint u32_max (trim s)
  | Err _ => None
  end.

Fixpoint ifindexes (h : Host) (uplinks ports : list string) : result string (list Z) :=
  match ports with
  | [] => Ok []
  | port :: ports' =>
      if bool_decide (port ∈ uplinks) then ifindexes h uplinks ports'
      else if negb (h_exists h (sysfs port "ifindex")) then ifindexes h uplinks ports'
      else match port_ifindex h port with
           | None => Err ("port " ++ port ++ ": cannot read ifindex from "
                            ++ sysfs port "ifindex")%string
           | Some i => l <-? ifindexes h uplinks ports' ;; Ok (i :: l)
           end
  end.
Definition non_uplink_ifindexes (h : Host) (up : Uplink) : result string (gset Z) :=
  l <-? ifindexes h (up_ports up) (ports_of h (up_bridge up)) ;; Ok (list_to_set l).

(** ** Which ports leave the host *)

(** [port] reaches a device over at most [n] lower links. *)
Inductive reaches (h : Host) : nat → string → Prop :=
| reaches_here n port : has_device h port = true → reaches h n port
| reaches_lower n port lower :
    lower ∈ lower_of h port → reaches h n lower → reaches h (S n) port.

Lemma is_uplink_port_iff h n port : is_uplink_port (S n) h port = true ↔ reaches h n port.
Proof.
  revert port. induction n as [|n IH]; intros port.
  - cbn. rewrite orb_true_iff, any_true. split.
    + intros [H|(x & _ & [=])]. by constructor.
    + inversion 1; subst; auto.
  - change (is_uplink_port (S (S n)) h port)
      with (has_device h port || any (is_uplink_port (S n) h) (lower_of h port)).
    rewrite orb_true_iff, any_true. setoid_rewrite IH. split.
    + intros [H|(x & Hx & H)]; [by constructor|by eapply reaches_lower].
    + inversion 1; subst; eauto.
Qed.

Lemma find_all_sublist {A} (p : A → bool) l : sublist (List.filter p l) l.
Proof. induction l as [|x l IH]; cbn; [constructor|]. destruct (p x); by constructor. Qed.

Lemma elem_of_up_ports h bridge p :
  p ∈ List.filter (is_uplink_port (S MAX_LOWER_DEPTH) h) (ports_of h bridge)
  ↔ p ∈ ports_of h bridge ∧ reaches h MAX_LOWER_DEPTH p.
Proof. by rewrite list_elem_of_In, List.filter_In, <-list_elem_of_In, is_uplink_port_iff. Qed.

Lemma identify_Ok h bridge vid up :
  identify_declared h bridge vid = Ok up ↔
  up = {| up_bridge := bridge; up_vid := vid;
          up_ports := List.filter (is_uplink_port (S MAX_LOWER_DEPTH) h) (ports_of h bridge) |}
  ∧ up_ports up ≠ [].
Proof.
  unfold identify_declared.
  destruct (List.filter _ _) eqn:E; split; [done|by intros [-> ?]|intros [= <-]; auto|by intros [-> _]].
Qed.

(** The uplink ports found are exactly the bridge's own ports, in the order sysfs lists
    them, from which a device is reached over at most [MAX_LOWER_DEPTH] lower links, whatever
    cycles those links hold; the declaration's bridge and VLAN id are carried through. The
    uplink is refused, naming every port the bridge has, exactly when there is no such port. *)
Theorem identify_declared_correct h bridge vid :
  match identify_declared h bridge vid with
  | Ok up => up_bridge up = bridge ∧ up_vid up = vid ∧ up_ports up ≠ []
      ∧ sublist (up_ports up) (ports_of h bridge)
      ∧ ∀ p, p ∈ up_ports up ↔ p ∈ ports_of h bridge ∧ reaches h MAX_LOWER_DEPTH p
  | Err e => e = no_uplink bridge (ports_of h bridge)
      ∧ ∀ p, p ∈ ports_of h bridge → ¬ reaches h MAX_LOWER_DEPTH p
  end.
Proof.
  pose proof (elem_of_up_ports h bridge) as Hin. revert Hin. unfold identify_declared.
  generalize (find_all_sublist (is_uplink_port (S MAX_LOWER_DEPTH) h) (ports_of h bridge)).
  destruct (List.filter _ _) as [|q l]; intros Hsub Hin; cbn [up_bridge up_vid up_ports].
  - split; [done|]. intros p Hp Hr. by apply (not_elem_of_nil p), Hin.
  - done.
Qed.

(** The VLAN ids of a listing are those of the device's own entries, each one a [u16]. *)
Lemma elem_of_parse_vids from_str json dev vid :
  vid ∈ parse_vids from_str json dev ↔
  ∃ doc entry vlans v first,
    from_str json = Some doc ∧ entry ∈ as_array doc
    ∧ get entry "ifname" ≫= as_str = Some dev
    ∧ get entry "vlans" = Some vlans ∧ v ∈ as_array vlans
    ∧ get v "vlan" ≫= as_u64 = Some first
    ∧ first ≤ vid ≤ Z.min u16_max (unwrap_or (get v "vlanEnd" ≫= as_u64) first).
Proof.
  unfold parse_vids. destruct (from_str json) as [doc|]; [|set_solver].
  rewrite elem_of_list_to_set, list_elem_of_bind. split.
  - intros (entry & Hv & He). unfold opt_eqb in Hv. case_bool_decide as Hd; [|set_solver].
    destruct (get entry "vlans") as [vlans|] eqn:Ev; [|set_solver].
    apply list_elem_of_bind in Hv as (v & Hv & Hl). unfold entry_vids in Hv.
    destruct (get v "vlan" ≫= as_u64) as [first|] eqn:Ef; [|set_solver].
    unfold vid_range in Hv. apply elem_of_seqZ in Hv.
    exists doc, entry, vlans, v, first. repeat split; auto; lia.
  - intros (doc' & entry & vlans & v & first & [= <-] & He & Hd & Ev & Hl & Ef & Hr).
    exists entry. split; [|done]. unfold opt_eqb. rewrite bool_decide_true, Ev by done.
    apply list_elem_of_bind. exists v. split; [|done]. unfold entry_vids. rewrite Ef.
    apply elem_of_seqZ. lia.
Qed.

(** A port whose ids cannot be read is an error, never a port that carries nothing. *)
Lemma ports_carrying_vid_Ok from_str h up out :
  ports_carrying_vid from_str h up = Ok out →
  sublist out (up_ports up)
  ∧ ∀ p, p ∈ up_ports up → ∃ vids, vids_of from_str h p = Ok vids ∧ (p ∈ out ↔ up_vid up ∈ vids).
Proof.
  unfold ports_carrying_vid. revert out.
  induction (up_ports up) as [|q l IH]; cbn; intros out.
  { intros [= <-]. split; [constructor|]. set_solver. }
  destruct (vids_of from_str h q) as [vids|] eqn:Eq; [|done].
  destruct (carrying from_str h (up_vid up) l) as [o|]; [|done].
  destruct (IH o eq_refl) as [Hs Hl]. intros [= <-].
  split; [case_bool_decide; by constructor|].
  intros p Hp. destruct (decide (p ∈ l)) as [Hpl|Hpl].
  - destruct (Hl p Hpl) as (vs & Hv & Hiff). exists vs. split; [done|].
    case_bool_decide; [|done]. rewrite elem_of_cons, Hiff. split; [|by right].
    intros [->|]; [congruence|done].
  - apply elem_of_cons in Hp as [->|]; [|done]. exists vids. split; [done|].
    assert (q ∉ o) by (intros Ho; apply Hpl; eapply elem_of_submseteq, sublist_submseteq; eauto).
    case_bool_decide; [|done]. set_solver.
Qed.

(** A bond's port reaches its NICs through [lower_] links. *)
Module Sample.
Definition dirs : list (string * list string) :=
  [("/sys/class/net/primary/brif/", ["bond0"; "tap1"]);
   ("/sys/class/net/bond0/", ["lower_eth0"; "mtu"])].
Definition host : Host :=
  {| h_run _ := Err (Fatal "no such command");
     h_read _ := Err (Fatal "no such file");
     h_exists p := String.eqb p "/sys/class/net/eth0/device";
     h_is_writable _ := true;
     h_list_dir p := match assoc_get dirs p with Some l => Ok l | None => Err (Fatal "no such directory") end;
     h_read_link _ := Err (Fatal "no such link") |}.

Example bond_is_uplink :
  identify_declared host "primary" 3
  = Ok {| up_bridge := "primary"; up_vid := 3; up_ports := ["bond0"] |}.
Proof. vm_compute. done. Qed.

Example absent_bridge :
  identify_declared host "vmbr9" 3 = Err (no_uplink "vmbr9" []).
Proof. vm_compute. done. Qed.
End Sample.
