(* ===== verification/HostRoutes.v ===== *)
(** Host routes (src/src/workload/hostroutes.rs): which addresses on a workload's leg are VMs
    of this host, the hold-down that damps their withdrawal, and the reconcile of the engine's
    routes, the nftables set, the neighbour table and the idle-VM probe with that set.

    A tick is a function from its row states to the next ones, its journal lines and its
    effects in order. What the host answers is [io], a function of the effects performed so far
    in the tick, so an answer may depend on every earlier action. *)
From Stdlib Require Import Ascii String.
From S2P Require Import Prelude Text Sys Net Fabric Derive Announce EngineState Uplink.
Local Open Scope Z_scope.

Definition HOLDDOWN : Duration := PERIOD.
Definition RESOLVED : list string := ["REACHABLE"; "STALE"; "DELAY"; "PROBE"; "PERMANENT"].

(** ** Reading the neighbours and the FDB *)

(** [v.as_array()] where [None] matters. *)
Definition as_array_opt (v : Value) : option (list Value) :=
  match v with Arr l => Some l | _ => None end.

Definition hex_digit (c : ascii) : option Z :=
  if is_digit c then Some (code c - 48)
  else if (97 <=? code c) && (code c <=? 102) then Some (code c - 87)
  else if (65 <=? code c) && (code c <=? 70) then Some (code c - 55)
  else None.

Fixpoint hex_val (acc : Z) (s : string) : option Z :=
  match s with
  | EmptyString => Some acc
  | String c s' => d ← hex_digit c; hex_val (acc * 16 + d) s'
  end.

(** [u8::from_str_radix(s, 16)]: an optional [+], then at least one digit. *)
Definition from_hex (s : string) : option Z :=
  let body := match s with
              | String c s' => if Ascii.eqb c "+"%char then s' else s
              | EmptyString => s
              end in
  match body with
  | EmptyString => None
  | _ => v ← hex_val 0 body; if v <=? u8_max then Some v else None
  end.

Fixpoint all_some {A} (l : list (option A)) : option (list A) :=
  match l with
  | [] => Some []
  | o :: l' => x ← o; xs ← all_some l'; Some (x :: xs)
  end.

Definition parse_mac (s : string) : option Mac :=
  let parts := split ":"%char s in
  if (length parts =? 6)%nat then all_some (from_hex <$> parts) else None.

(** [relay.rs] and this file both refuse these addresses. *)
Definition fabric_addresses (v : View) (wl : Workload) : gset Ipv4Addr :=
  {[wl_gw wl]} ∪
  list_to_set (mw_address <$>
    List.filter (λ mw, String.eqb (mw_name mw) (wl_name wl))
      (m ← f_members (v_fabric v); m_workloads m)).

Definition fdb_entry (e : Value) : option (string * string) :=
  mac ← as_str (index e "mac"); port ← as_str (index e "ifname"); Some (mac, port).

Definition local_mac (uplink_ports : list string) (e : Value) : option string :=
  '(mac, port) ← fdb_entry e;
  if bool_decide (port ∈ uplink_ports) then None else Some (to_ascii_lowercase mac).

Definition resolved (e : Value) : bool :=
  match as_array_opt (index e "state") with
  | None => false
  | Some state => any (λ s, bool_decide (s ∈ RESOLVED)) (omap as_str state)
  end.

(** The VM one neighbour entry names, if it is one. *)
Definition vm_of (macs : gset string) (wl : Workload) (exclude : gset Ipv4Addr) (e : Value)
    : option (Ipv4Addr * Mac) :=
  dst ← as_str (index e "dst");
  dst ← parse_addr dst;
  if negb (contains (wl_prefix wl) dst) || bool_decide (dst ∈ exclude) then None
  else if negb (resolved e) then None
  else mac ← as_str (index e "lladdr");
       if bool_decide (to_ascii_lowercase mac ∈ macs) then (dst,.) <$> parse_mac mac else None.

(** A document with entries, none of which has the keys read. *)
Definition foreign {A} (read : Value → option A) (l : list Value) : bool :=
  bool_decide (omap read l = []) && negb (bool_decide (l = [])).

Definition insert_vm (m : gmap Ipv4Addr Mac) (p : Ipv4Addr * Mac) : gmap Ipv4Addr Mac :=
  <[p.1 := p.2]> m.

Definition join_vms (neigh fdb : list Value) (v : View) (wl : Workload) (ports : list string)
    : gmap Ipv4Addr Mac :=
  foldl insert_vm ∅ (omap (vm_of (list_to_set (omap (local_mac ports) fdb)) wl
                                 (fabric_addresses v wl)) neigh).

(** ** The hold-down *)

Abbreviation Holddown := (gmap Ipv4Addr (option Instant)).

Definition keep (live : gset Ipv4Addr) (now : Instant) (addr : Ipv4Addr) (due : option Instant)
    : option (option Instant) :=
  if bool_decide (addr ∈ live) then Some due
  else let deadline := unwrap_or due (now + HOLDDOWN) in
       if now <? deadline then Some (Some deadline) else None.

(** [Holddown::observe]: the wanted set is what [retain] keeps. *)
Definition hd_observe (h : Holddown) (live : gset Ipv4Addr) (now : Instant)
    : Holddown * gset Ipv4Addr :=
  let h := gset_to_gmap None live ∪ h in
  let h := map_imap (keep live now) h in
  (h, dom h).

(** ** A row's state *)

Inductive Cond := CRead | CEngine | CNft | CProbe | CAgeingTime.

#[export] Instance Cond_eq_dec : EqDecision Cond.
Proof. solve_decision. Defined.
#[export] Instance Cond_countable : Countable Cond.
Proof.
  refine (inj_countable'
    (λ c, match c with CRead => 0%nat | CEngine => 1%nat | CNft => 2%nat
                     | CProbe => 3%nat | CAgeingTime => 4%nat end)
    (λ n, match n with O => CRead | 1%nat => CEngine | 2%nat => CNft
                     | 3%nat => CProbe | _ => CAgeingTime end) _).
  by intros [].
Defined.

Definition cond_str (c : Cond) : string :=
  match c with
  | CRead => "VM read"
  | CEngine => "engine route request"
  | CNft => "local set update"
  | CProbe => "idle-VM probe"
  | CAgeingTime => "bridge ageing_time read"
  end.

Record Row := mk_row {
  holddown : Holddown;
  standing : gmap Cond string;
  last_wanted : gset Ipv4Addr;
  seen_before : bool;
  next_probe : option Instant
}.

Definition row_default : Row := mk_row ∅ ∅ ∅ false None.
(** [HostRoutes::rows], by workload name. *)
Abbreviation HostRoutes := (gmap string Row).

Definition set_standing (r : Row) (s : gmap Cond string) : Row :=
  mk_row (holddown r) s (last_wanted r) (seen_before r) (next_probe r).
Definition set_holddown (r : Row) (h : Holddown) : Row :=
  mk_row h (standing r) (last_wanted r) (seen_before r) (next_probe r).
Definition set_next_probe (r : Row) (t : Instant) : Row :=
  mk_row (holddown r) (standing r) (last_wanted r) (seen_before r) (Some t).
Definition forget (r : Row) : Row :=
  mk_row ∅ (standing r) ∅ (seen_before r) (next_probe r).
Definition baseline (r : Row) (wanted : gset Ipv4Addr) : Row :=
  mk_row (holddown r) (standing r) wanted true (next_probe r).

Definition say_once (c : Cond) (line : string) (r : Row) : Row * list string :=
  if opt_eqb (standing r !! c) (Some line) then (r, [])
  else (set_standing r (<[c := line]> (standing r)), [line]).

Definition recovered (c : Cond) (name : string) (r : Row) : Row * list string :=
  match standing r !! c with
  | None => (r, [])
  | Some _ => (set_standing r (delete c (standing r)),
               [("cfab: workload " ++ name ++ ": " ++ cond_str c ++ " recovered")%string])
  end.

(** ** The world and what is done to it *)

Inductive Effect :=
| Ran (argv : list string)
| Asked (sock line : string)
| Sent (leg : string) (frame : list Z).

Record World := {
  w_host : Host;
  w_request : string → string → result Error string;
  w_mac : string → result Error Mac;
  w_send : string → list Z → result Error unit
}.

(** One row's state in the middle of a tick, the lines said and the actions taken so far. *)
Record Acc := mk_acc { row : Row; out : list string; effs : list Effect }.

Definition on_row (f : Row → Row * list string) (a : Acc) : Acc :=
  let '(r, lines) := f (row a) in mk_acc r (out a ++ lines) (effs a).
Definition put (r : Row) (a : Acc) : Acc := mk_acc r (out a) (effs a).
Definition journal (line : string) (a : Acc) : Acc := mk_acc (row a) (out a ++ [line]) (effs a).
Definition act (e : Effect) (a : Acc) : Acc := mk_acc (row a) (out a) (effs a ++ [e]).

Definition fail_costing (wl : Workload) (c : Cond) (why cost : string) (a : Acc) : Acc :=
  on_row (say_once c ("cfab: workload " ++ wl_name wl ++ ": " ++ why ++ "; " ++ cost)) a.

Definition ENGINE_COST : string := "host routes unchanged".
Definition NFT_COST : string := "the local set is unchanged".

Inductive EngineRefusal := Withdrew (e : string) | Plain.

(** The word the engine's refusals carry, between its quotes. *)
Definition quoted_error : string :=
  String "034"%char ("error" ++ String "034"%char EmptyString).

Definition DEFAULT_AGEING : Duration := from_secs 300.

(** [Duration::from_millis(centisecs.saturating_mul(10)) / 3], floored at [PERIOD]. *)
Definition probe_interval (h : Host) (bridge : string) : Duration * option string :=
  let path := sysfs bridge "bridge/ageing_time" in
  let parsed := match h_read h path with
                | Ok s => parse_uint u64_max (trim s)
                | Err _ => None
                end in
  match (c ← parsed; if 0 <? c then Some c else None) with
  | Some c => (Z.max (from_millis (Z.min u64_max (c * 10)) / 3) PERIOD, None)
  | None => (Z.max (DEFAULT_AGEING / 3) PERIOD, Some ("cannot read " ++ path)%string)
  end.

Definition leg_ifindex (h : Host) (leg : string) : option Z :=
  match h_read h (sysfs leg "ifindex") with
  | Ok s => parse_uint u32_max (trim s)
  | Err _ => None
  end.

Definition neigh_show (wl : Workload) : list string :=
  ["ip"; "-j"; "neigh"; "show"; "nud"; "all"; "dev"; leg_ifname wl].
Definition fdb_show (wl : Workload) : list string :=
  ["bridge"; "-j"; "fdb"; "show"; "br"; wl_uplink wl].
Definition neigh_del (wl : Workload) (a : Ipv4Addr) : list string :=
  ["ip"; "neigh"; "del"; show_addr a; "dev"; leg_ifname wl].
Definition nft_list (wl : Workload) : list string :=
  ["nft"; "-j"; "list"; "set"; "inet"; "cfab-fwd"; local_set wl].
Definition braces (elems : list Ipv4Addr) : string :=
  ("{ " ++ String.concat ", " (show_addr <$> elems) ++ " }")%string.
Definition nft_element (verb : string) (wl : Workload) (elems : list Ipv4Addr) : list string :=
  ["nft"; verb; "element"; "inet"; "cfab-fwd"; local_set wl; braces elems].

(** A [BTreeSet] of addresses, in its order. *)
Definition sorted (s : gset Ipv4Addr) : list Ipv4Addr := btree_set_iter Z.leb s.

Definition ask_line (wl : Workload) (ifindex : Z) (wanted : gset Ipv4Addr) : string :=
  ("workload-routes " ++ leg_ifname wl ++ " " ++ show ifindex
     ++ String.concat EmptyString ((λ a, " " ++ show_addr a ++ "/32") <$> sorted wanted)
     ++ String char_lf EmptyString)%string.

Definition SOCK_NAME : string := "engine.sock".
Definition sock_path (f : Fabric) : string := (f_run_dir f ++ "/" ++ SOCK_NAME)%string.

Definition deferred_names (h : Host) (v : View) : gset string :=
  list_to_set (trim <$>
    List.filter (λ l, negb (String.eqb (trim l) EmptyString))
      (lines (or_empty (h_read h (f_run_dir (v_fabric v) ++ "/workload-deferred")%string)))).

(** ** The reconcile *)

Section reconcile.
Context (from_str : string → option Value).

Definition local_vm_macs (neigh_json fdb_json : string) (v : View) (wl : Workload)
    (ports : list string) : option (gmap Ipv4Addr Mac) :=
  neigh ← from_str neigh_json;
  fdb ← from_str fdb_json;
  neigh ← as_array_opt neigh;
  fdb ← as_array_opt fdb;
  if foreign fdb_entry fdb then None
  else if foreign (λ e, as_str (index e "dst")) neigh then None
  else Some (join_vms neigh fdb v wl ports).

Definition local_vms (neigh_json fdb_json : string) (v : View) (wl : Workload)
    (ports : list string) : option (gset Ipv4Addr) :=
  dom <$> local_vm_macs neigh_json fdb_json v wl ports.

Definition refusal (reply : string) : option EngineRefusal :=
  match from_str reply with
  | None => if has_substring quoted_error reply then Some Plain else None
  | Some v =>
      err ← get v "error";
      Some (if is_true (index v "withdrew")
            then Withdrew (unwrap_or (as_str err) EmptyString)
            else Plain)
  end.

Definition parse_set_elements (json : string) : option (gset Ipv4Addr) :=
  doc ← from_str json;
  items ← as_array_opt (index doc "nftables");
  set ← head (omap (λ i, get i "set") items);
  Some (list_to_set (omap (λ e, or_else (as_str e) (as_str (index e "val")) ≫= parse_addr)
                          (as_array (index set "elem")))).

(** [read_local_vms] and [seed_locals], which only read. *)
Definition read_local_vms (h : Host) (v : View) (wl : Workload) : option (gset Ipv4Addr) :=
  match identify_declared h (wl_uplink wl) (wl_vid wl) with
  | Err _ => None
  | Ok up =>
      neigh ← run_optional h (neigh_show wl);
      fdb ← run_optional h (fdb_show wl);
      if negb (output_ok neigh) || negb (output_ok fdb) then None
      else local_vms (stdout neigh) (stdout fdb) v wl (up_ports up)
  end.

Definition seed_locals (h : Host) (v : View) : list (string * gset Ipv4Addr) :=
  let deferred := deferred_names h v in
  (λ r, (local_set (wr_wl r),
         if bool_decide (wl_name (wr_wl r) ∈ deferred) then ∅
         else unwrap_or (read_local_vms h v (wr_wl r)) ∅)) <$> workload_rows v.

Context (io : list Effect → World).

Definition host (a : Acc) : Host := w_host (io (effs a)).
Definition run_cmd (argv : list string) (a : Acc) : result Error Output * Acc :=
  (h_run (host a) argv, act (Ran argv) a).
Definition unix_request (sock line : string) (a : Acc) : result Error string * Acc :=
  (w_request (io (effs a)) sock line, act (Asked sock line) a).
Definition send (leg : string) (frame : list Z) (a : Acc) : result Error unit * Acc :=
  (w_send (io (effs a)) leg frame, act (Sent leg frame) a).

(** [HostRoutes::observe]. *)
Definition observe (v : View) (wl : Workload) (a : Acc) : option (gmap Ipv4Addr Mac) * Acc :=
  match identify_declared (host a) (wl_uplink wl) (wl_vid wl) with
  | Err _ => (None, a)
  | Ok up =>
      let '(neigh, a) := run_cmd (neigh_show wl) a in
      match neigh with
      | Err _ => (None, a)
      | Ok neigh =>
          if negb (output_ok neigh) then
            (None, fail_costing wl CRead ("cannot read the neighbors of " ++ leg_ifname wl)
                     ENGINE_COST a)
          else
            let '(fdb, a) := run_cmd (fdb_show wl) a in
            match fdb with
            | Err _ => (None, a)
            | Ok fdb =>
                if negb (output_ok fdb) then
                  (None, fail_costing wl CRead ("cannot read the FDB of bridge " ++ wl_uplink wl)
                           ENGINE_COST a)
                else
                  match local_vm_macs (stdout neigh) (stdout fdb) v wl (up_ports up) with
                  | Some live => (Some live, on_row (recovered CRead (wl_name wl)) a)
                  | None =>
                      (None, fail_costing wl CRead
                               ("cannot parse the neighbors of " ++ leg_ifname wl
                                  ++ " or the FDB of " ++ wl_uplink wl) ENGINE_COST a)
                  end
            end
      end
  end.

Definition left_line (wl : Workload) (addr : Ipv4Addr) (deleted : bool) : string :=
  "cfab: workload " ++ wl_name wl ++ ": vm " ++ show_addr addr
    ++ " left (no longer seen as a local VM)"
    ++ (if deleted then EmptyString
        else "; cannot delete its neighbor entry on " ++ leg_ifname wl).

Definition say_joined (wl : Workload) (a : Acc) (addr : Ipv4Addr) : Acc :=
  journal ("cfab: workload " ++ wl_name wl ++ ": vm " ++ show_addr addr ++ " joined") a.

Definition drop_neighbor (wl : Workload) (a : Acc) (addr : Ipv4Addr) : Acc :=
  let '(r, a) := run_cmd (neigh_del wl addr) a in
  journal (left_line wl addr (exited_ok r)) a.

Definition reconcile_membership (wl : Workload) (wanted : gset Ipv4Addr) (a : Acc) : Acc :=
  let r := row a in
  let first := negb (seen_before r) in
  let prev := last_wanted r in
  let a := put (baseline r wanted) a in
  if first then a
  else
    let a := foldl (say_joined wl) a (sorted (wanted ∖ prev)) in
    foldl (drop_neighbor wl) a (sorted (prev ∖ wanted)).

Definition engine_fault (wl : Workload) (line : string) (reply : result Error string)
    : option (string * string) :=
  match reply with
  | Ok reply =>
      match refusal reply with
      | None => None
      | Some (Withdrew e) =>
          Some ("engine withdrew the routes of " ++ leg_ifname wl
                  ++ " and refused the reinstall: " ++ e, "retried next tick")%string
      | Some Plain =>
          Some ("engine refused " ++ trim line ++ ": " ++ trim reply, ENGINE_COST)%string
      end
  | Err e => Some ("engine would not take " ++ trim line ++ ": " ++ display e, ENGINE_COST)%string
  end.

Definition ask_engine (v : View) (wl : Workload) (ifindex : Z) (wanted : gset Ipv4Addr) (a : Acc)
    : Acc :=
  let line := ask_line wl ifindex wanted in
  let '(reply, a) := unix_request (sock_path (v_fabric v)) line a in
  match engine_fault wl line reply with
  | Some (why, cost) => fail_costing wl CEngine why cost a
  | None => on_row (recovered CEngine (wl_name wl)) a
  end.

(** One of the two commands of [sync_set]: false when it was run and failed. *)
Definition move_elements (wl : Workload) (verb : string) (elems : list Ipv4Addr) (a : Acc)
    : bool * Acc :=
  match elems with
  | [] => (true, a)
  | _ =>
      let '(r, a) := run_cmd (nft_element verb wl elems) a in
      if exited_ok r then (true, a)
      else (false, fail_costing wl CNft
                     ("cannot " ++ verb ++ " " ++ braces elems ++ " in the nft set inet cfab-fwd "
                        ++ local_set wl) NFT_COST a)
  end.

Definition held_elements (r : result Error Output) : option (gset Ipv4Addr) :=
  match r with
  | Ok o => if output_ok o then parse_set_elements (stdout o) else None
  | Err _ => None
  end.

Definition sync_set (wl : Workload) (wanted : gset Ipv4Addr) (a : Acc) : Acc :=
  let '(listing, a) := run_cmd (nft_list wl) a in
  match held_elements listing with
  | None =>
      fail_costing wl CNft ("cannot read the nft set inet cfab-fwd " ++ local_set wl) NFT_COST a
  | Some held =>
      let '(ok, a) := move_elements wl "add" (sorted (wanted ∖ held)) a in
      if negb ok then a
      else
        let '(ok, a) := move_elements wl "delete" (sorted (held ∖ wanted)) a in
        if negb ok then a else on_row (recovered CNft (wl_name wl)) a
  end.

(** The sends of one probe cycle: how many failed, and the last failure's text. *)
Definition probe_one (wl : Workload) (src : Mac) (s : nat * option string * Acc)
    (vm : Ipv4Addr * Mac) : nat * option string * Acc :=
  let '(failed, last_err, a) := s in
  let '(r, a) := send (leg_ifname wl) (unicast_probe src vm.2 (wl_gw wl) vm.1) a in
  match r with
  | Ok _ => (failed, last_err, a)
  | Err e => (S failed, Some (show_addr vm.1 ++ ": " ++ display e)%string, a)
  end.

Definition send_probes (wl : Workload) (src : Mac) (live : gmap Ipv4Addr Mac) (a : Acc) : Acc :=
  let '(failed, last_err, a) :=
    foldl (probe_one wl src) (0%nat, None, a) (btree_iter Z.leb live) in
  if (0 <? failed)%nat then
    fail_costing wl CProbe
      (show (Z.of_nat failed) ++ " of " ++ show (Z.of_nat (size live)) ++ " idle-VM probes on "
         ++ leg_ifname wl ++ " failed: " ++ unwrap_or last_err EmptyString)
      "retried next cycle" a
  else on_row (recovered CProbe (wl_name wl)) a.

Definition report_ageing (wl : Workload) (fault : option string) (a : Acc) : Acc :=
  match fault with
  | Some why =>
      fail_costing wl CAgeingTime why
        ("probing at the default " ++ show (DEFAULT_AGEING / nanos_per_sec)
           ++ "s ageing_time assumption") a
  | None => on_row (recovered CAgeingTime (wl_name wl)) a
  end.

Definition maybe_probe (wl : Workload) (live : gmap Ipv4Addr Mac) (now : Instant) (a : Acc)
    : Acc :=
  let due := unwrap_or (next_probe (row a)) now in
  let a := put (set_next_probe (row a) due) a in
  if now <? due then a
  else
    let '(interval, fault) := probe_interval (host a) (wl_uplink wl) in
    let a := put (set_next_probe (row a) (now + interval)) a in
    let a := report_ageing wl fault a in
    if bool_decide (live = ∅) then a
    else match w_mac (io (effs a)) (leg_ifname wl) with
         | Err e =>
             fail_costing wl CProbe
               ("cannot read the MAC of " ++ leg_ifname wl ++ " for the idle-VM probe: "
                  ++ display e) "no probe sent this cycle" a
         | Ok src => send_probes wl src live a
         end.

(** The body of [tick]'s loop, for one row. *)
Definition tick_row (v : View) (installed : bool) (r : WorkloadRow) (now : Instant) (a : Acc)
    : Acc :=
  let wl := wr_wl r in
  let '(live, a) := if installed then observe v wl a else (Some ∅, put (forget (row a)) a) in
  match live with
  | None => a
  | Some live =>
      let ifindex := unwrap_or (leg_ifindex (host a) (leg_ifname wl)) 0 in
      let '(h, wanted) := hd_observe (holddown (row a)) (dom live) now in
      let a := put (set_holddown (row a) h) a in
      let a := if installed then reconcile_membership wl wanted a else a in
      let engine_set := if installed then {[wr_addr r]} ∪ wanted else wanted in
      let a := ask_engine v wl ifindex engine_set a in
      let a := sync_set wl wanted a in
      if installed then maybe_probe wl live now a else a
  end.

(** What a tick threads: every row's state, the lines said, the actions taken. *)
Definition tick_one (v : View) (deferred : gset string) (now : Instant)
    (s : HostRoutes * list string * list Effect) (r : WorkloadRow)
    : HostRoutes * list string * list Effect :=
  let '(rows, lines, es) := s in
  let name := wl_name (wr_wl r) in
  let a := tick_row v (negb (bool_decide (name ∈ deferred))) r now
             (mk_acc (unwrap_or (rows !! name) row_default) lines es) in
  (<[name := row a]> rows, out a, effs a).

Definition tick (v : View) (now : Instant) (rows : HostRoutes)
    : HostRoutes * list string * list Effect :=
  let deferred := deferred_names (w_host (io [])) v in
  foldl (tick_one v deferred now) (rows, [], []) (workload_rows v).
End reconcile.

(** ** The hold-down against its specification *)

(** What the observations so far, newest first, say of an address: [None] when it is not held;
    [Some None] while it is live; [Some (Some t)] when [t] is the first observation that missed
    it since it was last live. *)
Fixpoint missed_since (addr : Ipv4Addr) (hist : list (gset Ipv4Addr * Instant))
    : option (option Instant) :=
  match hist with
  | [] => None
  | (live, now) :: older =>
      if bool_decide (addr ∈ live) then Some None
      else match missed_since addr older with
           | None => None
           | Some None => Some (Some now)
           | Some (Some t) => if now <? t + HOLDDOWN then Some (Some t) else None
           end
  end.

(** The hold-down after those observations. *)
Fixpoint hd_after (hist : list (gset Ipv4Addr * Instant)) : Holddown :=
  match hist with
  | [] => ∅
  | (live, now) :: older => (hd_observe (hd_after older) live now).1
  end.

Lemma holddown_pos : 0 < HOLDDOWN.
Proof. reflexivity. Qed.

Lemma hd_lookup h live now addr :
  (hd_observe h live now).1 !! addr =
  if bool_decide (addr ∈ live) then Some None
  else h !! addr ≫= λ due, let deadline := unwrap_or due (now + HOLDDOWN) in
                           if now <? deadline then Some (Some deadline) else None.
Proof.
  unfold hd_observe. cbn [fst].
  rewrite map_lookup_imap, lookup_union, lookup_gset_to_gmap. unfold keep. case_bool_decide as E.
  - rewrite option_guard_True by done. by destruct (h !! addr).
  - rewrite option_guard_False by done. by destruct (h !! addr).
Qed.

Lemma hd_wanted h live now : (hd_observe h live now).2 = dom (hd_observe h live now).1.
Proof. done. Qed.

Lemma elem_of_wanted h live now addr :
  addr ∈ (hd_observe h live now).2 ↔ is_Some ((hd_observe h live now).1 !! addr).
Proof. by rewrite hd_wanted, elem_of_dom. Qed.

Lemma hd_after_lookup hist addr :
  hd_after hist !! addr =
  fmap (M:=option) (fmap (M:=option) (λ t, t + HOLDDOWN)) (missed_since addr hist).
Proof.
  induction hist as [|[live now] older IH]; [done|].
  cbn [hd_after missed_since]. rewrite hd_lookup. case_bool_decide; [done|]. rewrite IH.
  pose proof holddown_pos.
  destruct (missed_since addr older) as [[t|]|]; cbn; [| |done].
  - by destruct (now <? t + HOLDDOWN).
  - by rewrite (proj2 (Z.ltb_lt now (now + HOLDDOWN))) by lia.
Qed.

(** Observations in the order they were made, newest first. *)
Definition in_order (hist : list (gset Ipv4Addr * Instant)) : Prop :=
  StronglySorted (λ newer older, older.2 ≤ newer.2) hist.

(** What "first missed at [t]" means of the observations themselves. *)
Lemma missed_since_Some addr hist t :
  missed_since addr hist = Some (Some t) →
  ∃ newer live older live', hist = (newer ++ (live, t) :: live' :: older)
    ∧ Forall (λ o, addr ∉ o.1) newer ∧ addr ∉ live ∧ addr ∈ live'.1.
Proof.
  induction hist as [|[live now] older IH]; cbn; [done|].
  case_bool_decide as E; [done|]. destruct (missed_since addr older) as [[t'|]|] eqn:M; [| |done].
  - destruct (now <? t' + HOLDDOWN); [|done]. intros [= ->].
    destruct (IH eq_refl) as (nw & l & o & l' & -> & Hn & Hl & Hl').
    exists ((live, now) :: nw), l, o, l'. repeat split; auto.
  - intros [= <-]. destruct older as [|[l' n'] o]; [done|].
    exists [], live, o, (l', n'). repeat split; auto. cbn in M |- *.
    case_bool_decide; [done|]. by destruct (missed_since addr o) as [[?|]|]; [case_match|..].
Qed.

(** The hold-down, whatever sequence of observations it is fed at times that do not go
    back: an address is wanted exactly when the last observation saw it, or when some
    observation saw it and fewer than [HOLDDOWN] have passed since the first one after that
    missed it. So an address is never dropped within [HOLDDOWN] of being seen, a return inside
    the window cancels the withdrawal, and one missed for that long is dropped by the first
    observation that is made. *)
Theorem holddown_is_time_missed hist live now addr :
  in_order ((live, now) :: hist) →
  (addr ∈ (hd_observe (hd_after hist) live now).2 ↔
   addr ∈ live ∨ ∃ newer first older seen,
     (live, now) :: hist = (newer ++ first :: seen :: older)
     ∧ addr ∈ seen.1 ∧ addr ∉ first.1 ∧ Forall (λ o, addr ∉ o.1) newer
     ∧ now < first.2 + HOLDDOWN).
Proof.
  intros Hord. rewrite elem_of_wanted.
  change (hd_observe (hd_after hist) live now).1 with (hd_after ((live, now) :: hist)).
  rewrite hd_after_lookup, fmap_is_Some. split.
  - intros [m Hm]. destruct m as [t|]; [right|left].
    + destruct (missed_since_Some addr _ t Hm) as (nw & l & o & l' & E & Hn & Hl & Hl').
      exists nw, (l, t), o, l'. repeat split; auto.
      cbn in Hm |- *. pose proof holddown_pos. case_bool_decide; [done|].
      destruct (missed_since addr hist) as [[t'|]|]; [|injection Hm as <-; lia|done].
      destruct (now <? t' + HOLDDOWN) eqn:L; [|done]. injection Hm as <-. by apply Z.ltb_lt.
    + cbn in Hm. case_bool_decide; [done|].
      by destruct (missed_since addr hist) as [[t'|]|]; [case_match|..].
  - intros [Hl|(nw & f & o & s & E & Hs & Hf & Hn & Hw)].
    { exists None. cbn. by rewrite bool_decide_true. }
    exists (Some f.2). rewrite E in Hord |- *.
    assert (Forall (λ x, x.2 < f.2 + HOLDDOWN) nw) as Hnow.
    { destruct nw as [|x nw]; [done|]. injection E as <- _. constructor; [done|].
      apply StronglySorted_inv in Hord as [_ Hall]. apply list.Forall_app in Hall as [Hall _].
      eapply list.Forall_impl; [exact Hall|]. intros [? ?]; cbn in *; lia. }
    clear E Hord Hw. induction Hn as [|[l n] nw Hx Hn IH]; cbn.
    + destruct f as [lf tf]. cbn in *. rewrite bool_decide_false by done.
      destruct s as [ls ts]. cbn in Hs |- *. by rewrite bool_decide_true.
    + apply list.Forall_cons in Hnow as [Hx' Hnow]. cbn in Hx, Hx'.
      rewrite bool_decide_false, IH by done. by rewrite (proj2 (Z.ltb_lt _ _)).
Qed.

(** ** The join *)

Lemma hex_val_ge acc s v : 0 ≤ acc → hex_val acc s = Some v → acc ≤ v.
Proof.
  revert acc. induction s as [|c s IH]; cbn; intros acc Ha; [intros [= ->]; lia|].
  destruct (hex_digit c) as [d|] eqn:E; [|done]. cbn.
  assert (0 ≤ d) by (revert E; unfold hex_digit, is_digit; repeat case_match;
    intros [= <-]; split_bools; lia).
  intros Hv%IH; lia.
Qed.

Lemma from_hex_byte s b : from_hex s = Some b → byte_ok b.
Proof.
  unfold from_hex. set (body := match s with String _ _ => _ | _ => _ end).
  destruct body as [|c s'] eqn:E; [done|]. destruct (hex_val 0 (String c s')) as [v|] eqn:H; [|done].
  cbn [mbind option_bind]. destruct (v <=? u8_max) eqn:L; [|done]. intros [= <-].
  apply hex_val_ge in H; [|done]. split_bools. unfold byte_ok, u8_max in *. lia.
Qed.

Lemma all_some_Some {A} (l : list (option A)) xs : all_some l = Some xs ↔ l = Some <$> xs.
Proof.
  revert xs. induction l as [|o l IH]; cbn; intros xs.
  - split; [intros [= <-]; done|]. by destruct xs.
  - destruct o as [x|]; cbn; [|split; [done|by destruct xs]].
    destruct (all_some l) as [ys|] eqn:E; cbn.
    + split; [intros [= <-]; cbn; f_equal; by apply IH|].
      destruct xs as [|x' xs]; [done|]. intros [= -> H]. apply IH in H. congruence.
    + split; [done|]. destruct xs as [|x' xs]; [done|]. intros [= -> H]. by apply IH in H.
Qed.

(** What a MAC parses to is six bytes. *)
Lemma parse_mac_ok s m : parse_mac s = Some m → length m = 6%nat ∧ bytes_ok m.
Proof.
  unfold parse_mac. destruct (length _ =? 6)%nat eqn:L; [|done]. apply Nat.eqb_eq in L.
  intros H. apply all_some_Some in H. split.
  - apply (f_equal length) in H. rewrite !length_fmap in H. congruence.
  - apply list.Forall_forall. intros b Hb.
    assert (Some b ∈ Some <$> m) as Hs by (apply list_elem_of_fmap; eauto).
    rewrite <-H in Hs. apply list_elem_of_fmap in Hs as (p & Hp & _).
    by apply (from_hex_byte p).
Qed.

Lemma foldl_insert_vm_lookup l m a b :
  foldl insert_vm m l !! a = Some b → (a, b) ∈ l ∨ m !! a = Some b.
Proof.
  revert m. induction l as [|[x y] l IH]; cbn; intros m H; [by right|].
  apply IH in H as [H|H]; [left; by right|].
  unfold insert_vm in H. cbn in H. apply lookup_insert_Some in H as [[-> ->]|[_ H]]; [left; left|by right].
Qed.

Lemma foldl_insert_vm_dom l m : dom (foldl insert_vm m l) = dom m ∪ list_to_set l.*1.
Proof.
  revert m. induction l as [|[x y] l IH]; cbn; intros m; [set_solver|].
  rewrite IH. unfold insert_vm. cbn [fst snd]. rewrite dom_insert_L. set_solver.
Qed.

(** A MAC that the bridge has seen on a port that is not one of its uplinks. *)
Definition on_local_port (fdb : list Value) (ports : list string) (mac : string) : Prop :=
  ∃ f fmac port, f ∈ fdb ∧ fdb_entry f = Some (fmac, port) ∧ port ∉ ports
                 ∧ to_ascii_lowercase fmac = to_ascii_lowercase mac.

Lemma elem_of_local_macs fdb ports mac :
  to_ascii_lowercase mac ∈ (list_to_set (omap (local_mac ports) fdb) : gset string)
  ↔ on_local_port fdb ports mac.
Proof.
  rewrite elem_of_list_to_set, list_elem_of_omap. unfold on_local_port, local_mac. split.
  - intros (f & Hf & E). destruct (fdb_entry f) as [[fm port]|] eqn:Ef; [|done]. cbn in E.
    case_bool_decide; [done|]. injection E as E. eauto 10.
  - intros (f & fm & port & Hf & E & Hp & Hm). exists f. split; [done|]. rewrite E. cbn.
    by rewrite bool_decide_false, Hm.
Qed.

(** A neighbour entry that is a VM of this host, at [a] with the MAC [b]. *)
Definition is_local_vm (v : View) (wl : Workload) (ports : list string) (fdb : list Value)
    (e : Value) (a : Ipv4Addr) (b : Mac) : Prop :=
  ∃ dst mac, as_str (index e "dst") = Some dst ∧ parse_addr dst = Some a
    ∧ contains (wl_prefix wl) a = true ∧ a ∉ fabric_addresses v wl ∧ resolved e = true
    ∧ as_str (index e "lladdr") = Some mac ∧ parse_mac mac = Some b ∧ on_local_port fdb ports mac.

Lemma vm_of_iff v wl ports fdb e a b :
  vm_of (list_to_set (omap (local_mac ports) fdb)) wl (fabric_addresses v wl) e = Some (a, b)
  ↔ is_local_vm v wl ports fdb e a b.
Proof.
  unfold vm_of, is_local_vm. split.
  - intros H. destruct (as_str (index e "dst")) as [dst|]; [|done]. cbn in H.
    destruct (parse_addr dst) as [a'|] eqn:Ea; [|done]. cbn in H.
    destruct (negb _ || _) eqn:G in H; [done|]. split_bools.
    destruct (resolved e) eqn:R; [|done]. cbn in H.
    destruct (as_str (index e "lladdr")) as [mac|] eqn:Em; [|done]. cbn in H.
    case_bool_decide as L; [|done]. destruct (parse_mac mac) as [b'|] eqn:Eb; [|done].
    injection H as -> ->. apply elem_of_local_macs in L. exists dst, mac. repeat split; auto.
  - intros (dst & mac & -> & Ea & Hc & Hx & Hr & Em & Hb & L). cbn. rewrite Ea. cbn.
    rewrite Hc, Hr, Em, (bool_decide_false _ Hx). cbn.
    apply elem_of_local_macs in L. by rewrite bool_decide_true, Hb.
Qed.

(** When the two documents are read at all. *)
Definition readable (from_str : string → option Value) (neigh_json fdb_json : string)
    (neigh fdb : list Value) : Prop :=
  from_str neigh_json = Some (Arr neigh) ∧ from_str fdb_json = Some (Arr fdb)
  ∧ (neigh = [] ∨ ∃ e, e ∈ neigh ∧ is_Some (as_str (index e "dst")))
  ∧ (fdb = [] ∨ ∃ e, e ∈ fdb ∧ is_Some (fdb_entry e)).

Lemma foreign_false {A} (read : Value → option A) l :
  foreign read l = false ↔ l = [] ∨ ∃ e, e ∈ l ∧ is_Some (read e).
Proof.
  unfold foreign. destruct l as [|x l]; [rewrite andb_false_r; split; auto|].
  rewrite andb_true_r. rewrite bool_decide_eq_false. split.
  - intros H. right. destruct (omap read (x :: l)) as [|y ys] eqn:E; [done|].
    assert (y ∈ omap read (x :: l)) as Hy by (rewrite E; left).
    apply list_elem_of_omap in Hy as (e & He & Hr). eauto.
  - intros [?|(e & He & [y Hy])]; [done|]. intros E.
    assert (y ∈ omap read (x :: l)) as Hi by (apply list_elem_of_omap; eauto).
    rewrite E in Hi. by apply not_elem_of_nil in Hi.
Qed.

Lemma local_vm_macs_Some from_str nj fj v wl ports live :
  local_vm_macs from_str nj fj v wl ports = Some live ↔
  ∃ neigh fdb, readable from_str nj fj neigh fdb ∧ live = join_vms neigh fdb v wl ports.
Proof.
  unfold local_vm_macs, readable. split.
  - intros H. destruct (from_str nj) as [[| | | |neigh|]|]; try done.
    all: destruct (from_str fj) as [[| | | |fdb|]|]; try done. cbn in H.
    destruct (foreign fdb_entry fdb) eqn:F; [done|].
    destruct (foreign _ neigh) eqn:N in H; [done|]. injection H as <-.
    apply foreign_false in F, N. eauto 10.
  - intros (neigh & fdb & (-> & -> & N & F) & ->). cbn.
    by rewrite (proj2 (foreign_false _ _) F), (proj2 (foreign_false _ _) N).
Qed.

Lemma elem_of_join_vms neigh fdb v wl ports a :
  a ∈ dom (join_vms neigh fdb v wl ports)
  ↔ ∃ e b, e ∈ neigh ∧ is_local_vm v wl ports fdb e a b.
Proof.
  unfold join_vms. rewrite foldl_insert_vm_dom, dom_empty_L, (left_id_L ∅ (∪)),
    elem_of_list_to_set, list_elem_of_fmap. split.
  - intros ([a' b] & -> & (e & He & H)%list_elem_of_omap). apply vm_of_iff in H. eauto.
  - intros (e & b & He & H%vm_of_iff). exists (a, b). split; [done|]. apply list_elem_of_omap. eauto.
Qed.

Lemma lookup_join_vms neigh fdb v wl ports a b :
  join_vms neigh fdb v wl ports !! a = Some b → ∃ e, e ∈ neigh ∧ is_local_vm v wl ports fdb e a b.
Proof.
  intros [H|H]%foldl_insert_vm_lookup; [|done].
  apply list_elem_of_omap in H as (e & He & H). apply vm_of_iff in H. eauto.
Qed.

(** The local VMs of a leg are exactly the join it asks for: an address in the row's
    prefix that the fabric does not own, that a resolved neighbour entry gives, whose MAC the
    bridge has seen on a port that is not an uplink. There is an answer exactly when both
    documents are JSON arrays that are empty or hold an entry of the shape read: a document
    that cannot be read is never "no VMs". *)
Theorem local_vms_iff from_str nj fj v wl ports :
  match local_vms from_str nj fj v wl ports with
  | Some s => ∃ neigh fdb, readable from_str nj fj neigh fdb
      ∧ ∀ a, a ∈ s ↔ ∃ e b, e ∈ neigh ∧ is_local_vm v wl ports fdb e a b
  | None => ¬ ∃ neigh fdb, readable from_str nj fj neigh fdb
  end.
Proof.
  unfold local_vms. destruct (local_vm_macs from_str nj fj v wl ports) as [live|] eqn:E; cbn.
  - apply local_vm_macs_Some in E as (neigh & fdb & Hr & ->). eauto using elem_of_join_vms.
  - intros (neigh & fdb & Hr).
    rewrite (proj2 (local_vm_macs_Some from_str nj fj v wl ports _)) in E by eauto. done.
Qed.

(** ** What a tick does, in order *)

(** [r'] is [r] but for the faults it has standing. *)
Definition same (r r' : Row) : Prop := ∃ s, r' = set_standing r s.

#[export] Instance same_preorder : PreOrder same.
Proof.
  split.
  - intros [h s w b p]. by exists s.
  - intros r ? ? [s ->] [s' ->]. by exists s'.
Qed.

(** [a'] is [a] after the actions [es], with the row the same. *)
Definition does (es : list Effect) (a a' : Acc) : Prop :=
  same (row a) (row a') ∧ effs a' = effs a ++ es.

Lemma does_nil a : does [] a a.
Proof. split; [done|]. by rewrite app_nil_r. Qed.

Lemma does_trans es es' a a' a'' : does es a a' → does es' a' a'' → does (es ++ es') a a''.
Proof. intros [? E] [? E']. split; [by etrans|]. by rewrite E', E, app_assoc. Qed.

Lemma does_act e a : does [e] a (act e a).
Proof. by split. Qed.

Lemma does_say c line a : does [] a (on_row (say_once c line) a).
Proof.
  unfold on_row, say_once. destruct (opt_eqb _ _); (split; cbn; [|by rewrite app_nil_r]); [done|].
  by eexists.
Qed.

Lemma does_recovered c name a : does [] a (on_row (recovered c name) a).
Proof.
  unfold on_row, recovered.
  destruct (standing (row a) !! c); (split; cbn; [|by rewrite app_nil_r]); [by eexists|done].
Qed.

Lemma does_fail wl c why cost a : does [] a (fail_costing wl c why cost a).
Proof. apply does_say. Qed.

#[export] Hint Resolve does_nil does_act does_say does_recovered does_fail : cfab.

(** One action, then lines: the shape of most of a tick's steps. *)
Lemma does_act_then e a a' : does [] (act e a) a' → does [e] a a'.
Proof. apply (does_trans [e] []), does_act. Qed.

Section effects.
Context (from_str : string → option Value) (io : list Effect → World).

Abbreviation host_at es := (w_host (io es)).

(** What [observe] reads, from the actions taken before it. *)
Definition reads (v : View) (wl : Workload) (es : list Effect) : option (gmap Ipv4Addr Mac) :=
  match identify_declared (host_at es) (wl_uplink wl) (wl_vid wl) with
  | Err _ => None
  | Ok up =>
      neigh ← run_optional (host_at es) (neigh_show wl);
      fdb ← (if output_ok neigh
             then run_optional (host_at (es ++ [Ran (neigh_show wl)])) (fdb_show wl) else None);
      if output_ok fdb
      then local_vm_macs from_str (stdout neigh) (stdout fdb) v wl (up_ports up) else None
  end.

Lemma observe_spec v wl a :
  (observe from_str io v wl a).1 = reads v wl (effs a)
  ∧ ∃ es, does es a (observe from_str io v wl a).2
      ∧ es `prefix_of` [Ran (neigh_show wl); Ran (fdb_show wl)]
      ∧ (is_Some (reads v wl (effs a)) → es = [Ran (neigh_show wl); Ran (fdb_show wl)]).
Proof.
  unfold observe, reads, run_optional, host.
  destruct (identify_declared _ _ _) as [up|]; cbn.
  2:{ split; [done|]. exists []. split; [auto with cfab|]. split; [apply prefix_nil|by intros []]. }
  destruct (h_run _ (neigh_show wl)) as [neigh|]; cbn.
  2:{ split; [done|]. eexists. split; [apply does_act|]. split; [by eexists|by intros []]. }
  destruct (output_ok neigh); cbn.
  2:{ split; [done|]. eexists. split; [apply does_act_then, does_fail|].
      split; [by eexists|by intros []]. }
  destruct (h_run _ (fdb_show wl)) as [fdb|]; cbn.
  2:{ split; [done|]. eexists. split; [eapply (does_trans [_] [_]); apply does_act|].
      split; [done|by intros []]. }
  destruct (output_ok fdb); cbn.
  2:{ split; [done|]. eexists.
      split; [eapply (does_trans [_] [_]); [apply does_act|apply does_act_then, does_fail]|].
      split; [done|by intros []]. }
  destruct (local_vm_macs _ _ _ _ _ _); cbn; (split; [done|]); eexists;
    (split; [eapply (does_trans [_] [_]); [apply does_act|];
             apply does_act_then; first [apply does_recovered|apply does_fail]|]);
    split; done.
Qed.

(** The neighbour entries of the VMs that left. *)
Definition departures (wl : Workload) (r : Row) (wanted : gset Ipv4Addr) : list Effect :=
  if seen_before r then (λ x, Ran (neigh_del wl x)) <$> sorted (last_wanted r ∖ wanted) else [].

Lemma fold_joined wl l a :
  row (foldl (say_joined wl) a l) = row a ∧ effs (foldl (say_joined wl) a l) = effs a.
Proof. revert a. induction l as [|x l IH]; cbn -[say_joined]; intros a; [done|].
  by destruct (IH (say_joined wl a x)) as [-> ->]. Qed.

Lemma fold_dropped wl l a :
  row (foldl (drop_neighbor io wl) a l) = row a
  ∧ effs (foldl (drop_neighbor io wl) a l) = effs a ++ ((λ x, Ran (neigh_del wl x)) <$> l).
Proof.
  revert a. induction l as [|x l IH]; cbn -[drop_neighbor]; intros a; [by rewrite app_nil_r|].
  destruct (IH (drop_neighbor io wl a x)) as [-> ->]. cbn. by rewrite <-app_assoc.
Qed.

Lemma reconcile_spec wl wanted a :
  row (reconcile_membership io wl wanted a) = baseline (row a) wanted
  ∧ effs (reconcile_membership io wl wanted a) = effs a ++ departures wl (row a) wanted.
Proof.
  unfold reconcile_membership, departures. destruct (seen_before (row a)); cbn.
  - destruct (fold_dropped wl (sorted (last_wanted (row a) ∖ wanted))
      (foldl (say_joined wl) (put (baseline (row a) wanted) a)
             (sorted (wanted ∖ last_wanted (row a))))) as [-> ->].
    destruct (fold_joined wl (sorted (wanted ∖ last_wanted (row a)))
      (put (baseline (row a) wanted) a)) as [-> ->]. done.
  - by rewrite app_nil_r.
Qed.

Lemma ask_spec v wl ifindex wanted a :
  does [Asked (sock_path (v_fabric v)) (ask_line wl ifindex wanted)] a
    (ask_engine from_str io v wl ifindex wanted a).
Proof.
  unfold ask_engine. cbn. destruct (engine_fault _ _ _ _) as [[why cost]|];
    apply does_act_then; auto with cfab.
Qed.

Definition moved (wl : Workload) (verb : string) (elems : list Ipv4Addr)
    : list Effect :=
  match elems with [] => [] | _ => [Ran (nft_element verb wl elems)] end.
Definition moved_ok (es : list Effect) (wl : Workload) (verb : string) (elems : list Ipv4Addr)
    : bool :=
  match elems with
  | [] => true
  | _ => exited_ok (h_run (host_at es) (nft_element verb wl elems))
  end.

(** The commands [sync_set] runs after its listing. *)
Definition set_moves (es : list Effect) (wl : Workload) (wanted : gset Ipv4Addr) : list Effect :=
  match held_elements from_str (h_run (host_at es) (nft_list wl)) with
  | None => []
  | Some held =>
      let es := es ++ [Ran (nft_list wl)] in
      let add := moved wl "add" (sorted (wanted ∖ held)) in
      if moved_ok es wl "add" (sorted (wanted ∖ held))
      then add ++ moved wl "delete" (sorted (held ∖ wanted)) else add
  end.

Lemma move_spec wl verb elems a :
  (move_elements io wl verb elems a).1 = moved_ok (effs a) wl verb elems
  ∧ does (moved wl verb elems) a (move_elements io wl verb elems a).2.
Proof.
  unfold move_elements, moved_ok, moved, host. destruct elems as [|x l]; cbn -[nft_element braces].
  { auto with cfab. }
  unfold host. destruct (exited_ok _); cbn -[nft_element braces]; (split; [done|]);
    [apply does_act|apply does_act_then, does_fail].
Qed.

Lemma sync_spec wl wanted a :
  does (Ran (nft_list wl) :: set_moves (effs a) wl wanted) a (sync_set from_str io wl wanted a).
Proof.
  unfold sync_set, set_moves. cbn [run_cmd]. unfold host.
  destruct (held_elements _ _) as [held|]; [|apply does_act_then, does_fail].
  pose proof (move_spec wl "add" (sorted (wanted ∖ held)) (act (Ran (nft_list wl)) a)) as [E1 D1].
  cbn [effs act] in E1, D1. rewrite <-E1.
  destruct (move_elements io wl "add" _ _) as [[] a1]; cbn [fst snd negb] in *.
  2:{ apply (does_trans [Ran (nft_list wl)] _ a (act (Ran (nft_list wl)) a)); [apply does_act|done]. }
  pose proof (move_spec wl "delete" (sorted (held ∖ wanted)) a1) as [E2 D2].
  apply (does_trans [Ran (nft_list wl)] _ a (act (Ran (nft_list wl)) a)); [apply does_act|].
  apply (does_trans _ _ _ a1); [done|].
  destruct (move_elements io wl "delete" _ a1) as [[] a2]; cbn [fst snd negb] in *; [|done].
  rewrite <-(app_nil_r (moved _ _ _)). eapply does_trans; [done|apply does_recovered].
Qed.
End effects.

(** ** One row's tick *)

Section row_tick.
Context (from_str : string → option Value) (io : list Effect → World).

Abbreviation host_at es := (w_host (io es)).
Abbreviation reads := (reads from_str io).
Abbreviation set_moves := (set_moves from_str io).

(** The row's next probe cycle, and the frames of this one. *)
Definition next_due (es : list Effect) (wl : Workload) (now : Instant) (r : Row) : Instant :=
  let due := unwrap_or (next_probe r) now in
  if now <? due then due else now + (probe_interval (host_at es) (wl_uplink wl)).1.

Definition probe_frame (wl : Workload) (src : Mac) (vm : Ipv4Addr * Mac) : Effect :=
  Sent (leg_ifname wl) (unicast_probe src vm.2 (wl_gw wl) vm.1).

Definition probes (es : list Effect) (wl : Workload) (live : gmap Ipv4Addr Mac) (now : Instant)
    (r : Row) : list Effect :=
  if (now <? unwrap_or (next_probe r) now) || bool_decide (live = ∅) then []
  else match w_mac (io es) (leg_ifname wl) with
       | Err _ => []
       | Ok src => probe_frame wl src <$> btree_iter Z.leb live
       end.

Lemma fold_probes wl src l n err a :
  does (probe_frame wl src <$> l) a (foldl (probe_one io wl src) (n, err, a) l).2.
Proof.
  revert n err a. induction l as [|vm l IH]; intros n err a; [apply does_nil|].
  change (probe_frame wl src <$> vm :: l)
    with ([probe_frame wl src vm] ++ (probe_frame wl src <$> l)).
  eapply does_trans; [apply does_act|]. cbn -[unicast_probe].
  destruct (w_send _ _ _); apply IH.
Qed.

Lemma send_probes_spec wl src live a :
  does (probe_frame wl src <$> btree_iter Z.leb live) a (send_probes io wl src live a).
Proof.
  unfold send_probes.
  pose proof (fold_probes wl src (btree_iter Z.leb live) 0%nat None a) as D.
  destruct (foldl _ _ _) as [[n err] a']. cbn [snd] in D.
  rewrite <-(app_nil_r (fmap _ _)). eapply does_trans; [exact D|].
  destruct (0 <? n)%nat; auto with cfab.
Qed.

Lemma report_ageing_spec wl fault a : does [] a (report_ageing wl fault a).
Proof. destruct fault; cbn; auto with cfab. Qed.

Lemma maybe_probe_spec wl live now a :
  same (set_next_probe (row a) (next_due (effs a) wl now (row a))) (row (maybe_probe io wl live now a))
  ∧ effs (maybe_probe io wl live now a) = effs a ++ probes (effs a) wl live now (row a).
Proof.
  unfold maybe_probe, next_due, probes, host. cbn [effs put row].
  destruct (now <? unwrap_or (next_probe (row a)) now); cbn [orb]; [by rewrite app_nil_r|].
  destruct (probe_interval _ _) as [interval fault]. cbn [fst].
  set (a1 := put _ (put _ a)).
  assert (effs a1 = effs a) as E1 by done.
  assert (row a1 = set_next_probe (row a) (now + interval)) as R1 by done.
  destruct (report_ageing_spec wl fault a1) as [S2 E2]. rewrite app_nil_r, E1 in E2.
  rewrite <-R1. clearbody a1. set (a2 := report_ageing wl fault a1) in *. clearbody a2.
  case_bool_decide; [split; [done|by rewrite app_nil_r]|]. rewrite E2.
  destruct (w_mac _ _) as [src|e].
  - destruct (send_probes_spec wl src live a2) as [S3 E3]. split; [by etrans|]. by rewrite E3, E2.
  - rewrite app_nil_r. destruct (does_fail wl CProbe ("cannot read the MAC of " ++ leg_ifname wl
      ++ " for the idle-VM probe: " ++ display e) "no probe sent this cycle" a2) as [S3 E3].
    split; [by etrans|]. by rewrite E3, app_nil_r.
Qed.

(** Everything an installed row whose reads succeed does in one tick, after the actions [es]. *)
Definition reading (wl : Workload) : list Effect := [Ran (neigh_show wl); Ran (fdb_show wl)].

Definition asking (v : View) (wl : Workload) (es : list Effect) (wanted : gset Ipv4Addr)
    : list Effect :=
  let ifindex := unwrap_or (leg_ifindex (host_at es) (leg_ifname wl)) 0 in
  [Asked (sock_path (v_fabric v)) (ask_line wl ifindex wanted)].

Definition syncing (wl : Workload) (es : list Effect) (wanted : gset Ipv4Addr) : list Effect :=
  Ran (nft_list wl) :: set_moves es wl wanted.

(** The link index is read before the departures are deleted. *)
Definition row_effects (v : View) (r : WorkloadRow) (now : Instant) (live : gmap Ipv4Addr Mac)
    (wanted : gset Ipv4Addr) (st : Row) (es : list Effect) : list Effect :=
  let wl := wr_wl r in
  let es1 := es ++ reading wl in
  let es2 := es1 ++ departures wl st wanted in
  let es3 := es2 ++ asking v wl es1 ({[wr_addr r]} ∪ wanted) in
  let es4 := es3 ++ syncing wl es3 wanted in
  es4 ++ probes es4 wl live now st.

Lemma tick_row_read v r now a live :
  reads v (wr_wl r) (effs a) = Some live →
  let wl := wr_wl r in
  let hd := hd_observe (holddown (row a)) (dom live) now in
  let a' := tick_row from_str io v true r now a in
  (∃ s due, row a' = mk_row hd.1 s hd.2 true (Some due)
     ∧ (due = unwrap_or (next_probe (row a)) now ∧ now < due
        ∨ unwrap_or (next_probe (row a)) now ≤ now ∧ now + PERIOD ≤ due))
  ∧ effs a' = row_effects v r now live hd.2 (row a) (effs a).
Proof.
  intros Hr wl hd a'. unfold a', tick_row. fold wl in Hr |- *.
  destruct (observe_spec from_str io v wl a) as (E & es & [Ss Es] & _ & Hes).
  rewrite Hr in E, Hes. specialize (Hes (mk_is_Some _ _ eq_refl)) as ->.
  destruct (observe from_str io v wl a) as [o a1]. cbn [fst snd] in *. subst o.
  assert (holddown (row a1) = holddown (row a) ∧ seen_before (row a1) = seen_before (row a)
          ∧ last_wanted (row a1) = last_wanted (row a) ∧ next_probe (row a1) = next_probe (row a))
    as (H1 & H2 & H3 & H4) by (destruct Ss as [s ->]; done).
  rewrite H1. fold hd. destruct hd as [h wanted]. cbn [fst snd].
  unfold row_effects, departures. fold wl. rewrite <-H2, <-H3. fold (departures wl (row a1) wanted).
  unfold host. rewrite Es. fold (reading wl).
  set (a2 := put _ a1). assert (effs a2 = effs a1 ∧ row a2 = set_holddown (row a1) h) as [E2 R2] by done.
  clearbody a2. destruct (reconcile_spec io wl wanted a2) as [R3 E3].
  replace (departures wl (row a2) wanted) with (departures wl (row a1) wanted) in E3 by by rewrite R2.
  set (a3 := reconcile_membership io wl wanted a2) in *. clearbody a3.
  set (ifindex := unwrap_or (leg_ifindex _ (leg_ifname wl)) 0).
  destruct (ask_spec from_str io v wl ifindex ({[wr_addr r]} ∪ wanted) a3) as [S4 E4].
  set (a4 := ask_engine _ _ _ _ _ _ a3) in *. clearbody a4.
  destruct (sync_spec from_str io wl wanted a4) as [S5 E5].
  set (a5 := sync_set _ _ _ _ a4) in *. clearbody a5.
  destruct (maybe_probe_spec wl live now a5) as [S6 E6].
  set (a6 := maybe_probe _ _ _ _ a5) in *. clearbody a6.
  assert (same (baseline (set_holddown (row a1) h) wanted) (row a5)) as S.
  { rewrite <-R2, <-R3. by etrans. }
  destruct S as [s S]. destruct S6 as [s' S6]. rewrite S in S6.
  assert (probes (effs a5) wl live now (row a5) = probes (effs a5) wl live now (row a)) as Hp.
  { unfold probes. by rewrite S, <-H4. }
  split.
  - exists s', (next_due (effs a5) wl now (row a5)). rewrite S6, S. split; [done|].
    unfold next_due. cbn [next_probe set_standing baseline set_holddown]. rewrite H4.
    destruct (now <? unwrap_or (next_probe (row a)) now) eqn:L; split_bools; [by left|right].
    split; [done|]. unfold probe_interval. case_match; cbn [fst]; lia.
  - rewrite E6, Hp, E5, E4, E3, E2, Es. unfold asking, syncing. fold ifindex.
    fold (reading wl). rewrite <-!app_assoc. done.
Qed.

Lemma tick_row_unread v r now a :
  reads v (wr_wl r) (effs a) = None →
  let a' := tick_row from_str io v true r now a in
  same (row a) (row a')
  ∧ ∃ es, effs a' = effs a ++ es ∧ es `prefix_of` reading (wr_wl r).
Proof.
  intros Hr a'. unfold a', tick_row.
  destruct (observe_spec from_str io v (wr_wl r) a) as (E & es & [Ss Es] & Hp & _).
  rewrite Hr in E. destruct (observe from_str io v (wr_wl r) a) as [o a1].
  cbn [fst snd] in *. subst o. eauto.
Qed.

Lemma tick_row_deferred v r now a :
  let wl := wr_wl r in
  let a' := tick_row from_str io v false r now a in
  same (forget (row a)) (row a')
  ∧ effs a' = effs a ++ asking v wl (effs a) ∅
              ++ syncing wl (effs a ++ asking v wl (effs a) ∅) ∅.
Proof.
  intros wl a'. unfold a', tick_row. fold wl. cbn [put row effs holddown forget].
  assert (hd_observe ∅ (dom (∅ : gmap Ipv4Addr Mac)) now = (∅, ∅)) as ->.
  { assert ((hd_observe ∅ (dom (∅ : gmap Ipv4Addr Mac)) now).1 = ∅) as E.
    { apply map_eq. intros x. by rewrite hd_lookup, bool_decide_false by set_solver. }
    unfold hd_observe in *. cbn [fst] in E. rewrite E. by rewrite dom_empty_L. }
  set (a2 := put _ _). assert (effs a2 = effs a ∧ row a2 = forget (row a)) as [E2 R2] by done.
  unfold asking, host. change (effs (put (forget (row a)) a)) with (effs a).
  set (ifindex := unwrap_or (leg_ifindex _ (leg_ifname wl)) 0). clearbody a2.
  destruct (ask_spec from_str io v wl ifindex ∅ a2) as [S4 E4].
  set (a4 := ask_engine _ _ _ _ _ _ a2) in *. clearbody a4.
  destruct (sync_spec from_str io wl ∅ a4) as [S5 E5].
  rewrite R2 in S4. split; [by etrans|]. rewrite E5, E4, E2.
  unfold syncing. by rewrite <-!app_assoc.
Qed.
End row_tick.

(** ** The nftables set *)

(** What the two commands do to the set nft holds: the elements their text lists are those its
    words parse to. *)
Definition element_of (word : string) : option Ipv4Addr := head (split ","%char word) ≫= parse_addr.
Definition braced (text : string) : list Ipv4Addr := omap element_of (split " "%char text).

Definition nft_exec (held : gset Ipv4Addr) (e : Effect) : gset Ipv4Addr :=
  match e with
  | Ran [_; verb; _; _; _; _; text] =>
      if String.eqb verb "add" then held ∪ list_to_set (braced text)
      else if String.eqb verb "delete" then held ∖ list_to_set (braced text)
      else held
  | _ => held
  end.

Lemma show_addr_free d a :
  addr_ok a → is_digit d = false → Ascii.eqb "."%char d = false → free_of d (show_addr a) = true.
Proof.
  intros Ha Hd Hdot. pose proof (octets_ok a Ha) as Ho. unfold octets in Ho.
  apply list.Forall_cons in Ho as [H1 Ho]. apply list.Forall_cons in Ho as [H2 Ho].
  apply list.Forall_cons in Ho as [H3 Ho]. apply list.Forall_cons in Ho as [H4 _].
  assert (Hf : ∀ n, byte_ok n → free_of d (show n) = true).
  { intros n Hn. apply digits_free_of; [done|]. apply show_digits. unfold byte_ok in Hn. lia. }
  assert (free_of d "." = true) as Hp by (unfold free_of; cbn -[Ascii.eqb]; by rewrite Hdot).
  unfold show_addr. rewrite !free_of_app, !Hp, !Hf by done. done.
Qed.

Lemma element_of_last a : addr_ok a → element_of (show_addr a) = Some a.
Proof.
  intros Ha. unfold element_of. rewrite split_free by by apply show_addr_free.
  by apply parse_addr_show.
Qed.

Lemma element_of_comma a : addr_ok a → element_of (show_addr a ++ ",") = Some a.
Proof.
  intros Ha. unfold element_of. rewrite split_join by by apply show_addr_free.
  by apply parse_addr_show.
Qed.

Lemma braced_concat a l :
  Forall addr_ok (a :: l) →
  braced (String.concat ", " (show_addr <$> a :: l) ++ " }") = a :: l.
Proof.
  revert a. induction l as [|b l IH]; intros a Ha; apply list.Forall_cons in Ha as [Ha Hl].
  - cbn [fmap list_fmap String.concat]. unfold braced.
    change (show_addr a ++ " }")%string with (show_addr a ++ String " " "}")%string.
    rewrite split_join by by apply show_addr_free. cbn [omap list_omap].
    by rewrite element_of_last.
  - change (String.concat ", " (show_addr <$> a :: b :: l))
      with (show_addr a ++ (", " ++ String.concat ", " (show_addr <$> b :: l)))%string.
    rewrite !str_app_assoc.
    change (", " ++ ?s)%string with (String "," (String " " s)).
    rewrite <-(str_app_char ","%char), <-str_app_assoc. unfold braced.
    rewrite split_join.
    2:{ rewrite free_of_app, show_addr_free by done. done. }
    cbn [omap list_omap]. rewrite element_of_comma by done. f_equal. by apply IH.
Qed.

Lemma braced_braces l : Forall addr_ok l → braced (braces l) = l.
Proof.
  intros Hl. unfold braces. destruct l as [|a l]; [by vm_compute|].
  transitivity (braced (String.concat ", " (show_addr <$> a :: l) ++ " }")); [|by apply braced_concat].
  reflexivity.
Qed.

Lemma sorted_elem (s : gset Ipv4Addr) x : x ∈ sorted s ↔ x ∈ s.
Proof. apply elem_of_btree_set_iter. Qed.

Lemma sorted_set (s : gset Ipv4Addr) : list_to_set (sorted s) = s.
Proof. apply set_eq. intros x. by rewrite elem_of_list_to_set, sorted_elem. Qed.

Lemma nft_exec_moved wl verb l held :
  Forall addr_ok l → verb = "add" ∨ verb = "delete" →
  foldl nft_exec held (moved wl verb l)
  = if String.eqb verb "add" then held ∪ list_to_set l else held ∖ list_to_set l.
Proof.
  intros Hl Hv. destruct l as [|a l].
  { cbn. destruct (String.eqb verb "add"); set_solver. }
  cbn [moved foldl nft_exec nft_element]. rewrite braced_braces by done.
  by destruct Hv as [->| ->].
Qed.

Lemma parse_set_elements_ok from_str json s a :
  parse_set_elements from_str json = Some s → a ∈ s → addr_ok a.
Proof.
  unfold parse_set_elements. intros H Ha.
  apply bind_Some in H as (doc & _ & H). apply bind_Some in H as (items & _ & H).
  apply bind_Some in H as (set & _ & H). injection H as <-.
  apply elem_of_list_to_set, list_elem_of_omap in Ha as (e & _ & He).
  apply bind_Some in He as (t & _ & He). by apply parse_addr_ok in He.
Qed.

Lemma held_elements_ok from_str r s a :
  held_elements from_str r = Some s → a ∈ s → addr_ok a.
Proof.
  unfold held_elements. destruct r as [o|]; [|done]. destruct (output_ok o); [|done].
  apply parse_set_elements_ok.
Qed.

(** When nft answers the listing with [held] and takes the commands it is given, running
    those commands on [held] leaves exactly the wanted set: only the difference is moved,
    additions before deletions, and nothing is run when nft already holds it. When the listing
    cannot be read nothing is run, and when the addition is refused the deletion is not. *)
Theorem sync_set_moves_held_to_wanted from_str io es wl wanted
    (Hwanted : ∀ a, a ∈ wanted → addr_ok a) :
  let moves := set_moves from_str io es wl wanted in
  match held_elements from_str (h_run (w_host (io es)) (nft_list wl)) with
  | None => moves = []
  | Some held =>
      let add := moved wl "add" (sorted (wanted ∖ held)) in
      (held = wanted → moves = [])
      ∧ (moved_ok io (es ++ [Ran (nft_list wl)]) wl "add" (sorted (wanted ∖ held)) = true →
         foldl nft_exec held moves = wanted)
      ∧ (moved_ok io (es ++ [Ran (nft_list wl)]) wl "add" (sorted (wanted ∖ held)) = false →
         moves = add ∧ foldl nft_exec held moves = held ∪ wanted)
  end.
Proof.
  cbn zeta. unfold set_moves.
  destruct (held_elements _ _) as [held|] eqn:Hh; [|done].
  assert (Forall addr_ok (sorted (wanted ∖ held)) ∧ Forall addr_ok (sorted (held ∖ wanted)))
    as [Ha Hd].
  { split; apply list.Forall_forall; intros x Hx%sorted_elem;
      [apply Hwanted|eapply held_elements_ok; [exact Hh|]]; set_solver. }
  split; [|split].
  - intros ->. assert (sorted (wanted ∖ wanted) = []) as ->.
    { by rewrite difference_diag_L. }
    done.
  - intros ->. rewrite foldl_app, !nft_exec_moved, !sorted_set by auto. cbn.
    apply set_eq. intros x. destruct (decide (x ∈ held)), (decide (x ∈ wanted)); set_solver.
  - intros ->. split; [done|]. rewrite nft_exec_moved, sorted_set by auto. cbn.
    apply set_eq. intros x. destruct (decide (x ∈ held)); set_solver.
Qed.

(** ** A row over time *)

Section history.
Context (from_str : string → option Value) (v : View) (r : WorkloadRow).
Local Abbreviation wl := (wr_wl r).

(** The row's step in one tick, after the actions [es] of the rows before it. *)
Definition row_step (io : list Effect → World) (installed : bool) (now : Instant) (es : list Effect)
    (lines : list string) (st : Row) : Acc :=
  tick_row from_str io v installed r now (mk_acc st lines es).
Definition did (es : list Effect) (a : Acc) : list Effect := drop (length es) (effs a).

Definition is_sent (e : Effect) : bool := match e with Sent _ _ => true | _ => false end.

Definition is_delete (e : Effect) : bool :=
  match e with Ran ("ip" :: "neigh" :: "del" :: _) => true | _ => false end.

Definition is_asked (e : Effect) : bool := match e with Asked _ _ => true | _ => false end.

(** What the row's past observations become. *)
Definition observed (io : list Effect → World) (installed : bool) (now : Instant)
    (es : list Effect) (hist : list (gset Ipv4Addr * Instant)) :=
  if installed then
    match reads from_str io v wl es with Some live => (dom live, now) :: hist | None => hist end
  else [].

(** [reached st hist probed t]: some ticks at times that do not go back, the last at [t],
    leave the row at [st]; [hist] is what they observed since the row was last deferred, newest
    first, and [probed] when one of them last sent a probe. The host answers anything. *)
Inductive reached : Row → list (gset Ipv4Addr * Instant) → option Instant → Instant → Prop :=
| reached_start t : reached row_default [] None t
| reached_tick st hist probed t io installed now es lines :
    reached st hist probed t → t ≤ now →
    reached (row (row_step io installed now es lines st))
            (observed io installed now es hist)
            (if any is_sent (did es (row_step io installed now es lines st)) then Some now else probed)
            now.

(** What a tick of the row does, whatever its reads answered. *)
Lemma row_step_cases io installed now es lines st :
  let a' := row_step io installed now es lines st in
  (∃ live, installed = true ∧ reads from_str io v wl es = Some live
     ∧ (∃ s due, row a' = mk_row (hd_observe (holddown st) (dom live) now).1 s
                           (hd_observe (holddown st) (dom live) now).2 true (Some due)
          ∧ (due = unwrap_or (next_probe st) now ∧ now < due
             ∨ unwrap_or (next_probe st) now ≤ now ∧ now + PERIOD ≤ due))
     ∧ ∃ es1 es2 es3, did es a' =
         reading wl ++ departures wl st (hd_observe (holddown st) (dom live) now).2
         ++ asking io v wl es1 ({[wr_addr r]} ∪ (hd_observe (holddown st) (dom live) now).2)
         ++ syncing from_str io wl es2 (hd_observe (holddown st) (dom live) now).2
         ++ probes io es3 wl live now st)
  ∨ (installed = true ∧ reads from_str io v wl es = None ∧ same st (row a')
     ∧ did es a' `prefix_of` reading wl)
  ∨ (installed = false ∧ same (forget st) (row a')
     ∧ did es a' = asking io v wl es ∅ ++ syncing from_str io wl (es ++ asking io v wl es ∅) ∅).
Proof.
  unfold row_step, did. set (a := mk_acc st lines es). destruct installed.
  - destruct (reads from_str io v wl es) as [live|] eqn:E.
    + left. exists live. destruct (tick_row_read from_str io v r now a live E) as [R F].
      split; [done|]. split; [done|]. split; [exact R|]. rewrite F.
      unfold row_effects. rewrite <-!app_assoc, drop_app_length. eauto.
    + right; left. destruct (tick_row_unread from_str io v r now a E) as (S & es' & F & P).
      rewrite F. by rewrite drop_app_length.
  - right; right. destruct (tick_row_deferred from_str io v r now a) as [S F].
    rewrite F. cbn [effs]. by rewrite drop_app_length.
Qed.

(** The invariant that ties the row's state to what was observed. *)
Record row_inv (st : Row) (hist : list (gset Ipv4Addr * Instant)) (probed : option Instant)
    (t : Instant) : Prop := {
  ri_holddown : holddown st = hd_after hist;
  ri_wanted : last_wanted st = dom (holddown st);
  ri_order : in_order hist;
  ri_past : Forall (λ o, o.2 ≤ t) hist;
  ri_probed : ∀ tp, probed = Some tp → ∃ due, next_probe st = Some due ∧ tp + PERIOD ≤ due
}.

Lemma no_sent l : Forall (λ e, is_sent e = false) l → any is_sent l = false.
Proof. rewrite list.Forall_forall. intros H. by apply any_false. Qed.

Lemma reading_not_sent l : l `prefix_of` reading wl → any is_sent l = false.
Proof.
  intros [k E]. apply no_sent. assert (Forall (λ e, is_sent e = false) (l ++ k)) as H.
  { rewrite <-E. by repeat constructor. }
  by apply list.Forall_app in H as [? _].
Qed.

Lemma syncing_not_sent io es wanted : Forall (λ e, is_sent e = false) (syncing from_str io wl es wanted).
Proof.
  unfold syncing, set_moves, moved. constructor; [done|]. repeat case_match;
    rewrite ?list.Forall_app; repeat constructor.
Qed.

Lemma departures_not_sent st wanted : Forall (λ e, is_sent e = false) (departures wl st wanted).
Proof.
  unfold departures. case_match; [|constructor]. apply list.Forall_forall.
  intros e (x & -> & _)%list_elem_of_fmap. done.
Qed.

Lemma sent_is_probe io es live now st leg frame :
  Sent leg frame ∈ probes io es wl live now st →
  unwrap_or (next_probe st) now ≤ now ∧ leg = leg_ifname wl
  ∧ ∃ src addr mac, w_mac (io es) leg = Ok src ∧ live !! addr = Some mac
      ∧ frame = unicast_probe src mac (wl_gw wl) addr.
Proof.
  unfold probes. intros H. destruct (now <? _) eqn:L; [by apply not_elem_of_nil in H|].
  split_bools. split; [done|]. cbn [orb] in H. case_bool_decide; [by apply not_elem_of_nil in H|].
  destruct (w_mac _ _) as [src|] eqn:M; [|by apply not_elem_of_nil in H].
  apply list_elem_of_fmap in H as ([addr mac] & [= -> ->] & Hl).
  apply elem_of_btree_iter in Hl. eauto 10.
Qed.

(** A tick that sent a frame read a full set, and sent to its members. *)
Lemma did_sent io installed now es lines st leg frame :
  Sent leg frame ∈ did es (row_step io installed now es lines st) →
  installed = true ∧ unwrap_or (next_probe st) now ≤ now ∧ leg = leg_ifname wl
  ∧ ∃ live src addr mac, reads from_str io v wl es = Some live ∧ live !! addr = Some mac
      ∧ (∃ es', w_mac (io es') leg = Ok src) ∧ frame = unicast_probe src mac (wl_gw wl) addr.
Proof.
  intros H. assert (∀ l, any is_sent l = false → Sent leg frame ∉ l) as Hno.
  { intros l Hl Hin. apply any_false with (x := Sent leg frame) in Hl; done. }
  destruct (row_step_cases io installed now es lines st)
    as [(live & -> & Hr & _ & es1 & es2 & es3 & E)|[(-> & _ & _ & P)|(-> & _ & E)]].
  - rewrite E, !elem_of_app in H. destruct H as [H|[H|[H|[H|H]]]].
    + exfalso. by apply (Hno _ (reading_not_sent _ (reflexivity _))) in H.
    + exfalso. by apply (Hno _ (no_sent _ (departures_not_sent st _))) in H.
    + apply list_elem_of_singleton in H. done.
    + exfalso. by apply (Hno _ (no_sent _ (syncing_not_sent io es2 _))) in H.
    + apply sent_is_probe in H as (Hd & -> & src & addr & mac & Hm & Hl & ->).
      split_and!; [done..|]. eauto 10.
  - exfalso. by apply (Hno _ (reading_not_sent _ P)) in H.
  - exfalso. rewrite E in H. apply elem_of_app in H as [H|H].
    + apply list_elem_of_singleton in H. done.
    + by apply (Hno _ (no_sent _ (syncing_not_sent io _ ∅))) in H.
Qed.

Lemma any_is_sent l : any is_sent l = true → ∃ leg frame, Sent leg frame ∈ l.
Proof. intros ([| |leg frame] & H & E)%any_true; try done. eauto. Qed.

Lemma reached_inv st hist probed t : reached st hist probed t → row_inv st hist probed t.
Proof.
  pose proof holddown_pos as Hpos. unfold HOLDDOWN in Hpos.
  induction 1 as [t|st hist probed t io installed now es lines _ IH Ht].
  { split; try done; constructor. }
  destruct IH as [Hh Hw Ho Hp Hd].
  assert (Forall (λ o, o.2 ≤ now) hist) as Hp'.
  { eapply list.Forall_impl; [exact Hp|]. cbn. lia. }
  destruct (row_step_cases io installed now es lines st)
    as [(live & -> & Hr & (s & due & E & Hdue) & _)|[(-> & Hr & S & P)|(-> & S & E)]].
  - unfold observed. rewrite Hr, E. split; cbn [holddown last_wanted next_probe].
    + cbn [hd_after]. by rewrite Hh.
    + done.
    + by constructor.
    + constructor; [cbn; lia|done].
    + intros tp Htp. exists due. split; [done|]. destruct (any is_sent _) eqn:A.
      * injection Htp as <-. apply any_is_sent in A as (leg & frame & A%did_sent).
        destruct A as (_ & L & _). destruct Hdue as [[-> ?]|[_ ?]]; lia.
      * destruct (Hd tp Htp) as (d & Ed & ?). rewrite Ed in Hdue. cbn in Hdue.
        destruct Hdue as [[-> _]|[? ?]]; lia.
  - unfold observed. rewrite Hr, (reading_not_sent _ P). destruct S as [s ->].
    split; cbn [holddown last_wanted next_probe set_standing]; auto.
  - rewrite E. rewrite no_sent.
    2:{ apply list.Forall_app. split; [by repeat constructor|apply syncing_not_sent]. }
    destruct S as [s ->]. split; cbn [holddown last_wanted next_probe set_standing forget]; try done;
      try constructor; auto.
Qed.

(** The commands of a tick that delete a neighbour are its departures. *)
Lemma did_delete io installed now es lines st rest :
  Ran ("ip" :: "neigh" :: "del" :: rest) ∈ did es (row_step io installed now es lines st) →
  ∃ live addr, rest = [show_addr addr; "dev"; leg_ifname wl]
    ∧ reads from_str io v wl es = Some live
    ∧ addr ∈ last_wanted st ∖ (hd_observe (holddown st) (dom live) now).2.
Proof.
  intros H. assert (∀ l, Forall (λ e, is_delete e = false) l
                         → Ran ("ip" :: "neigh" :: "del" :: rest) ∉ l) as Hno.
  { intros l Hl Hin. rewrite list.Forall_forall in Hl. by apply Hl in Hin. }
  assert (∀ es' wanted, Forall (λ e, is_delete e = false) (syncing from_str io wl es' wanted)) as Hs.
  { intros es' wanted. unfold syncing, set_moves, moved. constructor; [done|].
    repeat case_match; rewrite ?list.Forall_app; repeat constructor. }
  assert (Forall (λ e, is_delete e = false) (reading wl)) as Hread by by repeat constructor.
  destruct (row_step_cases io installed now es lines st)
    as [(live & -> & Hr & _ & es1 & es2 & es3 & E)|[(-> & _ & _ & [k P])|(-> & _ & E)]].
  - rewrite E, !elem_of_app in H. destruct H as [H|[H|[H|[H|H]]]].
    + by apply (Hno _ Hread) in H.
    + unfold departures in H. destruct (seen_before st); [|by apply not_elem_of_nil in H].
      apply list_elem_of_fmap in H as (addr & [= ->] & Ha%sorted_elem). eauto.
    + by apply list_elem_of_singleton in H.
    + by apply (Hno _ (Hs _ _)) in H.
    + exfalso. unfold probes in H. repeat case_match; try by apply not_elem_of_nil in H.
      by apply list_elem_of_fmap in H as (? & ? & _).
  - exfalso. rewrite P in Hread. apply list.Forall_app in Hread as [Hread _].
    by apply (Hno _ Hread) in H.
  - exfalso. rewrite E in H. apply elem_of_app in H as [H|H].
    + by apply list_elem_of_singleton in H.
    + by apply (Hno _ (Hs _ _)) in H.
Qed.

(** C35. A VM's neighbour entry is deleted, and its /32 and its set element leave the wanted
    set, only by a tick that read the whole set, and only when some earlier tick saw it, the
    first one after that to read the set missed it, none since has seen it, and at least
    [HOLDDOWN] has passed since it was first missed, whatever reads failed in between. Every
    [ip neigh del] the reconcile runs is one of these, on the row's own leg. *)
Theorem neighbor_deleted_only_after_holddown st hist probed t io installed now es lines rest
    (Hreached : reached st hist probed t) (Hlater : t ≤ now)
    (Hdel : Ran ("ip" :: "neigh" :: "del" :: rest) ∈ did es (row_step io installed now es lines st)) :
  ∃ live addr newer first seen older,
    rest = [show_addr addr; "dev"; leg_ifname wl]
    ∧ reads from_str io v wl es = Some live
    ∧ (dom live, now) :: hist = newer ++ first :: seen :: older
    ∧ addr ∈ seen.1 ∧ Forall (λ o, addr ∉ o.1) (newer ++ [first])
    ∧ first.2 + HOLDDOWN ≤ now.
Proof.
  apply did_delete in Hdel as (live & addr & -> & Hr & [Hin Hout]%elem_of_difference).
  destruct (reached_inv _ _ _ _ Hreached) as [Hh Hw _ _ _].
  rewrite Hw, Hh, elem_of_dom, hd_after_lookup, fmap_is_Some in Hin. destruct Hin as [m Hm].
  rewrite elem_of_wanted, Hh, hd_lookup in Hout. case_bool_decide as Hlive; [by destruct Hout|].
  rewrite hd_after_lookup, Hm in Hout. cbn in Hout. pose proof holddown_pos.
  destruct m as [t'|]; cbn in Hout.
  2:{ destruct Hout. by rewrite (proj2 (Z.ltb_lt now (now + HOLDDOWN))) by lia. }
  destruct (now <? t' + HOLDDOWN) eqn:L; [by destruct Hout|]. split_bools.
  destruct (missed_since_Some addr hist t' Hm) as (nw & l & o & l' & -> & Hn & Hl & Hl').
  exists live, addr, ((dom live, now) :: nw), (l, t'), l', o. split_and!; try done.
  apply list.Forall_app. split; [by constructor|by repeat constructor].
Qed.

(** The idle-VM probe: every frame sent is a unicast ARP request, from the leg's own MAC, on
    the leg, to a VM the same tick's reads found live, at the MAC they gave; and two ticks that
    send are at least [PERIOD] apart. *)
Theorem probes_are_spaced_and_live st hist probed t io installed now es lines leg frame
    (Hreached : reached st hist probed t) (Hlater : t ≤ now)
    (Hsent : Sent leg frame ∈ did es (row_step io installed now es lines st)) :
  leg = leg_ifname wl
  ∧ (∃ live src addr mac es', reads from_str io v wl es = Some live ∧ live !! addr = Some mac
       ∧ w_mac (io es') leg = Ok src ∧ frame = unicast_probe src mac (wl_gw wl) addr)
  ∧ ∀ tp, probed = Some tp → tp + PERIOD ≤ now.
Proof.
  apply did_sent in Hsent as (_ & Hdue & Hleg & live & src & addr & mac & Hr & Hl & (es' & Hm) & Hf).
  split; [done|]. split; [eauto 15|]. intros tp Htp.
  destruct (ri_probed _ _ _ _ (reached_inv _ _ _ _ Hreached) tp Htp) as (due & E & Hd).
  rewrite E in Hdue. cbn in Hdue. lia.
Qed.

(** One tick tells the engine the whole set, once: the addresses the row's observations
    hold, and this member's own leg address, in order, with the leg's link index. A row
    deferred asks for none of them, and a row that could not read asks for nothing, so what the
    engine holds then stands. *)
Theorem engine_asked_for_what_was_observed st hist probed t io installed now es lines
    (Hreached : reached st hist probed t) (Hlater : t ≤ now) :
  let asked := List.filter is_asked (did es (row_step io installed now es lines st)) in
  if installed && negb (is_some_and (reads from_str io v wl es) (λ _, true)) then asked = []
  else ∃ ifindex,
    asked = [Asked (sock_path (v_fabric v)) (ask_line wl ifindex
               (if installed
                then {[wr_addr r]} ∪ dom (hd_after (observed io installed now es hist))
                else ∅))].
Proof.
  cbn zeta. destruct (reached_inv _ _ _ _ Hreached) as [Hh _ _ _ _].
  assert (∀ l, Forall (λ e, is_asked e = false) l → List.filter is_asked l = []) as Hno.
  { induction 1 as [|e l He _ IH]; [done|]. cbn. by rewrite He. }
  assert (∀ es' wanted, Forall (λ e, is_asked e = false) (syncing from_str io wl es' wanted)) as Hs.
  { intros es' wanted. unfold syncing, set_moves, moved. constructor; [done|].
    repeat case_match; rewrite ?list.Forall_app; repeat constructor. }
  assert (Forall (λ e, is_asked e = false) (reading wl)) as Hread by by repeat constructor.
  destruct (row_step_cases io installed now es lines st)
    as [(live & -> & Hr & _ & es1 & es2 & es3 & E)|[(-> & Hr & _ & [k P])|(-> & _ & E)]].
  - unfold observed. rewrite Hr, E. cbn [is_some_and andb negb hd_after].
    rewrite <-Hh, <-hd_wanted, !List.filter_app, (Hno _ Hread), (Hno _ (Hs _ _)).
    rewrite (Hno (departures _ _ _)), (Hno (probes _ _ _ _ _ _)); [cbn; eauto|..].
    + unfold probes. repeat case_match; try constructor. apply list.Forall_forall.
      intros e (? & -> & _)%list_elem_of_fmap. done.
    + unfold departures. case_match; [|constructor]. apply list.Forall_forall.
      intros e (? & -> & _)%list_elem_of_fmap. done.
  - rewrite Hr. cbn [is_some_and andb negb]. apply Hno. rewrite P in Hread.
    by apply list.Forall_app in Hread as [? _].
  - cbn [andb]. rewrite E, List.filter_app, (Hno _ (Hs _ _)). cbn. eauto.
Qed.
End history.

(** ** Failed reads, and the whole tick *)

Definition row_name (r : WorkloadRow) : string := wl_name (wr_wl r).
Definition row_of (rows : HostRoutes) (r : WorkloadRow) : Row := unwrap_or (rows !! row_name r) row_default.

(** At most one line, and only when it is not the line already standing. *)
Definition says_once (c : Cond) (a a' : Acc) : Prop :=
  out a' = out a ∨ ∃ line, out a' = out a ++ [line]
    ∧ standing (row a) !! c ≠ Some line ∧ standing (row a') !! c = Some line.

Lemma fail_says_once wl c why cost a : says_once c a (fail_costing wl c why cost a).
Proof.
  unfold says_once, fail_costing, on_row, say_once, opt_eqb. case_bool_decide; cbn.
  - left. by rewrite app_nil_r.
  - right. eexists. split; [done|]. split; [done|]. by rewrite lookup_insert_eq.
Qed.

Lemma observe_failed from_str io v wl a :
  (observe from_str io v wl a).1 = None → says_once CRead a (observe from_str io v wl a).2.
Proof.
  unfold observe. intros H. destruct (identify_declared _ _ _); [|by left].
  cbn [run_cmd] in H |- *. destruct (h_run _ (neigh_show wl)) as [neigh|]; [|by left].
  destruct (output_ok neigh); cbn [negb] in H |- *; [|apply (fail_says_once _ _ _ _ (act _ a))].
  destruct (h_run _ (fdb_show wl)) as [fdb|]; [|by left].
  destruct (output_ok fdb); cbn [negb] in H |- *; [|apply (fail_says_once _ _ _ _ (act _ (act _ a)))].
  destruct (local_vm_macs _ _ _ _ _ _); [done|]. apply (fail_says_once _ _ _ _ (act _ (act _ a))).
Qed.

(** A tick whose reads fail costs that tick and nothing else: the hold-down, the wanted set
    and the probe's due time are as they were; nothing is asked of the engine, moved in nft,
    deleted or sent (the only actions are the reads); and it says at most one line, none at all
    when that line is already standing, so a fault that lasts is said once. *)
Theorem failed_read_withdraws_nothing from_str v r io now es lines st
    (Hfailed : reads from_str io v (wr_wl r) es = None) :
  let a' := row_step from_str v r io true now es lines st in
  same st (row a') ∧ did es a' `prefix_of` reading (wr_wl r)
  ∧ says_once CRead (mk_acc st lines es) a'.
Proof.
  cbn zeta. unfold did, row_step. set (a := mk_acc st lines es).
  destruct (tick_row_unread from_str io v r now a Hfailed) as (S & es' & F & P).
  split; [exact S|]. split; [by rewrite F, drop_app_length|].
  unfold tick_row. destruct (observe_spec from_str io v (wr_wl r) a) as [E _].
  pose proof (observe_failed from_str io v (wr_wl r) a) as Ho. rewrite E in Ho.
  cbn [effs a] in E, Ho. rewrite Hfailed in E, Ho.
  destruct (observe from_str io v (wr_wl r) a) as [o a1]. cbn [fst snd] in *. subst o. by apply Ho.
Qed.

Section ticks.
Context (from_str : string → option Value) (v : View).

Lemma tick_one_step io deferred now rows lines es r :
  tick_one from_str io v deferred now (rows, lines, es) r =
  let a := row_step from_str v r io (negb (bool_decide (row_name r ∈ deferred))) now es lines
             (row_of rows r) in
  (<[row_name r := row a]> rows, out a, effs a).
Proof. done. Qed.

(** Every row's state is one its own ticks reach. *)
Definition rows_reached (l : list WorkloadRow) (rows : HostRoutes) (t : Instant) : Prop :=
  ∀ r, r ∈ l → ∃ hist probed, reached from_str v r (row_of rows r) hist probed t.

Lemma tick_fold io deferred t now l rows lines es :
  t ≤ now → NoDup (row_name <$> l) → rows_reached l rows t →
  let s := foldl (tick_one from_str io v deferred now) (rows, lines, es) l in
  rows_reached l s.1.1 now ∧ ∀ name, name ∉ row_name <$> l → s.1.1 !! name = rows !! name.
Proof.
  intros Ht. revert rows lines es. induction l as [|r l IH]; intros rows lines es Hnd Hr.
  { split; [|done]. intros r Hin. by apply not_elem_of_nil in Hin. }
  rewrite fmap_cons in Hnd. apply list.NoDup_cons in Hnd as [Hn Hnd].
  cbn [foldl]. rewrite tick_one_step. cbn zeta.
  set (a := row_step _ _ _ _ _ _ _ _ _).
  destruct (IH (<[row_name r := row a]> rows) (out a) (effs a) Hnd) as [H1 H2].
  { intros r' Hr'. unfold row_of. rewrite lookup_insert_ne.
    - apply Hr. by right.
    - intros E. apply Hn. rewrite E. apply list_elem_of_fmap. eauto. }
  cbn zeta in H1, H2. set (s := foldl _ _ _) in *. split.
  - intros r' [->|Hr']%elem_of_cons; [|by apply H1].
    unfold row_of. rewrite H2, lookup_insert_eq by done. cbn [unwrap_or].
    destruct (Hr r ltac:(left)) as (hist & probed & Hreach).
    eexists _, _. eapply reached_tick; [exact Hreach|done].
  - intros name Hname. rewrite fmap_cons, not_elem_of_cons in Hname. destruct Hname as [Hne Hname].
    rewrite H2 by done. by rewrite lookup_insert_ne.
Qed.

(** From rows that start empty, every tick of [HostRoutes] leaves every row in a state its own
    ticks reach, whatever the other rows do, so what holds of a row's history holds of it in
    the whole reconcile. *)
Lemma tick_rows_reached io t now rows :
  t ≤ now → NoDup (row_name <$> workload_rows v) → rows_reached (workload_rows v) rows t →
  rows_reached (workload_rows v) (tick from_str io v now rows).1.1 now.
Proof. intros Ht Hnd Hr. by apply (tick_fold _ _ t). Qed.

Lemma empty_rows_reached t : rows_reached (workload_rows v) ∅ t.
Proof. intros r _. eexists [], None. unfold row_of. rewrite lookup_empty. constructor. Qed.
End ticks.

(** ** One VM that comes and goes *)

Module Rack.
Definition view : View := Derive.Sample.view.
Definition vms : WorkloadRow :=
  {| wr_wl := Derive.Sample.vms; wr_address := "192.168.0.2/24"; wr_addr := 3232235522 |}.
Definition vm : Ipv4Addr := 3232235570.
Definition vm_mac : Mac := [2; 207; 171; 0; 0; 1].

(** The documents, by the name this host gives them. *)
Definition from_str (s : string) : option Value :=
  assoc_get
    [("neigh", Arr [Obj [("dst", Str "192.168.0.50"); ("lladdr", Str "02:cf:AB:00:00:01");
                         ("state", Arr [Str "STALE"])];
                    Obj [("dst", Str "fe80::1")];
                    Obj [("dst", Str "192.168.0.1"); ("lladdr", Str "02:cf:ab:00:00:01");
                         ("state", Arr [Str "REACHABLE"])]]);
     ("none", Arr []);
     ("fdb", Arr [Obj [("mac", Str "02:CF:ab:00:00:01"); ("ifname", Str "tap1")];
                  Obj [("mac", Str "02:cf:ab:00:00:09"); ("ifname", Str "eth0")]]);
     ("set", Obj [("nftables", Arr [Obj [("set", Obj [("elem", Arr [Str "192.168.0.9"])])]])]);
     ("ok", Obj [])] s.

Definition output (s : string) : result Error Output :=
  Ok {| status := 0; stdout := s; stderr := EmptyString |}.

Definition answer (neigh : string) (argv : list string) : result Error Output :=
  match argv with
  | "ip" :: "-j" :: _ => output neigh
  | "bridge" :: _ => output "fdb"
  | "nft" :: "-j" :: _ => output "set"
  | _ => output EmptyString
  end.

(** The host with that neighbour document; [ports] are its bridge's. *)
Definition world (ports : list string) (neigh : string) : World :=
  {| w_host := {| h_run := answer neigh;
                  h_read _ := Err (Fatal "no such file");
                  h_exists p := String.eqb p "/sys/class/net/eth0/device";
                  h_is_writable _ := true;
                  h_list_dir p := if String.eqb p "/sys/class/net/eth2/brif/" then Ok ports else Ok [];
                  h_read_link _ := Err (Fatal "no such link") |};
     w_request _ _ := Ok "ok"%string;
     w_mac _ := Ok [2; 0; 0; 0; 0; 2];
     w_send _ _ := Ok tt |}.
Definition seen (_ : list Effect) : World := world ["eth0"; "tap1"] "neigh".
Definition gone (_ : list Effect) : World := world ["eth0"; "tap1"] "none".
Definition unplugged (_ : list Effect) : World := world ["tap1"] "neigh".

Definition step (io : list Effect → World) (now : Instant) (st : Row) : Acc :=
  row_step from_str view vms io true now [] [] st.

(** Seen at 0, missed at 1, 2 and 7 seconds: the third miss is past the hold-down. *)
Definition st0 : Row := row (step seen 0 row_default).
Definition st1 : Row := row (step gone (from_secs 1) st0).
Definition st2 : Row := row (step gone (from_secs 2) st1).

Example seen_is_local :
  local_vms from_str "neigh" "fdb" view (wr_wl vms) ["eth0"] = Some {[vm]}.
Proof. vm_compute. done. Qed.

Example first_tick :
  did [] (step seen 0 row_default) =
  [Ran (neigh_show (wr_wl vms)); Ran (fdb_show (wr_wl vms));
   Asked "/run/cfab/engine.sock" (ask_line (wr_wl vms) 0 {[3232235522; vm]});
   Ran (nft_list (wr_wl vms));
   Ran (nft_element "add" (wr_wl vms) [vm]); Ran (nft_element "delete" (wr_wl vms) [3232235529]);
   probe_frame (wr_wl vms) [2; 0; 0; 0; 0; 2] (vm, vm_mac)].
Proof. vm_compute. done. Qed.

Example held_while_damped : last_wanted st2 = {[vm]}.
Proof. vm_compute. done. Qed.

Definition after (io : list Effect → World) (now : Instant)
    (hist : list (gset Ipv4Addr * Instant)) : list (gset Ipv4Addr * Instant) :=
  observed from_str view vms io true now [] hist.
Definition hist0 := after seen 0 [].
Definition hist1 := after gone (from_secs 1) hist0.
Definition hist2 := after gone (from_secs 2) hist1.

Lemma step_reached io now st hist probed t :
  reached from_str view vms st hist probed t → t ≤ now →
  ∃ probed', probed' = (if any is_sent (did [] (step io now st)) then Some now else probed)
    ∧ reached from_str view vms (row (step io now st)) (after io now hist) probed' now.
Proof.
  intros H Ht. eexists. split; [done|].
  exact (reached_tick from_str view vms st hist probed t io true now [] [] H Ht).
Defined.

Lemma reached_st0 : ∃ probed, probed = Some 0 ∧ reached from_str view vms st0 hist0 probed 0.
Proof.
  destruct (step_reached seen 0 row_default [] None 0 (reached_start _ _ _ 0) ltac:(lia))
    as (probed & E & H).
  exists probed. split; [|exact H]. by rewrite E; vm_compute.
Defined.

Lemma reached_st2 : ∃ probed, reached from_str view vms st2 hist2 probed (from_secs 2).
Proof.
  destruct reached_st0 as (p0 & _ & H0).
  destruct (step_reached gone (from_secs 1) st0 hist0 p0 0 H0 ltac:(by vm_compute)) as (p1 & _ & H1).
  destruct (step_reached gone (from_secs 2) st1 hist1 p1 _ H1 ltac:(by vm_compute)) as (p2 & _ & H2).
  exists p2. exact H2.
Defined.
End Rack.

Lemma holddown_witness :
  Rack.vm ∈ (hd_observe (hd_after [({[Rack.vm]}, 0)]) ∅ (from_secs 1)).2 ↔
   Rack.vm ∈ (∅ : gset Ipv4Addr) ∨ ∃ newer first older seen,
     ((∅, from_secs 1) :: [({[Rack.vm]}, 0)] : list (gset Ipv4Addr * Instant))
       = (newer ++ first :: seen :: older)
     ∧ Rack.vm ∈ seen.1 ∧ Rack.vm ∉ first.1 ∧ Forall (λ o, Rack.vm ∉ o.1) newer
     ∧ from_secs 1 < first.2 + HOLDDOWN.
Proof.
  apply (holddown_is_time_missed [({[Rack.vm]}, 0)] ∅ (from_secs 1) Rack.vm).
  unfold in_order. repeat constructor. by vm_compute.
Defined.

Lemma sync_set_witness :
  foldl nft_exec {[3232235529]} (set_moves Rack.from_str Rack.seen [] Derive.Sample.vms {[Rack.vm]})
  = {[Rack.vm]}.
Proof.
  assert (∀ a, a ∈ ({[Rack.vm]} : gset Ipv4Addr) → addr_ok a) as H.
  { intros a ->%elem_of_singleton. unfold addr_ok. by vm_compute. }
  pose proof (sync_set_moves_held_to_wanted Rack.from_str Rack.seen [] Derive.Sample.vms
    {[Rack.vm]} H) as S. cbn zeta in S.
  replace (held_elements Rack.from_str _) with (Some ({[3232235529]} : gset Ipv4Addr)) in S
    by (vm_compute; done).
  destruct S as (_ & S & _). apply S. by vm_compute.
Defined.

Lemma neighbor_deleted_witness :
  let del := ["192.168.0.50"; "dev"; leg_ifname Derive.Sample.vms] in
  Ran ("ip" :: "neigh" :: "del" :: del)
    ∈ did [] (Rack.step Rack.gone (from_secs 7) Rack.st2)
  ∧ ∃ live addr newer first seen older,
      del = [show_addr addr; "dev"; leg_ifname Derive.Sample.vms]
      ∧ reads Rack.from_str Rack.gone Rack.view Derive.Sample.vms [] = Some live
      ∧ (dom live, from_secs 7) :: Rack.hist2 = newer ++ first :: seen :: older
      ∧ addr ∈ seen.1 ∧ Forall (λ o, addr ∉ o.1) (newer ++ [first])
      ∧ first.2 + HOLDDOWN ≤ from_secs 7.
Proof.
  assert (Ran ("ip" :: "neigh" :: "del" :: ["192.168.0.50"; "dev"; leg_ifname Derive.Sample.vms])
    ∈ did [] (Rack.step Rack.gone (from_secs 7) Rack.st2)) as H.
  { apply list_elem_of_In. vm_compute. tauto. }
  split; [exact H|]. destruct Rack.reached_st2 as [probed Hr].
  apply (neighbor_deleted_only_after_holddown Rack.from_str Rack.view Rack.vms Rack.st2 Rack.hist2
    probed (from_secs 2) Rack.gone true (from_secs 7) [] [] _ Hr); [by vm_compute|exact H].
Defined.

Lemma probes_witness :
  let leg := leg_ifname Derive.Sample.vms in
  let frame := unicast_probe [2; 0; 0; 0; 0; 2] Rack.vm_mac (wl_gw Derive.Sample.vms) Rack.vm in
  Sent leg frame ∈ did [] (Rack.step Rack.seen (from_secs 200) Rack.st0)
  ∧ 0 + PERIOD ≤ from_secs 200.
Proof.
  cbn zeta. assert (Sent (leg_ifname Derive.Sample.vms)
    (unicast_probe [2; 0; 0; 0; 0; 2] Rack.vm_mac (wl_gw Derive.Sample.vms) Rack.vm)
    ∈ did [] (Rack.step Rack.seen (from_secs 200) Rack.st0)) as H.
  { apply list_elem_of_In. vm_compute. tauto. }
  split; [exact H|]. destruct Rack.reached_st0 as (probed & Hp & Hr).
  apply (probes_are_spaced_and_live Rack.from_str Rack.view Rack.vms Rack.st0
    _ probed 0 Rack.seen true (from_secs 200) [] [] _ _ Hr ltac:(by vm_compute) H); exact Hp.
Defined.

Lemma engine_asked_witness :
  ∃ ifindex, List.filter is_asked (did [] (Rack.step Rack.gone (from_secs 7) Rack.st2))
  = [Asked (sock_path Derive.Sample.fabric) (ask_line Derive.Sample.vms ifindex
       ({[3232235522]} ∪ dom (hd_after (Rack.after Rack.gone (from_secs 7) Rack.hist2))))].
Proof.
  destruct Rack.reached_st2 as [probed Hr].
  pose proof (engine_asked_for_what_was_observed Rack.from_str Rack.view Rack.vms Rack.st2
    Rack.hist2 probed (from_secs 2) Rack.gone true (from_secs 7) [] [] Hr ltac:(by vm_compute)) as H.
  cbn zeta in H.
  replace (true && negb (is_some_and
    (reads Rack.from_str Rack.gone Rack.view (wr_wl Rack.vms) []) (λ _, true))) with false in H
    by (by vm_compute).
  exact H.
Defined.

Lemma failed_tick_witness :
  did [] (Rack.step Rack.unplugged (from_secs 1) Rack.st0) `prefix_of` reading Derive.Sample.vms.
Proof.
  apply (failed_read_withdraws_nothing Rack.from_str Rack.view Rack.vms Rack.unplugged (from_secs 1)
    [] [] Rack.st0).
  by vm_compute.
Defined.
