(* ===== verification/Rules.v ===== *)
(** The routing rules, routes and netdevs the imperative commands share
    (src/src/commands/common.rs): the [ip rule]s and defaults cfab owns, the reads that prove
    them present, and the reconcile of the pins that keep the host's own addresses on its floor.

    Every function that takes [&mut dyn Sys] is an [IO] of [Sys]. *)
From Stdlib Require Import Ascii String.
From S2P Require Import Prelude Text Sys Net Fabric Derive EngineState.
Local Open Scope Z_scope.
Local Open Scope cmd_scope.

Definition HOST_DEFAULT_TABLE : string := "250".
Definition PROTO_BASE : Z := 201.
Definition CFAB_PROTO : Z := 205.
Definition CFAB_DEFAULT_PROTO : Z := 206.

Record FabricRule := { pref : string; needle : string; add : list string }.

Definition zone_blk (z : Zone) : string := (block_of z ++ ".0.0/16")%string.

(** [needle] is the words of [add] but for the table where [ip rule show] may name it. *)
Definition words (l : list string) : string := String.concat " " l.

(** Whether an [ip -br addr] listing names exactly this address. *)
Definition has_ip_addr (out cidr : string) : bool := bool_decide (cidr ∈ split_whitespace out).

Definition workload_return_rule (blk : string) (w : Workload) : FabricRule :=
  let prefix := prefix_show (wl_prefix w) in
  {| pref := "2000"; needle := words ["from"; blk; "to"; prefix; "lookup"; "main"];
     add := ["from"; blk; "to"; prefix; "lookup"; "main"] |}.

Definition workload_return_rules (v : View) : list FabricRule :=
  z ← f_zones (v_fabric v);
  workload_return_rule (zone_blk z) <$>
    List.filter (λ w, bool_decide (z_name z ∈ wl_allow w)) (f_workloads (v_fabric v)).

Definition leak_guard_rules (v : View) : list FabricRule :=
  z ← f_zones (v_fabric v);
  let blk := zone_blk z in
  [{| pref := "1000"; needle := words ["to"; blk; "iif"; "lo"; "lookup"; "main"];
      add := ["to"; blk; "iif"; "lo"; "lookup"; "main"] |};
   {| pref := "1001"; needle := words ["to"; blk; "unreachable"];
      add := ["to"; blk; "unreachable"] |}].

Definition return_path_rules (v : View) : list FabricRule :=
  let siblings := workload_return_rules v in
  z ← f_zones (v_fabric v);
  let blk := zone_blk z in
  let id := show (z_id z) in
  [{| pref := "2000";
      needle := words ["from"; blk; "to"; blk; "lookup"; "main"; "suppress_prefixlength"; "0"];
      add := ["from"; blk; "to"; blk; "lookup"; "main"; "suppress_prefixlength"; "0"] |}]
  ++ List.filter (λ r, starts_with ("from " ++ blk ++ " to ")%string (needle r)) siblings
  ++ [{| pref := "2001"; needle := words ["from"; blk; "lookup"; id];
         add := ["from"; blk; "lookup"; id] |};
      {| pref := "2002"; needle := words ["from"; blk; "unreachable"];
         add := ["from"; blk; "unreachable"] |}].

(** ** Reads and idempotent writes of one object *)

Definition rule_show (pref : string) : list string := ["ip"; "rule"; "show"; "pref"; pref].
Definition rule_add (pref : string) (tail : list string) : list string :=
  ["ip"; "rule"; "add"; "pref"; pref] ++ tail.
Definition rule_del (pref : string) (tail : list string) : list string :=
  ["ip"; "rule"; "del"; "pref"; pref] ++ tail.

Definition fabric_rule_present (r : FabricRule) : IO bool :=
  shown <~ exec (rule_show (pref r)) ;; ret (has_substring (needle r) (stdout shown)).

Definition ensure_rule (pref needle : string) (add : list string) : IO unit :=
  shown <~ exec (rule_show pref) ;;
  if has_substring needle (stdout shown) then ret tt
  else must (rule_add pref add) >>~ ret tt.
Definition ensure_fabric_rule (r : FabricRule) : IO unit := ensure_rule (pref r) (needle r) (add r).

(** [drop_rules] loops until the rule is gone. [fuel] bounds the rounds and [still_there] is
    what the model answers when it runs out, which is no answer of the source:
    [drop_rules_ends] bounds the rounds by the number of rules there are. *)
Definition still_there : Error := Fatal "drop_rules has not ended".
Fixpoint drop_rules (fuel : nat) (pref needle : string) (del : list string) : IO unit :=
  match fuel with
  | O => throw still_there
  | S fuel' =>
      shown <~ exec (rule_show pref) ;;
      if has_substring needle (stdout shown)
      then must (rule_del pref del) >>~ drop_rules fuel' pref needle del
      else ret tt
  end.
Definition drop_fabric_rule (fuel : nat) (r : FabricRule) : IO unit :=
  drop_rules fuel (pref r) (needle r) (add r).

Definition link_show (dev : string) : list string := ["ip"; "link"; "show"; dev].
Definition link_show_d (dev : string) : list string := ["ip"; "-d"; "link"; "show"; dev].
Definition link_exists (dev : string) : IO bool := out <~ exec (link_show dev) ;; ret (output_ok out).
Definition link_kind_is (dev marker : string) : IO bool :=
  out <~ exec (link_show_d dev) ;; ret (output_ok out && has_substring marker (stdout out)).

Definition CONF : string := "/proc/sys/net/ipv4/conf".
Definition conf_path (ifname key : string) : string := (CONF ++ "/" ++ ifname ++ "/" ++ key)%string.
Definition proc_sysctl (ifname key value : string) : IO unit := write (conf_path ifname key) value.
Definition conf_interfaces : IO (list string) :=
  r <~ look (λ h, h_list_dir h CONF) ;; lift r.

(** ** Defaults *)

Record GwReturnDefault := { rd_table : string; rd_via : string; rd_dev : string }.

Definition rd_argv (d : GwReturnDefault) (verb : string) : list string :=
  ["ip"; "route"; verb; "default"; "via"; rd_via d; "dev"; rd_dev d; "table"; rd_table d; "proto";
   show CFAB_PROTO].

(** Both kinds of default are present by their router. *)
Definition default_present (table via : string) : IO bool :=
  out <~ exec ["ip"; "route"; "show"; "table"; table; "default"] ;;
  ret (has_substring ("default via " ++ via) (stdout out)).
Definition rd_present (d : GwReturnDefault) : IO bool := default_present (rd_table d) (rd_via d).
Definition rd_install (d : GwReturnDefault) : IO unit := must (rd_argv d "replace") >>~ ret tt.

Definition gw_return_defaults (f : Fabric) (rows : list GwRow) : list GwReturnDefault :=
  omap (λ r, match zone f (gr_zone r) with
             | Ok z => (λ gw, {| rd_table := show (z_id z); rd_via := gw_router gw;
                                 rd_dev := gr_ifname r |}) <$> z_gw z
             | Err _ => None
             end) rows.

Record HostDefault := { hd_table : string; hd_via : string; hd_dev : string; hd_src : string }.

Definition hd_argv (d : HostDefault) (verb : string) : list string :=
  ["ip"; "route"; verb; "default"; "via"; hd_via d; "dev"; hd_dev d; "src"; hd_src d; "table";
   hd_table d; "proto"; show CFAB_DEFAULT_PROTO].
Definition hd_present (d : HostDefault) : IO bool := default_present (hd_table d) (hd_via d).
Definition hd_install (d : HostDefault) : IO unit := must (hd_argv d "replace") >>~ ret tt.
Definition hd_withdraw (d : HostDefault) : IO unit :=
  there <~ hd_present d ;;
  if there then must (hd_argv d "del") >>~ ret tt else ret tt.

(** [cidr.split('/').next()?]: the first piece, which there always is. *)
Definition before_slash (s : string) : string := unwrap_or (head (split "/"%char s)) EmptyString.

Definition host_default (v : View) (rows : list GwRow) : option HostDefault :=
  r ← head rows;
  match zone (v_fabric v) (gr_zone r) with
  | Err _ => None
  | Ok z =>
      gw ← z_gw z;
      Some {| hd_table := HOST_DEFAULT_TABLE; hd_via := gw_router gw; hd_dev := gr_ifname r;
              hd_src := before_slash (leg_cidr gw (m_node (v_member v))) |}
  end.

Definition floor_rule (addr : string) : FabricRule :=
  {| pref := "2099"; needle := words ["from"; addr; "iif"; "lo"; "lookup"; "main"];
     add := ["from"; addr; "iif"; "lo"; "lookup"; "main"] |}.

Definition workload_lookup_rules (prefix : string) : list FabricRule :=
  [{| pref := "2102";
      needle := words ["from"; prefix; "lookup"; "main"; "suppress_prefixlength"; "0"];
      add := ["from"; prefix; "lookup"; "main"; "suppress_prefixlength"; "0"] |};
   {| pref := "2103"; needle := words ["from"; prefix];
      add := ["from"; prefix; "lookup"; HOST_DEFAULT_TABLE] |}].

Definition lookup_rules : list FabricRule :=
  [{| pref := "2100";
      needle := words ["from"; "all"; "iif"; "lo"; "lookup"; "main"; "suppress_prefixlength"; "0"];
      add := ["from"; "all"; "iif"; "lo"; "lookup"; "main"; "suppress_prefixlength"; "0"] |};
   {| pref := "2101"; needle := words ["from"; "all"; "iif"; "lo"];
      add := ["from"; "all"; "iif"; "lo"; "lookup"; HOST_DEFAULT_TABLE] |}].

Definition host_default_rules (v : View) (rows : list GwRow) (floor_addrs : list string)
    : list FabricRule :=
  match host_default v rows with
  | None => []
  | Some _ =>
      (floor_rule <$> floor_addrs) ++ lookup_rules
        ++ (row ← workload_rows v; workload_lookup_rules (prefix_show (wl_prefix (wr_wl row))))
  end.

(** ** The floor: the host's own default and the addresses it keeps on main *)

Record FloorDefault := { fl_via : string; fl_dev : string }.

Definition u16_of (s : string) : option Z := parse_uint 65535 s.

Definition is_fabric_proto (tok : string) : bool :=
  bool_decide (tok ∈ ["ospf"; "cfab-ospf"; "cfab-static"; "cfab-bgp"; "cfab-other"; "cfab-return";
                      "cfab-default"])
  || match u16_of tok with
     | Some n => (n =? 110) || ((PROTO_BASE <=? n) && (n <=? CFAB_DEFAULT_PROTO))
     | None => false
     end.

(** The word after the first [key]. *)
Definition after_key (key : string) (w : list string) : option string :=
  i ← position (String.eqb key) w; w !! S i.

Definition floor_of_line (line : string) : option FloorDefault :=
  let w := split_whitespace line in
  if negb (opt_eqb (head w) (Some "default")) then None
  else if is_some_and (after_key "proto" w) is_fabric_proto then None
  else via ← after_key "via" w; dev ← after_key "dev" w; Some {| fl_via := via; fl_dev := dev |}.

Definition parse_floor_default (out : string) : option FloorDefault :=
  head (omap floor_of_line (lines out)).

Definition floor_show : list string := ["ip"; "route"; "show"; "table"; "main"; "default"].
Definition floor_unreadable (out : Output) : Error :=
  Fatal ("cannot read this host's own default route: `ip route show table main default` exited "
    ++ show_signed (status out) ++ " (" ++ trim (stderr out) ++ ") — the additive host default "
    ++ "(table " ++ HOST_DEFAULT_TABLE ++ ") is not installed without it").

Definition floor_default : IO (option FloorDefault) :=
  out <~ exec floor_show ;;
  if output_ok out then ret (parse_floor_default (stdout out)) else throw (floor_unreadable out).

(** [<v4>/<len>] tokens, without the length. *)
Definition br_address (t : string) : option string :=
  '(a, len) ← split_once "/"%char t;
  match parse_addr a, parse_uint u8_max len with Some _, Some _ => Some a | _, _ => None end.
Definition parse_br_addresses (out : string) : list string := omap br_address (split_whitespace out).

Definition floor_addresses (dev : string) : IO (list string) :=
  out <~ exec ["ip"; "-4"; "-br"; "addr"; "show"; "dev"; dev] ;;
  if output_ok out then ret (parse_br_addresses (stdout out))
  else throw (Fatal ("cannot read the addresses of the floor device " ++ dev
         ++ ": `ip -4 -br addr show dev " ++ dev ++ "` exited " ++ show_signed (status out) ++ " ("
         ++ trim (stderr out) ++ ") — this host's own default route names it")).

Definition host_addresses : IO (list string) :=
  out <~ exec ["ip"; "-4"; "-br"; "addr"; "show"] ;;
  if output_ok out then ret (parse_br_addresses (stdout out))
  else throw (Fatal ("cannot read this host's addresses: `ip -4 -br addr show` exited "
         ++ show_signed (status out) ++ " (" ++ trim (stderr out)
         ++ ") — a pref-2099 floor pin is never dropped without proof its address is gone")).

Definition floor_pin (line : string) : option string :=
  '(_, rest) ← split_once ":"%char line;
  match split_whitespace rest with
  | [from; addr; iif; lo; lookup; main] =>
      if bool_decide ([from; iif; lo; lookup; main] = ["from"; "iif"; "lo"; "lookup"; "main"])
      then Some addr else None
  | _ => None
  end.
Definition parse_installed_floor_addresses (out : string) : list string :=
  omap floor_pin (lines out).
Definition installed_floor_addresses : IO (list string) :=
  out <~ exec (rule_show "2099") ;; ret (parse_installed_floor_addresses (stdout out)).

Definition add_pin (a : string) : IO (list string) :=
  let r := floor_rule a in
  must (rule_add (pref r) (add r)) >>~
  ret ["added ip rule pref " ++ pref r ++ " " ++ needle r]%string.
Definition drop_pin (fuel : nat) (a : string) : IO (list string) :=
  let r := floor_rule a in
  drop_fabric_rule fuel r >>~ ret ["dropped ip rule pref " ++ pref r ++ " " ++ needle r]%string.

Definition without (l m : list string) : list string :=
  List.filter (λ a, negb (bool_decide (a ∈ m))) l.

Definition sync_floor_rules (fuel : nat) (wanted : list string) : IO (list string) :=
  installed <~ installed_floor_addresses ;;
  out <~ gather add_pin (without wanted installed) ;;
  let stale := without installed wanted in
  match stale with
  | [] => ret out
  | _ =>
      configured <~ host_addresses ;;
      dropped <~ gather (drop_pin fuel) (without stale configured) ;;
      ret (out ++ dropped)
  end.

(** The prefixes prefs 2102 and 2103 are installed for, as the kernel shows them. *)
Definition workload_source (line : string) : option string :=
  '(_, rest) ← split_once ":"%char line;
  match split_whitespace rest with
  | from :: src :: lookup :: _ =>
      if String.eqb from "from" && String.eqb lookup "lookup" then Some src else None
  | _ => None
  end.
Definition add_source (acc : list string) (src : string) : list string :=
  if bool_decide (src ∈ acc) then acc else acc ++ [src].
Definition installed_workload_sources : IO (list string) :=
  a <~ exec (rule_show "2102") ;;
  b <~ exec (rule_show "2103") ;;
  ret (foldl add_source [] (omap workload_source (lines (stdout a))
                            ++ omap workload_source (lines (stdout b)))).

Definition remove_host_default (fuel : nat) : IO unit :=
  run_ignore ["ip"; "route"; "del"; "default"; "table"; HOST_DEFAULT_TABLE; "proto";
              show CFAB_DEFAULT_PROTO] >>~
  (pins <~ installed_floor_addresses ;;
   each (λ a, drop_fabric_rule fuel (floor_rule a)) pins >>~
   (sources <~ installed_workload_sources ;;
    each (λ src, each (drop_fabric_rule fuel) (workload_lookup_rules src)) sources >>~
    each (drop_fabric_rule fuel) lookup_rules)).

(** ** Foreign rulesets on the forward hook *)

Record ForeignForwardDrop := { fd_desc : string; fd_coverable : bool }.
Definition other_drop (desc : string) : ForeignForwardDrop :=
  {| fd_desc := desc; fd_coverable := false |}.

Definition OWNED_TABLES : list (string * string) := [("inet", "cfab-fwd"); ("inet", "cfab")].

Definition chain_drop (obj : Value) : option ForeignForwardDrop :=
  let c := index obj "chain" in
  if negb (opt_eqb (as_str (index c "hook")) (Some "forward"))
     || negb (opt_eqb (as_str (index c "policy")) (Some "drop")) then None
  else
    let family := unwrap_or (as_str (index c "family")) "?" in
    let table := unwrap_or (as_str (index c "table")) "?" in
    if bool_decide ((family, table) ∈ OWNED_TABLES) then None
    else
      let name := unwrap_or (as_str (index c "name")) "?" in
      Some {| fd_desc := family ++ " " ++ table ++ " " ++ name ++ " (policy drop)";
              fd_coverable := bool_decide ((family, table, name) = ("ip", "filter", "FORWARD")) |}.

Definition legacy_loaded (h : Host) : bool :=
  match h_read h "/proc/net/ip_tables_names" with
  | Ok s => any (λ l, String.eqb (trim l) "filter") (lines s)
  | Err _ => false
  end.

Definition or_no_output (o : option Output) : Output :=
  unwrap_or o {| status := 0; stdout := EmptyString; stderr := EmptyString |}.

Section foreign.
(** [serde_json::from_str], with the text of its error. *)
Context (from_str : string → result string Value).

Definition listed_drops (out : Output) : list ForeignForwardDrop :=
  match from_str (stdout out) with
  | Ok doc => omap chain_drop (as_array (index doc "nftables"))
  | Err e =>
      [other_drop ("could not parse `nft -j list chains` output: " ++ e
                     ++ " (forward-hook chains unchecked)")]
  end.

Definition foreign_forward_drops : IO (list ForeignForwardDrop) :=
  out <~ exec ["nft"; "-j"; "list"; "chains"] ;;
  if negb (output_ok out) then
    ret [other_drop ("could not enumerate forward-hook chains: `nft -j list chains` exited "
                       ++ show_signed (status out) ++ " (" ++ trim (stderr out) ++ ")")]
  else
    let found := listed_drops out in
    legacy <~ look legacy_loaded ;;
    if legacy then
      o <~ try_run ["iptables-legacy"; "-S"; "FORWARD"] ;;
      ret (found ++ (if any (λ l, String.eqb (trim l) "-P FORWARD DROP")
                            (lines (stdout (or_no_output o)))
                     then [other_drop "ip filter FORWARD (policy drop, iptables-legacy)"] else []))
    else ret found.

Definition FOREIGN_ACCEPT_TAG : string := "cfab-transit".
Definition docker_user : list string := ["iptables"; "-S"; "DOCKER-USER"].
Definition foreign_accept_argv (op : string) : list string :=
  ["iptables"; op; "DOCKER-USER"; "-i"; "cfab+"; "-o"; "cfab+"; "-m"; "comment"; "--comment";
   FOREIGN_ACCEPT_TAG; "-j"; "ACCEPT"].

Definition foreign_transit_accept_present : IO bool :=
  o <~ try_run docker_user ;;
  ret (is_some_and o (λ o, has_substring FOREIGN_ACCEPT_TAG (stdout o))).

Definition unresolved_forward_drops : IO (list string) :=
  drops <~ foreign_forward_drops ;;
  match drops with
  | [] => ret []
  | _ =>
      covered <~ foreign_transit_accept_present ;;
      ret (fd_desc <$> List.filter (λ d, negb (fd_coverable d && covered)) drops)
  end.

Definition ensure_foreign_transit_accept : IO (option string) :=
  o <~ try_run docker_user ;;
  match o with
  | None => ret None
  | Some shown =>
      if negb (has_substring "-N DOCKER-USER" (stdout shown)) then ret None
      else if has_substring FOREIGN_ACCEPT_TAG (stdout shown) then ret None
      else must (foreign_accept_argv "-I") >>~
           ret (Some "DOCKER-USER: -i cfab+ -o cfab+ -j ACCEPT")
  end.
End foreign.

Definition foreign_forward_remedy (ifs : list string) : string :=
  let example := unwrap_or (head ifs) "<cfab-if>" in
  "transit through this host is dropped by a foreign ruleset, not by cfab. "
    ++ "Remedy: allow cfab transit in the foreign stack's user hook, e.g. "
    ++ "`iptables -I DOCKER-USER -i " ++ example ++ " -o " ++ example
    ++ " -j ACCEPT` per cfab interface pair".

(** ** The drop loop ends

    What the kernel is relied on for: asking for rules changes none, and a deletion that answers
    0 leaves fewer rules for the same arguments to delete. *)
Section drop_rules_ends.
Context (io : list Action → Env) (pref needle : string) (del : list string).
Context (count : list Action → nat).
Context (Hshow : ∀ tr, count (tr ++ [ARun (rule_show pref)]) = count tr).
Context (Hdel : ∀ tr out, h_run (e_host (io tr)) (rule_del pref del) = Ok out → output_ok out = true →
  (count (tr ++ [ARun (rule_del pref del)]) < count tr)%nat).

(** How a loop may end: the last thing it asked showed no such rule, or a command of the host
    failed with the error the loop answers. *)
Definition drop_end (r : list Action * result Error unit) : Prop :=
  match r with
  | (tr', Ok _) => ∃ l out, tr' = l ++ [ARun (rule_show pref)]
      ∧ h_run (e_host (io l)) (rule_show pref) = Ok out ∧ has_substring needle (stdout out) = false
  | (tr', Err e) => ∃ l argv, tr' = l ++ [ARun argv]
      ∧ (h_run (e_host (io l)) argv = Err e
         ∨ ∃ out, h_run (e_host (io l)) argv = Ok out ∧ output_ok out = false
             ∧ e = Text.Cmd (String.concat " " argv) (status out) (stderr out))
  end.

(** Dropping a rule until it is gone ends within one round more than the number of rules the
    kernel can delete for it, and ends in one of two ways: the last listing no longer shows the
    rule, or a command of the host failed and its error is the answer. The answer the model gives
    when it runs out of rounds is never given. *)
Theorem drop_rules_ends fuel tr (Hfuel : (count tr < fuel)%nat) :
  drop_end (drop_rules fuel pref needle del io tr).
Proof using Hshow Hdel.
  revert tr Hfuel. induction fuel as [|fuel IH]; intros tr Hf; [lia|]. cbn [drop_rules].
  unfold bind at 1, exec at 1. destruct (h_run (e_host (io tr)) (rule_show pref)) as [shown|e] eqn:E.
  2: { eexists tr, _. split; [done|]. by left. }
  destruct (has_substring needle (stdout shown)) eqn:Hs; [|by exists tr, shown].
  unfold must, bind, exec. cbv beta iota.
  destruct (h_run (e_host (io (tr ++ _))) (rule_del pref del)) as [out|e] eqn:Ed.
  2: { eexists _, _. split; [done|]. by left. }
  destruct (output_ok out) eqn:Ho; cbn [ret throw].
  - apply IH. specialize (Hdel _ _ Ed Ho). rewrite Hshow in Hdel. lia.
  - eexists _, _. split; [done|]. right. eauto.
Qed.
End drop_rules_ends.

(** ** The floor's pins *)

Definition addr_show : list string := ["ip"; "-4"; "-br"; "addr"; "show"].

Section floor_pins.
Context (tr0 : list Action) (wanted : list string).

(** The listing of pref 2099 this pass began with names [a]. *)
Definition pinned (io : Env_) (a : string) : Prop :=
  ∃ out, h_run (e_host (io tr0)) (rule_show "2099") = Ok out
    ∧ a ∈ parse_installed_floor_addresses (stdout out).

(** This pass has read the host's addresses, the read answered 0, and [a] was not among them. *)
Definition proven_gone (io : Env_) (hist : list Action) (a : string) : Prop :=
  ∃ p1 p2 out, hist = tr0 ++ p1 ++ ARun addr_show :: p2
    ∧ h_run (e_host (io (tr0 ++ p1))) addr_show = Ok out ∧ output_ok out = true
    ∧ a ∉ parse_br_addresses (stdout out).

Definition pin_step (io : Env_) (hist : list Action) (act : Action) : Prop :=
  act = ARun (rule_show "2099") ∨ act = ARun addr_show
  ∨ (∃ a, a ∈ wanted ∧ ¬ pinned io a ∧ act = ARun (rule_add "2099" (add (floor_rule a))))
  ∨ (∃ a, a ∉ wanted ∧ pinned io a ∧ proven_gone io hist a
          ∧ act = ARun (rule_del "2099" (add (floor_rule a)))).

Lemma without_elem l m a : a ∈ without l m ↔ a ∈ l ∧ a ∉ m.
Proof.
  unfold without. rewrite list_elem_of_In, List.filter_In, <-list_elem_of_In, negb_true_iff,
    bool_decide_eq_false. done.
Qed.

Definition since (io : Env_) (tr : list Action) : Prop := ∃ l, tr = tr0 ++ l.
Lemma since_stable : stable since.
Proof. intros io tr new (l & ->). exists (l ++ new). by rewrite app_assoc. Qed.

Definition know_pinned (installed : list string) (io : Env_) (tr : list Action) : Prop :=
  since io tr ∧ ∀ a, a ∈ installed ↔ pinned io a.
Lemma know_pinned_stable installed : stable (know_pinned installed).
Proof. intros io tr new [H ?]. split; [by apply since_stable|done]. Qed.

Definition know_gone (installed configured : list string) (io : Env_) (tr : list Action) : Prop :=
  know_pinned installed io tr ∧ ∀ a, a ∉ configured → proven_gone io tr a.
Lemma know_gone_stable installed configured : stable (know_gone installed configured).
Proof.
  intros io tr new [H Hg]. split; [by apply know_pinned_stable|]. intros a Ha.
  destruct (Hg a Ha) as (p1 & p2 & out & -> & ?). exists p1, (p2 ++ new), out.
  by rewrite <-!app_assoc.
Qed.

Lemma drop_rules_emits fuel pref needle del :
  emits (λ a, a = ARun (rule_show pref) ∨ a = ARun (rule_del pref del)) (drop_rules fuel pref needle del).
Proof. induction fuel; cbn [drop_rules]; emits_all; auto. Qed.

Lemma host_addresses_gone installed io tr tr' configured :
  know_pinned installed io tr → host_addresses io tr = (tr', Ok configured) →
  know_gone installed configured io tr'.
Proof.
  intros [Hs Hp] H. unfold host_addresses in H. apply bind_Ok in H as (tr1 & out & E & H).
  unfold exec in E. injection E as <- E. destruct (output_ok out) eqn:Ho; [|done]. injection H as <- <-.
  split.
  { split; [by apply since_stable|done]. }
  intros a Ha. destruct Hs as (l & ->). exists l, [], out. by rewrite <-app_assoc.
Qed.

(** Bringing the floor's pins level adds a pin only for a wanted address the listing it began
    with did not show, and drops one only for an address that listing did show, that is not
    wanted, and that the host's own address list - read in this pass, with exit status 0, before
    the drop - does not carry: whatever the floor read said and whatever fails, no pin of an
    address the host still has, or may still have, is dropped. *)
Theorem floor_pin_dropped_only_when_gone fuel io :
  ∃ new, (sync_floor_rules fuel wanted io tr0).1 = tr0 ++ new ∧ allowed (pin_step io) tr0 new.
Proof.
  revert io. assert (acts (λ _ tr, tr = tr0) pin_step (sync_floor_rules fuel wanted)) as H.
  2: { intros io. by apply H. }
  unfold sync_floor_rules.
  apply (acts_bind_then _ _ _ _ know_pinned).
  { intros io tr ->. exists [ARun (rule_show "2099")]. split; [|by split; [left|]].
    unfold installed_floor_addresses, bind, exec. by destruct (h_run _ _). }
  { intros io tr tr' installed -> Hi. unfold installed_floor_addresses in Hi.
    apply bind_Ok in Hi as (tr1 & out & E & [= <- <-]). unfold exec in E. injection E as <- E.
    split; [by eexists|]. intros a. unfold pinned. rewrite E. split; [eauto|].
    intros (? & [= <-] & ?). done. }
  intros installed. apply acts_bind; [apply know_pinned_stable| |].
  { apply acts_gather; [apply know_pinned_stable|]. intros a [Ha Hn]%without_elem.
    eapply (acts_emits _ _ (know_pinned_stable _) (λ x, x = ARun (rule_add "2099" (add (floor_rule a))))).
    - unfold add_pin. emits_all.
    - intros io tr x [_ Hp] ->. right; right; left. exists a. split; [done|]. split; [|done]. by rewrite <-Hp. }
  intros out. destruct (without installed wanted) as [|a0 stale] eqn:Es.
  { apply acts_ret, know_pinned_stable. }
  rewrite <-Es. clear Es a0 stale.
  apply (acts_bind_then _ _ _ _ (know_gone installed)).
  { eapply (acts_emits _ _ (know_pinned_stable _) (λ x, x = ARun addr_show)).
    - unfold host_addresses. emits_all.
    - intros io tr x _ ->. right; by left. }
  { intros io tr tr' configured Hk Hc. by eapply host_addresses_gone. }
  intros configured. apply acts_bind; [apply know_gone_stable| |].
  2: { intros. apply acts_ret, know_gone_stable. }
  apply acts_gather; [apply know_gone_stable|].
  intros a [[Ha Hw]%without_elem Hc]%without_elem. unfold drop_pin, drop_fabric_rule.
  eapply (acts_emits _ _ (know_gone_stable _ _)).
  - apply emits_bind; [apply drop_rules_emits|]. intros. auto with emits.
  - intros io tr x [[_ Hp] Hg] [->| ->]; [by left|]. right; right; right.
    exists a. split; [done|]. split; [by apply Hp|]. split; [by apply Hg|done].
Qed.
End floor_pins.

(** A kernel that starts with two copies of a rule, and gives one up per deletion. *)
Module Two.
Definition rule : FabricRule := floor_rule "192.0.2.7".
Definition del_of : list string := rule_del (pref rule) (add rule).
Definition left_over (tr : list Action) : nat :=
  2 - length (List.filter (λ a, bool_decide (a = ARun del_of)) tr).
Definition answer (s : string) : result Error Output :=
  Ok {| status := 0; stdout := s; stderr := EmptyString |}.
Definition kernel_run (tr : list Action) (argv : list string) : result Error Output :=
  if bool_decide (argv = rule_show (pref rule))
  then answer (if (0 <? left_over tr)%nat then ("2099:	" ++ needle rule)%string else EmptyString)
  else if bool_decide (argv = del_of) && (left_over tr =? 0)%nat
       then Ok {| status := 2; stdout := EmptyString; stderr := "No such file or directory" |}
       else answer EmptyString.
Definition env (tr : list Action) : Env :=
  {| e_host := {| h_run := kernel_run tr; h_read _ := Err (Fatal "no such file"); h_exists _ := false;
                  h_is_writable _ := true; h_list_dir _ := Ok []; h_read_link _ := Err (Fatal "no such link") |};
     e_write _ _ := Ok tt; e_rename _ _ := Ok tt; e_remove _ := Ok tt; e_mkdir _ := Ok tt;
     e_request _ _ := Ok EmptyString; e_probe _ _ := NotListening |}.

Lemma show_is_not_del : rule_show (pref rule) ≠ del_of.
Proof. done. Qed.

Lemma left_over_snoc tr a :
  left_over (tr ++ [a]) = (left_over tr - if bool_decide (a = ARun del_of) then 1 else 0)%nat.
Proof. unfold left_over. rewrite List.filter_app, length_app. cbn. case_bool_decide; cbn; lia. Qed.
End Two.

Lemma drop_rules_ends_witness :
  (drop_rules 3 (pref Two.rule) (needle Two.rule) (add Two.rule) Two.env []).2 = Ok tt
  ∧ drop_end Two.env (pref Two.rule) (needle Two.rule)
      (drop_rules 3 (pref Two.rule) (needle Two.rule) (add Two.rule) Two.env []).
Proof.
  split; [by vm_compute|]. apply (drop_rules_ends Two.env _ _ _ Two.left_over); [| |cbn; lia].
  - intros tr. rewrite Two.left_over_snoc, bool_decide_false; [lia|]. intros [=].
  - intros tr out H Ho. change (rule_del (pref Two.rule) (add Two.rule)) with Two.del_of in *.
    rewrite Two.left_over_snoc, bool_decide_true by done. cbn in H. unfold Two.kernel_run in H.
    rewrite bool_decide_false in H by (intros E; by apply Two.show_is_not_del).
    rewrite bool_decide_true in H by done. destruct (Two.left_over tr) as [|n] eqn:E; [|lia].
    cbn in H. injection H as <-. done.
Defined.

(** An address the host still carries keeps its pin although the floor read named none; one it
    does not carry loses it. *)
Module Pins.
Definition kernel_run (argv : list string) : result Error Output :=
  if bool_decide (argv = rule_show "2099") then Two.answer "2099: from 192.0.2.7 iif lo lookup main"
  else if bool_decide (argv = addr_show) then Two.answer "br0 UP 192.0.2.7/24"
  else Two.answer EmptyString.
Definition env (tr : list Action) : Env :=
  {| e_host := {| h_run := kernel_run; h_read _ := Err (Fatal "no such file"); h_exists _ := false;
                  h_is_writable _ := true; h_list_dir _ := Ok []; h_read_link _ := Err (Fatal "no such link") |};
     e_write _ _ := Ok tt; e_rename _ _ := Ok tt; e_remove _ := Ok tt; e_mkdir _ := Ok tt;
     e_request _ _ := Ok EmptyString; e_probe _ _ := NotListening |}.
Example kept_while_carried :
  sync_floor_rules 1 [] env [] = ([ARun (rule_show "2099"); ARun addr_show], Ok []).
Proof. vm_compute. done. Qed.
End Pins.
