(* ===== verification/Legs.v ===== *)
(** Building and removing cfab's netdevs: the builders of src/src/commands/apply.rs, the
    workload leg with the ledger of the VLAN ids cfab gave a bridge (src/src/workload/leg.rs),
    the bridge ARP guard (src/src/emit/workload.rs) and the record of wire drivers
    (src/src/wire_drivers.rs). *)
From Stdlib Require Import Ascii String.
From S2P Require Import Prelude Text Sys Net Fabric Derive EngineState Uplink Rules.
Local Open Scope Z_scope.
Local Open Scope cmd_scope.

(** What a [View] derives, once: the source derives the same rows at every use, and of a
    validated fabric always can. *)
Record Rows := {
  rw_class : list ClassRow;
  rw_gw : list GwRow;
  rw_fallback : list FallbackRow;
  rw_owned : list (string * bool);
  rw_wires : list string
}.
Definition rows_of (v : View) : result Refusal Rows :=
  cs <-? class_rows v ;;
  gs <-? gw_rows v ;;
  fs <-? fallback_rows v ;;
  os <-? owned_forwarding v ;;
  ws <-? wires v ;;
  Ok {| rw_class := cs; rw_gw := gs; rw_fallback := fs; rw_owned := os; rw_wires := ws |}.

(** ** VLAN sub-interfaces *)

Definition vlan_marker (vid : Z) : string := "vlan protocol 802.1Q id " ++ show vid ++ " ".

Definition vlan_identity_is (dev lower : string) (vid : Z) : IO bool :=
  out <~ exec (link_show_d dev) ;;
  ret (output_ok out && has_substring (vlan_marker vid) (stdout out)
       && has_substring (dev ++ "@" ++ lower ++ ":") (stdout out)).

Definition link_del (name : string) : list string := ["ip"; "link"; "del"; name].
Definition vlan_add (name lower : string) (vid : Z) (qos : list string) : list string :=
  ["ip"; "link"; "add"; "link"; lower; "name"; name; "type"; "vlan"; "id"; show vid;
   "egress-qos-map"] ++ qos.
Definition addr_replace (cidr dev : string) : list string :=
  ["ip"; "addr"; "replace"; cidr; "dev"; dev].
Definition link_set (name how : string) : list string := ["ip"; "link"; "set"; name; how].

Definition when (b : bool) (m : IO unit) : IO unit := if b then m else ret tt.

(** [a()? && b()?]: the second is not asked when the first is false. *)
Definition both (a b : IO bool) : IO bool := x <~ a ;; if x then b else ret false.
Definition differs (a : IO bool) : IO bool := x <~ a ;; ret (negb x).

Definition mk_vlan (name lower : string) (vid : Z) (addr : option string) (bring_up : bool)
    (qos : list string) : IO unit :=
  stray <~ both (link_exists name) (differs (vlan_identity_is name lower vid)) ;;
  when stray (must (link_del name) >>~ ret tt) >>~
  (there <~ link_exists name ;;
   when (negb there) (must (vlan_add name lower vid qos) >>~ ret tt) >>~
   (match addr with Some cidr => must (addr_replace cidr name) >>~ ret tt | None => ret tt end) >>~
   when bring_up (must (link_set name "up") >>~ ret tt)).

Definition qos_map (f : Fabric) (z : Zone) : list string :=
  ["0:" ++ show (z_pcp z); show (f_pcp_ctrl f) ++ ":" ++ show (f_pcp_ctrl f)]%string.
Definition workload_qos (f : Fabric) : list string :=
  ["0:0"; show (f_pcp_ctrl f) ++ ":" ++ show (f_pcp_ctrl f)]%string.

Definition class_sysctls (ifname : string) : IO unit :=
  proc_sysctl ifname "arp_ignore" "1" >>~
  (proc_sysctl ifname "rp_filter" "2" >>~
   (proc_sysctl ifname "send_redirects" "0" >>~ proc_sysctl ifname "forwarding" "0")).

(** [f.zone(name)?] and the [expect] on its gateway: a view of a validated fabric names only
    declared zones, and lists a gateway's rows from zones that have one. [refused] is the text
    of a look-up's refusal. *)
Section builders.
Context (refused : Refusal → Error).

Definition zone_of (f : Fabric) (name : string) : IO Zone :=
  lift (match zone f name with Ok z => Ok z | Err e => Err (refused e) end).
Definition gw_of (z : Zone) : IO ZoneGw :=
  match z_gw z with Some gw => ret gw | None => throw (Fatal "gw_rows lists gw zones") end.

Definition build_class_leg (v : View) (r : ClassRow) : IO unit :=
  z <~ zone_of (v_fabric v) (cr_zone r) ;;
  mk_vlan (cr_ifname r) (cr_wire r) (cr_vid r) (Some (segment_addr v z (cr_seg r) ++ "/24")%string)
    true (qos_map (v_fabric v) z) >>~
  class_sysctls (cr_ifname r).

Definition build_gw_vlan_leg (v : View) (r : GwRow) : IO unit :=
  z <~ zone_of (v_fabric v) (gr_zone r) ;;
  gw <~ gw_of z ;;
  mk_vlan (gr_ifname r) (gr_home r) (gr_vid r) (Some (leg_cidr gw (m_node (v_member v)))) true
    (qos_map (v_fabric v) z) >>~
  class_sysctls (gr_ifname r).
End builders.

(** ** Bonds *)

Definition FALLBACK_BOND_PARAMS : list (string * string) :=
  [("mode", "active-backup"); ("miimon", "100"); ("updelay", "500"); ("num_grat_arp", "3");
   ("fail_over_mac", "none")].

Definition not_a_bond (ifname : string) : string :=
  "REFUSING: " ++ ifname ++ " exists but is not a bond".
Definition port_elsewhere (ifname : string) : string :=
  "REFUSING: " ++ ifname ++ " is a port on another bond".
Definition not_our_vlan (ifname lower : string) (vid : Z) : string :=
  "REFUSING: " ++ ifname ++ " exists but is not a vlan id " ++ show vid ++ " sub-interface of "
    ++ lower ++ " — the watchdog never deletes a live netdev; re-run cfab up".

Definition params_unreadable (ifname path : string) : Error :=
  Fatal ("REFUSING: " ++ ifname ++ " exists but " ++ path ++ " cannot be read, so its bond "
    ++ "parameters cannot be proven; run `cfab down` then `cfab up` to rebuild the leg").
Definition params_diverged (ifname : string) (diverged : list string) : Error :=
  Fatal ("REFUSING: " ++ ifname ++ " exists with bond parameters this build did not create it with ("
    ++ String.concat ", " diverged ++ "); cfab never rewrites a live bond (mode and fail_over_mac "
    ++ "are not writable on one), so run `cfab down` then `cfab up` to rebuild the leg").

Fixpoint diverged_params (h : Host) (ifname : string) (params : list (string * string))
    : result Error (list string) :=
  match params with
  | [] => Ok []
  | (param, want) :: params' =>
      let path := sysfs ifname ("bonding/" ++ param) in
      match h_read h path with
      | Err _ => Err (params_unreadable ifname path)
      | Ok raw =>
          let got := unwrap_or (head (split_whitespace raw)) EmptyString in
          rest <-? diverged_params h ifname params' ;;
          Ok (if String.eqb got want then rest
              else (param ++ " want " ++ want ++ " got " ++ got)%string :: rest)
      end
  end.

Definition bond_params_match (h : Host) (ifname : string) : result Error unit :=
  diverged <-? diverged_params h ifname FALLBACK_BOND_PARAMS ;;
  match diverged with [] => Ok tt | _ => Err (params_diverged ifname diverged) end.

Definition bond_add (ifname : string) : list string :=
  ["ip"; "link"; "add"; ifname; "type"; "bond"; "mode"; "active-backup"; "miimon"; "100";
   "num_grat_arp"; "3"; "updelay"; "500"; "fail_over_mac"; "none"].
Definition set_master (port bond : string) : list string :=
  ["ip"; "link"; "set"; port; "master"; bond].
Definition set_primary_argv (bond port : string) : list string :=
  ["ip"; "link"; "set"; bond; "type"; "bond"; "primary"; port; "primary_reselect"; "always"].

Definition set_bond_primary (bond port : string) : IO unit :=
  must (set_primary_argv bond port) >>~ ret tt.

Definition add_bond_port (bond : string) (s : Port) (vid : Z) (qos : list string) : IO unit :=
  mk_vlan (po_ifname s) (po_wire s) vid None false qos >>~
  (anywhere <~ look (λ h, h_exists h (sysfs (po_ifname s) "master")) ;;
   here <~ (if anywhere then link_kind_is (po_ifname s) (" master " ++ bond ++ " ") else ret false) ;;
   if anywhere && negb here then throw (Fatal (port_elsewhere (po_ifname s)))
   else
     when (negb here) (must (set_master (po_ifname s) bond) >>~ ret tt) >>~
     (must (link_set (po_ifname s) "up") >>~
      proc_sysctl (po_ifname s) "forwarding" "0")).

Definition home_port (bond : string) (ports : list Port) (home : string) : result Error Port :=
  match List.find (λ s, String.eqb (po_wire s) home) ports with
  | Some s => Ok s
  | None => Err (Fatal (bond ++ ": home wire " ++ home ++ " carries no port of this bond"))
  end.

Record BondLeg := {
  bl_ifname : string; bl_vid : Z; bl_home : string; bl_ports : list Port; bl_cidr : string
}.

Definition mk_bond (ifname : string) : IO unit :=
  there <~ link_exists ifname ;;
  if there then
    bond <~ link_kind_is ifname " bond " ;;
    if negb bond then throw (Fatal (not_a_bond ifname))
    else r <~ look (λ h, bond_params_match h ifname) ;; lift r
  else must (bond_add ifname) >>~ ret tt.

Definition mk_bond_leg (r : BondLeg) (qos : list string) : IO unit :=
  mk_bond (bl_ifname r) >>~
  (each (λ s, add_bond_port (bl_ifname r) s (bl_vid r) qos) (bl_ports r) >>~
   (home <~ lift (home_port (bl_ifname r) (bl_ports r) (bl_home r)) ;;
    set_bond_primary (bl_ifname r) (po_ifname home) >>~
    (must (addr_replace (bl_cidr r) (bl_ifname r)) >>~
     (class_sysctls (bl_ifname r) >>~
      (must (link_set (bl_ifname r) "up") >>~ ret tt))))).

(** ** The workload leg *)

Definition record_path (run_dir : string) : string := (run_dir ++ "/workload-self-vid")%string.
Definition record_line (bridge : string) (vid : Z) : string := (bridge ++ " " ++ show vid)%string.

Definition read_record (h : Host) (run_dir : string) : gset string :=
  list_to_set (List.filter (λ l, negb (String.eqb l EmptyString))
                 (trim <$> lines (or_empty (h_read h (record_path run_dir))))).
Definition render_record (l : gset string) : string :=
  String.concat (String char_lf EmptyString) (btree_set_iter str_leb l).

Definition vid_argv (verb uplink : string) (vid : Z) : list string :=
  ["bridge"; "vlan"; verb; "dev"; uplink; "vid"; show vid; "self"].

(** A token that is [<IPv4>/<len>] with a length of at most 32. *)
Definition is_cidr (t : string) : bool :=
  is_some_and (split_once "/"%char t) (λ p,
    is_some_and (parse_addr p.1) (λ _, true) && is_some_and (parse_uint u8_max p.2) (λ n, n <=? 32)).
Definition extra_addresses (brief : string) (keep : list string) : list string :=
  List.filter (λ t, is_cidr t && negb (bool_decide (t ∈ keep))) (split_whitespace brief).

Definition prune_addresses (leg : string) (keep : list string) : IO unit :=
  out <~ exec ["ip"; "-4"; "-br"; "addr"; "show"; "dev"; leg] ;;
  if negb (output_ok out) then ret tt
  else each (λ cidr, must ["ip"; "addr"; "del"; cidr; "dev"; leg] >>~ ret tt)
            (extra_addresses (stdout out) keep).

Definition proxy_arp (leg : string) (on : bool) : IO unit :=
  write (conf_path leg "proxy_arp") (if on then "1" else "0").

Definition vlan_holder (uplink leg : string) (vid : Z) (entry : Value) : option string :=
  ifname ← get entry "ifname" ≫= as_str;
  if String.eqb ifname leg then None
  else
    link ← get entry "link" ≫= as_str;
    if negb (String.eqb link uplink) then None
    else
      id ← (i ← get entry "linkinfo"; d ← get i "info_data"; n ← get d "id"; as_u64 n);
      if (id <=? u16_max) && (id =? vid) then Some ifname else None.

Section workload_leg.
Context (from_str : string → option Value).

Definition self_vids (bridge : string) : IO (gset Z) :=
  out <~ must ["bridge"; "-j"; "vlan"; "show"; "dev"; bridge] ;;
  ret (parse_vids from_str (stdout out) bridge).

Definition parse_foreign_holder (json uplink : string) (vid : Z) (leg : string) : option string :=
  match from_str json with
  | Some (Arr l) => head (omap (vlan_holder uplink leg vid) l)
  | _ => None
  end.
Definition foreign_holder (uplink : string) (vid : Z) (leg : string) : IO (option string) :=
  out <~ must ["ip"; "-d"; "-j"; "link"; "show"; "type"; "vlan"] ;;
  ret (parse_foreign_holder (stdout out) uplink vid leg).

Definition ensure_self_vid (run_dir uplink : string) (vid : Z) : IO bool :=
  vids <~ self_vids uplink ;;
  if bool_decide (vid ∈ vids) then ret false
  else
    must (vid_argv "add" uplink vid) >>~
    (lines <~ look (λ h, read_record h run_dir) ;;
     write (record_path run_dir) (render_record ({[record_line uplink vid]} ∪ lines)) >>~
     ret true).

Definition release_vid (run_dir uplink : string) (vid : Z) : IO unit :=
  lines <~ look (λ h, read_record h run_dir) ;;
  if negb (bool_decide (record_line uplink vid ∈ lines)) then ret tt
  else
    must (vid_argv "del" uplink vid) >>~
    (let lines := lines ∖ {[record_line uplink vid]} in
     if bool_decide (lines = ∅) then remove (record_path run_dir)
     else write (record_path run_dir) (render_record lines)).

Definition leg_present (leg uplink : string) (vid : Z) : IO bool :=
  both (link_exists leg) (vlan_identity_is leg uplink vid).

Definition remove_leg (run_dir leg uplink : string) (vid : Z) : IO unit :=
  there <~ leg_present leg uplink vid ;;
  when there (must (link_del leg) >>~ ret tt) >>~
  release_vid run_dir uplink vid.

Record LegSpec := {
  ls_leg : string; ls_uplink : string; ls_vid : Z; ls_address : string; ls_gw_cidr : string
}.

Definition install (run_dir : string) (s : LegSpec) (qos : list string) : IO unit :=
  mk_vlan (ls_leg s) (ls_uplink s) (ls_vid s) (Some (ls_address s)) true qos >>~
  (prune_addresses (ls_leg s) [ls_address s; ls_gw_cidr s] >>~
   (proxy_arp (ls_leg s) true >>~
    (ensure_self_vid run_dir (ls_uplink s) (ls_vid s) >>~ ret tt))).
End workload_leg.

(** ** The bridge ARP guard *)

Definition quote : string := String "034"%char EmptyString.
Definition lf : string := String char_lf EmptyString.

Definition guard_line (port : string) (vid : Z) (gw : Ipv4Addr) (field comment : string) : string :=
  "        iifname " ++ quote ++ port ++ quote ++ " vlan id " ++ show vid ++ " vlan type arp arp "
    ++ field ++ " ip " ++ show_addr gw ++ " counter drop comment " ++ quote ++ comment ++ quote ++ lf.

Definition guard_lines (g : Ipv4Addr * Uplink) : list string :=
  port ← up_ports g.2;
  [guard_line port (up_vid g.2) g.1 "saddr" "gw-claim-from-uplink";
   guard_line port (up_vid g.2) g.1 "daddr" "gw-request-from-uplink"].

Definition bridge_table (guards : list (Ipv4Addr * Uplink)) : string :=
  String.concat EmptyString
    (["table bridge cfab" ++ lf; "delete table bridge cfab" ++ lf; "table bridge cfab {" ++ lf;
      "    chain pre {" ++ lf;
      "        type filter hook prerouting priority filter; policy accept;" ++ lf]%string
     ++ (guards ≫= guard_lines)
     ++ ["    }" ++ lf; "}" ++ lf]%string).

(** [s.split(pat).nth(1)], for a pattern of at least one byte. *)
Definition after_first (pat s : string) : option string :=
  n ← String.index 0 pat s;
  Some (String.substring (n + String.length pat) (String.length s) s).
Definition before_first (pat s : string) : string :=
  match String.index 0 pat s with Some n => String.substring 0 n s | None => s end.
Definition second_piece (pat s : string) : option string := before_first pat <$> after_first pat s.

Fixpoint dedup (l : list string) : list string :=
  match l with
  | [] => []
  | x :: l' => match l' with
               | [] => [x]
               | y :: _ => if String.eqb x y then dedup l' else x :: dedup l'
               end
  end.

Definition guard_port (line : string) : option string :=
  p ← second_piece ("iifname " ++ quote) line; head (split "034"%char p).

Definition guarded_ports_for (bridge_nft : string) (gw : Ipv4Addr) : list string :=
  let needle := ("arp daddr ip " ++ show_addr gw ++ " counter drop comment " ++ quote
                   ++ "gw-request-from-uplink" ++ quote)%string in
  dedup (merge_sort (leb_rel str_leb)
           (omap guard_port (List.filter (has_substring needle) (lines bridge_nft)))).

(** ** Wire drivers *)

Definition driver_of (dev : string) : IO (option string) :=
  o <~ try_run ["ethtool"; "-i"; dev] ;;
  ret (match o with
       | None => None
       | Some out =>
           if negb (output_ok out) then None
           else Some (unwrap_or (trim <$> head (omap (strip_prefix "driver:") (lines (stdout out))))
                        EmptyString)
       end).

(** [run_dir.trim_end_matches('/')]. *)
Fixpoint trim_slashes (s : string) : string :=
  match s with
  | EmptyString => EmptyString
  | String c s' =>
      match trim_slashes s' with
      | EmptyString => if Ascii.eqb c "/"%char then EmptyString else String c EmptyString
      | t => String c t
      end
  end.
Definition drivers_path (run_dir : string) : string := (trim_slashes run_dir ++ "/wire-drivers")%string.
Definition render_drivers (rows : list (string * string)) : string :=
  String.concat EmptyString ((λ r, (r.1 ++ " " ++ r.2 ++ lf)%string) <$> rows).
Definition driver_line (nic line : string) : option string :=
  '(n, drv) ← split_once " "%char line; if String.eqb n nic then Some (trim drv) else None.
Definition recorded_driver (h : Host) (run_dir nic : string) : option string :=
  match h_read h (drivers_path run_dir) with
  | Ok text => head (omap (driver_line nic) (lines text))
  | Err _ => None
  end.

(** ** The ledger of VLAN ids *)

(** A line the record can carry: no line break, nothing to trim, something in it. *)
Record ledger_line (x : string) : Prop := {
  ll_plain : Text.plain x = true;
  ll_trim : trim x = x;
  ll_some : x ≠ EmptyString
}.

Lemma trim_end_app a b : trim_end b = b → b ≠ EmptyString → trim_end (a ++ b)%string = (a ++ b)%string.
Proof.
  intros Hb Hne. induction a as [|c a IH]; [done|]. rewrite str_app_cons. cbn. rewrite IH.
  destruct (a ++ b)%string eqn:E; [|done]. destruct a; [cbn in E; by subst|done].
Qed.

Lemma record_line_ok bridge vid :
  word bridge = true → bridge ≠ EmptyString → 0 ≤ vid → ledger_line (record_line bridge vid).
Proof.
  intros Hb Hne Hv. unfold record_line. pose proof (show_word vid Hv) as Hs. split.
  - by rewrite !plain_app, (word_plain bridge Hb), (word_plain _ Hs).
  - unfold trim. destruct bridge as [|c bridge]; [done|]. rewrite str_app_cons. cbn [trim_start].
    cbn in Hb. destruct (is_whitespace c); [done|]. rewrite <-str_app_cons, <-str_app_assoc.
    apply trim_end_app; [by apply trim_end_word|by apply show_not_empty].
  - by destruct bridge.
Qed.

Lemma lines_join xs :
  Forall ledger_line xs → lines (String.concat (String char_lf EmptyString) xs) = xs.
Proof.
  unfold lines. induction 1 as [|x xs Hx Hxs IH]; [done|].
  pose proof (ll_plain x Hx) as [Hlf Hcr]%andb_true_iff.
  destruct xs as [|y ys].
  - cbn. rewrite split_free by done. cbn. destruct Hx as [_ _ Hne]. by destruct x.
  - change (String.concat (String char_lf EmptyString) (x :: y :: ys))
      with (x ++ String char_lf EmptyString ++ String.concat (String char_lf EmptyString) (y :: ys))%string.
    rewrite str_app_char, split_join by done.
    destruct (split char_lf (String.concat _ (y :: ys))) as [|p ps] eqn:E; [done|].
    change (join_lines (x :: p :: ps)) with (strip_cr x :: join_lines (p :: ps)).
    by rewrite IH, strip_cr_free.
Qed.

Lemma filter_trim xs :
  Forall ledger_line xs → List.filter (λ l, negb (String.eqb l EmptyString)) (trim <$> xs) = xs.
Proof.
  induction 1 as [|x xs [_ Ht Hne] _ IH]; [done|]. rewrite fmap_cons. cbn [List.filter].
  rewrite Ht, IH. by destruct (String.eqb_spec x EmptyString).
Qed.

Definition ledger_ok (l : gset string) : Prop := ∀ x, x ∈ l → ledger_line x.

Lemma read_rendered h run_dir l :
  ledger_ok l → h_read h (record_path run_dir) = Ok (render_record l) → read_record h run_dir = l.
Proof.
  intros Hl Hr. unfold read_record. rewrite Hr. cbn [or_empty]. unfold render_record.
  assert (Forall ledger_line (btree_set_iter str_leb l)) as Hf.
  { apply list.Forall_forall. intros x Hx%elem_of_btree_set_iter. auto. }
  rewrite lines_join, filter_trim by done. apply set_eq. intros x.
  by rewrite elem_of_list_to_set, elem_of_btree_set_iter.
Qed.

Section ledger.
Context (from_str : string → option Value) (run_dir : string) (io : list Action → Env).

(** What the record file holds after a trace: what was written to it last. *)
Definition record_after (r : result Error string) (a : Action) : result Error string :=
  match a with
  | AWrite p c => if String.eqb p (record_path run_dir) then Ok c else r
  | ARemove p => if String.eqb p (record_path run_dir) then Err (Fatal "no such file") else r
  | _ => r
  end.
Context (initial : result Error string).
Definition record_at (tr : list Action) : result Error string := foldl record_after initial tr.

(** The file system is relied on for this: the file is what was last written. *)
Context (Hread : ∀ tr, h_read (e_host (io tr)) (record_path run_dir) = record_at tr).

Definition ledger (tr : list Action) : gset string := read_record (e_host (io tr)) run_dir.

Lemma ledger_record tr tr' : record_at tr = record_at tr' → ledger tr = ledger tr'.
Proof using Hread. intros E. unfold ledger, read_record. by rewrite !Hread, E. Qed.

Lemma ledger_quiet tr new :
  Forall (λ a, ∀ r, record_after r a = r) new → ledger (tr ++ new) = ledger tr.
Proof using Hread.
  intros H. apply ledger_record. unfold record_at. rewrite foldl_app.
  generalize (foldl record_after initial tr) as r. induction H as [|a l Ha _ IH]; intros r; [done|].
  cbn. rewrite IH. apply Ha.
Qed.

Lemma ledger_written tr l :
  ledger_ok l → ledger (tr ++ [AWrite (record_path run_dir) (render_record l)]) = l.
Proof using Hread.
  intros Hl. apply read_rendered; [done|]. rewrite Hread. unfold record_at. rewrite foldl_app. cbn.
  by rewrite String.eqb_refl.
Qed.

Lemma ledger_removed tr : ledger (tr ++ [ARemove (record_path run_dir)]) = ∅.
Proof using Hread.
  unfold ledger, read_record. rewrite Hread. unfold record_at. rewrite foldl_app. cbn.
  by rewrite String.eqb_refl.
Qed.

Definition vid_added (uplink : string) (vid : Z) : Action := ARun (vid_argv "add" uplink vid).
Definition vid_deleted (uplink : string) (vid : Z) : Action := ARun (vid_argv "del" uplink vid).

Lemma ensure_ran uplink vid tr tr1 b :
  ledger_ok (ledger tr) → ledger_line (record_line uplink vid) →
  ensure_self_vid from_str run_dir uplink vid io tr = (tr1, Ok b) →
  (b = true → ledger tr1 = {[record_line uplink vid]} ∪ ledger tr ∧ vid_added uplink vid ∈ tr1)
  ∧ (b = false → ledger tr1 = ledger tr ∧ ∃ a, tr1 = tr ++ [a] ∧ a ≠ vid_added uplink vid).
Proof using Hread.
  intros Hok Hl H. unfold ensure_self_vid in H. apply bind_Ok in H as (tr2 & vids & Hv & H).
  assert (tr2 = tr ++ [ARun ["bridge"; "-j"; "vlan"; "show"; "dev"; uplink]]) as ->.
  { unfold self_vids in Hv. apply bind_Ok in Hv as (tr3 & out & Hm & [= <- _]).
    unfold must in Hm. apply bind_Ok in Hm as (tr4 & o & He & Hm). unfold exec in He.
    injection He as <- _. destruct (output_ok o); [|done]. by injection Hm as <- _. }
  assert (∀ t argv, ledger (t ++ [ARun argv]) = ledger t) as Hq
    by (intros; apply ledger_quiet; by repeat constructor).
  case_bool_decide; [by injection H as <- <-; split; [done|intros _; rewrite Hq; eauto]|].
  apply bind_Ok in H as (tr3 & out & Hm & H). unfold must in Hm.
  apply bind_Ok in Hm as (tr4 & o & He & Hm). unfold exec in He. injection He as <- _.
  destruct (output_ok o); [|done]. injection Hm as <- _.
  apply bind_Ok in H as (tr5 & lns & [= <- <-] & H). apply bind_Ok in H as (tr6 & [] & Hw & [= <- <-]).
  unfold write in Hw. injection Hw as <- _. split; [|done]. intros _.
  match goal with |- context [read_record (e_host (io ?t)) run_dir] =>
    change (read_record (e_host (io t)) run_dir) with (ledger t) end.
  rewrite !Hq. rewrite ledger_written.
  - split; [done|]. rewrite !elem_of_app. left; right. by left.
  - intros x [->%elem_of_singleton|Hx]%elem_of_union; [done|auto].
Qed.

Lemma release_ran uplink vid tr tr' :
  ledger_ok (ledger tr) →
  release_vid run_dir uplink vid io tr = (tr', Ok tt) →
  if bool_decide (record_line uplink vid ∈ ledger tr)
  then (∃ w, tr' = tr ++ [vid_deleted uplink vid; w]) ∧ ledger tr' = ledger tr ∖ {[record_line uplink vid]}
  else tr' = tr.
Proof using Hread.
  intros Hok H. unfold release_vid in H. apply bind_Ok in H as (tr1 & lns & [= <- <-] & H).
  fold (ledger tr) in H. case_bool_decide as Hin; cbn [negb] in H; [|by injection H as <-].
  apply bind_Ok in H as (tr2 & o & Hm & H). unfold must in Hm.
  apply bind_Ok in Hm as (tr3 & o' & He & Hm). unfold exec in He. injection He as <- _.
  destruct (output_ok o'); [|done]. injection Hm as <- _. cbv zeta in H.
  case_bool_decide as He; unfold remove, write in H; injection H as <- _.
  - split; [eexists; by rewrite <-app_assoc|]. by rewrite ledger_removed.
  - split; [eexists; by rewrite <-app_assoc|]. apply ledger_written.
    intros x [Hx _]%elem_of_difference. auto.
Qed.

(** A VLAN id goes back to the bridge exactly when cfab was the one that gave it. Say the
    ledger carries no line for this bridge and id, that the leg's install asks the bridge and
    answers, that whatever happens next leaves the record file alone, and that the release then
    answers: if the install found the id missing and added it, the release deletes it and leaves
    the ledger as it was before the install; if the bridge already had it, the release runs
    nothing at all. Lines of other bridges and ids survive both. *)
Theorem self_vid_given_back_iff_taken uplink vid tr tr1 b between tr2
    (Huplink : word uplink = true ∧ uplink ≠ EmptyString) (Hvid : 0 ≤ vid)
    (Hok : ledger_ok (ledger tr)) (Hnew : record_line uplink vid ∉ ledger tr)
    (Hensure : ensure_self_vid from_str run_dir uplink vid io tr = (tr1, Ok b))
    (Hbetween : Forall (λ a, ∀ r, record_after r a = r) between)
    (Hrelease : release_vid run_dir uplink vid io (tr1 ++ between) = (tr2, Ok tt)) :
  ledger tr2 = ledger tr
  ∧ if b then ∃ w, tr2 = (tr1 ++ between) ++ [vid_deleted uplink vid; w]
    else tr2 = tr1 ++ between.
Proof using Hread.
  destruct Huplink as [Hw Hne]. pose proof (record_line_ok uplink vid Hw Hne Hvid) as Hl.
  destruct (ensure_ran uplink vid tr tr1 b Hok Hl Hensure) as [Ht Hf].
  assert (ledger (tr1 ++ between) = ledger tr1) as Hb by by apply ledger_quiet.
  destruct b.
  - destruct (Ht eq_refl) as [E _]. pose proof (release_ran uplink vid _ _ ltac:(
      rewrite Hb, E; intros x [->%elem_of_singleton|Hx]%elem_of_union; auto) Hrelease) as H.
    rewrite bool_decide_true in H by (rewrite Hb, E; set_solver). destruct H as [H1 H2].
    split; [|done]. rewrite H2, Hb, E. set_solver.
  - destruct (Hf eq_refl) as [E _].
    pose proof (release_ran uplink vid _ _ ltac:(by rewrite Hb, E) Hrelease) as H.
    rewrite bool_decide_false in H by (by rewrite Hb, E). subst tr2. by rewrite Hb, E.
Qed.
End ledger.

(** A host with a file system that remembers one file, whose bridge carries id 1 only. *)
Module Bridge.
Definition from_str (s : string) : option Value :=
  if String.eqb s "vlans"
  then Some (Arr [Obj [("ifname", Str "vmbr0"); ("vlans", Arr [Obj [("vlan", Num 1)]])]]) else None.
Definition run_dir : string := "/run/cfab".
Definition none : result Error string := Err (Fatal "no such file").
Definition host (tr : list Action) : Host :=
  {| h_run _ := Ok {| status := 0; stdout := "vlans"; stderr := EmptyString |};
     h_read p := if String.eqb p (record_path run_dir) then record_at run_dir none tr else none;
     h_exists _ := true; h_is_writable _ := true; h_list_dir _ := Ok [];
     h_read_link _ := Err (Fatal "no such link") |}.
Definition env (tr : list Action) : Env :=
  {| e_host := host tr; e_write _ _ := Ok tt; e_rename _ _ := Ok tt; e_remove _ := Ok tt;
     e_mkdir _ := Ok tt; e_request _ _ := Ok EmptyString; e_probe _ _ := NotListening |}.
Definition taken := ensure_self_vid from_str run_dir "vmbr0" 300 env [].
Definition between : list Action := [AWrite (conf_path "cfab-work-vms" "proxy_arp") "0"].
Definition released := release_vid run_dir "vmbr0" 300 env (taken.1 ++ between).

(** An id the bridge had all along is neither recorded nor given back. *)
Example had_it :
  (ensure_self_vid from_str run_dir "vmbr0" 1 env []).2 = Ok false
  ∧ (release_vid run_dir "vmbr0" 1 env (ensure_self_vid from_str run_dir "vmbr0" 1 env []).1).1
    = (ensure_self_vid from_str run_dir "vmbr0" 1 env []).1.
Proof. vm_compute. done. Qed.
End Bridge.

Lemma self_vid_witness :
  Bridge.taken.2 = Ok true
  ∧ ledger Bridge.run_dir Bridge.env Bridge.released.1 = ledger Bridge.run_dir Bridge.env []
  ∧ ∃ w, Bridge.released.1 = (Bridge.taken.1 ++ Bridge.between) ++ [vid_deleted "vmbr0" 300; w].
Proof.
  split; [by vm_compute|].
  eapply (self_vid_given_back_iff_taken Bridge.from_str Bridge.run_dir Bridge.env Bridge.none
            ltac:(reflexivity) "vmbr0" 300 [] Bridge.taken.1 true Bridge.between Bridge.released.1).
  - by vm_compute.
  - lia.
  - intros x Hx. vm_compute in Hx. set_solver.
  - intros Hx. vm_compute in Hx. set_solver.
  - by vm_compute.
  - by repeat constructor.
  - by vm_compute.
Defined.
