(* ===== verification/EngineConf.v ===== *)
(** The routing engine's configuration tree (src/src/emit/engine.rs).

    One member's view, the cost its transit links are to be advertised at and the host routes it
    originates become one JSON tree: the interfaces, an OSPF instance per zone, the static
    instance of the workload legs, and the BGP instance of the ingress legs with the policies it
    names. [Policies] states how the routing library reads such policies, as the source's own
    comments have it, and what they then let through. *)
From Stdlib Require Import Ascii String Permutation.
From S2P Require Import Prelude Text Decl Net Fabric Derive Validate EngineState Rules Legs.
Local Open Scope Z_scope.

Definition SPF_LONG_DELAY_MS : Z := 100.
Definition SPF_HOLD_DOWN_MS : Z := 3000.
Definition STATIC_INSTANCE : string := "cfab".

(** What a transit link's cost is generated at. *)
Inductive TransitCost := Declared | LeafOffset.
Definition transit_word (t : TransitCost) : string :=
  match t with Declared => "normal" | LeafOffset => "leaf" end.

#[export] Instance TransitCost_eq_dec : EqDecision TransitCost.
Proof. solve_decision. Defined.

(** [ipnetwork::Ipv4Network]: an address with the length of its prefix, ordered by the two. *)
Definition Ipv4Network := (Ipv4Addr * Z)%type.
Definition network_show (n : Ipv4Network) : string := (show_addr n.1 ++ "/" ++ show n.2)%string.
Definition network_leb (a b : Ipv4Network) : bool :=
  (a.1 <? b.1) || ((a.1 =? b.1) && (a.2 <=? b.2)).

(** The host routes this member originates, by the workload leg they leave by. *)
Definition WorkloadRoutes := gmap string (gset Ipv4Network).
Definition cidrs_in_order (s : gset Ipv4Network) : list Ipv4Network := btree_set_iter network_leb s.
Definition routes_in_order (r : WorkloadRoutes) : list (string * gset Ipv4Network) :=
  btree_iter str_leb r.

(** A [u32] of a release build: what does not fit wraps. *)
Definition u32 (x : Z) : Z := x mod (u32_max + 1).

Definition id_set (zone : string) : string := "cfab-" ++ zone ++ "-id".
Definition leaf_set (zone : string) : string := "cfab-" ++ zone ++ "-leaf".
Definition wl_set (zone workload : string) : string := "cfab-" ++ zone ++ "-wl-" ++ workload.
Definition import_policy (zone : string) : string := "cfab-" ++ zone ++ "-import".
Definition export_policy (zone : string) : string := "cfab-" ++ zone ++ "-export".

Section engine_conf.
Context (refused : Refusal → Error) (v : View) (d : Rows).
Let f := v_fabric v.

Definition link_cost (transit : TransitCost) (declared : Z) : Z :=
  if bool_decide (m_kind (v_member v) = Leaf) || bool_decide (transit = LeafOffset)
  then u32 (declared + f_leaf_cost_offset f) else declared.

(** ** Interfaces *)

(** [add_if]: a name is pushed once. *)
Definition add_if (names : list string) (name : string) : list string :=
  if bool_decide (name ∈ names) then names else names ++ [name].

Definition if_names : list string :=
  foldl add_if []
    ((cr_ifname <$> rw_class d) ++ (fr_ifname <$> rw_fallback d) ++ (identity_if <$> f_zones f)
     ++ (gr_ifname <$> rw_gw d) ++ ((λ r, leg_ifname (wr_wl r)) <$> workload_rows v)).

Definition interface_entry (n : string) : Value :=
  Obj [("name", Str n); ("type", Str "iana-if-type:ethernetCsmacd")].

(** ** OSPF *)

Definition passive_if (n : string) : Value := Obj [("name", Str n); ("passive", Bool true)].

Definition adjacency_if (transit : TransitCost) (ifname : string) (cost : Z) : list (string * Value) :=
  [("name", Str ifname); ("interface-type", Str "broadcast");
   ("hello-interval", Num (od_hello_s (f_ospf f))); ("dead-interval", Num (od_dead_s (f_ospf f)));
   ("cost", Num (link_cost transit cost))].

Definition bfd_entry : Value :=
  Obj [("enabled", Bool true); ("local-multiplier", Num (bd_mult (f_bfd f)));
       ("desired-min-tx-interval", Num (u32 (bd_tx_ms (f_bfd f) * 1000)));
       ("required-min-rx-interval", Num (u32 (bd_rx_ms (f_bfd f) * 1000)))].

Definition class_if (transit : TransitCost) (r : ClassRow) : Value :=
  Obj (adjacency_if transit (cr_ifname r) (cr_ospf_cost r) ++ [("bfd", bfd_entry)]).
Definition fallback_if (transit : TransitCost) (r : FallbackRow) : Value :=
  Obj (adjacency_if transit (fr_ifname r) (fr_ospf_cost r)).

(** The workload rows a zone is allowed to reach. *)
Definition stub_rows (z : Zone) : list WorkloadRow :=
  filter (λ r, z_name z ∈ wl_allow (wr_wl r)) (workload_rows v).

Definition ospf_ifs (transit : TransitCost) (z : Zone) : list Value :=
  (class_if transit <$> List.filter (λ r, String.eqb (cr_zone r) (z_name z)) (rw_class d))
  ++ (fallback_if transit <$> List.filter (λ r, String.eqb (fr_zone r) (z_name z)) (rw_fallback d))
  ++ [passive_if (identity_if z)]
  ++ ((λ r, passive_if (gr_ifname r)) <$> List.filter (λ r, String.eqb (gr_zone r) (z_name z)) (rw_gw d))
  ++ ((λ r, passive_if (leg_ifname (wr_wl r))) <$> stub_rows z).

Definition ospf_protocol (transit : TransitCost) (z : Zone) : Value :=
  Obj [("type", Str OSPFV2); ("name", Str (z_name z));
       ("ietf-ospf:ospf",
        Obj ([("explicit-router-id", Str (identity_addr v z));
              ("spf-control", Obj [("ietf-spf-delay",
                 Obj [("long-delay", Num SPF_LONG_DELAY_MS); ("hold-down", Num SPF_HOLD_DOWN_MS)])]);
              ("areas", Obj [("area", Arr [Obj [("area-id", Str "0.0.0.0");
                 ("interfaces", Obj [("interface", Arr (ospf_ifs transit z))])]])])]
             ++ match stub_rows z with
                | [] => []
                | _ => [("holo-ospf:redistribution", Arr [Obj [("type", Str "ietf-routing:static")]])]
                end))].

(** ** Static routes *)

Definition static_route (leg : string) (cidr : Ipv4Network) : Value :=
  Obj [("destination-prefix", Str (network_show cidr));
       ("next-hop", Obj [("outgoing-interface", Str leg)])].

Definition leg_routes (lr : string * gset Ipv4Network) : result Error (list Value) :=
  if any (λ r, String.eqb (leg_ifname (wr_wl r)) lr.1) (workload_rows v)
  then Ok (static_route lr.1 <$> cidrs_in_order lr.2)
  else Err (Config ("no workload interface " ++ lr.1 ++ " on this member")).

Definition static_instance (routes : list Value) : Value :=
  Obj [("type", Str "ietf-routing:static"); ("name", Str STATIC_INSTANCE);
       ("static-routes", Obj [("ietf-ipv4-unicast-routing:ipv4", Obj [("route", Arr routes)])])].

(** ** The ingress: one BGP instance, a neighbour and two policies per ingress leg *)

Definition prefix_entry (p : string) : Value :=
  Obj [("ip-prefix", Str p); ("mask-length-lower", Num 32); ("mask-length-upper", Num 32)].
Definition prefix_set (name : string) (prefixes : list string) : Value :=
  Obj [("name", Str name); ("mode", Str "ipv4");
       ("prefixes", Obj [("prefix-list", Arr (prefix_entry <$> prefixes))])].
Definition statement (name set : string) (actions : list (string * Value)) : Value :=
  Obj [("name", Str name);
       ("conditions", Obj [("match-prefix-set", Obj [("prefix-set", Str set)])]);
       ("actions", Obj actions)].
Definition accept (how what : string) : list (string * Value) :=
  [("policy-result", Str "accept-route");
   ("ietf-bgp-policy:bgp-actions", Obj [(how, Str what)])].
Definition policy_def (name : string) (stmts : list Value) : Value :=
  Obj [("name", Str name); ("statements", Obj [("statement", Arr stmts)])].

Definition leaf_prefixes (z : Zone) : list string :=
  (λ m, (identity_addr_of z m ++ "/32")%string)
    <$> filter (λ m, m_kind m = Leaf) (f_members f).

Definition leaf_sets (z : Zone) : list Value :=
  match leaf_prefixes z with [] => [] | ps => [prefix_set (leaf_set (z_name z)) ps] end.
Definition reject_leaves (z : Zone) : list Value :=
  match leaf_prefixes z with
  | [] => []
  | _ => [statement "0" (leaf_set (z_name z)) [("policy-result", Str "reject-route")]]
  end.

Definition identity_set (z : Zone) : Value :=
  prefix_set (id_set (z_name z)) [block_of z ++ ".0.0/24"]%string.
Definition workload_set (z : Zone) (r : WorkloadRow) : Value :=
  prefix_set (wl_set (z_name z) (wl_name (wr_wl r))) [prefix_show (wl_prefix (wr_wl r))].

Definition zone_sets (z : Zone) : list Value :=
  identity_set z :: leaf_sets z ++ (workload_set z <$> workload_rows v).

Definition import_stmts (z : Zone) : list Value :=
  reject_leaves z ++ [statement "1" (id_set (z_name z)) (accept "set-med" "igp")].
Definition export_stmts (z : Zone) : list Value :=
  reject_leaves z ++ [statement "1" (id_set (z_name z)) (accept "set-next-hop" "self")]
  ++ ((λ r, statement ("wl-" ++ wl_name (wr_wl r)) (wl_set (z_name z) (wl_name (wr_wl r)))
              (accept "set-next-hop" "self")) <$> workload_rows v).
Definition zone_policies (z : Zone) : list Value :=
  [policy_def (import_policy (z_name z)) (import_stmts z);
   policy_def (export_policy (z_name z)) (export_stmts z)].

Definition neighbor_entry (z : Zone) (gw : ZoneGw) : Value :=
  Obj [("remote-address", Str (gw_router gw)); ("peer-as", Num (gb_asn (f_bgp f)));
       ("timers", Obj [("connect-retry-interval", Num (gb_connect_s (f_bgp f)));
                       ("hold-time", Num (gb_hold_s (f_bgp f)));
                       ("keepalive", Num (gb_keepalive_s (f_bgp f)))]);
       ("transport", Obj [("local-address", Str (before_slash (leg_cidr gw (m_node (v_member v)))))]);
       ("afi-safis", Obj [("afi-safi", Arr [Obj [
          ("name", Str "iana-bgp-types:ipv4-unicast"); ("enabled", Bool true);
          ("apply-policy", Obj [("export-policy", Arr [Str (export_policy (z_name z))])])]])])].

(** One ingress row's zone and its gateway. *)
Definition gw_zone (r : GwRow) : result Error (Zone * ZoneGw) :=
  match zone f (gr_zone r) with
  | Err e => Err (refused e)
  | Ok z =>
      match z_gw z with
      | Some gw => Ok (z, gw)
      | None => Err (Config ("zone " ++ z_name z ++ " carries an ingress leg but no gw"))
      end
  end.

(** [networks.push] of the live routes, each value once. *)
Definition add_network (l : list Value) (cidr : Ipv4Network) : list Value :=
  let net := Str (network_show cidr) in if any (value_eqb net) l then l else l ++ [net].

Definition bgp_instance (owner : Zone) (zs : list (Zone * ZoneGw)) (networks : list Value) : Value :=
  Obj [("type", Str BGP); ("name", Str "cfab");
       (BGP, Obj [
          ("global", Obj [
             ("as", Num (gb_asn (f_bgp f))); ("identifier", Str (identity_addr v owner));
             ("afi-safis", Obj [("afi-safi", Arr [Obj [
                ("name", Str "iana-bgp-types:ipv4-unicast");
                ("apply-policy", Obj [("import-policy", Arr ((λ zg, Str (import_policy (z_name zg.1))) <$> zs))]);
                ("ipv4-unicast", Obj [
                   ("holo-bgp:redistribution",
                    Arr [Obj [("type", Str "ietf-routing:direct")]; Obj [("type", Str "ietf-ospf:ospfv2")]]);
                   ("holo-bgp:network", Arr networks)])]])])]);
          ("neighbors", Obj [("neighbor", Arr ((λ zg, neighbor_entry zg.1 zg.2) <$> zs))])])].

Definition routing_policy (zs : list (Zone * ZoneGw)) : Value :=
  Obj [("defined-sets", Obj [("prefix-sets", Obj [("prefix-set", Arr (zs ≫= λ zg, zone_sets zg.1))])]);
       ("policy-definitions", Obj [("policy-definition", Arr (zs ≫= λ zg, zone_policies zg.1))])].

Definition ingress_bgp (routes : WorkloadRoutes) : result Error (option (Value * Value)) :=
  match rw_gw d with
  | [] => Ok None
  | _ =>
      zs <-? collect gw_zone (rw_gw d) ;;
      match min_by_key z_id Z.ltb zs.*1 with
      | None => Ok None
      | Some owner =>
          let own := (λ zg, Str (identity_addr v zg.1 ++ "/32")%string) <$> zs in
          let networks := foldl add_network own
                            (routes_in_order routes ≫= λ lr, cidrs_in_order lr.2) in
          Ok (Some (routing_policy zs, bgp_instance owner zs networks))
      end
  end.

(** ** The tree *)

Definition generate_with (transit : TransitCost) (routes : WorkloadRoutes) : result Error Value :=
  static <-? collect leg_routes (routes_in_order routes) ;;
  bgp <-? ingress_bgp routes ;;
  let protocols :=
    (ospf_protocol transit <$> f_zones f)
    ++ match workload_rows v with [] => [] | _ => [static_instance (mjoin static)] end
    ++ option_list (snd <$> bgp) in
  Ok (Obj ([("ietf-interfaces:interfaces", Obj [("interface", Arr (interface_entry <$> if_names))])]
           ++ option_list ((λ p, ("ietf-routing-policy:routing-policy", p.1)) <$> bgp)
           ++ [("ietf-routing:routing",
                Obj [("control-plane-protocols", Obj [("control-plane-protocol", Arr protocols)])])])).
Definition generate_at (transit : TransitCost) : result Error Value := generate_with transit ∅.
Definition generate : result Error Value := generate_at Declared.

(** The preferred source of each zone's block. *)
Definition prefsrc_rules : list (string * string) :=
  (λ z, ((block_of z ++ ".0.0/16")%string, identity_addr v z)) <$> f_zones f.
End engine_conf.

(** ** Reading the tree *)

Definition names (l : list Value) : list Value := (λ x, index x "name") <$> l.
Definition interfaces (tree : Value) : list Value :=
  list_of tree "ietf-interfaces:interfaces" "interface".
Definition ospf_interfaces (p : Value) : list Value :=
  list_of (index p "ietf-ospf:ospf") "areas" "area" ≫= λ a, list_of a "interfaces" "interface".
Definition static_routes (p : Value) : list Value :=
  as_array (index (index (index p "static-routes") "ietf-ipv4-unicast-routing:ipv4") "route").
Definition afi_policies (x : Value) (which : string) : list Value :=
  list_of x "afi-safis" "afi-safi" ≫= λ a, as_array (index (index a "apply-policy") which).
Definition used_policies (p : Value) : list Value :=
  (list_of (index p BGP) "neighbors" "neighbor" ≫= λ n, afi_policies n "export-policy")
  ++ afi_policies (index (index p BGP) "global") "import-policy".
Definition policies (tree : Value) : list Value :=
  list_of (index tree "ietf-routing-policy:routing-policy") "policy-definitions" "policy-definition".
Definition prefix_sets (tree : Value) : list Value :=
  list_of (index (index tree "ietf-routing-policy:routing-policy") "defined-sets")
    "prefix-sets" "prefix-set".
Definition statements (p : Value) : list Value := list_of p "statements" "statement".
Definition set_named (stmt : Value) : Value :=
  index (index (index stmt "conditions") "match-prefix-set") "prefix-set".

Section generated.
Context (refused : Refusal → Error) (v : View) (d : Rows).
Let f := v_fabric v.

Lemma generate_inv t routes tree :
  generate_with refused v d t routes = Ok tree →
  ∃ static bgp, collect (leg_routes v) (routes_in_order routes) = Ok static
    ∧ ingress_bgp refused v d routes = Ok bgp
    ∧ interfaces tree = interface_entry <$> if_names v d
    ∧ protocols tree = (ospf_protocol v d t <$> f_zones f)
        ++ match workload_rows v with [] => [] | _ => [static_instance (mjoin static)] end
        ++ option_list (snd <$> bgp)
    ∧ policies tree = list_of (default Null (fst <$> bgp)) "policy-definitions" "policy-definition"
    ∧ prefix_sets tree = list_of (index (default Null (fst <$> bgp)) "defined-sets") "prefix-sets" "prefix-set".
Proof.
  unfold generate_with. destruct (collect _ _) as [static|e]; [|done].
  destruct (ingress_bgp _ _ _ _) as [bgp|e]; [|done]. intros [= <-]. exists static, bgp.
  split; [done|]. split; [done|]. by destruct bgp as [[p b]|].
Qed.

Lemma ingress_inv routes p b :
  ingress_bgp refused v d routes = Ok (Some (p, b)) →
  ∃ zs owner networks, collect (gw_zone refused v) (rw_gw d) = Ok zs ∧ p = routing_policy v zs
    ∧ b = bgp_instance v owner zs networks ∧ owner ∈ zs.*1.
Proof.
  unfold ingress_bgp. destruct (rw_gw d) as [|r rs]; [done|]. destruct (collect _ _) as [zs|e]; [|done].
  destruct (min_by_key _ _ _) as [owner|] eqn:Em; [|done]. intros [= <- <-].
  exists zs, owner. eexists. split_and!; try done. by eapply min_by_key_elem.
Qed.

Lemma add_if_elem l x n : n ∈ add_if l x ↔ n ∈ l ∨ n = x.
Proof. unfold add_if. case_bool_decide; set_solver. Qed.

Lemma if_names_spec l acc :
  NoDup acc → NoDup (foldl add_if acc l) ∧ ∀ n, n ∈ foldl add_if acc l ↔ n ∈ acc ∨ n ∈ l.
Proof.
  revert acc. induction l as [|x l IH]; intros acc Ha; cbn [foldl]; [set_solver|].
  destruct (IH (add_if acc x)) as [H1 H2].
  - unfold add_if. case_bool_decide; [done|]. apply list.NoDup_app. split; [done|].
    split; [set_solver|apply NoDup_singleton].
  - split; [done|]. intros n. rewrite H2, add_if_elem. set_solver.
Qed.

Lemma interface_names_are t routes tree :
  generate_with refused v d t routes = Ok tree → names (interfaces tree) = Str <$> if_names v d.
Proof.
  intros (static & bgp & _ & _ & -> & _)%generate_inv. unfold names. by rewrite <-list_fmap_compose.
Qed.

Lemma used_policies_bgp owner zs networks n :
  n ∈ used_policies (bgp_instance v owner zs networks) ↔
  ∃ zg, zg ∈ zs ∧ (n = Str (export_policy (z_name zg.1)) ∨ n = Str (import_policy (z_name zg.1))).
Proof.
  unfold used_policies. rewrite elem_of_app. cbn -[export_policy import_policy].
  rewrite list_elem_of_bind, app_nil_r.
  setoid_rewrite list_elem_of_fmap. split.
  - intros [(x & Hn & (zg & -> & Hz))|(zg & -> & Hz)]; exists zg; split; try done; [left|by right].
    cbn -[export_policy] in Hn. by apply list_elem_of_singleton in Hn.
  - intros (zg & Hz & [->| ->]); [left|right; eauto]. exists (neighbor_entry v zg.1 zg.2).
    split; [|eauto]. cbn -[export_policy]. by apply list_elem_of_singleton.
Qed.

Lemma ospf_protocol_reads t z :
  ospf_interfaces (ospf_protocol v d t z) = ospf_ifs v d t z
  ∧ static_routes (ospf_protocol v d t z) = [] ∧ used_policies (ospf_protocol v d t z) = [].
Proof. split; [|done]. unfold ospf_interfaces. cbn. by rewrite app_nil_r. Qed.

Lemma names_elem (l : list string) (g : string → Value) n :
  (∀ s, index (g s) "name" = Str s) → n ∈ l → Str n ∈ names (g <$> l).
Proof.
  intros Hg Hn. unfold names. rewrite <-list_fmap_compose, list_elem_of_fmap.
  exists n. split; [by rewrite <-(Hg n)|done].
Qed.

(** Every interface an OSPF instance lists is a name [if_names] pushed. *)
Lemma ospf_ifs_named t z i :
  z ∈ f_zones f → i ∈ ospf_ifs v d t z → ∃ n, n ∈ if_names v d ∧ index i "name" = Str n.
Proof.
  intros Hz Hi. unfold ospf_ifs in Hi. rewrite !elem_of_app, list_elem_of_singleton in Hi.
  assert (∀ n, index i "name" = Str n → n ∈ (cr_ifname <$> rw_class d) ++ (fr_ifname <$> rw_fallback d)
    ++ (identity_if <$> f_zones f) ++ (gr_ifname <$> rw_gw d)
    ++ ((λ r, leg_ifname (wr_wl r)) <$> workload_rows v) → ∃ n, n ∈ if_names v d ∧ index i "name" = Str n) as Hin.
  { intros n En Hn. exists n. split; [|done]. unfold if_names. apply if_names_spec; [apply NoDup_nil_2|by right]. }
  rewrite !list_elem_of_fmap in Hi.
  destruct Hi as [(r & -> & Hr)|[(r & -> & Hr)|[->|[(r & -> & Hr)|(r & -> & Hr)]]]];
    (eapply Hin; [reflexivity|]); rewrite !elem_of_app.
  - left. apply elem_of_bfilter in Hr as [_ Hr]. by apply (list_elem_of_fmap_2 cr_ifname).
  - right; left. apply elem_of_bfilter in Hr as [_ Hr]. by apply (list_elem_of_fmap_2 fr_ifname).
  - right; right; left. by apply (list_elem_of_fmap_2 identity_if).
  - do 3 right; left. apply elem_of_bfilter in Hr as [_ Hr]. by apply (list_elem_of_fmap_2 gr_ifname).
  - do 4 right. apply list_elem_of_filter in Hr as [_ Hr]. by apply (list_elem_of_fmap_2 (λ r, leg_ifname (wr_wl r))).
Qed.

(** Every static route leaves by a workload row's leg. *)
Lemma static_named routes static r :
  collect (leg_routes v) (routes_in_order routes) = Ok static → r ∈ mjoin static →
  ∃ row, row ∈ workload_rows v
    ∧ index (index r "next-hop") "outgoing-interface" = Str (leg_ifname (wr_wl row)).
Proof.
  intros Hs Hr. apply list_elem_of_join in Hr as (rs & Hr & Hrs).
  destruct (collect_elem _ _ _ _ Hs Hrs) as ([leg cidrs] & _ & E). unfold leg_routes in E.
  destruct (any _ _) eqn:Ha; [|done]. injection E as <-. cbn in Ha.
  apply any_true in Ha as (row & Hrow & <-%String.eqb_eq).
  apply list_elem_of_fmap in Hr as (c & -> & _). by exists row.
Qed.

Lemma policy_of zs p :
  p ∈ policies (Obj [("ietf-routing-policy:routing-policy", routing_policy v zs)]) ↔
  ∃ zg, zg ∈ zs ∧ p ∈ zone_policies v zg.1.
Proof. unfold policies. cbn -[zone_policies]. rewrite list_elem_of_bind. naive_solver. Qed.

(** The statements of a zone's policies name only the zone's sets. *)
Lemma zone_statements_named z p s :
  p ∈ zone_policies v z → s ∈ statements p → set_named s ∈ names (zone_sets v z).
Proof.
  assert (∀ s, s ∈ reject_leaves v z → set_named s ∈ names (zone_sets v z)) as Hl.
  { intros s' Hs. unfold reject_leaves in Hs. unfold zone_sets, leaf_sets.
    destruct (leaf_prefixes v z); [by apply not_elem_of_nil in Hs|].
    apply list_elem_of_singleton in Hs as ->. cbn. right; left. }
  unfold zone_policies. intros [->| ->%list_elem_of_singleton]%elem_of_cons; cbn -[reject_leaves zone_sets];
    unfold import_stmts, export_stmts; rewrite !elem_of_app, list_elem_of_singleton.
  - intros [Hs| ->]; [by apply Hl|]. left.
  - intros [Hs|[->|Hs]]; [by apply Hl|left|]. apply list_elem_of_fmap in Hs as (r & -> & Hr).
    cbn -[wl_set]. unfold names, zone_sets. cbn -[wl_set]. right.
    rewrite fmap_app. apply elem_of_app. right. rewrite <-list_fmap_compose.
    by apply (list_elem_of_fmap_2 (λ r, Str (wl_set (z_name z) (wl_name (wr_wl r))))).
Qed.
End generated.

(** C39. The tree names only what it defines. Whatever the view, the cost its links are advertised
    at and the routes asked for, a tree that is generated lists each interface once; every
    interface an OSPF instance runs on and every leg a static route leaves by is in that list;
    and every policy a BGP session or the redistribution names, and every prefix set a policy's
    statement names, is defined in the same tree. *)
Theorem tree_names_only_what_it_defines refused v d t routes tree
    (Hgen : generate_with refused v d t routes = Ok tree) :
  NoDup (names (interfaces tree))
  ∧ (∀ p i, p ∈ protocols tree → i ∈ ospf_interfaces p → index i "name" ∈ names (interfaces tree))
  ∧ (∀ p r, p ∈ protocols tree → r ∈ static_routes p →
       index (index r "next-hop") "outgoing-interface" ∈ names (interfaces tree))
  ∧ (∀ p n, p ∈ protocols tree → n ∈ used_policies p → n ∈ names (policies tree))
  ∧ (∀ p s, p ∈ policies tree → s ∈ statements p → set_named s ∈ names (prefix_sets tree)).
Proof.
  rewrite (interface_names_are _ _ _ _ _ _ Hgen).
  destruct (generate_inv _ _ _ _ _ _ Hgen) as (static & bgp & Es & Eb & _ & Ep & Epol & Eset).
  assert (∀ p, p ∈ protocols tree →
    (∃ z, z ∈ f_zones (v_fabric v) ∧ p = ospf_protocol v d t z)
    ∨ p = static_instance (mjoin static)
    ∨ ∃ pol, bgp = Some (pol, p)) as Hprot.
  { rewrite Ep. intros p. rewrite !elem_of_app, list_elem_of_fmap.
    intros [(z & -> & Hz)|[Hp|Hp]]; [left; eauto|right; left|right; right].
    - destruct (workload_rows v); [by apply not_elem_of_nil in Hp|by apply list_elem_of_singleton in Hp].
    - destruct bgp as [[pol b]|]; [|by apply not_elem_of_nil in Hp].
      apply list_elem_of_singleton in Hp as ->. eauto. }
  assert (∀ pol b, bgp = Some (pol, b) → ∃ zs owner nets,
    pol = routing_policy v zs ∧ b = bgp_instance v owner zs nets) as Hbgp.
  { intros pol b ->. apply ingress_inv in Eb as (zs & owner & nets & _ & -> & -> & _). eauto 6. }
  split; [apply NoDup_fmap_2; [by intros ?? [= ->]|by apply if_names_spec, NoDup_nil_2]|].
  split_and!.
  - intros p i [(z & Hz & ->)|[->|(pol & Eq)]]%Hprot Hi.
    + rewrite (proj1 (ospf_protocol_reads v d t z)) in Hi.
      destruct (ospf_ifs_named _ _ _ _ _ Hz Hi) as (n & Hn & ->). by apply (list_elem_of_fmap_2 Str).
    + by apply not_elem_of_nil in Hi.
    + destruct (Hbgp _ _ Eq) as (? & ? & ? & _ & ->). by apply not_elem_of_nil in Hi.
  - intros p r [(z & Hz & ->)|[->|(pol & Eq)]]%Hprot Hr.
    + by apply not_elem_of_nil in Hr.
    + destruct (static_named _ _ _ _ Es Hr) as (row & Hrow & ->). apply (list_elem_of_fmap_2 Str).
      unfold if_names. apply if_names_spec; [apply NoDup_nil_2|right]. rewrite !elem_of_app. do 4 right.
      by apply (list_elem_of_fmap_2 (λ r, leg_ifname (wr_wl r))).
    + destruct (Hbgp _ _ Eq) as (? & ? & ? & _ & ->). by apply not_elem_of_nil in Hr.
  - intros p n [(z & Hz & ->)|[->|(pol & Eq)]]%Hprot Hn; [by apply not_elem_of_nil in Hn..|].
    destruct (Hbgp _ _ Eq) as (zs & owner & nets & -> & ->). rewrite Epol, Eq.
    apply used_policies_bgp in Hn as (zg & Hzg & Hn).
    change (n ∈ names (policies (Obj [("ietf-routing-policy:routing-policy", routing_policy v zs)]))).
    unfold names. apply list_elem_of_fmap. destruct Hn as [->| ->].
    + exists (policy_def (export_policy (z_name zg.1)) (export_stmts v zg.1)). split; [done|].
      apply policy_of. exists zg. split; [done|]. right; left.
    + exists (policy_def (import_policy (z_name zg.1)) (import_stmts v zg.1)). split; [done|].
      apply policy_of. exists zg. split; [done|left].
  - rewrite Epol, Eset. intros p s Hp Hs. destruct bgp as [[pol b]|]; [|by apply not_elem_of_nil in Hp].
    destruct (Hbgp _ _ eq_refl) as (zs & owner & nets & -> & ->).
    apply (policy_of v zs) in Hp as (zg & Hzg & Hp). pose proof (zone_statements_named _ _ _ _ Hp Hs) as H.
    unfold names in H |- *. apply list_elem_of_fmap in H as (x & -> & Hx). apply list_elem_of_fmap.
    exists x. split; [done|]. cbn -[zone_sets]. apply list_elem_of_bind. eauto.
Qed.

(** ** What the policies let through

    A prefix set matches a route when one of its entries contains it and its length is within
    the entry's bounds; a policy's statements are taken in the order of their names, the first
    whose set matches decides, and where none does the route is rejected: the library's reading,
    as the comments of the source state it. *)
Module Policies.

Record Route := { rt_ip : Ipv4Addr; rt_len : Z }.

Definition find_named (n : string) (l : list Value) : option Value :=
  List.find (λ x, is_str (index x "name") n) l.

Definition entry_matches (r : Route) (e : Value) : bool :=
  is_some_and (as_str (index e "ip-prefix")) (λ s,
    match prefix_parse s with Ok p => contains p (rt_ip r) | Err _ => false end)
  && is_some_and (as_u64 (index e "mask-length-lower")) (λ lo, lo <=? rt_len r)
  && is_some_and (as_u64 (index e "mask-length-upper")) (λ hi, rt_len r <=? hi).

Definition set_matches (sets : list Value) (name : string) (r : Route) : bool :=
  is_some_and (find_named name sets)
    (λ s, any (entry_matches r) (list_of s "prefixes" "prefix-list")).

Definition str_of (x : Value) : string := unwrap_or (as_str x) EmptyString.

(** A [BTreeMap] by name. *)
Definition in_name_order (stmts : list Value) : list Value :=
  (btree_iter str_leb (list_to_map ((λ s, (str_of (index s "name"), s)) <$> rev stmts) : gmap string Value)).*2.

Definition verdict (sets stmts : list Value) (r : Route) : bool :=
  is_some_and (List.find (λ s, set_matches sets (str_of (set_named s)) r) (in_name_order stmts))
    (λ s, is_str (index (index s "actions") "policy-result") "accept-route").

Definition accepts (tree : Value) (policy : string) (r : Route) : bool :=
  is_some_and (find_named policy (policies tree))
    (λ p, verdict (prefix_sets tree) (statements p) r).

(** *** Statements in order *)

#[export] Instance by_name_total {V} : Total (leb_rel (λ a b : string * V, str_leb a.1 b.1)).
Proof.
  intros [a ?] [b ?]. unfold leb_rel, str_leb. cbn. destruct (String.compare a b) eqn:E; auto.
  right. by rewrite (str_compare_gt _ _ E).
Qed.
#[export] Instance by_name_trans {V} : Transitive (leb_rel (λ a b : string * V, str_leb a.1 b.1)).
Proof.
  intros [a ?] [b ?] [c ?]. unfold leb_rel, str_leb. cbn.
  destruct (String.compare a b) eqn:Eab; [apply String.compare_eq_iff in Eab as ->; done| |done].
  destruct (String.compare b c) eqn:Ebc; [apply String.compare_eq_iff in Ebc as ->; by rewrite Eab| |done].
  by rewrite (str_compare_trans _ _ _ Eab Ebc).
Qed.

Definition name_of (s : Value) : string := str_of (index s "name").

Lemma in_name_order_perm stmts :
  NoDup (name_of <$> stmts) → in_name_order stmts ≡ₚ stmts.
Proof.
  intros Hn. unfold in_name_order. rewrite btree_iter_perm, map_to_list_to_map.
  - rewrite <-list_fmap_compose. cbn.
    replace (snd ∘ (λ s, (str_of (index s "name"), s))) with (@id Value) by done.
    rewrite list_fmap_id. symmetry. apply Permutation_rev.
  - rewrite <-list_fmap_compose. change (NoDup (name_of <$> rev stmts)).
    by rewrite <-Permutation_rev.
Qed.

(** A statement whose name comes before all others' is the first. *)
Lemma in_name_order_first s rest :
  NoDup (name_of <$> (s :: rest)) → (∀ x, x ∈ rest → str_leb (name_of x) (name_of s) = false) →
  ∃ l, in_name_order (s :: rest) = s :: l ∧ l ≡ₚ rest.
Proof.
  intros Hn Hs. pose proof (in_name_order_perm _ Hn) as Hp.
  assert (StronglySorted (leb_rel (λ a b : string * Value, str_leb a.1 b.1))
    (btree_iter str_leb (list_to_map ((λ s, (str_of (index s "name"), s)) <$> rev (s :: rest)) : gmap string Value)))
    as Hsort by (apply StronglySorted_merge_sort; apply _).
  assert (∀ p, p ∈ btree_iter str_leb (list_to_map ((λ s, (str_of (index s "name"), s)) <$> rev (s :: rest)) : gmap string Value)
    → p.1 = name_of p.2) as Hname.
  { intros [k x] Hx%elem_of_btree_iter%elem_of_list_to_map_2. cbn in Hx |- *.
    apply list_elem_of_fmap in Hx as (y & [= -> ->] & _). done. }
  unfold in_name_order in Hp |- *. destruct (btree_iter _ _) as [|[k x] l]; cbn in Hp |- *.
  { by apply Permutation_nil_cons in Hp. }
  pose proof (Hname (k, x) ltac:(left)) as Ek. cbn in Ek. subst k.
  assert (s ∈ x :: l.*2) as Hin by (rewrite Hp; left).
  apply elem_of_cons in Hin as [->|Hin].
  - exists l.*2. split; [done|]. by apply Permutation_cons_inv in Hp.
  - exfalso. apply list_elem_of_fmap in Hin as ([k' y] & E & Hy). cbn in E. subst y.
    pose proof (Hname (k', s) ltac:(by right)) as Ek. cbn in Ek. subst k'.
    apply StronglySorted_inv in Hsort as [_ Hall]. rewrite list.Forall_forall in Hall.
    specialize (Hall _ Hy). unfold leb_rel in Hall. cbn in Hall.
    assert (x ∈ s :: rest) as Hx by (rewrite <-Hp; left). apply elem_of_cons in Hx as [->|Hx].
    + assert (NoDup (s :: l.*2)) as Hnd.
      { rewrite Hp. by eapply NoDup_fmap_1. }
      apply list.NoDup_cons in Hnd as [Hnd _]. apply Hnd. by apply (list_elem_of_fmap_2 snd _ (name_of s, s)).
    + by rewrite Hs in Hall.
Qed.

(** *** The verdict of one zone's statements *)

Definition accepting (s : Value) : Prop :=
  is_str (index (index s "actions") "policy-result") "accept-route" = true.

Lemma accepting_verdict sets stmts r :
  NoDup (name_of <$> stmts) → Forall accepting stmts →
  verdict sets stmts r = true ↔ ∃ s, s ∈ stmts ∧ set_matches sets (str_of (set_named s)) r = true.
Proof.
  intros Hn Ha. pose proof (in_name_order_perm _ Hn) as Hp. unfold verdict.
  destruct (List.find _ _) as [s|] eqn:E; cbn.
  - apply find_Some_elem in E as [Hs Hm]. rewrite Hp in Hs. rewrite list.Forall_forall in Ha.
    split; [eauto|intros _; by apply Ha].
  - rewrite find_None_iff in E. split; [done|]. intros (s & Hs & Hm). by rewrite E in Hm by (by rewrite Hp).
Qed.

Lemma rejecting_verdict sets s rest r :
  NoDup (name_of <$> s :: rest) → (∀ x, x ∈ rest → str_leb (name_of x) (name_of s) = false) →
  Forall accepting rest → is_str (index (index s "actions") "policy-result") "accept-route" = false →
  verdict sets (s :: rest) r = true ↔
    set_matches sets (str_of (set_named s)) r = false
    ∧ ∃ x, x ∈ rest ∧ set_matches sets (str_of (set_named x)) r = true.
Proof.
  intros Hn Hfirst Ha Hs. destruct (in_name_order_first s rest Hn Hfirst) as (l & El & Hl).
  unfold verdict. rewrite El. cbn [List.find]. destruct (set_matches _ _ _) eqn:Em; cbn.
  - rewrite Hs. naive_solver.
  - destruct (List.find _ l) as [x|] eqn:E; cbn.
    + apply find_Some_elem in E as [Hx Hm]. rewrite Hl in Hx. rewrite list.Forall_forall in Ha.
      split; [eauto|intros _; by apply Ha].
    + rewrite find_None_iff in E. split; [done|]. intros (_ & x & Hx & Hm). by rewrite E in Hm by (by rewrite Hl).
Qed.

Lemma zone_verdict v z sets accs r :
  NoDup (name_of <$> accs) → (∀ a, a ∈ accs → accepting a ∧ str_leb (name_of a) "0" = false) →
  verdict sets (reject_leaves v z ++ accs) r = true ↔
    (leaf_prefixes v z ≠ [] → set_matches sets (leaf_set (z_name z)) r = false)
    ∧ ∃ a, a ∈ accs ∧ set_matches sets (str_of (set_named a)) r = true.
Proof.
  intros Hn Ha. assert (Forall accepting accs) as Hacc by (apply list.Forall_forall; intros a Hin; by apply Ha).
  unfold reject_leaves. destruct (leaf_prefixes v z) as [|p ps] eqn:E; cbn [app].
  - rewrite accepting_verdict by done. naive_solver.
  - rewrite rejecting_verdict; [|  |intros x Hx; by apply Ha|done|done].
    + cbn -[leaf_set]. naive_solver.
    + cbn. apply list.NoDup_cons. split; [|done]. intros (a & E0 & Hin)%list_elem_of_fmap.
      destruct (Ha a Hin) as [_ H0]. by rewrite <-E0 in H0.
Qed.

(** *** Sets by name *)

Lemma is_str_true x n : is_str x n = true → x = Str n.
Proof. destruct x; try done. cbn. by intros ->%String.eqb_eq. Qed.

Lemma find_named_unique l x n :
  NoDup (names l) → x ∈ l → index x "name" = Str n → find_named n l = Some x.
Proof.
  intros Hn Hx En. unfold find_named. destruct (List.find _ _) as [y|] eqn:E.
  - apply find_Some_elem in E as [Hy Ey%is_str_true]. f_equal.
    eapply (NoDup_fmap_inj_on (λ x, index x "name")); [exact Hn|done..|congruence].
  - rewrite find_None_iff in E. specialize (E x Hx). rewrite En in E. cbn in E. by rewrite String.eqb_refl in E.
Qed.

Lemma prefix_set_matches sets n ps r :
  NoDup (names sets) → prefix_set n ps ∈ sets →
  set_matches sets n r = true ↔
    rt_len r = 32 ∧ ∃ s p, s ∈ ps ∧ prefix_parse s = Ok p ∧ contains p (rt_ip r) = true.
Proof.
  intros Hn Hin. unfold set_matches. rewrite (find_named_unique _ _ n Hn Hin) by done.
  cbn -[prefix_parse contains]. rewrite any_true. split.
  - intros (e & (s & -> & Hs)%list_elem_of_fmap & He). unfold entry_matches in He.
    cbn -[prefix_parse contains] in He. split_bools. split; [lia|].
    destruct (prefix_parse s) as [p|] eqn:E; [|done]. eauto.
  - intros (Hl & s & p & Hs & E & Hc). exists (prefix_entry s). split; [by apply (list_elem_of_fmap_2 prefix_entry)|].
    unfold entry_matches. cbn -[prefix_parse contains]. rewrite E, Hc, Hl. done.
Qed.

(** *** Addresses of the plan *)

Lemma show_plan id node l :
  byte_ok id → byte_ok node →
  prefix_show (mk_prefix (addr_new 10 id 0 node) l) = ("10." ++ show id ++ ".0." ++ show node ++ "/" ++ show l)%string.
Proof.
  intros Hi Hn. unfold prefix_show, show_addr. cbn [net len].
  pose proof (octets_addr_new 10 id 0 node ltac:(done) Hi ltac:(done) Hn) as E.
  unfold octets in E. injection E as -> -> -> ->. by rewrite !str_app_assoc.
Qed.

Lemma plan_prefix_ok id node l :
  byte_ok id → byte_ok node → l = 24 ∧ node = 0 ∨ l = 32 → prefix_ok (mk_prefix (addr_new 10 id 0 node) l).
Proof.
  intros Hi Hn Hl. pose proof (addr_new_ok 10 id 0 node ltac:(done) Hi ltac:(done) Hn) as Ha.
  split; [cbn; lia|split; [done|]]. cbn [net len]. rewrite land_mask by (done || lia).
  unfold block. destruct Hl as [[-> ->]| ->].
  - change (2 ^ (32 - 24)) with 256. unfold addr_new. Z.div_mod_to_equations. lia.
  - change (2 ^ (32 - 32)) with 1. rewrite Z.div_1_r. lia.
Qed.

Lemma contains_host a ip : addr_ok a → addr_ok ip → contains (mk_prefix a 32) ip = true ↔ ip = a.
Proof.
  intros Ha Hip. unfold contains. cbn [net len]. rewrite land_mask by (done || lia). unfold block. change (2 ^ (32 - 32)) with 1.
  rewrite Z.div_1_r, Z.mul_1_r. by rewrite Z.eqb_eq.
Qed.

Lemma contains_block id ip : byte_ok id → addr_ok ip →
  contains (mk_prefix (addr_new 10 id 0 0) 24) ip = true ↔ ∃ node, byte_ok node ∧ ip = addr_new 10 id 0 node.
Proof.
  intros Hi Hip. rewrite contains_div; [|by apply plan_prefix_ok; auto|done]. unfold block, byte_ok, addr_new.
  cbn [net len]. change (2 ^ (32 - 24)) with 256. split.
  - intros E. exists (ip mod 256). split; [by apply Z.mod_pos_bound|]. Z.div_mod_to_equations. lia.
  - intros (node & Hn & ->). Z.div_mod_to_equations. lia.
Qed.

Lemma block_parses z : byte_ok (z_id z) →
  prefix_parse (block_of z ++ ".0.0/24") = Ok (mk_prefix (addr_new 10 (z_id z) 0 0) 24).
Proof.
  intros Hz. pose proof (proj2 (prefix_roundtrip EmptyString _) (plan_prefix_ok (z_id z) 0 24 Hz ltac:(done) ltac:(auto))) as H.
  rewrite show_plan in H by done. unfold block_of. by rewrite str_app_assoc.
Qed.

Lemma identity_parses z m : byte_ok (z_id z) → byte_ok (m_node m) →
  prefix_parse (identity_addr_of z m ++ "/32") = Ok (mk_prefix (addr_new 10 (z_id z) 0 (m_node m)) 32).
Proof.
  intros Hz Hm. pose proof (proj2 (prefix_roundtrip EmptyString _) (plan_prefix_ok (z_id z) (m_node m) 32 Hz Hm ltac:(auto))) as H.
  rewrite show_plan in H by done. unfold identity_addr_of, block_of. by rewrite !str_app_assoc.
Qed.

(** *** What a gateway's policies accept *)

(** The routes of the address plan: a zone's identities, those of its leaves, and the hosts of
    this member's workload prefixes. *)
Definition identity_route (z : Zone) (r : Route) : Prop :=
  rt_len r = 32 ∧ ∃ node, byte_ok node ∧ rt_ip r = addr_new 10 (z_id z) 0 node.
Definition leaf_route (v : View) (z : Zone) (r : Route) : Prop :=
  rt_len r = 32 ∧ ∃ m, m ∈ f_members (v_fabric v) ∧ m_kind m = Leaf ∧ rt_ip r = addr_new 10 (z_id z) 0 (m_node m).
Definition vm_route (v : View) (r : Route) : Prop :=
  rt_len r = 32 ∧ ∃ row, row ∈ workload_rows v ∧ contains (wl_prefix (wr_wl row)) (rt_ip r) = true.

(** What the machine widths and the parsers ensure of a view. *)
Record typed (v : View) : Prop := {
  ty_zones z : z ∈ f_zones (v_fabric v) → byte_ok (z_id z);
  ty_nodes m : m ∈ f_members (v_fabric v) → byte_ok (m_node m);
  ty_prefixes row : row ∈ workload_rows v → prefix_ok (wl_prefix (wr_wl row));
  ty_names : NoDup ((λ row, wl_name (wr_wl row)) <$> workload_rows v)
}.

Section gateway.
Context (v : View) (sets : list Value) (z : Zone) (r : Route).
Hypothesis Hty : typed v.
Hypothesis Hz : z ∈ f_zones (v_fabric v).
Hypothesis Hr : addr_ok (rt_ip r).
Hypothesis Hnames : NoDup (names sets).
Hypothesis Hin : ∀ s, s ∈ zone_sets v z → s ∈ sets.

Lemma identity_set_matches : set_matches sets (id_set (z_name z)) r = true ↔ identity_route z r.
Proof using Hty Hz Hr Hnames Hin.
  rewrite (prefix_set_matches _ _ _ _ Hnames (Hin (identity_set z) ltac:(left))). apply and_iff_compat_l.
  rewrite <-contains_block by (done || by apply (ty_zones _ Hty)). pose proof (block_parses z (ty_zones _ Hty z Hz)) as Ep.
  split; [|intros; eexists _, _; split; [left|done]].
  intros (s & p & ->%list_elem_of_singleton & E & Hc). rewrite Ep in E. by injection E as <-.
Qed.

Lemma leaf_set_matches : leaf_prefixes v z ≠ [] →
  set_matches sets (leaf_set (z_name z)) r = true ↔ leaf_route v z r.
Proof using Hty Hz Hr Hnames Hin.
  intros Hne. rewrite (prefix_set_matches _ _ (leaf_prefixes v z)); [|done|].
  2: { apply Hin. unfold zone_sets, leaf_sets. destruct (leaf_prefixes v z); [done|]. right; left. }
  apply and_iff_compat_l. unfold leaf_prefixes. split.
  - intros (s & p & (m & -> & [Hk Hm]%list_elem_of_filter)%list_elem_of_fmap & E & Hc).
    pose proof (ty_nodes _ Hty m Hm) as Hn. pose proof (ty_zones _ Hty z Hz) as Hzb.
    rewrite identity_parses in E by done. injection E as <-. exists m. split; [done|]. split; [done|].
    apply contains_host; [by apply addr_new_ok|done..].
  - intros (m & Hm & Hk & E). pose proof (ty_nodes _ Hty m Hm) as Hn. pose proof (ty_zones _ Hty z Hz) as Hzb.
    eexists _, _. split; [apply list_elem_of_fmap; exists m; split; [done|by apply list_elem_of_filter]|].
    split; [by apply identity_parses|]. apply contains_host; [by apply addr_new_ok|done..].
Qed.

Lemma leaves_kept_out :
  (leaf_prefixes v z ≠ [] → set_matches sets (leaf_set (z_name z)) r = false) ↔ ¬ leaf_route v z r.
Proof using Hty Hz Hr Hnames Hin.
  destruct (decide (leaf_prefixes v z = [])) as [E|Hne].
  - split; [intros _ (_ & m & Hm & Hk & _)|done].
    assert ((identity_addr_of z m ++ "/32")%string ∈ leaf_prefixes v z) as H; [|rewrite E in H; by apply not_elem_of_nil in H].
    apply list_elem_of_fmap. exists m. split; [done|by apply list_elem_of_filter].
  - rewrite <-leaf_set_matches by done. rewrite <-not_true_iff_false. tauto.
Qed.

Lemma workload_set_matches row : row ∈ workload_rows v →
  set_matches sets (wl_set (z_name z) (wl_name (wr_wl row))) r = true ↔
    rt_len r = 32 ∧ contains (wl_prefix (wr_wl row)) (rt_ip r) = true.
Proof using Hty Hnames Hin.
  intros Hrow. rewrite (prefix_set_matches _ _ [prefix_show (wl_prefix (wr_wl row))]); [|done|].
  2: { apply Hin. right. apply elem_of_app. right. by apply (list_elem_of_fmap_2 (workload_set z)). }
  apply and_iff_compat_l. pose proof (proj2 (prefix_roundtrip EmptyString _) (ty_prefixes _ Hty row Hrow)) as Ep.
  split; [|intros; eexists _, _; split; [left|done]].
  intros (s & p & ->%list_elem_of_singleton & E & Hc). rewrite Ep in E. by injection E as <-.
Qed.

Lemma import_verdict :
  verdict sets (import_stmts v z) r = true ↔ identity_route z r ∧ ¬ leaf_route v z r.
Proof using Hty Hz Hr Hnames Hin.
  unfold import_stmts. rewrite zone_verdict.
  - rewrite leaves_kept_out, <-identity_set_matches. split.
    + intros (? & a & ->%list_elem_of_singleton & Ha). done.
    + intros [Hi ?]. split; [done|]. eexists. split; [left|done].
  - apply NoDup_singleton.
  - by intros a ->%list_elem_of_singleton.
Qed.

Lemma export_verdict :
  verdict sets (export_stmts v z) r = true ↔ (identity_route z r ∨ vm_route v r) ∧ ¬ leaf_route v z r.
Proof using Hty Hz Hr Hnames Hin.
  unfold export_stmts. rewrite zone_verdict.
  - rewrite leaves_kept_out, <-identity_set_matches. unfold vm_route. split.
    + intros (? & a & [->|(row & -> & Hrow)%list_elem_of_fmap]%elem_of_cons & Ha); (split; [|done]); [by left|right].
      change (set_matches sets (wl_set (z_name z) (wl_name (wr_wl row))) r = true) in Ha.
      apply workload_set_matches in Ha as [? ?]; [eauto|done].
    + intros [[Hi|(Hl & row & Hrow & Hc)] ?]; (split; [done|]); eexists; (split; [|]).
      * left.
      * done.
      * right. by apply (list_elem_of_fmap_2 (λ r, statement ("wl-" ++ wl_name (wr_wl r)) _ _)).
      * by apply workload_set_matches.
  - cbn [app fmap list_fmap]. apply list.NoDup_cons. rewrite <-list_fmap_compose. split.
    + intros (row & E & _)%list_elem_of_fmap. done.
    + pose proof (ty_names _ Hty) as Hn.
      apply (NoDup_fmap_2 (λ n, ("wl-" ++ n)%string)) in Hn. by rewrite <-list_fmap_compose in Hn.
  - intros a [->|(row & -> & Hrow)%list_elem_of_fmap]%elem_of_cons; done.
Qed.
End gateway.
End Policies.

(** *** From the tree to one zone's statements *)

Lemma import_not_export a b : import_policy a ≠ export_policy b.
Proof.
  intros E. unfold import_policy, export_policy in E. rewrite <-!str_app_assoc in E.
  by apply append_inj in E as [_ E].
Qed.
Lemma import_policy_inj a b : import_policy a = import_policy b → a = b.
Proof. unfold import_policy. rewrite <-!str_app_assoc. intros E%append_inj_r. by simplify_eq/=. Qed.
Lemma export_policy_inj a b : export_policy a = export_policy b → a = b.
Proof. unfold export_policy. rewrite <-!str_app_assoc. intros E%append_inj_r. by simplify_eq/=. Qed.

Section gateways.
Context (refused : Refusal → Error) (v : View) (d : Rows).

Lemma gw_zone_inv row z gw :
  gw_zone refused v row = Ok (z, gw) → zone (v_fabric v) (z_name z) = Ok z ∧ z_gw z = Some gw.
Proof.
  unfold gw_zone, zone. destruct (List.find _ _) as [z1|] eqn:E1; [|done].
  destruct (z_gw z1) eqn:Eg; [|done]. intros [= <- <-]. split; [|done].
  pose proof (find_Some_elem _ _ _ E1) as [_ H1%String.eqb_eq]. by rewrite H1, E1.
Qed.

Lemma ingress_zones t routes tree row zg :
  generate_with refused v d t routes = Ok tree → row ∈ rw_gw d → gw_zone refused v row = Ok zg →
  ∃ zs, zg ∈ zs ∧ (∀ x, x ∈ zs → zone (v_fabric v) (z_name x.1) = Ok x.1 ∧ z_gw x.1 = Some x.2)
    ∧ policies tree = zs ≫= (λ x, zone_policies v x.1) ∧ prefix_sets tree = zs ≫= (λ x, zone_sets v x.1).
Proof.
  intros (static & bgp & _ & Eb & _ & _ & -> & ->)%generate_inv Hrow Hz.
  assert (∃ zs, collect (gw_zone refused v) (rw_gw d) = Ok zs ∧
    ∃ owner nets, bgp = Some (routing_policy v zs, bgp_instance v owner zs nets)) as (zs & Ezs & owner & nets & ->).
  { destruct bgp as [[pol b]|].
    - apply ingress_inv in Eb as (zs & owner & nets & ? & -> & -> & _). eauto 6.
    - unfold ingress_bgp in Eb. destruct (rw_gw d) as [|r0 rs]; [by apply not_elem_of_nil in Hrow|].
      destruct (collect _ _) as [zs|] eqn:Ec; [|done]. destruct (min_by_key _ _ _) eqn:Em; [done|].
      apply min_by_key_None in Em. apply collect_ok in Ec. destruct zs; [|done]. inversion Ec. }
  exists zs. split; [|split; [|done]].
  - apply collect_ok in Ezs. apply list_elem_of_lookup in Hrow as [i Hi].
    destruct (Forall2_lookup_l _ _ _ _ _ Ezs Hi) as (y & Hy & E). rewrite Hz in E. injection E as <-.
    by eapply list_elem_of_lookup_2.
  - intros [z' gw'] Hx. destruct (collect_elem _ _ _ _ Ezs Hx) as (row' & _ & E'). by eapply gw_zone_inv.
Qed.

(** A zone's policy is found under its name: two zones of one name are one zone. *)
Lemma find_policy zs (z : Zone * ZoneGw) n stmts :
  (∀ x, x ∈ zs → zone (v_fabric v) (z_name x.1) = Ok x.1 ∧ z_gw x.1 = Some x.2) → z ∈ zs →
  (n = import_policy (z_name z.1) ∧ stmts = import_stmts v z.1
   ∨ n = export_policy (z_name z.1) ∧ stmts = export_stmts v z.1) →
  Policies.find_named n (zs ≫= (λ x, zone_policies v x.1)) = Some (policy_def n stmts).
Proof.
  intros Hzs Hz Hn. unfold Policies.find_named. destruct (List.find _ _) as [y|] eqn:E.
  - apply find_Some_elem in E as [Hy Ey%Policies.is_str_true].
    apply list_elem_of_bind in Hy as (x & Hy & Hx).
    assert (z_name x.1 = z_name z.1 → x.1 = z.1) as Hsame.
    { intros En. destruct (Hzs x Hx) as [H1 _], (Hzs z Hz) as [H2 _]. rewrite En in H1. congruence. }
    apply elem_of_cons in Hy as [->|Hy]; [|apply list_elem_of_singleton in Hy as ->];
      cbn in Ey; injection Ey as Ey; destruct Hn as [[-> ->]|[-> ->]].
    + by rewrite (Hsame (import_policy_inj _ _ Ey)).
    + by apply import_not_export in Ey.
    + by apply symmetry, import_not_export in Ey.
    + by rewrite (Hsame (export_policy_inj _ _ Ey)).
  - rewrite find_None_iff in E. specialize (E (policy_def n stmts)). cbn in E. rewrite String.eqb_refl in E.
    discriminate E. apply list_elem_of_bind. exists z. split; [|done].
    destruct Hn as [[-> ->]|[-> ->]]; [left|right; left].
Qed.
End gateways.

(** C5. What the gateways are offered. Provided no two prefix sets of the tree have one name, the
    tree of a member that carries an ingress leg lets exactly this much of the routing table through
    the policies of the leg's zone: into BGP go the identities of the zone's block, and to the
    router go those and the hosts of this member's workload prefixes; a leaf's identity goes neither
    way, and no route that is not a single host does. The proviso is not the gate's: set names are
    zone and workload names joined by dashes, and a fabric that passes the gate can make two of them
    equal ([Sample.sets_clash]); then a policy's prefix set is not determined by its name. *)
Theorem gateways_offered_only_plan_routes refused v d t routes tree row z gw r
    (Hgen : generate_with refused v d t routes = Ok tree)
    (Hsets : NoDup (names (prefix_sets tree))) (Hty : Policies.typed v)
    (Hrow : row ∈ rw_gw d) (Hz : gw_zone refused v row = Ok (z, gw)) (Hr : addr_ok (Policies.rt_ip r)) :
  (Policies.accepts tree (import_policy (z_name z)) r = true ↔
     Policies.identity_route z r ∧ ¬ Policies.leaf_route v z r)
  ∧ (Policies.accepts tree (export_policy (z_name z)) r = true ↔
       (Policies.identity_route z r ∨ Policies.vm_route v r) ∧ ¬ Policies.leaf_route v z r).
Proof.
  destruct (ingress_zones _ _ _ _ _ _ _ _ Hgen Hrow Hz) as (zs & Hin & Hzs & Ep & Es).
  assert (∀ s, s ∈ zone_sets v z → s ∈ prefix_sets tree) as Hsub.
  { intros s Hs. rewrite Es. apply list_elem_of_bind. by exists (z, gw). }
  assert (z ∈ f_zones (v_fabric v)) as Hzf.
  { destruct (gw_zone_inv _ _ _ _ _ Hz) as [Ez _]. unfold zone in Ez.
    destruct (List.find _ _) as [z1|] eqn:E1; [|done]. apply find_Some_elem in E1 as [? _]. congruence. }
  unfold Policies.accepts. rewrite Ep. split.
  - rewrite (find_policy v zs (z, gw) _ (import_stmts v z)) by auto. by apply Policies.import_verdict.
  - rewrite (find_policy v zs (z, gw) _ (export_stmts v z)) by auto. by apply Policies.export_verdict.
Qed.

(** ** Concrete instances *)

Module Sample.
Definition view : View := Derive.Sample.view.
Definition refused (_ : Refusal) : Error := Config "refused".
Definition rows_for (v : View) : Rows :=
  match rows_of v with
  | Ok d => d
  | Err _ => {| rw_class := []; rw_gw := []; rw_fallback := []; rw_owned := []; rw_wires := [] |}
  end.
Definition rows : Rows := rows_for view.
Definition vm : Ipv4Network := (3232235530, 32).
Definition routes : WorkloadRoutes := {["cfab-work-vms"%string := {[vm]}]}.
Definition tree_of (v : View) (r : WorkloadRoutes) : Value :=
  match generate_with refused v (rows_for v) Declared r with Ok t => t | Err _ => Null end.

Definition route (a b c e l : Z) : Policies.Route := {| Policies.rt_ip := addr_new a b c e; Policies.rt_len := l |}.
Definition offered (p : string) (r : Policies.Route) : bool := Policies.accepts (tree_of view routes) p r.

(** The member's own identity, its peer's and a VM are offered; a leaf, the block, a segment
    address and a VM of another subnet are not. Redistribution takes no VM. *)
Example offers :
  offered (export_policy "storage") (route 10 10 0 1 32) && offered (export_policy "storage") (route 10 10 0 2 32)
  && offered (export_policy "storage") (route 192 168 0 10 32)
  && negb (offered (export_policy "storage") (route 10 10 0 3 32))
  && negb (offered (export_policy "storage") (route 10 10 0 0 24))
  && negb (offered (export_policy "storage") (route 10 10 1 2 32))
  && negb (offered (export_policy "storage") (route 192 168 1 10 32))
  && offered (import_policy "storage") (route 10 10 0 2 32)
  && negb (offered (import_policy "storage") (route 192 168 0 10 32)) = true.
Proof. vm_compute. done. Qed.

(** A route asked for on a leg this member does not have is refused, an empty set included. *)
Example unknown_leg :
  generate_with refused view rows Declared {["cfab-work-x"%string := ∅]}
  = Err (Config "no workload interface cfab-work-x on this member").
Proof. vm_compute. done. Qed.

(** Zone and workload names may hold a dash, so the sets' names are not always apart. *)
Definition other : Zone :=
  {| z_name := "storage-wl-x"; z_id := 11; z_pcp := 3; z_dscp := Cs2; z_floor_mbps := 1000; z_band := 2;
     z_weight := 2; z_primary := "a";
     z_gw := Some {| gw_scope := Universal; gw_vid := 251; gw_router := "172.17.0.254" |} |}.
Definition x_id : Workload :=
  {| wl_name := "x-id"; wl_uplink := "eth2"; wl_vid := 300; wl_prefix := mk_prefix 3232235520 24;
     wl_gw := 3232235521; wl_dhcp_server := Some 3232236033; wl_allow := ["storage"%string] |}.
Definition m1 : Member :=
  {| m_name := "h1"; m_node := 1; m_kind := Host; m_wires := m_wires Derive.Sample.h1;
     m_workloads := [ {| mw_name := "x-id"; mw_address := 3232235522; mw_len := 24 |} ] |}.
Definition clash : Fabric :=
  let f := Derive.Sample.fabric in
  {| f_domains := f_domains f; f_members := [m1; Derive.Sample.h2; Derive.Sample.leaf];
     f_zones := f_zones f ++ [other];
     f_segments := f_segments f ++
       [ {| s_ifname := "ot-a"; s_scope := OnDomain "a"; s_zone := "storage-wl-x"; s_seg := 1; s_vid := 111 |} ];
     f_wire_prefs := f_wire_prefs f; f_leaf_cost_offset := f_leaf_cost_offset f; f_host_forward := true;
     f_forward_allow := f_forward_allow f; f_admin_floor_mbps := f_admin_floor_mbps f;
     f_admin_band := f_admin_band f; f_pcp_ctrl := f_pcp_ctrl f; f_dscp_mark := true; f_bfd := f_bfd f;
     f_ospf := f_ospf f; f_bgp := f_bgp f; f_run_dir := f_run_dir f; f_dns_domain := f_dns_domain f;
     f_workloads := [x_id] |}.
Example sets_clash :
  validate clash = Ok tt
  ∧ Policies.str_of <$> names (prefix_sets (tree_of {| v_fabric := clash; v_member := m1 |} ∅))
    = ["cfab-storage-id"; "cfab-storage-leaf"; "cfab-storage-wl-x-id"; "cfab-storage-wl-x-id";
       "cfab-storage-wl-x-leaf"; "cfab-storage-wl-x-wl-x-id"]%string.
Proof. vm_compute. done. Qed.
End Sample.

Lemma tree_names_witness :
  let tree := Sample.tree_of Sample.view Sample.routes in
  generate_with Sample.refused Sample.view Sample.rows Declared Sample.routes = Ok tree
  ∧ length (interfaces tree) = 6%nat
  ∧ NoDup (names (interfaces tree))
  ∧ (∀ p i, p ∈ protocols tree → i ∈ ospf_interfaces p → index i "name" ∈ names (interfaces tree))
  ∧ (∀ p r, p ∈ protocols tree → r ∈ static_routes p →
       index (index r "next-hop") "outgoing-interface" ∈ names (interfaces tree))
  ∧ (∀ p n, p ∈ protocols tree → n ∈ used_policies p → n ∈ names (policies tree))
  ∧ (∀ p s, p ∈ policies tree → s ∈ statements p → set_named s ∈ names (prefix_sets tree)).
Proof.
  split; [by vm_compute|]. split; [by vm_compute|].
  apply (tree_names_only_what_it_defines Sample.refused Sample.view Sample.rows Declared Sample.routes).
  by vm_compute.
Defined.

Lemma sample_typed : Policies.typed Sample.view.
Proof.
  split.
  - intros z Hz. apply list_elem_of_singleton in Hz as ->. done.
  - intros m Hm. cbn in Hm. rewrite !elem_of_cons, elem_of_nil in Hm.
    by destruct Hm as [->|[->|[->|[]]]].
  - intros row Hrow. apply list_elem_of_singleton in Hrow as ->. by vm_compute.
  - by apply NoDup_singleton.
Qed.

Lemma gateways_witness :
  let tree := Sample.tree_of Sample.view Sample.routes in
  let leaf := Sample.route 10 10 0 3 32 in
  let z := Derive.Sample.storage in
  Policies.leaf_route Sample.view z leaf
  ∧ (Policies.accepts tree (import_policy "storage") leaf = true ↔
       Policies.identity_route z leaf ∧ ¬ Policies.leaf_route Sample.view z leaf)
  ∧ (Policies.accepts tree (export_policy "storage") leaf = true ↔
       (Policies.identity_route z leaf ∨ Policies.vm_route Sample.view leaf)
       ∧ ¬ Policies.leaf_route Sample.view z leaf).
Proof.
  split; [split; [done|]; exists Derive.Sample.leaf; split; [right; right; left|done]|].
  apply (gateways_offered_only_plan_routes Sample.refused Sample.view Sample.rows Declared Sample.routes _
    (hd {| gr_ifname := EmptyString; gr_home := EmptyString; gr_zone := EmptyString; gr_vid := 0; gr_ports := [] |}
       (rw_gw Sample.rows)) Derive.Sample.storage
    {| gw_scope := Universal; gw_vid := 250; gw_router := "172.16.0.254" |}).
  - by vm_compute.
  - eapply (NoDup_fmap_1 Policies.str_of). refine (bool_decide_eq_true_1 _ _). by vm_compute.
  - apply sample_typed.
  - vm_compute. left.
  - by vm_compute.
  - by vm_compute.
Defined.
