(* ===== verification/Engine.v ===== *)
(** The resident routing engine (src/src/engine/mod.rs, sock.rs and northbound.rs).

    The engine holds one configuration in force and a small state to regenerate it from. A
    request read from the socket becomes the trees to commit, in order, each with the state that
    is true once it is in force ([EngineState.apply]); [commit_steps] commits them one by one.
    What commits is an interface, [Committer], which the northbound's two-phase commit over the
    library's providers implements. *)
From Stdlib Require Import Ascii String.
From S2P Require Import Prelude Text Decl Net Fabric Derive Validate Shape EngineState HostRoutes Legs.
From S2P Require Import EngineConf.
Local Open Scope Z_scope.

(** ** Requests *)

Inductive Request :=
| ReqState
| ReqTransitCost (at_ : TransitCost)
| ReqWorkloadRoutes (leg : string) (ifindex : Z) (cidrs : gset Ipv4Network).

Definition summary (r : Request) : string :=
  match r with
  | ReqState => "state"
  | ReqTransitCost t => "transit-cost " ++ transit_word t
  | ReqWorkloadRoutes leg ifindex cidrs =>
      "workload-routes " ++ leg ++ " " ++ show ifindex ++ " (" ++ show (Z.of_nat (size cidrs)) ++ " routes)"
  end.

Section requests.
(** [Ipv4Network::from_str], the library's. *)
Context (parse_net : string → option Ipv4Network).

(** [net.ip() == net.network()]. *)
Definition no_host_bits (n : Ipv4Network) : bool := Z.land n.1 (mask n.2) =? n.1.

Fixpoint parse_cidrs (words : list string) (acc : gset Ipv4Network) : option (gset Ipv4Network) :=
  match words with
  | [] => Some acc
  | w :: words' =>
      n ← parse_net w;
      if negb (no_host_bits n) then None else parse_cidrs words' ({[n]} ∪ acc)
  end.

Definition parse_request (line : string) : option Request :=
  let line := trim line in
  if String.eqb line "state" then Some ReqState
  else if String.eqb line "transit-cost leaf" then Some (ReqTransitCost LeafOffset)
  else if String.eqb line "transit-cost normal" then Some (ReqTransitCost Declared)
  else
    rest ← strip_prefix "workload-routes " line;
    match split_whitespace rest with
    | leg :: ifindex :: words =>
        ifindex ← parse_uint u32_max ifindex;
        cidrs ← parse_cidrs words ∅;
        Some (ReqWorkloadRoutes leg ifindex cidrs)
    | _ => None
    end.
End requests.

(** ** What a re-commit regenerates from *)

Inductive Step := Withdraw | Install.
#[export] Instance Step_eq_dec : EqDecision Step.
Proof. solve_decision. Defined.
Definition step_str (s : Step) : string :=
  match s with Withdraw => "withdraw" | Install => "install" end.

Record EngineState := {
  es_transit : TransitCost;
  es_routes : gmap string (Z * gset Ipv4Network)
}.
Definition es_new : EngineState := {| es_transit := Declared; es_routes := ∅ |}.
Definition wanted (s : EngineState) : WorkloadRoutes := snd <$> es_routes s.
Definition with_routes (s : EngineState) (leg : string) (ifindex : Z) (cidrs : gset Ipv4Network)
    : EngineState :=
  {| es_transit := es_transit s; es_routes := <[leg := (ifindex, cidrs)]> (es_routes s) |}.

(** The leg's index moved under routes that are in force. *)
Definition moved (s : EngineState) (leg : string) (ifindex : Z) (cidrs : gset Ipv4Network) : bool :=
  negb (bool_decide (cidrs = ∅))
  && is_some_and (es_routes s !! leg) (λ had, negb (had.1 =? ifindex) && negb (bool_decide (had.2 = ∅))).

Definition plan_steps (s : EngineState) (req : Request) : list (Step * EngineState) :=
  match req with
  | ReqState => []
  | ReqTransitCost t => [(Install, {| es_transit := t; es_routes := es_routes s |})]
  | ReqWorkloadRoutes leg ifindex cidrs =>
      if moved s leg ifindex cidrs then
        let withdraw := with_routes s leg ifindex ∅ in
        [(Withdraw, withdraw); (Install, with_routes withdraw leg ifindex cidrs)]
      else [(Install, with_routes s leg ifindex cidrs)]
  end.

Section engine.
Context (refused : Refusal → Error) (v : View) (d : Rows).

Definition tree_of (s : EngineState) : result Error Value :=
  generate_with refused v d (es_transit s) (wanted s).

Definition apply (s : EngineState) (req : Request) : result Error (list (Step * Value * EngineState)) :=
  collect (λ st, tree <-? tree_of st.2 ;; Ok (st.1, tree, st.2)) (plan_steps s req).

(** ** Committing *)

(** What commits a tree: a state [NB] of its own, driven by what an [Env] answers. *)
Class Committer (NB Env : Type) := {
  commit_one : Env → NB → Value → NB * result Error bool;
  in_force : NB → Value → Prop;
  commit_lands env nb nb' tree b : commit_one env nb tree = (nb', Ok b) → in_force nb' tree;
  commit_fails env nb nb' tree e x :
    commit_one env nb tree = (nb', Err e) → in_force nb x → in_force nb' x
}.
Context `{Committer NB Env}.

Record CommitFailure := { cf_withdrew : bool; cf_err : Error }.

(** One tree after the other; the second component of the result is what was logged. *)
Fixpoint commit_steps (env : Env) (req : Request) (withdrew : bool)
    (steps : list (Step * Value * EngineState)) (nb : NB) (s : EngineState) (log : list string)
    : NB * EngineState * list string * result CommitFailure unit :=
  match steps with
  | [] => (nb, s, log, Ok tt)
  | (step, tree, next) :: steps' =>
      match commit_one env nb tree with
      | (nb', Err e) => (nb', s, log, Err {| cf_withdrew := withdrew; cf_err := e |})
      | (nb', Ok moved) =>
          let log := if moved then log ++ [summary req ++ " " ++ step_str step]%string else log in
          commit_steps env req (withdrew || bool_decide (step = Withdraw)) steps' nb' next log
      end
  end.

Definition commit (env : Env) (nb : NB) (s : EngineState) (req : Request)
    : NB * EngineState * list string * result CommitFailure unit :=
  match apply s req with
  | Err e => (nb, s, [], Err {| cf_withdrew := false; cf_err := e |})
  | Ok steps => commit_steps env req false steps nb s []
  end.

(** ** Serving *)

Definition workload_routes_reply (leg : string) (routes : Z) (outcome : result CommitFailure unit)
    : result Error Value :=
  match outcome with
  | Ok _ => Ok (Obj [("workload_routes", Obj [("leg", Str leg); ("routes", Num routes)])])
  | Err f =>
      if cf_withdrew f
      then Ok (Obj [("error", Str (display (cf_err f))); ("withdrew", Bool true)])
      else Err (cf_err f)
  end.

(** [get_state] is what the providers answered; [cfg] the tree the engine was started with. *)
Context (parse_net : string → option Ipv4Network) (debug : string → string) (cfg : Value).

Definition respond (env : Env) (get_state : result Error Value) (nb : NB) (s : EngineState) (req : Request)
    : NB * EngineState * list string * result Error Value :=
  match req with
  | ReqState => (nb, s, [], t <-? get_state ;; Ok (document true cfg [t]))
  | ReqTransitCost t =>
      match commit env nb s req with
      | (nb', s', log, Ok _) => (nb', s', log, Ok (Obj [("transit_cost", Str (transit_word t))]))
      | (nb', s', log, Err f) => (nb', s', log, Err (cf_err f))
      end
  | ReqWorkloadRoutes leg _ cidrs =>
      let '(nb', s', log, outcome) := commit env nb s req in
      (nb', s', log, workload_routes_reply leg (Z.of_nat (size cidrs)) outcome)
  end.

(** One connection: the line read, one JSON object written back. *)
Definition serve_one (env : Env) (get_state : result Error Value) (line : string) (nb : NB) (s : EngineState)
    : NB * EngineState * list string * Value :=
  match parse_request parse_net line with
  | None => (nb, s, [], Obj [("error", Str ("unknown request " ++ debug (trim line)))])
  | Some req =>
      let '(nb', s', log, r) := respond env get_state nb s req in
      (nb', s', log, match r with Ok x => x | Err e => Obj [("error", Str (display e))] end)
  end.

(** A life of the engine: the connections it accepted, one at a time. *)
Record Connection := { cn_env : Env; cn_state : result Error Value; cn_line : string }.
Fixpoint serve (conns : list Connection) (nb : NB) (s : EngineState) : NB * EngineState * list Value :=
  match conns with
  | [] => (nb, s, [])
  | c :: conns' =>
      let '(nb', s', _, reply) := serve_one (cn_env c) (cn_state c) (cn_line c) nb s in
      let '(nb'', s'', replies) := serve conns' nb' s' in
      (nb'', s'', reply :: replies)
  end.
End engine.

(** ** What is in force *)

Section facts.
Context (refused : Refusal → Error) (v : View) (d : Rows) `{HC : Committer NB Env}.

(** The state regenerates exactly the tree in force. *)
Definition in_sync (nb : NB) (s : EngineState) : Prop :=
  ∃ tree, tree_of refused v d s = Ok tree ∧ in_force nb tree.

Lemma apply_plan s req steps :
  apply refused v d s req = Ok steps →
  Forall2 (λ st x, x.1.1 = st.1 ∧ x.2 = st.2 ∧ tree_of refused v d st.2 = Ok x.1.2) (plan_steps s req) steps.
Proof.
  intros H%collect_ok. eapply list.Forall2_impl; [exact H|]. intros [step st] [[step' tree] st'] E. cbn in *.
  destruct (tree_of refused v d st); [|done]. by injection E as <- <- <-.
Qed.

(** Commits that land leave the state of the last one that did. *)
Lemma commit_steps_ran env req plan steps withdrew nb s log nb' s' log' r :
  Forall2 (λ st x, x.1.1 = st.1 ∧ x.2 = st.2 ∧ tree_of refused v d st.2 = Ok x.1.2) plan steps →
  in_sync nb s → commit_steps env req withdrew steps nb s log = (nb', s', log', r) →
  in_sync nb' s' ∧ ∃ k, s' = default s (list.last (take k plan.*2))
    ∧ match r with
      | Ok _ => k = length plan
      | Err f => (k < length plan)%nat
          ∧ cf_withdrew f = withdrew || any (λ st, bool_decide (st = Withdraw)) (take k plan.*1)
      end.
Proof.
  intros HF. revert withdrew nb s log. induction HF as [|[step st] [[step' tree] next] plan steps (E1 & E2 & E3) HF IH];
    intros withdrew nb s log Hs H; cbn in *.
  - injection H as <- <- <- <-. split; [done|]. exists 0%nat. done.
  - subst step' next. destruct (commit_one env nb tree) as [nb1 [b|e]] eqn:Ec.
    + apply IH in H as [Hsync (k & -> & Hk)]; [|exists tree; split; [done|]; by eapply commit_lands].
      split; [done|]. exists (S k). cbn. split.
      * destruct (take k plan.*2) as [|y l]; [done|]. change (list.last (st :: y :: l)) with (list.last (y :: l)).
        destruct (list.last (y :: l)) eqn:El; [done|]. by apply last_None in El.
      * destruct r as [u|f]; [by subst k|]. destruct Hk as [Hk ->]. split; [cbn; lia|].
        cbn. by rewrite orb_assoc.
    + injection H as <- <- <- <-. split.
      * destruct Hs as (x & Ex & Hx). exists x. split; [done|]. by eapply commit_fails.
      * exists 0%nat. split; [done|]. cbn. split; [lia|by rewrite orb_false_r].
Qed.

Lemma commit_ran env nb s req nb' s' log r :
  in_sync nb s → commit refused v d env nb s req = (nb', s', log, r) →
  in_sync nb' s' ∧ ∃ k, s' = default s (list.last (take k (plan_steps s req).*2))
    ∧ match r with
      | Ok _ => k = length (plan_steps s req)
      | Err f => k = 0%nat ∧ cf_withdrew f = false
          ∨ (k < length (plan_steps s req))%nat
            ∧ cf_withdrew f = any (λ st, bool_decide (st = Withdraw)) (take k (plan_steps s req).*1)
      end.
Proof.
  unfold commit. intros Hs. destruct (apply refused v d s req) as [steps|e] eqn:Ea.
  - intros H. eapply commit_steps_ran in H as [Hsync (k & Es & Hk)]; [|by apply apply_plan|done].
    split; [done|]. exists k. split; [done|]. destruct r; [done|by right].
  - intros [= <- <- <- <-]. split; [done|]. exists 0%nat. split; [done|by left].
Qed.

Lemma steps_transit s t : plan_steps s (ReqTransitCost t) = [(Install, {| es_transit := t; es_routes := es_routes s |})].
Proof. done. Qed.

(** What a request's answer says of the state it leaves. *)
Definition truthful (req : Request) (s s' : EngineState) (r : result Error Value) : Prop :=
  match req, r with
  | ReqState, _ => s' = s
  | _, Err _ => s' = s
  | ReqTransitCost t, Ok reply =>
      reply = Obj [("transit_cost", Str (transit_word t))]
      ∧ s' = {| es_transit := t; es_routes := es_routes s |}
  | ReqWorkloadRoutes leg i cidrs, Ok reply =>
      reply = Obj [("workload_routes", Obj [("leg", Str leg); ("routes", Num (Z.of_nat (size cidrs)))])]
        ∧ s' = with_routes s leg i cidrs
      ∨ (∃ e, reply = Obj [("error", Str e); ("withdrew", Bool true)]) ∧ s' = with_routes s leg i ∅
  end.

Lemma respond_truthful cfg env gs nb s req nb' s' log r :
  in_sync nb s → respond refused v d cfg env gs nb s req = (nb', s', log, r) →
  in_sync nb' s' ∧ truthful req s s' r.
Proof.
  intros Hs H. destruct req as [|t|leg i cidrs]; cbn [respond] in H.
  - by injection H as <- <- <- <-.
  - destruct (commit refused v d env nb s (ReqTransitCost t)) as [[[nb1 s1] log1] o] eqn:Ec.
    eapply commit_ran in Ec as [Hsync (k & Es & Hk)]; [|done]. cbn in Es, Hk.
    destruct o as [u|f]; injection H as <- <- <- <-; (split; [done|]); subst s1.
    + by subst k.
    + destruct Hk as [[-> _]|[Hk _]]; [done|]. destruct k; [done|lia].
  - destruct (commit refused v d env nb s _) as [[[nb1 s1] log1] o] eqn:Ec.
    eapply commit_ran in Ec as [Hsync (k & Es & Hk)]; [|done]. injection H as <- <- <- <-. split; [done|].
    cbn [plan_steps] in Es, Hk. unfold workload_routes_reply, truthful.
    destruct (moved s leg i cidrs); cbn in Es, Hk; (destruct o as [u|f]; [left|]).
    + subst k. cbn in Es. split; [done|]. subst s1. unfold with_routes. cbn. by rewrite insert_insert_eq.
    + subst s1. destruct Hk as [[-> ->]|[Hk ->]]; [done|]. destruct k as [|[|k]]; [done| |lia]. cbn. rewrite bool_decide_true by done. cbn. eauto.
    + subst k. cbn in Es. by subst s1.
    + subst s1. destruct Hk as [[-> ->]|[Hk ->]]; [done|]. destruct k; [done|lia].
Qed.

Lemma serve_one_truthful parse_net debug cfg env gs line nb s nb' s' log reply :
  in_sync nb s → serve_one refused v d parse_net debug cfg env gs line nb s = (nb', s', log, reply) →
  in_sync nb' s' ∧
  match parse_request parse_net line with
  | None => s' = s ∧ reply = Obj [("error", Str ("unknown request " ++ debug (trim line)))]
  | Some req => ∃ r, truthful req s s' r ∧ reply = match r with Ok x => x | Err e => Obj [("error", Str (display e))] end
  end.
Proof.
  intros Hs. unfold serve_one. destruct (parse_request parse_net line) as [req|].
  - destruct (respond _ _ _ _ _ _ _ _ _) as [[[nb1 s1] log1] r] eqn:Er. intros [= <- <- <- <-].
    eapply respond_truthful in Er as [? ?]; [|done]. eauto.
  - by intros [= <- <- <- <-].
Qed.

Lemma serve_in_sync parse_net debug cfg conns nb s nb' s' replies :
  in_sync nb s → serve refused v d parse_net debug cfg conns nb s = (nb', s', replies) → in_sync nb' s'.
Proof.
  revert nb s replies. induction conns as [|c conns IH]; intros nb s replies Hs; cbn; [by intros [= <- <- <-]|].
  destruct (serve_one _ _ _ _ _ _ _ _ _ _ _) as [[[nb1 s1] log1] r] eqn:E1.
  destruct (serve _ _ _ _ _ _ _ _ _) as [[nb2 s2] rs] eqn:E2. intros [= <- <- _].
  eapply serve_one_truthful in E1 as [? _]; [|done]. by eapply IH.
Qed.
End facts.

(** C33. The engine never claims more than it runs. From the tree it was started with, through any
    connections and whatever commits fail, the state it keeps regenerates exactly the
    configuration in force; and the next answer is true of it: an answered transit cost or route
    set is in force as asked, a refusal changes nothing, and a refusal that says [withdrew] means
    that this leg's routes - and nothing else - are gone. A line that is no request changes
    nothing. *)
Theorem engine_says_what_is_in_force `{HC : Committer NB Env} refused v d parse_net debug cfg conns
    nb0 nb s replies env gs line nb' s' log reply
    (Hstart : ∃ tree, generate refused v d = Ok tree ∧ in_force nb0 tree)
    (Hran : serve refused v d parse_net debug cfg conns nb0 es_new = (nb, s, replies))
    (Hnext : serve_one refused v d parse_net debug cfg env gs line nb s = (nb', s', log, reply)) :
  in_sync refused v d nb s ∧ in_sync refused v d nb' s' ∧
  match parse_request parse_net line with
  | None => s' = s ∧ reply = Obj [("error", Str ("unknown request " ++ debug (trim line)))]
  | Some req => ∃ r, truthful req s s' r ∧ reply = match r with Ok x => x | Err e => Obj [("error", Str (display e))] end
  end.
Proof.
  assert (in_sync refused v d nb0 es_new) as H0.
  { destruct Hstart as (tree & Hg & Hf). exists tree. split; [|done].
    unfold tree_of, wanted. cbn. by rewrite fmap_empty. }
  assert (in_sync refused v d nb s) as Hs by by eapply serve_in_sync.
  split; [done|]. by eapply serve_one_truthful.
Qed.

(** ** The northbound

    The configuration tree as the library parses it, the difference of two trees and the
    providers are the library's; what is committed, in which order and to whom, is the program's. *)
Section northbound.
Context {DataTree Diff Change : Type}.
Context (parse_candidate : Value → result Error DataTree).
Context (validate : DataTree → result Error unit) (diff : DataTree → DataTree → result Error Diff).
Context (diff_empty : Diff → bool) (changes_from_diff : Diff → list Change).
(** [provider_paths.get(&key.path)] and the change's data path. *)
Context (provider_of : Change → option nat) (data_path : Change → string) (providers : nat).

Inductive Phase := PhPrepare | PhApply | PhAbort.

(** One commit request to one provider: the phase, the provider and its batch of the changes. *)
Definition Asked : Type := Phase * nat * list Change.
Record Northbound := { nb_running : DataTree; nb_asked : list Asked }.
(** A provider's answer, which may depend on every request made so far, its own last. *)
Definition Answers := list Asked → result Error unit.

Definition batch (changes : list Change) (i : nat) : list Change :=
  List.filter (λ c, opt_eqb (provider_of c) (Some i)) changes.

Fixpoint notify (ans : Answers) (phase : Phase) (changes : list Change) (ps : list nat)
    (asked : list Asked) : list Asked * result Error unit :=
  match ps with
  | [] => (asked, Ok tt)
  | i :: ps' =>
      let asked := asked ++ [(phase, i, batch changes i)] in
      match ans asked with
      | Err e => (asked, Err e)
      | Ok _ => notify ans phase changes ps' asked
      end
  end.
Definition commit_phase_notify (ans : Answers) (phase : Phase) (changes : list Change)
    (asked : list Asked) : list Asked * result Error unit :=
  notify ans phase changes (seq 0 providers) asked.

Definition first_unmapped (changes : list Change) : option string :=
  data_path <$> List.find (λ c, bool_decide (provider_of c = None)) changes.

Definition no_owner (path : string) : Error :=
  Fatal ("engine: no provider owns configuration path " ++ path ++ " (holo-yang module set and "
           ++ "started providers disagree; refusing to drop it silently)").

Definition nb_commit (ans : Answers) (nb : Northbound) (candidate : DataTree)
    : Northbound * result Error bool :=
  match validate candidate with
  | Err e => (nb, Err e)
  | Ok _ =>
      match diff (nb_running nb) candidate with
      | Err e => (nb, Err e)
      | Ok df =>
          if diff_empty df then (nb, Ok false)
          else
            let changes := changes_from_diff df in
            match first_unmapped changes with
            | Some path => (nb, Err (no_owner path))
            | None =>
                match commit_phase_notify ans PhPrepare changes (nb_asked nb) with
                | (asked, Ok _) =>
                    match commit_phase_notify ans PhApply changes asked with
                    | (asked, Ok _) => ({| nb_running := candidate; nb_asked := asked |}, Ok true)
                    | (asked, Err e) => ({| nb_running := nb_running nb; nb_asked := asked |}, Err e)
                    end
                | (asked, Err e) =>
                    let '(asked, _) := commit_phase_notify ans PhAbort changes asked in
                    ({| nb_running := nb_running nb; nb_asked := asked |}, Err e)
                end
            end
      end
  end.

Definition northbound_commit (ans : Answers) (nb : Northbound) (tree : Value)
    : Northbound * result Error bool :=
  match parse_candidate tree with Err e => (nb, Err e) | Ok c => nb_commit ans nb c end.

(** Every provider asked in one phase, each with its batch. *)
Definition all_asked (phase : Phase) (changes : list Change) : list Asked :=
  (λ i, (phase, i, batch changes i)) <$> seq 0 providers.

Lemma notify_ran ans phase changes ps asked asked' r :
  notify ans phase changes ps asked = (asked', r) →
  ∃ k, asked' = asked ++ ((λ i, (phase, i, batch changes i)) <$> take k ps)
    ∧ (r = Ok tt → take k ps = ps
        ∧ ∀ j, (0 < j ≤ length ps)%nat →
            ans (asked ++ ((λ i, (phase, i, batch changes i)) <$> take j ps)) = Ok tt).
Proof using Type.
  revert asked. induction ps as [|i ps IH]; intros asked; cbn.
  - intros [= <- <-]. exists 0%nat. split; [by rewrite app_nil_r|]. split; [done|lia].
  - destruct (ans _) as [[]|e] eqn:Ea.
    + intros (k & -> & Hk)%IH. exists (S k). cbn. split; [by rewrite <-app_assoc|]. intros Hr.
      destruct (Hk Hr) as [Et Hall]. split; [by rewrite Et|]. intros [|[|j]] Hj; [lia|done|].
      specialize (Hall (S j) ltac:(lia)). by rewrite <-app_assoc in Hall.
    + intros [= <- <-]. exists 1%nat. by cbn.
Qed.

(** Each change goes to one provider, the one that owns its path. *)
Lemma batches_partition changes n :
  (∀ c, c ∈ changes → ∃ i, provider_of c = Some i ∧ (i < n)%nat) →
  (seq 0 n ≫= batch changes) ≡ₚ changes.
Proof using Type.
  clear data_path providers.
  induction changes as [|c changes IH]; intros H.
  - induction (seq 0 n) as [|i l IHl]; [done|]. by cbn.
  - destruct (H c ltac:(left)) as (i & Hi & Hn).
    assert (∀ l, NoDup l → (l ≫= batch (c :: changes))
              ≡ₚ (if bool_decide (i ∈ l) then [c] else []) ++ (l ≫= batch changes)) as Hl.
    { induction l as [|j l IHl]; intros Hnd; [by rewrite bool_decide_false by apply not_elem_of_nil|].
      apply list.NoDup_cons in Hnd as [Hj Hnd]. cbn [mbind list_bind].
      change (batch (c :: changes) j ++ (l ≫= batch (c :: changes)) ≡ₚ
        (if bool_decide (i ∈ j :: l) then [c] else []) ++ batch changes j ++ (l ≫= batch changes)).
      rewrite (IHl Hnd). unfold batch at 1. cbn [List.filter]. rewrite Hi. unfold opt_eqb.
      destruct (decide (i = j)) as [->|Hij].
      - rewrite (bool_decide_true (Some j = Some j)), (bool_decide_true (j ∈ j :: l)) by (done || left).
        by rewrite bool_decide_false by done.
      - rewrite (bool_decide_false (Some i = Some j)) by congruence.
        rewrite (bool_decide_ext (i ∈ j :: l) (i ∈ l)) by set_solver.
        rewrite !app_assoc. apply Permutation_app_tail, Permutation_app_comm. }
    rewrite Hl by apply NoDup_seq. rewrite bool_decide_true by (apply elem_of_seq; lia).
    cbn. by rewrite IH by set_solver.
Qed.
End northbound.

(** Which provider owns a schema path: the one registered for it or for its closest ancestor. *)
Definition register_provider (index : nat) (paths : list string) (reg : gmap string nat) : gmap string nat :=
  foldl (λ m p, <[p := index]> m) reg paths.
Fixpoint closest (fuel : nat) (reg : gmap string nat) (ancestor : string) : option nat :=
  match fuel with
  | O => None
  | S fuel' =>
      match reg !! ancestor with
      | Some index => Some index
      | None => '(a, _) ← rsplit_once "/"%char ancestor; closest fuel' reg a
      end
  end.
Definition resolve_provider_paths (snodes : list string) (reg : gmap string nat) : gmap string nat :=
  foldl (λ m p, match closest (S (String.length p)) reg p with Some i => <[p := i]> m | None => m end)
    ∅ snodes.

Lemma rsplit_once_length ch s a b : rsplit_once ch s = Some (a, b) → (String.length a < String.length s)%nat.
Proof.
  revert a b. induction s as [|c s IH]; intros a b; cbn; [done|].
  destruct (rsplit_once ch s) as [[a' b']|].
  - intros [= <- _]. cbn. specialize (IH a' b' eq_refl). lia.
  - destruct (Ascii.eqb c ch); [|done]. intros [= <- _]. cbn. lia.
Qed.

(** The walk up a path ends: it needs no more turns than the path has bytes. *)
Lemma closest_fuel reg n p : (String.length p < n)%nat → closest n reg p = closest (S (String.length p)) reg p.
Proof.
  remember (S (String.length p)) as m eqn:Em. assert (String.length p < m)%nat as Hm by lia. clear Em.
  revert m p Hm. induction n as [|n IH]; intros m p Hm Hn; [lia|]. destruct m as [|m]; [lia|]. cbn.
  destruct (reg !! p); [done|]. destruct (rsplit_once "/"%char p) as [[a b]|] eqn:E; [|done]. cbn.
  assert (String.length a < String.length p)%nat as Ha.
  { apply rsplit_once_length in E. lia. }
  apply IH; lia.
Qed.

Arguments Asked : clear implicits.
Arguments Northbound : clear implicits.
Arguments Answers : clear implicits.

Section two_phase.
Context {DataTree Diff Change : Type}.
Context (parse_candidate : Value → result Error DataTree).
Context (validate : DataTree → result Error unit) (diff : DataTree → DataTree → result Error Diff).
Context (diff_empty : Diff → bool) (changes_from_diff : Diff → list Change).
Context (provider_of : Change → option nat) (data_path : Change → string) (providers : nat).

(** The two trees differ in nothing the library reports. *)
Definition same (a b : DataTree) : Prop := ∃ df, diff a b = Ok df ∧ diff_empty df = true.

(** Every provider was asked to prepare these changes, and said yes. *)
Definition all_prepared (ans : Answers Change) (asked : list (Asked Change)) (changes : list Change) : Prop :=
  ∀ j, (0 < j ≤ providers)%nat →
    ans (asked ++ take j (all_asked provider_of providers PhPrepare changes)) = Ok tt.

Lemma phase_ran ans phase changes asked asked' r :
  commit_phase_notify provider_of providers ans phase changes asked = (asked', r) →
  ∃ k, asked' = asked ++ take k (all_asked provider_of providers phase changes)
    ∧ (r = Ok tt → asked' = asked ++ all_asked provider_of providers phase changes
        ∧ ∀ j, (0 < j ≤ providers)%nat →
            ans (asked ++ take j (all_asked provider_of providers phase changes)) = Ok tt).
Proof using Type.
  intros (k & -> & Hk)%notify_ran. exists k. unfold all_asked. rewrite <-fmap_take.
  split; [done|]. intros Hr. destruct (Hk Hr) as [-> Hall]. split; [done|]. intros j Hj.
  rewrite <-fmap_take. apply Hall. by rewrite length_seq.
Qed.

Lemma all_asked_phase phase changes x :
  x ∈ all_asked provider_of providers phase changes → x.1.1 = phase.
Proof using Type. unfold all_asked. by intros (i & -> & _)%list_elem_of_fmap. Qed.

(** Whoever is asked to apply, all were asked to prepare first, and all of them said yes. *)
Definition prepared_first (ans : Answers Change) (asked new : list (Asked Change)) : Prop :=
  ∀ pre i b post, new = pre ++ (PhApply, i, b) :: post →
  ∃ changes after, pre = all_asked provider_of providers PhPrepare changes ++ after
    ∧ all_prepared ans asked changes.

Lemma no_apply_prepared ans asked new : (∀ x, x ∈ new → x.1.1 ≠ PhApply) → prepared_first ans asked new.
Proof using Type.
  intros Hn pre i b post ->. destruct (Hn (PhApply, i, b)); [|done]. apply elem_of_app. right; left.
Qed.

Lemma taken_phase phase changes k x : x ∈ take k (all_asked provider_of providers phase changes) → x.1.1 = phase.
Proof using Type. intros (i & Hi & _)%elem_of_take. by eapply all_asked_phase, list_elem_of_lookup_2. Qed.

Definition outcome (ans : Answers Change) (nb : Northbound DataTree Change) (candidate : DataTree)
    (nb' : Northbound DataTree Change) (r : result Error bool) (new : list (Asked Change)) : Prop :=
  match r with
  | Ok true => nb_running nb' = candidate ∧ ∃ df, diff (nb_running nb) candidate = Ok df
      ∧ let changes := changes_from_diff df in
        new = all_asked provider_of providers PhPrepare changes ++ all_asked provider_of providers PhApply changes
        ∧ all_prepared ans (nb_asked nb) changes
        ∧ (seq 0 providers ≫= batch provider_of changes) ≡ₚ changes
  | Ok false => new = [] ∧ nb' = nb ∧ same (nb_running nb) candidate
  | Err _ => nb_running nb' = nb_running nb ∧ prepared_first ans (nb_asked nb) new
  end.

Lemma early_outcome ans nb candidate e :
  ∃ new, nb_asked nb = nb_asked nb ++ new ∧ outcome ans nb candidate nb (Err e) new.
Proof using Type.
  exists []. rewrite app_nil_r. split; [done|]. split; [done|].
  apply no_apply_prepared. by intros x Hx%not_elem_of_nil.
Qed.

Lemma nb_commit_outcome ans nb candidate nb' r
    (Howned : ∀ df c i, c ∈ changes_from_diff df → provider_of c = Some i → (i < providers)%nat)
    (Hcommit : nb_commit validate diff diff_empty changes_from_diff provider_of data_path providers
                 ans nb candidate = (nb', r)) :
  ∃ new, nb_asked nb' = nb_asked nb ++ new ∧ outcome ans nb candidate nb' r new.
Proof using Type.
  unfold nb_commit in Hcommit.
  destruct (validate candidate); [|injection Hcommit as <- <-; apply early_outcome].
  destruct (diff (nb_running nb) candidate) as [df|] eqn:Ed; [|injection Hcommit as <- <-; apply early_outcome].
  destruct (diff_empty df) eqn:Ee.
  { injection Hcommit as <- <-. exists []. rewrite app_nil_r. split; [done|]. split_and!; try done. by exists df. }
  destruct (first_unmapped _ _ _) eqn:Eu; [injection Hcommit as <- <-; apply early_outcome|].
  destruct (commit_phase_notify _ _ _ PhPrepare _ _) as [asked1 [[]|e1]] eqn:E1;
    apply phase_ran in E1 as (k1 & Ek1 & H1).
  - destruct (H1 eq_refl) as [-> Hprep].
    destruct (commit_phase_notify _ _ _ PhApply _ _) as [asked2 [[]|e2]] eqn:E2;
      apply phase_ran in E2 as (k2 & Ek2 & H2); injection Hcommit as <- <-; cbn [nb_asked].
    + destruct (H2 eq_refl) as [-> _]. eexists. split; [by rewrite <-app_assoc|]. split; [done|].
      exists df. split; [done|]. split; [done|]. split; [done|]. apply batches_partition. intros c Hc.
      unfold first_unmapped in Eu. destruct (List.find _ _) eqn:Ef; [done|]. rewrite find_None_iff in Ef.
      specialize (Ef c Hc). destruct (provider_of c) as [i|] eqn:Ei; [|done]. exists i. split; [done|]. by eapply Howned.
    + eexists. split; [by rewrite Ek2, <-app_assoc|]. split; [done|]. intros pre i b post E.
      symmetry in E. apply app_eq_inv in E as [(l & -> & _)|(l & E & E')]; [eauto|].
      destruct l as [|x l]; [rewrite app_nil_r in E; exists (changes_from_diff df), []; by rewrite app_nil_r, E|].
      injection E' as <- _. assert (PhApply = PhPrepare); [|done].
      apply (all_asked_phase PhPrepare (changes_from_diff df) (PhApply, i, b)). rewrite E.
      apply elem_of_app. right; left.
  - destruct (commit_phase_notify _ _ _ PhAbort _ _) as [asked2 r2] eqn:E2.
    apply phase_ran in E2 as (k2 & -> & _). injection Hcommit as <- <-. cbn [nb_asked].
    eexists. split; [by rewrite Ek1, <-app_assoc|]. split; [done|]. apply no_apply_prepared.
    intros x [Hx|Hx]%elem_of_app; apply taken_phase in Hx; by rewrite Hx.
Qed.

(** Nothing is applied that was not prepared everywhere. A commit that answers [true] asked
    every provider to prepare, got a yes from each, and then asked every provider to apply, each
    change going to exactly one of them, and the candidate is what runs; one that answers [false]
    asked nobody, for what runs is no different; and one that fails leaves what runs as it was,
    and asked a provider to apply only after all of them had prepared the same changes. *)
Theorem nothing_applied_unprepared ans nb candidate nb' r
    (Howned : ∀ df c i, c ∈ changes_from_diff df → provider_of c = Some i → (i < providers)%nat)
    (Hcommit : nb_commit validate diff diff_empty changes_from_diff provider_of data_path providers
                 ans nb candidate = (nb', r)) :
  ∃ new, nb_asked nb' = nb_asked nb ++ new ∧ outcome ans nb candidate nb' r new.
Proof using Type. by apply nb_commit_outcome. Qed.

(** The northbound is a committer: what is in force is what runs, up to the differences the
    library reports. *)
Definition northbound_in_force (nb : Northbound DataTree Change) (tree : Value) : Prop :=
  ∃ c, parse_candidate tree = Ok c ∧ same (nb_running nb) c.

Definition northbound_committer (Hrefl : ∀ t, same t t)
    (Howned : ∀ df c i, c ∈ changes_from_diff df → provider_of c = Some i → (i < providers)%nat)
    : Committer (Northbound DataTree Change) (Answers Change).
Proof.
  refine {|
    commit_one := northbound_commit parse_candidate validate diff diff_empty changes_from_diff
                    provider_of data_path providers;
    in_force := northbound_in_force |}.
  - intros ans nb nb' tree b. unfold northbound_commit, northbound_in_force.
    destruct (parse_candidate tree) as [c|]; [|done]. intros H. exists c. split; [done|].
    apply nb_commit_outcome in H as (new & _ & H); [|done]. destruct b; cbn in H.
    + by destruct H as [-> _].
    + by destruct H as (_ & -> & ?).
  - intros ans nb nb' tree e x. unfold northbound_commit, northbound_in_force.
    destruct (parse_candidate tree) as [c|]; [|by intros [= <- _]]. intros H.
    apply nb_commit_outcome in H as (new & _ & [-> _]); [|done]. done.
Defined.
End two_phase.

(** ** Where a route leads

    A static route names its leg; the library resolves the name to the leg's kernel index once,
    when the commit adds the route, and keeps that index for as long as the route stays. A leg
    that is built anew has a new index, so routes that merely stay lead nowhere. *)

Definition has_route (tree : Value) (leg dest : string) : bool :=
  any (λ p, any (λ r, is_str (index r "destination-prefix") dest
                      && is_str (index (index r "next-hop") "outgoing-interface") leg)
             (static_routes p)) (protocols tree).

Class Resolver (NB Env : Type) `{Committer NB Env} := {
  (** the index a leg's route leads to, and a leg's index while [Env] answers *)
  fib : NB → string → string → option Z;
  ifindex : Env → string → Z;
  fib_lands env nb nb' tree b old leg dest :
    commit_one env nb tree = (nb', Ok b) → in_force nb old →
    fib nb' leg dest =
      if has_route tree leg dest
      then if has_route old leg dest then fib nb leg dest else Some (ifindex env leg)
      else None;
  fib_fails env nb nb' tree e leg dest :
    commit_one env nb tree = (nb', Err e) → fib nb' leg dest = fib nb leg dest
}.

Section resolving.
Context (refused : Refusal → Error) (v : View) (d : Rows) `{HR : Resolver NB Env}.

(** The state asks for this route. *)
Definition routed (s : EngineState) (leg dest : string) (i : Z) : Prop :=
  ∃ cidrs c, es_routes s !! leg = Some (i, cidrs) ∧ c ∈ cidrs ∧ dest = network_show c.

Lemma static_routes_of routes static r :
  collect (leg_routes v) (routes_in_order routes) = Ok static →
  r ∈ mjoin static ↔ ∃ leg cidrs c, routes !! leg = Some cidrs ∧ c ∈ cidrs ∧ r = static_route leg c.
Proof using Type.
  intros Hs. pose proof (proj1 (collect_ok _ _ _) Hs) as HF. rewrite list_elem_of_join. split.
  - intros (rs & Hr & Hrs). destruct (collect_elem _ _ _ _ Hs Hrs) as ([leg cidrs] & Hin & E).
    unfold leg_routes in E. destruct (any _ _); [|done]. injection E as <-.
    apply list_elem_of_fmap in Hr as (c & -> & Hc). exists leg, cidrs, c.
    apply elem_of_btree_iter in Hin. by apply elem_of_btree_set_iter in Hc.
  - intros (leg & cidrs & c & Hl & Hc & ->). apply (elem_of_btree_iter str_leb) in Hl.
    apply list_elem_of_lookup in Hl as [n Hn]. destruct (Forall2_lookup_l _ _ _ _ _ HF Hn) as (rs & Hrs & E).
    exists rs. split; [|by eapply list_elem_of_lookup_2]. unfold leg_routes in E. destruct (any _ _); [|done].
    injection E as <-. cbn. apply list_elem_of_fmap. exists c. split; [done|]. by apply elem_of_btree_set_iter.
Qed.

Lemma wanted_lookup s leg : wanted s !! leg = snd <$> es_routes s !! leg.
Proof using Type. apply lookup_fmap. Qed.

Lemma has_route_iff s tree leg dest :
  tree_of refused v d s = Ok tree → has_route tree leg dest = true ↔ ∃ i, routed s leg dest i.
Proof using Type.
  intros (static & bgp & Es & Eb & _ & Ep & _)%generate_inv.
  assert (has_route tree leg dest = true ↔ ∃ r, r ∈ mjoin static ∧
    is_str (index r "destination-prefix") dest && is_str (index (index r "next-hop") "outgoing-interface") leg = true) as ->.
  { unfold has_route. rewrite any_true. setoid_rewrite any_true. split.
    - intros (p & Hp & r & Hr & Hb). exists r. split; [|done]. rewrite Ep, !elem_of_app in Hp.
      destruct Hp as [(z & -> & _)%list_elem_of_fmap|[Hp|Hp]]; [by apply not_elem_of_nil in Hr| |].
      + destruct (workload_rows v); [by apply not_elem_of_nil in Hp|]. apply list_elem_of_singleton in Hp as ->. done.
      + destruct bgp as [[pol b]|]; [|by apply not_elem_of_nil in Hp]. apply list_elem_of_singleton in Hp as ->.
        apply ingress_inv in Eb as (zs & owner & nets & _ & _ & -> & _). by apply not_elem_of_nil in Hr.
    - intros (r & Hr & Hb). destruct (static_named v _ _ _ Es Hr) as (row & Hrow & _).
      exists (static_instance (mjoin static)). split; [|by exists r]. rewrite Ep, !elem_of_app. right; left.
      destruct (workload_rows v); [by apply not_elem_of_nil in Hrow|left]. }
  setoid_rewrite static_routes_of; [|done]. unfold routed. setoid_rewrite wanted_lookup. split.
  - intros (r & (leg' & cidrs & c & Hl & Hc & ->) & Hb). cbn in Hb. apply andb_true_iff in Hb as [Ed%String.eqb_eq El%String.eqb_eq].
    subst leg' dest.
    destruct (es_routes s !! leg) as [[i cidrs']|] eqn:E; [|done]. injection Hl as ->. eauto 6.
  - intros (i & cidrs & c & Hl & Hc & ->). exists (static_route leg c). split.
    + exists leg, cidrs, c. by rewrite Hl.
    + cbn. by rewrite !String.eqb_refl.
Qed.

(** Every route asked for leads to the index its leg was last reported with, and no other
    route is there. *)
Definition fresh (nb : NB) (s : EngineState) : Prop :=
  ∀ leg dest, (∀ i, routed s leg dest i → fib nb leg dest = Some i)
    ∧ ((∀ i, ¬ routed s leg dest i) → fib nb leg dest = None).

(** A step that keeps every staying route's index, and gives a new one the leg's. *)
Definition links (env : Env) (s s' : EngineState) : Prop :=
  ∀ leg dest i', routed s' leg dest i' →
    (∀ i, routed s leg dest i → i = i') ∧ ((∀ i, ¬ routed s leg dest i) → ifindex env leg = i').

Fixpoint linked (env : Env) (s : EngineState) (plan : list (Step * EngineState)) : Prop :=
  match plan with [] => True | (_, st) :: plan' => links env s st ∧ linked env st plan' end.

Lemma step_fresh env nb nb' tree b s s' :
  in_sync refused v d nb s → fresh nb s → tree_of refused v d s' = Ok tree → links env s s' →
  commit_one env nb tree = (nb', Ok b) → fresh nb' s'.
Proof using Type.
  intros (old & Eo & Ho) Hf Et Hl Hc leg dest. rewrite (fib_lands _ _ _ _ _ _ leg dest Hc Ho). split.
  - intros i' Hi'. rewrite (proj2 (has_route_iff s' tree leg dest Et)) by eauto.
    destruct (Hl leg dest i' Hi') as [H1 H2]. destruct (has_route old leg dest) eqn:Eold.
    + apply (has_route_iff s old leg dest Eo) in Eold as [i Hi]. rewrite <-(H1 i Hi). by apply Hf.
    + f_equal. apply H2. intros i Hi. assert (has_route old leg dest = true); [|congruence].
      apply (has_route_iff s old leg dest Eo). eauto.
  - intros Hn. destruct (has_route tree leg dest) eqn:E; [|done].
    apply (has_route_iff s' tree leg dest Et) in E as [i Hi]. by apply Hn in Hi.
Qed.

Lemma commit_steps_fresh env req plan steps withdrew nb s log nb' s' log' r :
  Forall2 (λ st x, x.1.1 = st.1 ∧ x.2 = st.2 ∧ tree_of refused v d st.2 = Ok x.1.2) plan steps →
  in_sync refused v d nb s → fresh nb s → linked env s plan →
  commit_steps env req withdrew steps nb s log = (nb', s', log', r) → fresh nb' s'.
Proof using Type.
  intros HF. revert withdrew nb s log. induction HF as [|[step st] [[step' tree] next] plan steps (E1 & E2 & E3) HF IH];
    intros withdrew nb s log Hs Hf Hl Hrun; cbn in *; [by injection Hrun as <- <- _ _|].
  subst step' next. destruct Hl as [Hl Hls]. destruct (commit_one env nb tree) as [nb1 [b|e]] eqn:Ec.
  - eapply IH; [| |exact Hls|exact Hrun].
    + exists tree. split; [done|]. by eapply commit_lands.
    + by eapply step_fresh.
  - injection Hrun as <- <- _ _. intros leg dest. rewrite (fib_fails _ _ _ _ _ leg dest Ec). apply Hf.
Qed.

Lemma routed_with_routes s leg0 i0 cidrs0 leg dest i :
  routed (with_routes s leg0 i0 cidrs0) leg dest i ↔
    if bool_decide (leg = leg0) then i = i0 ∧ ∃ c, c ∈ cidrs0 ∧ dest = network_show c
    else routed s leg dest i.
Proof using Type.
  unfold routed, with_routes. cbn. case_bool_decide as Hl.
  - subst leg0. setoid_rewrite lookup_insert_eq. split; [|naive_solver].
    intros (cidrs & c & [= -> ->] & Hc & Hd). eauto.
  - setoid_rewrite lookup_insert_ne; [|done]. done.
Qed.

Lemma routed_same_index s leg dest dest' i i' :
  routed s leg dest i → routed s leg dest' i' → i = i'.
Proof using Type. intros (? & ? & E & _) (? & ? & E' & _). congruence. Qed.

(** A request that reports the leg's index gives a plan that keeps every route fresh. *)
Lemma plan_linked env s req :
  (∀ leg i cidrs, req = ReqWorkloadRoutes leg i cidrs → ifindex env leg = i) → linked env s (plan_steps s req).
Proof using Type.
  intros Htrue. destruct req as [|t|leg i cidrs]; [done| |].
  - split; [|done]. intros leg dest i' Hr. change (routed s leg dest i') in Hr. split.
    + intros i Hi. by eapply routed_same_index.
    + intros Hn. by apply Hn in Hr.
  - specialize (Htrue leg i cidrs eq_refl). assert (∀ s0 cs,
      (∀ dest i0 c, routed s0 leg dest i0 → c ∈ cs → i0 = i) → links env s0 (with_routes s0 leg i cs)) as Hlink.
    { intros s0 cs Hleg l dest i' Hr%routed_with_routes. case_bool_decide as El.
      - subst l. destruct Hr as [-> (c & Hc & _)]. split; [|done]. intros i0 Hi0. by eapply Hleg.
      - split; [intros i0 Hi0; by eapply routed_same_index|intros Hn; by apply Hn in Hr]. }
    cbn [plan_steps]. destruct (moved s leg i cidrs) eqn:Em; cbn [linked]; split.
    + apply Hlink. intros dest i0 c _ Hc. set_solver.
    + split; [|done]. apply Hlink. intros dest i0 c Hr%routed_with_routes _.
      rewrite bool_decide_true in Hr by done. by destruct Hr.
    + apply Hlink. intros dest i0 c (had & c0 & El & Hc0 & _) Hc. unfold moved in Em.
      rewrite El in Em. cbn in Em. rewrite !bool_decide_false in Em by set_solver. cbn in Em.
      rewrite andb_true_r in Em. by apply negb_false_iff, Z.eqb_eq in Em.
    + done.
Qed.

Lemma respond_fresh cfg env gs nb s req nb' s' log r :
  in_sync refused v d nb s → fresh nb s →
  (∀ leg i cidrs, req = ReqWorkloadRoutes leg i cidrs → ifindex env leg = i) →
  respond refused v d cfg env gs nb s req = (nb', s', log, r) → fresh nb' s'.
Proof using Type.
  intros Hs Hf Htrue Hr. assert (∀ nb' s' log o, commit refused v d env nb s req = (nb', s', log, o) → fresh nb' s') as Hc.
  { unfold commit. intros nb1 s1 log1 o Ho. destruct (apply refused v d s req) as [steps|e] eqn:Ea;
      [|by injection Ho as <- <- _ _].
    eapply commit_steps_fresh; [by apply apply_plan|done..|by apply plan_linked|exact Ho]. }
  destruct req as [|t|leg i cidrs]; cbn [respond] in Hr; [by injection Hr as <- <- _ _|..];
    destruct (commit _ _ _ _ _ _ _) as [[[nb1 s1] log1] o] eqn:Ec; specialize (Hc _ _ _ _ eq_refl).
  - destruct o; by injection Hr as <- <- _ _.
  - by injection Hr as <- <- _ _.
Qed.
End resolving.

(** C4. Every route leads to the leg that is there. Let the driver of the socket report, with each
    route set, the index its leg has at that moment. Then, from the start and through any
    connections - legs rebuilt under a new index, commits failing at any step, costs changed in
    between - every route the engine's state asks for leads to the index its leg was last reported
    with, and no route leads anywhere else: none is left pointing at a leg that is gone. *)
Theorem routes_lead_to_the_reported_leg `{HR : Resolver NB Env} refused v d parse_net debug cfg conns
    nb0 nb s replies
    (Hstart : ∃ tree, generate refused v d = Ok tree ∧ in_force nb0 tree)
    (Hempty : ∀ leg dest, fib nb0 leg dest = None)
    (Htrue : ∀ c leg i cidrs, c ∈ conns →
       parse_request parse_net (cn_line c) = Some (ReqWorkloadRoutes leg i cidrs) → ifindex (cn_env c) leg = i)
    (Hran : serve refused v d parse_net debug cfg conns nb0 es_new = (nb, s, replies)) :
  ∀ leg dest, (∀ i, routed s leg dest i → fib nb leg dest = Some i)
    ∧ ((∀ i, ¬ routed s leg dest i) → fib nb leg dest = None).
Proof.
  assert (in_sync refused v d nb0 es_new) as H0.
  { destruct Hstart as (tree & Hg & Hf). exists tree. split; [|done].
    unfold tree_of, wanted. cbn. by rewrite fmap_empty. }
  assert (fresh nb0 es_new) as Hf0 by (intros leg dest; split; [intros i (cs & c & Hn & _)|]; done).
  clear Hstart Hempty. change (fresh nb s). revert nb0 replies H0 Hf0 Hran. generalize es_new.
  induction conns as [|c conns IH]; intros s0 nb0 replies Hs Hf Hran; cbn in Hran; [by injection Hran as <- <- _|].
  destruct (serve_one _ _ _ _ _ _ _ _ _ _ _) as [[[nb1 s1] log1] reply] eqn:E1.
  destruct (serve _ _ _ _ _ _ _ _ _) as [[nb2 s2] rs] eqn:E2. injection Hran as <- <- _.
  assert (in_sync refused v d nb1 s1) as Hs1 by by eapply serve_one_truthful in E1 as [? _].
  eapply IH; [intros; eapply Htrue; [by right|done]|exact Hs1| |exact E2].
  unfold serve_one in E1. destruct (parse_request parse_net (cn_line c)) as [req|] eqn:Ep;
    [|by injection E1 as <- <- _ _].
  destruct (respond _ _ _ _ _ _ _ _ _) as [[[nb3 s3] log3] r] eqn:Er. injection E1 as <- <- _ _.
  eapply respond_fresh; [exact Hs|done| |exact Er]. intros leg i cidrs ->. eapply Htrue; [left|done].
Qed.

(** ** The drivers are understood *)

Lemma trim_end_lf a : trim_end (a ++ String char_lf EmptyString)%string = trim_end a.
Proof. induction a as [|c a IH]; [done|]. rewrite str_app_cons. cbn [trim_end]. by rewrite IH. Qed.

Lemma words_trimmed ts :
  ts ≠ [] → Forall (λ t, word t = true ∧ t ≠ EmptyString) ts →
  let s := String.concat EmptyString ((λ t, " " ++ t)%string <$> ts) in trim_end s = s ∧ s ≠ EmptyString.
Proof.
  intros Hne. induction 1 as [|t ts [Hw Ht] Hts IH]; [done|]. rewrite fmap_cons, concat_cons.
  split; [|done]. destruct ts as [|t' ts].
  - cbn [fmap list_fmap String.concat]. rewrite str_app_nil_r. apply trim_end_app; [by apply trim_end_word|done].
  - destruct IH as [H1 H2]; [done|]. by apply trim_end_app.
Qed.

Lemma show_addr_word a : addr_ok a → word (show_addr a) = true ∧ show_addr a ≠ EmptyString.
Proof.
  intros Ha. split.
  - unfold show_addr, addr_ok, u32_max in *. rewrite !word_app, !show_word; [done|..];
      try (apply Z.mod_pos_bound; lia); apply Z.div_pos; lia.
  - intros E. pose proof (parse_addr_show a Ha) as H. by rewrite E in H.
Qed.

Lemma parse_cidrs_hosts parse_net l acc :
  (∀ a, addr_ok a → parse_net (show_addr a ++ "/32")%string = Some (a, 32)) → Forall addr_ok l →
  parse_cidrs parse_net ((λ a, show_addr a ++ "/32")%string <$> l) acc
  = Some (list_to_set ((λ a, (a, 32)) <$> l) ∪ acc).
Proof.
  intros Hnet. revert acc. induction l as [|a l IH]; intros acc; [intros _; cbn; by rewrite (left_id_L ∅ (∪))|].
  intros [Ha Hl]%list.Forall_cons. rewrite !fmap_cons. cbn [parse_cidrs]. rewrite (Hnet a Ha).
  cbn [mbind option_bind]. unfold no_host_bits. cbn [fst snd]. rewrite land_mask by (done || lia).
  unfold block. change (2 ^ (32 - 32)) with 1. rewrite Z.div_1_r, Z.mul_1_r, Z.eqb_refl. cbn [negb].
  rewrite IH by done. f_equal. cbn [list_to_set]. set_solver.
Qed.

(** C40. What the host routes ask for is what the engine hears. For a leg whose name has no space
    in it, the line a tick of the host routes sends for a leg, an index and a set of addresses is
    read by the engine as the request to originate exactly those host routes on that leg, with
    that index; an empty set is the withdrawal of all of them. *)
Theorem driver_line_understood parse_net wl i wanted
    (Hleg : word (leg_ifname wl) = true) (Hi : 0 ≤ i ≤ u32_max) (Hok : ∀ a, a ∈ wanted → addr_ok a)
    (Hnet : ∀ a, addr_ok a → parse_net (show_addr a ++ "/32")%string = Some (a, 32)) :
  parse_request parse_net (ask_line wl i wanted)
  = Some (ReqWorkloadRoutes (leg_ifname wl) i (set_map (λ a, (a, 32)) wanted)).
Proof.
  set (cidrs := (λ a, show_addr a ++ "/32")%string <$> sorted wanted).
  set (words := leg_ifname wl :: show i :: cidrs).
  assert (Forall addr_ok (sorted wanted)) as Hs.
  { apply list.Forall_forall. intros a Ha. apply Hok. by apply elem_of_btree_set_iter in Ha. }
  assert (Forall (λ t, word t = true ∧ t ≠ EmptyString) words) as Hw.
  { apply list.Forall_cons. split; [done|]. apply list.Forall_cons. split; [split; [apply show_word; lia|apply show_not_empty; lia]|].
    unfold cidrs. apply list.Forall_fmap. eapply list.Forall_impl; [exact Hs|]. intros a Ha. cbn.
    destruct (show_addr_word a Ha) as [H1 H2]. split; [by rewrite word_app, H1|]. by destruct (show_addr a). }
  assert (ask_line wl i wanted = ("workload-routes" ++ String.concat EmptyString ((λ t, " " ++ t)%string <$> words))
    ++ String char_lf EmptyString)%string as Eline.
  { unfold ask_line, words. rewrite !fmap_cons, !concat_cons, !str_app_assoc. unfold cidrs.
    rewrite <-list_fmap_compose. done. }
  destruct (words_trimmed words) as [Ht Hne]; [done|done|].
  assert (trim (ask_line wl i wanted)
    = ("workload-routes " ++ leg_ifname wl ++ String.concat EmptyString ((λ t, " " ++ t)%string <$> show i :: cidrs))%string) as Etrim.
  { unfold trim. rewrite Eline. transitivity (trim_end (("workload-routes"
      ++ String.concat EmptyString ((λ t, " " ++ t)%string <$> words)) ++ String char_lf EmptyString)%string); [done|].
    rewrite trim_end_lf, trim_end_app by done. unfold words. rewrite fmap_cons, concat_cons. by rewrite !str_app_assoc. }
  assert (split_whitespace (leg_ifname wl ++ String.concat EmptyString ((λ t, " " ++ t)%string <$> show i :: cidrs))
    = words) as Esplit.
  { rewrite <-split_whitespace_space, <-(split_whitespace_words words) by done. unfold words.
    rewrite (fmap_cons _ (leg_ifname wl)), concat_cons. by rewrite str_app_assoc. }
  unfold parse_request. rewrite Etrim. cbv zeta.
  match goal with |- (if ?b then _ else _) = _ => change b with false end. cbv iota.
  match goal with |- (if ?b then _ else _) = _ => change b with false end. cbv iota.
  match goal with |- (if ?b then _ else _) = _ => change b with false end. cbv iota.
  rewrite strip_prefix_app. cbn [mbind option_bind]. rewrite Esplit. unfold words.
  rewrite parse_uint_show by done. cbn [mbind option_bind]. unfold cidrs.
  rewrite parse_cidrs_hosts by done. cbn [mbind option_bind]. do 2 f_equal.
  rewrite (right_id_L ∅ (∪)). apply set_eq. intros x. rewrite elem_of_list_to_set, list_elem_of_fmap, elem_of_map.
  by setoid_rewrite (elem_of_btree_set_iter Z.leb wanted).
Qed.

(** ** Concrete instances *)

Module Demo.
(** A library that holds one tree and one table of routes; a commit is refused when [de_refuses]
    says so of the tree. *)
Record Lib := { li_tree : Value; li_fib : string → string → option Z }.
Record Weather := { we_index : string → Z; we_refuses : Value → bool }.

Definition lib_commit (w : Weather) (l : Lib) (tree : Value) : Lib * result Error bool :=
  if we_refuses w tree then (l, Err (Fatal "engine: commit Prepare rejected: no"))
  else ({| li_tree := tree;
           li_fib leg dest :=
             if has_route tree leg dest
             then if has_route (li_tree l) leg dest then li_fib l leg dest else Some (we_index w leg)
             else None |},
        Ok (negb (value_eqb (li_tree l) tree))).

#[global] Instance lib_committer : Committer Lib Weather.
Proof.
  refine {| commit_one := lib_commit; in_force l x := li_tree l = x |}.
  - intros w l l' tree b. unfold lib_commit. destruct (we_refuses w tree); [done|]. by intros [= <- _].
  - intros w l l' tree e x. unfold lib_commit. destruct (we_refuses w tree); [|done]. by intros [= <- _].
Defined.

#[global] Instance lib_resolver : Resolver Lib Weather.
Proof.
  refine {| fib := li_fib; ifindex := we_index |}.
  - intros w l l' tree b old leg dest. unfold commit_one, in_force. cbn. unfold lib_commit.
    destruct (we_refuses w tree); [done|]. intros [= <- _] <-. done.
  - intros w l l' tree e leg dest. unfold commit_one. cbn. unfold lib_commit.
    destruct (we_refuses w tree); [|done]. by intros [= <- _].
Defined.

Definition view : View := EngineConf.Sample.view.
Definition rows : Rows := EngineConf.Sample.rows.
Definition refused : Refusal → Error := EngineConf.Sample.refused.
Definition parse_net (s : string) : option Ipv4Network :=
  '(a, l) ← split_once "/"%char s; a ← parse_addr a; l ← parse_uint u8_max l; Some (a, l).
Definition debug (s : string) : string := s.
Definition cfg : Value := EngineConf.Sample.tree_of view ∅.
Definition start : Lib := {| li_tree := cfg; li_fib _ _ := None |}.

Definition calm (i : Z) : Weather := {| we_index _ := i; we_refuses _ := false |}.
(** A tree with a route in it is refused. *)
Definition rough (i : Z) : Weather :=
  {| we_index _ := i; we_refuses t := has_route t "cfab-work-vms" "192.168.0.10/32" |}.
Definition line (i : Z) : string :=
  ("workload-routes cfab-work-vms " ++ show i ++ " 192.168.0.10/32" ++ String char_lf EmptyString)%string.
Definition conn (w : Weather) (l : string) : Connection (Env := Weather) :=
  {| cn_env := w; cn_state := Ok Null; cn_line := l |}.

Definition life (conns : list Connection) : Lib * EngineState * list Value :=
  serve refused view rows parse_net debug cfg conns start es_new.
Definition leads (conns : list Connection) : option Z :=
  li_fib (life conns).1.1 "cfab-work-vms" "192.168.0.10/32".

(** A leg that comes back under another index takes its route along; had the request been one
    commit, the route would have stayed at the old one. *)
Example moved_leg :
  leads [conn (calm 7) (line 7)] = Some 7
  ∧ leads [conn (calm 7) (line 7); conn (calm 9) (line 9)] = Some 9
  ∧ leads [conn (calm 7) (line 7); conn (calm 9) "transit-cost leaf"] = Some 7.
Proof. vm_compute. done. Qed.

(** Where the second of the two commits fails the answer says that the route is gone, and the
    same request asked again puts it back. *)
Example withdrawn :
  (life [conn (calm 7) (line 7); conn (rough 9) (line 9)]).2 !! 1%nat
    = Some (Obj [("error", Str "FATAL: engine: commit Prepare rejected: no"); ("withdrew", Bool true)])
  ∧ leads [conn (calm 7) (line 7); conn (rough 9) (line 9)] = None
  ∧ leads [conn (calm 7) (line 7); conn (rough 9) (line 9); conn (calm 9) (line 9)] = Some 9.
Proof. vm_compute. done. Qed.

Definition history : list Connection := [conn (calm 7) (line 7); conn (calm 9) (line 9)].
End Demo.

Lemma engine_says_witness :
  let '(nb, s, _) := Demo.life Demo.history in
  let '(nb', s', _, reply) := serve_one Demo.refused Demo.view Demo.rows Demo.parse_net Demo.debug Demo.cfg
    (Demo.rough 11) (Ok Null) (Demo.line 11) nb s in
  is_some_and (get reply "withdrew") is_true = true
  ∧ in_sync Demo.refused Demo.view Demo.rows nb s ∧ in_sync Demo.refused Demo.view Demo.rows nb' s' ∧
  match parse_request Demo.parse_net (Demo.line 11) with
  | None => s' = s ∧ reply = Obj [("error", Str ("unknown request " ++ Demo.debug (trim (Demo.line 11))))]
  | Some req => ∃ r, truthful req s s' r ∧ reply = match r with Ok x => x | Err e => Obj [("error", Str (display e))] end
  end.
Proof.
  destruct (Demo.life Demo.history) as [[nb s] replies] eqn:El.
  destruct (serve_one _ _ _ _ _ _ _ _ _ nb s) as [[[nb' s'] log] reply] eqn:En. split.
  - assert ((let '(nb, s, _) := Demo.life Demo.history in
      let '(_, _, _, reply) := serve_one Demo.refused Demo.view Demo.rows Demo.parse_net Demo.debug Demo.cfg
        (Demo.rough 11) (Ok Null) (Demo.line 11) nb s in
      is_some_and (get reply "withdrew") is_true) = true) as H by (vm_compute; done).
    by rewrite El, En in H.
  - apply (engine_says_what_is_in_force Demo.refused Demo.view Demo.rows Demo.parse_net Demo.debug Demo.cfg
      Demo.history Demo.start nb s replies (Demo.rough 11) (Ok Null) (Demo.line 11) nb' s' log reply);
      [|exact El|exact En].
    exists Demo.cfg. split; [by vm_compute|done].
Defined.

Lemma routes_lead_witness :
  let '(nb, s, _) := Demo.life Demo.history in
  routed s "cfab-work-vms" "192.168.0.10/32" 9 ∧
  ∀ leg dest, (∀ i, routed s leg dest i → fib nb leg dest = Some i)
    ∧ ((∀ i, ¬ routed s leg dest i) → fib nb leg dest = None).
Proof.
  destruct (Demo.life Demo.history) as [[nb s] replies] eqn:El. split.
  - assert (es_routes (Demo.life Demo.history).1.2 !! "cfab-work-vms"%string = Some (9, {[(3232235530, 32)]})) as H
      by (vm_compute; done).
    rewrite El in H. exists {[(3232235530, 32)]}, (3232235530, 32). split; [done|]. split; [set_solver|done].
  - apply (routes_lead_to_the_reported_leg Demo.refused Demo.view Demo.rows Demo.parse_net Demo.debug Demo.cfg
      Demo.history Demo.start nb s replies); [|done| |exact El].
    + exists Demo.cfg. split; [by vm_compute|done].
    + intros c leg i cidrs Hc. unfold Demo.history in Hc. rewrite !elem_of_cons, elem_of_nil in Hc.
      destruct Hc as [->|[->|[]]]; vm_compute; by intros [= _ <- _].
Defined.

Module TwoPhase.
(** Trees are numbers; a difference changes the old one's path and the new one's, and even
    paths belong to one provider, odd ones to the other. *)
Definition diff (a b : nat) : result Error (nat * nat) := Ok (a, b).
Definition diff_empty (p : nat * nat) : bool := (p.1 =? p.2)%nat.
Definition changes (p : nat * nat) : list nat := [p.1; p.2].
Definition owner (c : nat) : option nat := if Nat.even c then Some 0%nat else Some 1%nat.
Definition validate (_ : nat) : result Error unit := Ok tt.
Definition path (_ : nat) : string := "/routing".
(** The [n]th request is refused. *)
Definition answers (n : nat) (asked : list (Asked nat)) : result Error unit :=
  if (length asked =? n)%nat then Err (Fatal "no") else Ok tt.
Definition idle : Northbound nat nat := {| nb_running := 1%nat; nb_asked := [] |}.
Definition commit (n candidate : nat) := nb_commit validate diff diff_empty changes owner path 2%nat (answers n) idle candidate.

(** Every request is answered yes; the second provider refuses to prepare the change, both are
    told to abort, and the running configuration stays. *)
Example accepted :
  nb_asked (commit 9 2%nat).1 = [(PhPrepare, 0%nat, [2%nat]); (PhPrepare, 1%nat, [1%nat]);
                             (PhApply, 0%nat, [2%nat]); (PhApply, 1%nat, [1%nat])]
  ∧ nb_running (commit 9 2%nat).1 = 2%nat.
Proof. vm_compute. done. Qed.
Example refused :
  nb_asked (commit 2 2).1 = [(PhPrepare, 0%nat, [2%nat]); (PhPrepare, 1%nat, [1%nat]);
                             (PhAbort, 0%nat, [2%nat]); (PhAbort, 1%nat, [1%nat])]
  ∧ nb_running (commit 2 2).1 = 1%nat.
Proof. vm_compute. done. Qed.

(** A provider that fails to apply leaves the ones before it on the new configuration, while
    what the program takes for running is still the old one. *)
Example half_applied :
  nb_asked (commit 4 2).1 = [(PhPrepare, 0%nat, [2%nat]); (PhPrepare, 1%nat, [1%nat]);
                             (PhApply, 0%nat, [2%nat]); (PhApply, 1%nat, [1%nat])]
  ∧ nb_running (commit 4 2).1 = 1%nat.
Proof. vm_compute. done. Qed.

(** An abort that one provider refuses does not reach the providers after it. *)
Definition twice (asked : list (Asked nat)) : result Error unit :=
  if (length asked =? 2)%nat || (length asked =? 3)%nat then Err (Fatal "no") else Ok tt.
Example abort_stops_short :
  nb_asked (nb_commit validate diff diff_empty changes owner path 2%nat twice idle 2%nat).1
  = [(PhPrepare, 0%nat, [2%nat]); (PhPrepare, 1%nat, [1%nat]); (PhAbort, 0%nat, [2%nat])].
Proof. vm_compute. done. Qed.
End TwoPhase.

Lemma unprepared_witness :
  (TwoPhase.commit 4 2).2 = Err (Fatal "no") ∧
  ∃ new, nb_asked (TwoPhase.commit 4 2).1 = nb_asked TwoPhase.idle ++ new ∧
    outcome TwoPhase.diff TwoPhase.diff_empty TwoPhase.changes TwoPhase.owner 2%nat (TwoPhase.answers 4)
      TwoPhase.idle 2%nat (TwoPhase.commit 4 2).1 (TwoPhase.commit 4 2).2 new.
Proof.
  split; [by vm_compute|].
  apply (nothing_applied_unprepared TwoPhase.validate TwoPhase.diff TwoPhase.diff_empty TwoPhase.changes
    TwoPhase.owner TwoPhase.path 2%nat (TwoPhase.answers 4) TwoPhase.idle 2%nat).
  - intros df c i _. unfold TwoPhase.owner. destruct (Nat.even c); intros [= <-]; lia.
  - by destruct (TwoPhase.commit 4 2) eqn:E.
Defined.

Lemma demo_parse_net a : addr_ok a → Demo.parse_net (show_addr a ++ "/32") = Some (a, 32).
Proof.
  intros Ha. unfold Demo.parse_net. change (show_addr a ++ "/32")%string with (show_addr a ++ String "/" "32")%string.
  rewrite split_once_join.
  - cbn [mbind option_bind]. by rewrite (parse_addr_show a Ha).
  - assert (∀ n, 0 ≤ n → free_of "/" (show n) = true) as Hf by (intros; by apply digits_free_of, show_digits).
    unfold show_addr, addr_ok, u32_max in *.
    rewrite !free_of_app, !Hf; [done|try apply Z.mod_pos_bound; try apply Z.div_pos; lia..].
Qed.

Lemma driver_line_witness :
  ask_line Derive.Sample.vms 7 {[3232235530]}
    = ("workload-routes cfab-work-vms 7 192.168.0.10/32" ++ String char_lf EmptyString)%string
  ∧ parse_request Demo.parse_net (ask_line Derive.Sample.vms 7 {[3232235530]})
    = Some (ReqWorkloadRoutes (leg_ifname Derive.Sample.vms) 7 (set_map (λ a, (a, 32)) ({[3232235530]} : gset Ipv4Addr))).
Proof.
  split; [by vm_compute|]. apply (driver_line_understood Demo.parse_net Derive.Sample.vms 7 {[3232235530]}).
  - by vm_compute.
  - by vm_compute.
  - intros a ->%elem_of_singleton. by vm_compute.
  - apply demo_parse_net.
Defined.
