(* ===== verification/Emit.v ===== *)
(** What [up] loads into the packet filters: the forward policy [table inet cfab-fwd]
    (src/src/emit/policy.rs), the marks and the control ceiling [table inet cfab]
    (src/src/emit/mark.rs), and the ceiling for a kernel without nf_tables
    (src/src/emit/ceiling_ipt.rs).

    A generator builds rules as data and renders them; the rendering is the text the source
    pushes, piece by piece. A [Refusal] stands for the panic of a row that does not derive, and
    for the [?] of a zone that is not declared. *)
From Stdlib Require Import Ascii String.
From S2P Require Import Prelude Text Decl Sys Net Fabric Derive Validate Legs.
Local Open Scope Z_scope.

Definition quoted (s : string) : string := (quote ++ s ++ quote)%string.

(** ** The forward policy *)

Inductive IfMatch :=
| InSet (set : string)
| OutsideSet (set : string)
| Named (ifname : string).
Inductive CtMatch := CtInvalid | CtReturning.
Inductive Verdict := VAccept | VDrop.
#[export] Instance Verdict_eq_dec : EqDecision Verdict.
Proof. solve_decision. Defined.

Record ForwardRule := {
  fw_iif : option IfMatch;
  fw_oif : option IfMatch;
  fw_ct : option CtMatch;
  (** [ip daddr != @set]. *)
  fw_not_in : option string;
  fw_counter : bool;
  fw_verdict : option Verdict;
  fw_comment : string
}.

Definition if_match_str (key : string) (m : IfMatch) : string :=
  match m with
  | InSet s => key ++ " @" ++ s
  | OutsideSet s => key ++ " != @" ++ s
  | Named n => key ++ " " ++ quoted n
  end.
Definition ct_match_str (c : CtMatch) : string :=
  match c with CtInvalid => "ct state invalid" | CtReturning => "ct state established,related" end.
Definition verdict_str (d : Verdict) : string := match d with VAccept => "accept" | VDrop => "drop" end.
Definition opt_list {A} (o : option A) : list A := match o with Some a => [a] | None => [] end.

Definition forward_rule_str (r : ForwardRule) : string :=
  ("    " ++ String.concat " "
     (opt_list (if_match_str "iifname" <$> fw_iif r) ++ opt_list (if_match_str "oifname" <$> fw_oif r)
      ++ opt_list (ct_match_str <$> fw_ct r)
      ++ opt_list ((λ s, "ip daddr != @" ++ s)%string <$> fw_not_in r)
      ++ (if fw_counter r then ["counter"%string] else [])
      ++ opt_list (verdict_str <$> fw_verdict r) ++ ["comment " ++ quoted (fw_comment r)]%string)
   ++ lf)%string.

Definition pair_rule (i o : IfMatch) (d : Verdict) (comment : string) : ForwardRule :=
  {| fw_iif := Some i; fw_oif := Some o; fw_ct := None; fw_not_in := None; fw_counter := true;
     fw_verdict := Some d; fw_comment := comment |}.

(** The five rules every policy opens with, down to the strays. *)
Definition opening_rules : list ForwardRule :=
  [{| fw_iif := Some (InSet "admin"); fw_oif := None; fw_ct := None; fw_not_in := None;
      fw_counter := true; fw_verdict := Some VDrop; fw_comment := "admin-in" |};
   {| fw_iif := None; fw_oif := Some (InSet "admin"); fw_ct := None; fw_not_in := None;
      fw_counter := true; fw_verdict := Some VDrop; fw_comment := "admin-out" |};
   pair_rule (OutsideSet "cfab") (OutsideSet "cfab") VAccept "foreign-transit";
   {| fw_iif := None; fw_oif := None; fw_ct := Some CtInvalid; fw_not_in := None;
      fw_counter := true; fw_verdict := None; fw_comment := "ct-invalid-seen" |}].

Definition stray_rule (wl : Workload) (z : string) : ForwardRule :=
  {| fw_iif := Some (InSet z); fw_oif := Some (Named (leg_ifname wl)); fw_ct := None;
     fw_not_in := Some (local_set wl); fw_counter := true; fw_verdict := None;
     fw_comment := "stray-" ++ wl_name wl |}.
Definition return_rule : ForwardRule :=
  {| fw_iif := None; fw_oif := None; fw_ct := Some CtReturning; fw_not_in := None;
     fw_counter := false; fw_verdict := Some VAccept; fw_comment := "return-of-allowed" |}.
Definition zone_rule (p : string * string) : ForwardRule :=
  pair_rule (InSet p.1) (InSet p.2) VAccept ("allow-" ++ p.1 ++ "-" ++ p.2).
Definition workload_zone_rules (wl : Workload) (z : string) : list ForwardRule :=
  [pair_rule (Named (leg_ifname wl)) (InSet z) VAccept ("allow-" ++ wl_name wl ++ "-" ++ z);
   pair_rule (InSet z) (Named (leg_ifname wl)) VAccept ("allow-" ++ z ++ "-" ++ wl_name wl)].
Definition workload_gw_rules (wl : Workload) (gw : string) (id : Z) : list ForwardRule :=
  [pair_rule (Named (leg_ifname wl)) (Named gw) VAccept ("allow-" ++ wl_name wl ++ "-gw" ++ show id);
   pair_rule (Named gw) (Named (leg_ifname wl)) VAccept ("allow-gw" ++ show id ++ "-" ++ wl_name wl)].
Definition default_deny : ForwardRule :=
  {| fw_iif := None; fw_oif := None; fw_ct := None; fw_not_in := None; fw_counter := true;
     fw_verdict := None; fw_comment := "default-deny" |}.

(** A list built by a body that may fail at any element. *)
Fixpoint try_bind {E A B} (f : A → result E (list B)) (l : list A) : result E (list B) :=
  match l with
  | [] => Ok []
  | x :: l' => ys <-? f x ;; zs <-? try_bind f l' ;; Ok (ys ++ zs)
  end.

Definition forward_rules (v : View) (gws : list GwRow) : result Refusal (list ForwardRule) :=
  let f := v_fabric v in
  let wls := wr_wl <$> workload_rows v in
  gw_pairs <-? try_bind (λ wl, try_bind (λ g, z <-? zone f (gr_zone g) ;;
                                              Ok (workload_gw_rules wl (gr_ifname g) (z_id z))) gws) wls ;;
  Ok (opening_rules
      ++ (wls ≫= λ wl, stray_rule wl <$> wl_allow wl)
      ++ [return_rule]
      ++ (zone_rule <$> f_forward_allow f)
      ++ (wls ≫= λ wl, wl_allow wl ≫= workload_zone_rules wl)
      ++ gw_pairs ++ [default_deny]).

(** [set <name> { type <ty>; elements = { .. } }], without the clause when there are none. *)
Definition set_str (name ty sep : string) (elems : list string) : string :=
  ("  set " ++ name ++ " { type " ++ ty ++ ";"
     ++ match elems with
        | [] => EmptyString
        | _ => " elements = { " ++ String.concat sep elems ++ " }"
        end ++ " }" ++ lf)%string.

(** The sets of interfaces: the admin plane and one per zone, in order, and all cfab owns. *)
Record IfSets := { is_named : list (string * list string); is_cfab : list string }.
Definition zone_set (v : View) (z : Zone) : result Refusal (list (string * list string)) :=
  ifs <-? zone_ifs v (z_name z) ;; Ok [(z_name z, ifs)].
Definition if_sets (v : View) : result Refusal IfSets :=
  zs <-? try_bind (zone_set v) (f_zones (v_fabric v)) ;;
  owned <-? owned_forwarding v ;;
  Ok {| is_named := ("admin"%string, admin_ifs v) :: zs; is_cfab := owned.*1 |}.

Definition if_set_str (s : string * list string) : string := set_str s.1 "ifname" "," (quoted <$> s.2).
(** [set cfab] always has its clause: a member owns its wires and identities. *)
Definition cfab_set_str (owned : list string) : string :=
  ("  set cfab { type ifname; elements = { " ++ String.concat "," (quoted <$> owned) ++ " } }" ++ lf)%string.

Definition local_set_str (locals : gmap string (gset Ipv4Addr)) (wl : Workload) : string :=
  set_str (local_set wl) "ipv4_addr" ", "
    (show_addr <$> btree_set_iter Z.leb (unwrap_or (locals !! local_set wl) ∅)).

Definition policy_seeded (v : View) (locals : gmap string (gset Ipv4Addr)) : result Refusal string :=
  gws <-? gw_rows v ;;
  sets <-? if_sets v ;;
  rules <-? forward_rules v gws ;;
  Ok (String.concat EmptyString
        (["table inet cfab-fwd" ++ lf; "delete table inet cfab-fwd" ++ lf;
          "table inet cfab-fwd {" ++ lf]%string
         ++ (if_set_str <$> is_named sets)
         ++ [cfab_set_str (is_cfab sets)]
         ++ (local_set_str locals <$> (wr_wl <$> workload_rows v))
         ++ ["  chain forward {" ++ lf;
             "    type filter hook forward priority filter; policy drop;" ++ lf]%string
         ++ (forward_rule_str <$> rules)
         ++ ["  }" ++ lf ++ "}" ++ lf]%string)).
Definition policy (v : View) : result Refusal string := policy_seeded v ∅.

(** *** The elements of the local sets, cut out *)

Fixpoint count_char (c : ascii) (s : string) : Z :=
  match s with
  | EmptyString => 0
  | String a s' => (if Ascii.eqb a c then 1 else 0) + count_char c s'
  end.
Definition balance (s : string) : Z := count_char "{" s - count_char "}" s.

(** [n.ends_with("-local")]. *)
Definition ends_with (suffix s : string) : bool :=
  let n := String.length s in
  let k := String.length suffix in
  (k <=? n)%nat && String.eqb (String.substring (n - k) k s) suffix.

Definition is_local_set_open (trimmed : string) : bool :=
  match strip_prefix "set " trimmed with
  | Some r => match head (split_whitespace r) with Some n => ends_with "-local" n | None => false end
  | None => false
  end.

(** What follows the brace that closes the one [s] opens with, [depth] braces being open. *)
Fixpoint after_close (depth : Z) (s : string) : option string :=
  match s with
  | EmptyString => None
  | String c s' =>
      if Ascii.eqb c "{" then after_close (depth + 1) s'
      else if Ascii.eqb c "}"
           then if depth - 1 =? 0 then Some s' else after_close (depth - 1) s'
           else after_close depth s'
  end.

Definition without_elements_clause (line : string) : string :=
  match String.index 0 " elements = {" line with
  | None => line
  | Some at_ =>
      match after_close 0 (String.substring at_ (String.length line) line) with
      | Some tail => (String.substring 0 at_ line ++ tail)%string
      | None => line
      end
  end.

(** The state of the scan: inside a [-local] block since the depth, lines still being skipped,
    and the depth of braces. *)
Record Cut := { cu_in_local : option Z; cu_skip : Z; cu_depth : Z }.
Definition cut0 : Cut := {| cu_in_local := None; cu_skip := 0; cu_depth := 0 |}.

Definition cut_line (st : Cut) (line : string) : Cut * string :=
  let t := trim line in
  let bal := balance t in
  if 0 <? cu_skip st then
    ({| cu_in_local := cu_in_local st; cu_skip := Z.max 0 (cu_skip st + bal); cu_depth := cu_depth st |},
     EmptyString)
  else if is_some_and (cu_in_local st) (λ _, true) && starts_with "elements = {" t then
    ({| cu_in_local := cu_in_local st; cu_skip := Z.max 0 bal; cu_depth := cu_depth st |}, EmptyString)
  else
    let outside := cu_depth st in
    let depth := outside + bal in
    let kept := (line ++ lf)%string in
    if is_some_and (cu_in_local st) (λ d, depth <=? d) then
      ({| cu_in_local := None; cu_skip := cu_skip st; cu_depth := depth |}, kept)
    else if is_local_set_open t then
      if 0 <? bal
      then ({| cu_in_local := Some outside; cu_skip := cu_skip st; cu_depth := depth |}, kept)
      else ({| cu_in_local := cu_in_local st; cu_skip := cu_skip st; cu_depth := depth |},
            (without_elements_clause line ++ lf)%string)
    else ({| cu_in_local := cu_in_local st; cu_skip := cu_skip st; cu_depth := depth |}, kept).

Fixpoint cut_lines (st : Cut) (ls : list string) : string :=
  match ls with
  | [] => EmptyString
  | l :: ls' => let '(st', out) := cut_line st l in (out ++ cut_lines st' ls')%string
  end.
Definition without_local_elements (text : string) : string := cut_lines cut0 (lines text).

(** ** Marks and the control ceiling *)

Definition CEILING_HEADROOM : Z := 4.
Definition CEILING_RXMT_SECS : Z := 5.
Definition CEILING_FLOOR_PPS : Z := 20.

Record Ceiling := {
  ce_zone : string; ce_ifname : string; ce_members : Z; ce_lans : Z; ce_lsas : Z; ce_peers : Z;
  ce_base_pps : Z; ce_rate_pps : Z; ce_burst_pkts : Z
}.

(** [a.div_ceil(b)]. *)
Definition div_ceil (a b : Z) : Z := (a + b - 1) / b.

Definition ceiling_comment (c : Ceiling) : string :=
  let n := λ f, show (f c : Z) in
  "    # ceiling " ++ ce_zone c ++ ": " ++ n ce_members ++ " members, " ++ n ce_lsas ++ " LSAs ("
    ++ n ce_members ++ " router + " ++ n ce_lans ++ " network), " ++ n ce_peers ++ " peers" ++ lf
    ++ "    #   base = 1 hello + 2x" ++ n ce_lsas ++ " flood + ceil(" ++ n ce_lsas ++ "x" ++ n ce_peers
    ++ "/" ++ show CEILING_RXMT_SECS ++ ") retx = " ++ n ce_base_pps ++ " pkt/s; x"
    ++ show CEILING_HEADROOM ++ " headroom = " ++ show (ce_base_pps c * CEILING_HEADROOM)
    ++ "; floor " ++ show CEILING_FLOOR_PPS ++ " pkt/s (measured burst) x" ++ show CEILING_HEADROOM
    ++ " = " ++ show (CEILING_FLOOR_PPS * CEILING_HEADROOM) ++ lf.

(** Peers, LSAs, base rate and rate. *)
Definition ceiling_pps (members lans hello_s : Z) : Z * Z * Z * Z :=
  let peers := Z.max 0 (members - 1) in
  let lsas := members + lans in
  let hello := div_ceil 1 (Z.max hello_s 1) in
  let flood := 2 * lsas in
  let retx := div_ceil (lsas * peers) CEILING_RXMT_SECS in
  let base := hello + flood + retx in
  let rate := Z.max (base * CEILING_HEADROOM) (CEILING_FLOOR_PPS * CEILING_HEADROOM) in
  (peers, lsas, base, rate).

(** Whether a member has a class row in the zone. *)
Definition in_zone (f : Fabric) (z : string) (m : Member) : result Refusal bool :=
  rows <-? class_rows_of f m ;; Ok (any (λ c, String.eqb (cr_zone c) z) rows).

Definition ceiling_of (f : Fabric) (r : FallbackRow) : result Refusal (list Ceiling) :=
  flags <-? try_bind (λ m, b <-? in_zone f (fr_zone r) m ;; Ok (if b then [tt] else [])) (f_members f) ;;
  let members := Z.of_nat (length flags) in
  let lans := Z.of_nat (length (List.filter (λ s, String.eqb (s_zone s) (fr_zone r)) (f_segments f))) in
  let '(peers, lsas, base, rate) := ceiling_pps members lans (od_hello_s (f_ospf f)) in
  Ok [{| ce_zone := fr_zone r; ce_ifname := fr_ifname r; ce_members := members; ce_lans := lans;
         ce_lsas := lsas; ce_peers := peers; ce_base_pps := base; ce_rate_pps := rate;
         ce_burst_pkts := rate * 2 |}].

Definition ceilings (v : View) : result Refusal (list Ceiling) :=
  rows <-? fallback_rows v ;; try_bind (ceiling_of (v_fabric v)) rows.

(** What a mark rule matches, and what it does. *)
Inductive MarkMatch := Ospf | BfdPort (port : Z) | Anything.
Inductive MarkStep := LimitDrop (rate burst : Z) | Return | DscpSet (d : Dscp).
Record MarkRule := {
  mk_iif : option string; mk_oifs : list string; mk_match : MarkMatch; mk_step : MarkStep;
  mk_comment : string
}.

Definition braced (ifs : list string) : string := "{ " ++ String.concat "," (quoted <$> ifs) ++ " }".
Definition mark_match_str (m : MarkMatch) : list string :=
  match m with
  | Ospf => ["ip protocol 89"]
  | BfdPort p => [("udp dport " ++ show p)%string]
  | Anything => []
  end.
Definition mark_step_str (s : MarkStep) : string :=
  match s with
  | LimitDrop rate burst =>
      "limit rate over " ++ show rate ++ "/second burst " ++ show burst ++ " packets counter drop"
  | Return => "return"
  | DscpSet d => "ip dscp set " ++ dscp_str d
  end.
Definition mark_rule_str (r : MarkRule) : string :=
  ("    " ++ String.concat " "
     (opt_list ((λ i, "iifname " ++ quoted i)%string <$> mk_iif r)
      ++ ["oifname " ++ braced (mk_oifs r)]%string ++ mark_match_str (mk_match r)
      ++ [mark_step_str (mk_step r); "comment " ++ quoted (mk_comment r)]%string)
   ++ lf)%string.
(** The rule for one interface names it without braces. *)
Definition mark_leg_rule_str (r : MarkRule) (oif : string) : string :=
  ("    " ++ String.concat " "
     (opt_list ((λ i, "iifname " ++ quoted i)%string <$> mk_iif r)
      ++ ["oifname " ++ quoted oif]%string ++ mark_match_str (mk_match r)
      ++ [mark_step_str (mk_step r); "comment " ++ quoted (mk_comment r)]%string)
   ++ lf)%string.

Definition out_rule (oifs : list string) (m : MarkMatch) (s : MarkStep) (comment : string) : MarkRule :=
  {| mk_iif := None; mk_oifs := oifs; mk_match := m; mk_step := s; mk_comment := comment |}.

Definition ceiling_rule (c : Ceiling) : MarkRule :=
  out_rule [ce_ifname c] Ospf (LimitDrop (ce_rate_pps c) (ce_burst_pkts c)) ("ceiling-" ++ ce_zone c).

(** The guards and the clamp of one zone, none when the member has no interface in it. *)
Definition clamp_rules (v : View) (z : Zone) : result Refusal (list MarkRule) :=
  ifs <-? zone_ifs v (z_name z) ;;
  Ok (match ifs with
      | [] => []
      | _ => [out_rule ifs Ospf Return ("guard-" ++ z_name z ++ "-ospf");
              out_rule ifs (BfdPort (bd_port (f_bfd (v_fabric v)))) Return ("guard-" ++ z_name z ++ "-bfd");
              out_rule ifs Anything (DscpSet (z_dscp z)) ("dscp-" ++ z_name z ++ "-bulk")]
      end).

Definition out_rules (v : View) : result Refusal (list MarkRule) :=
  cs <-? ceilings v ;;
  clamps <-? (if f_dscp_mark (v_fabric v) then try_bind (clamp_rules v) (f_zones (v_fabric v)) else Ok []) ;;
  Ok ((ceiling_rule <$> cs) ++ clamps).

Definition leg_rule (wl : Workload) (oifs : list string) (z : Zone) (comment : string) : MarkRule :=
  {| mk_iif := Some (leg_ifname wl); mk_oifs := oifs; mk_match := Anything;
     mk_step := DscpSet (z_dscp z); mk_comment := comment |}.

Definition vm_zone_rules (v : View) (wl : Workload) (zname : string) : result Refusal (list MarkRule) :=
  ifs <-? zone_ifs v zname ;;
  match ifs with
  | [] => Ok []
  | _ => z <-? zone (v_fabric v) zname ;;
         Ok [leg_rule wl ifs z ("dscp-" ++ wl_name wl ++ "-" ++ zname)]
  end.
Definition vm_gw_rule (v : View) (wl : Workload) (g : GwRow) : result Refusal (list MarkRule) :=
  z <-? zone (v_fabric v) (gr_zone g) ;;
  Ok [leg_rule wl [gr_ifname g] z ("dscp-" ++ wl_name wl ++ "-gw" ++ show (z_id z))].

(** The rules of one workload: the zones', in braces, then the ingress legs', by name. *)
Definition vm_rules (v : View) (wl : Workload) : result Refusal (list (MarkRule * bool)) :=
  zs <-? try_bind (vm_zone_rules v wl) (wl_allow wl) ;;
  gws <-? gw_rows v ;;
  gs <-? try_bind (vm_gw_rule v wl) gws ;;
  Ok (((λ r, (r, true)) <$> zs) ++ ((λ r, (r, false)) <$> gs)).

Definition vm_rule_str (p : MarkRule * bool) : string :=
  if p.2 then mark_rule_str p.1
  else mark_leg_rule_str p.1 (unwrap_or (head (mk_oifs p.1)) EmptyString).

Definition mark_table (v : View) : result Refusal string :=
  let wls := wr_wl <$> workload_rows v in
  cs <-? ceilings v ;;
  clamps <-? (if f_dscp_mark (v_fabric v) then try_bind (clamp_rules v) (f_zones (v_fabric v)) else Ok []) ;;
  vms <-? try_bind (vm_rules v) wls ;;
  Ok (String.concat EmptyString
        (["table inet cfab" ++ lf; "delete table inet cfab" ++ lf; "table inet cfab {" ++ lf;
          "  chain out {" ++ lf; "    type filter hook output priority mangle;" ++ lf]%string
         ++ ((λ c, ceiling_comment c ++ mark_rule_str (ceiling_rule c))%string <$> cs)
         ++ (mark_rule_str <$> clamps) ++ ["  }" ++ lf]%string
         ++ (match wls with
             | [] => []
             | _ => ["  chain forward {" ++ lf;
                     "    type filter hook forward priority mangle; policy accept;" ++ lf]%string
                    ++ (vm_rule_str <$> vms) ++ ["  }" ++ lf]%string
             end)
         ++ ["}" ++ lf]%string)).

(** ** The ceiling on iptables-legacy *)

Definition OUT_CHAIN : string := "cfab-out".
Definition ceil_chain (zone : string) : string := ("cfab-ceil-" ++ zone)%string.

Inductive Backend := Nft | IptablesLegacy.
#[export] Instance Backend_eq_dec : EqDecision Backend.
Proof. solve_decision. Defined.
Definition backend_str (b : Backend) : string :=
  match b with Nft => "nft" | IptablesLegacy => "iptables-legacy" end.
Definition backend_status_line (b : Backend) : string :=
  match b with
  | Nft => "mark: nft"
  | IptablesLegacy => "mark: iptables-legacy (ceiling only; bulk DSCP clamp unavailable on this kernel)"
  end.
Definition backend_parse (s : string) : option Backend :=
  let t := trim s in
  if String.eqb t "nft" then Some Nft
  else if String.eqb t "iptables-legacy" then Some IptablesLegacy else None.
Definition backend_path (run_dir : string) : string := (run_dir ++ "/mark.backend")%string.
Definition recorded_backend (h : Host) (run_dir : string) : option Backend :=
  match h_read h (backend_path run_dir) with Ok s => backend_parse s | Err _ => None end.

Definition ipt_lines (ces : list Ceiling) : list string :=
  let chain c := ceil_chain (ce_zone c) in
  ["*mangle"; ":" ++ OUT_CHAIN ++ " - [0:0]"]%string
  ++ ((λ c, ":" ++ chain c ++ " - [0:0]")%string <$> ces)
  ++ ["-F " ++ OUT_CHAIN]%string
  ++ ((λ c, "-F " ++ chain c)%string <$> ces)
  ++ ((λ c, "-A " ++ OUT_CHAIN ++ " -o " ++ ce_ifname c ++ " -p 89 -j " ++ chain c)%string <$> ces)
  ++ (ces ≫= λ c, ["-A " ++ chain c ++ " -m limit --limit " ++ show (ce_rate_pps c)
                     ++ "/second --limit-burst " ++ show (ce_burst_pkts c) ++ " -j RETURN";
                   "-A " ++ chain c ++ " -j DROP"]%string)
  ++ ["COMMIT"%string].
Definition ceiling_ipt (v : View) : result Refusal string :=
  ces <-? ceilings v ;; Ok (String.concat EmptyString ((λ l, l ++ lf)%string <$> ipt_lines ces)).

Definition is_ours (l : string) : bool :=
  starts_with ":cfab-" l || starts_with "-A cfab-" l || ends_with (" -j " ++ OUT_CHAIN) l.
Definition ours (save : string) : string :=
  String.concat EmptyString ((λ l, l ++ lf)%string <$> List.filter is_ours (lines save)).

Definition chain_of_line (l : string) : option string :=
  rest ← strip_prefix ":cfab-" l;
  name ← head (split_whitespace rest);
  Some ("cfab-" ++ name)%string.
Definition chains_in (save : string) : list string := omap chain_of_line (lines save).

(** A rule of a save with counters, [\[pkts:bytes\] -A ...]. *)
Definition counted_rule (l : string) : option (string * string) :=
  rest ← strip_prefix "[" l; split_once "]"%char rest.
Definition drop_of_line (zone l : string) : option Z :=
  '(counters, rule) ← counted_rule l;
  if String.eqb (trim rule) ("-A " ++ ceil_chain zone ++ " -j DROP")
  then p ← head (split ":"%char counters); parse_uint 18446744073709551615 p else None.
Definition drop_packets (save_c zone : string) : option Z := head (omap (drop_of_line zone) (lines save_c)).

(** ** What the forward policy lets through

    The meaning of the chain is nft's: the rules are tried in order, the first one that matches
    and carries a verdict decides, and the chain's policy, [drop], decides when none does. *)

Inductive CtState := New | Established | Related | Invalid | Untracked.
#[export] Instance CtState_eq_dec : EqDecision CtState.
Proof. solve_decision. Defined.

Record Packet := {
  pk_iif : string;
  pk_oif : string;
  pk_ct : CtState;
  (** Whether the destination is in a set of addresses. *)
  pk_daddr_in : string → bool
}.

Definition in_set (s : IfSets) (set x : string) : bool :=
  any (λ p, String.eqb p.1 set && bool_decide (x ∈ p.2)) (is_named s)
  || String.eqb set "cfab" && bool_decide (x ∈ is_cfab s).

Definition if_matches (s : IfSets) (m : IfMatch) (x : string) : bool :=
  match m with
  | InSet n => in_set s n x
  | OutsideSet n => negb (in_set s n x)
  | Named n => String.eqb x n
  end.
Definition ct_matches (c : CtMatch) (st : CtState) : bool :=
  match c with
  | CtInvalid => bool_decide (st = Invalid)
  | CtReturning => bool_decide (st = Established) || bool_decide (st = Related)
  end.

Definition rule_matches (s : IfSets) (r : ForwardRule) (p : Packet) : bool :=
  is_none_or (fw_iif r) (λ m, if_matches s m (pk_iif p))
  && is_none_or (fw_oif r) (λ m, if_matches s m (pk_oif p))
  && is_none_or (fw_ct r) (λ c, ct_matches c (pk_ct p))
  && is_none_or (fw_not_in r) (λ n, negb (pk_daddr_in p n)).

Fixpoint verdict (s : IfSets) (rules : list ForwardRule) (p : Packet) : Verdict :=
  match rules with
  | [] => VDrop
  | r :: rules' =>
      match fw_verdict r with
      | Some d => if rule_matches s r p then d else verdict s rules' p
      | None => verdict s rules' p
      end
  end.

Definition forward_verdict (v : View) (p : Packet) : result Refusal Verdict :=
  gws <-? gw_rows v ;;
  sets <-? if_sets v ;;
  rules <-? forward_rules v gws ;;
  Ok (verdict sets rules p).

(** *** What is declared to pass *)

Definition carries (v : View) (z ifn : string) : Prop := ∃ ifs, zone_ifs v z = Ok ifs ∧ ifn ∈ ifs.
Definition owned_if (v : View) (ifn : string) : Prop :=
  ∃ owned, owned_forwarding v = Ok owned ∧ ifn ∈ owned.*1.
Definition gw_leg (v : View) (ifn : string) : Prop :=
  ∃ gws g, gw_rows v = Ok gws ∧ g ∈ gws ∧ ifn = gr_ifname g.
Definition either_way (p : Packet) (A B : string → Prop) : Prop :=
  (A (pk_iif p) ∧ B (pk_oif p)) ∨ (B (pk_iif p) ∧ A (pk_oif p)).

(** A packet may be forwarded when it stays off the untagged wires and one of these holds: it
    concerns no interface of cfab; it belongs to a connection already let through; it goes
    between two zones declared to forward in that direction; it goes between a workload's leg
    and a zone the workload is allowed into, or the ingress leg, in either direction. *)
Definition may_transit (v : View) (p : Packet) : Prop :=
  pk_iif p ∉ admin_ifs v ∧ pk_oif p ∉ admin_ifs v ∧
  ((¬ owned_if v (pk_iif p) ∧ ¬ owned_if v (pk_oif p))
   ∨ pk_ct p = Established ∨ pk_ct p = Related
   ∨ (∃ a b, (a, b) ∈ f_forward_allow (v_fabric v) ∧ carries v a (pk_iif p) ∧ carries v b (pk_oif p))
   ∨ (∃ r, r ∈ workload_rows v ∧
        ((∃ z, z ∈ wl_allow (wr_wl r) ∧ either_way p (eq (leg_ifname (wr_wl r))) (carries v z))
         ∨ either_way p (eq (leg_ifname (wr_wl r))) (gw_leg v)))).

(** Rules of which none drops: the chain accepts when one of them does, or what follows does. *)
Lemma verdict_accepts s l1 l2 p :
  (∀ r, r ∈ l1 → fw_verdict r ≠ Some VDrop) →
  verdict s (l1 ++ l2) p = VAccept ↔
  (∃ r, r ∈ l1 ∧ fw_verdict r = Some VAccept ∧ rule_matches s r p = true) ∨ verdict s l2 p = VAccept.
Proof.
  induction l1 as [|r l1 IH]; intros Hd.
  { split; [by right|]. intros [(r & Hr & _)|H]; [by apply not_elem_of_nil in Hr|done]. }
  specialize (IH ltac:(intros; apply Hd; by right)). cbn [verdict app].
  assert ((∃ r0, r0 ∈ r :: l1 ∧ fw_verdict r0 = Some VAccept ∧ rule_matches s r0 p = true)
    ↔ (fw_verdict r = Some VAccept ∧ rule_matches s r p = true)
      ∨ ∃ r0, r0 ∈ l1 ∧ fw_verdict r0 = Some VAccept ∧ rule_matches s r0 p = true) as ->.
  { setoid_rewrite elem_of_cons. naive_solver. }
  specialize (Hd r ltac:(by left)).
  destruct (fw_verdict r) as [[]|] eqn:E; [|done|rewrite IH; naive_solver].
  destruct (rule_matches s r p) eqn:Em; [naive_solver|]. rewrite IH. naive_solver.
Qed.

Lemma try_bind_Ok {E A B} (f : A → result E (list B)) l ys :
  try_bind f l = Ok ys → ∀ y, y ∈ ys ↔ ∃ x zs, x ∈ l ∧ f x = Ok zs ∧ y ∈ zs.
Proof.
  revert ys. induction l as [|x l IH]; intros ys; cbn [try_bind].
  { intros [= <-] y. split; [by intros ?%not_elem_of_nil|]. intros (x & zs & Hx & _). by apply not_elem_of_nil in Hx. }
  destruct (f x) as [zs|e] eqn:Ef; [|done]. destruct (try_bind f l) as [zs'|e]; [|done].
  intros [= <-] y. rewrite elem_of_app, (IH zs' eq_refl y). setoid_rewrite elem_of_cons. split.
  - intros [Hy|(x' & ws & ? & ? & ?)]; [exists x, zs; auto|exists x', ws; auto].
  - intros (x' & ws & [->|Hx] & Hf & Hy); [left; congruence|right; eauto].
Qed.

Section forward.
Context (v : View) (p : Packet).
Context (Hadmin : "admin"%string ∉ z_name <$> f_zones (v_fabric v)).
Context (Hcfab : "cfab"%string ∉ z_name <$> f_zones (v_fabric v)).
Context (s : IfSets) (Hs : if_sets v = Ok s).

Lemma if_sets_inv : ∃ zs owned, try_bind (zone_set v) (f_zones (v_fabric v)) = Ok zs
  ∧ owned_forwarding v = Ok owned
  ∧ s = {| is_named := ("admin"%string, admin_ifs v) :: zs; is_cfab := owned.*1 |}.
Proof using Hs.
  unfold if_sets in Hs. destruct (try_bind _ _) as [zs|e]; [|done].
  destruct (owned_forwarding v) as [owned|e]; [|done]. injection Hs as <-. eauto.
Qed.

Lemma zone_set_in zs z x :
  try_bind (zone_set v) (f_zones (v_fabric v)) = Ok zs →
  any (λ q, String.eqb q.1 z && bool_decide (x ∈ q.2)) zs = true
  ↔ z ∈ z_name <$> f_zones (v_fabric v) ∧ carries v z x.
Proof using Type.
  intros Hz. unfold any. rewrite existsb_exists. split.
  - intros ([n l] & Hin%list_elem_of_In & [En%String.eqb_eq Hx%bool_decide_eq_true]%andb_true_iff).
    cbn in *. subst. apply (try_bind_Ok _ _ _ Hz) in Hin as (zn & ws & Hzn & Hf & Hin).
    unfold zone_set in Hf. destruct (zone_ifs v (z_name zn)) as [ifs|e] eqn:Ei; [|done].
    injection Hf as <-. apply list_elem_of_singleton in Hin. injection Hin as -> ->.
    split; [apply list_elem_of_fmap; eauto|]. by exists ifs.
  - intros [(zn & -> & Hzn)%list_elem_of_fmap (ifs & Ei & Hx)].
    exists (z_name zn, ifs). split.
    + apply list_elem_of_In, (try_bind_Ok _ _ _ Hz). exists zn, [(z_name zn, ifs)].
      unfold zone_set. rewrite Ei. split_and!; [done|done|by left].
    + cbn. by rewrite String.eqb_refl, bool_decide_true.
Qed.

Lemma in_admin x : in_set s "admin" x = true ↔ x ∈ admin_ifs v.
Proof using Hs Hadmin.
  destruct if_sets_inv as (zs & owned & Hz & _ & ->). unfold in_set. cbn [is_named is_cfab any existsb fst snd].
  change (existsb ?f zs) with (any f zs). rewrite String.eqb_refl. cbn [andb].
  change (String.eqb "admin" "cfab") with false. cbn [andb]. rewrite orb_false_r.
  rewrite orb_true_iff, bool_decide_eq_true, (zone_set_in zs "admin" x Hz). tauto.
Qed.

Lemma in_cfab x : in_set s "cfab" x = true ↔ owned_if v x.
Proof using Hs Hcfab.
  destruct if_sets_inv as (zs & owned & Hz & Ho & ->). unfold in_set. cbn [is_named is_cfab any existsb fst snd].
  change (existsb ?f zs) with (any f zs). change (String.eqb "admin" "cfab") with false.
  rewrite String.eqb_refl. cbn [andb orb].
  rewrite orb_true_iff, bool_decide_eq_true, (zone_set_in zs "cfab" x Hz). unfold owned_if. split.
  - intros [[? _]|H]; [done|eauto].
  - intros (o & Eo & H). right. congruence.
Qed.

Lemma in_zone_set z x :
  z ∈ z_name <$> f_zones (v_fabric v) → in_set s z x = true ↔ carries v z x.
Proof using Hs Hadmin Hcfab.
  intros Hzn. destruct if_sets_inv as (zs & owned & Hz & Ho & ->). unfold in_set.
  cbn [is_named is_cfab any existsb fst snd]. change (existsb ?f zs) with (any f zs).
  assert (String.eqb "admin" z = false) as -> by (apply String.eqb_neq; congruence).
  assert (String.eqb z "cfab" = false) as -> by (apply String.eqb_neq; congruence).
  cbn [andb orb]. rewrite orb_false_r, (zone_set_in zs z x Hz). tauto.
Qed.

Lemma pair_matches i o d c :
  rule_matches s (pair_rule i o d c) p = if_matches s i (pk_iif p) && if_matches s o (pk_oif p).
Proof using Type. unfold rule_matches. cbn. by rewrite !andb_true_r. Qed.

Definition fires (l : list ForwardRule) : Prop :=
  ∃ r, r ∈ l ∧ fw_verdict r = Some VAccept ∧ rule_matches s r p = true.

Lemma fires_app l1 l2 : fires (l1 ++ l2) ↔ fires l1 ∨ fires l2.
Proof using Type. unfold fires. setoid_rewrite elem_of_app. naive_solver. Qed.

Lemma zone_rules_fire :
  (∀ a b, (a, b) ∈ f_forward_allow (v_fabric v) →
     a ∈ z_name <$> f_zones (v_fabric v) ∧ b ∈ z_name <$> f_zones (v_fabric v)) →
  fires (zone_rule <$> f_forward_allow (v_fabric v)) ↔
  ∃ a b, (a, b) ∈ f_forward_allow (v_fabric v) ∧ carries v a (pk_iif p) ∧ carries v b (pk_oif p).
Proof using Hs Hadmin Hcfab.
  intros Hf. unfold fires. split.
  - intros (r & ([a b] & -> & Hin)%list_elem_of_fmap & _ & Hm). destruct (Hf a b Hin) as [Ha Hb].
    unfold zone_rule in Hm. rewrite pair_matches in Hm. apply andb_true_iff in Hm as [H1 H2].
    exists a, b. by rewrite <-!in_zone_set.
  - intros (a & b & Hin & H1 & H2). destruct (Hf a b Hin) as [Ha Hb].
    exists (zone_rule (a, b)). split; [apply list_elem_of_fmap; eauto|]. split; [done|].
    unfold zone_rule. rewrite pair_matches. apply andb_true_iff. cbn. by rewrite !in_zone_set.
Qed.

(** A rule and its mirror fire when the packet goes either way between what they match. *)
Lemma mirror_fires i o c c' :
  fires [pair_rule i o VAccept c; pair_rule o i VAccept c'] ↔
  either_way p (λ x, if_matches s i x = true) (λ x, if_matches s o x = true).
Proof using Type.
  unfold fires, either_way. setoid_rewrite elem_of_cons. setoid_rewrite elem_of_cons. split.
  - intros (r & [->|[->|H]] & _ & Hm); [| |by apply not_elem_of_nil in H];
      rewrite pair_matches, andb_true_iff in Hm; tauto.
  - intros [H|[H1 H2]].
    + exists (pair_rule i o VAccept c). by rewrite pair_matches, andb_true_iff; auto.
    + exists (pair_rule o i VAccept c'). by rewrite pair_matches, andb_true_iff; auto.
Qed.

Lemma either_way_iff (A B A' B' : string → Prop) :
  (∀ x, A x ↔ A' x) → (∀ x, B x ↔ B' x) → either_way p A B ↔ either_way p A' B'.
Proof using Type. unfold either_way. intros HA HB. by rewrite !HA, !HB. Qed.

Lemma fires_bind {A} (f : A → list ForwardRule) l : fires (l ≫= f) ↔ ∃ x, x ∈ l ∧ fires (f x).
Proof using Type. unfold fires. setoid_rewrite list_elem_of_bind. naive_solver. Qed.

Lemma eqb_eq_flip a b : String.eqb a b = true ↔ b = a.
Proof using Type. rewrite String.eqb_eq. naive_solver. Qed.

Lemma workload_rules_fire wl :
  (∀ z, z ∈ wl_allow wl → z ∈ z_name <$> f_zones (v_fabric v)) →
  fires (wl_allow wl ≫= workload_zone_rules wl) ↔
  ∃ z, z ∈ wl_allow wl ∧ either_way p (eq (leg_ifname wl)) (carries v z).
Proof using Hs Hadmin Hcfab.
  intros Ha. rewrite fires_bind. unfold workload_zone_rules. setoid_rewrite mirror_fires.
  split; intros (z & Hz & H); exists z; (split; [done|]);
    (eapply either_way_iff; [| |exact H]); intros x; cbn; rewrite ?in_zone_set by auto;
    try done; symmetry; apply eqb_eq_flip || symmetry; apply eqb_eq_flip.
Qed.

Lemma gw_rules_fire gws wl rules :
  gw_rows v = Ok gws →
  try_bind (λ g, z <-? zone (v_fabric v) (gr_zone g) ;;
                 Ok (workload_gw_rules wl (gr_ifname g) (z_id z))) gws = Ok rules →
  fires rules ↔ either_way p (eq (leg_ifname wl)) (gw_leg v).
Proof using Type.
  intros Hg Hr. pose proof (try_bind_Ok _ _ _ Hr) as Hin.
  assert (∀ g z, fires (workload_gw_rules wl (gr_ifname g) (z_id z)) ↔
    either_way p (eq (leg_ifname wl)) (eq (gr_ifname g))) as Hpair.
  { intros g z. unfold workload_gw_rules. rewrite mirror_fires. apply either_way_iff; intros x; apply eqb_eq_flip. }
  unfold gw_leg, either_way. split.
  - intros (r & Hr' & Hv & Hm). apply Hin in Hr' as (g & zs & Hgi & Hz & Hrz).
    destruct (zone _ _) as [z|]; [|done]. injection Hz as <-.
    destruct (proj1 (Hpair g z)) as [[? ?]|[? ?]]; [by exists r|left|right]; split; eauto 10.
  - intros H. assert (∃ g, g ∈ gws ∧ either_way p (eq (leg_ifname wl)) (eq (gr_ifname g))) as (g & Hgi & He).
    { unfold either_way. destruct H as [[? (gs & g & E & Hgi & ->)]|[(gs & g & E & Hgi & ->) ?]];
        rewrite Hg in E; injection E as <-; exists g; auto. }
    clear H. assert (∃ z, zone (v_fabric v) (gr_zone g) = Ok z) as [z Ez].
    { clear -Hr Hgi. revert rules Hr. induction gws as [|g' gws IH]; intros rules Hr; [by apply not_elem_of_nil in Hgi|].
      cbn [try_bind] in Hr. destruct (zone _ (gr_zone g')) as [z|] eqn:Ez; [|done].
      destruct (try_bind _ gws) as [zs|]; [|done]. apply elem_of_cons in Hgi as [->|Hgi]; [by exists z|].
      by eapply IH. }
    destruct (proj2 (Hpair g z) He) as (r & Hr' & Hv & Hm). exists r. split; [|done].
    apply Hin. exists g. rewrite Ez. eauto.
Qed.
End forward.

Lemma workload_row_declared v r : r ∈ workload_rows v → wr_wl r ∈ f_workloads (v_fabric v).
Proof.
  unfold workload_rows. intros (wl & Hwl & E)%list_elem_of_omap.
  by apply fmap_Some in E as (mw & _ & ->).
Qed.

Lemma forward_rules_inv v gws rules :
  forward_rules v gws = Ok rules →
  ∃ pairs, try_bind (λ wl, try_bind (λ g, z <-? zone (v_fabric v) (gr_zone g) ;;
                                     Ok (workload_gw_rules wl (gr_ifname g) (z_id z))) gws)
             (wr_wl <$> workload_rows v) = Ok pairs
  ∧ rules = opening_rules
      ++ ((wr_wl <$> workload_rows v) ≫= λ wl, stray_rule wl <$> wl_allow wl)
      ++ [return_rule]
      ++ (zone_rule <$> f_forward_allow (v_fabric v))
      ++ ((wr_wl <$> workload_rows v) ≫= λ wl, wl_allow wl ≫= workload_zone_rules wl)
      ++ pairs ++ [default_deny].
Proof. unfold forward_rules. destruct (try_bind _ _) as [pairs|e]; [|done]. intros [= <-]. eauto. Qed.

Lemma try_bind_each {E A B} (f : A → result E (list B)) l ys x :
  try_bind f l = Ok ys → x ∈ l → ∃ zs, f x = Ok zs.
Proof.
  revert ys. induction l as [|a l IH]; intros ys; cbn [try_bind]; [by intros _ ?%not_elem_of_nil|].
  destruct (f a) as [zs|e] eqn:Ef; [|done]. destruct (try_bind f l) as [zs'|e]; [|done].
  intros _ [->|Hx]%elem_of_cons; eauto.
Qed.

(** None of the rules after the opening ones drops. *)
Lemma rest_never_drops v gws pairs r :
  try_bind (λ wl, try_bind (λ g, z <-? zone (v_fabric v) (gr_zone g) ;;
                            Ok (workload_gw_rules wl (gr_ifname g) (z_id z))) gws)
    (wr_wl <$> workload_rows v) = Ok pairs →
  r ∈ pairs → fw_verdict r = Some VAccept.
Proof.
  intros Hp Hr. apply (try_bind_Ok _ _ _ Hp) in Hr as (wl & l1 & _ & H1 & Hr).
  apply (try_bind_Ok _ _ _ H1) in Hr as (g & l2 & _ & H2 & Hr).
  destruct (zone _ _) as [z|]; [|done]. injection H2 as <-. unfold workload_gw_rules in Hr.
  rewrite !elem_of_cons in Hr. destruct Hr as [->|[->|H]]; [done|done|by apply not_elem_of_nil in H].
Qed.

Lemma opening_verdict v s rest p :
  "admin"%string ∉ z_name <$> f_zones (v_fabric v) →
  "cfab"%string ∉ z_name <$> f_zones (v_fabric v) → if_sets v = Ok s →
  verdict s (opening_rules ++ rest) p = VAccept ↔
  pk_iif p ∉ admin_ifs v ∧ pk_oif p ∉ admin_ifs v ∧
  ((¬ owned_if v (pk_iif p) ∧ ¬ owned_if v (pk_oif p)) ∨ verdict s rest p = VAccept).
Proof.
  intros Ha Hc Hs. unfold opening_rules. cbn [app verdict fw_verdict]. rewrite pair_matches.
  unfold rule_matches at 1 2. cbn [fw_iif fw_oif fw_ct fw_not_in is_none_or if_matches pair_rule andb fw_verdict].
  rewrite !andb_true_r.
  pose proof (in_admin v Ha s Hs) as Hin. pose proof (in_cfab v Hc s Hs) as Hcf.
  destruct (in_set s "admin" (pk_iif p)) eqn:E1.
  { apply Hin in E1. split; [done|tauto]. }
  destruct (in_set s "admin" (pk_oif p)) eqn:E2.
  { apply Hin in E2. split; [done|tauto]. }
  assert (pk_iif p ∉ admin_ifs v) as N1 by (intros ?%Hin; congruence).
  assert (pk_oif p ∉ admin_ifs v) as N2 by (intros ?%Hin; congruence).
  destruct (negb (in_set s "cfab" (pk_iif p)) && negb (in_set s "cfab" (pk_oif p))) eqn:E3.
  - apply andb_true_iff in E3 as [E3%negb_true_iff E4%negb_true_iff].
    split; [|done]. intros _. split_and!; [done|done|]. left. split; intros ?%Hcf; congruence.
  - split; [auto|]. intros (_ & _ & [[N3 N4]|H]); [|done]. apply andb_false_iff in E3 as [E3|E3];
      apply negb_false_iff, Hcf in E3; tauto.
Qed.

Lemma gw_row_zone v gws g :
  gw_rows v = Ok gws → g ∈ gws → is_ok (zone (v_fabric v) (gr_zone g)) = true.
Proof.
  unfold gw_rows, gw_rows_of. intros H Hg. apply zone_ok_iff, list_elem_of_fmap.
  destruct (m_kind (v_member v)); [|injection H as <-; by apply not_elem_of_nil in Hg].
  destruct (filter_collect_elem _ _ _ _ H Hg) as (z & Hz & E). exists z. split; [|done].
  unfold gw_row in E. destruct (z_gw z) as [gw|]; [|done]. destruct (gw_scope gw) as [d|].
  - injection E as E. by apply fmap_Some in E as (w & _ & ->).
  - destruct (home_wire _ _ _) as [home|]; [|done]. injection E as E.
    by apply fmap_Some in E as (h & _ & ->).
Qed.

Lemma try_bind_total {E A B} (f : A → result E (list B)) l :
  (∀ x, x ∈ l → is_ok (f x) = true) → ∃ ys, try_bind f l = Ok ys.
Proof.
  induction l as [|x l IH]; intros H; [by exists []|]. cbn [try_bind].
  pose proof (H x ltac:(by left)) as Hx. destruct (f x) as [zs|]; [|done].
  destruct IH as [ys ->]; [intros; apply H; by right|]. eauto.
Qed.

Lemma policy_derives v :
  validate (v_fabric v) = Ok tt → v_member v ∈ f_members (v_fabric v) →
  ∃ gws s rules, gw_rows v = Ok gws ∧ if_sets v = Ok s ∧ forward_rules v gws = Ok rules.
Proof.
  intros Hv Hm. assert (∀ z, is_ok (zone_ifs v z) = true ∧ is_ok (gw_rows v) = true
    ∧ is_ok (owned_forwarding v) = true) as H.
  { intros z. destruct (view_derives _ _ z Hv Hm) as (_ & _ & _ & ? & ? & ? & _). by destruct v. }
  destruct (H EmptyString) as (_ & Hg & Ho). destruct (gw_rows v) as [gws|] eqn:Eg; [|done].
  assert (∃ s, if_sets v = Ok s) as [s Es].
  { unfold if_sets. destruct (try_bind_total (zone_set v) (f_zones (v_fabric v))) as [zs ->].
    - intros z _. unfold zone_set. destruct (H (z_name z)) as [Hz _]. by destruct (zone_ifs v _).
    - destruct (owned_forwarding v); [eauto|done]. }
  assert (∃ rules, forward_rules v gws = Ok rules) as [rules Er].
  { unfold forward_rules. edestruct (try_bind_total (λ wl, try_bind (λ g, z <-? zone (v_fabric v) (gr_zone g) ;;
        Ok (workload_gw_rules wl (gr_ifname g) (z_id z))) gws) (wr_wl <$> workload_rows v)) as [ys Ey].
    - intros wl _. edestruct (try_bind_total (λ g, z <-? zone (v_fabric v) (gr_zone g) ;;
        Ok (workload_gw_rules wl (gr_ifname g) (z_id z))) gws) as [l ->]; [|done].
      intros g Hgi. pose proof (gw_row_zone v gws g Eg Hgi). by destruct (zone _ _).
    - rewrite Ey. eauto. }
  eauto 10.
Qed.

(** C8. On a fabric that passed the gate and names no zone [admin] or [cfab], the forward policy a
    member loads accepts exactly the packets it is declared to: nothing in or out of an untagged
    wire of a host, whatever its connection state; otherwise what concerns no interface of cfab,
    what answers a connection already let through, a declared pair of zones in the declared
    direction, and a workload's leg with the zones it is allowed into and with the ingress leg,
    in both directions. Every other packet meets the chain's drop. *)
Theorem forward_policy_correct v p
    (Hvalid : validate (v_fabric v) = Ok tt) (Hmember : v_member v ∈ f_members (v_fabric v))
    (Hadmin : "admin"%string ∉ z_name <$> f_zones (v_fabric v))
    (Hcfab : "cfab"%string ∉ z_name <$> f_zones (v_fabric v)) :
  ∃ d, forward_verdict v p = Ok d ∧ (d = VAccept ↔ may_transit v p).
Proof.
  destruct (policy_derives v Hvalid Hmember) as (gws & s & rules & Eg & Es & Er).
  unfold forward_verdict. rewrite Eg, Es, Er. eexists. split; [done|].
  pose proof (proj1 (gate_iff _) Hvalid) as Hv.
  destruct (forward_rules_inv _ _ _ Er) as (pairs & Ep & ->).
  rewrite (opening_verdict v s _ p Hadmin Hcfab Es). unfold may_transit.
  assert (∀ wl, wl ∈ wr_wl <$> workload_rows v → ∀ z, z ∈ wl_allow wl → z ∈ z_name <$> f_zones (v_fabric v)) as Hal.
  { intros wl (r & -> & Hr%workload_row_declared)%list_elem_of_fmap z Hz.
    pose proof (v_workloads _ Hv) as Hw. rewrite list.Forall_forall in Hw. by apply (vw_allow _ _ (Hw _ Hr)). }
  rewrite verdict_accepts.
  2: { intros r (wl & (z & -> & _)%list_elem_of_fmap & _)%list_elem_of_bind. done. }
  rewrite verdict_accepts by (intros r ->%list_elem_of_singleton; done).
  rewrite verdict_accepts by (intros r ([a b] & -> & _)%list_elem_of_fmap; done).
  rewrite verdict_accepts.
  2: { intros r (wl & (z & Hr & _)%list_elem_of_bind & _)%list_elem_of_bind. unfold workload_zone_rules in Hr.
       rewrite !elem_of_cons in Hr. by destruct Hr as [->|[->|?%not_elem_of_nil]]. }
  rewrite verdict_accepts by (intros r Hr; by rewrite (rest_never_drops _ _ _ _ Ep Hr)).
  change (∃ r, r ∈ ?l ∧ fw_verdict r = Some VAccept ∧ rule_matches s r p = true) with (fires p s l).
  assert (fires p s ((wr_wl <$> workload_rows v) ≫= λ wl, stray_rule wl <$> wl_allow wl) ↔ False) as ->.
  { split; [|done]. intros (r & (wl & (z & -> & _)%list_elem_of_fmap & _)%list_elem_of_bind & [=] & _). }
  assert (fires p s [return_rule] ↔ pk_ct p = Established ∨ pk_ct p = Related) as ->.
  { unfold fires. setoid_rewrite list_elem_of_singleton. split.
    - intros (r & -> & _ & Hm). unfold rule_matches in Hm. cbn in Hm.
      rewrite andb_true_r, orb_true_iff, !bool_decide_eq_true in Hm. done.
    - intros Hc. exists return_rule. split_and!; [done..|]. unfold rule_matches. cbn.
      by rewrite andb_true_r, orb_true_iff, !bool_decide_eq_true. }
  assert (verdict s [default_deny] p = VAccept ↔ False) as -> by done.
  rewrite (zone_rules_fire v p Hadmin Hcfab s Es (v_forward _ Hv)).
  assert (fires p s ((wr_wl <$> workload_rows v) ≫= λ wl, wl_allow wl ≫= workload_zone_rules wl) ↔
    ∃ r, r ∈ workload_rows v ∧ ∃ z, z ∈ wl_allow (wr_wl r) ∧
      either_way p (eq (leg_ifname (wr_wl r))) (carries v z)) as ->.
  { rewrite fires_bind. split.
    - intros (wl & Hwl & Hf). rewrite (workload_rules_fire v p Hadmin Hcfab s Es wl (Hal wl Hwl)) in Hf.
      apply list_elem_of_fmap in Hwl as (r & -> & Hr). eauto.
    - intros (r & Hr & Hf). assert (wr_wl r ∈ wr_wl <$> workload_rows v) as Hwl
        by (apply list_elem_of_fmap; eauto).
      exists (wr_wl r). split; [done|]. by apply (workload_rules_fire v p Hadmin Hcfab s Es _ (Hal _ Hwl)). }
  assert (fires p s pairs ↔ ∃ r, r ∈ workload_rows v ∧
    either_way p (eq (leg_ifname (wr_wl r))) (gw_leg v)) as ->; [|naive_solver].
  unfold fires at 1. split.
  - intros (r & Hr & Hf). apply (try_bind_Ok _ _ _ Ep) in Hr as (wl & l & Hwl & Hl & Hr).
    apply list_elem_of_fmap in Hwl as (row & -> & Hrow). exists row. split; [done|].
    apply (gw_rules_fire v p s gws _ l Eg Hl). by exists r.
  - intros (row & Hrow & He). assert (wr_wl row ∈ wr_wl <$> workload_rows v) as Hwl
      by (apply list_elem_of_fmap; eauto).
    destruct (try_bind_each _ _ _ _ Ep Hwl) as [l Hl].
    apply (gw_rules_fire v p s gws _ l Eg Hl) in He as (r & Hr & Hf). exists r. split; [|done].
    apply (try_bind_Ok _ _ _ Ep). eauto.
Qed.

(** A VM of the sample member reaches the storage zone and the router, and not a wire. *)
Module Sample.
Definition packet (i o : string) : Packet :=
  {| pk_iif := i; pk_oif := o; pk_ct := New; pk_daddr_in _ := false |}.
Definition passes (i o : string) : bool :=
  match forward_verdict Derive.Sample.view (packet i o) with Ok VAccept => true | _ => false end.
Example vm_reach :
  passes "cfab-work-vms" "st-a" && passes "cfab-gw10" "cfab-work-vms" && passes "st-a" "st-any"
  && passes "docker0" "vmbr1" && negb (passes "cfab-work-vms" "eth0") && negb (passes "eth0" "vmbr1")
  && negb (passes "cfab-work-vms" "docker0") && negb (passes "st-a" "docker0") = true.
Proof. vm_compute. done. Qed.
End Sample.

Lemma forward_policy_witness :
  validate (v_fabric Derive.Sample.view) = Ok tt
  ∧ ∃ d, forward_verdict Derive.Sample.view (Sample.packet "cfab-work-vms" "st-a") = Ok d
    ∧ (d = VAccept ↔ may_transit Derive.Sample.view (Sample.packet "cfab-work-vms" "st-a")).
Proof.
  split; [by vm_compute|]. apply (forward_policy_correct Derive.Sample.view).
  - by vm_compute.
  - cbn. by left.
  - apply (bool_decide_unpack _). by vm_compute.
  - apply (bool_decide_unpack _). by vm_compute.
Defined.
