(* ===== verification/EngineCtl.v ===== *)
(** The engine from the outside (src/src/commands/engine_ctl.rs): sweeping the kernel routes it
    owns, reading its state, checking that it took the configuration meant for it, and waiting
    for its interfaces to come up. *)
From Stdlib Require Import Ascii String.
From S2P Require Import Prelude Text Decl Sys Net Fabric Derive EngineState Uplink HostRoutes Rules Legs.
Local Open Scope Z_scope.
Local Open Scope cmd_scope.

(** ** Sweeping the engine's routes *)

(** [PROTO_BASE ..= PROTO_BASE + 3]. *)
Definition PROTO_RANGE : list Z := [PROTO_BASE; PROTO_BASE + 1; PROTO_BASE + 2; PROTO_BASE + 3].
Definition ROUTE_TYPES : list string :=
  ["unreachable"; "blackhole"; "prohibit"; "throw"; "local"; "broadcast"; "anycast"; "multicast";
   "nat"; "unicast"].

Definition starts_blank (s : string) : bool :=
  match s with String c _ => is_whitespace c | EmptyString => false end.

(** The prefix, with the route type in front of it where the line has one. *)
Definition sweep_target (words : list string) : list string :=
  match words with
  | [] => []
  | t :: rest =>
      if bool_decide (t ∈ ROUTE_TYPES) then t :: match rest with p :: _ => [p] | [] => [] end else [t]
  end.
Definition sweep_key (words : list string) (key : string) : list string :=
  match after_key key words with Some v => [key; v] | None => [] end.

(** The deletion of one printed route; [None] for a continuation line. *)
Definition sweep_argv (proto line : string) : option (list string) :=
  if String.eqb line EmptyString || starts_blank line then None
  else
    let words := split_whitespace line in
    match words with
    | [] => None
    | _ => Some (["ip"; "route"; "del"] ++ sweep_target words ++ sweep_key words "table"
                   ++ sweep_key words "metric" ++ ["proto"; proto])
    end.

Definition sweep_show (proto : string) : list string :=
  ["ip"; "-4"; "route"; "show"; "table"; "all"; "proto"; proto].

Definition sweep_proto (proto : Z) : IO (list unit) :=
  shown <~ exec (sweep_show (show proto)) ;;
  gather (λ argv, must argv >>~ ret [tt]) (omap (sweep_argv (show proto)) (lines (stdout shown))).
Definition sweep_routes : IO nat := done <~ gather sweep_proto PROTO_RANGE ;; ret (length done).

(** The count goes to the supervisor's stderr. *)
Definition stop_and_sweep : IO unit := sweep_routes >>~ ret tt.

(** ** Reading its state *)

Definition POLL_MS : Z := 500.
Definition SETTLE_MS : Z := 3000.

Section state.
(** [serde_json::from_str], with the text of its error. *)
Context (from_str : string → result string Value).

Definition parse_state (reply : string) : result Error Value :=
  match from_str reply with
  | Err e => Err (Fatal ("engine state is not JSON: " ++ e))
  | Ok doc =>
      match as_str (index doc "error") with
      | Some err => Err (Fatal ("engine state request failed: " ++ err))
      | None => Ok doc
      end
  end.

Definition state (f : Fabric) : IO Value :=
  r <~ attempt (request (sock_path f) ("state" ++ lf)) ;;
  match r with
  | Ok reply => lift (parse_state reply)
  | Err e => throw (Fatal ("engine not running; start it with cfab run (" ++ display e ++ ")"))
  end.
End state.

(** ** The BFD port's holder *)

Definition BFD_BIND_ERROR : string := "bfd: cannot bind udp ".

(** From the first place the message starts to the end of the line, trimmed. *)
Definition bind_error_of (line : string) : option string :=
  i ← String.index 0 BFD_BIND_ERROR line;
  Some (trim_end (String.substring i (String.length line) line)).
Definition bfd_bind_error_line (log : string) (port : Z) : option string :=
  List.find (has_substring (":" ++ show port ++ ":")) (omap bind_error_of (lines log)).

Inductive BfdHolder := Unit (name : string) | Pid (pid : string) | NamedInLog | Unknown.

Definition bfd_stop (holder : BfdHolder) (port : Z) : string :=
  match holder with
  | Unit u => if String.eqb u "bfdd" then "stop bfdd: systemctl disable --now bfdd"
              else "stop FRR, which owns bfdd: systemctl disable --now " ++ u
  | Pid pid => "stop bfdd (pid " ++ pid ++ ")"
  | NamedInLog => "stop the daemon named in the line above"
  | Unknown => "find the holder (ss -ulpn | grep ':" ++ show port ++ "') and stop it"
  end.
Definition bfd_port_remedy (holder : BfdHolder) (port : Z) : string :=
  bfd_stop holder port ++ "; or declare a free [bfd] port (now " ++ show port
    ++ ") in fabric.toml on EVERY member — every peer of a session must use the same port".
Definition bfd_bind_remedy (line : string) (port : Z) : string :=
  bfd_port_remedy
    (if has_substring "bfdd" line || has_substring "frr" line then Unit "frr"
     else if has_substring "holder unknown" line then Unknown else NamedInLog) port.

(** ** Readback *)

Section view.
Context (v : View) (d : Rows).
Let f := v_fabric v.

Definition configured_ifs (z : Zone) : list string :=
  (cr_ifname <$> List.filter (λ r, String.eqb (cr_zone r) (z_name z)) (rw_class d))
    ++ (fr_ifname <$> List.filter (λ r, String.eqb (fr_zone r) (z_name z)) (rw_fallback d))
    ++ [identity_if z]
    ++ (gr_ifname <$> List.filter (λ r, String.eqb (gr_zone r) (z_name z)) (rw_gw d)).

(** What a readback found missing, or different from what was configured. *)
Inductive Miss :=
| NoInstance (zone : string)
| RouterId (zone : string) (got : Value) (want : string)
| NoInterface (zone ifname : string)
| NoState (zone ifname : string) (got : Value)
| Cost (zone ifname : string) (got : Value) (want : Z)
| TransitUnknown (zone addr : string)
| TransitCostIs (zone ifname addr : string) (got : Value) (want : Z)
| NoNeighbor (router zone : string)
| NoGw (zone : string)
| NoZone (zone : string).

Definition is_null (x : Value) : bool := match x with Null => true | _ => false end.

(** [s.rsplit(':').next()]. *)
Definition if_state (i : Value) : option string := after_colon <$> as_str (index i "state").

Definition is_transit (t : Value) : bool :=
  match t with
  | Str s => bool_decide (after_colon s ∈ ["transit-network-link"; "transit-network"])
  | Num n => match as_u64 (Num n) with Some n => n =? 2 | None => false end
  | _ => false
  end.

Definition zone_doc (doc : Value) (z : Zone) : Value := index (index doc "ospf") (z_name z).

Definition check_interface (inst : Value) (z : Zone) (ifn : string) : result Miss unit :=
  let got := index (index inst "interfaces") ifn in
  if is_null got then Err (NoInterface (z_name z) ifn)
  else match if_state got with
       | None => Err (NoState (z_name z) ifn (index got "state"))
       | Some _ => Ok tt
       end.

(** Every adjacency interface of the zone: its name, its segment number and its cost. *)
Definition adjacency_rows (z : Zone) : list (string * Z * Z) :=
  ((λ r, (cr_ifname r, cr_seg r, cr_ospf_cost r))
     <$> List.filter (λ r, String.eqb (cr_zone r) (z_name z)) (rw_class d))
  ++ ((λ r, (fr_ifname r, fr_seg r, fr_ospf_cost r))
     <$> List.filter (λ r, String.eqb (fr_zone r) (z_name z)) (rw_fallback d)).

Definition leaf_cost (r : string * Z * Z) : Z := u32_add r.2 (f_leaf_cost_offset f).

Definition check_cost (inst : Value) (z : Zone) (r : string * Z * Z) : result Miss unit :=
  let got := index (index (index inst "interfaces") r.1.1) "cost" in
  refuse_if (negb (opt_eqb (as_u64 got) (Some (leaf_cost r)))) (Cost (z_name z) r.1.1 got (leaf_cost r)).

Definition check_link (z : Zone) (link : Value) : result Miss unit :=
  let addr := unwrap_or (as_str (index link "if")) "?" in
  match List.find (λ r, String.eqb (segment_addr v z r.1.2) addr) (adjacency_rows z) with
  | None => Err (TransitUnknown (z_name z) addr)
  | Some r =>
      refuse_if (negb (opt_eqb (as_u64 (index link "metric")) (Some (leaf_cost r))))
        (TransitCostIs (z_name z) r.1.1 addr (index link "metric") (leaf_cost r))
  end.

Definition check_zone (doc : Value) (z : Zone) : result Miss unit :=
  let inst := zone_doc doc z in
  if is_null inst then Err (NoInstance (z_name z))
  else if negb (is_str (index inst "router_id") (identity_addr v z))
       then Err (RouterId (z_name z) (index inst "router_id") (identity_addr v z))
  else
    for_each (check_interface inst z) (configured_ifs z) ;;?
    match m_kind (v_member v) with
    | Decl.Host => Ok tt
    | Leaf =>
        for_each (check_cost inst z) (adjacency_rows z) ;;?
        for_each (check_link z)
          (List.filter (λ l, is_transit (index l "type")) (as_array (index inst "self_lsa_links")))
    end.

Definition check_peer (peers : list string) (r : GwRow) : result Miss unit :=
  match zone f (gr_zone r) with
  | Err _ => Err (NoZone (gr_zone r))
  | Ok z =>
      match z_gw z with
      | None => Err (NoGw (gr_zone r))
      | Some gw => refuse_if (negb (bool_decide (gw_router gw ∈ peers))) (NoNeighbor (gw_router gw) (gr_zone r))
      end
  end.
Definition bgp_readback (doc : Value) : result Miss unit :=
  for_each (check_peer (omap (λ n, as_str (index n "peer")) (as_array (index doc "bgp")))) (rw_gw d).

Definition readback (doc : Value) : result Miss unit :=
  for_each (check_zone doc) (f_zones f) ;;? bgp_readback doc.

(** ** Settling *)

Definition is_down (doc : Value) (z : Zone) (ifn : string) : bool :=
  opt_eqb (if_state (index (index (zone_doc doc z) "interfaces") ifn)) (Some "down").
Definition down_ifs (doc : Value) : list string :=
  f_zones f ≫= λ z, (λ ifn, z_name z ++ "/" ++ ifn)%string <$> List.filter (is_down doc z) (configured_ifs z).

Context (from_str : string → result string Value).

(** [polls] is how many times the loop may still wait: [SETTLE_MS / POLL_MS] at the start. *)
Fixpoint settle (polls : nat) (down : list string) : IO (list string) :=
  match down, polls with
  | [], _ | _, O => ret down
  | _, S polls' => sleep POLL_MS >>~ (doc <~ state from_str f ;; settle polls' (down_ifs doc))
  end.
Definition SETTLE_POLLS : nat := Z.to_nat (SETTLE_MS / POLL_MS).
Definition settled_down_ifs (doc : Value) : IO (list string) := settle SETTLE_POLLS (down_ifs doc).
End view.

(** ** The sweep *)

Lemma sweep_argv_shape proto line argv :
  sweep_argv proto line = Some argv →
  ∃ mid, argv = ["ip"; "route"; "del"] ++ mid ++ ["proto"; proto].
Proof.
  unfold sweep_argv. destruct (_ || _); [done|]. destruct (split_whitespace line) as [|t rest]; [done|].
  intros [= <-].
  exists (sweep_target (t :: rest) ++ sweep_key (t :: rest) "table" ++ sweep_key (t :: rest) "metric").
  by rewrite <-!app_assoc.
Qed.

(** What the sweep runs: it lists one protocol's routes, and it deletes routes of that protocol. *)
Definition sweeps (a : Action) : Prop :=
  ∃ proto, proto ∈ PROTO_RANGE ∧
    (a = ARun (sweep_show (show proto))
     ∨ ∃ line argv, sweep_argv (show proto) line = Some argv ∧ a = ARun argv).

Lemma sweep_emits : emits sweeps stop_and_sweep.
Proof.
  unfold stop_and_sweep, sweep_routes, sweep_proto. emits_all.
  - apply emits_exec. exists x. auto.
  - apply emits_must. eexists. split; [done|]. right.
    match goal with H : _ ∈ omap _ _ |- _ => apply list_elem_of_omap in H as (line & _ & Hl) end. eauto.
Qed.

Lemma sweep_proto_ran proto io tr tr' l :
  sweep_proto proto io tr = (tr', Ok l) →
  ∃ o after, tr' = tr ++ ARun (sweep_show (show proto)) :: after
    ∧ h_run (e_host (io tr)) (sweep_show (show proto)) = Ok o
    ∧ ∀ line argv, line ∈ lines (stdout o) → sweep_argv (show proto) line = Some argv → ARun argv ∈ after.
Proof.
  unfold sweep_proto. intros H. apply bind_Ok in H as (t & o & [= <- Ho] & H).
  set (argvs := omap (sweep_argv (show proto)) (lines (stdout o))) in *.
  assert (∀ argvs tr0 tr1 l, gather (λ argv, must argv >>~ ret [tt]) argvs io tr0 = (tr1, Ok l) →
            tr1 = tr0 ++ (ARun <$> argvs)) as Hall.
  { clear. induction argvs as [|argv argvs IH]; intros tr0 tr1 l H; cbn in H.
    { injection H as <- _. by rewrite app_nil_r. }
    apply bind_Ok in H as (t1 & x & H1 & H). apply bind_Ok in H1 as (t2 & o & Hm & [= <- _]).
    apply must_Ok in Hm as (-> & _). apply bind_Ok in H as (t3 & y & H2 & [= <- _]).
    apply IH in H2 as ->. by rewrite <-app_assoc. }
  apply Hall in H as ->. exists o, (ARun <$> argvs). split; [by rewrite <-app_assoc|]. split; [done|].
  intros line argv Hline Hargv. apply list_elem_of_fmap. exists argv. split; [done|].
  apply list_elem_of_omap. eauto.
Qed.

(** The sweep takes every route the engine left, and no other. Whatever the host answers, it
    runs nothing but the listings of the four protocols that are the engine's and deletions that
    end with one of those protocols, each of a line that [sweep_argv] read; and if it ends without
    an error, then for each of the four protocols the kernel's routes were listed and every route
    printed was deleted after that. *)
Theorem sweep_takes_exactly_engine_routes io tr :
  (∃ new, (stop_and_sweep io tr).1 = tr ++ new ∧ ∀ a, a ∈ new → ∃ proto, proto ∈ PROTO_RANGE ∧
     (a = ARun (sweep_show (show proto))
      ∨ ∃ line mid, let argv := ["ip"; "route"; "del"] ++ mid ++ ["proto"; show proto] in
          sweep_argv (show proto) line = Some argv ∧ a = ARun argv))
  ∧ ∀ tr', stop_and_sweep io tr = (tr', Ok tt) → ∀ proto, proto ∈ PROTO_RANGE →
    ∃ before o after, tr' = (tr ++ before) ++ ARun (sweep_show (show proto)) :: after
      ∧ h_run (e_host (io (tr ++ before))) (sweep_show (show proto)) = Ok o
      ∧ ∀ line argv, line ∈ lines (stdout o) → sweep_argv (show proto) line = Some argv → ARun argv ∈ after.
Proof.
  split.
  - destruct (sweep_emits io tr) as (new & E & Hn). exists new. split; [done|]. intros a Ha.
    rewrite list.Forall_forall in Hn. destruct (Hn a Ha) as (proto & Hp & [->|(line & argv & Hs & ->)]);
      exists proto; (split; [done|]); [by left|right].
    destruct (sweep_argv_shape _ _ _ Hs) as (mid & ->). by exists line, mid.
  - intros tr' H proto Hp. unfold stop_and_sweep in H. apply bind_Ok in H as (t & n & H & [= <-]).
    unfold sweep_routes in H. apply bind_Ok in H as (t1 & l & H & [= <- _]). revert proto Hp.
    refine (gather_done sweep_proto (λ proto io hist, ∃ before o after,
      hist = (tr ++ before) ++ ARun (sweep_show (show proto)) :: after
      ∧ h_run (e_host (io (tr ++ before))) (sweep_show (show proto)) = Ok o
      ∧ ∀ line argv, line ∈ lines (stdout o) → sweep_argv (show proto) line = Some argv → ARun argv ∈ after)
      _ _ _ _ _ _ _ _ H).
    + intros proto io' t new (b & o & a & -> & Ho & Ha). exists b, o, (a ++ new).
      split; [by rewrite <-app_assoc|]. split; [done|]. intros line argv Hl Hs.
      apply elem_of_app. left. eauto.
    + intros proto. unfold sweep_proto. emits_all.
    + intros proto m t zs Hx. apply sweep_proto_ran in Hx as (o & after & -> & H1 & H2). by exists m, o, after.
Qed.

(** *** The wait for the interfaces ends *)

Definition is_sleep (a : Action) : bool := match a with ASleep _ => true | _ => false end.
Definition sleeps (l : list Action) : nat := length (List.filter is_sleep l).

Lemma sleeps_app l1 l2 : sleeps (l1 ++ l2) = (sleeps l1 + sleeps l2)%nat.
Proof. unfold sleeps. by rewrite List.filter_app, length_app. Qed.

Lemma state_trace from_str f io tr :
  (state from_str f io tr).1 = tr ++ [ARequest (sock_path f) ("state" ++ lf)].
Proof. unfold state, attempt, request, bind. destruct (e_request _ _ _); done. Qed.

Lemma settle_bound v d from_str polls down io tr :
  ∃ new, (settle v d from_str polls down io tr).1 = tr ++ new ∧ (sleeps new ≤ polls)%nat
    ∧ Forall (λ a, a = ASleep POLL_MS ∨ a = ARequest (sock_path (v_fabric v)) ("state" ++ lf)) new
    ∧ ∀ left, (settle v d from_str polls down io tr).2 = Ok left → left = [] ∨ sleeps new = polls.
Proof.
  revert down tr. induction polls as [|n IH]; intros down tr.
  { exists []. destruct down; cbn; rewrite app_nil_r; repeat split; auto. }
  destruct down as [|x down].
  { exists []. cbn. rewrite app_nil_r. split; [done|]. split; [lia|]. split; [constructor|].
    intros left [= <-]. by left. }
  cbn [settle]. rewrite !(bind_eq (sleep POLL_MS) _ io tr (tr ++ [ASleep POLL_MS]) tt eq_refl).
  pose proof (state_trace from_str (v_fabric v) io (tr ++ [ASleep POLL_MS])) as Es.
  set (q := ARequest (sock_path (v_fabric v)) ("state" ++ lf)%string) in *.
  assert (∀ l, sleeps (ASleep POLL_MS :: q :: l) = S (sleeps l)) as Hs by done.
  destruct (state from_str (v_fabric v) io (tr ++ [ASleep POLL_MS])) as [t [doc|e]] eqn:Est; cbn [fst] in Es; subst t.
  - rewrite !(bind_eq _ _ _ _ _ _ Est). destruct (IH (down_ifs v d doc) ((tr ++ [ASleep POLL_MS]) ++ [q])) as (new & E & Hle & Hn & Hl).
    exists (ASleep POLL_MS :: q :: new). rewrite E, <-!app_assoc, Hs. split; [done|].
    split; [lia|]. split; [by repeat constructor; auto|]. intros left Hleft.
    rewrite app_assoc in Hleft. destruct (Hl left Hleft) as [->|E']; [by left|right]. by rewrite E'.
  - unfold bind. rewrite Est. exists [ASleep POLL_MS; q]. rewrite <-app_assoc, Hs.
    split; [done|]. split; [cbn; lia|]. split; [by repeat constructor; auto|]. done.
Qed.

(** The wait for the interfaces ends, and says what it found. However the engine answers, the
    wait sleeps half a second at most six times, one state request after each, and does nothing
    else; when it answers without an error it either found every interface up, or it has slept
    all six times, three seconds in all, and names those still down in the last reply. *)
Theorem settle_ends v d from_str doc io tr :
  ∃ new, (settled_down_ifs v d from_str doc io tr).1 = tr ++ new ∧ (sleeps new ≤ 6)%nat
    ∧ Forall (λ a, a = ASleep 500 ∨ a = ARequest (sock_path (v_fabric v)) ("state" ++ lf)) new
    ∧ ∀ left, (settled_down_ifs v d from_str doc io tr).2 = Ok left → left = [] ∨ sleeps new = 6%nat.
Proof. apply settle_bound. Qed.
