(* ===== verification/Check.v ===== *)
(** Checking a declaration and the host it is for (src/src/commands/check.rs): the report on the
    whole file, and what the host that runs the check lacks. *)
From Stdlib Require Import Ascii String.
From S2P Require Import Prelude Text Decl Sys Net Fabric Derive Validate EngineState Uplink.
Local Open Scope Z_scope.
Local Open Scope string_scope.

(** ** The host *)

Definition vlan_filtering (bridge : string) : string := sysfs bridge "bridge/vlan_filtering".
Definition vlan_aware (h : Host) (bridge : string) : bool :=
  match h_read h (vlan_filtering bridge) with Ok s => String.eqb (trim s) "1" | Err _ => false end.

Definition not_vlan_aware (wl : Workload) : Error :=
  Fatal ("workload " ++ wl_name wl ++ ": bridge " ++ wl_uplink wl ++ " is not vlan-aware "
    ++ "(bridge-vlan-aware yes in /etc/network/interfaces)").

Definition check_bridge (h : Host) (row : WorkloadRow) : result Error unit :=
  let wl := wr_wl row in
  if negb (bridge_present h (wl_uplink wl)) then Ok tt
  else refuse_if (negb (vlan_aware h (wl_uplink wl))) (not_vlan_aware wl).

Definition host_preflight (h : Host) (v : View) : result Error unit :=
  for_each (check_bridge h) (workload_rows v).

Definition vid_on_uplink (wl : Workload) (ports : list string) : string :=
  "warning: workload " ++ wl_name wl ++ ": vid " ++ show (wl_vid wl) ++ " is on uplink "
    ++ String.concat ", " ports ++ " (host stanza bridge-vids?): the VLAN is host-local and must "
    ++ "not reach the switch; `up` defers this row until the vid is gone".
Definition vid_unknown (wl : Workload) (e : Error) : string :=
  "warning: workload " ++ wl_name wl ++ ": uplink port vid probe failed: " ++ display e.

Section warnings.
(** [serde_json::from_str]. *)
Context (from_str : string → option Value).

Definition host_warning (h : Host) (row : WorkloadRow) : list string :=
  let wl := wr_wl row in
  if negb (bridge_present h (wl_uplink wl)) then []
  else match identify_declared h (wl_uplink wl) (wl_vid wl) with
       | Err _ => []
       | Ok up =>
           match ports_carrying_vid from_str h up with
           | Ok [] => []
           | Ok ports => [vid_on_uplink wl ports]
           | Err e => [vid_unknown wl e]
           end
       end.
Definition host_warnings (h : Host) (v : View) : list string := workload_rows v ≫= host_warning h.
End warnings.

(** ** The file *)

Definition kind_str (k : MemberKind) : string := match k with Decl.Host => "host" | Leaf => "leaf" end.

(** [10.<id>] and the first three octets, as text. *)
Definition two_octets (a : Ipv4Addr) : string :=
  show (at_ (octets a) 0) ++ "." ++ show (at_ (octets a) 1).
Definition three_octets (a : Ipv4Addr) : string := two_octets a ++ "." ++ show (at_ (octets a) 2).

Definition zone_reaches (server : Ipv4Addr) (z : Zone) : bool :=
  String.eqb (block_of z) (two_octets server)
  || is_some_and (z_gw z) (λ g, String.eqb (subnet_prefix g) (three_octets server)).

Definition reaches (f : Fabric) (wl : Workload) (server : Ipv4Addr) : bool :=
  any (λ z, is_some_and (z_gw z) (λ _, true)) (f_zones f)
  || any (zone_reaches server)
       (List.filter (λ z, bool_decide (z_name z ∈ wl_allow wl)) (f_zones f)).

Definition count_of {A} (l : list A) : string := show (Z.of_nat (length l)).

Definition file_line (f : Fabric) : string :=
  let fallback := List.filter (λ s, is_universal (s_scope s)) (f_segments f) in
  "fabric.toml OK: " ++ count_of (f_zones f) ++ " zones, "
    ++ show (Z.of_nat (length (f_segments f)) - Z.of_nat (length fallback)) ++ " segments, "
    ++ count_of fallback ++ " fallback legs, " ++ count_of (f_members f) ++ " members".

Definition member_line (f : Fabric) (m : Member) : result Refusal string :=
  class_rows <-? class_rows_of f m ;;
  fallback <-? fallback_rows_of f m ;;
  gws <-? gw_rows_of f m ;;
  let wires := btree_set_iter str_leb (list_to_set (cr_wire <$> class_rows)) in
  Ok ("member " ++ m_name m ++ " (node " ++ show (m_node m) ++ ", " ++ kind_str (m_kind m) ++ "): "
    ++ count_of class_rows ++ " segment sub-ifs on wires [" ++ String.concat " " wires ++ "], "
    ++ count_of fallback ++ " fallback leg(s), " ++ count_of gws ++ " ingress leg(s)").

Definition carried_by (f : Fabric) (wl : Workload) : list string :=
  m_name <$> List.filter (λ m, any (λ w, String.eqb (mw_name w) (wl_name wl)) (m_workloads m))
               (f_members f).
Definition relay_str (wl : Workload) : string :=
  match wl_dhcp_server wl with
  | Some s => "dhcp_server " ++ show_addr s
  | None => "no dhcp_server (no relay)"
  end.
Definition workload_line (f : Fabric) (wl : Workload) : string :=
  "workload " ++ wl_name wl ++ ": " ++ wl_uplink wl ++ " vid " ++ show (wl_vid wl) ++ " ("
    ++ leg_ifname wl ++ ") " ++ prefix_show (wl_prefix wl) ++ " gw " ++ show_addr (wl_gw wl)
    ++ " host-local, " ++ relay_str wl ++ ", allow " ++ String.concat ", " (wl_allow wl)
    ++ "; carried by " ++ String.concat ", " (carried_by f wl).
Definition unroutable (wl : Workload) (server : Ipv4Addr) : string :=
  "warning: workload " ++ wl_name wl ++ ": dhcp_server " ++ show_addr server ++ " is in no zone "
    ++ "this row is allowed into (" ++ String.concat ", " (wl_allow wl) ++ ") and no zone declares "
    ++ "a gw, so the relay has no route to it".
Definition workload_lines (f : Fabric) (wl : Workload) : list string :=
  workload_line f wl
  :: match wl_dhcp_server wl with
     | Some server => if reaches f wl server then [] else [unroutable wl server]
     | None => []
     end.

(** The rows' [allow] lists as sets, in a set: how many different ones there are. *)
Definition allow_sets (f : Fabric) : gset (gset string) :=
  list_to_set ((λ w, list_to_set (wl_allow w)) <$> f_workloads f).
Definition mixed_allow (f : Fabric) : string :=
  "warning: workload rows " ++ String.concat ", " (wl_name <$> f_workloads f) ++ " declare "
    ++ "different allow sets; every allowed zone's OSPF instance advertises the per-VM routes of "
    ++ "ALL rows (holo redistributes static routes per instance, not per route) — reach is decided "
    ++ "by the forward policy, not by which routes exist".

Fixpoint member_lines (f : Fabric) (l : list Member) : result Refusal (list string) :=
  match l with
  | [] => Ok []
  | m :: l' => x <-? member_line f m ;; xs <-? member_lines f l' ;; Ok (x :: xs)
  end.

Definition report_lines (f : Fabric) : result Refusal (list string) :=
  members <-? member_lines f (f_members f) ;;
  Ok (file_line f :: members ++ (f_workloads f ≫= workload_lines f)
        ++ (if bool_decide (1 < size (allow_sets f))%nat then [mixed_allow f] else []))%list.

Definition endl (s : string) : string := s ++ String char_lf EmptyString.
Definition report (f : Fabric) : result Refusal string :=
  ls <-? report_lines f ;; Ok (String.concat EmptyString (endl <$> ls)).

Definition host_line (f : Fabric) (name : string) : string :=
  match member f name with
  | Ok _ => endl ("this host: " ++ name)
  | Err _ => endl ("this host: " ++ name
               ++ " is not a declared member of this fabric; host checks skipped")
  end.

(** ** The command

    [sink] is the writer: given what it has been handed, what it answers to the next piece. The
    list is what was handed to it, the piece it refused included. *)
Section run.
Context (from_str : string → option Value) (sink : list string → string → result string unit).

Definition written (out : list string) (s : string) : list string * result Error unit :=
  (out ++ [s], match sink out s with
               | Ok _ => Ok tt
               | Err e => Err (Fatal ("cannot write the report: " ++ e))
               end)%list.

Fixpoint write_each (out pieces : list string) : list string * result Error unit :=
  match pieces with
  | [] => (out, Ok tt)
  | s :: rest => match written out s with
                 | (out', Ok _) => write_each out' rest
                 | (out', Err e) => (out', Err e)
                 end
  end.

Definition run_cli (h : Host) (f : Fabric) (name : string)
    : result Refusal (list string * result Error unit) :=
  text <-? report f ;;
  Ok (match write_each [] [text; host_line f name] with
      | (out, Err e) => (out, Err e)
      | (out, Ok _) =>
          match view_new f name with
          | Err _ => (out, Ok tt)
          | Ok v =>
              match host_preflight h v with
              | Err e => (out, Err e)
              | Ok _ => write_each out (endl <$> host_warnings from_str h v)
              end
          end
      end).
End run.

(** ** What it answers *)

Lemma member_lines_total f l :
  (∀ m, m ∈ l → is_ok (member_line f m) = true) → is_ok (member_lines f l) = true.
Proof.
  induction l as [|m l IH]; cbn; intros H; [done|].
  pose proof (H m ltac:(by left)) as Hm. destruct (member_line f m); [|done].
  assert (is_ok (member_lines f l) = true) as Hl by (apply IH; intros x Hx; apply H; by right).
  by destruct (member_lines f l).
Qed.

Lemma report_total f : validate f = Ok tt → is_ok (report f) = true.
Proof.
  intros Hv. unfold report, report_lines.
  assert (is_ok (member_lines f (f_members f)) = true) as Hm.
  { apply member_lines_total. intros m Hm.
    destruct (view_derives f m EmptyString Hv Hm) as (_ & Hc & Hf & Hg & _).
    unfold class_rows, fallback_rows, gw_rows in *. cbn [v_fabric v_member] in *. unfold member_line.
    by destruct (class_rows_of f m), (fallback_rows_of f m), (gw_rows_of f m). }
  by destruct (member_lines f (f_members f)).
Qed.

(** What a row needs of the host: its bridge, where there is one, filters by VLAN. *)
Definition fits (h : Host) (row : WorkloadRow) : Prop :=
  bridge_present h (wl_uplink (wr_wl row)) = true →
  ∃ s, h_read h (vlan_filtering (wl_uplink (wr_wl row))) = Ok s ∧ trim s = "1".

Lemma vlan_aware_iff h bridge :
  vlan_aware h bridge = true ↔ ∃ s, h_read h (vlan_filtering bridge) = Ok s ∧ trim s = "1".
Proof.
  unfold vlan_aware. destruct (h_read h _) as [s|e]; [|by split; [|intros (? & ? & _)]].
  rewrite String.eqb_eq. split; [eauto|]. by intros (? & [= <-] & ?).
Qed.

Lemma check_bridge_ok h row : check_bridge h row = Ok tt ↔ fits h row.
Proof.
  unfold check_bridge, fits. rewrite <-vlan_aware_iff. destruct (bridge_present _ _); cbn; [|by split].
  rewrite refuse_if_ok, negb_false_iff. split; [by intros ? _|auto].
Qed.

Lemma host_preflight_cases h rows :
  (for_each (check_bridge h) rows = Ok tt ∧ Forall (fits h) rows)
  ∨ ∃ pre row post, rows = (pre ++ row :: post)%list ∧ Forall (fits h) pre ∧ ¬ fits h row ∧
      for_each (check_bridge h) rows = Err (not_vlan_aware (wr_wl row)).
Proof.
  induction rows as [|r rows IH]; [by left|]. cbn [for_each].
  destruct (check_bridge h r) as [[]|e] eqn:E.
  - pose proof (proj1 (check_bridge_ok h r) E) as Hr.
    destruct IH as [[E' H]|(pre & row & post & -> & H & Hn & E')]; [left|right].
    + split; [done|]. by constructor.
    + exists (r :: pre)%list, row, post. repeat split; [by constructor|done..].
  - right. exists []%list, r, rows. repeat split; [constructor| |].
    + intros H%check_bridge_ok. congruence.
    + unfold check_bridge in E. destruct (bridge_present _ _); [|done]. cbn in E.
      unfold refuse_if in E. destruct (negb _); [by injection E as <-|done].
Qed.

Lemma write_each_all sink out l :
  (∀ out s, sink out s = Ok tt) → write_each sink out l = ((out ++ l)%list, Ok tt).
Proof.
  intros Hs. revert out. induction l as [|s l IH]; intros out; cbn; [by rewrite app_nil_r|].
  rewrite Hs, IH, <-app_assoc. done.
Qed.

(** [cfab check] judges the file before the host. Of a declaration the gate accepts, on any
    host and for any name, to a writer that takes what it is given: the report on the whole file
    and then the line saying who this host is are always written, first and the same whatever
    the host answers. Then, a name that is no declared member ends it there without an error; a
    member whose first misfit row wants a bridge that is there and is not known to filter by VLAN
    gets the refusal naming that row and nothing more; and every other member gets its warnings
    and no refusal. *)
Theorem check_judges_the_file_before_the_host from_str sink h f name
    (Hv : validate f = Ok tt) (Hsink : ∀ out s, sink out s = Ok tt) :
  ∃ text, report f = Ok text ∧
  let said := [text; host_line f name]%list in
  match view_new f name with
  | Err _ => run_cli from_str sink h f name = Ok (said, Ok tt)
  | Ok v =>
      (Forall (fits h) (workload_rows v)
       ∧ run_cli from_str sink h f name
         = Ok ((said ++ (endl <$> host_warnings from_str h v))%list, Ok tt))
      ∨ ∃ pre row post, workload_rows v = (pre ++ row :: post)%list ∧ Forall (fits h) pre
          ∧ ¬ fits h row
          ∧ run_cli from_str sink h f name = Ok (said, Err (not_vlan_aware (wr_wl row)))
  end.
Proof.
  pose proof (report_total f Hv) as Hr. destruct (report f) as [text|] eqn:Er; [|done].
  exists text. split; [done|]. cbv zeta. unfold run_cli. rewrite Er.
  rewrite write_each_all by done. destruct (view_new f name) as [v|]; [|done].
  unfold host_preflight.
  destruct (host_preflight_cases h (workload_rows v)) as [[-> H]|(pre & row & post & E & H & Hn & ->)].
  - left. split; [done|]. by rewrite write_each_all.
  - right. by exists pre, row, post.
Qed.

(** The sample fabric, on a host whose bridge [eth2] is there and filters by VLAN or not. *)
Module Sample.
Definition no_json (_ : string) : option Value := None.
Definition sink (_ : list string) (_ : string) : result string unit := Ok tt.
Definition host (filtering : string) : Host :=
  {| h_run _ := Err (Fatal "no such program");
     h_read p := if String.eqb p (vlan_filtering "eth2") then Ok filtering
                 else Err (Fatal "no such file");
     h_exists p := String.eqb p (sysfs "eth2" "bridge/stp_state"); h_is_writable _ := false;
     h_list_dir _ := Ok []; h_read_link _ := Err (Fatal "no such link") |}.
Definition check (filtering name : string) : option (list string * result Error unit) :=
  match run_cli no_json sink (host filtering) Derive.Sample.fabric name with
  | Ok r => Some r | Err _ => None
  end.

Example vlan_aware_bridge : snd <$> check (endl "1") "h1" = Some (Ok tt).
Proof. by vm_compute. Qed.
Example plain_bridge : snd <$> check "0" "h1" = Some (Err (not_vlan_aware Derive.Sample.vms)).
Proof. by vm_compute. Qed.
Example a_stranger : snd <$> check "0" "h9" = Some (Ok tt).
Proof. by vm_compute. Qed.
Example same_file : fst <$> check "0" "h1" = fst <$> check "1" "h1".
Proof. by vm_compute. Qed.
End Sample.

Lemma check_judges_witness :
  validate Derive.Sample.fabric = Ok tt ∧
  ∃ text, report Derive.Sample.fabric = Ok text ∧
  let said := [text; host_line Derive.Sample.fabric "h1"]%list in
  match view_new Derive.Sample.fabric "h1" with
  | Err _ => run_cli Sample.no_json Sample.sink (Sample.host "0") Derive.Sample.fabric "h1" = Ok (said, Ok tt)
  | Ok v =>
      (Forall (fits (Sample.host "0")) (workload_rows v)
       ∧ run_cli Sample.no_json Sample.sink (Sample.host "0") Derive.Sample.fabric "h1"
         = Ok ((said ++ (endl <$> host_warnings Sample.no_json (Sample.host "0") v))%list, Ok tt))
      ∨ ∃ pre row post, workload_rows v = (pre ++ row :: post)%list ∧ Forall (fits (Sample.host "0")) pre
          ∧ ¬ fits (Sample.host "0") row
          ∧ run_cli Sample.no_json Sample.sink (Sample.host "0") Derive.Sample.fabric "h1"
            = Ok (said, Err (not_vlan_aware (wr_wl row)))
  end.
Proof.
  split; [by vm_compute|].
  apply (check_judges_the_file_before_the_host Sample.no_json Sample.sink (Sample.host "0")
           Derive.Sample.fabric "h1"); [by vm_compute|done].
Defined.
