(* ===== verification/Teardown.v ===== *)
(** Taking the fabric off a member (src/src/commands/teardown.rs), with the removals of
    src/src/commands/common.rs only it and the forwarding code use.

    Every function that takes [&mut dyn Sys] is an [IO] of [Sys]. The two loops that delete a
    rule until it is gone take [fuel], as [Rules.drop_rules] does. *)
From Stdlib Require Import Ascii String.
From S2P Require Import Prelude Text Decl Sys Net Fabric Derive EngineState Rules Legs Emit EngineCtl.
Local Open Scope Z_scope.
Local Open Scope cmd_scope.

(** ** The removals of common.rs *)

Fixpoint remove_foreign_transit_accept (fuel : nat) : IO nat :=
  match fuel with
  | O => throw still_there
  | S fuel' =>
      shown <~ try_run docker_user ;;
      match shown with
      | None => ret 0%nat
      | Some o =>
          if negb (has_substring FOREIGN_ACCEPT_TAG (stdout o)) then ret 0%nat
          else must (foreign_accept_argv "-D") >>~
               (removed <~ remove_foreign_transit_accept fuel' ;; ret (S removed))
      end
  end.

Definition mangle (args : list string) : list string := (["iptables-legacy"; "-t"; "mangle"] ++ args)%list.
Definition mangle_save : list string := ["iptables-legacy-save"; "-t"; "mangle"].

Definition flush_chain (chain : string) : IO unit :=
  when (String.eqb chain OUT_CHAIN) (run_ignore (mangle ["-D"; "OUTPUT"; "-j"; chain])) >>~
  run_ignore (mangle ["-F"; chain]).

Definition remove_mark_ipt : IO unit :=
  have <~ both (have_tool "iptables-legacy") (have_tool "iptables-legacy-save") ;;
  if negb have then ret tt
  else
    save <~ exec mangle_save ;;
    let chains := chains_in (stdout save) in
    each flush_chain chains >>~ each (λ c, run_ignore (mangle ["-X"; c])) chains.

(** ** Stage one: forwarding off *)

Definition nft_delete (family table : string) : list string := ["nft"; "delete"; "table"; family; table].

(** [run_ignore] of a table's deletion, where there is an [nft]. *)
Definition drop_table (family table : string) : IO unit :=
  have <~ have_tool "nft" ;; when have (run_ignore (nft_delete family table)).

Definition owned_name (d : Rows) (ifname : string) : bool :=
  starts_with "cfab-" ifname || any (λ p, String.eqb p.1 ifname) (rw_owned d).

(** [if link_exists(..)? { if !link_kind_is(..)? { return Err(..) } run_ok(del)? }]. *)
Definition not_a (dev kind : string) : Error :=
  Fatal ("REFUSING: " ++ dev ++ " exists but is not a " ++ kind).
Definition marker (kind : string) : string := (" " ++ kind ++ " ")%string.
Definition delete_proven (dev kind : string) : IO unit :=
  proven <~ link_kind_is dev (marker kind) ;;
  if negb proven then throw (not_a dev kind) else must (link_del dev) >>~ ret tt.
Definition delete_if_there (kind dev : string) : IO unit :=
  there <~ link_exists dev ;; when there (delete_proven dev kind).

(** Which of its two shapes the ingress leg had; [None] when it was not there. *)
Definition remove_gw_leg (m : Member) (ifname : string) : IO (option string) :=
  there <~ link_exists ifname ;;
  if negb there then ret None
  else
    bond <~ link_kind_is ifname (marker "bond") ;;
    if bond then
      must (link_del ifname) >>~
      (each (λ s, delete_if_there "vlan" (po_ifname s)) (ports_of m ifname) >>~ ret (Some "bond"))
    else delete_proven ifname "vlan" >>~ ret (Some "sub-interface").

Inductive Teardown := Stop | Down.

(** The lock file's holder, if the run directory is there and somebody holds the lock. *)
Record Held := { held_pid : option Z }.

Section teardown.
(** [refused] is the text of a look-up's refusal; [engine_lock] asks the kernel, not [Sys]. *)
Context (refused : Refusal → Error) (engine_lock : list Action → option Held) (fuel : nat).
Context (v : View) (d : Rows).
Let f := v_fabric v.

Definition forwarding_off : IO unit :=
  match m_kind (v_member v) with
  | Leaf => ret tt
  | Decl.Host =>
      present <~ conf_interfaces ;;
      each (λ ifn, when (owned_name d ifn) (proc_sysctl ifn "forwarding" "0")) present >>~
      (drop_table "inet" "cfab-fwd" >>~ (remove_foreign_transit_accept fuel >>~ ret tt))
  end.

(** *** The mark, and the workload rows *)

Definition remove_mark : IO unit :=
  backend <~ look (λ h, recorded_backend h (f_run_dir f)) ;;
  (match backend with Some IptablesLegacy => ret tt | _ => drop_table "inet" "cfab" end) >>~
  (match backend with Some Nft => ret tt | _ => remove_mark_ipt end).

Definition addr_show (dev : string) : list string := ["ip"; "-4"; "-br"; "addr"; "show"; "dev"; dev].
Definition addr_del (cidr dev : string) : list string := ["ip"; "addr"; "del"; cidr; "dev"; dev].

Definition remove_guard : IO unit :=
  have <~ have_tool "nft" ;;
  when have
    (listed <~ exec ["nft"; "list"; "table"; "bridge"; "cfab"] ;;
     when (output_ok listed) (must (nft_delete "bridge" "cfab") >>~ ret tt)).

Definition remove_workload (mode : Teardown) (row : WorkloadRow) : IO unit :=
  let wl := wr_wl row in
  let ifname := leg_ifname wl in
  addr <~ exec (addr_show ifname) ;;
  when (has_ip_addr (stdout addr) (gw_cidr wl)) (must (addr_del (gw_cidr wl) ifname) >>~ ret tt) >>~
  (proxy_arp ifname false >>~
   match mode with
   | Down => remove_leg (f_run_dir f) ifname (wl_uplink wl) (wl_vid wl)
   | Stop => release_vid (f_run_dir f) (wl_uplink wl) (wl_vid wl)
   end).

Definition remove_workloads (mode : Teardown) : IO unit :=
  match workload_rows v with
  | [] => ret tt
  | rows => remove_guard >>~ each (remove_workload mode) rows
  end.

(** *** Rules and routes *)

Definition zone_rules (z : Zone) : list FabricRule :=
  let blk := zone_blk z in
  let id := show (z_id z) in
  ([{| pref := "2000";
       needle := "from " ++ blk ++ " to " ++ blk ++ " lookup main suppress_prefixlength 0";
       add := ["from"; blk; "to"; blk; "lookup"; "main"; "suppress_prefixlength"; "0"] |}]
   ++ List.filter (λ r, starts_with ("from " ++ blk ++ " to ")%string (needle r)) (workload_return_rules v)
   ++ [{| pref := "2001"; needle := "from " ++ blk ++ " lookup " ++ id;
          add := ["from"; blk; "lookup"; id] |};
       {| pref := "2002"; needle := "from " ++ blk ++ " unreachable";
          add := ["from"; blk; "unreachable"] |}])%list.

Definition leak_rules (z : Zone) : list FabricRule :=
  let blk := zone_blk z in
  [{| pref := "1000"; needle := "to " ++ blk ++ " iif lo lookup main";
      add := ["to"; blk; "iif"; "lo"; "lookup"; "main"] |};
   {| pref := "1001"; needle := "to " ++ blk ++ " unreachable"; add := ["to"; blk; "unreachable"] |}].

Definition drop_zone_rules (rules : Zone → list FabricRule) : IO unit :=
  each (λ z, each (drop_fabric_rule fuel) (rules z)) (f_zones f).

Definition return_default_del (z : Zone) : list string :=
  ["ip"; "route"; "del"; "default"; "table"; show (z_id z); "proto"; show CFAB_PROTO].
Definition drop_return_default (r : GwRow) : IO unit :=
  z <~ zone_of refused f (gr_zone r) ;; run_ignore (return_default_del z).

(** *** The run directory *)

Definition lock_path : string := (f_run_dir f ++ "/engine.lock")%string.
Definition engine_still_runs (held : Held) : Error :=
  Fatal ("an engine is still running (pid "
    ++ match held_pid held with Some p => show p | None => "unknown" end ++ " holds " ++ lock_path
    ++ "); stop it first — teardown refuses to remove a run_dir a live engine still owns").
Definition remove_run_dir : IO unit := λ io tr,
  match engine_lock tr with
  | Some held => (tr, Err (engine_still_runs held))
  | None => remove (f_run_dir f) io tr
  end.

(** *** Netdevs *)

Definition orphan_peer (dev : string) : Error :=
  Fatal ("REFUSING: " ++ dev ++ "-peer exists without " ++ dev ++ " (not ours)").

(** The note is what is left in the zone's table. *)
Definition remove_identity (z : Zone) : IO (list string) :=
  let dev := identity_if z in
  delete_if_there "veth" dev >>~
  (peer <~ link_exists (dev ++ "-peer") ;;
   if peer then throw (orphan_peer dev)
   else
     run_ignore ["ip"; "route"; "del"; "unreachable"; zone_blk z] >>~
     (left <~ exec ["ip"; "route"; "show"; "table"; show (z_id z)] ;;
      ret (if String.eqb (trim (stdout left)) EmptyString then []
           else ["note: table " ++ show (z_id z) ++ " still holds routes not ours (left alone): "
                   ++ trim (stdout left)]%string))).

Definition remove_netdevs : IO (list string) :=
  each (λ r, delete_if_there "bond" (fr_ifname r)) (rw_fallback d) >>~
  (each (λ s, delete_if_there "vlan" (po_ifname s)) (rw_fallback d ≫= fr_ports) >>~
   (each (λ r, remove_gw_leg (v_member v) (gr_ifname r) >>~ ret tt) (rw_gw d) >>~
    (each (λ r, delete_if_there "vlan" (cr_ifname r)) (rw_class d) >>~
     gather remove_identity (f_zones f)))).

Definition remove_qdisc_or_guard : IO unit :=
  match m_kind (v_member v) with
  | Decl.Host => each (λ dev, run_ignore ["tc"; "qdisc"; "del"; "dev"; dev; "root"]) (rw_wires d)
  | Leaf => drop_zone_rules leak_rules
  end.

(** Everything after stage one. *)
Definition dismantle (mode : Teardown) : IO string :=
  remove_mark >>~
  (remove_workloads mode >>~
   (stop_and_sweep >>~
    (drop_zone_rules zone_rules >>~
     (each drop_return_default (rw_gw d) >>~
      (remove_host_default fuel >>~
       (remove_run_dir >>~
        (notes <~ remove_netdevs ;;
         remove_qdisc_or_guard >>~
         ret (String.concat EmptyString
                ((λ n, n ++ lf)%string <$> notes ++ ["teardown OK on " ++ m_name (v_member v)]%string))))))))).

Definition run (mode : Teardown) : IO string := forwarding_off >>~ dismantle mode.

(** *** [cfab down] *)

(** [serde_json::from_str]. *)
Context (from_str : string → option Value).

Definition pid_of (reply : string) : string :=
  match doc ← from_str reply; as_u64 (index (index doc "supervisor") "pid") with
  | Some p => show p
  | None => "unknown"
  end.
Definition supervisor_refusal (pid : string) : Error :=
  Fatal ("REFUSING: a cfab supervisor is running (pid " ++ pid ++ ") — stop the service instead "
    ++ "(systemctl stop cfab, or docker stop <container>)").

Definition run_cli : IO string :=
  probe <~ unix_probe (f_run_dir f ++ "/cfab.sock") ("components" ++ lf) ;;
  match probe with
  | NotListening => run Down
  | Answered reply => throw (supervisor_refusal (pid_of reply))
  | Unreachable _ => throw (supervisor_refusal "unknown")
  end.
End teardown.

(** ** What a teardown may do *)

Definition leak_pref (p : string) : bool := String.eqb p "1000" || String.eqb p "1001".
Definition is_leak_del (a : Action) : bool :=
  match a with ARun ("ip" :: "rule" :: "del" :: "pref" :: p :: _) => leak_pref p | _ => false end.

Definition is_link_del (a : Action) : bool :=
  match a with ARun ["ip"; "link"; "del"; _] => true | _ => false end.

(** Neither a netdev nor the run directory. *)
Definition spares (run_dir : string) (a : Action) : bool :=
  match a with
  | ARemove p => negb (String.eqb p run_dir)
  | _ => negb (is_link_del a)
  end.

(** [ip -d link show dev], asked when [hist] had been done, shows the device with this text. *)
Definition shown_as (io : Env_) (hist : list Action) (dev text : string) : Prop :=
  ∃ o, h_run (e_host (io hist)) (link_show_d dev) = Ok o ∧ output_ok o = true
       ∧ has_substring text (stdout o) = true.

Lemma shorter_path a b : a ≠ EmptyString → String.eqb (b ++ a)%string b = false.
Proof.
  intros Ha. apply String.eqb_neq. intros E. apply Ha. apply (f_equal String.length) in E.
  rewrite str_length_app in E. destruct a; cbn in E; [done|lia].
Qed.

Ltac spare_step :=
  match goal with
  | |- emits _ (when ?b _) => unfold when
  | |- emits _ (both _ _) => unfold both
  | |- spares _ _ = true => reflexivity
  | |- is_leak_del _ = false => reflexivity
  | _ => emits_step
  end.
Ltac spare := repeat spare_step.

Section spares.
Context (run_dir : string).
Let quiet := emits (λ a, spares run_dir a = true) (A := unit).

Lemma spares_drop_rules fuel r : quiet (drop_fabric_rule fuel r).
Proof using Type.
  unfold quiet, drop_fabric_rule. induction fuel as [|n IH]; cbn [drop_rules]; [spare|].
  apply emits_bind; [spare|]. intros o. destruct (has_substring _ _); [|spare].
  apply emits_bind; [spare|]. intros _. exact IH.
Qed.

Lemma spares_drop_table fam t : quiet (drop_table fam t).
Proof using Type. unfold quiet, drop_table. spare. Qed.

Lemma spares_foreign_accept fuel : emits (λ a, spares run_dir a = true) (remove_foreign_transit_accept fuel).
Proof using Type. induction fuel as [|n IH]; cbn [remove_foreign_transit_accept]; spare. Qed.

Lemma spares_mark_ipt : quiet remove_mark_ipt.
Proof using Type. unfold quiet, remove_mark_ipt, flush_chain, run_ignore. spare. Qed.

Lemma spares_release uplink vid : quiet (release_vid run_dir uplink vid).
Proof using Type.
  unfold quiet, release_vid. spare. apply emits_remove. cbn. unfold record_path.
  by rewrite shorter_path.
Qed.

Lemma spares_guard : quiet remove_guard.
Proof using Type. unfold quiet, remove_guard. spare. Qed.

Lemma spares_sweep : quiet stop_and_sweep.
Proof using Type.
  eapply emits_mono; [apply sweep_emits|].
  intros a (proto & _ & [->|(line & argv & (mid & ->)%sweep_argv_shape & ->)]); reflexivity.
Qed.

Lemma spares_host_default fuel : quiet (remove_host_default fuel).
Proof using Type.
  unfold quiet, remove_host_default, installed_floor_addresses, installed_workload_sources. spare.
  all: apply spares_drop_rules.
Qed.
End spares.

Section scope.
Context (refused : Refusal → Error) (engine_lock : list Action → option Held) (fuel : nat).
Context (v : View) (d : Rows) (mode : Teardown).
Let f := v_fabric v.

Lemma spares_forwarding_off : emits (λ a, spares (f_run_dir f) a = true) (forwarding_off fuel v d).
Proof using Type.
  unfold forwarding_off, conf_interfaces, proc_sysctl. spare.
  - apply spares_drop_table.
  - apply spares_foreign_accept.
Qed.

Lemma spares_mark : emits (λ a, spares (f_run_dir f) a = true) (remove_mark v).
Proof using Type.
  unfold remove_mark. spare; first [apply spares_drop_table|apply spares_mark_ipt].
Qed.

Lemma spares_zone_rules rules : emits (λ a, spares (f_run_dir f) a = true) (drop_zone_rules fuel v rules).
Proof using Type. unfold drop_zone_rules. spare. apply spares_drop_rules. Qed.

(** The netdevs a teardown may delete, each with the text that proves its kind. A workload leg is
    one only when the fabric goes down for good. *)
Inductive target : string → string → Prop :=
| TFallback r : r ∈ rw_fallback d → target (marker "bond") (fr_ifname r)
| TFallbackPort r p : r ∈ rw_fallback d → p ∈ fr_ports r → target (marker "vlan") (po_ifname p)
| TGwBond r : r ∈ rw_gw d → target (marker "bond") (gr_ifname r)
| TGwVlan r : r ∈ rw_gw d → target (marker "vlan") (gr_ifname r)
| TGwPort r p : r ∈ rw_gw d → p ∈ ports_of (v_member v) (gr_ifname r) → target (marker "vlan") (po_ifname p)
| TClass r : r ∈ rw_class d → target (marker "vlan") (cr_ifname r)
| TIdentity z : z ∈ f_zones f → target (marker "veth") (identity_if z)
| TWorkload r : r ∈ workload_rows v → mode = Down → target (vlan_marker (wl_vid (wr_wl r))) (leg_ifname (wr_wl r)).

(** What an action of a teardown needs of what came before it. *)
Definition proven (io : Env_) (hist : list Action) (a : Action) : Prop :=
  (∀ x, a = ARun (link_del x) →
     ∃ before text, hist = before ++ [ARun (link_show_d x)] ∧ target text x ∧ shown_as io before x text)
  ∧ (a = ARemove (f_run_dir f) → engine_lock hist = None).

Definition always (io : Env_) (hist : list Action) : Prop := True.
Lemma always_stable : stable always.
Proof using Type. done. Qed.

Lemma proven_quiet {A} (m : IO A) :
  emits (λ a, spares (f_run_dir f) a = true) m → acts always proven m.
Proof using Type.
  intros Hm. eapply acts_emits; [apply always_stable|exact Hm|]. intros io tr a _ Ha. split.
  - by intros x ->.
  - intros ->. cbn in Ha. by rewrite String.eqb_refl in Ha.
Qed.

(** What a look that proved the kind leaves known, until something else is done. *)
Definition knows (dev text : string) (ok : bool) (io : Env_) (hist : list Action) : Prop :=
  ok = true → ∃ before, hist = before ++ [ARun (link_show_d dev)] ∧ shown_as io before dev text.

Lemma proven_ask {B} dev text (k : bool → IO B) :
  (∀ ok, acts (knows dev text ok) proven (k ok)) → acts always proven (bind (link_kind_is dev text) k).
Proof using Type.
  apply acts_bind_then; [apply proven_quiet; unfold link_kind_is; spare|].
  intros io tr tr' ok _ H ->. unfold link_kind_is in H. apply bind_Ok in H as (tr1 & o & He & [= <- H]).
  unfold exec in He. injection He as <- Ho. apply andb_true_iff in H as [H1 H2].
  exists tr. split; [done|]. by exists o.
Qed.

Lemma proven_del {B} dev text (k : Output → IO B) :
  target text dev → (∀ o, acts always proven (k o)) →
  acts (knows dev text true) proven (bind (must (link_del dev)) k).
Proof using Type.
  intros Ht Hk. apply (acts_must _ always); [|done|done]. intros io tr Hr.
  destruct (Hr eq_refl) as (before & -> & Hs). split; [|done]. intros x [= <-]. by exists before, text.
Qed.

Lemma proven_nothing {A} I (m : IO A) : (∀ io tr, (m io tr).1 = tr) → acts I proven m.
Proof using Type. intros H io tr _. exists []. by rewrite H, app_nil_r. Qed.

Lemma proven_delete dev kind : target (marker kind) dev → acts always proven (delete_proven dev kind).
Proof using Type.
  intros Ht. apply proven_ask. intros [|]; [|by apply proven_nothing].
  apply proven_del; [done|]. intros _. by apply proven_nothing.
Qed.

Lemma proven_if_there dev kind : target (marker kind) dev → acts always proven (delete_if_there kind dev).
Proof using Type.
  intros Ht. unfold delete_if_there, when. apply acts_bind; [apply always_stable| |].
  - apply proven_quiet. unfold link_exists. spare.
  - intros b. apply acts_when; [apply always_stable|]. intros _. by apply proven_delete.
Qed.

Lemma proven_leg row : row ∈ workload_rows v → mode = Down →
  acts always proven (remove_leg (f_run_dir f) (leg_ifname (wr_wl row)) (wl_uplink (wr_wl row)) (wl_vid (wr_wl row))).
Proof using Type.
  intros Hr Hm. set (leg := leg_ifname (wr_wl row)). set (vid := wl_vid (wr_wl row)).
  unfold remove_leg. apply (acts_bind_then _ _ _ _ (knows leg (vlan_marker vid))).
  - apply proven_quiet. unfold leg_present, vlan_identity_is, link_exists. spare.
  - intros io tr tr' ok _ H ->. unfold leg_present, both in H. apply bind_Ok in H as (tr1 & b & _ & H).
    destruct b; [|done]. unfold vlan_identity_is in H. apply bind_Ok in H as (tr2 & o & He & [= <- H]).
    unfold exec in He. injection He as <- Ho. rewrite !andb_true_iff in H. destruct H as [[H1 H2] _].
    exists tr1. split; [done|]. by exists o.
  - intros ok. apply (acts_bind_then _ _ _ _ (λ _, always)); [|done|].
    + destruct ok; [|by apply proven_nothing]. apply proven_del; [by constructor|].
      intros _. by apply proven_nothing.
    + intros _. apply proven_quiet, spares_release.
Qed.

Lemma proven_workloads : acts always proven (remove_workloads v mode).
Proof using Type.
  unfold remove_workloads. pose proof (λ row, proven_leg row) as Hleg.
  destruct (workload_rows v) as [|r rows] eqn:Er; [apply acts_ret, always_stable|].
  apply acts_bind; [apply always_stable|apply proven_quiet, spares_guard|]. intros _.
  apply acts_each; [apply always_stable|]. intros row Hr. unfold remove_workload.
  apply acts_bind; [apply always_stable|apply proven_quiet; spare|]. intros o.
  apply acts_bind; [apply always_stable|apply proven_quiet; spare|]. intros _.
  apply acts_bind; [apply always_stable|apply proven_quiet; unfold proxy_arp; spare|]. intros _.
  destruct mode; [apply proven_quiet, spares_release|by apply Hleg].
Qed.

Lemma proven_gw r : r ∈ rw_gw d → acts always proven (remove_gw_leg (v_member v) (gr_ifname r)).
Proof using Type.
  intros Hr. unfold remove_gw_leg.
  apply acts_bind; [apply always_stable|apply proven_quiet; unfold link_exists; spare|].
  intros [|]; cbn [negb]; [|by apply proven_nothing]. apply proven_ask. intros [|].
  - apply proven_del; [by constructor|]. intros _.
    apply acts_bind; [apply always_stable| |intros; by apply proven_nothing].
    apply acts_each; [apply always_stable|]. intros p Hp. apply proven_if_there. by econstructor.
  - apply (acts_weaken always); [|done]. apply acts_bind; [apply always_stable| |intros; by apply proven_nothing].
    apply proven_delete. by constructor.
Qed.

Lemma proven_run_dir : acts always proven (remove_run_dir engine_lock v).
Proof using Type.
  intros io tr _. unfold remove_run_dir. destruct (engine_lock tr) as [held|] eqn:E; cbn.
  - exists []. by rewrite app_nil_r.
  - exists [ARemove (f_run_dir f)]. by repeat split.
Qed.

Lemma proven_identity z : z ∈ f_zones f → acts always proven (remove_identity z).
Proof using Type.
  intros Hz. unfold remove_identity.
  apply acts_bind; [apply always_stable|apply proven_if_there; by constructor|]. intros _.
  apply proven_quiet. unfold link_exists. spare.
Qed.

Lemma proven_netdevs : acts always proven (remove_netdevs v d).
Proof using Type.
  unfold remove_netdevs. acts_seq always_stable.
  all: first [apply acts_each|apply acts_gather]; [apply always_stable|intros x Hx].
  - apply proven_if_there. by constructor.
  - apply list_elem_of_bind in Hx as (r & Hp & Hr). apply proven_if_there. by econstructor.
  - apply acts_bind; [apply always_stable|by apply proven_gw|]. intros _. by apply proven_nothing.
  - apply proven_if_there. by constructor.
  - by apply proven_identity.
Qed.

Lemma proven_return_defaults : acts always proven (each (drop_return_default refused v) (rw_gw d)).
Proof using Type. apply proven_quiet. unfold drop_return_default, zone_of. spare. Qed.

Lemma proven_last : acts always proven (remove_qdisc_or_guard fuel v d).
Proof using Type. apply proven_quiet. unfold remove_qdisc_or_guard. spare. apply spares_zone_rules. Qed.

Lemma proven_dismantle : acts always proven (dismantle refused engine_lock fuel v d mode).
Proof using Type.
  unfold dismantle. acts_seq always_stable.
  - apply proven_quiet, spares_mark.
  - apply proven_workloads.
  - apply proven_quiet, spares_sweep.
  - apply proven_quiet, spares_zone_rules.
  - apply proven_return_defaults.
  - apply proven_quiet, spares_host_default.
  - apply proven_run_dir.
  - apply proven_netdevs.
  - apply proven_last.
  - by apply proven_nothing.
Qed.

(** C6. A teardown, on any host and whatever it answers, destroys only what it has just proved
    to be its own. Each [ip link del] of the run directly follows the [ip -d link show] of that
    very netdev whose answer shows the kind the name calls for: a bond for a fallback leg, a bond
    or a VLAN for an ingress leg, a VLAN for a segment or a bond's port, a veth for an identity,
    the row's own VLAN id for a workload leg, and that one only when the fabric goes down, never
    on a stop. And the run directory is removed only where nobody holds the engine's lock. *)
Theorem teardown_destroys_only_what_it_proved io tr :
  ∃ new, (run refused engine_lock fuel v d mode io tr).1 = tr ++ new ∧
  ∀ pre a post, new = pre ++ a :: post →
    (∀ x, a = ARun (link_del x) →
       ∃ before text, tr ++ pre = before ++ [ARun (link_show_d x)]
                      ∧ target text x ∧ shown_as io before x text)
    ∧ (a = ARemove (f_run_dir f) → engine_lock (tr ++ pre) = None).
Proof using Type.
  assert (acts always proven (run refused engine_lock fuel v d mode)) as H.
  { unfold run. acts_seq always_stable; [apply proven_quiet, spares_forwarding_off|apply proven_dismantle]. }
  destruct (H io tr I) as (new & E & Hn). exists new. split; [done|]. intros pre a post Ea.
  exact (allowed_at _ _ _ _ _ _ Hn Ea).
Qed.

(** *** Forwarding goes first *)

(** The write that turned an interface's forwarding off, and was answered. *)
Definition turned_off (io : Env_) (hist : list Action) (ifn : string) : Prop :=
  ∃ before after, hist = before ++ AWrite (conf_path ifn "forwarding") "0" :: after
    ∧ e_write (io before) (conf_path ifn "forwarding") "0" = Ok tt.

(** Of the interfaces there were at [tr0]. *)
Definition all_off (tr0 : list Action) (io : Env_) (hist : list Action) : Prop :=
  ∀ present ifn, h_list_dir (e_host (io tr0)) CONF = Ok present → ifn ∈ present →
    owned_name d ifn = true → turned_off io hist ifn.
Lemma all_off_stable tr0 : stable (all_off tr0).
Proof using Type.
  intros io tr new H present ifn Hp Hi Ho. destruct (H present ifn Hp Hi Ho) as (b & a & -> & Hw).
  exists b, (a ++ new). by rewrite <-app_assoc.
Qed.

Definition first_off (tr0 : list Action) (io : Env_) (hist : list Action) (a : Action) : Prop :=
  (∃ ifn, a = AWrite (conf_path ifn "forwarding") "0") ∨ all_off tr0 io hist.

Lemma after_all_off {A} tr0 (m : IO A) : acts always proven m → acts (all_off tr0) (first_off tr0) m.
Proof using Type.
  intros Hm. eapply acts_anywhere; [exact Hm|done|apply all_off_stable|]. intros. by right.
Qed.

Lemma off_loop_ends tr0 present io tr :
  h_list_dir (e_host (io tr0)) CONF = Ok present →
  each (λ ifn, when (owned_name d ifn) (proc_sysctl ifn "forwarding" "0")) present io tr0 = (tr, Ok tt) →
  all_off tr0 io tr.
Proof using Type.
  intros Hl H l ifn Hl' Hi Ho. rewrite Hl in Hl'. injection Hl' as <-.
  edestruct (λ He, each_ran _ (λ _, True) _ _ _ _ He H ifn Hi) as (b & n & a & E & ->).
  { intros x _. unfold when, proc_sysctl. emits_all. }
  rewrite Ho in E. unfold when, proc_sysctl, write in E. injection E as En Ew.
  apply app_inv_head in En as <-. exists (tr0 ++ b), a. by rewrite <-app_assoc.
Qed.

Lemma stage_one_acts tr0 : m_kind (v_member v) = Decl.Host →
  acts (λ _ hist, hist = tr0) (first_off tr0) (forwarding_off fuel v d).
Proof using engine_lock mode Type.
  intros Hhost. unfold forwarding_off. rewrite Hhost.
  apply (acts_bind_then _ _ _ _ (λ present io hist, hist = tr0 ∧ h_list_dir (e_host (io tr0)) CONF = Ok present)).
  - apply (acts_free (λ _, False)); [unfold conf_interfaces; emits_all|done].
  - intros io tr tr' present -> H. unfold conf_interfaces in H.
    apply bind_Ok in H as (tr1 & r & [= <- <-] & [= <- E]). done.
  - intros present. apply (acts_bind_then _ _ _ _ (λ _, all_off tr0)).
    + apply (acts_free (λ a, ∃ ifn, a = AWrite (conf_path ifn "forwarding") "0")); [|by left].
      unfold when, proc_sysctl. emits_all. apply emits_write. by eexists.
    + intros io tr tr' [] [-> Hl] H. by eapply off_loop_ends.
    + intros _. apply after_all_off. acts_seq always_stable; [|apply proven_quiet|by apply proven_nothing].
      * apply proven_quiet, spares_drop_table.
      * apply spares_foreign_accept.
Qed.

Lemma stage_one_ends tr0 io tr u : m_kind (v_member v) = Decl.Host →
  forwarding_off fuel v d io tr0 = (tr, Ok u) → all_off tr0 io tr.
Proof using Type.
  intros Hhost H. unfold forwarding_off in H. rewrite Hhost in H.
  apply bind_Ok in H as (tr1 & present & Hp & H). unfold conf_interfaces in Hp.
  apply bind_Ok in Hp as (tr2 & r & [= <- <-] & [= <- Hl]).
  apply bind_Ok in H as (tr2 & [] & He & H).
  pose proof (off_loop_ends _ _ _ _ Hl He) as Hoff.
  assert (emits (λ a, spares (f_run_dir f) a = true)
            (drop_table "inet" "cfab-fwd" >>~ (remove_foreign_transit_accept fuel >>~ ret tt))) as Hq
    by (spare; [apply spares_drop_table|apply spares_foreign_accept]).
  destruct (Hq io tr2) as (new & E & _). rewrite H in E. cbn in E. subst. by apply all_off_stable.
Qed.

(** A teardown of a host fails closed first. Whatever else it does - a packet filter taken
    away, a rule, a netdev, the run directory - comes after the forwarding of every owned
    interface the kernel listed at the start has been turned off and the write answered: until
    then the only thing it does is write those zeros. *)
Theorem teardown_fails_closed_first io tr (Hhost : m_kind (v_member v) = Decl.Host) :
  ∃ new, (run refused engine_lock fuel v d mode io tr).1 = tr ++ new ∧
  ∀ pre a post, new = pre ++ a :: post →
    (∃ ifn, a = AWrite (conf_path ifn "forwarding") "0") ∨
    ∀ present ifn, h_list_dir (e_host (io tr)) CONF = Ok present → ifn ∈ present →
      owned_name d ifn = true → turned_off io (tr ++ pre) ifn.
Proof using Type.
  assert (acts (λ _ hist, hist = tr) (first_off tr) (run refused engine_lock fuel v d mode)) as H.
  { unfold run. apply (acts_bind_then _ _ _ _ (λ _, all_off tr)).
    - by apply stage_one_acts.
    - intros io' tr0 tr' u -> H. by eapply stage_one_ends.
    - intros _. apply after_all_off, proven_dismantle. }
  destruct (H io tr eq_refl) as (new & E & Hn). exists new. split; [done|]. intros pre a post Ea.
  exact (allowed_at _ _ _ _ _ _ Hn Ea).
Qed.

(** *** A leaf's leak guard goes last *)

Definition keeps {A} : IO A → Prop := emits (λ a, is_leak_del a = false).

Lemma keeps_drop_rule r : leak_pref (pref r) = false → keeps (drop_fabric_rule fuel r).
Proof using Type.
  intros Hp. unfold keeps, drop_fabric_rule. induction fuel as [|n IH]; cbn [drop_rules]; [spare|].
  apply emits_bind; [spare|]. intros o. destruct (has_substring _ _); [|spare].
  apply emits_bind; [|intros _; exact IH]. apply emits_must. exact Hp.
Qed.

Lemma keeps_all_rules rules :
  (∀ z r, z ∈ f_zones f → r ∈ rules z → leak_pref (pref r) = false) → keeps (drop_zone_rules fuel v rules).
Proof using Type.
  intros H. unfold keeps, drop_zone_rules. spare. apply keeps_drop_rule. eauto.
Qed.

Lemma zone_rules_prefs z r : r ∈ zone_rules v z → leak_pref (pref r) = false.
Proof using Type.
  unfold zone_rules. intros H. apply elem_of_app in H as [->%list_elem_of_singleton|H]; [done|].
  apply elem_of_app in H as [H|H].
  - apply elem_of_bfilter in H as [_ H]. unfold workload_return_rules in H.
    apply list_elem_of_bind in H as (z' & H & _). apply list_elem_of_fmap in H as (w & -> & _). done.
  - apply elem_of_cons in H as [-> | ->%list_elem_of_singleton]; done.
Qed.

Lemma keeps_stages :
  keeps (remove_mark v) ∧ keeps (remove_workloads v mode) ∧ keeps stop_and_sweep
  ∧ keeps (each (drop_return_default refused v) (rw_gw d)) ∧ keeps (remove_host_default fuel)
  ∧ keeps (remove_run_dir engine_lock v) ∧ keeps (remove_netdevs v d).
Proof using Type.
  assert (∀ dev, keeps (delete_proven dev "vlan") ∧ keeps (delete_if_there "bond" dev)
                 ∧ keeps (delete_if_there "vlan" dev) ∧ keeps (delete_if_there "veth" dev)) as Hdel.
  { intros dev. unfold keeps, delete_if_there, delete_proven, link_exists, link_kind_is.
    split_and!; spare. }
  unfold keeps in *. split_and!.
  - unfold remove_mark, drop_table, remove_mark_ipt, flush_chain, run_ignore. spare.
  - unfold remove_workloads, remove_guard, remove_workload, remove_leg, leg_present, vlan_identity_is,
      link_exists, release_vid, proxy_arp. spare.
  - eapply emits_mono; [apply sweep_emits|].
    intros a (proto & _ & [->|(line & argv & (mid & ->)%sweep_argv_shape & ->)]); reflexivity.
  - unfold drop_return_default, zone_of. spare.
  - unfold remove_host_default, installed_floor_addresses, installed_workload_sources. spare.
    all: apply keeps_drop_rule.
    + done.
    + match goal with H : _ ∈ workload_lookup_rules _ |- _ => 
        apply elem_of_cons in H as [-> | ->%list_elem_of_singleton]; done end.
    + match goal with H : _ ∈ lookup_rules |- _ =>
        apply elem_of_cons in H as [-> | ->%list_elem_of_singleton]; done end.
  - intros io tr. unfold remove_run_dir. destruct (engine_lock tr); cbn.
    + exists []. by rewrite app_nil_r.
    + eexists. split; [done|]. by repeat constructor.
  - unfold remove_netdevs, remove_gw_leg, remove_identity, link_exists, link_kind_is. spare.
    all: apply Hdel.
Qed.

(** On a leaf the leak guard is the last thing to go. Its two rules per zone are all that
    keeps another interface's traffic out of the fabric's blocks, so no [ip rule del] of
    preference 1000 or 1001 comes before an [ip link del] of the same teardown: what a run does
    splits in two, with none of the guard's rules removed in the first part and no netdev in the
    second. *)
Theorem leaf_guard_outlives_netdevs io tr (Hleaf : m_kind (v_member v) = Leaf) :
  ∃ l1 l2, (run refused engine_lock fuel v d mode io tr).1 = tr ++ l1 ++ l2
    ∧ Forall (λ a, is_leak_del a = false) l1 ∧ Forall (λ a, is_link_del a = false) l2.
Proof using Type.
  destruct keeps_stages as (H1 & H2 & H3 & H4 & H5 & H6 & H7).
  unfold run, forwarding_off. rewrite Hleaf. apply phased_bind; [by apply emits_ret|]. intros _.
  unfold dismantle. repeat (apply phased_bind; [first [assumption|apply keeps_all_rules]|intros ?]).
  { intros z r _. apply zone_rules_prefs. }
  apply phased_second. unfold remove_qdisc_or_guard. rewrite Hleaf.
  apply emits_bind; [|intros _; apply emits_ret].
  eapply emits_mono; [apply spares_zone_rules|].
  intros act Ha. destruct act; try done. cbn in *. by apply negb_true_iff in Ha.
Qed.

(** *** The rules are gone *)

(** The kernel's listing of the rule's preference, asked for since [tr0], without the rule. *)
Definition seen_gone (tr0 : list Action) (io : Env_) (hist : list Action) (r : FabricRule) : Prop :=
  ∃ before after o, hist = (tr0 ++ before) ++ ARun (rule_show (pref r)) :: after
    ∧ h_run (e_host (io (tr0 ++ before))) (rule_show (pref r)) = Ok o
    ∧ has_substring (needle r) (stdout o) = false.
Lemma seen_gone_stable tr0 r : stable (λ io hist, seen_gone tr0 io hist r).
Proof using Type.
  intros io tr new (b & a & o & -> & H). exists b, (a ++ new), o. by rewrite <-app_assoc.
Qed.

Lemma drop_rule_gone tr0 r l io tr' u :
  drop_fabric_rule fuel r io (tr0 ++ l) = (tr', Ok u) → seen_gone tr0 io tr' r.
Proof using Type.
  unfold drop_fabric_rule. revert l. induction fuel as [|n IH]; intros l H; [done|]. cbn [drop_rules] in H.
  apply bind_Ok in H as (tr1 & o & He & H). unfold exec in He. injection He as <- Ho.
  destruct (has_substring _ _) eqn:E.
  - apply bind_Ok in H as (tr2 & o' & Hm & H). pose proof (must_trace (rule_del (pref r) (add r)) io
      ((tr0 ++ l) ++ [ARun (rule_show (pref r))])) as Et. rewrite Hm in Et. cbn in Et. subst.
    rewrite <-!app_assoc in H. by eapply IH.
  - injection H as <- _. by exists l, [], o.
Qed.

Lemma extends_drop_rule r : emits (λ _, True) (drop_fabric_rule fuel r).
Proof using Type. eapply emits_mono; [apply (spares_drop_rules EmptyString)|done]. Qed.

Lemma zone_rules_gone rules tr0 l io tr' u :
  drop_zone_rules fuel v rules io (tr0 ++ l) = (tr', Ok u) →
  ∀ r, r ∈ f_zones f ≫= rules → seen_gone tr0 io tr' r.
Proof using Type.
  destruct u. intros H r (z & Hr & Hz)%list_elem_of_bind.
  refine (each_done _ (λ z io hist, ∀ r, r ∈ rules z → seen_gone tr0 io hist r) (f_zones f) io _ tr'
            _ _ _ H z Hz r Hr).
  - intros x io' tr1 new Hs y Hy. apply seen_gone_stable. auto.
  - intros x. apply emits_each. intros y _. apply extends_drop_rule.
  - intros x m tr2 Hx.
    refine (each_done _ (λ r io hist, seen_gone tr0 io hist r) _ _ _ _ _ extends_drop_rule _ Hx).
    + intros y. apply seen_gone_stable.
    + intros y m' tr4. rewrite <-!app_assoc. apply drop_rule_gone.
Qed.

Lemma zone_rules_are_return_rules : f_zones f ≫= zone_rules v = return_path_rules v.
Proof using Type. reflexivity. Qed.
Lemma leak_rules_are_guard_rules : f_zones f ≫= leak_rules = leak_guard_rules v.
Proof using Type. reflexivity. Qed.

(** What comes after is in the trace too. *)
Lemma extends_always {A} (m : IO A) io tr tr' r :
  acts always proven m → m io tr = (tr', r) → ∃ l, tr' = tr ++ l.
Proof using Type. intros Hm H. destruct (Hm io tr I) as (l & E & _). rewrite H in E. by exists l. Qed.

Ltac follow E lem := apply (extends_always _ _ _ _ _ lem) in E as [? ->].
Ltac stage H lem := let E := fresh in apply bind_Ok in H as (? & ? & E & H); follow E lem.

(** A teardown that answers without an error leaves none of cfab's own routing rules: of
    every rule an apply installs for the return path - the blocks' own, each workload's sibling,
    the lookup of the zone's table and the refusal behind it - and, on a leaf, of every rule of
    the leak guard, the kernel's listing was read during the teardown and did not have it. The
    rules are spelled out a second time in the teardown; they are the ones the apply installs. *)
Theorem teardown_leaves_no_rule io tr tr' msg
    (Hok : run refused engine_lock fuel v d mode io tr = (tr', Ok msg)) :
  (∀ r, r ∈ return_path_rules v → seen_gone tr io tr' r)
  ∧ (m_kind (v_member v) = Leaf → ∀ r, r ∈ leak_guard_rules v → seen_gone tr io tr' r).
Proof using Type.
  unfold run, dismantle in Hok.
  stage Hok (proven_quiet _ spares_forwarding_off). stage Hok (proven_quiet _ spares_mark).
  stage Hok proven_workloads. stage Hok (proven_quiet _ (spares_sweep (f_run_dir f))).
  apply bind_Ok in Hok as (t & [] & E & Hok). pose proof E as Hzone. rewrite <-!app_assoc in Hzone.
  pose proof (zone_rules_gone _ _ _ _ _ _ Hzone) as Hreturn. clear Hzone. follow E (proven_quiet _ (spares_zone_rules (zone_rules v))).
  stage Hok proven_return_defaults. stage Hok (proven_quiet _ (spares_host_default (f_run_dir f) fuel)).
  stage Hok proven_run_dir. stage Hok proven_netdevs.
  apply bind_Ok in Hok as (t & [] & E & Hok). pose proof E as Hlast. rewrite <-!app_assoc in Hlast.
  follow E proven_last. injection Hok as <- _. split.
  - intros r Hr. rewrite <-zone_rules_are_return_rules in Hr. do 5 apply seen_gone_stable. by apply Hreturn.
  - intros Hleaf r Hr. rewrite <-leak_rules_are_guard_rules in Hr. unfold remove_qdisc_or_guard in Hlast.
    rewrite Hleaf in Hlast. by eapply zone_rules_gone.
Qed.

(** *** A workload leg that is not there *)

Definition is_rule_del (a : Action) : bool :=
  match a with ARun ("ip" :: "rule" :: "del" :: _) => true | _ => false end.

(** What a teardown has not got to while it is still taking the workload rows off. *)
Record not_yet (a : Action) : Prop := {
  ny_rule : is_rule_del a = false;
  ny_run_dir : a ≠ ARemove (f_run_dir f);
  ny_netdev : ∀ x, a = ARun (link_del x) → x ∈ (λ r, leg_ifname (wr_wl r)) <$> workload_rows v
}.

Definition early (a : Action) : bool := spares (f_run_dir f) a && negb (is_rule_del a).
Lemma early_not_yet a : early a = true → not_yet a.
Proof using Type.
  unfold early. rewrite andb_true_iff, negb_true_iff. intros [Hs Hr]. split; [done| |].
  - intros ->. cbn in Hs. by rewrite String.eqb_refl in Hs.
  - by intros x ->.
Qed.
Lemma not_yet_early {A} (m : IO A) : emits (λ a, early a = true) m → emits not_yet m.
Proof using Type. intros H. eapply emits_mono; [exact H|apply early_not_yet]. Qed.

Ltac early_step := match goal with |- early _ = true => reflexivity | _ => spare_step end.
Ltac early_all := repeat early_step.

Lemma early_release row :
  emits (λ a, early a = true) (release_vid (f_run_dir f) (wl_uplink (wr_wl row)) (wl_vid (wr_wl row))).
Proof using Type.
  unfold release_vid. early_all. apply emits_remove. unfold early, record_path. cbn.
  by rewrite shorter_path.
Qed.

Lemma not_yet_stages : emits not_yet (forwarding_off fuel v d) ∧ emits not_yet (remove_mark v)
  ∧ emits not_yet (remove_workloads v mode).
Proof using Type.
  assert (emits (λ a, early a = true) (remove_foreign_transit_accept fuel)) as Hacc.
  { induction fuel as [|n IH]; cbn [remove_foreign_transit_accept]; early_all. }
  split_and!.
  - apply not_yet_early. unfold forwarding_off, conf_interfaces, proc_sysctl, drop_table. early_all.
  - apply not_yet_early. unfold remove_mark, drop_table, remove_mark_ipt, flush_chain, run_ignore. early_all.
  - unfold remove_workloads. destruct (workload_rows v) as [|r0 rows] eqn:Er; [apply emits_ret|].
    apply emits_bind; [apply not_yet_early; unfold remove_guard; early_all|]. intros _.
    apply emits_each. intros row Hr. unfold remove_workload.
    repeat (apply emits_bind; [apply not_yet_early; unfold when, proxy_arp; early_all|intros ?]).
    destruct mode; [apply not_yet_early, early_release|].
    unfold remove_leg. apply emits_bind.
    { apply not_yet_early. unfold leg_present, vlan_identity_is, link_exists. early_all. }
    intros there. apply emits_bind; [|intros _; apply not_yet_early, early_release].
    unfold when. destruct there; [|apply emits_ret]. apply emits_bind; [|intros; apply emits_ret].
    apply emits_must. split; [done|done|]. intros x [= <-]. rewrite Er.
    by apply (list_elem_of_fmap_2 (λ r, leg_ifname (wr_wl r))).
Qed.

(** A workload leg whose netdev is not there stops the whole teardown. A row the apply
    deferred has no netdev, and neither has any row the second time [cfab down] runs; the write
    that turns the leg's proxy ARP off then has no file to go to. If the kernel refuses that
    write for one row, the teardown answers an error, and has removed nothing after the workload
    rows: no routing rule, no netdev but the legs of those rows, and not the run directory. *)
Theorem absent_leg_stops_teardown io tr row e (Hrow : row ∈ workload_rows v)
    (Habsent : ∀ hist, e_write (io hist) (conf_path (leg_ifname (wr_wl row)) "proxy_arp") "0" = Err e) :
  ∃ new err, run refused engine_lock fuel v d mode io tr = (tr ++ new, Err err) ∧ Forall not_yet new.
Proof using Type.
  destruct not_yet_stages as (H1 & H2 & H3).
  assert (∀ t t' u, remove_workloads v mode io t = (t', Ok u) → False) as Hno.
  { intros t t' [] H. unfold remove_workloads in H.
    destruct (workload_rows v) as [|r0 rows] eqn:Er; [by apply not_elem_of_nil in Hrow|].
    apply bind_Ok in H as (t1 & [] & _ & H).
    edestruct (λ He, each_ran _ (λ _, True) _ _ _ _ He H row Hrow) as (b & n & a & E & _).
    { intros x _. unfold remove_workload, remove_leg, leg_present, vlan_identity_is, link_exists,
        release_vid, proxy_arp. early_all. }
    unfold remove_workload in E. apply bind_Ok in E as (t2 & o & _ & E).
    apply bind_Ok in E as (t3 & u & _ & E). apply bind_Ok in E as (t4 & u' & E & _).
    unfold proxy_arp, write in E. rewrite Habsent in E. done. }
  unfold run, dismantle.
  destruct (H1 io tr) as (l1 & E1 & F1). unfold bind at 1.
  destruct (forwarding_off fuel v d io tr) as [t [u|err]]; cbn in E1; subst t; [|by exists l1, err].
  destruct (H2 io (tr ++ l1)) as (l2 & E2 & F2). unfold bind at 1.
  destruct (remove_mark v io (tr ++ l1)) as [t [u'|err]]; cbn in E2; subst t.
  2: { exists (l1 ++ l2), err. rewrite app_assoc. split; [done|]. by apply list.Forall_app. }
  destruct (H3 io ((tr ++ l1) ++ l2)) as (l3 & E3 & F3). unfold bind at 1.
  destruct (remove_workloads v mode io ((tr ++ l1) ++ l2)) as [t [u''|err]] eqn:E; cbn in E3; subst t.
  - by apply Hno in E.
  - exists (l1 ++ l2 ++ l3), err. rewrite !app_assoc. split; [done|].
    rewrite <-app_assoc. by repeat (apply list.Forall_app; split).
Qed.
End scope.

(** [cfab down] proceeds exactly when nobody listens on the supervisor's socket. *)
Lemma down_proceeds_unsupervised refused engine_lock fuel v d from_str io tr :
  let sock := (f_run_dir (v_fabric v) ++ "/cfab.sock")%string in
  let asked := tr ++ [ARequest sock ("components" ++ lf)] in
  run_cli refused engine_lock fuel v d from_str io tr =
  match e_probe (io tr) sock ("components" ++ lf) with
  | NotListening => run refused engine_lock fuel v d Down io asked
  | Answered reply => (asked, Err (supervisor_refusal (pid_of from_str reply)))
  | Unreachable _ => (asked, Err (supervisor_refusal "unknown"))
  end.
Proof. unfold run_cli, unix_probe. cbn. by destruct (e_probe _ _ _). Qed.

(** A host that was never part of a fabric, or is after a reboot: no rule, no table, no netdev of
    cfab's. With [leg] its workload leg is there, as a file to write. *)
Module Sample.
Definition no_rows : Rows :=
  {| rw_class := []; rw_gw := []; rw_fallback := []; rw_owned := []; rw_wires := [] |}.
Definition rows (v : View) : Rows := match rows_of v with Ok d => d | Err _ => no_rows end.
Definition host_view : View := Derive.Sample.view.
Definition leaf_view : View := {| v_fabric := Derive.Sample.fabric; v_member := Derive.Sample.leaf |}.
Definition refused (_ : Refusal) : Error := Fatal "no such zone".
Definition unlocked (_ : list Action) : option Held := None.

Definition says (code : Z) (s : string) : result Error Output :=
  Ok {| status := code; stdout := s; stderr := EmptyString |}.
Definition kernel_run (argv : list string) : result Error Output :=
  match argv with
  | "ip" :: "link" :: _ | "ip" :: "-d" :: _ => says 1 EmptyString
  | _ => says 0 EmptyString
  end.
Definition host : Host :=
  {| h_run := kernel_run; h_read _ := Err (Fatal "no such file"); h_exists _ := false;
     h_is_writable _ := true; h_list_dir _ := Ok ["all"; "cfab-st-a"; "eth0"];
     h_read_link _ := Err (Fatal "no such link") |}.
Definition no_leg : Error := Fatal "cannot write: no such file".
Definition proxy_path : string := conf_path "cfab-work-vms" "proxy_arp".
Definition env (leg : bool) (_ : list Action) : Env :=
  {| e_host := host;
     e_write p _ := if negb leg && String.eqb p proxy_path then Err no_leg else Ok tt;
     e_rename _ _ := Ok tt; e_remove _ := Ok tt; e_mkdir _ := Ok tt;
     e_request _ _ := Ok EmptyString; e_probe _ _ := NotListening |}.
Definition down (v : View) (leg : bool) : list Action * result Error string :=
  run refused unlocked 1 v (rows v) Down (env leg) [].

Example goes_down :
  (down host_view true).2 = Ok ("teardown OK on h1" ++ lf)%string
  ∧ (down leaf_view false).2 = Ok ("teardown OK on l1" ++ lf)%string.
Proof. by vm_compute. Qed.
Example twice : (down host_view false).2 = Err no_leg.
Proof. by vm_compute. Qed.
Example first_write : head (down host_view true).1 = Some (AWrite (conf_path "cfab-st-a" "forwarding") "0").
Proof. by vm_compute. Qed.
End Sample.

Lemma teardown_fails_closed_witness :
  m_kind (v_member Sample.host_view) = Decl.Host ∧
  ∃ new, (Sample.down Sample.host_view true).1 = [] ++ new ∧
  ∀ pre a post, new = pre ++ a :: post →
    (∃ ifn, a = AWrite (conf_path ifn "forwarding") "0") ∨
    ∀ present ifn, h_list_dir (e_host (Sample.env true [])) CONF = Ok present → ifn ∈ present →
      owned_name (Sample.rows Sample.host_view) ifn = true → turned_off (Sample.env true) ([] ++ pre) ifn.
Proof.
  split; [done|]. apply (teardown_fails_closed_first Sample.refused Sample.unlocked 1 Sample.host_view
    (Sample.rows Sample.host_view) Down (Sample.env true) []). done.
Defined.

Lemma leaf_guard_witness :
  m_kind (v_member Sample.leaf_view) = Leaf ∧
  ∃ l1 l2, (Sample.down Sample.leaf_view true).1 = [] ++ l1 ++ l2
    ∧ Forall (λ a, is_leak_del a = false) l1 ∧ Forall (λ a, is_link_del a = false) l2.
Proof.
  split; [done|]. apply (leaf_guard_outlives_netdevs Sample.refused Sample.unlocked 1 Sample.leaf_view
    (Sample.rows Sample.leaf_view) Down (Sample.env true) []). done.
Defined.

Lemma teardown_leaves_no_rule_witness :
  (Sample.down Sample.leaf_view true).2 = Ok ("teardown OK on l1" ++ lf)%string ∧
  (∀ r, r ∈ return_path_rules Sample.leaf_view →
     seen_gone [] (Sample.env true) (Sample.down Sample.leaf_view true).1 r)
  ∧ (m_kind (v_member Sample.leaf_view) = Leaf → ∀ r, r ∈ leak_guard_rules Sample.leaf_view →
     seen_gone [] (Sample.env true) (Sample.down Sample.leaf_view true).1 r).
Proof.
  split; [by vm_compute|].
  eapply (teardown_leaves_no_rule Sample.refused Sample.unlocked 1 Sample.leaf_view
    (Sample.rows Sample.leaf_view) Down (Sample.env true) [] (Sample.down Sample.leaf_view true).1
    ("teardown OK on l1" ++ lf)%string). vm_compute. reflexivity.
Defined.

Lemma absent_leg_witness :
  ∃ new err, Sample.down Sample.host_view false = ([] ++ new, Err err)
    ∧ Forall (not_yet Sample.host_view) new.
Proof.
  apply (absent_leg_stops_teardown Sample.refused Sample.unlocked 1 Sample.host_view
    (Sample.rows Sample.host_view) Down (Sample.env false) []
    {| wr_wl := Derive.Sample.vms; wr_address := "192.168.0.2/24"; wr_addr := 3232235522 |} Sample.no_leg).
  - vm_compute. left.
  - by vm_compute.
Defined.
