(* ===== verification/Prober.v ===== *)
(** The prober (src/src/prober/mod.rs): one leg's tick, from what the taps and the kernel said
    to what is written and sent.

    Everything the tick asks of the outside is a field of [TickIo], a record of answers the
    kernel, the sockets and the engine give during that tick. A tick returns the leg, the lines
    it has to say (one constructor of [ProbeLine] per sentence) and what it did to the outside,
    in order. *)
From S2P Require Import Prelude Text Net Decide Passive ProbeFrame EngineState.

(** ** Data *)

Definition PROBE_INTERVAL : Duration := from_millis 500.
Definition ESCALATION_TARGETS : nat := 4.

Record ProbePort := mk_port {
  p_ifname : string;
  p_wire : string;
  p_island : string;
  p_mac : Mac;
  p_state : Hysteresis;
  p_probed : bool;
  p_carrier : bool;
  bond_link : option BondLink;
  noted_bond_link : option Z;
  present : bool;
  last_reply : option Instant;
  peer_heard : option Instant;
  self_heard : option Instant;
  recent : list Z;
  grace_until : option Instant;
  escalating : bool;
  hello_dead : bool;
  next_ask : option Instant;
  deaf : option string;
  usable_prev : option bool;
  returned : bool
}.

Definition set_p_state (s : ProbePort) (v : Hysteresis) : ProbePort :=
  mk_port (p_ifname s) (p_wire s) (p_island s) (p_mac s) v (p_probed s) (p_carrier s)
    (bond_link s) (noted_bond_link s) (present s) (last_reply s) (peer_heard s) (self_heard
    s) (recent s) (grace_until s) (escalating s) (hello_dead s) (next_ask s) (deaf s)
    (usable_prev s) (returned s).
Definition set_p_probed (s : ProbePort) (v : bool) : ProbePort :=
  mk_port (p_ifname s) (p_wire s) (p_island s) (p_mac s) (p_state s) v (p_carrier s)
    (bond_link s) (noted_bond_link s) (present s) (last_reply s) (peer_heard s) (self_heard
    s) (recent s) (grace_until s) (escalating s) (hello_dead s) (next_ask s) (deaf s)
    (usable_prev s) (returned s).
Definition set_p_carrier (s : ProbePort) (v : bool) : ProbePort :=
  mk_port (p_ifname s) (p_wire s) (p_island s) (p_mac s) (p_state s) (p_probed s) v
    (bond_link s) (noted_bond_link s) (present s) (last_reply s) (peer_heard s) (self_heard
    s) (recent s) (grace_until s) (escalating s) (hello_dead s) (next_ask s) (deaf s)
    (usable_prev s) (returned s).
Definition set_bond_link (s : ProbePort) (v : option BondLink) : ProbePort :=
  mk_port (p_ifname s) (p_wire s) (p_island s) (p_mac s) (p_state s) (p_probed s) (p_carrier
    s) v (noted_bond_link s) (present s) (last_reply s) (peer_heard s) (self_heard s)
    (recent s) (grace_until s) (escalating s) (hello_dead s) (next_ask s) (deaf s)
    (usable_prev s) (returned s).
Definition set_noted_bond_link (s : ProbePort) (v : option Z) : ProbePort :=
  mk_port (p_ifname s) (p_wire s) (p_island s) (p_mac s) (p_state s) (p_probed s) (p_carrier
    s) (bond_link s) v (present s) (last_reply s) (peer_heard s) (self_heard s) (recent s)
    (grace_until s) (escalating s) (hello_dead s) (next_ask s) (deaf s) (usable_prev s)
    (returned s).
Definition set_present (s : ProbePort) (v : bool) : ProbePort :=
  mk_port (p_ifname s) (p_wire s) (p_island s) (p_mac s) (p_state s) (p_probed s) (p_carrier
    s) (bond_link s) (noted_bond_link s) v (last_reply s) (peer_heard s) (self_heard s)
    (recent s) (grace_until s) (escalating s) (hello_dead s) (next_ask s) (deaf s)
    (usable_prev s) (returned s).
Definition set_last_reply (s : ProbePort) (v : option Instant) : ProbePort :=
  mk_port (p_ifname s) (p_wire s) (p_island s) (p_mac s) (p_state s) (p_probed s) (p_carrier
    s) (bond_link s) (noted_bond_link s) (present s) v (peer_heard s) (self_heard s) (recent
    s) (grace_until s) (escalating s) (hello_dead s) (next_ask s) (deaf s) (usable_prev s)
    (returned s).
Definition set_peer_heard (s : ProbePort) (v : option Instant) : ProbePort :=
  mk_port (p_ifname s) (p_wire s) (p_island s) (p_mac s) (p_state s) (p_probed s) (p_carrier
    s) (bond_link s) (noted_bond_link s) (present s) (last_reply s) v (self_heard s) (recent
    s) (grace_until s) (escalating s) (hello_dead s) (next_ask s) (deaf s) (usable_prev s)
    (returned s).
Definition set_self_heard (s : ProbePort) (v : option Instant) : ProbePort :=
  mk_port (p_ifname s) (p_wire s) (p_island s) (p_mac s) (p_state s) (p_probed s) (p_carrier
    s) (bond_link s) (noted_bond_link s) (present s) (last_reply s) (peer_heard s) v (recent
    s) (grace_until s) (escalating s) (hello_dead s) (next_ask s) (deaf s) (usable_prev s)
    (returned s).
Definition set_recent (s : ProbePort) (v : list Z) : ProbePort :=
  mk_port (p_ifname s) (p_wire s) (p_island s) (p_mac s) (p_state s) (p_probed s) (p_carrier
    s) (bond_link s) (noted_bond_link s) (present s) (last_reply s) (peer_heard s)
    (self_heard s) v (grace_until s) (escalating s) (hello_dead s) (next_ask s) (deaf s)
    (usable_prev s) (returned s).
Definition set_grace_until (s : ProbePort) (v : option Instant) : ProbePort :=
  mk_port (p_ifname s) (p_wire s) (p_island s) (p_mac s) (p_state s) (p_probed s) (p_carrier
    s) (bond_link s) (noted_bond_link s) (present s) (last_reply s) (peer_heard s)
    (self_heard s) (recent s) v (escalating s) (hello_dead s) (next_ask s) (deaf s)
    (usable_prev s) (returned s).
Definition set_escalating (s : ProbePort) (v : bool) : ProbePort :=
  mk_port (p_ifname s) (p_wire s) (p_island s) (p_mac s) (p_state s) (p_probed s) (p_carrier
    s) (bond_link s) (noted_bond_link s) (present s) (last_reply s) (peer_heard s)
    (self_heard s) (recent s) (grace_until s) v (hello_dead s) (next_ask s) (deaf s)
    (usable_prev s) (returned s).
Definition set_hello_dead (s : ProbePort) (v : bool) : ProbePort :=
  mk_port (p_ifname s) (p_wire s) (p_island s) (p_mac s) (p_state s) (p_probed s) (p_carrier
    s) (bond_link s) (noted_bond_link s) (present s) (last_reply s) (peer_heard s)
    (self_heard s) (recent s) (grace_until s) (escalating s) v (next_ask s) (deaf s)
    (usable_prev s) (returned s).
Definition set_next_ask (s : ProbePort) (v : option Instant) : ProbePort :=
  mk_port (p_ifname s) (p_wire s) (p_island s) (p_mac s) (p_state s) (p_probed s) (p_carrier
    s) (bond_link s) (noted_bond_link s) (present s) (last_reply s) (peer_heard s)
    (self_heard s) (recent s) (grace_until s) (escalating s) (hello_dead s) v (deaf s)
    (usable_prev s) (returned s).
Definition set_deaf (s : ProbePort) (v : option string) : ProbePort :=
  mk_port (p_ifname s) (p_wire s) (p_island s) (p_mac s) (p_state s) (p_probed s) (p_carrier
    s) (bond_link s) (noted_bond_link s) (present s) (last_reply s) (peer_heard s)
    (self_heard s) (recent s) (grace_until s) (escalating s) (hello_dead s) (next_ask s) v
    (usable_prev s) (returned s).
Definition set_usable_prev (s : ProbePort) (v : option bool) : ProbePort :=
  mk_port (p_ifname s) (p_wire s) (p_island s) (p_mac s) (p_state s) (p_probed s) (p_carrier
    s) (bond_link s) (noted_bond_link s) (present s) (last_reply s) (peer_heard s)
    (self_heard s) (recent s) (grace_until s) (escalating s) (hello_dead s) (next_ask s)
    (deaf s) v (returned s).
Definition set_returned (s : ProbePort) (v : bool) : ProbePort :=
  mk_port (p_ifname s) (p_wire s) (p_island s) (p_mac s) (p_state s) (p_probed s) (p_carrier
    s) (bond_link s) (noted_bond_link s) (present s) (last_reply s) (peer_heard s)
    (self_heard s) (recent s) (grace_until s) (escalating s) (hello_dead s) (next_ask s)
    (deaf s) (usable_prev s) v.

Record Fallback := mk_fallback {
  f_targets : list Ipv4Addr;
  f_peers : gset Z;
  self_rid : Z;
  f_windows : Windows;
  quiet_now : bool;
  noted_quiet : bool;
  noted_deaf : bool;
  engine_sock : string;
  noted_engine_unreadable : bool
}.

Definition set_quiet_now (s : Fallback) (v : bool) : Fallback :=
  mk_fallback (f_targets s) (f_peers s) (self_rid s) (f_windows s) v (noted_quiet s)
    (noted_deaf s) (engine_sock s) (noted_engine_unreadable s).
Definition set_noted_quiet (s : Fallback) (v : bool) : Fallback :=
  mk_fallback (f_targets s) (f_peers s) (self_rid s) (f_windows s) (quiet_now s) v
    (noted_deaf s) (engine_sock s) (noted_engine_unreadable s).
Definition set_noted_deaf (s : Fallback) (v : bool) : Fallback :=
  mk_fallback (f_targets s) (f_peers s) (self_rid s) (f_windows s) (quiet_now s)
    (noted_quiet s) v (engine_sock s) (noted_engine_unreadable s).
Definition set_noted_engine_unreadable (s : Fallback) (v : bool) : Fallback :=
  mk_fallback (f_targets s) (f_peers s) (self_rid s) (f_windows s) (quiet_now s)
    (noted_quiet s) (noted_deaf s) (engine_sock s) v.

Inductive Kind :=
| Ingress (router : Ipv4Addr)
| KFallback (f : Fallback).

Record Leg := mk_leg {
  l_zone : string;
  l_bond : string;
  actuates : bool;
  l_prefs : list string;
  held : string;
  active_now : option string;
  l_ports : list ProbePort;
  noted_no_carrier : option (string * string);
  refused : option (string * option string);
  moves : Z;
  noted_nl_err : option string;
  l_kind : Kind
}.

Definition set_held (s : Leg) (v : string) : Leg :=
  mk_leg (l_zone s) (l_bond s) (actuates s) (l_prefs s) v (active_now s) (l_ports s)
    (noted_no_carrier s) (refused s) (moves s) (noted_nl_err s) (l_kind s).
Definition set_active_now (s : Leg) (v : option string) : Leg :=
  mk_leg (l_zone s) (l_bond s) (actuates s) (l_prefs s) (held s) v (l_ports s)
    (noted_no_carrier s) (refused s) (moves s) (noted_nl_err s) (l_kind s).
Definition set_l_ports (s : Leg) (v : list ProbePort) : Leg :=
  mk_leg (l_zone s) (l_bond s) (actuates s) (l_prefs s) (held s) (active_now s) v
    (noted_no_carrier s) (refused s) (moves s) (noted_nl_err s) (l_kind s).
Definition set_noted_no_carrier (s : Leg) (v : option (string * string)) : Leg :=
  mk_leg (l_zone s) (l_bond s) (actuates s) (l_prefs s) (held s) (active_now s) (l_ports s)
    v (refused s) (moves s) (noted_nl_err s) (l_kind s).
Definition set_refused (s : Leg) (v : option (string * option string)) : Leg :=
  mk_leg (l_zone s) (l_bond s) (actuates s) (l_prefs s) (held s) (active_now s) (l_ports s)
    (noted_no_carrier s) v (moves s) (noted_nl_err s) (l_kind s).
Definition set_moves (s : Leg) (v : Z) : Leg :=
  mk_leg (l_zone s) (l_bond s) (actuates s) (l_prefs s) (held s) (active_now s) (l_ports s)
    (noted_no_carrier s) (refused s) v (noted_nl_err s) (l_kind s).
Definition set_noted_nl_err (s : Leg) (v : option string) : Leg :=
  mk_leg (l_zone s) (l_bond s) (actuates s) (l_prefs s) (held s) (active_now s) (l_ports s)
    (noted_no_carrier s) (refused s) (moves s) v (l_kind s).
Definition set_l_kind (s : Leg) (v : Kind) : Leg :=
  mk_leg (l_zone s) (l_bond s) (actuates s) (l_prefs s) (held s) (active_now s) (l_ports s)
    (noted_no_carrier s) (refused s) (moves s) (noted_nl_err s) v.

Inductive Family := FIngress | FFallback.
Inductive Noun := NRouter | NPeers.

Definition noun (k : Kind) : Noun := match k with Ingress _ => NRouter | KFallback _ => NPeers end.
Definition family (k : Kind) : Family :=
  match k with Ingress _ => FIngress | KFallback _ => FFallback end.
Definition grace_of (k : Kind) : Duration :=
  match k with Ingress _ => 0 | KFallback f => w_grace (f_windows f) end.

(** The sentences the prober says. *)
Inductive ProbeLine :=
| LNoRoom (hello_s dead_s : Z)
| LUnknownLink (zone : string) (fam : Family) (wire : string) (n : Z)
| LUnreadable (zone : string) (fam : Family) (why : string)
| LCannotListen (zone wire why : string) (leg_not_probed : bool)
| LEngineUnreadable (zone bond : string)
| LNoPeersHeard (zone : string)
| LCannotMove (zone : string) (fam : Family) (bond to target why : string)
| LLostCarrier (zone : string) (fam : Family) (w bond to : string)
| LSilent (zone : string) (fam : Family) (n : Noun) (w bond to : string)
| LUnreachable (zone : string) (fam : Family) (n : Noun) (w bond to : string)
| LReturned (zone : string) (fam : Family) (n : Noun) (to bond w : string)
| LLinkNotUp (zone : string) (fam : Family) (w bond to : string)
| LPreferred (zone : string) (fam : Family) (to bond w : string)
| LNoPortActive (zone : string) (fam : Family) (bond to : string)
| LNoCarrier (zone : string) (fam : Family) (skipped on : string).

Record PortState := { ps_carrier : bool; ps_link : option BondLink }.

(** What the outside answers during one tick. [io_send] is asked with the position of the
    target, since one port may be asked about several. *)
Record TickIo := {
  io_active : string → option string;
  io_port : string → result Error PortState;
  io_listen : string → result Error unit;
  io_recv : string → result Error (list (list Z));
  io_send : string → nat → list Z → result Error unit;
  io_write_primary : string → string → result Error unit;
  io_set_active : string → string → result Error unit;
  io_state : string → option Value
}.

(** What a tick does to the outside. *)
Inductive Effect :=
| ESend (ifname : string) (frame : list Z)
| EWritePrimary (bond port : string)
| ESetActive (bond port : string)
| EAskEngine (sock : string).

(** ** Ports *)

Definition port_new (ifname wire island : string) (mac : Mac) : ProbePort :=
  mk_port ifname wire island mac hyst_default false false None None false None None None []
    None false false None None None false.

Definition candidate (s : ProbePort) : Candidate :=
  mk_cand (p_ifname s) (p_wire s) (h_reachable (p_state s) && negb (hello_dead s))
    (p_carrier s) (opt_eqb (bond_link s) (Some Up)).

Definition note_usability (s : ProbePort) : ProbePort :=
  let cur := usable (candidate s) in
  let s' := if opt_eqb (usable_prev s) (Some false) && cur then set_returned s true else s in
  set_usable_prev s' (Some cur).

Definition evidence (s : ProbePort) (active : option string) : Evidence :=
  mk_evidence (opt_eqb active (Some (p_ifname s))) (peer_heard s) (self_heard s) (grace_until s).

Definition saw (s : ProbePort) (rid : Z) : ProbePort :=
  set_recent s (take ESCALATION_TARGETS (rid :: List.filter (λ r, negb (r =? rid)) (recent s))).

(** ** Held primaries *)

Definition HeldPrimaries := gmap string string.
Definition port_for (h : HeldPrimaries) (bond : string) : option string := h !! bond.
Definition hold (h : HeldPrimaries) (bond port : string) : HeldPrimaries := <[bond := port]> h.

(** ** Errors and the engine *)

Definition without_fatal (e : Error) : string :=
  match e with Fatal m => m | _ => display e end.

(** [peers_all_below_two_way], given the parsed reply of the engine, if it sent one. *)
Definition peers_all_below_two_way (doc : option Value) (zone ifname : string) (peers : gset Z)
    : option bool :=
  d ← doc;
  nbrs ← ospf_neighbors d zone ifname;
  Some (negb (any (λ rid, at_least_two_way (neighbor_state nbrs (show_addr rid)))
                  (btree_set_iter Z.leb peers))).

(** The last octet of an address. *)
Definition last_octet (a : Z) : Z := a mod 256.
Definition target_of (targets : list Ipv4Addr) (rid : Z) : option Ipv4Addr :=
  List.find (λ t, last_octet t =? last_octet rid) targets.

(** ** Legs *)

Definition leg_new (zone bond : string) (acts : bool) (prefs : list string) (home : string)
    (ports : list ProbePort) (kind : Kind) : Leg :=
  let h := unwrap_or
    (p_ifname <$> or_else (List.find (λ s, bool_decide (p_wire s = home)) ports) (head ports))
    EmptyString in
  mk_leg zone bond acts prefs h None ports None None 0 None kind.

Definition leg_probed (l : Leg) : bool :=
  match l_kind l with KFallback f => negb (noted_deaf f) | Ingress _ => true end.

Definition leg_quiet (l : Leg) : bool :=
  match l_kind l with KFallback f => quiet_now f | Ingress _ => false end.

(** [read_active]: the leg with what it learned, and the answer. *)
Definition read_active (io : TickIo) (l : Leg) : Leg * option string :=
  match io_active io (l_bond l) with
  | None => (l, None)
  | Some text =>
      let active := trim text in
      (set_active_now l (if bool_decide (active = EmptyString) then None else Some active),
       Some active)
  end.

(** ** Observing *)

(** What the ports have reported so far: taps that failed, the newly failed ones, the first
    unreadable state, the lines. *)
Record ObsAcc := mk_acc {
  n_deaf : nat;
  newly_deaf : list (string * string);
  nl_err : option string;
  obs_log : list ProbeLine
}.

(** The netdev read of one port: the port, whether its netdev exists, lines, and a read error. *)
Definition read_port (zone : string) (fam : Family) (answer : result Error PortState)
    (s : ProbePort) : ProbePort * bool * list ProbeLine * option string :=
  match answer with
  | Ok st =>
      let s := set_p_carrier s (ps_carrier st) in
      match ps_link st with
      | None => (set_noted_bond_link (set_bond_link s None) None, true, [], None)
      | Some (Unknown n) =>
          let s := set_bond_link s None in
          if opt_eqb (noted_bond_link s) (Some n) then (s, true, [], None)
          else (set_noted_bond_link s (Some n), true, [LUnknownLink zone fam (p_wire s) n], None)
      | Some bl => (set_noted_bond_link (set_bond_link s (Some bl)) None, true, [], None)
      end
  | Err e =>
      let s := set_noted_bond_link (set_bond_link (set_p_carrier s false) None) None in
      if is_no_device e then (s, false, [], None) else (s, false, [], Some (without_fatal e))
  end.

(** A netdev that has just come back gets its grace period. *)
Definition note_present (k : Kind) (now : Instant) (is_there : bool) (s : ProbePort) : ProbePort :=
  let s := if is_there && negb (present s) then set_grace_until s (Some (now + grace_of k))
           else s in
  set_present s is_there.

(** One frame of a fallback tap: the port, [replied] and [heard_now] so far. *)
Definition hear_frame (f : Fallback) (active : option string) (now : Instant)
    (acc : ProbePort * bool * bool) (fr : list Z) : ProbePort * bool * bool :=
  let '(s, replied, heard_now) := acc in
  match hello_router_id fr with
  | Some rid =>
      if rid =? self_rid f then
        (set_self_heard s (Some now), replied,
         heard_now || negb (opt_eqb active (Some (p_ifname s))))
      else if bool_decide (rid ∈ f_peers f) then
        (saw (set_peer_heard s (Some now)) rid, replied, true)
      else acc
  | None =>
      if escalating s && bool_decide (is_Some (reply_from fr (p_mac s) (f_targets f)))
      then (s, true, heard_now) else acc
  end.

Definition hear (k : Kind) (active : option string) (now : Instant) (frames : list (list Z))
    (s : ProbePort) : ProbePort * bool * bool :=
  match k with
  | Ingress router =>
      (s, any (λ f, bool_decide (is_Some (reply_from f (p_mac s) [router]))) frames, false)
  | KFallback f => foldl (hear_frame f active now) (s, false, false) frames
  end.

Definition note_last_reply (now : Instant) (replied : bool) (s : ProbePort) : ProbePort :=
  if replied || opt_eqb (peer_heard s) (Some now) || opt_eqb (self_heard s) (Some now)
  then set_last_reply s (Some now) else s.

(** What the tick's frames do to the port's standing. *)
Definition fold_evidence (k : Kind) (replied heard_now : bool) (s : ProbePort) : ProbePort :=
  match k with
  | Ingress _ => if p_probed s then set_p_state s (observe (p_state s) replied) else s
  | KFallback _ =>
      let s := if heard_now then set_hello_dead s false else s in
      if heard_now || replied then
        set_next_ask (set_escalating (set_p_state s (heard (p_state s))) false) None
      else if escalating s && p_probed s then set_p_state s (observe (p_state s) false)
      else s
  end.

(** The tap of a fallback port: [None] when it cannot be opened. *)
Definition listen_port (k : Kind) (answer : result Error unit) (s : ProbePort)
    : ProbePort * option string :=
  match k with
  | Ingress _ => (s, None)
  | KFallback _ =>
      match answer with
      | Ok _ => (set_deaf s None, None)
      | Err e => (s, Some (without_fatal e))
      end
  end.

Definition frames_of (io : TickIo) (s : ProbePort) : list (list Z) :=
  match io_recv io (p_ifname s) with Ok l => l | Err _ => [] end.

(** The body of the [for s in &mut self.ports] loop of [observe]. *)
Definition observe_port (zone : string) (k : Kind) (io : TickIo) (now : Instant)
    (active : option string) (acc : ObsAcc) (s : ProbePort) : ProbePort * ObsAcc :=
  let '(s, there, lines, err) := read_port zone (family k) (io_port io (p_ifname s)) s in
  let s := note_present k now there s in
  let acc := mk_acc (n_deaf acc) (newly_deaf acc) (or_else (nl_err acc) err)
               (obs_log acc ++ lines) in
  match listen_port k (io_listen io (p_ifname s)) s with
  | (s, Some why) =>
      let fresh := negb (opt_eqb (deaf s) (Some why)) in
      (if fresh then set_deaf s (Some why) else s,
       mk_acc (S (n_deaf acc))
         (if fresh then newly_deaf acc ++ [(p_wire s, why)] else newly_deaf acc)
         (nl_err acc) (obs_log acc))
  | (s, None) =>
      let '(s, replied, heard_now) := hear k active now (frames_of io s) s in
      (fold_evidence k replied heard_now (note_last_reply now replied s), acc)
  end.

Fixpoint observe_ports (zone : string) (k : Kind) (io : TickIo) (now : Instant)
    (active : option string) (acc : ObsAcc) (ports : list ProbePort)
    : list ProbePort * ObsAcc :=
  match ports with
  | [] => ([], acc)
  | s :: rest =>
      let '(s', acc1) := observe_port zone k io now active acc s in
      let '(rest', acc2) := observe_ports zone k io now active acc1 rest in
      (s' :: rest', acc2)
  end.

(** The once-per-leg line about unreadable port states. *)
Definition note_unreadable (l : Leg) (err : option string) : Leg * list ProbeLine :=
  match err with
  | Some why =>
      if opt_eqb (noted_nl_err l) (Some why) then (l, [])
      else (set_noted_nl_err l (Some why), [LUnreadable (l_zone l) (family (l_kind l)) why])
  | None => (set_noted_nl_err l None, [])
  end.

(** F27: which ports the rule would condemn. *)
Definition condemnable (f : Fallback) (active : option string) (now : Instant)
    (s : ProbePort) (v : Verdict) : bool :=
  bool_decide (v = Suspect) && negb (hello_dead s) && opt_eqb active (Some (p_ifname s))
    && is_none_or (peer_heard s) (λ t, w_dead (f_windows f) <? saturating_since now t).

Definition mark_dead (s : ProbePort) (c : bool) : ProbePort :=
  if c then set_hello_dead s true else s.

(** The condemn block: the ports, the fallback state, lines and effects. *)
Definition condemn_ports (io : TickIo) (zone bond : string) (f : Fallback)
    (condemn : list bool) (ports : list ProbePort)
    : list ProbePort * Fallback * list ProbeLine * list Effect :=
  if any (λ c, c) condemn then
    match peers_all_below_two_way (io_state io (engine_sock f)) zone bond (f_peers f) with
    | Some down =>
        (if down then zip_with mark_dead ports condemn else ports,
         set_noted_engine_unreadable f false, [], [EAskEngine (engine_sock f)])
    | None =>
        if noted_engine_unreadable f then (ports, f, [], [EAskEngine (engine_sock f)])
        else (ports, set_noted_engine_unreadable f true, [LEngineUnreadable zone bond],
              [EAskEngine (engine_sock f)])
    end
  else (ports, f, [], []).

Definition stop_asking (s : ProbePort) : ProbePort :=
  set_next_ask (set_p_probed (set_escalating s false) false) None.

Definition apply_verdict (s : ProbePort) (v : Verdict) : ProbePort :=
  match v with
  | Good | Quiet => stop_asking s
  | Suspect =>
      if hello_dead s then stop_asking s
      else if negb (escalating s) then
        let s := set_next_ask (set_p_probed (set_escalating s true) false) None in
        set_p_state s (precharge (p_state s))
      else s
  | Watch => s
  end.

(** The once-per-silence line. *)
Definition note_quiet (zone : string) (f : Fallback) (all_quiet : bool)
    : Fallback * list ProbeLine :=
  let f := set_quiet_now f all_quiet in
  if all_quiet && negb (noted_quiet f) then (set_noted_quiet f true, [LNoPeersHeard zone])
  else if negb all_quiet then (set_noted_quiet f false, [])
  else (f, []).

(** The tail of [observe] for a fallback leg: verdicts, F27, and the quiet line. *)
Definition judge_ports (io : TickIo) (now : Instant) (active : option string) (l : Leg)
    (f : Fallback) : Leg * list ProbeLine * list Effect :=
  let vs := verdicts now ((λ s, evidence s active) <$> l_ports l) (f_windows f)
              (negb (bool_decide (f_peers f = ∅))) in
  let condemn := zip_with (condemnable f active now) (l_ports l) vs in
  let '(ports, f, lines, effs) := condemn_ports io (l_zone l) (l_bond l) f condemn (l_ports l) in
  let ports := zip_with apply_verdict ports vs in
  let all_quiet := negb (bool_decide (ports = [])) && all (λ v, bool_decide (v = Quiet)) vs in
  let '(f, lines2) := note_quiet (l_zone l) f all_quiet in
  (set_l_kind (set_l_ports l (note_usability <$> ports)) (KFallback f), lines ++ lines2, effs).

(** [Leg::observe]. *)
Definition observe_leg (io : TickIo) (now : Instant) (active : option string) (l : Leg)
    : Leg * list ProbeLine * list Effect :=
  let '(ports, acc) := observe_ports (l_zone l) (l_kind l) io now active (mk_acc 0 [] None [])
                         (l_ports l) in
  let '(l, lines1) := note_unreadable (set_l_ports l ports) (nl_err acc) in
  let total := (0 <? n_deaf acc)%nat && (n_deaf acc =? length (l_ports l))%nat in
  match l_kind l with
  | Ingress _ => (set_l_ports l (note_usability <$> l_ports l), obs_log acc ++ lines1, [])
  | KFallback f =>
      let lines2 := (λ ww : string * string, LCannotListen (l_zone l) ww.1 ww.2 total)
                      <$> newly_deaf acc in
      let f := set_noted_deaf f total in
      if total then
        (set_l_kind (set_l_ports l (note_usability <$> l_ports l)) (KFallback f),
         obs_log acc ++ lines1 ++ lines2, [])
      else
        let '(l, lines3, effs) := judge_ports io now active l f in
        (l, obs_log acc ++ lines1 ++ lines2 ++ lines3, effs)
  end.

(** ** Asking *)

Definition ask_ingress (io : TickIo) (router : Ipv4Addr) (s : ProbePort)
    : ProbePort * list Effect :=
  let fr := probe (p_mac s) router in
  (match io_send io (p_ifname s) 0 fr with
   | Ok _ => set_p_probed s true
   | Err _ => set_p_state (set_p_probed s false) (observe (p_state s) false)
   end, [ESend (p_ifname s) fr]).

(** The rest of the segment's targets, up to the bound, none twice. *)
Fixpoint fill_targets (all_targets acc : list Ipv4Addr) : list Ipv4Addr :=
  match all_targets with
  | [] => acc
  | t :: rest =>
      if (ESCALATION_TARGETS <=? length acc)%nat then acc
      else fill_targets rest (if bool_decide (t ∈ acc) then acc else acc ++ [t])
  end.

Definition targets_for (f : Fallback) (s : ProbePort) : list Ipv4Addr :=
  fill_targets (f_targets f) (omap (target_of (f_targets f)) (recent s)).

Definition ask_fallback (io : TickIo) (now : Instant) (f : Fallback) (s : ProbePort)
    : ProbePort * list Effect :=
  if negb (escalating s) then (s, [])
  else if negb (h_reachable (p_state s)) && is_some_and (next_ask s) (λ t, now <? t) then
    (set_p_probed s false, [])
  else
    let s := if negb (h_reachable (p_state s))
             then set_next_ask s (Some (now + w_hello (f_windows f))) else s in
    let frames := (λ t, probe (p_mac s) t) <$> targets_for f s in
    let sent := any (λ r : result Error unit, is_ok r) (imap (io_send io (p_ifname s)) frames) in
    (if sent then set_p_probed s true
     else
       let s := set_p_state (set_p_probed s false) (observe (p_state s) false) in
       let s := set_escalating s (h_reachable (p_state s)) in
       if negb (escalating s) then set_next_ask s None else s,
     ESend (p_ifname s) <$> frames).

Definition ask_port (io : TickIo) (now : Instant) (k : Kind) (s : ProbePort)
    : ProbePort * list Effect :=
  match k with
  | Ingress router => ask_ingress io router s
  | KFallback f => ask_fallback io now f s
  end.

(** [Leg::ask]. *)
Definition ask (io : TickIo) (now : Instant) (l : Leg) : Leg * list Effect :=
  let asked := ask_port io now (l_kind l) <$> l_ports l in
  (set_l_ports l asked.*1, mjoin asked.*2).

(** ** Actuating *)

Definition find_port (l : Leg) (ifname : string) : option ProbePort :=
  List.find (λ s, bool_decide (p_ifname s = ifname)) (l_ports l).

(** Update the first port of a name, [find] and all its mutations. *)
Fixpoint update_first (ifname : string) (g : ProbePort → ProbePort) (ports : list ProbePort)
    : list ProbePort :=
  match ports with
  | [] => []
  | s :: rest => if bool_decide (p_ifname s = ifname) then g s :: rest
                 else s :: update_first ifname g rest
  end.

Definition note_no_carrier (l : Leg) (active : option string) (cands : list Candidate)
    : Leg * list ProbeLine :=
  let on := active ≫= by_ifname cands in
  let note := match skipped_for_carrier active cands (l_prefs l), on with
              | Some skipped, Some on => Some (c_wire skipped, c_wire on)
              | _, _ => None
              end in
  if bool_decide (note = noted_no_carrier l) then (l, [])
  else
    (set_noted_no_carrier l note,
     match note with
     | Some (skipped, on) => [LNoCarrier (l_zone l) (family (l_kind l)) skipped on]
     | None => []
     end).

(** The sentence a move earns, from what was true of the port it left. *)
Definition move_line (zone bond to : string) (k : Kind) (from : option ProbePort)
    (target_returned : bool) : ProbeLine :=
  let fam := family k in
  match from with
  | None => LNoPortActive zone fam bond to
  | Some f =>
      let w := p_wire f in
      if negb (p_carrier f) then LLostCarrier zone fam w bond to
      else if hello_dead f then LSilent zone fam (noun k) w bond to
      else if negb (h_reachable (p_state f)) then LUnreachable zone fam (noun k) w bond to
      else if target_returned then LReturned zone fam (noun k) to bond w
      else if negb (opt_eqb (bond_link f) (Some Up)) then LLinkNotUp zone fam w bond to
      else LPreferred zone fam to bond w
  end.

(** Both sysfs writes of a move, [primary] first; what was attempted, and the outcome. *)
Definition write_move (io : TickIo) (bond target : string) : result Error unit * list Effect :=
  match io_write_primary io bond target with
  | Err e => (Err e, [EWritePrimary bond target])
  | Ok _ => (io_set_active io bond target, [EWritePrimary bond target; ESetActive bond target])
  end.

(** The leg after a move the kernel took. *)
Definition moved (l : Leg) (target : string) (now : Instant) : Leg :=
  let l := set_active_now (set_held (set_moves (set_refused l None) (moves l + 1)) target)
             (Some target) in
  set_l_ports l (update_first target (λ s, set_grace_until s (Some (now + grace_of (l_kind l))))
                   (l_ports l)).

(** [Leg::actuate]. *)
Definition actuate (io : TickIo) (active : option string) (now : Instant) (l : Leg)
    : Leg * list ProbeLine * list Effect :=
  if negb (actuates l) then (l, [], []) else
  let active := a ← active; if bool_decide (a = EmptyString) then None else Some a in
  let l := match active with
           | Some a => set_l_ports l (update_first a (λ s, set_returned s false) (l_ports l))
           | None => l
           end in
  let cands := candidate <$> l_ports l in
  match decide_port active cands (l_prefs l) with
  | None => let '(l, lines) := note_no_carrier l active cands in (l, lines, [])
  | Some target =>
      let l := set_noted_no_carrier l None in
      let to := unwrap_or (p_wire <$> find_port l target) target in
      let from := active ≫= find_port l in
      if bool_decide (refused l = Some (target, active)) then (l, [], [])
      else
        let '(outcome, effs) := write_move io (l_bond l) target in
        match outcome with
        | Err e =>
            (set_refused l (Some (target, active)),
             [LCannotMove (l_zone l) (family (l_kind l)) (l_bond l) to target (without_fatal e)],
             effs)
        | Ok _ =>
            let back := unwrap_or (returned <$> find_port l target) false in
            (moved l target now,
             [move_line (l_zone l) (l_bond l) to (l_kind l) from back], effs)
        end
  end.

(** [Leg::tick]. *)
Definition leg_tick (io : TickIo) (now : Instant) (l : Leg)
    : Leg * list ProbeLine * list Effect :=
  let '(l, active) := if actuates l then read_active io l else (l, None) in
  let '(l, lines1, effs1) := observe_leg io now active l in
  let '(l, lines2, effs2) :=
    if is_some_and active (λ _, true) && leg_probed l then actuate io active now l
    else (l, [], []) in
  let '(l, effs3) := ask io now l in
  (l, lines1 ++ lines2, effs1 ++ effs2 ++ effs3).

(** ** The prober *)

Record ProbedPort := {
  r_wire : string; r_island : string; r_reachable : bool; r_suspect : bool;
  r_last_reply_ms : option Z
}.
Record ProbedLeg := {
  r_zone : string; r_bond : string; r_active : option string; r_quiet : bool;
  r_ports : list ProbedPort; r_moves : Z
}.
Record ProbeRows := { rows_ingress : list ProbedLeg; rows_fallback : list ProbedLeg }.

Record Prober := mk_prober { legs : list Leg; p_log : list ProbeLine }.

Definition as_millis (d : Duration) : Z := d / 1000000.

Definition report_port (now : Instant) (s : ProbePort) : ProbedPort :=
  {| r_wire := p_wire s; r_island := p_island s;
     r_reachable := h_reachable (p_state s) && p_carrier s && negb (hello_dead s);
     r_suspect := escalating s;
     r_last_reply_ms := (λ t, as_millis (saturating_since now t)) <$> last_reply s |}.

Definition report_leg (now : Instant) (l : Leg) : ProbedLeg :=
  {| r_zone := l_zone l; r_bond := l_bond l; r_active := active_now l; r_quiet := leg_quiet l;
     r_ports := report_port now <$> l_ports l; r_moves := moves l |}.

Definition is_fallback (l : Leg) : bool :=
  match l_kind l with KFallback _ => true | Ingress _ => false end.

Definition report (now : Instant) (p : Prober) : ProbeRows :=
  {| rows_ingress := report_leg now <$> List.filter (λ l, negb (is_fallback l)) (legs p);
     rows_fallback := report_leg now <$> List.filter is_fallback (legs p) |}.

Definition drain_log (p : Prober) : Prober * list ProbeLine := (mk_prober (legs p) [], p_log p).

Definition held_primaries (p : Prober) : HeldPrimaries :=
  list_to_map (reverse ((λ l, (l_bond l, held l)) <$> List.filter actuates (legs p))).

(** [Prober::tick]: every leg in turn, each with the answers it gets. *)
Definition prober_tick (io : Leg → TickIo) (now : Instant) (p : Prober)
    : Prober * ProbeRows * list Effect :=
  let ticked := (λ l, leg_tick (io l) now l) <$> legs p in
  let p' := mk_prober ((λ t : Leg * list ProbeLine * list Effect, t.1.1) <$> ticked)
              (p_log p ++ mjoin ((λ t : Leg * list ProbeLine * list Effect, t.1.2) <$> ticked)) in
  (p', report now p', mjoin (snd <$> ticked)).

(** ** Helper lemmas *)

(** What [observe] does to one port does not depend on the ports before it. *)
Definition observe_one (zone : string) (k : Kind) (io : TickIo) (now : Instant)
    (active : option string) (s : ProbePort) : ProbePort :=
  (observe_port zone k io now active (mk_acc 0 [] None []) s).1.

Lemma observe_port_fst zone k io now active acc s :
  (observe_port zone k io now active acc s).1 = observe_one zone k io now active s.
Proof.
  unfold observe_one, observe_port.
  destruct (read_port _ _ _ _) as [[[s1 there] lines] err].
  destruct (listen_port _ _ _) as [s2 [why|]]; [done|]. by destruct (hear _ _ _ _ _) as [[??]?].
Qed.

Lemma observe_ports_fst zone k io now active acc ports :
  (observe_ports zone k io now active acc ports).1 = observe_one zone k io now active <$> ports.
Proof.
  revert acc. induction ports as [|s rest IH]; intros acc; [done|]. cbn [observe_ports].
  pose proof (observe_port_fst zone k io now active acc s) as Hs.
  destruct (observe_port zone k io now active acc s) as [s' acc1].
  specialize (IH acc1). destruct (observe_ports zone k io now active acc1 rest) as [rest' acc2].
  cbn in *. by subst.
Qed.

(** The standing evidence that a hello arrived on the port this tick, from a peer, or from the
    member itself on a port that is not the active one. *)
Definition hello_heard (f : Fallback) (io : TickIo) (active : option string) (s : ProbePort)
    : Prop :=
  ∃ fr rid, fr ∈ frames_of io s ∧ hello_router_id fr = Some rid ∧
    ((rid = self_rid f ∧ active ≠ Some (p_ifname s)) ∨ (rid ≠ self_rid f ∧ rid ∈ f_peers f)).

Lemma read_port_keeps zone fam a s :
  let s' := (read_port zone fam a s).1.1.1 in
  hello_dead s' = hello_dead s ∧ p_ifname s' = p_ifname s ∧ p_mac s' = p_mac s ∧
  escalating s' = escalating s ∧ recent s' = recent s.
Proof.
  unfold read_port. destruct a as [st|e]; [destruct (ps_link st) as [[]|]|]; cbn;
    repeat case_match; cbn; split_and!; reflexivity.
Qed.

Lemma hear_frame_keeps f active now s rep hn fr :
  let '(s', _, _) := hear_frame f active now (s, rep, hn) fr in
  hello_dead s' = hello_dead s ∧ p_ifname s' = p_ifname s ∧ p_mac s' = p_mac s ∧
  escalating s' = escalating s.
Proof.
  unfold hear_frame. destruct (hello_router_id fr) as [rid|];
    [destruct (rid =? self_rid f); [|case_bool_decide]|destruct (_ && _)]; done.
Qed.

(** Folding a tap's frames: what is kept, and what [heard_now] means. *)
Lemma hear_frames_keeps f active now frames s rep hn :
  let '(s', _, hn') := foldl (hear_frame f active now) (s, rep, hn) frames in
  (hello_dead s' = hello_dead s ∧ p_ifname s' = p_ifname s ∧ p_mac s' = p_mac s ∧
   escalating s' = escalating s) ∧
  (hn' = true → hn = true ∨ ∃ fr rid, fr ∈ frames ∧ hello_router_id fr = Some rid ∧
    ((rid = self_rid f ∧ active ≠ Some (p_ifname s)) ∨ (rid ≠ self_rid f ∧ rid ∈ f_peers f))).
Proof.
  revert s rep hn. induction frames as [|fr frames IH]; intros s rep hn; [cbn; auto|].
  cbn [foldl]. pose proof (hear_frame_keeps f active now s rep hn fr) as Hk.
  destruct (hear_frame f active now (s, rep, hn) fr) as [[s1 rep1] hn1] eqn:F.
  specialize (IH s1 rep1 hn1).
  destruct (foldl _ _ _) as [[s2 rep2] hn2]. destruct Hk as (K1 & K2 & K3 & K4).
  destruct IH as [(I1 & I2 & I3 & I4) Hh]. split; [split_and!; congruence|].
  intros H. destruct (Hh H) as [->|(fr' & rid & Hin & Hr & Hc)].
  - destruct hn; [by left|right]. exists fr. unfold hear_frame in F.
    destruct (hello_router_id fr) as [rid|] eqn:R; [|destruct (_ && _); congruence].
    exists rid. split; [left|]. split; [done|].
    destruct (rid =? self_rid f) eqn:Q; split_bools.
    + left. split; [done|]. injection F as <- <- F. intros ->. revert F.
      unfold opt_eqb. by rewrite bool_decide_eq_true_2.
    + right. case_bool_decide; [done|]. by simplify_eq.
  - right. exists fr', rid. split; [by right|]. rewrite K2 in Hc. done.
Qed.

Lemma observe_one_keeps zone k io now active s :
  let s' := observe_one zone k io now active s in
  p_ifname s' = p_ifname s ∧ p_mac s' = p_mac s ∧
  (hello_dead s = true → hello_dead s' = true ∨
     ∃ f, k = KFallback f ∧ hello_heard f io active s).
Proof.
  cbn zeta. unfold observe_one, observe_port.
  pose proof (read_port_keeps zone (family k) (io_port io (p_ifname s)) s) as Hr. cbn zeta in Hr.
  destruct (read_port _ _ _ _) as [[[s1 there] lines] err]. cbn [fst] in Hr.
  destruct Hr as (R1 & R2 & R3 & _).
  assert (∀ x, hello_dead (note_present k now x s1) = hello_dead s ∧
    p_ifname (note_present k now x s1) = p_ifname s ∧
    p_mac (note_present k now x s1) = p_mac s) as Hn.
  { intros x. unfold note_present. by repeat case_match. }
  destruct (Hn there) as (N1 & N2 & N3). clear Hn. set (s2 := note_present k now there s1) in *. clearbody s2.
  destruct k as [router|f]; cbn [listen_port hear].
  - set (s3 := note_last_reply _ _ _).
    assert (hello_dead s3 = hello_dead s2 ∧ p_ifname s3 = p_ifname s2 ∧ p_mac s3 = p_mac s2)
      as (L1 & L2 & L3) by (unfold s3, note_last_reply; by case_match). clearbody s3.
    unfold fold_evidence. destruct (p_probed s3); cbn; (split; [congruence|split; [congruence|]]);
      intros ?; left; congruence.
  - destruct (io_listen io (p_ifname s2)) as [u|e].
    + pose proof (hear_frames_keeps f active now (frames_of io (set_deaf s2 None))
        (set_deaf s2 None) false false) as Hh.
      destruct (foldl _ _ _) as [[s3 rep] hn].
      destruct Hh as [(H1 & H2 & H3 & _) Hhn].
      change (hello_dead s3 = hello_dead s2) in H1. change (p_ifname s3 = p_ifname s2) in H2.
      change (p_mac s3 = p_mac s2) in H3.
      set (s4 := note_last_reply _ _ _).
      assert (hello_dead s4 = hello_dead s3 ∧ p_ifname s4 = p_ifname s3 ∧ p_mac s4 = p_mac s3)
        as (L1 & L2 & L3) by (unfold s4, note_last_reply; by case_match). clearbody s4.
      destruct hn.
      * cbn. split; [congruence|]. split; [congruence|]. intros _. right. exists f.
        split; [done|]. destruct (Hhn eq_refl) as [?|(fr & rid & Hin & Hr & Hc)]; [done|].
        exists fr, rid. change (frames_of io (set_deaf s2 None)) with (frames_of io s2) in Hin.
        change (p_ifname (set_deaf s2 None)) with (p_ifname s2) in Hc.
        unfold frames_of in *. rewrite N2 in Hin. rewrite N2 in Hc. done.
      * unfold fold_evidence. cbn [orb]. destruct rep; [|destruct (_ && _)]; cbn;
          (split; [congruence|split; [congruence|]]); intros ?; left; congruence.
    + destruct (negb _); cbn; (split; [congruence|split; [congruence|]]);
        intros ?; left; congruence.
Qed.

(** The active port a tick acts on. *)
Definition tick_active (io : TickIo) (l : Leg) : option string :=
  if actuates l then trim <$> io_active io (l_bond l) else None.

(** Whatever relation on ports the later steps of a tick respect, relates the ports after
    [observe]'s own loop to the ports at the end of the tick. *)
Section steps.
Context (R : ProbePort → ProbePort → Prop) `{!PreOrder R}.
Hypothesis HR_use : ∀ s, R s (note_usability s).
Hypothesis HR_verdict : ∀ s v, R s (apply_verdict s v).
Hypothesis HR_mark : ∀ s c, R s (mark_dead s c).
Hypothesis HR_ask : ∀ io now k s, R s (ask_port io now k s).1.
Hypothesis HR_returned : ∀ s b, R s (set_returned s b).
Hypothesis HR_grace : ∀ s t, R s (set_grace_until s t).

Lemma Forall2_fmap_R g ports : (∀ s, R s (g s)) → Forall2 R ports (g <$> ports).
Proof using All. intros Hg. induction ports; constructor; auto. Qed.

Lemma Forall2_zip_R {A} (g : ProbePort → A → ProbePort) ports (l : list A) :
  (∀ s a, R s (g s a)) → length l = length ports → Forall2 R ports (zip_with g ports l).
Proof using All.
  intros Hg. revert l. induction ports as [|s ports IH]; intros [|a l] Hl; try done; constructor; auto.
Qed.

Lemma Forall2_update_R n g ports : (∀ s, R s (g s)) → Forall2 R ports (update_first n g ports).
Proof using All.
  intros Hg. induction ports as [|s ports IH]; [constructor|].
  cbn. case_bool_decide; constructor; auto; reflexivity.
Qed.

(** The ports a leg holds, before and after, when only [R] steps ran. *)
Lemma judge_ports_rel io now active l f l' lines effs :
  judge_ports io now active l f = (l', lines, effs) →
  Forall2 R (l_ports l) (l_ports l') ∧ (∃ f', l_kind l' = KFallback f').
Proof using All.
  unfold judge_ports. set (vs := verdicts _ _ _ _).
  assert (length vs = length (l_ports l)) as Hvs
    by (unfold vs; by rewrite verdicts_length, length_fmap).
  destruct (condemn_ports _ _ _ _ _ _) as [[[ports f1] lines1] effs1] eqn:C.
  assert (Forall2 R (l_ports l) ports) as Hc.
  { unfold condemn_ports in C. repeat case_match; simplify_eq; try reflexivity.
    apply Forall2_zip_R; [apply HR_mark|]. rewrite length_zip_with. lia. }
  intros H. assert (Hp : l_ports l' = note_usability <$> zip_with apply_verdict ports vs
    ∧ ∃ f', l_kind l' = KFallback f').
  { destruct (note_quiet _ _ _) as [f2 lines2]. injection H as <- _ _. eauto. }
  destruct Hp as [-> Hk]. split; [|done].
  etrans; [exact Hc|]. etrans; [|apply Forall2_fmap_R, HR_use].
  apply Forall2_zip_R; [apply HR_verdict|]. apply Forall2_length in Hc. lia.
Qed.

Lemma observe_leg_rel io now active l l' lines effs :
  observe_leg io now active l = (l', lines, effs) →
  Forall2 R (observe_one (l_zone l) (l_kind l) io now active <$> l_ports l) (l_ports l').
Proof using All.
  unfold observe_leg.
  pose proof (observe_ports_fst (l_zone l) (l_kind l) io now active (mk_acc 0 [] None []) (l_ports l))
    as Hp.
  destruct (observe_ports _ _ _ _ _ _ _) as [ports acc]. cbn in Hp. rewrite <-Hp. clear Hp.
  assert (∃ l1 lines1, note_unreadable (set_l_ports l ports) (nl_err acc) = (l1, lines1) ∧
    l_ports l1 = ports) as (l1 & lines1 & -> & <-).
  { unfold note_unreadable. repeat case_match; eauto. }
  destruct (l_kind l1) as [r|f].
  - intros [= <- <- <-]. apply Forall2_fmap_R, HR_use.
  - case_match.
    + intros [= <- <- <-]. apply Forall2_fmap_R, HR_use.
    + destruct (judge_ports _ _ _ _ _) as [[l2 lines3] effs3] eqn:J. intros [= <- <- <-].
      by apply judge_ports_rel in J as [? _].
Qed.

Lemma actuate_rel io active now l l' lines effs :
  actuate io active now l = (l', lines, effs) → Forall2 R (l_ports l) (l_ports l').
Proof using All.
  unfold actuate. destruct (negb _); [by intros [= <- _ _]|].
  set (act := a ← active; _).
  set (l1 := match act with Some a => _ | None => _ end).
  assert (Forall2 R (l_ports l) (l_ports l1)) as H1.
  { unfold l1. destruct act; [|reflexivity]. apply Forall2_update_R; auto. }
  clearbody l1. destruct (decide_port _ _ _) as [target|].
  - destruct (bool_decide _); [by intros [= <- _ _]|].
    destruct (write_move _ _ _) as [[|e] effs1]; intros [= <- _ _]; [|done].
    etrans; [exact H1|]. apply Forall2_update_R; auto.
  - unfold note_no_carrier. case_bool_decide; by intros [= <- _ _].
Qed.

Lemma ask_rel io now l : Forall2 R (l_ports l) (l_ports (ask io now l).1).
Proof using All.
  unfold ask. cbn. rewrite <-list_fmap_compose.
  apply Forall2_fmap_R. intros s. apply HR_ask.
Qed.

Lemma leg_tick_rel io now l l' lines effs :
  leg_tick io now l = (l', lines, effs) →
  Forall2 R (observe_one (l_zone l) (l_kind l) io now (tick_active io l) <$> l_ports l)
    (l_ports l').
Proof using All.
  unfold leg_tick.
  assert (∃ l0, (if actuates l then read_active io l else (l, None)) = (l0, tick_active io l) ∧
    l_zone l0 = l_zone l ∧ l_kind l0 = l_kind l ∧ l_ports l0 = l_ports l) as (l0 & -> & <- & <- & <-).
  { unfold tick_active, read_active. destruct (actuates l); [|eauto].
    destruct (io_active io (l_bond l)); cbn; [|eauto]. eexists. split; [done|done]. }
  destruct (observe_leg _ _ _ _) as [[l1 lines1] effs1] eqn:O. apply observe_leg_rel in O.
  destruct (if is_some_and _ _ && _ then _ else _) as [[l2 lines2] effs2] eqn:A.
  assert (Forall2 R (l_ports l1) (l_ports l2)) as H2.
  { case_match; [by eapply actuate_rel|]. by injection A as <- _ _. }
  pose proof (ask_rel io now l2) as H3. destruct (ask io now l2) as [l3 effs3].
  intros [= <- _ _]. etrans; [exact O|]. by etrans.
Qed.
End steps.

(** Steps that keep a condemned port condemned, a port's name and its address. *)
Definition keeps (s s' : ProbePort) : Prop :=
  p_ifname s' = p_ifname s ∧ p_mac s' = p_mac s ∧ (hello_dead s = true → hello_dead s' = true).

#[export] Instance keeps_pre : PreOrder keeps.
Proof.
  split; [intros s; by split_and!|].
  intros a b c (? & ? & ?) (? & ? & ?). split_and!; [congruence|congruence|auto].
Qed.

(** Steps that leave the list of recently heard peers alone. *)
Definition same_recent (s s' : ProbePort) : Prop := recent s' = recent s.

#[export] Instance same_recent_pre : PreOrder same_recent.
Proof. split; [done|]. intros a b c. unfold same_recent. congruence. Qed.

Lemma leg_tick_keeps io now l l' lines effs :
  leg_tick io now l = (l', lines, effs) →
  Forall2 keeps (observe_one (l_zone l) (l_kind l) io now (tick_active io l) <$> l_ports l)
    (l_ports l').
Proof.
  apply leg_tick_rel; intros; unfold note_usability, apply_verdict, stop_asking, mark_dead; cbn.
  - apply _.
  - by case_match.
  - destruct v; [done|done| |done]. case_match; [done|]. by case_match.
  - by destruct c.
  - destruct k; cbn [ask_port]; [unfold ask_ingress|unfold ask_fallback]; repeat case_match; done.
  - done.
  - done.
Qed.

Lemma leg_tick_recent io now l l' lines effs :
  leg_tick io now l = (l', lines, effs) →
  Forall2 same_recent (observe_one (l_zone l) (l_kind l) io now (tick_active io l) <$> l_ports l)
    (l_ports l').
Proof.
  apply leg_tick_rel; intros; unfold note_usability, apply_verdict, stop_asking, mark_dead; cbn.
  - apply _.
  - by case_match.
  - destruct v; [done|done| |done]. case_match; [done|]. by case_match.
  - by destruct c.
  - destruct k; cbn [ask_port]; [unfold ask_ingress|unfold ask_fallback]; repeat case_match; done.
  - done.
  - done.
Qed.

(** Only the frame loop touches the recent list, and [saw] bounds it. *)
Lemma hear_frames_recent f active now frames s rep hn :
  (length (recent s) ≤ ESCALATION_TARGETS)%nat →
  (length (recent (foldl (hear_frame f active now) (s, rep, hn) frames).1.1)
   ≤ ESCALATION_TARGETS)%nat.
Proof.
  revert s rep hn. induction frames as [|fr frames IH]; intros s rep hn Hs; [done|].
  cbn [foldl]. destruct (hear_frame f active now (s, rep, hn) fr) as [[s1 rep1] hn1] eqn:F.
  apply IH. unfold hear_frame in F. destruct (hello_router_id fr) as [rid|].
  - destruct (rid =? self_rid f); [by simplify_eq|].
    case_bool_decide; [|by simplify_eq]. injection F as <- _ _. unfold saw. cbn [recent set_recent].
    rewrite length_take. lia.
  - destruct (_ && _); by simplify_eq.
Qed.

Lemma observe_one_recent zone k io now active s :
  (length (recent s) ≤ ESCALATION_TARGETS)%nat →
  (length (recent (observe_one zone k io now active s)) ≤ ESCALATION_TARGETS)%nat.
Proof.
  intros Hs. unfold observe_one, observe_port.
  pose proof (read_port_keeps zone (family k) (io_port io (p_ifname s)) s) as Hr. cbn zeta in Hr.
  destruct (read_port _ _ _ _) as [[[s1 there] lines] err]. cbn [fst] in Hr.
  destruct Hr as (_ & _ & _ & _ & R).
  assert (recent (note_present k now there s1) = recent s) as R2
    by (unfold note_present; by case_match).
  set (s2 := note_present _ _ _ _) in *. clearbody s2.
  destruct k as [router|f]; cbn [listen_port hear].
  - unfold fold_evidence, note_last_reply. repeat case_match; cbn; congruence.
  - destruct (io_listen io (p_ifname s2)) as [u|e].
    + pose proof (hear_frames_recent f active now (frames_of io (set_deaf s2 None))
        (set_deaf s2 None) false false) as Hf.
      destruct (foldl _ _ _) as [[s3 rep] hn]. cbn [fst] in *.
      assert (recent (fold_evidence (KFallback f) rep hn (note_last_reply now rep s3)) = recent s3)
        as -> by (unfold fold_evidence, note_last_reply; by repeat case_match).
      apply Hf. cbn. by rewrite R2.
    + case_match; cbn; by rewrite R2.
Qed.

(** A port nobody is asking stays that way through the frame loop. *)
Lemma observe_one_calm zone k io now active s :
  escalating s = false → escalating (observe_one zone k io now active s) = false.
Proof.
  intros Hs. unfold observe_one, observe_port.
  pose proof (read_port_keeps zone (family k) (io_port io (p_ifname s)) s) as Hr. cbn zeta in Hr.
  destruct (read_port _ _ _ _) as [[[s1 there] lines] err]. cbn [fst] in Hr.
  destruct Hr as (_ & _ & _ & R & _).
  assert (escalating (note_present k now there s1) = false) as R2
    by (unfold note_present; case_match; cbn; congruence).
  set (s2 := note_present _ _ _ _) in *. clearbody s2.
  destruct k as [router|f]; cbn [listen_port hear].
  - unfold fold_evidence, note_last_reply. repeat case_match; done.
  - destruct (io_listen io (p_ifname s2)) as [u|e]; [|by case_match].
    pose proof (hear_frames_keeps f active now (frames_of io (set_deaf s2 None))
      (set_deaf s2 None) false false) as Hf.
    destruct (foldl _ _ _) as [[s3 rep] hn]. destruct Hf as [(_ & _ & _ & E) _].
    cbn in E. unfold fold_evidence, note_last_reply. rewrite R2 in E.
    repeat case_match; cbn in *; congruence.
Qed.

Definition calm (s : ProbePort) : Prop := escalating s = false.

Lemma note_usability_calm s : calm s → calm (note_usability s).
Proof. unfold calm, note_usability. by destruct (opt_eqb _ _ && _). Qed.

Lemma ask_calm io now l f :
  l_kind l = KFallback f → Forall calm (l_ports l) →
  (ask io now l).2 = [] ∧ Forall calm (l_ports (ask io now l).1).
Proof.
  unfold ask. intros -> Hc. cbn [fst snd l_ports set_l_ports].
  assert (ask_port io now (KFallback f) <$> l_ports l = (λ s, (s, [])) <$> l_ports l) as ->.
  { apply list_fmap_ext. intros i s Hs. rewrite list.Forall_lookup in Hc. specialize (Hc i s Hs).
    cbn [ask_port]. unfold ask_fallback. by rewrite Hc. }
  split.
  - generalize (l_ports l). induction l0; [done|]. done.
  - rewrite <-list_fmap_compose. by rewrite list_fmap_id.
Qed.

Lemma actuate_calm io active now l l' lines effs :
  actuate io active now l = (l', lines, effs) → Forall calm (l_ports l) →
  Forall calm (l_ports l') ∧ l_kind l' = l_kind l ∧
  ∀ e, e ∈ effs → (∃ b p, e = EWritePrimary b p) ∨ (∃ b p, e = ESetActive b p).
Proof.
  unfold actuate. intros H Hc.
  destruct (negb _); [injection H as <- _ <-; split_and!; [done..|set_solver]|].
  set (act := a ← active; _) in H.
  set (l1 := match act with Some a => _ | None => _ end) in H.
  assert (∀ n g ports, (∀ s, calm s → calm (g s)) → Forall calm ports →
    Forall calm (update_first n g ports)) as Hu.
  { intros n g ports Hg. induction 1; cbn; [constructor|]. case_bool_decide; constructor; auto. }
  assert (Forall calm (l_ports l1) ∧ l_kind l1 = l_kind l) as [H1 K1].
  { unfold l1. destruct act; [|done]. split; [|done]. by apply Hu. }
  clearbody l1. destruct (decide_port _ _ _) as [target|].
  - destruct (bool_decide _); [injection H as <- _ <-; split_and!; [done..|set_solver]|].
    destruct (write_move _ _ _) as [o effs1] eqn:W.
    assert (∀ e, e ∈ effs1 → (∃ b p, e = EWritePrimary b p) ∨ (∃ b p, e = ESetActive b p)) as He.
    { unfold write_move in W. destruct (io_write_primary _ _ _); injection W as _ <-; set_solver. }
    destruct o; injection H as <- _ <-; (split; [|split; [done|exact He]]); [|done].
    by apply Hu.
  - unfold note_no_carrier in H. case_bool_decide; injection H as <- _ <-;
      (split; [done|split; [done|set_solver]]).
Qed.

Lemma judge_calm io now active l f l' lines effs :
  judge_ports io now active l f = (l', lines, effs) → Forall calm (l_ports l) →
  Suspect ∉ verdicts now ((λ s, evidence s active) <$> l_ports l) (f_windows f)
              (negb (bool_decide (f_peers f = ∅))) →
  effs = [] ∧ Forall calm (l_ports l') ∧ ∃ f', l_kind l' = KFallback f'.
Proof.
  unfold judge_ports. set (vs := verdicts _ _ _ _). intros H Hc Hv.
  assert (any (λ c, c) (zip_with (condemnable f active now) (l_ports l) vs) = false) as Hno.
  { apply any_false. intros c Hin. apply elem_of_lookup_zip_with in Hin as (i & s & v & -> & _ & Hi).
    unfold condemnable. rewrite bool_decide_eq_false_2; [done|].
    intros ->. by eapply Hv, list_elem_of_lookup_2. }
  unfold condemn_ports in H. rewrite Hno in H.
  destruct (note_quiet _ _ _) as [f2 lines2]. injection H as <- _ <-. cbn.
  split; [done|]. split; [|eauto]. apply Forall_fmap.
  apply list.Forall_lookup. intros i s Hi.
  apply lookup_zip_with_Some in Hi as (s0 & v & -> & Hs & Hvi).
  rewrite list.Forall_lookup in Hc. specialize (Hc i s0 Hs). apply note_usability_calm.
  assert (v ≠ Suspect) by (intros ->; by eapply Hv, list_elem_of_lookup_2). by destruct v.
Qed.

(** C3. A wire F27 condemned stays condemned until a hello arrives on it: after any tick of any
    leg a condemned port is still condemned, unless a fallback port received, in that tick, an
    OSPF packet from an expected peer, or the member's own reflection while it was a backup. No
    ARP reply and no answer of the kernel or the engine clears it. *)
Theorem condemned_until_hello io now l l' lines effs i s :
  leg_tick io now l = (l', lines, effs) → l_ports l !! i = Some s → hello_dead s = true →
  ∃ s', l_ports l' !! i = Some s' ∧ p_ifname s' = p_ifname s ∧
    (hello_dead s' = true ∨ ∃ f, l_kind l = KFallback f ∧ hello_heard f io (tick_active io l) s).
Proof.
  intros Ht%leg_tick_keeps Hi Hd.
  pose proof (observe_one_keeps (l_zone l) (l_kind l) io now (tick_active io l) s) as (N & _ & Hk).
  destruct (Forall2_lookup_l _ _ _ i (observe_one (l_zone l) (l_kind l) io now (tick_active io l) s)
    Ht) as (s' & Hs' & K1 & _ & K3); [by rewrite list_lookup_fmap, Hi|].
  exists s'. split; [done|]. split; [congruence|].
  destruct (Hk Hd) as [?|?]; [left; auto|by right].
Qed.

(** A healthy fallback leg is silent: when no port is being asked and no port is judged
    suspect, a tick sends no frame and asks the engine nothing, and leaves it that way. *)
Theorem steady_leg_is_silent io now l l' lines effs f :
  leg_tick io now l = (l', lines, effs) → l_kind l = KFallback f → Forall calm (l_ports l) →
  let ports := observe_one (l_zone l) (l_kind l) io now (tick_active io l) <$> l_ports l in
  Suspect ∉ verdicts now ((λ s, evidence s (tick_active io l)) <$> ports) (f_windows f)
              (negb (bool_decide (f_peers f = ∅))) →
  (∀ n fr, ESend n fr ∉ effs) ∧ (∀ sock, EAskEngine sock ∉ effs) ∧ Forall calm (l_ports l').
Proof.
  intros Ht Hk Hc ports Hv. revert Ht. unfold leg_tick.
  assert (∃ l0, (if actuates l then read_active io l else (l, None)) = (l0, tick_active io l) ∧
    l_zone l0 = l_zone l ∧ l_kind l0 = l_kind l ∧ l_ports l0 = l_ports l)
    as (l0 & -> & Z0 & K0 & P0).
  { unfold tick_active, read_active. destruct (actuates l); [|eauto].
    destruct (io_active io (l_bond l)); cbn; [|eauto]. eexists. split; done. }
  assert (Forall calm ports) as Hcp.
  { unfold ports. apply Forall_fmap. eapply list.Forall_impl; [exact Hc|].
    intros s. apply observe_one_calm. }
  destruct (observe_leg _ _ _ _) as [[l1 lines1] effs1] eqn:O.
  assert (effs1 = [] ∧ Forall calm (l_ports l1) ∧ ∃ f', l_kind l1 = KFallback f')
    as (-> & C1 & f1 & K1).
  { revert O. unfold observe_leg.
    pose proof (observe_ports_fst (l_zone l0) (l_kind l0) io now (tick_active io l)
      (mk_acc 0 [] None []) (l_ports l0)) as Hp.
    destruct (observe_ports _ _ _ _ _ _ _) as [ports0 acc]. cbn in Hp.
    rewrite Z0, K0, P0 in Hp. fold ports in Hp. subst ports0.
    assert (∃ l2 lines2, note_unreadable (set_l_ports l0 ports) (nl_err acc) = (l2, lines2) ∧
      l_ports l2 = ports ∧ l_kind l2 = l_kind l0) as (l2 & lines2 & -> & P2 & K2).
    { unfold note_unreadable. repeat case_match; eauto. }
    rewrite K2, K0, Hk. case_match.
    { intros [= <- _ <-]. cbn. rewrite P2. split_and!; [done| |eauto].
      apply Forall_fmap. eapply list.Forall_impl; [exact Hcp|]. apply note_usability_calm. }
    destruct (judge_ports _ _ _ _ _) as [[l3 lines3] effs3] eqn:J. intros [= <- _ <-].
    by eapply judge_calm in J; rewrite ?P2; eauto. }
  destruct (if is_some_and _ _ && _ then _ else _) as [[l2 lines2] effs2] eqn:A.
  assert (Forall calm (l_ports l2) ∧ l_kind l2 = l_kind l1 ∧ (∀ e, e ∈ effs2 →
    (∃ b p, e = EWritePrimary b p) ∨ (∃ b p, e = ESetActive b p))) as (C2 & K2 & E2).
  { case_match; [by eapply actuate_calm|]. injection A as <- _ <-. split_and!; [done..|set_solver]. }
  destruct (ask_calm io now l2 f1) as [E3 C3]; [congruence|done|].
  destruct (ask io now l2) as [l3 effs3]. cbn in E3, C3. subst effs3.
  intros [= <- _ <-]. rewrite app_nil_r. split_and!; [| |done].
  - intros n fr [(? & ? & ?)|(? & ? & ?)]%E2; done.
  - intros sock [(? & ? & ?)|(? & ? & ?)]%E2; done.
Qed.

Lemma fill_targets_spec all_t acc :
  (length acc ≤ ESCALATION_TARGETS)%nat →
  (length (fill_targets all_t acc) ≤ ESCALATION_TARGETS)%nat ∧
  (∀ t, t ∈ fill_targets all_t acc → t ∈ acc ∨ t ∈ all_t).
Proof.
  revert acc. induction all_t as [|t rest IH]; intros acc Ha; cbn [fill_targets]; [auto|].
  destruct (ESCALATION_TARGETS <=? length acc)%nat eqn:E; [auto|]. apply Nat.leb_gt in E.
  case_bool_decide.
  - destruct (IH acc Ha) as [? Hin]. split; [done|]. intros x [?|?]%Hin; [by left|right; by right].
  - destruct (IH (acc ++ [t])) as [? Hin]; [rewrite length_app; cbn; lia|].
    split; [done|]. intros x [Hx|?]%Hin; [|right; by right].
    apply elem_of_app in Hx as [?|Hx]; [by left|]. apply list_elem_of_singleton in Hx as ->.
    right; left.
Qed.

Lemma targets_for_spec f s :
  (length (recent s) ≤ ESCALATION_TARGETS)%nat →
  (length (targets_for f s) ≤ ESCALATION_TARGETS)%nat ∧
  (∀ t, t ∈ targets_for f s → t ∈ f_targets f).
Proof.
  intros Hr. unfold targets_for.
  destruct (fill_targets_spec (f_targets f) (omap (target_of (f_targets f)) (recent s)))
    as [Hl Hin].
  - etrans; [|exact Hr]. generalize (recent s). clear. intros l.
    induction l as [|r l IH]; cbn; [done|]. destruct (target_of _ r); cbn; lia.
  - split; [done|]. intros t [Ht|?]%Hin; [|done].
    apply list_elem_of_omap in Ht as (r & _ & Ht). unfold target_of in Ht.
    by apply find_Some_elem in Ht as [? _].
Qed.

(** Escalation is a burst, never a storm: every tick leaves each port at most
    [ESCALATION_TARGETS] recent peers; a fallback port is asked only while it escalates, with at
    most that many probes, each for an address of the segment; and a wire already confirmed
    dead is asked no sooner than the instant set by the previous ask, one hello interval on. *)
Theorem escalation_is_bounded io now l l' lines effs :
  leg_tick io now l = (l', lines, effs) →
  Forall (λ s, length (recent s) ≤ ESCALATION_TARGETS)%nat (l_ports l) →
  Forall (λ s, length (recent s) ≤ ESCALATION_TARGETS)%nat (l_ports l') ∧
  ∀ f s s' sends, (length (recent s) ≤ ESCALATION_TARGETS)%nat →
    ask_fallback io now f s = (s', sends) →
    (length sends ≤ ESCALATION_TARGETS)%nat ∧
    (∀ e, e ∈ sends → ∃ t, t ∈ f_targets f ∧ e = ESend (p_ifname s) (probe (p_mac s) t)) ∧
    (sends ≠ [] → escalating s = true ∧
       (h_reachable (p_state s) = false →
          (∀ t, next_ask s = Some t → t ≤ now) ∧
          (escalating s' = true → next_ask s' = Some (now + w_hello (f_windows f))))).
Proof.
  intros Ht%leg_tick_recent Hr. split.
  - apply list.Forall_lookup. intros i s' Hs'.
    destruct (Forall2_lookup_r _ _ _ _ _ Ht Hs') as (s1 & Hs1 & E).
    rewrite list_lookup_fmap in Hs1. destruct (l_ports l !! i) as [s|] eqn:Hs; [|done].
    injection Hs1 as <-. unfold same_recent in E. rewrite E. apply observe_one_recent.
    by eapply list.Forall_lookup_1 in Hr.
  - intros f s s' sends Hrec. unfold ask_fallback.
    destruct (escalating s) eqn:E; [|by intros [= <- <-]; split_and!; [cbn; lia|set_solver|done]].
    cbn [negb].
    destruct (negb (h_reachable (p_state s)) && is_some_and (next_ask s) (λ t, now <? t)) eqn:W.
    { intros [= <- <-]; split_and!; [cbn; lia|set_solver|done]. }
    set (s1 := if negb (h_reachable (p_state s)) then _ else s).
    assert (recent s1 = recent s ∧ p_ifname s1 = p_ifname s ∧ p_mac s1 = p_mac s ∧
      (h_reachable (p_state s) = false → next_ask s1 = Some (now + w_hello (f_windows f))))
      as (R1 & R2 & R3 & R4).
    { unfold s1. destruct (h_reachable _); cbn; split_and!; done. }
    clearbody s1. destruct (targets_for_spec f s1) as [Hl Hin]; [by rewrite R1|].
    intros [= <- <-]. split_and!.
    + by rewrite !length_fmap.
    + intros e He. apply list_elem_of_fmap in He as (fr & -> & Hfr).
      apply list_elem_of_fmap in Hfr as (t & -> & Hft). exists t. rewrite R2, R3. auto.
    + intros _. split; [done|]. intros Hu. split.
      * intros t Hn. rewrite Hu, Hn in W. cbn in W. by split_bools.
      * specialize (R4 Hu). destruct (any _ _); [by cbn|]. cbn.
        by destruct (h_reachable (observe (p_state s1) false)).
Qed.

(** A bond moves only when the decision says so, and then completely: [actuate] writes to
    the kernel only for the target [decide] names, [primary] before the active port; when both
    writes take, the leg holds the target, counts one move and says one line; when one is
    refused, what the leg holds and counts is unchanged, and the same refused move with the
    bond where it was is not attempted again. *)
Theorem actuate_correct io active now l l' lines effs :
  actuate io active now l = (l', lines, effs) →
  let act := a ← active; if bool_decide (a = EmptyString) then None else Some a in
  let cands := candidate <$> match act with
    | Some a => update_first a (λ s, set_returned s false) (l_ports l) | None => l_ports l end in
  (effs = [] → held l' = held l ∧ moves l' = moves l) ∧
  (effs ≠ [] → actuates l = true ∧ ∃ target,
     decide_port act cands (l_prefs l) = Some target ∧ refused l ≠ Some (target, act) ∧
     (io_write_primary io (l_bond l) target = Ok tt ∧ io_set_active io (l_bond l) target = Ok tt →
        effs = [EWritePrimary (l_bond l) target; ESetActive (l_bond l) target] ∧
        held l' = target ∧ active_now l' = Some target ∧ moves l' = moves l + 1 ∧
        refused l' = None ∧ length lines = 1%nat) ∧
     (¬ (io_write_primary io (l_bond l) target = Ok tt ∧
         io_set_active io (l_bond l) target = Ok tt) →
        held l' = held l ∧ active_now l' = active_now l ∧ moves l' = moves l ∧
        refused l' = Some (target, act) ∧
        effs `prefix_of` [EWritePrimary (l_bond l) target; ESetActive (l_bond l) target])).
Proof.
  unfold actuate. intros H. cbn zeta.
  destruct (actuates l); cbn [negb] in H; [|injection H as <- <- <-; by split].
  set (act := a ← active; _) in *.
  set (l1 := match act with Some a => set_l_ports l _ | None => l end) in H.
  assert (l_ports l1 = match act with
    | Some a => update_first a (λ s, set_returned s false) (l_ports l) | None => l_ports l end ∧
    l_prefs l1 = l_prefs l ∧ l_bond l1 = l_bond l ∧ held l1 = held l ∧ moves l1 = moves l ∧
    active_now l1 = active_now l ∧ refused l1 = refused l) as (P1 & P2 & P3 & P4 & P5 & P6 & P7).
  { unfold l1. by destruct act. }
  clearbody l1. rewrite P1, P2 in H.
  destruct (decide_port act _ (l_prefs l)) as [target|] eqn:D.
  - cbn [refused set_noted_no_carrier l_bond] in H. rewrite P3, P7 in H.
    case_bool_decide as Hr; [injection H as <- <- <-; cbn; by split|].
    unfold write_move in H.
    destruct (io_write_primary io (l_bond l) target) as [[]|e] eqn:W1;
      [destruct (io_set_active io (l_bond l) target) as [[]|e] eqn:W2|];
      injection H as <- <- <-; (split; [done|]); intros _; (split; [done|]); exists target;
      (split; [done|]); (split; [done|]); (split; [intros [? ?]|intros Hn]);
      try (exfalso; congruence); cbn; rewrite ?P4, ?P5, ?P6.
    + split_and!; reflexivity.
    + by destruct Hn; split.
    + split_and!; reflexivity.
    + split_and!; [done..|]. by exists [ESetActive (l_bond l) target].
  - unfold note_no_carrier in H. case_bool_decide; injection H as <- <- <-; by split.
Qed.

(** ** A concrete leg *)

Definition quiet_io : TickIo := {|
  io_active := λ _, Some "fb-a";
  io_port := λ _, Ok {| ps_carrier := true; ps_link := Some Up |};
  io_listen := λ _, Ok tt;
  io_recv := λ _, Ok [];
  io_send := λ _ _ _, Ok tt;
  io_write_primary := λ _ _, Ok tt;
  io_set_active := λ _ _, Ok tt;
  io_state := λ _, None
|}.

Definition fb0 : Fallback :=
  mk_fallback [addr_new 10 9 1 2] {[ addr_new 10 9 0 2 ]} (addr_new 10 9 0 1) (from_ospf 1 4)
    false false false "engine.sock" false.
Definition port_a (dead : bool) : ProbePort :=
  set_hello_dead (set_present (set_peer_heard (port_new "fb-a" "w1" "i1" (synthetic_mac 1 9 0))
    (Some (from_secs 10))) true) dead.
Definition port_b : ProbePort :=
  set_present (set_peer_heard (port_new "fb-b" "w2" "i2" (synthetic_mac 1 9 1))
    (Some (from_secs 10))) true.
Definition leg0 (dead : bool) : Leg :=
  leg_new "st" "fb" true ["w1"; "w2"] "w1" [port_a dead; port_b] (KFallback fb0).
Definition tick0 (dead : bool) : Leg * list ProbeLine * list Effect :=
  leg_tick quiet_io (from_secs 11) (leg0 dead).

Lemma condemned_witness :
  ∃ s', l_ports (tick0 true).1.1 !! 0%nat = Some s' ∧ p_ifname s' = "fb-a" ∧
    (hello_dead s' = true ∨ ∃ f, l_kind (leg0 true) = KFallback f ∧
       hello_heard f quiet_io (tick_active quiet_io (leg0 true)) (port_a true)).
Proof.
  apply (condemned_until_hello quiet_io (from_secs 11) (leg0 true) _ (tick0 true).1.2
    (tick0 true).2 0 (port_a true)); [|reflexivity|reflexivity].
  unfold tick0. by destruct (leg_tick _ _ _) as [[? ?] ?].
Defined.

Lemma steady_witness :
  (tick0 false).2 = [] ∧ (∀ n fr, ESend n fr ∉ (tick0 false).2).
Proof.
  split; [vm_compute; reflexivity|].
  apply (steady_leg_is_silent quiet_io (from_secs 11) (leg0 false) (tick0 false).1.1
    (tick0 false).1.2 (tick0 false).2 fb0).
  - unfold tick0. by destruct (leg_tick _ _ _) as [[? ?] ?].
  - reflexivity.
  - repeat constructor.
  - apply (bool_decide_eq_true_1 (Suspect ∉ _)). vm_compute. reflexivity.
Defined.

Lemma escalation_witness :
  Forall (λ s, length (recent s) ≤ ESCALATION_TARGETS)%nat (l_ports (tick0 false).1.1).
Proof.
  apply (escalation_is_bounded quiet_io (from_secs 11) (leg0 false) _ (tick0 false).1.2
    (tick0 false).2).
  - unfold tick0. by destruct (leg_tick _ _ _) as [[? ?] ?].
  - repeat constructor; cbn; lia.
Defined.

(** The kernel has the bond on the condemned port: the leg moves it to the other one. *)
Definition moved0 : Leg * list ProbeLine * list Effect :=
  actuate quiet_io (Some "fb-a") (from_secs 11)
    (set_l_ports (leg0 true)
       ((λ s, set_bond_link (set_p_carrier s true) (Some Up)) <$> [port_a true; port_b])).
Lemma actuate_witness :
  moved0.2 = [EWritePrimary "fb" "fb-b"; ESetActive "fb" "fb-b"] ∧ held moved0.1.1 = "fb-b".
Proof.
  assert (moved0.2 = [EWritePrimary "fb" "fb-b"; ESetActive "fb" "fb-b"]) as H
    by (vm_compute; reflexivity).
  split; [exact H|].
  destruct (actuate_correct quiet_io (Some "fb-a") (from_secs 11)
    (set_l_ports (leg0 true)
       ((λ s, set_bond_link (set_p_carrier s true) (Some Up)) <$> [port_a true; port_b]))
    moved0.1.1 moved0.1.2 moved0.2) as [_ Hm].
  - unfold moved0. by destruct (actuate _ _ _ _) as [[? ?] ?].
  - destruct Hm as (_ & target & D & _ & Hok & _); [rewrite H; discriminate|].
    destruct Hok as (E & -> & _); [split; reflexivity|]. rewrite H in E. congruence.
Defined.
