(* ===== verification/ProberStart.v ===== *)
(** The prober a member starts with (src/src/prober/mod.rs, [Prober::from_view]): a leg for each of its
    ingress and fallback rows, with what each is asked about and who its peers are. *)
From Stdlib Require Import Ascii String.
From S2P Require Import Prelude Text Decl Sys Net Fabric Derive Validate Legs Passive ProbeFrame EngineState Prober HostRoutes.
Local Open Scope Z_scope.

Section start.
Context (v : View) (d : Rows).
Let f := v_fabric v.
Let node := m_node (v_member v).

Definition island_of (wire : string) : string :=
  match wire_named (v_member v) wire with Some w => wire_domain w | None => EmptyString end.
Definition prefs_for (zone : string) : list string :=
  match List.find (λ p, String.eqb (hp_zone p) zone) (prefs v) with Some p => hp_order p | None => [] end.
(** [i as u8] in the MAC. *)
Definition port_at (z : Zone) (i : nat) (s : Port) : ProbePort :=
  port_new (po_ifname s) (po_wire s) (island_of (po_wire s)) (synthetic_mac node (z_id z) (Z.of_nat i mod 256)).

Definition named_zone (name : string) : option Zone :=
  match zone f name with Ok z => Some z | Err _ => None end.
Definition ingress_leg (r : GwRow) : option Leg :=
  z ← named_zone (gr_zone r);
  gw ← z_gw z;
  router ← parse_addr (gw_router gw);
  Some (leg_new (gr_zone r) (gr_ifname r) (migrates r) (prefs_for (gr_zone r)) (gr_home r)
          (if migrates r then imap (port_at z) (gr_ports r)
           else [port_new (gr_ifname r) (gr_home r) (island_of (gr_home r)) (synthetic_mac node (z_id z) 0)])
          (Ingress router)).

Definition addr_of (z : Zone) (seg n : Z) : option Ipv4Addr :=
  parse_addr (block_of z ++ "." ++ show seg ++ "." ++ show n)%string.
(** An address as the [u32] a router id is. *)
Definition rid_of (z : Zone) (m : Member) : option Z := parse_addr (identity_addr_of z m).
(** Does the member have a fallback row in the zone? *)
Definition carries (zone : string) (m : Member) : bool :=
  match fallback_rows_of f m with Ok rows => any (λ p, String.eqb (fr_zone p) zone) rows | Err _ => false end.
Definition peer_members (zone : string) : list Member :=
  List.filter (carries zone)
    (List.filter (λ m, negb (String.eqb (m_name m) (m_name (v_member v)))) (f_members f)).
Definition windows : Windows := from_ospf (od_hello_s (f_ospf f)) (od_dead_s (f_ospf f)).
Definition fallback_leg (r : FallbackRow) : option Leg :=
  z ← named_zone (fr_zone r);
  self_rid ← rid_of z (v_member v);
  let peers := peer_members (fr_zone r) in
  Some (leg_new (fr_zone r) (fr_ifname r) true (prefs_for (fr_zone r)) (fr_home r)
          (imap (port_at z) (fr_ports r))
          (KFallback (mk_fallback
             (omap (λ m, addr_of z (fr_seg r) (m_node m)) peers)
             (list_to_set (omap (rid_of z) peers))
             self_rid windows false false false (sock_path f) false))).

Definition no_room : list ProbeLine :=
  if move_fits_inside_dead windows PROBE_INTERVAL (od_dead_s (f_ospf f)) then []
  else [LNoRoom (od_hello_s (f_ospf f)) (od_dead_s (f_ospf f))].
Definition from_view : Prober :=
  let legs := omap ingress_leg (rw_gw d) ++ omap fallback_leg (rw_fallback d) in
  mk_prober legs (if any is_fallback legs then no_room else []).
End start.

(** ** What it covers *)

(** The ids of the address plan are single bytes, as the declaration types them. *)
Record plan_typed (f : Fabric) : Prop := {
  pt_nodes m : m ∈ f_members f → byte_ok (m_node m);
  pt_zones z : z ∈ f_zones f → byte_ok (z_id z)
}.

Lemma identity_parsed z m : byte_ok (z_id z) → byte_ok (m_node m) →
  rid_of z m = Some (addr_new 10 (z_id z) 0 (m_node m)).
Proof.
  intros Hz Hm. unfold rid_of. rewrite <-(parse_addr_show (addr_new 10 (z_id z) 0 (m_node m))) by by apply addr_new_ok.
  f_equal. unfold show_addr. pose proof (octets_addr_new 10 (z_id z) 0 (m_node m) ltac:(done) Hz ltac:(done) Hm) as E.
  unfold octets in E. injection E as -> -> -> ->. unfold identity_addr_of, block_of. by rewrite !str_app_assoc.
Qed.

Lemma omap_all {A B C} (g : A → option B) (h : B → C) (k : A → C) (l : list A) :
  (∀ x, x ∈ l → ∃ y, g x = Some y ∧ h y = k x) → h <$> omap g l = k <$> l.
Proof.
  induction l as [|x l IH]; intros H; [done|]. cbn [omap list_omap].
  destruct (H x ltac:(by left)) as (y & -> & E). cbn [fmap list_fmap]. f_equal; [done|]. apply IH.
  intros z Hz. apply H. by right.
Qed.

Section cover.
Context (f : Fabric) (m : Member) (d : Rows).
Let v : View := {| v_fabric := f; v_member := m |}.
Context (Hf : valid f) (Hm : m ∈ f_members f) (Hd : rows_of v = Ok d) (Ht : plan_typed f).
Context (Hnames : NoDup (z_name <$> f_zones f)).

Lemma rows_from : gw_rows_of f m = Ok (rw_gw d) ∧ fallback_rows_of f m = Ok (rw_fallback d).
Proof using Hd.
  unfold rows_of in Hd. change (gw_rows v) with (gw_rows_of f m) in Hd.
  change (fallback_rows v) with (fallback_rows_of f m) in Hd.
  destruct (class_rows v); [|done]. destruct (gw_rows_of f m); [|done]. destruct (fallback_rows_of f m); [|done].
  destruct (owned_forwarding v); [|done]. destruct (wires v); [|done]. by injection Hd as <-.
Qed.

Lemma zone_found z : z ∈ f_zones f → named_zone v (z_name z) = Some z.
Proof using Hnames.
  intros Hz. unfold named_zone, zone. cbn [v_fabric v].
  destruct (List.find _ _) as [z'|] eqn:E.
  - apply List.find_some in E as [Hz' E]. apply String.eqb_eq in E. rewrite <-list_elem_of_In in Hz'. f_equal.
    by apply (NoDup_fmap_inj_on z_name (f_zones f)).
  - eapply List.find_none in E; [|by apply list_elem_of_In]. by rewrite String.eqb_refl in E.
Qed.
Lemma zone_there name : name ∈ z_name <$> f_zones f → ∃ z, named_zone v name = Some z ∧ z ∈ f_zones f ∧ z_name z = name.
Proof using Hnames. intros (z & -> & Hz)%list_elem_of_fmap. exists z. split; [by apply zone_found|done]. Qed.

Lemma gw_row_of_zone r : r ∈ rw_gw d → ∃ z g, z ∈ f_zones f ∧ z_name z = gr_zone r ∧ z_gw z = Some g.
Proof using Hd.
  intros Hr. destruct rows_from as [Hg _]. unfold gw_rows_of in Hg. destruct (m_kind m).
  2:{ injection Hg as Hg. rewrite <-Hg in Hr. by apply elem_of_nil in Hr. }
  destruct (filter_collect_elem _ _ _ _ Hg Hr) as (z & Hz & E). exists z. unfold gw_row in E.
  destruct (z_gw z) as [g|]; [|done]. exists g. split_and!; [done| |done].
  destruct (gw_scope g).
  - destruct (wire_on _ _); [|done]. by injection E as <-.
  - destruct (home_wire _ _ _) as [h|]; [|done]. destruct (home_or_first _ _); [|done]. by injection E as <-.
Qed.
Lemma fallback_row_zone r : r ∈ rw_fallback d → fr_zone r ∈ z_name <$> f_zones f.
Proof using Hd Hf.
  intros Hr. destruct rows_from as [_ Hr']. unfold fallback_rows_of in Hr'.
  destruct (filter_collect_elem _ _ _ _ Hr' Hr) as (s & Hs & E). apply list_elem_of_filter in Hs as [_ Hs].
  unfold fallback_row in E. destruct (home_wire _ _ _) as [h|]; [|done]. destruct (home_or_first _ _); [|done].
  destruct (universal_cost _ _); [|done]. injection E as <-. by apply (v_segments _ Hf).
Qed.

(** What a leg is, row by row. *)
Definition leg_shape (l : Leg) : string * string * bool * list string :=
  (l_zone l, l_bond l, actuates l, p_wire <$> l_ports l).
Definition gw_shape (r : GwRow) : string * string * bool * list string :=
  (gr_zone r, gr_ifname r, migrates r, if migrates r then po_wire <$> gr_ports r else [gr_home r]).
Definition fallback_shape (r : FallbackRow) : string * string * bool * list string :=
  (fr_zone r, fr_ifname r, true, po_wire <$> fr_ports r).

Lemma port_wires z l : p_wire <$> imap (port_at v z) l = po_wire <$> l.
Proof using Type. rewrite fmap_imap. rewrite <-(imap_const po_wire l). by apply imap_ext. Qed.

Lemma ingress_leg_made r : (∀ z g, z ∈ f_zones f → z_gw z = Some g → is_Some (parse_addr (gw_router g))) →
  r ∈ rw_gw d →
  ∃ l, ingress_leg v r = Some l ∧ leg_shape l = gw_shape r
  ∧ ∃ router, l_kind l = Ingress router.
Proof using Hd Hnames.
  intros Hr Hin. destruct (gw_row_of_zone r Hin) as (z & g & Hz & En & Eg). destruct (Hr z g Hz Eg) as [router Er].
  unfold ingress_leg. rewrite <-En, (zone_found z Hz). cbn [mbind option_bind]. rewrite Eg. cbn [mbind option_bind].
  rewrite Er. cbn [mbind option_bind]. eexists. split; [done|]. split; [|by eexists].
  unfold leg_shape, gw_shape, leg_new. cbn [l_zone l_bond actuates l_ports]. rewrite En.
  f_equal. destruct (migrates r); [apply port_wires|done].
Qed.

(** The members a fallback leg hears hellos of. *)
Definition peers_are (l : Leg) : Prop :=
  ∀ fb, l_kind l = KFallback fb → ∀ rid, rid ∈ f_peers fb ↔
    ∃ m' z rows r, m' ∈ f_members f ∧ m_name m' ≠ m_name m ∧ fallback_rows_of f m' = Ok rows ∧ r ∈ rows
      ∧ fr_zone r = l_zone l ∧ z ∈ f_zones f ∧ z_name z = l_zone l ∧ rid = addr_new 10 (z_id z) 0 (m_node m').

Lemma elem_of_peers zone m' : m' ∈ peer_members v zone ↔
  m' ∈ f_members f ∧ m_name m' ≠ m_name m ∧ ∃ rows r, fallback_rows_of f m' = Ok rows ∧ r ∈ rows ∧ fr_zone r = zone.
Proof using Type.
  unfold peer_members. rewrite !elem_of_bfilter, negb_true_iff, String.eqb_neq. cbn [v_fabric v_member v].
  unfold carries. cbn [v_fabric v]. split.
  - intros (H3 & H2 & H1). split; [done|]. split; [done|]. destruct (fallback_rows_of f m') as [rows|]; [|done].
    apply any_true in H3 as (r & Hr & E). apply String.eqb_eq in E. by exists rows, r.
  - intros (H1 & H2 & rows & r & E & Hr & Ez). split; [|done]. rewrite E. apply any_true. exists r.
    split; [done|]. by apply String.eqb_eq.
Qed.

Lemma fallback_leg_made r : r ∈ rw_fallback d →
  ∃ l, fallback_leg v r = Some l ∧ leg_shape l = fallback_shape r ∧ peers_are l ∧ is_fallback l = true.
Proof using Hd Hf Hm Hnames Ht.
  intros Hin. destruct (zone_there _ (fallback_row_zone r Hin)) as (z & Ez & Hz & En).
  pose proof (pt_zones _ Ht z Hz) as Hzb. pose proof (pt_nodes _ Ht) as Hn.
  unfold fallback_leg. rewrite Ez. cbn [mbind option_bind v_member v].
  rewrite (identity_parsed z m Hzb (Hn m Hm)). cbn [mbind option_bind]. eexists. split; [done|].
  split; [|split; [|done]].
  { unfold leg_shape, fallback_shape, leg_new. cbn [l_zone l_bond actuates l_ports]. f_equal. apply port_wires. }
  intros fb [= <-] rid. cbn [f_peers]. rewrite elem_of_list_to_set, list_elem_of_omap. split.
  - intros (m' & (Hm' & Hne & rows & r' & E & Hr' & Er')%elem_of_peers & Hrid).
    rewrite (identity_parsed z m' Hzb (Hn m' Hm')) in Hrid. injection Hrid as <-.
    exists m', z, rows, r'. split_and!; done.
  - intros (m' & z' & rows & r' & Hm' & Hne & E & Hr' & Er' & Hz' & En' & ->). exists m'. split.
    + apply elem_of_peers. split_and!; [done..|]. by exists rows, r'.
    + assert (z' = z) as ->.
      { apply (NoDup_fmap_inj_on z_name (f_zones f)); [done..|]. by rewrite En, En'. }
      by apply identity_parsed; [|apply Hn].
Qed.
End cover.

(** C23. C: no leg of a member goes unprobed. On a fabric that passed the gate, whose zones have distinct
    names and whose routers are addresses, the prober starts with a leg for every ingress row and then
    every fallback row of the member's view, in that order, each with a port per wire of the row; a
    fallback leg's peers are exactly the identities of the other members that have a fallback row in
    its zone. It is warned about at the start, once, exactly when a fallback leg exists and a move
    could not be decided inside the dead interval. *)
Theorem every_leg_is_probed f m d
    (Hf : validate f = Ok tt) (Hm : m ∈ f_members f)
    (Hd : rows_of {| v_fabric := f; v_member := m |} = Ok d) (Ht : plan_typed f)
    (Hnames : NoDup (z_name <$> f_zones f))
    (Hrouters : ∀ z g, z ∈ f_zones f → z_gw z = Some g → is_Some (parse_addr (gw_router g))) :
  let v := {| v_fabric := f; v_member := m |} in
  let p := from_view v d in
  leg_shape <$> legs p = (gw_shape <$> rw_gw d) ++ (fallback_shape <$> rw_fallback d)
  ∧ Forall (peers_are f m) (legs p)
  ∧ (p_log p ≠ [] ↔ rw_fallback d ≠ [] ∧ move_fits_inside_dead (windows v) PROBE_INTERVAL (od_dead_s (f_ospf f)) = false).
Proof.
  intros v p. apply gate_iff in Hf as Hv.
  pose proof (λ r, ingress_leg_made f m d Hd Hnames r Hrouters) as Hi.
  pose proof (fallback_leg_made f m d Hv Hm Hd Ht Hnames) as Hl. fold v in Hi, Hl.
  assert (∀ l, l ∈ omap (ingress_leg v) (rw_gw d) → ∃ router, l_kind l = Ingress router) as Ki.
  { intros l (r & Hr & E)%list_elem_of_omap. destruct (Hi r Hr) as (l' & E' & _ & K). by simplify_eq. }
  assert (∀ l, l ∈ omap (fallback_leg v) (rw_fallback d) → peers_are f m l ∧ is_fallback l = true) as Kf.
  { intros l (r & Hr & E)%list_elem_of_omap. destruct (Hl r Hr) as (l' & E' & _ & K). by simplify_eq. }
  unfold p, from_view. cbn [legs p_log]. split; [|split].
  - rewrite fmap_app. f_equal; apply omap_all.
    + intros r Hr. destruct (Hi r Hr) as (l & E & S & _). by exists l.
    + intros r Hr. destruct (Hl r Hr) as (l & E & S & _). by exists l.
  - apply list.Forall_app. split; apply list.Forall_forall; intros l Hin; [|by apply Kf].
    destruct (Ki l Hin) as [router K]. intros fb E. congruence.
  - unfold no_room. fold v. destruct (any is_fallback _) eqn:Ea.
    + apply any_true in Ea as (l & Hin & El). apply elem_of_app in Hin as [Hin|Hin].
      { destruct (Ki l Hin) as [router K]. unfold is_fallback in El. by rewrite K in El. }
      destruct (move_fits_inside_dead _ _ _); [by split; [|intros [_ ?]]|]. split; [|done]. intros _.
      split; [|done]. intros E. rewrite E in Hin. by apply elem_of_nil in Hin.
    + split; [done|]. intros [Hne _]. destruct (rw_fallback d) as [|r l] eqn:Er; [done|].
      destruct (Hl r ltac:(by left)) as (l' & E & _ & _ & K). rewrite any_false in Ea.
      rewrite Ea in K; [done|]. apply elem_of_app. right. apply list_elem_of_omap. exists r. split; [by left|done].
Qed.

(** ** The sample fabric, and a router the gate lets through *)

Module Sample.
Local Open Scope string_scope.
Definition rows : Rows := match rows_of Derive.Sample.view with Ok d => d | Err _ =>
  {| rw_class := []; rw_gw := []; rw_fallback := []; rw_owned := []; rw_wires := [] |} end.
Definition started : Prober := from_view Derive.Sample.view rows.
Example legs_started :
  (λ l, (l_bond l, held l, p_ifname <$> l_ports l)) <$> legs started
  = [("cfab-gw10", "cfab-gw10-a", ["cfab-gw10-b"; "cfab-gw10-a"]); ("st-any", "st-any-a", ["st-any-b"; "st-any-a"])].
Proof. by vm_compute. Qed.

(** Four numbers that are octets, one of them written with a leading zero: no address to Rust. *)
Definition padded_decl : GwDecl := {| gd_domain := "any"; gd_vid := 250; gd_router := "172.16.0.010/24" |}.
Definition padded : result Refusal ZoneGw := resolve_gw "storage" padded_decl.
Definition with_gw (g : ZoneGw) : Fabric :=
  let z := Derive.Sample.storage in
  let f := Derive.Sample.fabric in
  {| f_domains := f_domains f; f_members := f_members f;
     f_zones := [{| z_name := z_name z; z_id := z_id z; z_pcp := z_pcp z; z_dscp := z_dscp z;
                    z_floor_mbps := z_floor_mbps z; z_band := z_band z; z_weight := z_weight z;
                    z_primary := z_primary z; z_gw := Some g |}];
     f_segments := f_segments f; f_wire_prefs := f_wire_prefs f; f_leaf_cost_offset := f_leaf_cost_offset f;
     f_host_forward := f_host_forward f; f_forward_allow := f_forward_allow f;
     f_admin_floor_mbps := f_admin_floor_mbps f; f_admin_band := f_admin_band f; f_pcp_ctrl := f_pcp_ctrl f;
     f_dscp_mark := f_dscp_mark f; f_bfd := f_bfd f; f_ospf := f_ospf f; f_bgp := f_bgp f;
     f_run_dir := f_run_dir f; f_dns_domain := f_dns_domain f; f_workloads := f_workloads f |}.
(** The gate accepts it, the view has its ingress row, and no leg is probed for it. *)
Example padded_router_is_not_probed :
  ∃ g, padded = Ok g ∧ validate (with_gw g) = Ok tt
  ∧ let v := {| v_fabric := with_gw g; v_member := Derive.Sample.h1 |} in
    match rows_of v with
    | Ok d => gr_ifname <$> rw_gw d = ["cfab-gw10"] ∧ l_bond <$> legs (from_view v d) = ["st-any"]
    | Err _ => False
    end.
Proof.
  exists {| gw_scope := Universal; gw_vid := 250; gw_router := "172.16.0.010" |}.
  split; [by vm_compute|]. split; by vm_compute.
Qed.
End Sample.

Lemma every_leg_witness :
  validate Derive.Sample.fabric = Ok tt
  ∧ leg_shape <$> legs (from_view {| v_fabric := Derive.Sample.fabric; v_member := Derive.Sample.h1 |} Sample.rows)
    = (gw_shape <$> rw_gw Sample.rows) ++ (fallback_shape <$> rw_fallback Sample.rows).
Proof.
  assert (validate Derive.Sample.fabric = Ok tt) as H1 by by vm_compute.
  assert (Derive.Sample.h1 ∈ f_members Derive.Sample.fabric) as H2 by left.
  assert (rows_of {| v_fabric := Derive.Sample.fabric; v_member := Derive.Sample.h1 |} = Ok Sample.rows) as H3
    by by vm_compute.
  assert (plan_typed Derive.Sample.fabric) as H4.
  { assert (Forall (λ m, byte_ok (m_node m)) (f_members Derive.Sample.fabric)
            ∧ Forall (λ z, byte_ok (z_id z)) (f_zones Derive.Sample.fabric)) as [Hn Hz].
    { unfold byte_ok. split; apply (bool_decide_unpack _); by vm_compute. }
    by split; apply list.Forall_forall. }
  assert (NoDup (z_name <$> f_zones Derive.Sample.fabric)) as H5 by (apply (bool_decide_unpack _); by vm_compute).
  assert (∀ z g, z ∈ f_zones Derive.Sample.fabric → z_gw z = Some g → is_Some (parse_addr (gw_router g))) as H6.
  { intros z g Hz Eg. cbn in Hz. apply list_elem_of_singleton in Hz. subst z. injection Eg as <-. by eexists; vm_compute. }
  split; [exact H1|].
  exact (proj1 (every_leg_is_probed Derive.Sample.fabric Derive.Sample.h1 Sample.rows H1 H2 H3 H4 H5 H6)).
Defined.
