(* ===== verification/Relay.v ===== *)
(** The DHCP relay (src/src/workload/relay.rs).

    The packet core is pure as in the source: a message is its bytes, read and written at fixed
    offsets. The task is the three arms of [serve]'s [select!] as steps on its local state, the
    relay's report in [Shared] and the neighbour table; what the sockets and sysfs answered is
    an argument of the step, and a step that ends the loop returns the reason. *)
From S2P Require Import Prelude Text Net Child NeighTable.

(** ** Constants *)

Definition BOOTREQUEST : Z := 1.
Definition BOOTREPLY : Z := 2.
Definition DHCPACK : Z := 5.
Definition HEADER_LEN : nat := 236.
Definition MAGIC_COOKIE : list Z := [99; 130; 83; 99].
Definition MIN_LEN : nat := 240.
Definition CIADDR_OFF : nat := 12.
Definition YIADDR_OFF : nat := 16.
Definition GIADDR_OFF : nat := 24.
Definition CHADDR_OFF : nat := 28.
Definition PORT : Z := 67.
Definition CLIENT_PORT : Z := 68.
Definition BUF_LEN : nat := 1500.
Definition BASELINE_BIND_ATTEMPTS : nat := 3.
Definition UNKNOWN_BASELINE_LIMIT : Z := 5.
Definition BIND_RETRY : Duration := from_secs 60.
Definition IFINDEX_POLL : Duration := from_secs 3.
Definition LEG_POLL : Duration := BACKOFF.

(** ** [Bootp] *)

Definition Bootp := list Z.

Inductive ParseError := ShortPacket (n : nat) | BadCookie.

Definition parse (buf : list Z) : result ParseError Bootp :=
  if (length buf <? MIN_LEN)%nat then Err (ShortPacket (length buf))
  else if negb (bool_decide (slice buf HEADER_LEN (HEADER_LEN + 4) = Some MAGIC_COOKIE))
  then Err BadCookie
  else Ok buf.

Definition addr_at (b : list Z) (off : nat) : Ipv4Addr :=
  addr_new (at_ b off) (at_ b (off + 1)) (at_ b (off + 2)) (at_ b (off + 3)).

Definition op (p : Bootp) : Z := at_ p 0.
Definition htype (p : Bootp) : Z := at_ p 1.
Definition hlen (p : Bootp) : Z := at_ p 2.
Definition hops (p : Bootp) : Z := at_ p 3.
Definition set_hops (p : Bootp) (h : Z) : Bootp := splice p 3 [h].
Definition ciaddr (p : Bootp) : Ipv4Addr := addr_at p CIADDR_OFF.
Definition yiaddr (p : Bootp) : Ipv4Addr := addr_at p YIADDR_OFF.
Definition giaddr (p : Bootp) : Ipv4Addr := addr_at p GIADDR_OFF.
Definition set_giaddr (p : Bootp) (a : Ipv4Addr) : Bootp := splice p GIADDR_OFF (octets a).

Definition chaddr6 (p : Bootp) : option Mac :=
  if (htype p =? 1) && (hlen p =? 6) then Some (take 6 (drop CHADDR_OFF p)) else None.

(** The option area, and the scan of it: [while i < opts.len()], where every turn moves [i]
    forward, so the length of the area is fuel enough. *)
Definition options_of (p : Bootp) : list Z := drop (HEADER_LEN + 4) p.

Fixpoint option_loop (fuel : nat) (opts : list Z) (i : nat) (code len : Z) : option (list Z) :=
  match fuel with
  | O => None
  | S f =>
      match opts !! i with
      | None => None
      | Some c =>
          if c =? 0 then option_loop f opts (i + 1) code len
          else if c =? 255 then None
          else
            l ← opts !! (i + 1)%nat;
            let stop := (i + 2 + Z.to_nat l)%nat in
            val ← slice opts (i + 2) stop;
            if (c =? code) && (l =? len) then Some val
            else option_loop f opts stop code len
      end
  end.

Definition option_of (p : Bootp) (code len : Z) : option (list Z) :=
  option_loop (S (length (options_of p))) (options_of p) 0 code len.

Definition message_type (p : Bootp) : option Z := (λ v, at_ v 0) <$> option_of p 53 1.
Definition lease_time (p : Bootp) : option Z := be32 <$> option_of p 51 4.

(** ** Forwarding *)

Inductive DropReason :=
| Malformed
| NotABootrequest
| NotABootreply
| HopsExceeded
| ForeignGiaddr (a : Ipv4Addr)
| UntrustedServer (a : Ipv4Addr)
| ForeignReplyGiaddr (a : Ipv4Addr)
| OutOfPrefix (a : Ipv4Addr).

Inductive Action :=
| Forward (to : Ipv4Addr * Z) (bytes : list Z)
| Drop (r : DropReason).

Definition forward_client (pkt : list Z) (leg_addr dhcp_server : Ipv4Addr) : Action :=
  match parse pkt with
  | Err _ => Drop Malformed
  | Ok p =>
      if negb (op p =? BOOTREQUEST) then Drop NotABootrequest
      else
        let g := giaddr p in
        if negb (is_unspecified g) && negb (g =? leg_addr) then Drop (ForeignGiaddr g)
        else if 16 <=? hops p then Drop HopsExceeded
        else
          let p := set_hops p (hops p + 1) in
          let p := if is_unspecified g then set_giaddr p leg_addr else p in
          Forward (dhcp_server, PORT) p
  end.

Definition forward_server (pkt : list Z) (src leg_addr dhcp_server : Ipv4Addr)
    (prefix : Ipv4Prefix) : Action :=
  match parse pkt with
  | Err _ => Drop Malformed
  | Ok p =>
      if negb (op p =? BOOTREPLY) then Drop NotABootreply
      else if negb (src =? dhcp_server) then Drop (UntrustedServer src)
      else if negb (giaddr p =? leg_addr) then Drop (ForeignReplyGiaddr (giaddr p))
      else if negb (is_unspecified (ciaddr p)) && negb (contains prefix (ciaddr p))
      then Drop (OutOfPrefix (ciaddr p))
      else if negb (is_unspecified (yiaddr p)) && negb (contains prefix (yiaddr p))
      then Drop (OutOfPrefix (yiaddr p))
      else
        let dest := if is_unspecified (ciaddr p) then BROADCAST else ciaddr p in
        Forward (dest, CLIENT_PORT) p
  end.

Inductive AckOutcome :=
| AckDiscovered (addr : Ipv4Addr) (m : Mac) (lease : option Z)
| AckRefused (addr : Ipv4Addr)
| AckIgnore.

Definition ack_discovery (pkt : list Z) (prefix : Ipv4Prefix) (fabric_addresses : gset Ipv4Addr)
    : AckOutcome :=
  match parse pkt with
  | Err _ => AckIgnore
  | Ok p =>
      if negb (opt_eqb (message_type p) (Some DHCPACK)) then AckIgnore
      else
        let y := yiaddr p in
        if is_unspecified y || negb (contains prefix y) then AckIgnore
        else if bool_decide (y ∈ fabric_addresses) || (y =? net prefix) || (y =? broadcast prefix)
        then AckRefused y
        else match chaddr6 p with
             | None => AckIgnore
             | Some m => AckDiscovered y m (lease_time p)
             end
  end.

(** ** The relay's row, its report, and what it says *)

Record RelayRow := {
  rr_name : string; rr_leg : string; leg_addr : Ipv4Addr; dhcp_server : Ipv4Addr;
  rr_prefix : Ipv4Prefix; fabric_addresses : gset Ipv4Addr
}.

Inductive RelayEvent :=
| EvBound
| EvBindError (e : string)
| EvSocketError (e : string)
| EvRequest
| EvReply
| EvDiscovered
| EvDropped.

Record RelayReport := mk_report {
  rp_server : Ipv4Addr; requests : Z; replies : Z; discovered : Z; drops : Z;
  last_error : option string
}.

(** [Shared::relay_event] (src/src/supervisor/mod.rs). *)
Definition relay_event (rs : gmap string RelayReport) (name : string) (server : Ipv4Addr)
    (ev : RelayEvent) : gmap string RelayReport :=
  let r := unwrap_or (rs !! name) (mk_report server 0 0 0 0 None) in
  <[name :=
    match ev with
    | EvBound => mk_report (rp_server r) (requests r) (replies r) (discovered r) (drops r) None
    | EvBindError e | EvSocketError e =>
        mk_report (rp_server r) (requests r) (replies r) (discovered r) (drops r) (Some e)
    | EvRequest => mk_report (rp_server r) (requests r + 1) (replies r) (discovered r) (drops r)
                     (last_error r)
    | EvReply => mk_report (rp_server r) (requests r) (replies r + 1) (discovered r) (drops r)
                   (last_error r)
    | EvDiscovered => mk_report (rp_server r) (requests r) (replies r) (discovered r + 1)
                        (drops r) (last_error r)
    | EvDropped => mk_report (rp_server r) (requests r) (replies r) (discovered r) (drops r + 1)
                     (last_error r)
    end]> rs.

Inductive RelayLine :=
| RBound (leg : string) (server : Ipv4Addr)
| RSocketLost (why : string)
| RBindFailed (msg : string)
| RRequestDropped (msg : string)
| RReplyDropped (msg : string)
| RCapRefused (l : RefusalLine)
| RAckRefused (server addr : Ipv4Addr)
| ROutOfPrefix (server addr : Ipv4Addr).

Definition should_log_once (previous : option string) (msg : string) : bool :=
  negb (opt_eqb previous (Some msg)).

(** [should_log_fixed_reason_drop]: whether to print, and the flag after it. *)
Definition should_log_fixed_reason_drop (logged : bool) : bool * bool :=
  if logged then (false, true) else (true, true).

(** ** Binding *)

(** [bind_pair_with_baseline_via]: [reader k] is the [k]-th ifindex read of the leg, [bind k]
    what the [k]-th bind answered. *)
Fixpoint bind_attempts {Sk} (attempts : nat) (reader : nat → option Z)
    (bind : nat → result string Sk) (k : nat) (pre : option Z) (leg : string)
    : result string (Sk * option Z) :=
  match attempts with
  | O => Err ("leg " ++ leg ++ " kept changing identity across 3 bind attempts")%string
  | S n =>
      socks <-? bind k ;;
      let post := reader (k + 1)%nat in
      if opt_eqb pre post then Ok (socks, post)
      else bind_attempts n reader bind (k + 1) post leg
  end.

Definition bind_pair_with_baseline_via {Sk} (row : RelayRow) (reader : nat → option Z)
    (bind : nat → result string Sk) : result string (Sk * option Z) :=
  bind_attempts BASELINE_BIND_ATTEMPTS reader bind 0 (reader 0%nat) (rr_leg row).

(** [sysfs_ifindex], given what the file held. *)
Definition sysfs_ifindex (content : option string) : option Z :=
  text ← content; parse_uint u32_max (trim text).

(** [wait_for_leg]: when it returns, on a clock that its own sleeps move; [reader k] is the
    [k]-th look at the leg. *)
Fixpoint wait_loop (fuel : nat) (reader : nat → option Z) (k : nat) (now deadline : Instant)
    (poll : Duration) : option Instant :=
  match fuel with
  | O => None
  | S f =>
      if (deadline <=? now) || bool_decide (is_Some (reader k)) then Some now
      else wait_loop f reader (k + 1) (now + Z.min poll (deadline - now)) deadline poll
  end.

(** ** Serving *)

Record ServeState := mk_serve {
  baseline : option Z;
  unknown_polls : Z;
  last_send_drop : option string;
  last_client_send_drop : option string;
  prefix_drop_logged : bool;
  ack_refused_logged : bool
}.

Definition serve_start (b : option Z) : ServeState := mk_serve b 0 None None false false.

(** What a step works on: the locals of [serve], the reports, the table and the cap source of
    [Shared]; and what it said so far. *)
Record RelayWorld := mk_world {
  sv : ServeState; reports : gmap string RelayReport; tbl : Inner; cap_source : CapSource;
  journal : list RelayLine
}.

Definition note_event (row : RelayRow) (ev : RelayEvent) (w : RelayWorld) : RelayWorld :=
  mk_world (sv w) (relay_event (reports w) (rr_name row) (dhcp_server row) ev) (tbl w)
    (cap_source w) (journal w).
Definition say (l : RelayLine) (w : RelayWorld) : RelayWorld :=
  mk_world (sv w) (reports w) (tbl w) (cap_source w) (journal w ++ [l]).
Definition with_sv (s : ServeState) (w : RelayWorld) : RelayWorld :=
  mk_world s (reports w) (tbl w) (cap_source w) (journal w).
Definition with_tbl (t : Inner) (w : RelayWorld) : RelayWorld :=
  mk_world (sv w) (reports w) t (cap_source w) (journal w).

(** [{:?}] of an optional ifindex. *)
Definition show_opt (o : option Z) : string :=
  match o with Some n => ("Some(" ++ show n ++ ")")%string | None => "None" end.

(** The poll arm. *)
Definition poll_step (row : RelayRow) (now : option Z) (w : RelayWorld)
    : RelayWorld * option string :=
  let s := sv w in
  match baseline s, now with
  | None, Some n =>
      (with_sv (mk_serve (Some n) 0 (last_send_drop s) (last_client_send_drop s)
                  (prefix_drop_logged s) (ack_refused_logged s)) w, None)
  | None, None =>
      let polls := unknown_polls s + 1 in
      let w := with_sv (mk_serve None polls (last_send_drop s) (last_client_send_drop s)
                          (prefix_drop_logged s) (ack_refused_logged s)) w in
      if UNKNOWN_BASELINE_LIMIT <=? polls then
        let msg := ("leg " ++ rr_leg row ++ " ifindex unreadable after " ++ show polls
          ++ " polls with no baseline ever established; treating as a rebuild")%string in
        (note_event row (EvSocketError msg) w, Some msg)
      else (w, None)
  | Some b, _ =>
      if opt_eqb now (Some b) then (w, None)
      else
        let msg := ("leg " ++ rr_leg row ++ " rebuilt (ifindex " ++ show_opt (baseline s)
          ++ " -> " ++ show_opt now ++ ")")%string in
        (note_event row (EvSocketError msg) w, Some msg)
  end.

(** The client arm: a datagram or a receive error, and what the server-facing send answered. *)
Definition client_step (row : RelayRow) (recv : result string (list Z))
    (send : Ipv4Addr * Z → list Z → result string unit) (w : RelayWorld)
    : RelayWorld * option string :=
  match recv with
  | Err e => (w, Some ("client socket: " ++ e)%string)
  | Ok dgram =>
      match forward_client (take BUF_LEN dgram) (leg_addr row) (dhcp_server row) with
      | Drop _ => (w, None)
      | Forward to bytes =>
          match send to bytes with
          | Ok _ => (note_event row EvRequest w, None)
          | Err e =>
              let msg := ("server-facing send: " ++ e)%string in
              let s := sv w in
              let w := if should_log_once (last_send_drop s) msg
                       then say (RRequestDropped msg) w else w in
              let w := with_sv (mk_serve (baseline s) (unknown_polls s) (Some msg)
                (last_client_send_drop s) (prefix_drop_logged s) (ack_refused_logged s)) w in
              (note_event row EvDropped w, None)
          end
      end
  end.

(** What a forwarded reply teaches: the table and the counters. *)
Definition learn (row : RelayRow) (pkt : list Z) (now : Instant) (w : RelayWorld) : RelayWorld :=
  match ack_discovery pkt (rr_prefix row) (fabric_addresses row) with
  | AckDiscovered y m lease =>
      let cap := for_prefix (cap_source w) (rr_prefix row) in
      let expires := now + clamp_lease lease in
      let '(t, out, _) := upsert (tbl w) (rr_name row) (rr_leg row) y m expires cap now in
      let w := with_tbl t w in
      match out with
      | UpsertAdmitted => note_event row EvDiscovered w
      | UpsertRefused first_of_streak =>
          let w := if first_of_streak
                   then say (RCapRefused (refusal_line cap (rr_name row) y (rr_prefix row))) w
                   else w in
          note_event row EvDropped w
      end
  | AckRefused a =>
      let s := sv w in
      let '(print, flag) := should_log_fixed_reason_drop (ack_refused_logged s) in
      let w := with_sv (mk_serve (baseline s) (unknown_polls s) (last_send_drop s)
                          (last_client_send_drop s) (prefix_drop_logged s) flag) w in
      let w := if print then say (RAckRefused (dhcp_server row) a) w else w in
      note_event row EvDropped w
  | AckIgnore => w
  end.

(** The server arm: a datagram with its source, or a receive error. *)
Definition server_step (row : RelayRow) (recv : result string (list Z * option Ipv4Addr))
    (send : Ipv4Addr * Z → list Z → result string unit) (now : Instant) (w : RelayWorld)
    : RelayWorld * option string :=
  match recv with
  | Err e => (w, Some ("server socket: " ++ e)%string)
  | Ok (_, None) => (w, None)
  | Ok (dgram, Some src) =>
      let pkt := take BUF_LEN dgram in
      match forward_server pkt src (leg_addr row) (dhcp_server row) (rr_prefix row) with
      | Forward to bytes =>
          let w := learn row pkt now w in
          match send to bytes with
          | Ok _ => (note_event row EvReply w, None)
          | Err e =>
              let msg := ("client-facing send: " ++ e)%string in
              let s := sv w in
              let w := if should_log_once (last_client_send_drop s) msg
                       then say (RReplyDropped msg) w else w in
              let w := with_sv (mk_serve (baseline s) (unknown_polls s) (last_send_drop s)
                (Some msg) (prefix_drop_logged s) (ack_refused_logged s)) w in
              (note_event row EvDropped w, None)
          end
      | Drop (OutOfPrefix a) =>
          let s := sv w in
          let '(print, flag) := should_log_fixed_reason_drop (prefix_drop_logged s) in
          let w := with_sv (mk_serve (baseline s) (unknown_polls s) (last_send_drop s)
                              (last_client_send_drop s) flag (ack_refused_logged s)) w in
          let w := if print then say (ROutOfPrefix (dhcp_server row) a) w else w in
          (note_event row EvDropped w, None)
      | Drop _ => (w, None)
      end
  end.

(** How long the retry loop waits after a pass. *)
Inductive RetryWait := WaitBackoff | WaitForLeg.

(** One pass of [run_with_reader_via], given the bind's outcome and, when it bound, the reason
    and the world [serve] ended with. *)
Definition run_pass {Sk} (row : RelayRow) (bound : result string (Sk * option Z))
    (serve : RelayWorld → RelayWorld * string) (w : RelayWorld) : RelayWorld * RetryWait :=
  match bound with
  | Ok (_, b) =>
      let w := say (RBound (rr_leg row) (dhcp_server row)) (note_event row EvBound w) in
      let '(w, why) := serve (with_sv (serve_start b) w) in
      (note_event row (EvSocketError why) (say (RSocketLost why) w), WaitBackoff)
  | Err e =>
      let msg := ("cannot bind: " ++ e)%string in
      let previous := reports w !! rr_name row ≫= last_error in
      let w := note_event row (EvBindError msg) w in
      ((if should_log_once previous msg then say (RBindFailed msg) w else w), WaitForLeg)
  end.

(** [mac_str]: two hex digits a byte, joined by colons. *)
Definition hex_digit (n : Z) : string :=
  match String.get (Z.to_nat n) "0123456789abcdef" with
  | Some c => String.String c EmptyString
  | None => EmptyString
  end.
Definition mac_str (m : Mac) : string :=
  String.concat ":" ((λ b, (hex_digit (b / 16) ++ hex_digit (b mod 16))%string) <$> m).

(** ** Helper lemmas *)

Lemma parse_Ok b p : parse b = Ok p → p = b ∧ (MIN_LEN ≤ length b)%nat.
Proof.
  unfold parse. destruct (length b <? MIN_LEN)%nat eqn:L; [done|].
  destruct (negb _); [done|]. intros [= <-]. apply Nat.ltb_ge in L. done.
Qed.

Lemma at_splice_out l a s i :
  (a + length s ≤ length l)%nat → (i < a ∨ a + length s ≤ i)%nat →
  at_ (splice l a s) i = at_ l i.
Proof. intros. unfold at_. by rewrite splice_lookup_out. Qed.

Lemma at_splice_in l a s i :
  (a + length s ≤ length l)%nat → (i < length s)%nat → at_ (splice l a s) (a + i) = at_ s i.
Proof. intros. unfold at_. by rewrite splice_lookup_in. Qed.

Lemma set_giaddr_giaddr p a :
  (MIN_LEN ≤ length p)%nat → addr_ok a → giaddr (set_giaddr p a) = a.
Proof.
  intros Hl Ha. unfold giaddr, set_giaddr, addr_at.
  replace GIADDR_OFF with (GIADDR_OFF + 0)%nat at 2 by lia.
  unfold MIN_LEN, GIADDR_OFF in *.
  rewrite !at_splice_in by (cbn; lia). by apply addr_new_octets.
Qed.

Lemma set_hops_length p h : (MIN_LEN ≤ length p)%nat → length (set_hops p h) = length p.
Proof. intros. apply length_splice. unfold MIN_LEN in *. cbn. lia. Qed.

Lemma set_hops_giaddr p h : (MIN_LEN ≤ length p)%nat → giaddr (set_hops p h) = giaddr p.
Proof.
  intros. unfold giaddr, set_hops, addr_at, GIADDR_OFF, MIN_LEN in *.
  by rewrite !at_splice_out by (cbn; lia).
Qed.

Lemma set_hops_hops p h : (MIN_LEN ≤ length p)%nat → hops (set_hops p h) = h.
Proof.
  intros. unfold hops, set_hops. change 3%nat with (3 + 0)%nat at 2. unfold MIN_LEN in *.
  by rewrite at_splice_in by (cbn; lia).
Qed.

Lemma set_giaddr_hops p a : (MIN_LEN ≤ length p)%nat → hops (set_giaddr p a) = hops p.
Proof.
  intros. unfold hops, set_giaddr, GIADDR_OFF, MIN_LEN in *. by rewrite at_splice_out by (cbn; lia).
Qed.

(** *** The option area as items *)

Inductive Item := Pad | Opt (c : Z) (v : list Z).

Definition item_ok (it : Item) : Prop :=
  match it with Pad => True | Opt c v => 0 < c < 255 ∧ (length v ≤ 255)%nat end.
Definition encode_item (it : Item) : list Z :=
  match it with Pad => [0] | Opt c v => c :: Z.of_nat (length v) :: v end.
Definition encode_items (its : list Item) : list Z := its ≫= encode_item.
Definition item_match (code len : Z) (it : Item) : option (list Z) :=
  match it with
  | Opt c v => if (c =? code) && (Z.of_nat (length v) =? len) then Some v else None
  | Pad => None
  end.

Lemma option_loop_items fuel pre its tail code len :
  Forall item_ok its → (length (encode_items its) < fuel)%nat →
  option_loop fuel (pre ++ encode_items its ++ 255 :: tail) (length pre) code len
  = head (omap (item_match code len) its).
Proof.
  revert fuel pre. induction its as [|it its IH]; intros fuel pre Hok Hf.
  - destruct fuel as [|f]; [cbn in Hf; lia|]. cbn [encode_items mbind list_bind app option_loop].
    rewrite list_lookup_middle by done. done.
  - apply list.Forall_cons in Hok as [Hit Hok].
    assert (encode_items (it :: its) = encode_item it ++ encode_items its) as Henc by done.
    rewrite Henc, <-app_assoc in *. rewrite length_app in Hf.
    destruct fuel as [|f]; [lia|]. destruct it as [|c v]; cbn [encode_item] in *.
    + cbn [option_loop app omap list_omap item_match]. rewrite list_lookup_middle by done.
      change (0 =? 0) with true. cbv iota.
      rewrite (cons_middle 0), app_assoc.
      replace (length pre + 1)%nat with (length (pre ++ [0])) by (rewrite length_app; cbn; lia).
      apply IH; [done|cbn in Hf; lia].
    + destruct Hit as [Hc Hv]. cbn [option_loop app omap list_omap item_match].
      rewrite list_lookup_middle by done.
      rewrite (proj2 (Z.eqb_neq c 0)), (proj2 (Z.eqb_neq c 255)) by lia.
      rewrite (cons_middle c), app_assoc.
      replace (length pre + 1)%nat with (length (pre ++ [c])) by (rewrite length_app; cbn; lia).
      rewrite list_lookup_middle by done. cbn [mbind option_bind]. rewrite Nat2Z.id.
      rewrite (cons_middle (Z.of_nat _)), app_assoc.
      set (pre2 := (pre ++ [c]) ++ [Z.of_nat (length v)]).
      assert (length pre + 2 = length pre2)%nat as -> by (unfold pre2; rewrite !length_app; cbn; lia).
      rewrite slice_ok by (rewrite !length_app; lia). cbn [mbind option_bind].
      replace (length pre2 + length v - length pre2)%nat with (length v) by lia.
      rewrite drop_app_length, take_app_length.
      destruct ((c =? code) && _); [done|].
      rewrite app_assoc.
      replace (length pre2 + length v)%nat with (length (pre2 ++ v)) by (rewrite length_app; lia).
      apply IH; [done|]. cbn in Hf. lia.
Qed.

(** More fuel than the length of the area changes nothing: the scan always ends by itself. *)
Lemma option_loop_fuel f extra opts i code len :
  (length opts - i < f)%nat →
  option_loop (f + extra) opts i code len = option_loop f opts i code len.
Proof.
  revert i. induction f as [|f IH]; intros i Hf; [lia|]. cbn [Nat.add option_loop].
  destruct (opts !! i) as [c|] eqn:E; [|done]. apply lookup_lt_Some in E.
  destruct (c =? 0); [apply IH; lia|]. destruct (c =? 255); [done|].
  destruct (opts !! (i + 1)%nat) as [l|]; [|done]. cbn [mbind option_bind].
  destruct (slice opts (i + 2) _) as [v|]; [|done]. cbn [mbind option_bind].
  destruct (_ && _); [done|]. apply IH. lia.
Qed.

(** *** Counting lines *)

Definition is_out_of_prefix (l : RelayLine) : bool :=
  match l with ROutOfPrefix _ _ => true | _ => false end.
Definition is_ack_refused (l : RelayLine) : bool :=
  match l with RAckRefused _ _ => true | _ => false end.
Definition count (p : RelayLine → bool) (l : list RelayLine) : nat := length (List.filter p l).

Lemma count_app p l l' : count p (l ++ l') = (count p l + count p l')%nat.
Proof. unfold count. by rewrite List.filter_app, length_app. Qed.

(** The steps of [serve]. *)
Inductive RelayStep :=
| SPoll (now : option Z)
| SClient (recv : result string (list Z)) (send : Ipv4Addr * Z → list Z → result string unit)
| SServer (recv : result string (list Z * option Ipv4Addr))
    (send : Ipv4Addr * Z → list Z → result string unit) (now : Instant).

Definition relay_step (row : RelayRow) (st : RelayStep) (w : RelayWorld)
    : RelayWorld * option string :=
  match st with
  | SPoll now => poll_step row now w
  | SClient recv send => client_step row recv send w
  | SServer recv send now => server_step row recv send now w
  end.

(** The worlds one [serve] call goes through: it starts with its locals reset. *)
Inductive served (row : RelayRow) (w0 : RelayWorld) (b : option Z) : RelayWorld → Prop :=
| served_start : served row w0 b (with_sv (serve_start b) w0)
| served_step w st w' : served row w0 b w → relay_step row st w = (w', None) → served row w0 b w'.

(** Each fixed-reason line printed is accounted for by its flag. *)
Definition lines_ok (w0 w : RelayWorld) : Prop :=
  count is_out_of_prefix (journal w)
    = (count is_out_of_prefix (journal w0) + if prefix_drop_logged (sv w) then 1 else 0)%nat ∧
  count is_ack_refused (journal w)
    = (count is_ack_refused (journal w0) + if ack_refused_logged (sv w) then 1 else 0)%nat.

Lemma learn_lines row pkt now w0 w : lines_ok w0 w → lines_ok w0 (learn row pkt now w).
Proof.
  intros [H1 H2]. unfold learn. destruct (ack_discovery _ _ _) as [y m lease|a|]; [| |done].
  - destruct (upsert _ _ _ _ _ _ _ _) as [[t out] woke]. destruct out as [|[]]; [done| |done].
    unfold lines_ok. cbn [journal sv note_event say with_tbl].
    rewrite !count_app. cbn [count List.filter is_out_of_prefix is_ack_refused length].
    by rewrite !Nat.add_0_r.
  - unfold should_log_fixed_reason_drop. unfold lines_ok.
    destruct (ack_refused_logged (sv w)) eqn:L;
      cbn [journal sv note_event say with_sv prefix_drop_logged ack_refused_logged];
      rewrite ?count_app, ?L; cbn [count]; split; try done; [by rewrite H1, Nat.add_0_r|].
    rewrite H2. cbn. lia.
Qed.

Lemma server_step_lines row recv send now w0 w :
  lines_ok w0 w → lines_ok w0 (server_step row recv send now w).1.
Proof.
  intros H. unfold server_step. destruct recv as [[dgram [src|]]|e]; [|done|done].
  destruct (forward_server _ _ _ _ _) as [to bytes|[]]; try done.
  - pose proof (learn_lines row (take BUF_LEN dgram) now w0 w H) as [H1 H2].
    set (w1 := learn _ _ _ _) in *. clearbody w1.
    destruct (send to bytes); [done|]. unfold lines_ok.
    destruct (should_log_once _ _); cbn [fst journal sv note_event say with_sv
      prefix_drop_logged ack_refused_logged]; rewrite ?count_app; cbn [count]; [|done].
    by rewrite !Nat.add_0_r.
  - destruct H as [H1 H2]. unfold should_log_fixed_reason_drop, lines_ok.
    destruct (prefix_drop_logged (sv w)) eqn:L;
      cbn [fst journal sv note_event say with_sv prefix_drop_logged ack_refused_logged];
      rewrite ?count_app, ?L; split; try done; [|by rewrite H2, Nat.add_0_r].
    rewrite H1. cbn. lia.
Qed.

Lemma relay_step_lines row st w0 w :
  lines_ok w0 w → lines_ok w0 (relay_step row st w).1.
Proof.
  intros H. destruct st as [now|recv send|recv send now]; cbn [relay_step].
  - unfold poll_step. destruct (baseline (sv w)), now; try done; by case_match.
  - unfold client_step. destruct recv as [dgram|e]; [|done].
    destruct (forward_client _ _ _) as [to bytes|]; [|done]. destruct (send to bytes); [done|].
    destruct H as [H1 H2]. unfold lines_ok.
    destruct (should_log_once _ _); cbn [fst journal sv note_event say with_sv
      prefix_drop_logged ack_refused_logged]; rewrite ?count_app; [|done].
    by rewrite !Nat.add_0_r.
  - by apply server_step_lines.
Qed.

Lemma served_lines row w0 b w : served row w0 b w → lines_ok w0 w.
Proof.
  induction 1 as [|w st w' _ IH Hs].
  - unfold lines_ok. cbn. by rewrite !Nat.add_0_r.
  - pose proof (relay_step_lines row st w0 w IH) as H. by rewrite Hs in H.
Qed.

(** ** What the relay promises *)

(** A client packet is forwarded only with its own giaddr empty or this leg's and fewer than
    sixteen hops; the forwarded packet has the same length, differs only in the hop count and
    the four giaddr bytes, counts one hop more, carries the leg as giaddr, and goes to the
    declared server's port 67. *)
Theorem forward_client_touches_two_fields pkt leg server to bytes :
  addr_ok leg → forward_client pkt leg server = Forward to bytes →
  to = (server, PORT) ∧ op pkt = BOOTREQUEST ∧ (giaddr pkt = UNSPECIFIED ∨ giaddr pkt = leg) ∧
  hops pkt < 16 ∧ hops bytes = hops pkt + 1 ∧ giaddr bytes = leg ∧
  length bytes = length pkt ∧
  ∀ i, i ≠ 3%nat → (i < GIADDR_OFF ∨ GIADDR_OFF + 4 ≤ i)%nat → bytes !! i = pkt !! i.
Proof.
  intros Hleg. unfold forward_client. destruct (parse pkt) as [p|] eqn:P; [|done].
  apply parse_Ok in P as [-> Hl].
  destruct (op pkt =? BOOTREQUEST) eqn:O; [|done]. cbn [negb].
  destruct (negb (is_unspecified (giaddr pkt)) && negb (giaddr pkt =? leg)) eqn:G; [done|].
  destruct (16 <=? hops pkt) eqn:H; [done|]. intros [= <- <-]. split_bools.
  pose proof (set_hops_length pkt (hops pkt + 1) Hl) as Hl2.
  assert (Hlen4 : (GIADDR_OFF + length (octets leg) ≤ length (set_hops pkt (hops pkt + 1)))%nat)
    by (rewrite Hl2; unfold MIN_LEN, GIADDR_OFF in *; cbn; lia).
  assert (Hout : ∀ i, i ≠ 3%nat → set_hops pkt (hops pkt + 1) !! i = pkt !! i).
  { intros i Hi. unfold set_hops. apply splice_lookup_out; unfold MIN_LEN in *; cbn; lia. }
  unfold is_unspecified in *. destruct (giaddr pkt =? UNSPECIFIED) eqn:U; split_bools.
  - split_and!; try done; [by left|..].
    + rewrite set_giaddr_hops by (by rewrite Hl2). by apply set_hops_hops.
    + apply set_giaddr_giaddr; [by rewrite Hl2|done].
    + unfold set_giaddr. by rewrite length_splice.
    + intros i Hi Ho. unfold set_giaddr. rewrite splice_lookup_out; [by apply Hout|done|].
      cbn [length octets]. unfold GIADDR_OFF in *. lia.
  - assert (giaddr pkt = leg) as Hg.
    { cbn in G. apply negb_false_iff in G. by split_bools. }
    split_and!; try done; [by right|..].
    + by apply set_hops_hops.
    + by rewrite set_hops_giaddr.
    + intros i Hi _. by apply Hout.
Qed.

(** C12. A server packet reaches the client socket only unchanged, from the declared server, as a
    reply carrying this leg's giaddr, with every address it grants inside the row's prefix; it
    goes to the client's own address inside the prefix, or to the broadcast address. *)
Theorem forward_server_trusted pkt src leg server prefix to bytes :
  forward_server pkt src leg server prefix = Forward to bytes →
  bytes = pkt ∧ op pkt = BOOTREPLY ∧ src = server ∧ giaddr pkt = leg ∧
  (yiaddr pkt = UNSPECIFIED ∨ contains prefix (yiaddr pkt) = true) ∧
  to.2 = CLIENT_PORT ∧
  ((ciaddr pkt = UNSPECIFIED ∧ to.1 = BROADCAST) ∨
   (to.1 = ciaddr pkt ∧ contains prefix (to.1) = true)).
Proof.
  unfold forward_server. destruct (parse pkt) as [p|] eqn:P; [|done].
  apply parse_Ok in P as [-> Hl].
  destruct (op pkt =? BOOTREPLY) eqn:O; [|done]. destruct (src =? server) eqn:S; [|done].
  destruct (giaddr pkt =? leg) eqn:G; [|done]. cbn [negb].
  unfold is_unspecified.
  destruct (ciaddr pkt =? UNSPECIFIED) eqn:C; cbn [negb andb];
    [|destruct (contains prefix (ciaddr pkt)) eqn:CP; cbn [negb]; [|done]];
  (destruct (yiaddr pkt =? UNSPECIFIED) eqn:Y; cbn [negb andb];
    [|destruct (contains prefix (yiaddr pkt)) eqn:YP; cbn [negb]; [|done]]);
  intros [= <- <-]; split_bools; cbn [fst snd]; auto 10.
Qed.

(** The scan of the option area returns the first option of the wanted code and length, over
    any sequence of pads and options an end marker closes, and always ends by itself: no area,
    however malformed, needs more turns than it has bytes. *)
Theorem option_scan_correct p its tail code len extra :
  options_of p = encode_items its ++ 255 :: tail → Forall item_ok its →
  option_of p code len = head (omap (item_match code len) its) ∧
  ∀ q : Bootp, option_loop (S (length (options_of q)) + extra) (options_of q) 0 code len
               = option_of q code len.
Proof.
  intros Ho Hok. unfold option_of. split.
  - rewrite Ho. apply (option_loop_items _ [] its); [done|]. rewrite length_app. cbn. lia.
  - intros q. apply option_loop_fuel. lia.
Qed.

Lemma forward_server_source pkt src leg server prefix to bytes :
  forward_server pkt src leg server prefix = Forward to bytes → src = server.
Proof.
  unfold forward_server. destruct (parse pkt); [|done]. destruct (negb _); [done|].
  destruct (src =? server) eqn:S; [|done]. by split_bools.
Qed.

(** Admission changes at most the one entry it names. *)
Lemma upsert_lookup g row lg addr m ex cap now g' out woke k :
  upsert g row lg addr m ex cap now = (g', out, woke) →
  entries g' !! k = entries g !! k ∨
  k = (row, addr) ∧ entries g' !! k = Some (mk_entry lg m ex true).
Proof.
  unfold upsert. destruct (entries g !! (row, addr)) as [e|] eqn:E; [|case_match];
    intros [= <- _ _]; cbn; try (by left);
    (destruct (decide (k = (row, addr))) as [->|];
     [right; by rewrite lookup_insert_eq|left; by rewrite lookup_insert_ne]).
Qed.

Lemma ack_discovered pkt prefix fabric y m lease :
  ack_discovery pkt prefix fabric = AckDiscovered y m lease →
  contains prefix y = true ∧ y ≠ net prefix ∧ y ≠ broadcast prefix ∧ y ∉ fabric.
Proof.
  unfold ack_discovery. destruct (parse pkt) as [p|]; [|done].
  destruct (negb (opt_eqb _ _)); [done|]. destruct (_ || negb _) eqn:C; [done|].
  destruct (bool_decide _ || _ || _) eqn:F; [done|]. destruct (chaddr6 p); [|done].
  intros [= <- _ _]. by split_bools.
Qed.

(** What one datagram from the server side can put into the neighbour table: a claim the
    table did not hold already is this row's, on its leg, for an address inside the row's prefix
    that is neither its network nor its broadcast address nor one the fabric owns, for a lease
    of at least a minute and at most a day, and came from the declared server. *)
Theorem server_step_claims row recv send now w w' why k e :
  server_step row recv send now w = (w', why) →
  entries (tbl w') !! k = Some e →
  entries (tbl w) !! k = Some e ∨
  ∃ dgram, recv = Ok (dgram, Some (dhcp_server row)) ∧
    k.1 = rr_name row ∧ leg e = rr_leg row ∧ contains (rr_prefix row) k.2 = true ∧
    k.2 ≠ net (rr_prefix row) ∧ k.2 ≠ broadcast (rr_prefix row) ∧
    (k.2 ∉ fabric_addresses row) ∧ now + MIN_LEASE ≤ expires_at e ≤ now + MAX_LEASE.
Proof.
  intros Hs He.
  assert (tbl w' = tbl w ∨ ∃ dgram src to bytes, recv = Ok (dgram, Some src) ∧
    forward_server (take BUF_LEN dgram) src (leg_addr row) (dhcp_server row) (rr_prefix row)
      = Forward to bytes ∧ tbl w' = tbl (learn row (take BUF_LEN dgram) now w)) as [Ht|Hl].
  { revert Hs. unfold server_step. destruct recv as [[dgram [src|]]|err];
      [|intros [= <- _]; by left..].
    destruct (forward_server _ _ _ _ _) as [to bytes|[]] eqn:F;
      try (intros [= <- _]; by left).
    - intros H. right. exists dgram, src, to, bytes. split; [done|]. split; [done|].
      destruct (send to bytes); [by injection H as <- _|].
      destruct (should_log_once _ _); by injection H as <- _.
    - destruct (should_log_fixed_reason_drop _) as [[] flag]; intros [= <- _]; by left. }
  { left. by rewrite <-Ht. }
  destruct Hl as (dgram & src & to & bytes & -> & F & Ht).
  apply forward_server_source in F as ->. rewrite Ht in He. clear Ht Hs.
  unfold learn in He. destruct (ack_discovery _ _ _) as [y m lease|a|] eqn:A; [| |by left].
  2: { left. by destruct (should_log_fixed_reason_drop _) as [[] flag]. }
  destruct (upsert _ _ _ _ _ _ _ _) as [[t out] woke] eqn:U.
  assert (entries t !! k = Some e) as Hk by (destruct out as [|[]]; done).
  apply upsert_lookup with (k := k) in U. rewrite Hk in U.
  destruct U as [U|[-> [= ->]]]; [by left|]. right. exists dgram. split; [done|].
  apply ack_discovered in A as (H1 & H2 & H3 & H4).
  cbn [fst snd leg expires_at]. split_and!; try done.
  - pose proof (clamp_between lease). lia.
  - pose proof (clamp_between lease). lia.
Qed.

(** The journal cannot be flooded through the two refusals an attacker words: whatever
    packets arrive during one [serve] call, each of the two sentences is printed at most once,
    and the flags say which was. *)
Theorem refusals_said_once row w0 b w :
  served row w0 b w →
  (count is_out_of_prefix (journal w) ≤ count is_out_of_prefix (journal w0) + 1)%nat ∧
  (count is_ack_refused (journal w) ≤ count is_ack_refused (journal w0) + 1)%nat.
Proof.
  intros [H1 H2]%served_lines. rewrite H1, H2.
  split; [destruct (prefix_drop_logged _)|destruct (ack_refused_logged _)]; lia.
Qed.

(** A leg rebuilt under the relay is noticed at the next poll, and only a rebuild is: with a
    known baseline a poll ends [serve] exactly when it reads anything else; without one it adopts
    the first reading, and a leg that is never readable ends it at the fifth poll. *)
Theorem rebuild_is_noticed row w now :
  (∀ b, baseline (sv w) = Some b →
     (is_Some (poll_step row now w).2 ↔ now ≠ Some b) ∧
     baseline (sv (poll_step row now w).1) = Some b) ∧
  (∀ n, baseline (sv w) = None → now = Some n →
     (poll_step row now w).2 = None ∧ baseline (sv (poll_step row now w).1) = Some n) ∧
  (baseline (sv w) = None → now = None →
     baseline (sv (poll_step row now w).1) = None ∧
     unknown_polls (sv (poll_step row now w).1) = unknown_polls (sv w) + 1 ∧
     (is_Some (poll_step row now w).2 ↔ 5 ≤ unknown_polls (sv w) + 1)).
Proof.
  unfold poll_step, opt_eqb. split; [|split].
  - intros b Hb. rewrite Hb. case_bool_decide as Hn; cbn.
    + split; [|done]. split; [by intros [? ?]|done].
    + split; [|by rewrite Hb]. split; [done|eauto].
  - intros n -> ->. done.
  - intros -> ->. unfold UNKNOWN_BASELINE_LIMIT. destruct (5 <=? _) eqn:L; split_bools; cbn.
    + split_and!; [done..|]. split; [done|eauto].
    + split_and!; [done..|]. split; [by intros [? ?]|lia].
Qed.

(** A bind that is trusted has an identity that held across it: the ifindex read before the
    bind and the one read after it agree, and are the baseline; at most three binds are tried. *)
Theorem bind_baseline_agrees {Sk} row reader (bind : nat → result string Sk) socks b :
  bind_pair_with_baseline_via row reader bind = Ok (socks, b) →
  ∃ k, (k < BASELINE_BIND_ATTEMPTS)%nat ∧ bind k = Ok socks ∧ reader k = b ∧ reader (k + 1)%nat = b.
Proof.
  unfold bind_pair_with_baseline_via.
  assert (∀ n k pre, pre = reader k →
    bind_attempts n reader bind k pre (rr_leg row) = Ok (socks, b) →
    ∃ j, (k ≤ j < k + n)%nat ∧ bind j = Ok socks ∧ reader j = b ∧ reader (j + 1)%nat = b) as H.
  { intros n. induction n as [|n IH]; intros k pre Hp; cbn [bind_attempts]; [done|].
    destruct (bind k) as [s|e] eqn:B; [|done]. unfold opt_eqb. case_bool_decide as Hd.
    - intros [= <- <-]. exists k. split_and!; [lia|lia|done|congruence|done].
    - intros Hb. destruct (IH (k + 1)%nat _ eq_refl Hb) as (j & ? & ?).
      exists j. split; [lia|done]. }
  intros Hb. destruct (H _ _ _ eq_refl Hb) as (j & ? & ? & ? & ?). exists j.
  split_and!; [lia|done..].
Qed.

(** ** Concrete packets *)

Definition vm_mac : Mac := [82; 84; 0; 18; 52; 86].
Definition leg_ip : Ipv4Addr := addr_new 10 0 100 1.
Definition dhcpd : Ipv4Addr := addr_new 10 0 5 2.
(** A message with the given op, hops, yiaddr, giaddr and options. *)
Definition message (o h : Z) (y g : Ipv4Addr) (opts : list Z) : list Z :=
  [o; 1; 6; h] ++ zeros 12 ++ octets y ++ zeros 4 ++ octets g ++ vm_mac ++ zeros 202
    ++ MAGIC_COOKIE ++ opts.
Definition discover : list Z := message BOOTREQUEST 0 0 0 [53; 1; 1; 255].
Definition vm_ip : Ipv4Addr := addr_new 10 0 100 50.
Definition ack_opts : list Z := [0; 53; 1; 5; 51; 4; 0; 0; 14; 16; 255].
Definition ack (y : Ipv4Addr) : list Z := message BOOTREPLY 0 y leg_ip ack_opts.
Definition vms_row : RelayRow :=
  {| rr_name := "vms"; rr_leg := "cfab-work-vms"; leg_addr := leg_ip; dhcp_server := dhcpd;
     rr_prefix := mk_prefix (addr_new 10 0 100 0) 24; fabric_addresses := {[ leg_ip ]} |}.
Definition world0 : RelayWorld :=
  mk_world (serve_start (Some 7)) ∅ inner_default {| gc_thresh3 := 1024; rows := 1 |} [].
Definition sent_ok : Ipv4Addr * Z → list Z → result string unit := λ _ _, Ok tt.

Lemma forward_client_witness :
  ∃ bytes, forward_client discover leg_ip dhcpd = Forward (dhcpd, PORT) bytes ∧
    hops bytes = 1 ∧ giaddr bytes = leg_ip.
Proof.
  eexists. split; [reflexivity|].
  match goal with |- hops ?b = _ ∧ _ =>
    destruct (forward_client_touches_two_fields discover leg_ip dhcpd (dhcpd, PORT) b)
      as (_ & _ & _ & _ & Hh & Hg & _) end.
  - vm_compute. split; congruence.
  - reflexivity.
  - split; [rewrite Hh; reflexivity|exact Hg].
Defined.

Lemma forward_server_witness :
  ∃ bytes, forward_server (ack vm_ip) dhcpd leg_ip dhcpd (rr_prefix vms_row)
           = Forward (BROADCAST, CLIENT_PORT) bytes ∧ bytes = ack vm_ip.
Proof.
  eexists. split; [vm_compute; reflexivity|].
  eapply (forward_server_trusted (ack vm_ip) dhcpd leg_ip dhcpd (rr_prefix vms_row)).
  vm_compute. reflexivity.
Defined.

Lemma option_scan_witness :
  option_of (ack vm_ip) 51 4 = Some [0; 0; 14; 16].
Proof.
  transitivity (head (omap (item_match 51 4) [Pad; Opt 53 [5]; Opt 51 [0; 0; 14; 16]]));
    [|reflexivity].
  apply (option_scan_correct (ack vm_ip) [Pad; Opt 53 [5]; Opt 51 [0; 0; 14; 16]] [] 51 4 0);
    [vm_compute; reflexivity|repeat constructor; lia].
Defined.

Definition after_ack : RelayWorld :=
  (server_step vms_row (Ok (ack vm_ip, Some dhcpd)) sent_ok 0 world0).1.
Lemma server_claims_witness :
  ∃ e, entries (tbl after_ack) !! ("vms", vm_ip) = Some e ∧ leg e = "cfab-work-vms".
Proof.
  assert (entries (tbl after_ack) !! ("vms", vm_ip)
    = Some (mk_entry "cfab-work-vms" vm_mac (from_secs 3600) true)) as H
    by (vm_compute; reflexivity).
  eexists. split; [exact H|].
  destruct (server_step_claims vms_row (Ok (ack vm_ip, Some dhcpd)) sent_ok 0 world0 after_ack
    None ("vms", vm_ip) _ ltac:(vm_compute; reflexivity) H) as [E|(d & _ & _ & E & _)];
    [vm_compute in E; discriminate|exact E].
Defined.

(** Two forged replies naming two addresses outside the prefix: one line. *)
Definition forged (n : Z) : RelayStep :=
  SServer (Ok (message BOOTREPLY 0 (addr_new 192 168 0 n) leg_ip ack_opts, Some dhcpd)) sent_ok 0.
Definition after_forged : RelayWorld :=
  (relay_step vms_row (forged 2) (relay_step vms_row (forged 1) world0).1).1.
Lemma said_once_witness :
  count is_out_of_prefix (journal after_forged) = 1%nat ∧
  (count is_out_of_prefix (journal after_forged) ≤ 0 + 1)%nat.
Proof.
  split; [vm_compute; reflexivity|].
  apply (refusals_said_once vms_row world0 (Some 7) after_forged).
  apply (served_step _ _ _ (relay_step vms_row (forged 1) world0).1 (forged 2));
    [|vm_compute; reflexivity].
  apply (served_step _ _ _ world0 (forged 1)); [|vm_compute; reflexivity].
  apply (served_start vms_row world0 (Some 7)).
Defined.

Lemma bind_baseline_witness :
  ∃ k, (k < 3)%nat ∧ (λ k : nat, match k with O => Some 4 | _ => Some 5 end) k = Some 5.
Proof.
  destruct (bind_baseline_agrees vms_row (λ k : nat, match k with O => Some 4 | _ => Some 5 end)
    (λ _ : nat, Ok tt) tt (Some 5) ltac:(vm_compute; reflexivity)) as (k & Hk & _ & Hr & _).
  exists k. split; [exact Hk|exact Hr].
Defined.

(** The wait for a leg always returns, at the deadline at the latest, and no later than the first
    look that finds the leg. *)
Lemma wait_loop_returns fuel reader k now deadline poll :
  0 < poll → now ≤ deadline → deadline - now ≤ Z.of_nat fuel * poll →
  ∃ t, wait_loop (S fuel) reader k now deadline poll = Some t ∧ now ≤ t ≤ deadline ∧
    (is_Some (reader k) → t = now).
Proof.
  intros Hp. revert k now. induction fuel as [|f IH]; intros k now Hn Hf.
  { exists now. assert (deadline = now) as -> by lia. cbn [wait_loop].
    rewrite Z.leb_refl. cbn [orb]. split; [done|]. split; [lia|done]. }
  cbn [wait_loop]. destruct ((deadline <=? now) || _) eqn:E.
  - exists now. split; [done|]. split; [lia|done].
  - split_bools. destruct (IH (k + 1)%nat (now + Z.min poll (deadline - now))) as (t & Ht & Hb & _);
      [lia|nia|].
    exists t. cbn [wait_loop] in Ht. split; [exact Ht|]. split; [lia|]. intros ?.
    by match goal with H : ¬ is_Some (reader k) |- _ => destruct H end.
Qed.
