(* ===== verification/Actor.v ===== *)
(** The flush actor (src/src/workload/actor.rs, and [write_argv] of src/src/workload/writer.rs).

    The one task of a member that forks [ip]: it drains the neighbour table at the pace a token
    bucket allows, and sweeps it against the kernel. The task is a state monad over a [World]:
    the actor's own fields, the shared table with its wakeup permit, the clock, and the trace of
    what the task did. Everything outside the task is an [ActorEnv]: at every point where the
    task reads the clock or takes the table's lock, time has moved on by what [env_move] says
    and the relays have admitted the claims it lists, so an execution is one interleaving of the
    actor with its clients and a theorem for every [ActorEnv] holds for all of them. *)
From Stdlib Require Import Ascii String.
From S2P Require Import Prelude Text Sys Net EngineState NeighTable Relay.
Local Open Scope Z_scope.

(** ** Constants *)

Definition REFILL_PER_SEC : Z := 10.
Definition BURST : Z := 32.
Definition SWEEP : Duration := from_secs 15.
Definition EXPIRY_LOG_WINDOW : Duration := from_secs 60.
Definition TOKEN_INTERVAL : Duration := from_millis (1000 / REFILL_PER_SEC).
Definition READ_ARGV : list string := ["ip"; "-j"; "neigh"; "show"; "nud"; "all"]%string.

(** ** The writer's argv *)

Inductive WriteVerb := Add | Replace.

Definition ip_verb (v : WriteVerb) : string :=
  match v with Add => "add" | Replace => "replace" end.

Definition write_argv (verb : WriteVerb) (addr : Ipv4Addr) (m : Mac) (lg : string) : list string :=
  ["ip"; "neigh"; ip_verb verb; show_addr addr; "lladdr"; mac_str m; "dev"; lg; "nud"; "stale"]%string.


(** ** Reading the kernel *)

(** [Class]: what the actor does with one entry. *)
Inductive NeighborClass := ClassAdd | ClassReplace | ClassSkip.

(** The write a class calls for, if any. *)
Definition verb_of (c : NeighborClass) : option WriteVerb :=
  match c with
  | ClassAdd => Some Add
  | ClassReplace => Some Replace
  | ClassSkip => None
  end.

Definition KernelNeighbors := gmap (string * Ipv4Addr) bool.

(** One turn of the [for e in arr] loop of [parse]: the map, and how many were understood. *)
Definition parse_entry (acc : KernelNeighbors * nat) (e : Value) : KernelNeighbors * nat :=
  let '(by_key, understood) := acc in
  match as_str (index e "dst") with
  | None => acc
  | Some dst =>
      let understood := S understood in
      match parse_addr dst, as_str (index e "dev") with
      | Some dst, Some dev =>
          (<[(dev, dst) := bool_decide (is_Some (as_str (index e "lladdr")))]> by_key, understood)
      | _, _ => (by_key, understood)
      end
  end.

Definition kernel_of (arr : list Value) : option KernelNeighbors :=
  let '(by_key, understood) := foldl parse_entry (∅, O) arr in
  if (understood =? 0)%nat && negb (length arr =? 0)%nat then None else Some by_key.

(** [KernelNeighbors::parse], given what [serde_json] made of the text. *)
Definition kernel_parse (doc : option Value) : option KernelNeighbors :=
  match doc with
  | Some (Arr arr) => kernel_of arr
  | _ => None
  end.

Definition classify (k : KernelNeighbors) (lg : string) (addr : Ipv4Addr) : NeighborClass :=
  match k !! (lg, addr) with
  | None => ClassAdd
  | Some true => ClassSkip
  | Some false => ClassReplace
  end.

(** ** The token bucket *)

Record Bucket := mk_bucket { tokens : Z; next_token_at : Instant }.

Definition bucket_new (now : Instant) : Bucket := mk_bucket BURST (now + TOKEN_INTERVAL).

(** The [while] loop of [refill]: it runs at most once per missing token, so that many turns
    are fuel enough. *)
Fixpoint refill_loop (fuel : nat) (b : Bucket) (now : Instant) : Bucket :=
  match fuel with
  | O => b
  | S f =>
      if (tokens b <? BURST) && (next_token_at b <=? now)
      then refill_loop f (mk_bucket (tokens b + 1) (next_token_at b + TOKEN_INTERVAL)) now
      else b
  end.

Definition refill (b : Bucket) (now : Instant) : Bucket :=
  let b := refill_loop (Z.to_nat (BURST - tokens b)) b now in
  if (BURST <=? tokens b) && (next_token_at b <=? now)
  then mk_bucket (tokens b) (now + TOKEN_INTERVAL) else b.

Definition level (b : Bucket) (now : Instant) : Bucket * Z :=
  let b := refill b now in (b, tokens b).

Definition spend (b : Bucket) (now : Instant) : Bucket * bool :=
  let b := refill b now in
  if tokens b =? 0 then (b, false) else (mk_bucket (tokens b - 1) (next_token_at b), true).

Definition wait_for (b : Bucket) (now : Instant) (want : Z) : Bucket * Duration :=
  let b := refill b now in
  if want <=? tokens b then (b, 0)
  else
    let need := want - tokens b in
    (b, saturating_since (next_token_at b) now + TOKEN_INTERVAL * (need - 1)).

(** ** The actor's state *)

Inductive Batch := Idle | ReadFailed | Drained.
Inductive Sweep := SweepReadFailed | Diffed (dirtied expired : nat).
Inductive Step := Swept (s : Sweep) | DrainBatch (b : Batch).

(** A counter is a [u64]; none can reach its end at [REFILL_PER_SEC] events a second. *)
Record Counts := mk_counts {
  read_failures : Z; writes : Z; write_failures : Z; skips : Z; expiries : Z
}.
Record RowCounts := mk_row_counts {
  r_writes : Z; r_write_failures : Z; r_skips : Z; r_expiries : Z
}.
Definition row_counts_default : RowCounts := mk_row_counts 0 0 0 0.

Record FlushActor := mk_actor {
  bucket : Bucket;
  read_failing : bool;
  write_failing : gset string;
  expiring : gmap string Instant;
  next_sweep : Instant;
  counts : Counts;
  per_row : gmap string RowCounts;
  has_shared : bool
}.

Definition actor_new (now : Instant) (shared : bool) : FlushActor :=
  mk_actor (bucket_new now) false ∅ ∅ (now + SWEEP) (mk_counts 0 0 0 0 0) ∅ shared.

(** The rows and the host half [publish] hands to [Shared]. *)
Record NeighborRowInfo := {
  ni_name : string; ni_table_size : Z; ni_writes : Z; ni_write_failures : Z;
  ni_read_failures : Z; ni_cap_refusals : Z; ni_expiries : Z; ni_skips : Z
}.
Record NeighborActorInfo := {
  ai_dirty_depth : Z; ai_oldest_dirty_age : option Duration; ai_token_level : Z
}.

(** ** The trace *)

Inductive ActorLine :=
| ReadFailedLine (why : string)
| WriteFailedLine (row : string) (addr : Ipv4Addr) (why : string)
| ExpiredLine (noted : Instant) (counted : nat) (rows : list string).

Inductive Event :=
| EvBatchStart
| EvWaitDecision
| EvTokenSpend
| EvJournal (at_ : Instant) (l : ActorLine)
| EvFork (argv : list string).

(** ** The world the task runs in *)

(** A claim a relay admits while the actor is elsewhere. *)
Record Relayed := {
  ry_row : string; ry_leg : string; ry_addr : Ipv4Addr; ry_mac : Mac;
  ry_expires : Instant; ry_cap : RowCap; ry_now : Instant
}.
Record EnvMove := { mv_time : N; mv_relayed : list Relayed }.

Class ActorEnv := {
  env_move : nat → EnvMove;
  io_run : nat → list string → result Error Output;
  json_from_str : string → option Value
}.

Record World := mk_w {
  w_now : Instant;
  w_table : Inner;
  w_permit : bool;
  w_actor : FlushActor;
  w_tick : nat;
  w_events : list Event;
  w_published : option (list NeighborRowInfo * NeighborActorInfo)
}.

Definition set_now (t : Instant) (w : World) : World :=
  mk_w t (w_table w) (w_permit w) (w_actor w) (w_tick w) (w_events w) (w_published w).
Definition set_permit (p : bool) (w : World) : World :=
  mk_w (w_now w) (w_table w) p (w_actor w) (w_tick w) (w_events w) (w_published w).
Definition set_actor (a : FlushActor) (w : World) : World :=
  mk_w (w_now w) (w_table w) (w_permit w) a (w_tick w) (w_events w) (w_published w).
Definition set_published (p : list NeighborRowInfo * NeighborActorInfo) (w : World) : World :=
  mk_w (w_now w) (w_table w) (w_permit w) (w_actor w) (w_tick w) (w_events w) (Some p).

(** An operation of the table, with the wakeup it sends. *)
Definition set_table (g : Inner) (woke : bool) (w : World) : World :=
  mk_w (w_now w) g (w_permit w || woke) (w_actor w) (w_tick w) (w_events w) (w_published w).
Definition add_event (e : Event) (w : World) : World :=
  mk_w (w_now w) (w_table w) (w_permit w) (w_actor w) (w_tick w) (w_events w ++ [e])
    (w_published w).

Definition relay_one (gp : Inner * bool) (r : Relayed) : Inner * bool :=
  let '(g, _, woke) :=
    upsert gp.1 (ry_row r) (ry_leg r) (ry_addr r) (ry_mac r) (ry_expires r) (ry_cap r) (ry_now r)
  in (g, gp.2 || woke).

Definition relay_all (rs : list Relayed) (g : Inner) (p : bool) : Inner * bool :=
  foldl relay_one (g, p) rs.

(** What happened since the task last looked: the clock, and the relays. *)
Definition do_point (mv : EnvMove) (w : World) : World :=
  let '(g, p) := relay_all (mv_relayed mv) (w_table w) (w_permit w) in
  mk_w (w_now w + Z.of_N (mv_time mv)) g p (w_actor w) (S (w_tick w)) (w_events w)
    (w_published w).

Definition is_fork (e : Event) : bool := match e with EvFork _ => true | _ => false end.
Definition fork_count (es : list Event) : nat := length (filter is_fork es).

(** ** The monad: [None] is a loop that ran out of fuel *)

Definition M (A : Type) : Type := World → option (A * World).

Definition ret {A} (a : A) : M A := λ w, Some (a, w).
Definition bind {A B} (m : M A) (f : A → M B) : M B :=
  λ w, match m w with Some (a, w') => f a w' | None => None end.
Definition gets {A} (f : World → A) : M A := λ w, Some (f w, w).
Definition modify (f : World → World) : M unit := λ w, Some (tt, f w).

Notation "x <~ m ;; k" := (bind m (λ x, k))
  (at level 100, m at next level, k at level 200, right associativity) : cfab_scope.
Notation "m >>; k" := (bind m (λ _ : unit, k))
  (at level 100, k at level 200, right associativity) : cfab_scope.

(** [for x in l { body }], threading what the body computes. *)
Fixpoint forM {A B} (l : list A) (b : B) (f : B → A → M B) : M B :=
  match l with
  | [] => ret b
  | x :: l' => b' <~ f b x ;; forM l' b' f
  end.

(** ** The actor *)

Section actor.
Context `{ActorEnv}.

Definition point : M unit := λ w, Some (tt, do_point (env_move (w_tick w)) w).

(** [Instant::now()]. *)
Definition now_ : M Instant := point >>; gets w_now.

(** One acquisition of the table's lock. *)
Definition read_table {A} (f : Inner → A) : M A := point >>; gets (λ w, f (w_table w)).

Definition take_dirty (now : Instant) : M NextDirty :=
  point >>; λ w, let '(g, out) := take_next_dirty (w_table w) now in
                 Some (out, set_table g false w).
Definition put_dirty (row : string) (addr : Ipv4Addr) (now : Instant) : M (option string) :=
  point >>; λ w, let '(g, out, woke) := re_dirty (w_table w) row addr now in
                 Some (out, set_table g woke w).
Definition reap (now : Instant) : M (list string) :=
  point >>; λ w, let '(g, out) := remove_expired (w_table w) now in
                 Some (out, set_table g false w).

Definition sleep (d : Duration) : M unit := modify (λ w, set_now (w_now w + d) w).
Definition emit (e : Event) : M unit := modify (add_event e).
Definition journal_line (l : ActorLine) : M unit := modify (λ w, add_event (EvJournal (w_now w) l) w).

(** [self.io.run(argv)]. *)
Definition fork (argv : list string) : M (result Error Output) :=
  λ w, Some (io_run (fork_count (w_events w)) argv, add_event (EvFork argv) w).

Definition with_actor (f : FlushActor → FlushActor) : M unit :=
  modify (λ w, set_actor (f (w_actor w)) w).
Definition set_bucket (b : Bucket) (a : FlushActor) : FlushActor :=
  mk_actor b (read_failing a) (write_failing a) (expiring a) (next_sweep a) (counts a)
    (per_row a) (has_shared a).
Definition on_bucket {A} (f : Bucket → Instant → Bucket * A) (now : Instant) : M A :=
  λ w, let '(b, a) := f (bucket (w_actor w)) now in Some (a, set_actor (set_bucket b (w_actor w)) w).

(** [self.counts.<field> += 1], and the row's own counter. *)
Definition count_host (f : Counts → Counts) (a : FlushActor) : FlushActor :=
  mk_actor (bucket a) (read_failing a) (write_failing a) (expiring a) (next_sweep a)
    (f (counts a)) (per_row a) (has_shared a).
Definition count_row (row : string) (f : RowCounts → RowCounts) (a : FlushActor) : FlushActor :=
  mk_actor (bucket a) (read_failing a) (write_failing a) (expiring a) (next_sweep a) (counts a)
    (<[row := f (unwrap_or (per_row a !! row) row_counts_default)]> (per_row a)) (has_shared a).
Definition set_read_failing (v : bool) (a : FlushActor) : FlushActor :=
  mk_actor (bucket a) v (write_failing a) (expiring a) (next_sweep a) (counts a) (per_row a)
    (has_shared a).
Definition set_write_failing (s : gset string) (a : FlushActor) : FlushActor :=
  mk_actor (bucket a) (read_failing a) s (expiring a) (next_sweep a) (counts a) (per_row a)
    (has_shared a).
Definition set_expiring (m : gmap string Instant) (a : FlushActor) : FlushActor :=
  mk_actor (bucket a) (read_failing a) (write_failing a) m (next_sweep a) (counts a) (per_row a)
    (has_shared a).
Definition set_next_sweep (t : Instant) (a : FlushActor) : FlushActor :=
  mk_actor (bucket a) (read_failing a) (write_failing a) (expiring a) t (counts a) (per_row a)
    (has_shared a).

Definition count_read_failure (c : Counts) : Counts :=
  mk_counts (read_failures c + 1) (writes c) (write_failures c) (skips c) (expiries c).
Definition count_skip (row : string) (a : FlushActor) : FlushActor :=
  count_row row (λ r, mk_row_counts (r_writes r) (r_write_failures r) (r_skips r + 1) (r_expiries r))
    (count_host (λ c, mk_counts (read_failures c) (writes c) (write_failures c) (skips c + 1)
                        (expiries c)) a).
Definition count_write (row : string) (a : FlushActor) : FlushActor :=
  count_row row (λ r, mk_row_counts (r_writes r + 1) (r_write_failures r) (r_skips r) (r_expiries r))
    (count_host (λ c, mk_counts (read_failures c) (writes c + 1) (write_failures c) (skips c)
                        (expiries c)) a).
Definition count_write_failure (row : string) (a : FlushActor) : FlushActor :=
  count_row row (λ r, mk_row_counts (r_writes r) (r_write_failures r + 1) (r_skips r) (r_expiries r))
    (count_host (λ c, mk_counts (read_failures c) (writes c) (write_failures c + 1) (skips c)
                        (expiries c)) a).
Definition count_row_expiry (a : FlushActor) (row : string) : FlushActor :=
  count_row row (λ r, mk_row_counts (r_writes r) (r_write_failures r) (r_skips r) (r_expiries r + 1)) a.

(** [note_expiries]: the rows whose window has run out, in name order. *)
Definition fresh_rows (exp : gmap string Instant) (rows : list string) (now : Instant)
    : list string :=
  filter (λ row, is_none_or (exp !! row)
                   (λ last, EXPIRY_LOG_WINDOW <=? saturating_since now last))
    (btree_set_iter str_leb (list_to_set rows : gset string)).

Definition credit_expiries (rows : list string) (a : FlushActor) : FlushActor :=
  count_host (λ c, mk_counts (read_failures c) (writes c) (write_failures c) (skips c)
                     (expiries c + Z.of_nat (length rows)))
    (foldl count_row_expiry a rows).

Definition note_expiries (rows : list string) (now : Instant) : M unit :=
  with_actor (credit_expiries rows) >>;
  fresh <~ gets (λ w, fresh_rows (expiring (w_actor w)) rows now) ;;
  match fresh with
  | [] => ret tt
  | _ =>
      let counted := length (filter (λ r, r ∈ fresh) rows) in
      with_actor (λ a, set_expiring (foldl (λ m r, <[r := now]> m) (expiring a) fresh) a) >>;
      journal_line (ExpiredLine now counted fresh)
  end.

(** [wait_and_spend]; [WAIT_TURNS] turns of its loop are enough. *)
Fixpoint wait_and_spend_loop (fuel : nat) (want : Z) : M unit :=
  match fuel with
  | O => λ _, None
  | S f =>
      emit EvWaitDecision >>;
      now <~ now_ ;;
      wait <~ on_bucket (λ b t, wait_for b t want) now ;;
      if wait =? 0 then
        emit EvTokenSpend >>;
        now <~ now_ ;;
        spent <~ on_bucket spend now ;;
        if (spent : bool) then ret tt else wait_and_spend_loop f want
      else sleep wait >>; wait_and_spend_loop f want
  end.

Definition WAIT_TURNS : nat := 2.
Definition wait_and_spend (want : Z) : M unit := wait_and_spend_loop WAIT_TURNS want.

(** [format!("ip exited {}: {}", o.status, o.stderr.trim())]. *)
Definition exit_text (o : Output) : string :=
  ("ip exited " ++ show_signed (status o) ++ ": " ++ trim (stderr o))%string.

Definition read_outcome (r : result Error Output) : result string KernelNeighbors :=
  match r with
  | Ok o =>
      if output_ok o then
        match kernel_parse (json_from_str (stdout o)) with
        | Some d => Ok d
        | None => Err "cannot read the neighbor document"%string
        end
      else Err (exit_text o)
  | Err e => Err (display e)
  end.

Definition read_kernel : M (option KernelNeighbors) :=
  r <~ fork READ_ARGV ;;
  match read_outcome r with
  | Ok doc => with_actor (set_read_failing false) >>; ret (Some doc)
  | Err why =>
      with_actor (count_host count_read_failure) >>;
      failing <~ gets (λ w, read_failing (w_actor w)) ;;
      (if (failing : bool) then ret tt
       else with_actor (set_read_failing true) >>; journal_line (ReadFailedLine why)) >>;
      ret None
  end.

(** Why a write failed, if it did: every non-zero exit is a failure. *)
Definition write_failure (r : result Error Output) : option string :=
  match r with
  | Ok o => if output_ok o then None else Some (exit_text o)
  | Err e => Some (display e)
  end.

Definition write_landed (row : string) : M unit :=
  with_actor (λ a, set_write_failing (write_failing a ∖ {[row]}) (count_write row a)).

Definition write_failed (row : string) (addr : Ipv4Addr) (why : string) : M unit :=
  with_actor (count_write_failure row) >>;
  failing <~ gets (λ w, bool_decide (row ∈ write_failing (w_actor w))) ;;
  if (failing : bool) then ret tt
  else with_actor (λ a, set_write_failing (write_failing a ∪ {[row]}) a) >>;
       journal_line (WriteFailedLine row addr why).

(** The [while handled < BURST - 1] loop of [run_batch], with [n] entries still allowed: the
    keys to put back and the rows dropped. *)
Fixpoint batch_loop (n : nat) (doc : KernelNeighbors) (seen : gset Key) (put_back : list Key)
    (dropped : list string) : M (list Key * list string) :=
  match n with
  | O => ret (put_back, dropped)
  | S n =>
      now <~ now_ ;;
      next <~ take_dirty now ;;
      let dropped := dropped ++ expired next in
      match taken next with
      | None => ret (put_back, dropped)
      | Some t =>
          let key := (t_row t, t_addr t) in
          if bool_decide (key ∈ seen) then batch_loop n doc seen (put_back ++ [key]) dropped
          else
            let seen := seen ∪ {[key]} in
            match verb_of (classify doc (t_leg t) (t_addr t)) with
            | None =>
                with_actor (count_skip (t_row t)) >>; batch_loop n doc seen put_back dropped
            | Some verb =>
                emit EvTokenSpend >>;
                now <~ now_ ;;
                funded <~ on_bucket spend now ;;
                if negb funded then ret (put_back ++ [key], dropped)
                else
                  r <~ fork (write_argv verb (t_addr t) (t_mac t) (t_leg t)) ;;
                  match write_failure r with
                  | None =>
                      write_landed (t_row t) >>; batch_loop n doc seen put_back dropped
                  | Some why =>
                      write_failed (t_row t) (t_addr t) why >>;
                      batch_loop n doc seen (put_back ++ [key]) dropped
                  end
            end
      end
  end.

(** [dropped.extend(self.table.re_dirty(..))]. *)
Definition put_back_one (now : Instant) (dropped : list string) (k : Key) : M (list string) :=
  out <~ put_dirty k.1 k.2 now ;; ret (dropped ++ option_list out).

Definition batch_want (depth : nat) : Z := 1 + Z.min (Z.min (Z.of_nat depth) u32_max) (BURST - 1).

Definition run_batch : M Batch :=
  emit EvBatchStart >>;
  depth <~ read_table dirty_depth ;;
  if (depth =? 0)%nat then ret Idle
  else
    wait_and_spend (batch_want depth) >>;
    read <~ read_kernel ;;
    match read with
    | None => ret ReadFailed
    | Some doc =>
        out <~ batch_loop (Z.to_nat (BURST - 1)) doc ∅ [] [] ;;
        now <~ now_ ;;
        dropped <~ forM out.1 out.2 (put_back_one now) ;;
        note_expiries dropped now >>;
        ret Drained
    end.

Definition sweep_entry (doc : KernelNeighbors) (now : Instant) (acc : list string * nat)
    (e : string * Ipv4Addr * string) : M (list string * nat) :=
  let '(row, addr, lg) := e in
  match verb_of (classify doc lg addr) with
  | None => ret acc
  | Some _ =>
      out <~ put_dirty row addr now ;; ret (acc.1 ++ option_list out, S acc.2)
  end.

Definition sweep : M Sweep :=
  now <~ now_ ;;
  reaped <~ reap now ;;
  wait_and_spend 1 >>;
  read <~ read_kernel ;;
  match read with
  | None => now <~ now_ ;; note_expiries reaped now >>; ret SweepReadFailed
  | Some doc =>
      now <~ now_ ;;
      es <~ read_table list_entries ;;
      acc <~ forM es (reaped, O) (sweep_entry doc now) ;;
      note_expiries acc.1 now >>;
      ret (Diffed acc.2 (length reaped))
  end.

Definition step : M Step :=
  now <~ now_ ;;
  due <~ gets (λ w, next_sweep (w_actor w) <=? now) ;;
  if (due : bool) then
    s <~ sweep ;;
    now <~ now_ ;;
    with_actor (set_next_sweep (now + SWEEP)) >>;
    ret (Swept s)
  else b <~ run_batch ;; ret (DrainBatch b).

(** The row half of [publish]. *)
Definition row_info (sizes refusals : gmap string Z) (a : FlushActor) (name : string)
    : NeighborRowInfo :=
  let c := unwrap_or (per_row a !! name) row_counts_default in
  {| ni_name := name;
     ni_table_size := unwrap_or (sizes !! name) 0;
     ni_writes := r_writes c; ni_write_failures := r_write_failures c;
     ni_read_failures := read_failures (counts a);
     ni_cap_refusals := unwrap_or (refusals !! name) 0;
     ni_expiries := r_expiries c; ni_skips := r_skips c |}.

Definition row_infos (sizes refusals : gmap string Z) (a : FlushActor) : list NeighborRowInfo :=
  row_info sizes refusals a <$>
    btree_set_iter str_leb (dom sizes ∪ dom refusals ∪ dom (per_row a)).

Definition publish : M unit :=
  shared <~ gets (λ w, has_shared (w_actor w)) ;;
  if negb shared then ret tt
  else
    sizes <~ read_table row_sizes ;;
    refusals <~ read_table cap_refusals_snapshot ;;
    rows <~ gets (λ w, row_infos sizes refusals (w_actor w)) ;;
    now <~ now_ ;;
    depth <~ read_table dirty_depth ;;
    age <~ read_table (λ g, oldest_dirty_age g now) ;;
    lvl <~ on_bucket level now ;;
    modify (set_published (rows, {| ai_dirty_depth := Z.of_nat depth;
                                    ai_oldest_dirty_age := age; ai_token_level := lvl |})).

(** The [select!] of [run]: a stored permit is taken at once; otherwise the task sleeps until
    a permit is stored or the next sweep falls due, which is when the [k]-th move brings one. *)
Fixpoint idle_wait (fuel : nat) : M unit :=
  match fuel with
  | O => λ _, None
  | S f =>
      woken <~ gets w_permit ;;
      due <~ gets (λ w, next_sweep (w_actor w) <=? w_now w) ;;
      if (woken : bool) then modify (set_permit false)
      else if (due : bool) then ret tt
      else point >>; idle_wait f
  end.

(** One turn of [run], up to the wait of an idle batch. *)
Definition turn : M Step := s <~ step ;; publish >>; ret s.

(** [n] turns of [run], none of them waiting longer than [k] moves. *)
Fixpoint run_turns (n k : nat) : M unit :=
  match n with
  | O => ret tt
  | S n =>
      s <~ turn ;;
      (match s with DrainBatch Idle => idle_wait k | _ => ret tt end) >>; run_turns n k
  end.
End actor.

(** A member's start: the actor is built, the table is empty, and nothing was done yet. *)
Definition world_start (now : Instant) (shared : bool) : World :=
  mk_w now inner_default false (actor_new now shared) 0 [] None.

(** ** The bucket *)

#[local] Arguments refill : simpl never.
#[local] Arguments spend : simpl never.
#[local] Arguments wait_for : simpl never.
#[local] Arguments Z.mul : simpl never.
#[local] Arguments Z.of_nat : simpl never.

Definition bucket_ok (b : Bucket) : Prop := 0 ≤ tokens b ≤ BURST.

Lemma refill_loop_spec fuel b now :
  ∃ k, refill_loop fuel b now = mk_bucket (tokens b + k) (next_token_at b + k * TOKEN_INTERVAL) ∧
    0 ≤ k ≤ Z.of_nat fuel ∧
    (0 < k → tokens b + k ≤ BURST ∧ next_token_at b + (k - 1) * TOKEN_INTERVAL ≤ now) ∧
    (k = Z.of_nat fuel ∨ BURST ≤ tokens b + k ∨ now < next_token_at b + k * TOKEN_INTERVAL).
Proof.
  revert b. induction fuel as [|f IH]; intros [tk nt]; cbn [refill_loop].
  { exists 0. split; [f_equal; cbn; lia|]. lia. }
  destruct (_ && _) eqn:E; cbn [tokens next_token_at] in *; split_bools.
  - destruct (IH (mk_bucket (tk + 1) (nt + TOKEN_INTERVAL))) as (k & -> & Hk & Hb & Hs).
    cbn [tokens next_token_at] in *. exists (k + 1). split; [f_equal; lia|].
    split; [lia|]. split; [|lia]. intros _. destruct (decide (k = 0)) as [->|]; lia.
  - exists 0. split; [f_equal; lia|]. apply andb_false_iff in E as [E|E]; split_bools; lia.
Qed.

(** What a refill does to a bucket, as a budget: every token it adds was paid for by the clock,
    and afterwards the next token is in the future. *)
Lemma refill_spec b now :
  bucket_ok b →
  let b' := refill b now in
  tokens b ≤ tokens b' ≤ BURST ∧ now < next_token_at b' ∧
  (tokens b' - tokens b) * TOKEN_INTERVAL ≤ next_token_at b' - next_token_at b ∧
  next_token_at b' ≤ Z.max (next_token_at b) (now + TOKEN_INTERVAL).
Proof.
  unfold bucket_ok. intros Hb. unfold refill.
  destruct (refill_loop_spec (Z.to_nat (BURST - tokens b)) b now) as (k & -> & Hk & Hp & Hs).
  cbn [tokens next_token_at]. rewrite Z2Nat.id in * by lia.
  assert (0 < TOKEN_INTERVAL) by done. unfold BURST in *.
  destruct (_ && _) eqn:E; cbn [tokens next_token_at]; split_bools; [nia|].
  apply andb_false_iff in E as [E|E]; split_bools; split_and!; nia.
Qed.

(** Waiting long enough for [k] more tokens gives [k] more tokens. *)
Lemma refill_reaches b now k :
  bucket_ok b → 0 ≤ k → tokens b + k ≤ BURST →
  next_token_at b + (k - 1) * TOKEN_INTERVAL ≤ now → tokens b + k ≤ tokens (refill b now).
Proof.
  unfold bucket_ok. intros Hb Hk0 Hk Hn. unfold refill.
  destruct (refill_loop_spec (Z.to_nat (BURST - tokens b)) b now) as (j & -> & Hj & _ & Hs).
  cbn [tokens next_token_at]. rewrite Z2Nat.id in * by lia.
  assert (0 < TOKEN_INTERVAL) by done. case_match; cbn [tokens]; nia.
Qed.

Lemma refill_ok b now : bucket_ok b → bucket_ok (refill b now).
Proof. intros Hb. destruct (refill_spec b now Hb) as [? _]. unfold bucket_ok in *. lia. Qed.

Lemma spend_spec b now b' ok :
  bucket_ok b → spend b now = (b', ok) →
  bucket_ok b' ∧ next_token_at b' = next_token_at (refill b now) ∧
  tokens b' = tokens (refill b now) - (if ok then 1 else 0) ∧
  (ok = true ↔ 0 < tokens (refill b now)).
Proof.
  intros Hb. pose proof (refill_ok b now Hb) as Hr. unfold spend, bucket_ok in *.
  destruct (tokens (refill b now) =? 0) eqn:E; intros [= <- <-]; cbn; split_bools;
    split_and!; try lia; split; try done; lia.
Qed.

(** A wait is over at once exactly when the tokens are there; otherwise waiting that long is
    enough. *)
Lemma wait_for_spec b now want :
  bucket_ok b → 1 ≤ want ≤ BURST →
  let '(b', d) := wait_for b now want in
  b' = refill b now ∧ 0 ≤ d ∧ (d = 0 ↔ want ≤ tokens b') ∧
  ∀ t, now + d ≤ t → want ≤ tokens (refill b' t).
Proof.
  intros Hb Hw. pose proof (refill_spec b now Hb) as (Ht & Hn & _ & _).
  pose proof (refill_ok b now Hb) as Hr. unfold wait_for. unfold saturating_since.
  assert (0 < TOKEN_INTERVAL) by done.
  destruct (want <=? _) eqn:E; split_bools.
  - split; [done|]. split; [lia|]. split; [split; [done|lia]|].
    intros t _. destruct (refill_spec (refill b now) t Hr) as [? _]. lia.
  - split; [done|]. split; [nia|]. split; [split; nia|].
    intros t Hle. pose proof (refill_reaches (refill b now) t (want - tokens (refill b now)) Hr).
    unfold bucket_ok in Hr. nia.
Qed.

Lemma wait_for_nonneg b now want : 0 ≤ (wait_for b now want).2.
Proof.
  unfold wait_for, saturating_since. assert (0 < TOKEN_INTERVAL) by done.
  destruct (want <=? _) eqn:E; split_bools; cbn; nia.
Qed.

(** ** Atomic steps

    Everything the task does is a sequence of these. A fork appears here together with the
    token that funds it. *)

Definition expiry_noted (rows : list string) (now : Instant) (w : World) : World :=
  let a := credit_expiries rows (w_actor w) in
  match fresh_rows (expiring a) rows now with
  | [] => set_actor a w
  | fresh =>
      add_event (EvJournal (w_now w) (ExpiredLine now (length (filter (λ r, r ∈ fresh) rows)) fresh))
        (set_actor (set_expiring (foldl (λ m r, <[r := now]> m) (expiring a) fresh) a) w)
  end.

Definition observed (e : Event) : Prop :=
  match e with
  | EvBatchStart | EvWaitDecision | EvTokenSpend => True
  | EvJournal _ (ExpiredLine _ _ _) | EvFork _ => False
  | EvJournal _ _ => True
  end.

(** Changes to the actor's own fields that touch neither the bucket nor the expiry window. *)
Inductive tally : FlushActor → FlushActor → Prop :=
| tally_read_failing a v : tally a (set_read_failing v a)
| tally_write_failing a s : tally a (set_write_failing s a)
| tally_read_failure a : tally a (count_host count_read_failure a)
| tally_skip a r : tally a (count_skip r a)
| tally_write a r : tally a (count_write r a)
| tally_write_failure a r : tally a (count_write_failure r a)
| tally_next_sweep a t : tally a (set_next_sweep t a).

Inductive table_step : Inner → Inner → bool → Prop :=
| ts_take g t : table_step g (take_next_dirty g t).1 false
| ts_put g row addr t : table_step g (re_dirty g row addr t).1.1 (re_dirty g row addr t).2
| ts_reap g t : table_step g (remove_expired g t).1 false.

Inductive atom : World → World → Prop :=
| at_point w mv : atom w (do_point mv w)
| at_sleep w d : 0 ≤ d → atom w (set_now (w_now w + d) w)
| at_event w e : observed e → atom w (add_event e w)
| at_refill w t : t ≤ w_now w →
    atom w (set_actor (set_bucket (refill (bucket (w_actor w)) t) (w_actor w)) w)
| at_fork w b argv :
    spend (bucket (w_actor w)) (w_now w) = (b, true) →
    atom w (add_event (EvFork argv) (set_actor (set_bucket b (w_actor w)) w))
| at_table w g woke : table_step (w_table w) g woke → atom w (set_table g woke w)
| at_tally w a : tally (w_actor w) a → atom w (set_actor a w)
| at_expiries w rows t : atom w (expiry_noted rows t w)
| at_published w p : atom w (set_published p w)
| at_permit w : atom w (set_permit false w).

Definition runs {A} (m : M A) : Prop := ∀ w a w', m w = Some (a, w') → rtc atom w w'.

Create HintDb actor.

Lemma runs_ret {A} (a : A) : runs (ret a).
Proof. intros w a' w' [= <- <-]. done. Qed.

Lemma runs_gets {A} (f : World → A) : runs (gets f).
Proof. intros w a w' [= <- <-]. done. Qed.

Lemma runs_bind {A B} (m : M A) (f : A → M B) :
  runs m → (∀ a, runs (f a)) → runs (bind m f).
Proof.
  intros Hm Hf w b w'. unfold bind. destruct (m w) as [[a w1]|] eqn:E; [|done].
  intros Ef. etrans; [by eapply Hm|by eapply Hf].
Qed.

Lemma runs_assoc {A B C} (m : M A) (f : A → M B) (g : B → M C) :
  runs (bind m (λ a, bind (f a) g)) → runs (bind (bind m f) g).
Proof.
  intros Hr w c w' E. apply (Hr w c). revert E. unfold bind. by destruct (m w) as [[a w1]|].
Qed.

Lemma runs_modify f : (∀ w, atom w (f w)) → runs (modify f).
Proof. intros Hf w a w' [= <- <-]. by apply rtc_once. Qed.

Lemma runs_forM {A B} (l : list A) (b : B) f : (∀ b x, runs (f b x)) → runs (forM l b f).
Proof.
  intros Hf. revert b. induction l as [|x l IH]; intros b; cbn; [apply runs_ret|].
  apply runs_bind; auto.
Qed.

#[export] Hint Resolve runs_ret runs_gets runs_bind runs_forM : actor.

Section actor_runs.
Context `{ActorEnv}.

Lemma runs_point : runs point.
Proof. apply runs_modify with (f := λ w, do_point (env_move (w_tick w)) w). constructor. Qed.
Hint Resolve runs_point : actor.

Lemma runs_now : runs now_.
Proof. unfold now_. auto with actor. Qed.

Lemma runs_read_table {A} (f : Inner → A) : runs (read_table f).
Proof. unfold read_table. auto with actor. Qed.

Lemma runs_take t : runs (take_dirty t).
Proof.
  apply runs_bind; [apply runs_point|]. intros _ w a w'.
  destruct (take_next_dirty (w_table w) t) as [g out] eqn:E. intros [= <- <-].
  apply rtc_once, at_table. pose proof (ts_take (w_table w) t) as Hs. by rewrite E in Hs.
Qed.

Lemma runs_put row addr t : runs (put_dirty row addr t).
Proof.
  apply runs_bind; [apply runs_point|]. intros _ w a w'.
  destruct (re_dirty (w_table w) row addr t) as [[g out] woke] eqn:E. intros [= <- <-].
  apply rtc_once, at_table. pose proof (ts_put (w_table w) row addr t) as Hs. by rewrite E in Hs.
Qed.

Lemma runs_reap t : runs (reap t).
Proof.
  apply runs_bind; [apply runs_point|]. intros _ w a w'.
  destruct (remove_expired (w_table w) t) as [g out] eqn:E. intros [= <- <-].
  apply rtc_once, at_table. pose proof (ts_reap (w_table w) t) as Hs. by rewrite E in Hs.
Qed.

Lemma runs_emit e : observed e → runs (emit e).
Proof. intros He. apply runs_modify. by constructor. Qed.

Lemma runs_line l : observed (EvJournal 0 l) → runs (journal_line l).
Proof. intros Hl. apply runs_modify. intros w. by constructor. Qed.

Lemma runs_tally f : (∀ a, tally a (f a)) → runs (with_actor f).
Proof. intros Hf. apply runs_modify. intros w. constructor. apply Hf. Qed.
Hint Resolve runs_now runs_read_table runs_take runs_put runs_reap : actor.

(** What a task computed from a clock reading it still holds: the clock has not gone back. *)
Definition runs_since {A} (t : Instant) (m : M A) : Prop :=
  ∀ w a w', t ≤ w_now w → m w = Some (a, w') → rtc atom w w'.

Lemma runs_now_since {A} (k : Instant → M A) : (∀ t, runs_since t (k t)) → runs (bind now_ k).
Proof.
  intros Hk w a w'. unfold now_, bind, point, gets. intros Ek.
  eapply rtc_l; [apply at_point|]. by eapply Hk.
Qed.

Lemma runs_since_assoc {A B C} t (m : M A) (f : A → M B) (g : B → M C) :
  runs_since t (bind m (λ a, bind (f a) g)) → runs_since t (bind (bind m f) g).
Proof.
  intros Hr w c w' Ht E. apply (Hr w c); [done|]. revert E. unfold bind.
  by destruct (m w) as [[a w1]|].
Qed.

Lemma point_now_le w : w_now w ≤ w_now (do_point (env_move (w_tick w)) w).
Proof. unfold do_point. destruct (relay_all _ _ _). cbn. lia. Qed.

Lemma runs_since_read_table {A B} t (f : Inner → A) (k : A → M B) :
  (∀ a, runs_since t (k a)) → runs_since t (bind (read_table f) k).
Proof.
  intros Hk w a w' Ht. unfold read_table, bind, point, gets. intros Ek.
  eapply rtc_l; [apply at_point|]. eapply Hk; [|exact Ek]. etrans; [exact Ht|apply point_now_le].
Qed.

Lemma runs_since_wait_for {A} t want (k : Duration → M A) :
  (∀ d, 0 ≤ d → runs (k d)) → runs_since t (bind (on_bucket (λ b t, wait_for b t want) t) k).
Proof.
  intros Hk w a w' Ht. unfold on_bucket, bind.
  pose proof (wait_for_nonneg (bucket (w_actor w)) t want) as Hd.
  assert ((wait_for (bucket (w_actor w)) t want).1 = refill (bucket (w_actor w)) t) as Hb
    by (unfold wait_for; by destruct (want <=? _)).
  destruct (wait_for _ _ _) as [b d]. cbn in Hb, Hd. subst b. intros Ek.
  eapply rtc_l; [by apply at_refill|]. by eapply Hk.
Qed.

Lemma runs_since_level {A} t (k : Z → M A) :
  (∀ l, runs (k l)) → runs_since t (bind (on_bucket level t) k).
Proof.
  intros Hk w a w' Ht. unfold on_bucket, bind, level. intros Ek.
  eapply rtc_l; [by apply at_refill|]. by eapply Hk.
Qed.

(** A refused spend only refills. *)
Lemma spend_refused b t b' : spend b t = (b', false) → b' = refill b t.
Proof. unfold spend. case_match; congruence. Qed.

(** The clock just read is the clock: a funded spend happens at the clock's own time. *)
Lemma runs_now_spend_alone {A} (k : bool → M A) :
  (∀ w b, spend (bucket (w_actor w)) (w_now w) = (b, true) →
     ∀ a w', k true (set_actor (set_bucket b (w_actor w)) w) = Some (a, w') → rtc atom w w') →
  runs (k false) →
  runs (now <~ now_ ;; spent <~ on_bucket spend now ;; k spent).
Proof.
  intros Ht Hf w a w'. unfold now_, bind, point, gets, on_bucket.
  set (w1 := do_point _ w). destruct (spend (bucket (w_actor w1)) (w_now w1)) as [b ok] eqn:E.
  intros Hk. eapply rtc_l; [apply at_point|]. fold w1. destruct ok; [by eapply Ht|].
  apply spend_refused in E as ->. eapply rtc_l; [by apply at_refill|]. by eapply Hf.
Qed.

Lemma runs_now_spend {A B} (k : bool → M A) (K : A → M B) :
  (∀ w b, spend (bucket (w_actor w)) (w_now w) = (b, true) →
     ∀ a w', bind (k true) K (set_actor (set_bucket b (w_actor w)) w) = Some (a, w') →
     rtc atom w w') →
  runs (bind (k false) K) →
  runs (bind (now <~ now_ ;; spent <~ on_bucket spend now ;; k spent) K).
Proof.
  intros Ht Hf. pose proof (runs_now_spend_alone (λ s, bind (k s) K) Ht Hf) as Hr.
  intros w a w' E. apply (Hr w a). revert E.
  unfold bind. destruct (now_ w) as [[t w1]|]; [|done]. by destruct (on_bucket spend t w1) as [[s w2]|].
Qed.

Lemma runs_read_kernel_from w b d w' :
  spend (bucket (w_actor w)) (w_now w) = (b, true) →
  read_kernel (set_actor (set_bucket b (w_actor w)) w) = Some (d, w') → rtc atom w w'.
Proof.
  intros Hs. unfold read_kernel, bind, fork. intros Hr.
  eapply rtc_l; [by apply (at_fork w b READ_ARGV)|]. destruct (read_outcome _) as [doc|why].
  - injection Hr as <- <-. apply rtc_once, at_tally, tally_read_failing.
  - cbn in Hr. eapply rtc_l; [apply at_tally, tally_read_failure|].
    destruct (read_failing _); cbn in Hr; injection Hr as <- <-; [done|].
    eapply rtc_l; [apply at_tally, tally_read_failing|]. apply rtc_once, at_event. done.
Qed.

(** Every token waited for is spent on the read that follows. *)
Lemma runs_wait_read {A} fuel want (k : option KernelNeighbors → M A) :
  (∀ d, runs (k d)) →
  runs (wait_and_spend_loop fuel want >>; read <~ read_kernel ;; k read).
Proof.
  intros Hk. induction fuel as [|f IH]; [intros w a w'; done|].
  cbn [wait_and_spend_loop]. apply runs_assoc, runs_bind; [by apply runs_emit|intros _].
  apply runs_assoc, runs_now_since. intros now. apply runs_since_assoc, runs_since_wait_for.
  intros wait Hw. case_match.
  - apply runs_assoc, runs_bind; [by apply runs_emit|intros _].
    apply (runs_now_spend (λ spent : bool, if spent then ret tt else wait_and_spend_loop f want));
      [|exact IH].
    intros w b Hs a w'. unfold bind, ret.
    destruct (read_kernel _) as [[d w1]|] eqn:E; [|done]. intros Ek.
    etrans; [by eapply runs_read_kernel_from|by eapply Hk].
  - apply runs_assoc, runs_bind; [|intros _; exact IH].
    apply runs_modify. intros w. by apply at_sleep.
Qed.

Lemma runs_note_expiries rows now : runs (note_expiries rows now).
Proof.
  intros w a w' Hn. assert (w' = expiry_noted rows now w) as ->.
  { revert Hn. unfold note_expiries, expiry_noted, bind, with_actor, modify, gets. cbn [w_actor set_actor].
    destruct (fresh_rows _ _ _); by intros [= _ <-]. }
  apply rtc_once, at_expiries.
Qed.
Hint Resolve runs_note_expiries : actor.

Lemma runs_write_landed row : runs (write_landed row).
Proof.
  intros w a w' [= <- <-]. eapply rtc_l; [apply at_tally, (tally_write _ row)|].
  apply rtc_once. apply (at_tally (set_actor (count_write row (w_actor w)) w)), tally_write_failing.
Qed.

Lemma runs_write_failed row addr why : runs (write_failed row addr why).
Proof.
  apply runs_bind; [apply runs_tally; constructor|intros _].
  apply runs_bind; [apply runs_gets|intros []]; [apply runs_ret|].
  apply runs_bind; [apply runs_tally; constructor|intros _]. by apply runs_line.
Qed.
Hint Resolve runs_write_landed runs_write_failed : actor.

Lemma runs_batch_loop n doc seen pb dr : runs (batch_loop n doc seen pb dr).
Proof.
  revert seen pb dr. induction n as [|n IH]; intros seen pb dr; cbn [batch_loop]; [apply runs_ret|].
  apply runs_bind; [apply runs_now|intros now].
  apply runs_bind; [apply runs_take|intros next].
  destruct (taken next) as [t|]; [|apply runs_ret].
  case_match; [apply IH|]. destruct (verb_of _) as [verb|].
  - apply runs_bind; [by apply runs_emit|intros _].
    apply (runs_now_spend_alone (λ funded : bool, if negb funded then _ else _)); [|apply runs_ret].
    intros w b Hs a w'. cbn [negb]. unfold bind at 1, fork.
    intros Hk. eapply rtc_l; [by apply (at_fork w b)|]. revert Hk.
    case_match; unfold bind; [|]; (destruct (write_landed _ _) as [[? ?]|] eqn:E || destruct (write_failed _ _ _ _) as [[? ?]|] eqn:E); try done; intros Hk;
      (etrans; [|by eapply IH]); [by eapply runs_write_failed|by eapply runs_write_landed].
  - apply runs_bind; [apply runs_tally; constructor|intros _; apply IH].
Qed.

Lemma runs_run_batch : runs run_batch.
Proof.
  apply runs_bind; [by apply runs_emit|intros _].
  apply runs_bind; [apply runs_read_table|intros depth]. case_match; [apply runs_ret|].
  apply runs_wait_read. intros [doc|]; [|apply runs_ret].
  apply runs_bind; [apply runs_batch_loop|intros out].
  apply runs_bind; [apply runs_now|intros now].
  apply runs_bind; [|auto with actor].
  apply runs_forM. intros d k. apply runs_bind; auto with actor.
Qed.

Lemma runs_sweep : runs sweep.
Proof.
  apply runs_bind; [apply runs_now|intros now].
  apply runs_bind; [apply runs_reap|intros reaped].
  apply runs_wait_read. intros [doc|]; [|auto 8 with actor].
  apply runs_bind; [apply runs_now|intros now'].
  apply runs_bind; [apply runs_read_table|intros es].
  apply runs_bind; [|auto with actor].
  apply runs_forM. intros acc [[row addr] lg]. cbn. case_match; [|apply runs_ret].
  apply runs_bind; auto with actor.
Qed.

Lemma runs_publish : runs publish.
Proof.
  unfold publish. apply runs_bind; [apply runs_gets|intros []]; [|apply runs_ret].
  cbn [negb]. do 3 (apply runs_bind; [auto with actor|intros ?]).
  apply runs_now_since. intros now. apply runs_since_read_table. intros depth.
  apply runs_since_read_table. intros age. apply runs_since_level. intros l.
  apply runs_modify. constructor.
Qed.

Lemma runs_step : runs step.
Proof.
  unfold step. apply runs_bind; [apply runs_now|intros now].
  apply runs_bind; [apply runs_gets|intros []].
  - apply runs_bind; [apply runs_sweep|intros s].
    apply runs_bind; [apply runs_now|intros now'].
    apply runs_bind; [apply runs_tally; constructor|auto with actor].
  - apply runs_bind; [apply runs_run_batch|auto with actor].
Qed.

Lemma runs_idle_wait k : runs (idle_wait k).
Proof.
  induction k as [|k IH]; [intros w a w'; done|]. cbn [idle_wait].
  apply runs_bind; [apply runs_gets|intros []];
    (apply runs_bind; [apply runs_gets|intros due]).
  - apply runs_modify. constructor.
  - destruct due; [apply runs_ret|]. apply runs_bind; [apply runs_point|done].
Qed.

Lemma runs_turn : runs turn.
Proof. apply runs_bind; [apply runs_step|intros s]. apply runs_bind; [apply runs_publish|auto with actor]. Qed.

(** Whatever the actor does for any number of turns is a sequence of atomic steps. *)
Lemma runs_run_turns n k : runs (run_turns n k).
Proof.
  induction n as [|n IH]; cbn [run_turns]; [apply runs_ret|].
  apply runs_bind; [apply runs_turn|intros s]. apply runs_bind; [|done].
  repeat case_match; auto using runs_idle_wait with actor.
Qed.
End actor_runs.

(** ** Invariants of every run *)

Definition forks (w : World) : Z := Z.of_nat (fork_count (w_events w)).

(** The budget, reckoned from an instant [T1] at which [f1] forks had been made. *)
Record budget (T1 : Instant) (f1 : Z) (w : World) : Prop := {
  bu_ok : bucket_ok (bucket (w_actor w));
  bu_now : T1 ≤ w_now w;
  bu_next : next_token_at (bucket (w_actor w)) ≤ w_now w + TOKEN_INTERVAL;
  bu_forks : forks w = f1 ∨
    (T1 < next_token_at (bucket (w_actor w)) ∧
     (forks w - f1 + tokens (bucket (w_actor w))) * TOKEN_INTERVAL
       ≤ BURST * TOKEN_INTERVAL + (next_token_at (bucket (w_actor w)) - T1))
}.

Lemma forks_add e w : forks (add_event e w) = forks w + (if is_fork e then 1 else 0).
Proof.
  unfold forks, fork_count. cbn [w_events add_event]. rewrite list.filter_app, length_app.
  rewrite Nat2Z.inj_add. by destruct e.
Qed.

Lemma observed_not_fork e : observed e → is_fork e = false.
Proof. by destruct e. Qed.

(** The parts of the world the budget is about. *)
Lemma budget_same T1 f1 w w' :
  bucket (w_actor w') = bucket (w_actor w) → w_now w ≤ w_now w' → forks w' = forks w →
  budget T1 f1 w → budget T1 f1 w'.
Proof.
  intros Hb Hn Hf [? ? ? ?]. split; rewrite ?Hb, ?Hf; [done|lia|lia|done].
Qed.

Lemma tally_bucket a a' : tally a a' → bucket a' = bucket a.
Proof. by destruct 1. Qed.

Lemma credit_bucket rows a : bucket (credit_expiries rows a) = bucket a.
Proof.
  unfold credit_expiries. cbn. revert a. induction rows as [|r rows IH]; intros a; [done|].
  cbn [foldl]. by rewrite IH.
Qed.

Lemma expiry_noted_same rows t w :
  bucket (w_actor (expiry_noted rows t w)) = bucket (w_actor w) ∧
  w_now (expiry_noted rows t w) = w_now w ∧ forks (expiry_noted rows t w) = forks w ∧
  w_table (expiry_noted rows t w) = w_table w ∧ w_permit (expiry_noted rows t w) = w_permit w.
Proof.
  unfold expiry_noted. destruct (fresh_rows _ _ _).
  - split_and!; try done. apply credit_bucket.
  - rewrite forks_add, Z.add_0_r. split_and!; try done. apply credit_bucket.
Qed.

Lemma atom_budget T1 f1 w w' : atom w w' → budget T1 f1 w → budget T1 f1 w'.
Proof.
  destruct 1; intros HB.
  - apply (budget_same T1 f1 w); [..|exact HB]; unfold do_point, forks; destruct (relay_all _ _ _); cbn; [done|lia|done].
  - apply (budget_same T1 f1 w); [..|exact HB]; [done|cbn; lia|done].
  - apply (budget_same T1 f1 w); [done..| |exact HB]. rewrite forks_add, observed_not_fork by done. lia.
  - destruct HB as [Hok Hn Hx Hf]. pose proof (refill_ok _ t Hok).
    destruct (refill_spec _ t Hok) as (Ht & Hnt & Hp & Hm).
    split; [done|done|cbn; lia|]. destruct Hf as [Hf|[Hf1 Hf2]]; [by left|right].
    change (forks (set_actor _ w)) with (forks w). cbn [bucket w_actor set_actor set_bucket].
    assert (0 < TOKEN_INTERVAL) by done. split; nia.
  - destruct HB as [Hok Hn Hx Hf]. destruct (spend_spec _ _ _ _ Hok H) as (Hok' & Hnb & Htb & Hp).
    destruct (refill_spec _ (w_now w) Hok) as (Ht & Hnt & Hpp & Hm). cbn zeta in *.
    assert (0 < TOKEN_INTERVAL) by done.
    split; [done|done|cbn; lia|]. right. rewrite forks_add.
    change (forks (set_actor _ w)) with (forks w).
    cbn [bucket w_actor set_actor set_bucket add_event is_fork].
    rewrite Hnb, Htb. unfold bucket_ok in *. destruct Hf as [Hf|[Hf1 Hf2]]; split; nia.
  - apply (budget_same T1 f1 w); [done|cbn; lia|done|exact HB].
  - apply (budget_same T1 f1 w); [by apply tally_bucket|cbn; lia|done|exact HB].
  - destruct (expiry_noted_same rows t w) as (? & Hn & ? & _).
    apply (budget_same T1 f1 w); [done|by rewrite Hn|done|exact HB].
  - apply (budget_same T1 f1 w); [done|cbn; lia|done|exact HB].
  - apply (budget_same T1 f1 w); [done|cbn; lia|done|exact HB].
Qed.

Lemma atoms_keep (P : World → Prop) w w' :
  (∀ w w', atom w w' → P w → P w') → rtc atom w w' → P w → P w'.
Proof. intros HP. induction 1; eauto. Qed.

Lemma budget_start t0 shared : budget t0 0 (world_start t0 shared).
Proof.
  split; [by unfold bucket_ok, BURST; cbn|cbn; lia|cbn; lia|by left].
Qed.

(** The budget can be reckoned from any later moment. *)
Lemma budget_from T1 f1 w : budget T1 f1 w → budget (w_now w) (forks w) w.
Proof. intros [? ? ? ?]. split; [done|lia|done|by left]. Qed.

Lemma budget_bound T1 f1 w :
  budget T1 f1 w → (forks w - f1) * TOKEN_INTERVAL ≤ (w_now w - T1) + (BURST + 1) * TOKEN_INTERVAL.
Proof.
  intros [Hok ? ? Hf]. unfold bucket_ok, BURST in *. assert (0 < TOKEN_INTERVAL) by done.
  destruct Hf as [->|[_ ?]]; nia.
Qed.

(** *** The counters *)

(** The sum of one per-row counter. *)
Definition total (f : RowCounts → Z) (m : gmap string RowCounts) : Z :=
  map_fold (λ _ r acc, f r + acc) 0 m.

Lemma total_insert f m k v :
  f row_counts_default = 0 →
  total f (<[k := v]> m) = total f m - f (unwrap_or (m !! k) row_counts_default) + f v.
Proof.
  intros H0. unfold total.
  assert (Hi : ∀ m' : gmap string RowCounts, m' !! k = None →
    map_fold (λ _ r acc, f r + acc) 0 (<[k := v]> m') = f v + map_fold (λ _ r acc, f r + acc) 0 m').
  { intros m' Hk. apply (map_fold_insert_L (λ _ r acc, f r + acc) 0 k v m'); [intros; lia|done]. }
  destruct (m !! k) as [u|] eqn:E; cbn [unwrap_or].
  - rewrite <-insert_delete_eq, Hi by apply lookup_delete_eq.
    rewrite <-(insert_id m k u) at 2 by done.
    rewrite <-(insert_delete_eq m), (map_fold_insert_L (λ _ r acc, f r + acc) 0 k u)
      by (intros; lia || apply lookup_delete_eq). lia.
  - rewrite Hi by done. lia.
Qed.

Record tallied (a : FlushActor) : Prop := {
  ta_writes : writes (counts a) = total r_writes (per_row a);
  ta_failures : write_failures (counts a) = total r_write_failures (per_row a);
  ta_skips : skips (counts a) = total r_skips (per_row a);
  ta_expiries : expiries (counts a) = total r_expiries (per_row a)
}.

Lemma tally_tallied a a' : tally a a' → tallied a → tallied a'.
Proof.
  destruct 1; intros [? ? ? ?]; split; cbn; rewrite ?total_insert by done; cbn; lia.
Qed.

Lemma credit_tallied rows a : tallied a → tallied (credit_expiries rows a).
Proof.
  intros [Hw Hf Hs He]. unfold credit_expiries.
  assert (∀ a, let a' := foldl count_row_expiry a rows in counts a' = counts a ∧
    total r_writes (per_row a') = total r_writes (per_row a) ∧
    total r_write_failures (per_row a') = total r_write_failures (per_row a) ∧
    total r_skips (per_row a') = total r_skips (per_row a) ∧
    total r_expiries (per_row a') = total r_expiries (per_row a) + Z.of_nat (length rows)) as Hall.
  { clear. induction rows as [|r rows IH]; intros a; cbn; [split_and!; lia || done|].
    destruct (IH (count_row_expiry a r)) as (-> & -> & -> & -> & ->).
    cbn. rewrite !total_insert by done. cbn. split_and!; lia || done. }
  destruct (Hall a) as (Hc & H1 & H2 & H3 & H4).
  split; cbn; rewrite Hc; lia.
Qed.

Lemma atom_tallied w w' : atom w w' → tallied (w_actor w) → tallied (w_actor w').
Proof.
  destruct 1; intros HT; try exact HT.
  - unfold do_point. by destruct (relay_all _ _ _).
  - destruct HT. by split.
  - destruct HT. by split.
  - by eapply tally_tallied.
  - pose proof (credit_tallied rows _ HT) as [? ? ? ?]. unfold expiry_noted.
    destruct (fresh_rows _ _ _); by split.
Qed.

(** *** The expiry lines *)

(** The instants the expiry lines naming [row] are dated. *)
Definition line_time (row : string) (e : Event) : list Instant :=
  match e with
  | EvJournal _ (ExpiredLine t _ rows) => if bool_decide (row ∈ rows) then [t] else []
  | _ => []
  end.
Definition line_times (row : string) (es : list Event) : list Instant := es ≫= line_time row.

Definition a_window_apart (a b : Instant) : Prop := a + EXPIRY_LOG_WINDOW ≤ b.

Record spaced (row : string) (w : World) : Prop := {
  sp_sorted : Sorted a_window_apart (line_times row (w_events w));
  sp_last : list.last (line_times row (w_events w)) = expiring (w_actor w) !! row
}.

Lemma line_times_app row es e : line_times row (es ++ [e]) = line_times row es ++ line_time row e.
Proof. unfold line_times. rewrite bind_app. cbn. by rewrite app_nil_r. Qed.

Lemma observed_no_line row e : observed e → line_time row e = [].
Proof. destruct e as [| | |t []|]; done. Qed.

Lemma insert_all_lookup (l : list string) (t : Instant) (m : gmap string Instant) row :
  foldl (λ m r, <[r := t]> m) m l !! row = if bool_decide (row ∈ l) then Some t else m !! row.
Proof.
  revert m. induction l as [|r l IH]; intros m; cbn [foldl]; [done|]. rewrite IH.
  destruct (decide (row ∈ l)) as [Hl|Hl].
  - by rewrite !bool_decide_eq_true_2 by set_solver.
  - rewrite (bool_decide_eq_false_2 (row ∈ l)) by done. destruct (decide (r = row)) as [->|Hr].
    + rewrite lookup_insert_eq, bool_decide_eq_true_2; [done|by left].
    + rewrite lookup_insert_ne, bool_decide_eq_false_2 by (rewrite ?elem_of_cons; naive_solver).
      done.
Qed.

Lemma elem_of_fresh exp rows t row :
  row ∈ fresh_rows exp rows t → row ∈ rows ∧ is_none_or (exp !! row)
    (λ last, EXPIRY_LOG_WINDOW <=? saturating_since t last) = true.
Proof.
  unfold fresh_rows. rewrite list_elem_of_filter, elem_of_btree_set_iter, elem_of_list_to_set.
  intros [H ?]. split; [done|]. by apply Is_true_true.
Qed.

Lemma credit_expiring rows a : expiring (credit_expiries rows a) = expiring a.
Proof.
  unfold credit_expiries. cbn. revert a. induction rows as [|r rows IH]; intros a; [done|].
  cbn [foldl]. by rewrite IH.
Qed.

Lemma atom_spaced row w w' : atom w w' → spaced row w → spaced row w'.
Proof.
  destruct 1; intros HS; try (destruct HS; by split).
  - unfold do_point. destruct HS. destruct (relay_all _ _ _). by split.
  - destruct HS. split; cbn [w_events w_actor add_event];
      by rewrite line_times_app, observed_no_line, app_nil_r.
  - destruct HS. split; cbn [w_events w_actor add_event set_actor];
      rewrite line_times_app; cbn; by rewrite app_nil_r.
  - destruct HS as [Hs Hl]. destruct H; by split.
  - destruct HS as [Hs Hl]. unfold expiry_noted. rewrite credit_expiring.
    destruct (fresh_rows _ rows t) as [|r0 fr] eqn:F.
    + split; cbn [w_events w_actor set_actor]; [done|by rewrite credit_expiring].
    + rewrite <-F. set (fr' := fresh_rows _ _ _) in *. clear F.
      split; cbn [w_events w_actor set_actor add_event set_expiring expiring];
        rewrite line_times_app; cbn [line_time]; rewrite ?insert_all_lookup;
        case_bool_decide as Hin; rewrite ?app_nil_r; try done; [|apply last_snoc].
      apply Sorted_snoc; [done|]. apply elem_of_fresh in Hin as [_ Hw]. rewrite <-Hl in Hw.
      destruct (list.last (line_times row (w_events w))) as [x|] eqn:L.
      * apply last_Some in L as [l' ->]. constructor. unfold a_window_apart.
        cbn in Hw. split_bools. unfold saturating_since, EXPIRY_LOG_WINDOW in *.
        assert (0 < from_secs 60) by done. lia.
      * apply last_None in L as ->. constructor.
Qed.

(** *** Wakeups *)

Definition alert (w : World) : Prop := dirty_depth (w_table w) = O ∨ w_permit w = true.

Lemma relay_all_alert rs g p :
  dirty_depth g = O ∨ p = true →
  dirty_depth (relay_all rs g p).1 = O ∨ (relay_all rs g p).2 = true.
Proof.
  unfold relay_all. revert g p. induction rs as [|r rs IH]; intros g p Hp; [done|].
  cbn [foldl]. unfold relay_one at 2 4. cbn [fst snd].
  destruct (upsert g _ _ _ _ _ _ _) as [[g' out] woke] eqn:U. apply IH.
  destruct Hp as [Hp| ->]; [|by right]. pose proof U as U'. unfold upsert in U'.
  destruct (entries g !! _); [injection U' as <- <- <-; right; by rewrite orb_true_r|].
  destruct (_ <=? _); injection U' as <- <- <-; [by left|right; by rewrite orb_true_r].
Qed.

Definition keeps_alert {A} (m : M A) : Prop :=
  ∀ w a w', m w = Some (a, w') → alert w → alert w'.

Lemma keeps_alert_bind {A B} (m : M A) (f : A → M B) :
  keeps_alert m → (∀ a, keeps_alert (f a)) → keeps_alert (bind m f).
Proof.
  intros Hm Hf w b w'. unfold bind. destruct (m w) as [[a w1]|] eqn:E; [|done].
  intros Ef Ha. eapply Hf; [exact Ef|]. by eapply Hm.
Qed.

Lemma do_point_alert mv w : alert w → alert (do_point mv w).
Proof.
  unfold alert, do_point. intros Ha%(relay_all_alert (mv_relayed mv)).
  by destruct (relay_all _ _ _).
Qed.

Section actor_wakeups.
Context `{ActorEnv}.

Lemma keeps_alert_pure {A} (m : M A) :
  (∀ w a w', m w = Some (a, w') → w_table w' = w_table w ∧ w_permit w' = w_permit w) →
  keeps_alert m.
Proof. intros Hm w a w' E. unfold alert. by destruct (Hm _ _ _ E) as [-> ->]. Qed.

Lemma keeps_alert_point : keeps_alert point.
Proof. intros w a w' [= <- <-]. apply do_point_alert. Qed.

Lemma keeps_alert_publish : keeps_alert publish.
Proof.
  unfold publish. apply keeps_alert_bind; [apply keeps_alert_pure; by intros ? ? ? [= <- <-]|].
  intros []; cbn [negb]; [|apply keeps_alert_pure; by intros ? ? ? [= <- <-]].
  unfold read_table, now_.
  repeat (apply keeps_alert_bind; [|intros ?]); try apply keeps_alert_point;
    apply keeps_alert_pure; intros ? ? ?; unfold gets, modify, on_bucket, level; by intros [= <- <-].
Qed.
End actor_wakeups.

(** *** Every loop ends *)

(** The bucket is a bucket. *)
Definition sound (w : World) : Prop := budget (w_now w) (forks w) w.

Lemma atoms_sound w w' : rtc atom w w' → sound w → sound w'.
Proof.
  intros Hr Hs. eapply budget_from, (atoms_keep (budget (w_now w) (forks w))); [|done..].
  intros. by eapply atom_budget.
Qed.

Definition ends {A} (m : M A) : Prop := ∀ w, sound w → ∃ a w', m w = Some (a, w').

Lemma ends_ret {A} (a : A) : ends (ret a).
Proof. intros w _. by exists a, w. Qed.
Lemma ends_gets {A} (f : World → A) : ends (gets f).
Proof. intros w _. by exists (f w), w. Qed.
Lemma ends_modify f : ends (modify f).
Proof. intros w _. by eexists _, _. Qed.

Lemma ends_bind {A B} (m : M A) (f : A → M B) :
  runs m → ends m → (∀ a, ends (f a)) → ends (bind m f).
Proof.
  intros Hr Hm Hf w Hw. destruct (Hm w Hw) as (a & w1 & E). unfold bind. rewrite E.
  apply Hf. eapply atoms_sound; [by eapply Hr|done].
Qed.

Lemma ends_forM {A B} (l : list A) (b : B) f :
  (∀ b x, runs (f b x)) → (∀ b x, ends (f b x)) → ends (forM l b f).
Proof.
  intros Hr Hf. revert b. induction l as [|x l IH]; intros b; cbn; [apply ends_ret|].
  apply ends_bind; auto.
Qed.

Section actor_ends.
Context `{ActorEnv}.

Lemma do_point_same mv w :
  w_actor (do_point mv w) = w_actor w ∧ w_now w ≤ w_now (do_point mv w) ∧
  w_events (do_point mv w) = w_events w.
Proof. unfold do_point. destruct (relay_all _ _ _). cbn. split_and!; done || lia. Qed.

(** Once the token is there, spending it succeeds. *)
Lemma spend_succeeds (k : M unit) w :
  bucket_ok (bucket (w_actor w)) →
  (∀ t, w_now w ≤ t → 1 ≤ tokens (refill (bucket (w_actor w)) t)) →
  ∃ w', (emit EvTokenSpend >>; now <~ now_ ;; spent <~ on_bucket spend now ;;
         if (spent : bool) then ret tt else k) w = Some (tt, w').
Proof.
  intros Hok Hr. unfold bind, emit, modify, now_, point, gets, on_bucket, bind.
  set (w1 := do_point _ _).
  destruct (do_point_same (env_move (w_tick (add_event EvTokenSpend w))) (add_event EvTokenSpend w))
    as (Hb & Hn & _). fold w1 in Hb, Hn. cbn in Hb, Hn. rewrite Hb.
  destruct (spend _ (w_now w1)) as [b ok] eqn:E.
  apply spend_spec in E as (_ & _ & _ & Hp); [|done].
  assert (ok = true) as ->; [|by eexists]. apply Hp. specialize (Hr (w_now w1)). lia.
Qed.

(** One turn of the wait loop: it spends a token or sleeps until the tokens are there. *)
Lemma wait_turn fuel want w :
  bucket_ok (bucket (w_actor w)) → 1 ≤ want ≤ BURST →
  (∃ w', wait_and_spend_loop (S fuel) want w = Some (tt, w')) ∨
  (∃ w', wait_and_spend_loop (S fuel) want w = wait_and_spend_loop fuel want w' ∧
     bucket_ok (bucket (w_actor w')) ∧
     (∀ t, w_now w' ≤ t → want ≤ tokens (refill (bucket (w_actor w')) t)) ∧
     ¬ (∀ t, w_now w ≤ t → want ≤ tokens (refill (bucket (w_actor w)) t))).
Proof.
  intros Hok Hw. set (w0 := add_event EvWaitDecision w).
  set (w1 := do_point (env_move (w_tick w0)) w0).
  destruct (do_point_same (env_move (w_tick w0)) w0) as (Hb & Hn & _). fold w1 in Hb, Hn.
  cbn in Hb, Hn. pose proof (wait_for_spec (bucket (w_actor w1)) (w_now w1) want) as Hwf.
  assert (Heq : wait_and_spend_loop (S fuel) want w =
    let '(b, d) := wait_for (bucket (w_actor w1)) (w_now w1) want in
    let w2 := set_actor (set_bucket b (w_actor w1)) w1 in
    if d =? 0
    then (emit EvTokenSpend >>; now <~ now_ ;; spent <~ on_bucket spend now ;;
          if (spent : bool) then ret tt else wait_and_spend_loop fuel want) w2
    else wait_and_spend_loop fuel want (set_now (w_now w2 + d) w2)).
  { cbn [wait_and_spend_loop]. unfold bind at 1 2 3, emit at 1, modify at 1, now_ at 1, bind at 1,
      point at 1, gets at 1, on_bucket at 1. fold w0. fold w1.
    destruct (wait_for _ _ _) as [b d]. by destruct (d =? 0). }
  rewrite Heq. clear Heq. rewrite Hb in *. destruct (wait_for _ (w_now w1) want) as [b d].
  destruct Hwf as (-> & Hd & Hz & Hlater); [done..|]. cbv zeta.
  pose proof (refill_ok _ (w_now w1) Hok) as Hok'.
  destruct (d =? 0) eqn:E; split_bools.
  - left. apply spend_succeeds; cbn; [done|]. intros t Ht. specialize (Hlater t). lia.
  - right. eexists. split; [reflexivity|]. cbn. split; [done|]. split; [apply Hlater|].
    intros Hr. apply E, Hz, Hr. done.
Qed.

(** Two turns always do: the wait that was computed is long enough. *)
Lemma ends_wait_and_spend want : 1 ≤ want ≤ BURST → ends (wait_and_spend want).
Proof.
  intros Hw w [Hok _ _ _]. unfold wait_and_spend, WAIT_TURNS.
  destruct (wait_turn 1 want w Hok Hw) as [[w' ->]|(w' & -> & Hok' & Hr & _)]; [by eexists _, _|].
  destruct (wait_turn 0 want w' Hok' Hw) as [[w2 ->]|(w2 & _ & _ & _ & Hn)]; [by eexists _, _|].
  done.
Qed.

Lemma batch_want_bounds depth : depth ≠ O → 1 ≤ batch_want depth ≤ BURST.
Proof. unfold batch_want, BURST, u32_max. lia. Qed.

Lemma ends_now : ends now_.
Proof. intros w _. by eexists _, _. Qed.
Lemma ends_read_table {A} (f : Inner → A) : ends (read_table f).
Proof. intros w _. by eexists _, _. Qed.
Lemma ends_on_bucket {A} (f : Bucket → Instant → Bucket * A) t : ends (on_bucket f t).
Proof. intros w _. unfold on_bucket. destruct (f _ _). by eexists _, _. Qed.
Lemma ends_take t : ends (take_dirty t).
Proof.
  intros w _. unfold take_dirty, bind, point. destruct (take_next_dirty _ _). by eexists _, _.
Qed.
Lemma ends_put row addr t : ends (put_dirty row addr t).
Proof.
  intros w _. unfold put_dirty, bind, point. destruct (re_dirty _ _ _ _) as [[? ?] ?]. by eexists _, _.
Qed.
Lemma ends_reap t : ends (reap t).
Proof.
  intros w _. unfold reap, bind, point. destruct (remove_expired _ _). by eexists _, _.
Qed.
Lemma ends_note_expiries rows t : ends (note_expiries rows t).
Proof.
  intros w _. unfold note_expiries, bind, with_actor, modify, gets.
  destruct (fresh_rows _ _ _); by eexists _, _.
Qed.
Lemma ends_read_kernel : ends read_kernel.
Proof.
  intros w _. unfold read_kernel, bind, fork, with_actor, modify, gets.
  destruct (read_outcome _); [by eexists _, _|]. destruct (read_failing _); by eexists _, _.
Qed.
Lemma ends_write_failed row addr why : ends (write_failed row addr why).
Proof.
  intros w _. unfold write_failed, bind, with_actor, modify, gets.
  destruct (bool_decide _); by eexists _, _.
Qed.
Hint Resolve ends_ret ends_gets ends_modify ends_now ends_read_table ends_on_bucket ends_take
  ends_put ends_reap ends_note_expiries ends_read_kernel ends_write_failed : actor.

(** The batch loop needs no budget: it ends because it handles one entry fewer each time. *)
Lemma ends_batch_loop n doc seen pb dr w :
  ∃ a w', batch_loop n doc seen pb dr w = Some (a, w').
Proof.
  revert seen pb dr w. induction n as [|n IH]; intros seen pb dr w; cbn [batch_loop];
    [by eexists _, _|].
  unfold bind at 1 2, now_, bind at 1, point at 1, gets at 1, take_dirty, bind at 1, point at 1.
  destruct (take_next_dirty _ _) as [g next]. destruct (taken next) as [t|]; [|by eexists _, _].
  case_bool_decide; [apply IH|]. destruct (verb_of _) as [verb|]; [|apply IH].
  unfold bind at 1 2 3, emit, modify, now_, bind at 1, point at 1, gets at 1, on_bucket.
  destruct (spend _ _) as [b []]; cbn [negb]; [|by eexists _, _].
  unfold bind at 1, fork. destruct (write_failure _) as [why|]; [|apply IH].
  unfold bind at 1. match goal with |- context [write_failed ?r ?a ?y ?v] =>
    assert (∃ u v', write_failed r a y v = Some (u, v')) as (u & v' & ->) end; [|apply IH].
  unfold write_failed, bind, with_actor, modify, gets. destruct (bool_decide _); by eexists _, _.
Qed.

Lemma ends_wait_read {A} want (k : option KernelNeighbors → M A) :
  1 ≤ want ≤ BURST → (∀ d, runs (k d)) → (∀ d, ends (k d)) →
  ends (wait_and_spend want >>; read <~ read_kernel ;; k read).
Proof.
  intros Hw Hr Hk w Hs. pose proof (runs_wait_read WAIT_TURNS want ret runs_ret) as Hrr.
  destruct (ends_wait_and_spend want Hw w Hs) as ([] & w1 & E1). unfold bind. rewrite E1.
  assert (∃ d w2, read_kernel w1 = Some (d, w2)) as (d & w2 & E2).
  { unfold read_kernel, bind, fork, with_actor, modify, gets.
    destruct (read_outcome _); [by eexists _, _|]. destruct (read_failing _); by eexists _, _. }
  rewrite E2. apply Hk. eapply atoms_sound; [|exact Hs]. eapply Hrr.
  unfold bind. unfold wait_and_spend in E1. rewrite E1, E2. done.
Qed.

Lemma runs_put_back_one t d k : runs (put_back_one t d k).
Proof. apply runs_bind; [apply runs_put|intros out; apply runs_ret]. Qed.

Lemma ends_run_batch : ends run_batch.
Proof.
  apply ends_bind; [by apply runs_emit|apply ends_modify|intros _].
  apply ends_bind; [apply runs_read_table|apply ends_read_table|intros depth].
  destruct (depth =? 0)%nat eqn:E; [apply ends_ret|]. apply Nat.eqb_neq in E.
  apply ends_wait_read; [by apply batch_want_bounds| |]; intros [doc|];
    [|apply runs_ret| |apply ends_ret].
  - apply runs_bind; [apply runs_batch_loop|intros out].
    apply runs_bind; [apply runs_now|intros now].
    apply runs_bind; [apply runs_forM, runs_put_back_one|intros d].
    apply runs_bind; [apply runs_note_expiries|intros _; apply runs_ret].
  - apply ends_bind; [apply runs_batch_loop|intros w _; apply ends_batch_loop|intros out].
    apply ends_bind; [apply runs_now|apply ends_now|intros now].
    apply ends_bind; [apply runs_forM, runs_put_back_one| |intros d].
    + apply ends_forM; [apply runs_put_back_one|]. intros b k.
      apply ends_bind; [apply runs_put|apply ends_put|intros; apply ends_ret].
    + apply ends_bind; [apply runs_note_expiries|apply ends_note_expiries|intros; apply ends_ret].
Qed.

Lemma runs_sweep_entry doc t acc e : runs (sweep_entry doc t acc e).
Proof.
  destruct e as [[row addr] lg]. unfold sweep_entry. destruct (verb_of _); [|apply runs_ret].
  apply runs_bind; [apply runs_put|intros; apply runs_ret].
Qed.

Lemma ends_sweep_entry doc t acc e : ends (sweep_entry doc t acc e).
Proof.
  destruct e as [[row addr] lg]. unfold sweep_entry. destruct (verb_of _); [|apply ends_ret].
  apply ends_bind; [apply runs_put|apply ends_put|intros; apply ends_ret].
Qed.

Lemma ends_sweep : ends sweep.
Proof.
  apply ends_bind; [apply runs_now|apply ends_now|intros now].
  apply ends_bind; [apply runs_reap|apply ends_reap|intros reaped].
  apply ends_wait_read; [unfold BURST; lia| |]; intros [doc|].
  - apply runs_bind; [apply runs_now|intros now']. apply runs_bind; [apply runs_read_table|intros es].
    apply runs_bind; [apply runs_forM, runs_sweep_entry|intros acc].
    apply runs_bind; [apply runs_note_expiries|intros; apply runs_ret].
  - apply runs_bind; [apply runs_now|intros now'].
    apply runs_bind; [apply runs_note_expiries|intros; apply runs_ret].
  - apply ends_bind; [apply runs_now|apply ends_now|intros now'].
    apply ends_bind; [apply runs_read_table|apply ends_read_table|intros es].
    apply ends_bind; [apply runs_forM, runs_sweep_entry|apply ends_forM|intros acc];
      [apply runs_sweep_entry|apply ends_sweep_entry|].
    apply ends_bind; [apply runs_note_expiries|apply ends_note_expiries|intros; apply ends_ret].
  - apply ends_bind; [apply runs_now|apply ends_now|intros now'].
    apply ends_bind; [apply runs_note_expiries|apply ends_note_expiries|intros; apply ends_ret].
Qed.

Lemma ends_step : ends step.
Proof.
  apply ends_bind; [apply runs_now|apply ends_now|intros now].
  apply ends_bind; [apply runs_gets|apply ends_gets|intros []].
  - apply ends_bind; [apply runs_sweep|apply ends_sweep|intros s].
    apply ends_bind; [apply runs_now|apply ends_now|intros now'].
    apply ends_bind; [apply runs_tally; constructor|apply ends_modify|intros; apply ends_ret].
  - apply ends_bind; [apply runs_run_batch|apply ends_run_batch|intros; apply ends_ret].
Qed.

Lemma publish_ends w : ∃ w', publish w = Some (tt, w').
Proof.
  unfold publish, bind at 1, gets at 1. destruct (has_shared _); cbn [negb]; by eexists.
Qed.

Lemma ends_turn : ends turn.
Proof.
  apply ends_bind; [apply runs_step|apply ends_step|intros s].
  apply ends_bind; [apply runs_publish| |intros; apply ends_ret].
  intros w _. destruct (publish_ends w) as [w' E]. by exists tt, w'.
Qed.
End actor_ends.

(** ** What one batch forks, and what a failed read leaves alone *)

Definition fork_argv (e : Event) : option (list string) :=
  match e with EvFork argv => Some argv | _ => None end.
Definition fork_argvs (w : World) : list (list string) := omap fork_argv (w_events w).

Lemma fork_argvs_add e w :
  fork_argvs (add_event e w) = fork_argvs w ++ option_list (fork_argv e).
Proof. unfold fork_argvs. cbn [w_events add_event]. rewrite omap_app. by destruct e. Qed.

Lemma fork_count_argvs w : fork_count (w_events w) = length (fork_argvs w).
Proof.
  unfold fork_count, fork_argvs. induction (w_events w) as [|e es IH]; [done|].
  rewrite filter_cons. destruct e; cbn; try (rewrite decide_False by done); try done.
  rewrite decide_True by done. cbn. by rewrite IH.
Qed.

(** The table changed only by what relays admitted. *)
Definition relayed : relation Inner := rtc (λ g g', ∃ r, g' = (relay_one (g, false) r).1).

Lemma relay_all_relayed rs g p : relayed g (relay_all rs g p).1.
Proof.
  unfold relay_all. revert g p. induction rs as [|r rs IH]; intros g p; [done|]. cbn [foldl].
  destruct (relay_one (g, p) r) as [g1 p1] eqn:E. eapply rtc_l; [|apply IH].
  exists r. revert E. unfold relay_one. cbn [fst snd].
  destruct (upsert g _ _ _ _ _ _ _) as [[g2 ?] ?]. by intros [= <- _].
Qed.

(** An operation that forks nothing and leaves the table to the relays. *)
Definition idles (w w' : World) : Prop :=
  fork_argvs w' = fork_argvs w ∧ relayed (w_table w) (w_table w').
Definition idle {A} (m : M A) : Prop := ∀ w a w', m w = Some (a, w') → idles w w'.

Lemma idles_refl w : idles w w.
Proof. by split. Qed.
Lemma idles_trans w1 w2 w3 : idles w1 w2 → idles w2 w3 → idles w1 w3.
Proof. intros [E1 ?] [E2 ?]. split; [by rewrite E2|by etrans]. Qed.

Lemma idle_bind {A B} (m : M A) (f : A → M B) : idle m → (∀ a, idle (f a)) → idle (bind m f).
Proof.
  intros Hm Hf w b w'. unfold bind. destruct (m w) as [[a w1]|] eqn:E; [|done].
  intros Ef. eapply idles_trans; [by eapply Hm|by eapply Hf].
Qed.

Lemma do_point_idles mv w : idles w (do_point mv w).
Proof.
  unfold do_point. pose proof (relay_all_relayed (mv_relayed mv) (w_table w) (w_permit w)).
  by destruct (relay_all _ _ _).
Qed.

Lemma idle_ret {A} (a : A) : idle (ret a).
Proof. intros w b w' [= _ <-]. apply idles_refl. Qed.
Lemma idle_gets {A} (f : World → A) : idle (gets f).
Proof. intros w b w' [= _ <-]. apply idles_refl. Qed.
Lemma idle_with_actor f : idle (with_actor f).
Proof. by intros w b w' [= _ <-]. Qed.
Lemma idle_emit e : fork_argv e = None → idle (emit e).
Proof.
  intros He w b w' [= _ <-]. split; [|done]. by rewrite fork_argvs_add, He, app_nil_r.
Qed.
Lemma idle_line l : idle (journal_line l).
Proof. intros w b w' [= _ <-]. split; [|done]. rewrite fork_argvs_add. by rewrite app_nil_r. Qed.
Lemma idle_on_bucket {A} (f : Bucket → Instant → Bucket * A) t : idle (on_bucket f t).
Proof. intros w b w'. unfold on_bucket. destruct (f _ _). by intros [= _ <-]. Qed.
#[export] Hint Resolve idle_bind idle_ret idle_gets idle_with_actor idle_line idle_on_bucket : actor.

Section actor_batch.
Context `{ActorEnv}.

Lemma idle_point : idle point.
Proof. intros w b w' [= _ <-]. apply do_point_idles. Qed.
Hint Resolve idle_point : actor.
Lemma idle_now : idle now_.
Proof. unfold now_. auto with actor. Qed.
Lemma idle_read_table {A} (f : Inner → A) : idle (read_table f).
Proof. unfold read_table. auto with actor. Qed.
Hint Resolve idle_now idle_read_table : actor.

Lemma idle_note_expiries rows t : idle (note_expiries rows t).
Proof.
  unfold note_expiries. apply idle_bind; [apply idle_with_actor|intros _].
  apply idle_bind; [apply idle_gets|intros [|r rs]]; [apply idle_ret|]. auto with actor.
Qed.

Lemma idle_wait_loop fuel want : idle (wait_and_spend_loop fuel want).
Proof.
  induction fuel as [|f IH]; [intros w a w'; done|]. cbn [wait_and_spend_loop].
  apply idle_bind; [by apply idle_emit|intros _]. apply idle_bind; [apply idle_now|intros now].
  apply idle_bind; [apply idle_on_bucket|intros d]. destruct (d =? 0).
  - apply idle_bind; [by apply idle_emit|intros _]. apply idle_bind; [apply idle_now|intros now'].
    apply idle_bind; [apply idle_on_bucket|intros []]; [apply idle_ret|done].
  - apply idle_bind; [by intros w a w' [= _ <-]|done].
Qed.

(** The read is one fork, and what it answered is what the reader returns. *)
Lemma read_kernel_spec w d w' :
  read_kernel w = Some (d, w') →
  fork_argvs w' = fork_argvs w ++ [READ_ARGV] ∧ w_table w' = w_table w ∧
  match d with
  | Some doc => read_outcome (io_run (fork_count (w_events w)) READ_ARGV) = Ok doc ∧
      counts (w_actor w') = counts (w_actor w)
  | None => (∃ why, read_outcome (io_run (fork_count (w_events w)) READ_ARGV) = Err why) ∧
      counts (w_actor w') = count_read_failure (counts (w_actor w)) ∧
      read_failing (w_actor w') = true
  end.
Proof.
  assert (Hf : fork_argvs (add_event (EvFork READ_ARGV) w) = fork_argvs w ++ [READ_ARGV])
    by (by rewrite fork_argvs_add).
  unfold read_kernel, bind, fork, with_actor, modify, gets, ret.
  destruct (read_outcome _) as [doc|why].
  - intros [= <- <-]. by split_and!.
  - cbn [w_actor set_actor read_failing count_host add_event].
    destruct (read_failing (w_actor w)) eqn:F; intros [= <- <-].
    + split_and!; [done|done|by eexists|done|done].
    + split_and!; [|done|by eexists|done|done].
      unfold journal_line, modify. rewrite fork_argvs_add. cbn [fork_argv option_list].
      by rewrite app_nil_r.
Qed.

(** A write of a batch: the claim as it was taken, and the verb it was written with. *)
Definition Write : Type := Taken * WriteVerb.
Definition wr_key (x : Write) : Key := (t_row x.1, t_addr x.1).
Definition wr_argv (x : Write) : list string :=
  write_argv x.2 (t_addr x.1) (t_mac x.1) (t_leg x.1).
Definition called_for (doc : KernelNeighbors) (x : Write) : Prop :=
  verb_of (classify doc (t_leg x.1) (t_addr x.1)) = Some x.2.

Lemma take_dirty_forks t w next w' :
  take_dirty t w = Some (next, w') → fork_argvs w' = fork_argvs w.
Proof.
  unfold take_dirty, bind, point. destruct (take_next_dirty _ _) as [g out].
  intros [= _ <-]. etrans; [|apply (do_point_idles (env_move (w_tick w)) w)]. done.
Qed.

Lemma put_dirty_forks row addr t w out w' :
  put_dirty row addr t w = Some (out, w') → fork_argvs w' = fork_argvs w.
Proof.
  unfold put_dirty, bind, point. destruct (re_dirty _ _ _ _) as [[g o] wk].
  intros [= _ <-]. etrans; [|apply (do_point_idles (env_move (w_tick w)) w)]. done.
Qed.

Lemma put_back_forks t l d w out w' :
  forM l d (put_back_one t) w = Some (out, w') → fork_argvs w' = fork_argvs w.
Proof.
  revert d w. induction l as [|k l IH]; intros d w; cbn [forM]; [by intros [= _ <-]|].
  unfold bind at 1. destruct (put_back_one t d k w) as [[d1 w1]|] eqn:E; [|done].
  intros ->%IH. revert E. unfold put_back_one, bind.
  destruct (put_dirty _ _ _ w) as [[o w2]|] eqn:E; [|done]. intros [= _ <-].
  by apply put_dirty_forks in E.
Qed.

Lemma batch_loop_writes n doc seen pb dr w out w' :
  batch_loop n doc seen pb dr w = Some (out, w') →
  ∃ ws : list Write, fork_argvs w' = fork_argvs w ++ (wr_argv <$> ws) ∧
    (length ws ≤ n)%nat ∧ NoDup (wr_key <$> ws) ∧
    (∀ x, x ∈ ws → (wr_key x ∉ seen) ∧ called_for doc x).
Proof.
  revert seen pb dr w. induction n as [|n IH]; intros seen pb dr w; cbn [batch_loop].
  { intros [= _ <-]. exists []. cbn. rewrite app_nil_r. split_and!; [done|lia|constructor|set_solver]. }
  assert (Hnone : ∃ ws : list Write, fork_argvs w = fork_argvs w ++ (wr_argv <$> ws) ∧
    (length ws ≤ S n)%nat ∧ NoDup (wr_key <$> ws) ∧
    (∀ x, x ∈ ws → (wr_key x ∉ seen) ∧ called_for doc x)).
  { exists []. cbn. rewrite app_nil_r. split_and!; [done|lia|constructor|set_solver]. }
  unfold bind at 1. destruct (now_ w) as [[t w1]|] eqn:E1; [|done].
  apply idle_now in E1 as [F1 _].
  unfold bind at 1. destruct (take_dirty t w1) as [[next w2]|] eqn:E2; [|done].
  apply take_dirty_forks in E2 as F2. rewrite F1 in F2. rewrite <-F2 in Hnone |- *. clear F1 F2.
  destruct (taken next) as [tk|] eqn:Tk; [|by intros [= _ <-]].
  assert (Hlift : ∀ seen' pb' dr' v, fork_argvs v = fork_argvs w2 →
    (∀ k, k ∈ seen → k ∈ seen') →
    batch_loop n doc seen' pb' dr' v = Some (out, w') →
    ∃ ws : list Write, fork_argvs w' = fork_argvs w2 ++ (wr_argv <$> ws) ∧
      (length ws ≤ S n)%nat ∧ NoDup (wr_key <$> ws) ∧
      (∀ x, x ∈ ws → (wr_key x ∉ seen) ∧ called_for doc x)).
  { intros seen' pb' dr' v Hv Hsub (ws & -> & Hl & Hn & Hx)%IH. exists ws. rewrite Hv.
    split_and!; [done|lia|done|]. intros x Hin. destruct (Hx x Hin). split; [set_solver|done]. }
  case_bool_decide as Hseen; [by apply Hlift|].
  destruct (verb_of _) as [verb|] eqn:Hv.
  2:{ unfold bind, with_actor, modify. apply Hlift; [done|set_solver]. }
  unfold bind at 1, emit, modify.
  unfold bind at 1. destruct (now_ _) as [[t3 w3]|] eqn:E3; [|done].
  apply idle_now in E3 as [F3 _]. rewrite fork_argvs_add in F3. cbn in F3. rewrite app_nil_r in F3.
  unfold bind at 1. destruct (on_bucket spend t3 w3) as [[funded w4]|] eqn:E4; [|done].
  apply idle_on_bucket in E4 as [F4 _]. rewrite F3 in F4.
  destruct funded; cbn [negb]; [|intros [= _ <-]; by rewrite F4].
  set (x := (tk, verb) : Write).
  assert (Hcons : ∀ pb' dr' v, fork_argvs v = fork_argvs w4 ++ [wr_argv x] →
    batch_loop n doc (seen ∪ {[wr_key x]}) pb' dr' v = Some (out, w') →
    ∃ ws : list Write, fork_argvs w' = fork_argvs w2 ++ (wr_argv <$> ws) ∧
      (length ws ≤ S n)%nat ∧ NoDup (wr_key <$> ws) ∧
      (∀ x, x ∈ ws → (wr_key x ∉ seen) ∧ called_for doc x)).
  { intros pb' dr' v Hvv (ws & -> & Hl & Hn & Hx)%IH. exists (x :: ws). rewrite Hvv, F4.
    split_and!; [by rewrite <-app_assoc|cbn; lia| |].
    - cbn. constructor; [|done]. intros (y & Hy & Hin)%list_elem_of_fmap.
      destruct (Hx y Hin) as [Hns _]. apply Hns.
      rewrite <-Hy. by apply elem_of_union_r, elem_of_singleton.
    - intros y [->|Hin]%elem_of_cons; [split; [exact Hseen|exact Hv]|]. destruct (Hx y Hin) as [Hns Hc].
      split; [|exact Hc]. intros Hs. by apply Hns, elem_of_union_l. }
  unfold bind at 1, fork.
  assert (Hfork : fork_argvs (add_event (EvFork (wr_argv x)) w4) = fork_argvs w4 ++ [wr_argv x])
    by (by rewrite fork_argvs_add).
  destruct (write_failure _) as [why|].
  - unfold bind at 1. destruct (write_failed _ _ _ _) as [[[] w5]|] eqn:E5; [|done].
    apply Hcons. rewrite <-Hfork. revert E5. unfold write_failed.
    intros E5. eapply (idle_bind (with_actor _)) in E5 as [F5 _]; [exact F5|apply idle_with_actor|].
    intros _. apply idle_bind; [apply idle_gets|intros []]; auto with actor.
  - apply Hcons. by rewrite <-Hfork.
Qed.
End actor_batch.

(** ** Reading the neighbour document *)

Definition entry_dst (e : Value) : option string := as_str (index e "dst").
(** The entry is about [addr] on [lg]. *)
Definition names (lg : string) (addr : Ipv4Addr) (e : Value) : Prop :=
  (entry_dst e ≫= parse_addr) = Some addr ∧ as_str (index e "dev") = Some lg.
#[export] Instance names_dec lg addr e : Decision (names lg addr e).
Proof. unfold names. apply _. Defined.
Definition has_lladdr (e : Value) : bool := bool_decide (is_Some (as_str (index e "lladdr"))).

Lemma parse_entry_spec acc e lg addr :
  (parse_entry acc e).1 !! (lg, addr)
    = (if bool_decide (names lg addr e) then Some (has_lladdr e) else acc.1 !! (lg, addr)) ∧
  (parse_entry acc e).2 = (match entry_dst e with Some _ => S acc.2 | None => acc.2 end).
Proof.
  destruct acc as [m u]. case_bool_decide as Hn; unfold names in Hn; revert Hn;
    unfold parse_entry, entry_dst;
    destruct (as_str (index e "dst")) as [dst|]; cbn; [|by intros [? _]| |by split];
    (destruct (parse_addr dst) as [d|], (as_str (index e "dev")) as [dev|]; cbn);
    try (by intros [? ?]); try (by split).
  - intros [[= ->] [= ->]]. split; [apply (lookup_insert_eq m)|done].
  - intros Hn. split; [apply (lookup_insert_ne m)|done]. naive_solver.
Qed.

Lemma parse_entries_spec arr lg addr :
  (foldl parse_entry (∅, O) arr).1 !! (lg, addr)
    = has_lladdr <$> list.last (filter (names lg addr) arr) ∧
  ((foldl parse_entry (∅, O) arr).2 = O ↔ ∀ e, e ∈ arr → entry_dst e = None).
Proof.
  induction arr as [|e arr [IH1 IH2]] using rev_ind; [cbn; split; [done|set_solver]|].
  rewrite foldl_app. cbn [foldl].
  destruct (parse_entry_spec (foldl parse_entry (∅, O) arr) e lg addr) as [-> ->]. split.
  - rewrite list.filter_app, IH1. case_bool_decide as Hn.
    + rewrite filter_cons_True by done. cbn. by rewrite last_snoc.
    + rewrite filter_cons_False by done. cbn. by rewrite app_nil_r.
  - destruct (entry_dst e) eqn:E.
    + split; [done|]. intros Hall. rewrite Hall in E; [done|]. set_solver.
    + rewrite IH2. set_solver.
Qed.

(** ** What the actor guarantees *)

Section actor_theorems.
Context `{ActorEnv}.

Lemma run_turns_atoms n k w w' : run_turns n k w = Some (tt, w') → rtc atom w w'.
Proof. apply runs_run_turns. Qed.

Lemma run_sound n k t0 shared w :
  run_turns n k (world_start t0 shared) = Some (tt, w) → sound w.
Proof.
  intros Hr%run_turns_atoms. eapply atoms_sound; [exact Hr|]. exact (budget_start t0 shared).
Qed.

(** In any stretch of any run the actor forks at most [BURST + 1] times plus once per
    [TOKEN_INTERVAL] elapsed, reads, sweeps and failed writes included, whatever the relays and
    the kernel do; in particular an idle hour buys nothing. *)
Theorem fork_rate_bounded (n1 k1 n2 k2 : nat) (t0 : Instant) (shared : bool) (w1 w2 : World) :
  run_turns n1 k1 (world_start t0 shared) = Some (tt, w1) →
  run_turns n2 k2 w1 = Some (tt, w2) →
  (forks w2 - forks w1) * TOKEN_INTERVAL
    ≤ (w_now w2 - w_now w1) + (BURST + 1) * TOKEN_INTERVAL.
Proof.
  intros H1%run_sound H2%run_turns_atoms. apply budget_bound.
  eapply atoms_keep; [|exact H2|exact H1]. intros. by eapply atom_budget.
Qed.

(** The actor never hangs: a turn of [run] taken in any state it can reach returns, on
    every interleaving with the relays, and no wait it begins takes more than two turns of the
    wait loop. *)
Theorem turn_returns (n k : nat) (t0 : Instant) (shared : bool) (w : World) :
  run_turns n k (world_start t0 shared) = Some (tt, w) →
  (∃ s w', turn w = Some (s, w')) ∧
  ∀ want, 1 ≤ want ≤ BURST → ∃ w', wait_and_spend_loop 2 want w = Some (tt, w').
Proof.
  intros Hs%run_sound. split; [by apply ends_turn|]. intros want Hw.
  destruct (ends_wait_and_spend want Hw w Hs) as ([] & w' & E). by exists w'.
Qed.

(** C14. A batch that drains reads the kernel exactly once, first, and then forks at most
    [BURST - 1] writes, at most one per claimed address, each for an address for which that
    read showed no MAC on that leg: [add] where it showed no entry, [replace] where it showed
    one without a MAC. A MAC the kernel holds is never written over. *)
Theorem kernel_mac_never_overwritten (w w' : World) :
  run_batch w = Some (Drained, w') →
  ∃ doc (ws : list Write),
    read_outcome (io_run (fork_count (w_events w)) READ_ARGV) = Ok doc ∧
    fork_argvs w' = fork_argvs w ++ READ_ARGV :: (wr_argv <$> ws) ∧
    Z.of_nat (length ws) ≤ BURST - 1 ∧ NoDup (wr_key <$> ws) ∧
    ∀ x, x ∈ ws → called_for doc x ∧ doc !! (t_leg x.1, t_addr x.1) ≠ Some true.
Proof.
  unfold run_batch. unfold bind at 1, emit, modify. set (w0 := add_event EvBatchStart w).
  assert (F0 : fork_argvs w0 = fork_argvs w) by (unfold w0; rewrite fork_argvs_add; apply app_nil_r).
  unfold bind at 1. destruct (read_table dirty_depth w0) as [[depth w1]|] eqn:E1; [|done].
  apply idle_read_table in E1 as [F1 _]. destruct (depth =? 0)%nat; [done|].
  unfold bind at 1. destruct (wait_and_spend _ w1) as [[[] w2]|] eqn:E2; [|done].
  apply idle_wait_loop in E2 as [F2 _]. rewrite F1, F0 in F2.
  unfold bind at 1. destruct (read_kernel w2) as [[[doc|] w3]|] eqn:E3; [| |done]; [|done].
  apply read_kernel_spec in E3 as (F3 & _ & Hd & _).
  rewrite fork_count_argvs, F2, <-fork_count_argvs in Hd. rewrite F2 in F3.
  unfold bind at 1. destruct (batch_loop _ _ _ _ _ w3) as [[out w4]|] eqn:E4; [|done].
  apply batch_loop_writes in E4 as (ws & F4 & Hl & Hn & Hx). rewrite F3 in F4.
  unfold bind at 1. destruct (now_ w4) as [[t w5]|] eqn:E5; [|done].
  apply idle_now in E5 as [F5 _].
  unfold bind at 1. destruct (forM _ _ _ w5) as [[dr w6]|] eqn:E6; [|done].
  apply put_back_forks in E6 as F6.
  unfold bind at 1. destruct (note_expiries dr t w6) as [[[] w7]|] eqn:E7; [|done].
  apply idle_note_expiries in E7 as [F7 _]. intros [= <-].
  exists doc, ws. rewrite F7, F6, F5, F4, <-app_assoc. split_and!; [done|done| |done|].
  - unfold BURST in *. lia.
  - intros x Hin. destruct (Hx x Hin) as [_ Hc]. split; [done|]. unfold called_for, classify in Hc.
    by destruct (doc !! _) as [[]|].
Qed.

(** A kernel read that failed is not an empty kernel: the batch takes nothing and writes
    nothing, and the sweep dirties nothing beyond reaping what its own clock expired; the table
    then differs only by what relays admitted meanwhile, and the one fork made is the read. *)
Theorem failed_read_changes_nothing (w w' : World) :
  (run_batch w = Some (ReadFailed, w') →
    relayed (w_table w) (w_table w') ∧ fork_argvs w' = fork_argvs w ++ [READ_ARGV]) ∧
  (sweep w = Some (SweepReadFailed, w') →
    ∃ g t, relayed (w_table w) g ∧ relayed (remove_expired g t).1 (w_table w') ∧
      fork_argvs w' = fork_argvs w ++ [READ_ARGV]).
Proof.
  split.
  - unfold run_batch. unfold bind at 1. destruct (emit EvBatchStart w) as [[[] w0]|] eqn:E0; [|done].
    apply (idle_emit EvBatchStart eq_refl) in E0 as I0.
    unfold bind at 1. destruct (read_table dirty_depth w0) as [[depth w1]|] eqn:E1; [|done].
    apply idle_read_table in E1 as I1. destruct (depth =? 0)%nat; [done|].
    unfold bind at 1. destruct (wait_and_spend _ w1) as [[[] w2]|] eqn:E2; [|done].
    apply idle_wait_loop in E2 as I2.
    destruct (idles_trans _ _ _ (idles_trans _ _ _ I0 I1) I2) as [F R].
    unfold bind at 1. destruct (read_kernel w2) as [[[doc|] w3]|] eqn:E3; [| |done].
    + unfold bind at 1. destruct (batch_loop _ _ _ _ _ w3) as [[out w4]|]; [|done].
      unfold bind at 1. destruct (now_ w4) as [[t w5]|]; [|done].
      unfold bind at 1. destruct (forM _ _ _ w5) as [[dr w6]|]; [|done].
      unfold bind at 1. by destruct (note_expiries dr t w6) as [[[] w7]|].
    + intros [= <-]. apply read_kernel_spec in E3 as (F3 & T3 & _). rewrite F3, F, T3. done.
  - unfold sweep. unfold bind at 1. destruct (now_ w) as [[t w1]|] eqn:E1; [|done].
    apply idle_now in E1 as [F1 R1].
    unfold bind at 1. destruct (reap t w1) as [[reaped w2]|] eqn:E2; [|done].
    assert (∃ g, relayed (w_table w1) g ∧ w_table w2 = (remove_expired g t).1 ∧
      fork_argvs w2 = fork_argvs w1) as (g & R2 & T2 & F2).
    { revert E2. unfold reap, bind, point.
      destruct (do_point_idles (env_move (w_tick w1)) w1) as [Fp Rp].
      destruct (remove_expired _ t) as [g o] eqn:G. intros [= _ <-].
      eexists. split; [exact Rp|]. by rewrite G. }
    unfold bind at 1. destruct (wait_and_spend 1 w2) as [[[] w3]|] eqn:E3; [|done].
    apply idle_wait_loop in E3 as I3.
    unfold bind at 1. destruct (read_kernel w3) as [[[doc|] w4]|] eqn:E4; [| |done].
    + unfold bind at 1. destruct (now_ w4) as [[t' w5]|]; [|done].
      unfold bind at 1. destruct (read_table list_entries w5) as [[es w6]|]; [|done].
      unfold bind at 1. destruct (forM _ _ _ w6) as [[acc w7]|]; [|done].
      unfold bind at 1. by destruct (note_expiries _ t' w7) as [[[] w8]|].
    + apply read_kernel_spec in E4 as (F4 & T4 & _).
      unfold bind at 1. destruct (now_ w4) as [[t' w5]|] eqn:E5; [|done].
      apply idle_now in E5 as I5.
      unfold bind at 1. destruct (note_expiries _ t' w5) as [[[] w6]|] eqn:E6; [|done].
      apply idle_note_expiries in E6 as I6. intros [= <-].
      destruct I3 as [F3 R3]. destruct (idles_trans _ _ _ I5 I6) as [F6 R6].
      exists g, t. split; [by etrans|]. rewrite <-T2. split.
      * etrans; [exact R3|]. by rewrite <-T4.
      * by rewrite F6, F4, F3, F2, F1.
Qed.

(** What the actor believes of the kernel is what the document says: an address is skipped
    on a leg exactly when the last entry naming them carries an [lladdr], replaced when that
    entry carries none, and added when no entry names them; and a document is unreadable exactly
    when it is no array, or a non-empty one in which nothing is understood. *)
Theorem kernel_read_correct (doc : option Value) :
  match kernel_parse doc with
  | Some k => ∃ arr, doc = Some (Arr arr) ∧
      ∀ lg addr, classify k lg addr =
        match list.last (filter (names lg addr) arr) with
        | None => ClassAdd
        | Some e => if has_lladdr e then ClassSkip else ClassReplace
        end
  | None => ∀ arr, doc = Some (Arr arr) → arr ≠ [] ∧ ∀ e, e ∈ arr → entry_dst e = None
  end.
Proof.
  unfold kernel_parse. destruct doc as [[| | | |arr|]|]; try done. unfold kernel_of.
  destruct (foldl parse_entry (∅, O) arr) as [k u] eqn:F.
  assert (Hs := λ lg addr, parse_entries_spec arr lg addr). rewrite F in Hs. cbn in Hs.
  destruct (_ && _) eqn:E.
  - intros arr' [= <-]. apply andb_true_iff in E as [E%Nat.eqb_eq E0%negb_true_iff%Nat.eqb_neq].
    split; [by intros ->|]. by apply (Hs ""%string 0).
  - exists arr. split; [done|]. intros lg addr. unfold classify. rewrite (proj1 (Hs lg addr)).
    destruct (list.last _) as [e|]; [|done]. cbn. by destruct (has_lladdr e).
Qed.

(** The expiry lines are throttled by time and by row, and by nothing an attacker controls:
    in any run the lines that name a row are at least [EXPIRY_LOG_WINDOW] apart. *)
Theorem expiry_lines_a_window_apart (row : string) (n k : nat) (t0 : Instant) (shared : bool)
    (w : World) :
  run_turns n k (world_start t0 shared) = Some (tt, w) →
  Sorted a_window_apart (line_times row (w_events w)).
Proof.
  intros Hr%run_turns_atoms. eapply (atoms_keep (spaced row)); [|exact Hr|].
  - intros. by eapply atom_spaced.
  - split; [constructor|done].
Qed.

(** The host's counters are the sums of the rows' counters after any run: no write, failed
    write, skip or expiry is counted on one side only. *)
Theorem counters_agree (n k : nat) (t0 : Instant) (shared : bool) (w : World) :
  run_turns n k (world_start t0 shared) = Some (tt, w) → tallied (w_actor w).
Proof.
  intros Hr%run_turns_atoms. eapply (atoms_keep (λ w, tallied (w_actor w))); [|exact Hr|done].
  intros. by eapply atom_tallied.
Qed.

(** No wakeup is lost: when a turn found nothing to do and a claim was admitted since, the
    permit is stored and the wait that follows returns at once, in the same state. *)
Theorem idle_turn_never_sleeps_on_work (w w' : World) (k : nat) :
  turn w = Some (DrainBatch Idle, w') → dirty_depth (w_table w') ≠ O →
  w_permit w' = true ∧ idle_wait (S k) w' = Some (tt, set_permit false w').
Proof.
  intros Ht Hd. assert (Ha : alert w').
  { revert Ht. unfold turn, bind at 1. destruct (step w) as [[s w1]|] eqn:E; [|done].
    unfold bind at 1. destruct (publish w1) as [[[] w2]|] eqn:P; [|done]. intros [= -> <-].
    eapply keeps_alert_publish; [exact P|]. revert E. unfold step, bind at 1.
    destruct (now_ w) as [[t v]|]; [|done]. unfold bind at 1, gets.
    destruct (next_sweep _ <=? t).
    - unfold bind at 1. destruct (sweep v) as [[sw v1]|]; [|done].
      unfold bind at 1. by destruct (now_ v1) as [[t1 v2]|].
    - unfold bind at 1. destruct (run_batch v) as [[b v1]|] eqn:B; [|done]. intros [= -> <-].
      revert B. unfold run_batch, bind at 1, emit, modify, bind at 1, read_table, bind at 1, point, gets.
      destruct (dirty_depth _ =? 0)%nat eqn:D.
      + intros [= <-]. left. by apply Nat.eqb_eq.
      + unfold bind at 1. destruct (wait_and_spend _ _) as [[[] v2]|]; [|done].
        unfold bind at 1. destruct (read_kernel v2) as [[[doc|] v3]|]; [|done|done].
        unfold bind at 1. destruct (batch_loop _ _ _ _ _ v3) as [[out v4]|]; [|done].
        unfold bind at 1. destruct (now_ v4) as [[t5 v5]|]; [|done].
        unfold bind at 1. destruct (forM _ _ _ v5) as [[dr v6]|]; [|done].
        unfold bind at 1. by destruct (note_expiries dr t5 v6) as [[[] v7]|]. }
  destruct Ha as [?|Hp]; [done|]. split; [done|].
  cbn [idle_wait]. unfold bind, gets, modify. by rewrite Hp.
Qed.
End actor_theorems.

(** ** Concrete runs *)

Definition demo_claim (n : Z) : Relayed :=
  {| ry_row := row_a; ry_leg := "v100"; ry_addr := addr_new 10 0 0 n; ry_mac := mac_of n;
     ry_expires := sec 100; ry_cap := cap2; ry_now := sec 1 |}.
Definition demo_entry : Value :=
  Obj [("dst", Str "10.0.0.1"); ("dev", Str "v100"); ("lladdr", Str "02:00:00:00:00:01")]%string.
Definition ok_output : result Error Output :=
  Ok {| status := 0; stdout := "document"; stderr := "" |}%string.

(** Two claims are admitted at the [at_]-th point; the kernel holds a MAC for the first, and
    every [ip] answers [answer]. *)
Definition demo_env (at_ : nat) (answer : result Error Output) : ActorEnv := {|
  env_move n := {| mv_time := 1000000000%N;
                   mv_relayed := if (n =? at_)%nat then [demo_claim 1; demo_claim 2] else [] |};
  io_run _ _ := answer;
  json_from_str _ := Some (Arr [demo_entry])
|}.

Definition after {A} (m : M A) (w : World) : World :=
  match m w with Some (_, w') => w' | None => w end.

Definition demo0 : ActorEnv := demo_env 0 ok_output.
Definition demo_start : World := world_start 0 true.
Definition demo_w1 : World := after (@run_turns demo0 1 1) demo_start.
Definition demo_w2 : World := after (@run_turns demo0 1 1) demo_w1.

Lemma demo_run1 : @run_turns demo0 1 1 demo_start = Some (tt, demo_w1).
Proof. vm_compute. reflexivity. Qed.
Lemma demo_run2 : @run_turns demo0 1 1 demo_w1 = Some (tt, demo_w2).
Proof. vm_compute. reflexivity. Qed.

Lemma fork_rate_witness :
  forks demo_w1 = 2 ∧
  (forks demo_w2 - forks demo_w1) * TOKEN_INTERVAL
    ≤ (w_now demo_w2 - w_now demo_w1) + (BURST + 1) * TOKEN_INTERVAL.
Proof.
  split; [vm_compute; reflexivity|].
  exact (@fork_rate_bounded demo0 1 1 1 1 0 true demo_w1 demo_w2 demo_run1 demo_run2).
Defined.

Lemma turn_returns_witness : ∃ s w', @turn demo0 demo_w1 = Some (s, w').
Proof. exact (proj1 (@turn_returns demo0 1 1 0 true demo_w1 demo_run1)). Defined.

Definition demo_claimed : World := do_point (@env_move demo0 0) demo_start.

(** Both addresses are claimed; the one the kernel holds a MAC for is skipped. *)
Lemma kernel_mac_witness :
  let w' := after (@run_batch demo0) demo_claimed in
  fork_argvs w' = [READ_ARGV;
    ["ip"; "neigh"; "add"; "10.0.0.2"; "lladdr"; "02:00:00:00:00:02"; "dev"; "v100"; "nud";
     "stale"]]%string ∧
  ∃ (doc : KernelNeighbors) (ws : list Write), doc !! ("v100"%string, addr_new 10 0 0 1) = Some true ∧
    length ws = 1%nat ∧ ∀ x, x ∈ ws → doc !! (t_leg x.1, t_addr x.1) ≠ Some true.
Proof.
  assert (@run_batch demo0 demo_claimed = Some (Drained, after (@run_batch demo0) demo_claimed))
    as E by (vm_compute; reflexivity).
  split; [vm_compute; reflexivity|].
  destruct (@kernel_mac_never_overwritten demo0 _ _ E) as (doc & ws & Hd & Hf & _ & _ & Hx).
  exists doc, ws. split; [|split].
  - assert (match @read_outcome demo0 (@io_run demo0 (fork_count (w_events demo_claimed)) READ_ARGV) with
            | Ok k => k !! ("v100"%string, addr_new 10 0 0 1) | Err _ => None end = Some true) as E'
      by (vm_compute; reflexivity).
    by rewrite Hd in E'.
  - assert (length (fork_argvs (after (@run_batch demo0) demo_claimed)) = 2%nat) as E'
      by (vm_compute; reflexivity).
    assert (fork_argvs demo_claimed = []) as E0 by (vm_compute; reflexivity).
    rewrite Hf, E0 in E'. cbn [app length] in E'. rewrite length_fmap in E'. lia.
  - intros x Hin. by destruct (Hx x Hin).
Defined.

Definition demo_broken : ActorEnv := demo_env 0 (Err (Fatal "cannot exec ip")).

Lemma failed_read_witness :
  let w' := after (@run_batch demo_broken) demo_claimed in
  fork_argvs w' = [READ_ARGV] ∧ dirty_depth (w_table w') = 2%nat ∧
  relayed (w_table demo_claimed) (w_table w').
Proof.
  assert (@run_batch demo_broken demo_claimed
    = Some (ReadFailed, after (@run_batch demo_broken) demo_claimed)) as E by (vm_compute; reflexivity).
  destruct (proj1 (@failed_read_changes_nothing demo_broken _ _) E) as [Hr Hf].
  split; [rewrite Hf; vm_compute; reflexivity|]. split; [vm_compute; reflexivity|exact Hr].
Defined.

Lemma expiry_lines_witness : Sorted a_window_apart (line_times row_a (w_events demo_w1)).
Proof. exact (@expiry_lines_a_window_apart demo0 row_a 1 1 0 true demo_w1 demo_run1). Defined.

Lemma counters_agree_witness :
  writes (counts (w_actor demo_w1)) = 1 ∧ skips (counts (w_actor demo_w1)) = 1 ∧
  tallied (w_actor demo_w1).
Proof.
  split; [vm_compute; reflexivity|]. split; [vm_compute; reflexivity|].
  exact (@counters_agree demo0 1 1 0 true demo_w1 demo_run1).
Defined.

(** The claims arrive while the idle turn publishes. *)
Definition demo_late : ActorEnv := demo_env 3 ok_output.

Lemma idle_turn_witness :
  let w' := after (@turn demo_late) demo_start in
  dirty_depth (w_table w') = 2%nat ∧ @idle_wait demo_late 1 w' = Some (tt, set_permit false w').
Proof.
  assert (@turn demo_late demo_start
    = Some (DrainBatch Idle, after (@turn demo_late) demo_start)) as E by (vm_compute; reflexivity).
  split; [vm_compute; reflexivity|].
  refine (proj2 (@idle_turn_never_sleeps_on_work demo_late _ _ 0 E _)). vm_compute. discriminate.
Defined.
