(* ===== verification/Watchdog.v ===== *)
(** The forwarding watchdog (src/src/commands/fwd_watchdog.rs): the fail-closed check of the
    forward policy, the write-back of what drifted, the rebuild of what vanished, the guard over
    the workload uplinks, and the reconcile of the host's additive default.

    One tick is an [IO] of [Sys]: a function of what the host answers, making a trace of
    everything done. The lines the source pushes on its report's vectors are [Note]s, in the
    order pushed; a tick that fails with [Err] drops them, as the source drops its vectors. *)
From Stdlib Require Import Ascii String.
From S2P Require Import Prelude Text Prober Decl Sys Net Fabric Derive EngineState Uplink HostRoutes.
From S2P Require Import Rules Legs EngineConf.
Local Open Scope Z_scope.
Local Open Scope cmd_scope.

(** ** The report *)

Inductive Note :=
| Restored (line : string)
| Rebuilt (line : string)
| Downed (line : string)
| Unrestored (line : string).

Definition restored_of (n : Note) : option string := match n with Restored l => Some l | _ => None end.
Definition rebuilt_of (n : Note) : option string := match n with Rebuilt l => Some l | _ => None end.
Definition downed_of (n : Note) : option string := match n with Downed l => Some l | _ => None end.
Definition unrestored_of (n : Note) : option string := match n with Unrestored l => Some l | _ => None end.

Record WatchdogReport := {
  wd_failed : option string;
  wd_corrected : list string;
  wd_blocked : list string;
  wd_resolved : option string;
  wd_restored : list string;
  wd_downed : list string;
  wd_transit_cost_error : option string;
  wd_unrestored : list string;
  wd_rebuilt : list string
}.

Definition transits (v : View) : bool :=
  bool_decide (m_kind (v_member v) = Decl.Host) && f_host_forward (v_fabric v).

Definition fabric_legs (d : Rows) : list string :=
  (cr_ifname <$> rw_class d) ++ (fr_ifname <$> rw_fallback d).

Definition logger (line : string) : IO unit := run_ignore ["logger"; "-t"; "cfab-fwd-watchdog"; line].

(** ** Forwarding *)

Definition transit_line (t : TransitCost) : string := ("transit-cost " ++ transit_word t ++ lf)%string.

Definition ask_transit_cost (v : View) (t : TransitCost) : IO (option string) :=
  let line := transit_line t in
  r <~ attempt (request (sock_path (v_fabric v)) line) ;;
  ret (match r with
       | Ok reply =>
           if has_substring quoted_error reply
           then Some ("engine refused " ++ trim line ++ ": " ++ trim reply)%string else None
       | Err e => Some ("engine would not take " ++ trim line ++ ": " ++ display e)%string
       end).

Definition not_loaded : string :=
  "table inet cfab-fwd / chain forward with policy drop is not loaded".

Definition forward_off (present : list string) (row : string * bool) : IO unit :=
  when (bool_decide (row.1 ∈ present)) (proc_sysctl row.1 "forwarding" "0").

Definition fail_closed (v : View) (d : Rows) (reason : string) : IO WatchdogReport :=
  present <~ conf_interfaces ;;
  each (forward_off present) (rw_owned d) >>~
  (cost <~ (if transits v then ask_transit_cost v LeafOffset else ret None) ;;
   logger ("FAIL-CLOSED: " ++ reason ++ " — forwarding=0 on every cfab interface; re-run cfab up")
   >>~
   ret {| wd_failed := Some reason; wd_corrected := []; wd_blocked := []; wd_resolved := None;
          wd_restored := []; wd_downed := []; wd_transit_cost_error := cost; wd_unrestored := [];
          wd_rebuilt := [] |}).

Definition trimmed (r : result Error string) : string :=
  match r with Ok s => trim s | Err _ => EmptyString end.

Definition correct_one (present : list string) (row : string * bool) : IO (list string) :=
  let '(ifn, fwd) := row in
  if negb (bool_decide (ifn ∈ present)) then ret []
  else
    let want := if fwd then "1" else "0" in
    let path := conf_path ifn "forwarding" in
    v <~ look (λ h, trimmed (h_read h path)) ;;
    if String.eqb v want then ret []
    else write path want >>~ ret [ifn ++ " forwarding " ++ v ++ "->" ++ want]%string.

(** ** Legs of a wire that came back *)

Definition set_leg_forwarding (d : Rows) (ifname : string) : IO unit :=
  when (any (λ r, String.eqb r.1 ifname && r.2) (rw_owned d)) (proc_sysctl ifname "forwarding" "1").

Definition rebuilt_line (zone ifname wire : string) : Note :=
  Rebuilt ("rebuilt " ++ zone ++ "/" ++ ifname ++ " on " ++ wire).

(** The answer, and the note a netdev of the wrong kind leaves. *)
Definition leg_absent (ifname lower : string) (vid : Z) : IO (bool * list Note) :=
  there <~ link_exists ifname ;;
  if negb there then ret (true, [])
  else
    ours <~ vlan_identity_is ifname lower vid ;;
    ret (false, if ours then [] else [Unrestored (not_our_vlan ifname lower vid)]).

(** [if !leg_absent(..)? { continue; } build..; rebuilt.push(..)]. *)
Definition rebuild_leg (d : Rows) (zone ifname lower wire : string) (vid : Z) (build : IO unit)
    : IO (list Note) :=
  a <~ leg_absent ifname lower vid ;;
  if negb a.1 then ret a.2
  else build >>~ (set_leg_forwarding d ifname >>~ ret (a.2 ++ [rebuilt_line zone ifname wire])).

Definition want_primary (ports : list Port) (held : option string) : option string :=
  w ← held; if any (λ s, String.eqb (po_ifname s) w) ports then Some w else None.

Definition home_port_ifname (ports : list Port) (home : string) : string :=
  unwrap_or (po_ifname <$> List.find (λ s, String.eqb (po_wire s) home) ports) EmptyString.

Definition rebuild_port (zone bond wire want : string) (vid : Z) (qos : list string) (s : Port)
    : IO (list Note) :=
  a <~ leg_absent (po_ifname s) (po_wire s) vid ;;
  if negb a.1 then ret a.2
  else
    add_bond_port bond s vid qos >>~
    (when (String.eqb (po_ifname s) want) (set_bond_primary bond (po_ifname s)) >>~
     ret (a.2 ++ [rebuilt_line zone (po_ifname s) wire])).

Definition rebuild_bond_ports (d : Rows) (wire zone : string) (leg : BondLeg)
    (held : option string) (qos : list string) : IO (list Note) :=
  let bond := bl_ifname leg in
  let on_wire := List.filter (λ s, String.eqb (po_wire s) wire) (bl_ports leg) in
  match on_wire with
  | [] => ret []
  | _ =>
      there <~ link_exists bond ;;
      if negb there then
        mk_bond_leg leg qos >>~
        (set_leg_forwarding d bond >>~
         ((match want_primary (bl_ports leg) held with
           | Some w => set_bond_primary bond w
           | None => ret tt
           end) >>~ ret [rebuilt_line zone bond wire]))
      else
        is_bond <~ link_kind_is bond " bond " ;;
        if negb is_bond then ret [Unrestored (not_a_bond bond)]
        else
          let want := unwrap_or (want_primary (bl_ports leg) held)
                        (home_port_ifname (bl_ports leg) (bl_home leg)) in
          gather (rebuild_port zone bond wire want (bl_vid leg) qos) on_wire
  end.

Definition returned_wire (v : View) (wire : string) : IO (list Note) :=
  match wire_named (v_member v) wire with
  | None => ret []
  | Some _ =>
      now <~ driver_of wire ;;
      let now := unwrap_or now EmptyString in
      was <~ look (λ h, recorded_driver h (f_run_dir (v_fabric v)) wire) ;;
      ret (match was with
           | Some was =>
               if negb (String.eqb now EmptyString) && negb (String.eqb was now)
               then [Unrestored ("wire " ++ wire ++ " came back under driver '" ++ now ++ "', not the '"
                       ++ was ++ "' apply recorded — this is a different adapter, check it before "
                       ++ "trusting its settings")]
               else []
           | None => []
           end)
  end.

Section missing_legs.
Context (refused : Refusal → Error) (v : View) (d : Rows) (held : gmap string string).
Let f := v_fabric v.

Definition rebuild_class (wire : string) (r : ClassRow) : IO (list Note) :=
  rebuild_leg d (cr_zone r) (cr_ifname r) (cr_wire r) wire (cr_vid r) (build_class_leg refused v r).

Definition gw_bond_leg_cidr (r : GwRow) : IO string :=
  z <~ zone_of refused f (gr_zone r) ;; gw <~ gw_of z ;; ret (leg_cidr gw (m_node (v_member v))).

Definition rebuild_gw (wire : string) (r : GwRow) : IO (list Note) :=
  if migrates r then
    z <~ zone_of refused f (gr_zone r) ;;
    cidr <~ gw_bond_leg_cidr r ;;
    rebuild_bond_ports d wire (gr_zone r)
      {| bl_ifname := gr_ifname r; bl_vid := gr_vid r; bl_home := gr_home r; bl_ports := gr_ports r;
         bl_cidr := cidr |} (held !! gr_ifname r) (qos_map f z)
  else if String.eqb (gr_home r) wire then
    rebuild_leg d (gr_zone r) (gr_ifname r) (gr_home r) wire (gr_vid r)
      (build_gw_vlan_leg refused v r)
  else ret [].

Definition rebuild_fallback (wire : string) (r : FallbackRow) : IO (list Note) :=
  z <~ zone_of refused f (fr_zone r) ;;
  rebuild_bond_ports d wire (fr_zone r)
    {| bl_ifname := fr_ifname r; bl_vid := fr_vid r; bl_home := fr_home r; bl_ports := fr_ports r;
       bl_cidr := (segment_addr v z (fr_seg r) ++ "/24")%string |} (held !! fr_ifname r) (qos_map f z).

Definition is_rebuilt (n : Note) : bool := match n with Rebuilt _ => true | _ => false end.

Definition restore_wire (wire : string) : IO (list Note) :=
  there <~ link_exists wire ;;
  if negb there then ret []
  else
    a <~ gather (rebuild_class wire) (List.filter (λ r, String.eqb (cr_wire r) wire) (rw_class d)) ;;
    b <~ gather (rebuild_gw wire) (rw_gw d) ;;
    c <~ gather (rebuild_fallback wire) (rw_fallback d) ;;
    let notes := a ++ b ++ c in
    if any is_rebuilt notes then e <~ returned_wire v wire ;; ret (notes ++ e) else ret notes.

Definition restore_missing_legs : IO (list Note) := gather restore_wire (rw_wires d).
End missing_legs.

(** ** What cfab owns and may have drifted *)

Definition restore_rp (ifname : string) : IO (list Note) :=
  let path := conf_path ifname "rp_filter" in
  r <~ look (λ h, h_read h path) ;;
  match r with
  | Err _ => ret []
  | Ok s =>
      let v := trim s in
      if String.eqb v "2" then ret []
      else
        w <~ attempt (write path "2") ;;
        ret (match w with
             | Ok _ => [Restored ("rp_filter " ++ ifname ++ " " ++ v ++ "->2 (want 2 = loose)")]
             | Err e => [Unrestored ("rp_filter " ++ ifname ++ "=" ++ v ++ ": could not write 2 ("
                           ++ display e ++ ") — re-run cfab up")]
             end)
  end.
Definition restore_rp_filter (d : Rows) : IO (list Note) := gather restore_rp (fabric_legs d).

Definition active_path (ifname : string) : string := sysfs ifname "bonding/active_slave".

Definition restore_membership (r : FallbackRow) : IO (list Note) :=
  a <~ look (λ h, h_read h (active_path (fr_ifname r))) ;;
  match a with
  | Err _ => ret []
  | Ok s =>
      let active := trim s in
      if String.eqb active EmptyString
         || any (λ p, String.eqb (po_ifname p) active) (fr_ports r) then ret []
      else
        out <~ exec ["ip"; "link"; "set"; active; "nomaster"] ;;
        if output_ok out then
          ret [Restored (fr_zone r ++ " fallback: released foreign port " ++ active)]
        else
          run_ignore (link_set (fr_ifname r) "down") >>~
          ret [Downed (fr_zone r ++ " fallback down: foreign port " ++ active
                         ++ " could not be released")]
  end.
Definition restore_bond_membership (d : Rows) : IO (list Note) :=
  gather restore_membership (rw_fallback d).

Definition rule_what (r : FabricRule) : string := ("pref " ++ pref r ++ " " ++ needle r)%string.

(** What one rule leaves: a note when re-added, its words when it could not be. *)
Definition restore_rule (r : FabricRule) : IO (list (Note + string)) :=
  there <~ fabric_rule_present r ;;
  if there then ret []
  else
    w <~ attempt (ensure_fabric_rule r) ;;
    ret (match w with
         | Ok _ => [inl (Restored ("re-added ip rule " ++ rule_what r))]
         | Err _ => [inr (rule_what r)]
         end).

Definition rules_of (v : View) : list FabricRule :=
  (if bool_decide (m_kind (v_member v) = Decl.Leaf) then leak_guard_rules v else [])
    ++ return_path_rules v.

Definition note_of (x : Note + string) : option Note := match x with inl n => Some n | inr _ => None end.
Definition word_of (x : Note + string) : option string :=
  match x with inr w => Some w | inl _ => None end.

Definition restore_rules (v : View) (d : Rows) : IO (list Note) :=
  done <~ gather restore_rule (rules_of v) ;;
  let unrestorable := omap word_of done in
  match unrestorable with
  | [] => ret (omap note_of done)
  | _ =>
      each (λ ifname, run_ignore (link_set ifname "down")) (fabric_legs d) >>~
      ret (omap note_of done
           ++ [Downed ("fabric legs down: could not restore " ++ String.concat ", " unrestorable
                         ++ " — re-run cfab up")])
  end.

Definition restore_gw_return (x : GwReturnDefault) : IO (list Note) :=
  there <~ rd_present x ;;
  if there then ret []
  else
    w <~ attempt (rd_install x) ;;
    ret (match w with
         | Ok _ => [Restored ("re-added return-path default table " ++ rd_table x ++ " via " ++ rd_via x)]
         | Err _ => []
         end).
Definition restore_gw_return_defaults (v : View) (d : Rows) : IO (list Note) :=
  gather restore_gw_return (gw_return_defaults (v_fabric v) (rw_gw d)).

(** ** The workload rows *)

Definition bridge_path (v : View) : string := (f_run_dir (v_fabric v) ++ "/workload-bridge.nft")%string.
Definition deferred_path (v : View) : string := (f_run_dir (v_fabric v) ++ "/workload-deferred")%string.
Definition arp_path : string := conf_path "all" "arp_ignore".

Definition unrestored (who : string) (e : string) : Note :=
  Unrestored ("unrestored workload " ++ who ++ ": " ++ e).

(** [restored.push(..)] on [Ok], a named [Unrestored] on [Err]. *)
Definition noted (r : result Error unit) (ok : Note) (who : string) : list Note :=
  match r with Ok _ => [ok] | Err e => [unrestored who (display e)] end.

Section workloads.
Context (from_str : string → option Value) (v : View) (d : Rows).
Let f := v_fabric v.

Definition spec_of (row : WorkloadRow) : LegSpec :=
  {| ls_leg := leg_ifname (wr_wl row); ls_uplink := wl_uplink (wr_wl row);
     ls_vid := wl_vid (wr_wl row); ls_address := wr_address row;
     ls_gw_cidr := gw_cidr (wr_wl row) |}.

Definition build_workload_row (row : WorkloadRow) : IO unit :=
  let leg := leg_ifname (wr_wl row) in
  install from_str (f_run_dir f) (spec_of row) (workload_qos f) >>~
  (must (addr_replace (gw_cidr (wr_wl row)) leg) >>~ set_leg_forwarding d leg).

Fixpoint identify_all_uplinks (h : Host) (rows : list WorkloadRow)
    : result (string * string) (list (Ipv4Addr * Uplink)) :=
  match rows with
  | [] => Ok []
  | row :: rows' =>
      match identify_declared h (wl_uplink (wr_wl row)) (wl_vid (wr_wl row)) with
      | Err e => Err (wl_name (wr_wl row), e)
      | Ok up => guards <-? identify_all_uplinks h rows' ;; Ok ((wl_gw (wr_wl row), up) :: guards)
      end
  end.

Definition reload_bridge_guard (path new_content : string) : IO unit :=
  let tmp_path := (path ++ ".new")%string in
  write tmp_path new_content >>~ (must ["nft"; "-f"; tmp_path] >>~ rename tmp_path path).

Definition is_forwarding (r : result string (bool * string)) : bool :=
  match r with Ok (b, _) => b | Err _ => false end.

(** The three conditions are asked in order, each only when those before it hold. *)
Definition row_ready (row : WorkloadRow) (up : Uplink) : IO bool :=
  stp <~ look (λ h, all (λ port, is_forwarding (stp_forwarding h (up_bridge up) port)) (up_ports up)) ;;
  if negb stp then ret false
  else
    holder <~ attempt (foreign_holder from_str (wl_uplink (wr_wl row)) (wl_vid (wr_wl row))
                         (leg_ifname (wr_wl row))) ;;
    match holder with
    | Ok None =>
        look (λ h, match ports_carrying_vid from_str h up with
                   | Ok ports => bool_decide (ports = [])
                   | Err _ => false
                   end)
    | _ => ret false
    end.

Definition find_row (rows : list WorkloadRow) (name : string) : option WorkloadRow :=
  List.find (λ r, String.eqb (wl_name (wr_wl r)) name) rows.

(** What becomes of one deferred name. *)
Inductive Fate := Stale | NotReady | Ready (row : WorkloadRow).

Definition fate_of (rows : list WorkloadRow) (name : string) : IO Fate :=
  match find_row rows name with
  | None => ret Stale
  | Some row =>
      up <~ look (λ h, identify_declared h (wl_uplink (wr_wl row)) (wl_vid (wr_wl row))) ;;
      match up with
      | Err _ => ret NotReady
      | Ok up => ready <~ row_ready row up ;; ret (if ready then Ready row else NotReady)
      end
  end.

Definition stale_note (name : string) : Note :=
  Unrestored ("unrestored workload-deferred bookkeeping: " ++ name
                ++ " names no declared [[workload]] row").

Definition fates (rows : list WorkloadRow) (pending : list string) : IO (list (string * Fate)) :=
  gather (λ name, x <~ fate_of rows name ;; ret [(name, x)]) pending.

Definition ready_row (p : string * Fate) : option WorkloadRow :=
  match p.2 with Ready row => Some row | _ => None end.
Definition kept_name (p : string * Fate) : option string :=
  match p.2 with Ready _ => None | _ => Some p.1 end.
Definition fate_note (p : string * Fate) : option Note :=
  match p.2 with Stale => Some (stale_note p.1) | _ => None end.

(** A note for each row, and the names of those that stay deferred. *)
Definition install_ready_row (row : WorkloadRow) : IO (list (Note * option string)) :=
  let name := wl_name (wr_wl row) in
  r <~ attempt (build_workload_row row) ;;
  ret (match r with
       | Ok _ => [(Restored ("installed workload " ++ name), None)]
       | Err e => [(unrestored name (display e), Some name)]
       end).

Definition drift_of (old : string) (p : WorkloadRow * (Ipv4Addr * Uplink)) : option Note :=
  let before := guarded_ports_for old p.2.1 in
  if bool_decide (before = up_ports p.2.2) then None
  else Some (Restored ("workload " ++ wl_name (wr_wl p.1) ++ ": uplink ports "
               ++ (match before with [] => "none" | _ => String.concat "," before end) ++ " -> "
               ++ String.concat "," (up_ports p.2.2) ++ ", guard reloaded")).

Definition drifted (old : string) (rows : list WorkloadRow) (guards : list (Ipv4Addr * Uplink))
    (pending : list string) : list Note :=
  omap (drift_of old)
    (List.filter (λ p : WorkloadRow * (Ipv4Addr * Uplink),
       negb (bool_decide (wl_name (wr_wl p.1) ∈ pending))) (zip rows guards)).

(** The guard, then the rows that are ready: the notes, and who stays deferred. *)
Definition guard_and_install (rows ready : list WorkloadRow) (pending : list string)
    : IO (list Note * list string) :=
  let names := (λ r, wl_name (wr_wl r)) <$> ready in
  guards <~ look (λ h, identify_all_uplinks h rows) ;;
  match guards with
  | Ok guards =>
      old <~ look (λ h, or_empty (h_read h (bridge_path v))) ;;
      let new_nft := bridge_table guards in
      let installed := gather install_ready_row ready in
      if String.eqb old new_nft then
        done <~ installed ;; ret (done.*1, omap snd done)
      else
        r <~ attempt (reload_bridge_guard (bridge_path v) new_nft) ;;
        match r with
        | Ok _ =>
            done <~ installed ;;
            ret (drifted old rows guards pending ++ done.*1, omap snd done)
        | Err e =>
            ret ((λ name, unrestored name ("guard not loaded: " ++ display e)) <$> names, names)
        end
  | Err (name, reason) =>
      ret (match names with
           | [] => ([], [])
           | _ => ([unrestored name ("uplink not identified: " ++ reason ++ "; deferred rows kept")],
                   names)
           end)
  end.

Definition not_written (e : Error) : Note :=
  Unrestored ("unrestored workload-deferred bookkeeping: " ++ deferred_path v ++ " not written ("
    ++ display e ++ ") — a row already installed may be re-probed again next tick").

Definition reconcile_workload_guard (rows : list WorkloadRow) (pending : list string)
    : IO (list Note) :=
  fs <~ fates rows pending ;;
  done <~ guard_and_install rows (omap ready_row fs) pending ;;
  let still_pending := omap kept_name fs ++ done.2 in
  wrote <~ (if (length still_pending =? length pending)%nat then ret []
            else
              w <~ attempt (write (deferred_path v) (String.concat lf still_pending)) ;;
              ret (match w with Ok _ => [] | Err e => [not_written e] end)) ;;
  ret (omap fate_note fs ++ done.1 ++ wrote).

Definition restore_workload_leg (row : WorkloadRow) : IO (list Note) :=
  let name := wl_name (wr_wl row) in
  let bridge := wl_uplink (wr_wl row) in
  let vid := wl_vid (wr_wl row) in
  let leg := leg_ifname (wr_wl row) in
  there <~ look (λ h, bridge_present h bridge) ;;
  if negb there then ret []
  else
    p <~ attempt (leg_present leg bridge vid) ;;
    match p with
    | Ok true =>
        r <~ attempt (ensure_self_vid from_str (f_run_dir f) bridge vid) ;;
        ret (match r with
             | Ok true => [Restored ("re-added vid " ++ show vid ++ " on bridge " ++ bridge
                             ++ " itself (workload " ++ name ++ ")")]
             | Ok false => []
             | Err e => [unrestored name (display e)]
             end)
    | Ok false =>
        r <~ attempt (build_workload_row row) ;;
        ret (match r with
             | Ok _ => [Restored ("rebuilt workload " ++ name ++ " leg " ++ leg ++ " on " ++ bridge)]
             | Err e => [unrestored name ("leg " ++ leg ++ " not rebuilt: " ++ display e)]
             end)
    | Err e => ret [unrestored name (display e)]
    end.

Definition restore_workload_legs (rows : list WorkloadRow) (pending : list string) : IO (list Note) :=
  gather restore_workload_leg
    (List.filter (λ r, negb (bool_decide (wl_name (wr_wl r) ∈ pending))) rows).

(** The guard table put back from its file when nft does not hold it. *)
Definition restore_bridge_table (names : string) : IO (list Note) :=
  r <~ attempt (exec ["nft"; "list"; "table"; "bridge"; "cfab"]) ;;
  match r with
  | Err e => ret [unrestored names (display e)]
  | Ok out =>
      if output_ok out then ret []
      else
        file <~ look (λ h, h_read h (bridge_path v)) ;;
        match file with
        | Err _ =>
            ret [unrestored names ("bridge table cfab missing and " ++ bridge_path v
                   ++ " missing (run cfab up)")]
        | Ok _ =>
            w <~ attempt (must ["nft"; "-f"; bridge_path v] >>~ ret tt) ;;
            ret (noted w (Restored ("restored bridge table cfab (workload " ++ names ++ ")")) names)
        end
  end.

Definition restore_arp_ignore (names : string) : IO (list Note) :=
  a <~ look (λ h, trimmed (h_read h arp_path)) ;;
  if String.eqb a "1" then ret []
  else
    w <~ attempt (write arp_path "1") ;;
    ret (noted w (Restored ("restored net.ipv4.conf.all.arp_ignore=1 (workload " ++ names ++ ")")) names).

(** [deferred_names] is a [BTreeSet]: read in order. *)
Definition restore_workloads : IO (list Note) :=
  let rows := workload_rows v in
  match rows with
  | [] => ret []
  | _ =>
      let names := String.concat ", " ((λ r, wl_name (wr_wl r)) <$> rows) in
      a <~ restore_bridge_table names ;;
      b <~ restore_arp_ignore names ;;
      pending <~ look (λ h, btree_set_iter str_leb (deferred_names h v)) ;;
      c <~ reconcile_workload_guard rows pending ;;
      e <~ restore_workload_legs rows pending ;;
      ret (a ++ b ++ c ++ e)
  end.
End workloads.

(** ** One tick *)

Section run.
Context (refused : Refusal → Error) (from_str : string → option Value)
        (parse_chains : string → result string Value).

Definition policy_loaded (chain : Output) : bool :=
  output_ok chain && has_substring "policy drop;" (stdout chain).

Definition report_blocked (d : Rows) (blocked : list string) : IO unit :=
  match blocked with
  | [] => ret tt
  | _ =>
      logger ("BLOCKED by a foreign ruleset: " ++ String.concat ", " blocked ++ " — "
                ++ foreign_forward_remedy ((List.filter snd (rw_owned d)).*1))
  end.

(** Everything after the policy check: [cost] is what the transit request answered. *)
Definition restore_all (v : View) (d : Rows) (held : gmap string string) (cost : option string)
    : IO WatchdogReport :=
  present <~ conf_interfaces ;;
  corrected <~ gather (correct_one present) (rw_owned d) ;;
  (match corrected with
   | [] => ret tt
   | _ => logger ("corrected forwarding on cfab interfaces: " ++ String.concat ", " corrected
                    ++ " (a foreign stack wrote ip_forward?)")
   end) >>~
  (n1 <~ restore_missing_legs refused v d held ;;
   n2 <~ restore_rp_filter d ;;
   n3 <~ restore_bond_membership d ;;
   n4 <~ restore_rules v d ;;
   n5 <~ restore_gw_return_defaults v d ;;
   n6 <~ restore_workloads from_str v d ;;
   let notes := n1 ++ n2 ++ n3 ++ n4 ++ n5 ++ n6 in
   let restored := omap restored_of notes in
   let rebuilt := omap rebuilt_of notes in
   let downed := omap downed_of notes in
   let unres := omap unrestored_of notes in
   each logger (restored ++ rebuilt ++ downed ++ unres) >>~
   (resolved <~ (if transits v then
                   rule <~ ensure_foreign_transit_accept ;;
                   match rule with
                   | None => ret None
                   | Some rule =>
                       logger ("installed a foreign-stack accept for cfab transit: " ++ rule) >>~
                       ret (Some rule)
                   end
                 else ret None) ;;
    blocked <~ (if transits v then
                  b <~ unresolved_forward_drops parse_chains ;; (report_blocked d b >>~ ret b)
                else ret []) ;;
    ret {| wd_failed := None; wd_corrected := corrected; wd_blocked := blocked;
           wd_resolved := resolved; wd_restored := restored; wd_downed := downed;
           wd_transit_cost_error := cost; wd_unrestored := unres; wd_rebuilt := rebuilt |})).

Definition run (v : View) (d : Rows) (held : gmap string string) : IO WatchdogReport :=
  if transits v then
    chain <~ exec ["nft"; "list"; "chain"; "inet"; "cfab-fwd"; "forward"] ;;
    if negb (policy_loaded chain) then fail_closed v d not_loaded
    else cost <~ ask_transit_cost v Declared ;; restore_all v d held cost
  else restore_all v d held None.
End run.

(** ** The host's additive default *)

Definition default_wanted (ingress : list ProbedLeg) (rows : list GwRow) : bool :=
  match rows with
  | [] => true
  | r :: _ =>
      match List.find (λ l, String.eqb (r_zone l) (gr_zone r)) ingress with
      | Some leg => any r_reachable (r_ports leg)
      | None => true
      end
  end.

Record HostDefaultState := { hs_wanted : option bool; hs_standing : option string }.

Definition hs_changed (s : HostDefaultState) (wanted : bool) : bool :=
  negb (opt_eqb (hs_wanted s) (Some wanted)).

(** Steps that each say some lines, up to the first that fails: the lines said stay said. *)
Fixpoint in_turn (steps : list (IO (list string))) : IO (list string * result Error unit) :=
  match steps with
  | [] => ret ([], Ok tt)
  | s :: steps' =>
      r <~ attempt s ;;
      match r with
      | Err e => ret ([], Err e)
      | Ok l => rest <~ in_turn steps' ;; ret (l ++ rest.1, rest.2)
      end
  end.

Definition HD : string := "cfab: host default: ".

Section host_default_pass.
Context (fuel : nat) (v : View) (rows : list GwRow).

Definition pins_pass : IO (list string) :=
  floor <~ floor_default ;;
  addrs <~ (match floor with Some x => floor_addresses (fl_dev x) | None => ret [] end) ;;
  done <~ sync_floor_rules fuel addrs ;;
  ret ((λ l, HD ++ l)%string <$> done).

Definition rule_pass (r : FabricRule) : IO (list string) :=
  there <~ fabric_rule_present r ;;
  if there then ret []
  else ensure_fabric_rule r >>~ ret [HD ++ "re-added ip rule pref " ++ pref r ++ " " ++ needle r]%string.

Definition default_pass (h : HostDefault) (wanted : bool) : IO (list string) :=
  there <~ hd_present h ;;
  match wanted, there with
  | true, false =>
      hd_install h >>~
      ret [HD ++ "installed via " ++ hd_via h ++ " dev " ++ hd_dev h ++ " (table " ++ hd_table h ++ ")"]%string
  | false, true =>
      hd_withdraw h >>~
      ret [HD ++ "withdrawn (router " ++ hd_via h ++ " unreachable over every wire of "
             ++ hd_dev h ++ ")"]%string
  | _, _ => ret []
  end.

Definition hd_pass (h : HostDefault) (wanted : bool) : IO (list string * result Error unit) :=
  in_turn (pins_pass :: (rule_pass <$> host_default_rules v rows []) ++ [default_pass h wanted]).

Definition hs_reconcile (s : HostDefaultState) (wanted : bool)
    : IO (HostDefaultState * list string) :=
  match host_default v rows with
  | None => ret (s, [])
  | Some h =>
      done <~ hd_pass h wanted ;;
      ret (match done.2 with
           | Ok _ => ({| hs_wanted := Some wanted; hs_standing := None |},
                      done.1 ++ match hs_standing s with
                                | Some _ => [HD ++ "reconcile recovered"]%string
                                | None => []
                                end)
           | Err e =>
               let line := (HD ++ display e)%string in
               if opt_eqb (hs_standing s) (Some line)
               then ({| hs_wanted := Some wanted; hs_standing := hs_standing s |}, done.1)
               else ({| hs_wanted := Some wanted; hs_standing := Some line |}, done.1 ++ [line])
           end)
  end.
End host_default_pass.

(** ** What a tick may touch *)

Definition owned (d : Rows) : list string := (rw_owned d).*1.

(** The sysctls a rebuilt leg gets, and the one drift is written back to. *)
Definition LEG_SYSCTLS : list (string * string) :=
  [("arp_ignore", "1"); ("rp_filter", "2"); ("send_redirects", "0"); ("proxy_arp", "1")].

Definition write_scoped (v : View) (d : Rows) (p c : string) : Prop :=
  (∃ row, row ∈ rw_owned d ∧ p = conf_path row.1 "forwarding"
          ∧ (c = "0"%string ∨ (row.2 = true ∧ c = "1"%string)))
  ∨ (∃ ifn key, ifn ∈ owned d ∧ p = conf_path ifn key ∧ (key, c) ∈ LEG_SYSCTLS)
  ∨ (p = arp_path ∧ c = "1"%string)
  ∨ p ∈ [(bridge_path v ++ ".new")%string; deferred_path v; record_path (f_run_dir (v_fabric v))].

(** The commands that only ask. *)
Inductive listing : list string → Prop :=
| ask_link dev : listing ["ip"; "link"; "show"; dev]
| ask_kind dev : listing ["ip"; "-d"; "link"; "show"; dev]
| ask_vlans : listing ["ip"; "-d"; "-j"; "link"; "show"; "type"; "vlan"]
| ask_addresses dev : listing ["ip"; "-4"; "-br"; "addr"; "show"; "dev"; dev]
| ask_rules pref : listing ["ip"; "rule"; "show"; "pref"; pref]
| ask_default table : listing ["ip"; "route"; "show"; "table"; table; "default"]
| ask_vids bridge : listing ["bridge"; "-j"; "vlan"; "show"; "dev"; bridge]
| ask_driver dev : listing ["ethtool"; "-i"; dev]
| ask_chain : listing ["nft"; "list"; "chain"; "inet"; "cfab-fwd"; "forward"]
| ask_guard : listing ["nft"; "list"; "table"; "bridge"; "cfab"]
| ask_chains : listing ["nft"; "-j"; "list"; "chains"]
| ask_legacy : listing ["iptables-legacy"; "-S"; "FORWARD"]
| ask_docker : listing ["iptables"; "-S"; "DOCKER-USER"].

Section plan.
Context (v : View) (d : Rows).
Let f := v_fabric v.

(** The bonds of the member's plan, with the egress map of their ports. *)
Inductive planned_bond : BondLeg → list string → Prop :=
| gw_bond r z gw : r ∈ rw_gw d → migrates r = true → zone f (gr_zone r) = Ok z → z_gw z = Some gw →
    planned_bond {| bl_ifname := gr_ifname r; bl_vid := gr_vid r; bl_home := gr_home r; bl_ports := gr_ports r;
                    bl_cidr := leg_cidr gw (m_node (v_member v)) |} (qos_map f z)
| fallback_bond r z : r ∈ rw_fallback d → zone f (fr_zone r) = Ok z →
    planned_bond {| bl_ifname := fr_ifname r; bl_vid := fr_vid r; bl_home := fr_home r; bl_ports := fr_ports r;
                    bl_cidr := (segment_addr v z (fr_seg r) ++ "/24")%string |} (qos_map f z).

(** Its VLAN sub-interfaces: name, lower link, id and egress map. *)
Inductive planned_vlan : string → string → Z → list string → Prop :=
| class_vlan r z : r ∈ rw_class d → zone f (cr_zone r) = Ok z →
    planned_vlan (cr_ifname r) (cr_wire r) (cr_vid r) (qos_map f z)
| gw_vlan r z : r ∈ rw_gw d → migrates r = false → zone f (gr_zone r) = Ok z →
    planned_vlan (gr_ifname r) (gr_home r) (gr_vid r) (qos_map f z)
| port_vlan leg qos p : planned_bond leg qos → p ∈ bl_ports leg →
    planned_vlan (po_ifname p) (po_wire p) (bl_vid leg) qos
| workload_vlan r : r ∈ workload_rows v →
    planned_vlan (leg_ifname (wr_wl r)) (wl_uplink (wr_wl r)) (wl_vid (wr_wl r)) (workload_qos f).

(** Its addresses, each with the interface it goes on. *)
Inductive planned_addr : string → string → Prop :=
| class_addr r z : r ∈ rw_class d → zone f (cr_zone r) = Ok z →
    planned_addr (segment_addr v z (cr_seg r) ++ "/24")%string (cr_ifname r)
| gw_addr r z gw : r ∈ rw_gw d → migrates r = false → zone f (gr_zone r) = Ok z → z_gw z = Some gw →
    planned_addr (leg_cidr gw (m_node (v_member v))) (gr_ifname r)
| bond_addr leg qos : planned_bond leg qos → planned_addr (bl_cidr leg) (bl_ifname leg)
| workload_addr r : r ∈ workload_rows v → planned_addr (wr_address r) (leg_ifname (wr_wl r))
| gateway_addr r : r ∈ workload_rows v → planned_addr (gw_cidr (wr_wl r)) (leg_ifname (wr_wl r)).

Definition planned_netdev (x : string) : Prop :=
  (∃ lower vid qos, planned_vlan x lower vid qos) ∨ ∃ leg qos, planned_bond leg qos ∧ x = bl_ifname leg.

(** All a tick may run, word for word: listings, log lines, and what puts the plan back. *)
Inductive may_run : list string → Prop :=
| run_listing argv : listing argv → may_run argv
| run_log line : may_run ["logger"; "-t"; "cfab-fwd-watchdog"; line]
| run_vlan name lower vid qos : planned_vlan name lower vid qos →
    may_run (["ip"; "link"; "add"; "link"; lower; "name"; name; "type"; "vlan"; "id"; show vid;
              "egress-qos-map"] ++ qos)
| run_stray name lower vid qos : planned_vlan name lower vid qos → may_run ["ip"; "link"; "del"; name]
| run_bond leg qos : planned_bond leg qos →
    may_run ["ip"; "link"; "add"; bl_ifname leg; "type"; "bond"; "mode"; "active-backup"; "miimon"; "100";
             "num_grat_arp"; "3"; "updelay"; "500"; "fail_over_mac"; "none"]
| run_master leg qos p : planned_bond leg qos → p ∈ bl_ports leg →
    may_run ["ip"; "link"; "set"; po_ifname p; "master"; bl_ifname leg]
| run_primary leg qos p : planned_bond leg qos → p ∈ bl_ports leg →
    may_run ["ip"; "link"; "set"; bl_ifname leg; "type"; "bond"; "primary"; po_ifname p;
             "primary_reselect"; "always"]
| run_addr cidr dev : planned_addr cidr dev → may_run ["ip"; "addr"; "replace"; cidr; "dev"; dev]
| run_prune r c : r ∈ workload_rows v → c ∉ [wr_address r; gw_cidr (wr_wl r)] →
    may_run ["ip"; "addr"; "del"; c; "dev"; leg_ifname (wr_wl r)]
| run_up x : planned_netdev x → may_run ["ip"; "link"; "set"; x; "up"]
| run_down x : x ∈ fabric_legs d → may_run ["ip"; "link"; "set"; x; "down"]
| run_rule r : r ∈ rules_of v → may_run (["ip"; "rule"; "add"; "pref"; pref r] ++ add r)
| run_default r z gw : r ∈ rw_gw d → zone f (gr_zone r) = Ok z → z_gw z = Some gw →
    may_run ["ip"; "route"; "replace"; "default"; "via"; gw_router gw; "dev"; gr_ifname r;
             "table"; show (z_id z); "proto"; "205"]
| run_vid r : r ∈ workload_rows v →
    may_run ["bridge"; "vlan"; "add"; "dev"; wl_uplink (wr_wl r); "vid"; show (wl_vid (wr_wl r)); "self"]
| run_guard path : path ∈ [bridge_path v; (bridge_path v ++ ".new")%string] → may_run ["nft"; "-f"; path]
| run_accept :
    may_run ["iptables"; "-I"; "DOCKER-USER"; "-i"; "cfab+"; "-o"; "cfab+"; "-m"; "comment"; "--comment";
             "cfab-transit"; "-j"; "ACCEPT"].
End plan.

(** Everything a tick does to the host, but for the release of a foreign port: it writes a sysctl of
    an interface it owns, the one member-wide sysctl its workloads need, or a file of its run
    directory, and switches forwarding on only where the declaration says so; it runs what [may_run]
    lists, in which every name, address, rule and route is the plan's; it talks to its engine. *)
Definition scoped (v : View) (d : Rows) (a : Action) : Prop :=
  match a with
  | AWrite p c => write_scoped v d p c
  | ARun argv => may_run v d argv
  | ARename from to => from = (bridge_path v ++ ".new")%string ∧ to = bridge_path v
  | ARemove _ | AMkdir _ | ASleep _ => False
  | ARequest sock line => sock = sock_path (v_fabric v) ∧ ∃ t, line = transit_line t
  end.

(** The exception: a port that is not the plan's is taken off a fallback bond, once the bond was read
    to carry its traffic over it. *)
Definition releases (d : Rows) (io : Env_) (tr : list Action) (a : Action) : Prop :=
  ∃ r s, r ∈ rw_fallback d ∧ h_read (e_host (io tr)) (active_path (fr_ifname r)) = Ok s
    ∧ trim s ≠ EmptyString ∧ trim s ∉ po_ifname <$> fr_ports r
    ∧ a = ARun ["ip"; "link"; "set"; trim s; "nomaster"].
Definition permitted (v : View) (d : Rows) (io : Env_) (tr : list Action) (a : Action) : Prop :=
  scoped v d a ∨ releases d io tr a.

Create HintDb scope.
#[export] Hint Constructors listing planned_bond planned_vlan planned_addr may_run : scope.

Section scope.
Context (v : View) (d : Rows) (Hd : rows_of v = Ok d).
Local Abbreviation emits_sc := (emits (scoped v d)).

Lemma rows_of_inv :
  ∃ claims, owned_list v = Ok claims ∧ rw_owned d = dedup_by_name (merge_sort (leb_rel flag_leb) claims)
    ∧ class_rows v = Ok (rw_class d) ∧ gw_rows v = Ok (rw_gw d) ∧ fallback_rows v = Ok (rw_fallback d)
    ∧ wires v = Ok (rw_wires d).
Proof using Hd.
  unfold rows_of in Hd. destruct (class_rows v); [|done]. destruct (gw_rows v); [|done].
  destruct (fallback_rows v); [|done]. unfold owned_forwarding in Hd.
  destruct (owned_list v) as [claims|]; [|done]. cbn in Hd. destruct (wires v); [|done].
  injection Hd as <-. eauto 10.
Qed.

Lemma claimed_owned claims n b :
  owned_list v = Ok claims → (n, b) ∈ claims → n ∈ owned d.
Proof using Hd.
  intros E Hin. destruct rows_of_inv as (claims' & E' & Ho & _). rewrite E in E'. injection E' as <-.
  unfold owned. rewrite Ho. apply list_elem_of_fmap.
  pose proof (dedup_by_name_spec _ (StronglySorted_merge_sort (leb_rel flag_leb) claims)) as [_ Hs].
  assert (∀ x, x ∈ merge_sort (leb_rel flag_leb) claims ↔ x ∈ claims) as Hp.
  { intros x. by rewrite (merge_sort_Permutation (leb_rel flag_leb) claims). }
  destruct (decide ((n, false) ∈ claims)) as [Hf|Hf].
  - exists (n, false). split; [done|]. apply Hs. split; [by apply Hp|]. done.
  - exists (n, true). split; [done|]. apply Hs.
    assert (∀ b', (n, b') ∈ claims → b' = true) as Ht by (intros [] ?; [done|by exfalso]).
    split; [apply Hp; by rewrite <-(Ht b Hin)|]. intros b' Hb'%Hp. by rewrite (Ht b' Hb').
Qed.

Lemma claims_shape claims :
  owned_list v = Ok claims →
  claims = ((λ w, (wire_name w, false)) <$> m_wires (v_member v))
    ++ ((λ r, (cr_ifname r, transits v)) <$> rw_class d)
    ++ (rw_gw d ≫= λ r, (gr_ifname r, transits v) :: ((λ p, (po_ifname p, false)) <$> gr_ports r))
    ++ (rw_fallback d ≫= λ r, (fr_ifname r, transits v) :: ((λ p, (po_ifname p, false)) <$> fr_ports r))
    ++ ((λ r, (leg_ifname (wr_wl r), transits v)) <$> workload_rows v)
    ++ (f_zones (v_fabric v) ≫= λ z, let '(id, peer) := identity_ifnames (z_id z) in
                                     [(peer, false); (id, false)]).
Proof using Hd.
  intros E. destruct rows_of_inv as (claims' & E' & _ & Hc & Hg & Hf & _).
  unfold owned_list in E. rewrite Hc, Hg, Hf in E. by injection E as <-.
Qed.

Lemma claimed n b :
  (n, b) ∈ ((λ r, (cr_ifname r, transits v)) <$> rw_class d)
    ++ (rw_gw d ≫= λ r, (gr_ifname r, transits v) :: ((λ p, (po_ifname p, false)) <$> gr_ports r))
    ++ (rw_fallback d ≫= λ r, (fr_ifname r, transits v) :: ((λ p, (po_ifname p, false)) <$> fr_ports r))
    ++ ((λ r, (leg_ifname (wr_wl r), transits v)) <$> workload_rows v) →
  n ∈ owned d.
Proof using Hd.
  intros H. destruct rows_of_inv as (claims & E & _). eapply (claimed_owned claims n b E).
  rewrite (claims_shape claims E). rewrite !elem_of_app in H. rewrite !elem_of_app. tauto.
Qed.

Lemma class_owned r : r ∈ rw_class d → cr_ifname r ∈ owned d.
Proof using Hd. intros H. eapply claimed, elem_of_app. left. apply list_elem_of_fmap. eauto. Qed.
Lemma gw_owned r : r ∈ rw_gw d → gr_ifname r ∈ owned d.
Proof using Hd.
  intros H. eapply claimed. rewrite !elem_of_app. right; left. apply list_elem_of_bind.
  exists r. split; [by left|done].
Qed.
Lemma gw_port_owned r p : r ∈ rw_gw d → p ∈ gr_ports r → po_ifname p ∈ owned d.
Proof using Hd.
  intros H Hp. eapply claimed. rewrite !elem_of_app. right; left. apply list_elem_of_bind.
  exists r. split; [right|done]. apply list_elem_of_fmap. eauto.
Qed.
Lemma fallback_owned r : r ∈ rw_fallback d → fr_ifname r ∈ owned d.
Proof using Hd.
  intros H. eapply claimed. rewrite !elem_of_app. right; right; left. apply list_elem_of_bind.
  exists r. split; [by left|done].
Qed.
Lemma fallback_port_owned r p : r ∈ rw_fallback d → p ∈ fr_ports r → po_ifname p ∈ owned d.
Proof using Hd.
  intros H Hp. eapply claimed. rewrite !elem_of_app. right; right; left. apply list_elem_of_bind.
  exists r. split; [right|done]. apply list_elem_of_fmap. eauto.
Qed.
Lemma workload_owned r : r ∈ workload_rows v → leg_ifname (wr_wl r) ∈ owned d.
Proof using Hd.
  intros H. eapply claimed. rewrite !elem_of_app. right; right; right. apply list_elem_of_fmap. eauto.
Qed.

(** *** The builders stay in scope *)

Lemma sc_run argv : may_run v d argv → scoped v d (ARun argv).
Proof using Type. done. Qed.

Lemma sc_sysctl ifn key c : ifn ∈ owned d → (key, c) ∈ LEG_SYSCTLS → scoped v d (AWrite (conf_path ifn key) c).
Proof using Hd. intros. right; left. eauto. Qed.

Lemma sc_forward_off ifn : ifn ∈ owned d → scoped v d (AWrite (conf_path ifn "forwarding") "0").
Proof using Hd. intros ([n b] & -> & H)%list_elem_of_fmap. left. exists (n, b). auto. Qed.

Hint Resolve class_owned gw_owned gw_port_owned fallback_owned fallback_port_owned workload_owned
  : scope.
Hint Extern 1 (scoped v d (ARun _)) => (apply sc_run; solve [eauto 4 with scope]) : emits.

Lemma sc_link_exists dev : emits_sc (link_exists dev).
Proof using Hd. unfold link_exists. emits_all. Qed.
Lemma sc_kind dev m : emits_sc (link_kind_is dev m).
Proof using Hd. unfold link_kind_is. emits_all. Qed.
Lemma sc_vlan_is dev lower vid : emits_sc (vlan_identity_is dev lower vid).
Proof using Hd. unfold vlan_identity_is. emits_all. Qed.
Lemma sc_both a b : emits_sc a → emits_sc b → emits_sc (both a b).
Proof using Hd. intros. unfold both. emits_all; auto. Qed.
Lemma sc_when b m : emits_sc m → emits_sc (when b m).
Proof using Hd. intros. unfold when. destruct b; [done|auto with emits]. Qed.
Hint Resolve sc_link_exists sc_kind sc_vlan_is sc_both sc_when : emits.

Lemma vlan_netdev name lower vid qos : planned_vlan v d name lower vid qos → planned_netdev v d name.
Proof using Type. left. eauto. Qed.
Lemma bond_netdev leg qos : planned_bond v d leg qos → planned_netdev v d (bl_ifname leg).
Proof using Type. right. eauto. Qed.
Lemma guard_file : may_run v d ["nft"; "-f"; bridge_path v].
Proof using Type. clear Hd. apply run_guard. set_solver. Qed.
Lemma guard_new_file : may_run v d ["nft"; "-f"; (bridge_path v ++ ".new")%string].
Proof using Type. clear Hd. apply run_guard. set_solver. Qed.
Hint Resolve vlan_netdev bond_netdev guard_file guard_new_file : scope.

Lemma bond_owned leg qos : planned_bond v d leg qos →
  bl_ifname leg ∈ owned d ∧ ∀ p, p ∈ bl_ports leg → po_ifname p ∈ owned d.
Proof using Hd. intros [r z gw Hr _ _ _|r z Hr _]; cbn; eauto with scope. Qed.

Lemma sc_mk_vlan name lower vid addr up qos :
  planned_vlan v d name lower vid qos → (∀ c, addr = Some c → planned_addr v d c name) →
  emits_sc (mk_vlan name lower vid addr up qos).
Proof using Hd.
  intros Hn Ha. unfold mk_vlan, differs. emits_all; try apply sc_both; try apply sc_when; emits_all.
Qed.

Lemma sc_class_sysctls ifn : ifn ∈ owned d → emits_sc (class_sysctls ifn).
Proof using Hd.
  intros H. unfold class_sysctls, proc_sysctl. emits_all;
    apply emits_write; try (apply sc_sysctl; [done|set_solver]). by apply sc_forward_off.
Qed.
Hint Resolve sc_class_sysctls : emits.

(** A zone looked up, and its gateway, are known to what follows. *)
Lemma sc_zone_of {A} refused n (k : Zone → IO A) :
  (∀ z, zone (v_fabric v) n = Ok z → emits_sc (k z)) → emits_sc (bind (zone_of refused (v_fabric v) n) k).
Proof using Type.
  intros H. apply (emits_bind_yields _ (λ z, zone (v_fabric v) n = Ok z)); [unfold zone_of; auto with emits| |done].
  intros io tr tr' z [= _ E]. by destruct (zone _ _); simplify_eq.
Qed.
Lemma sc_gw_of {A} z (k : ZoneGw → IO A) :
  (∀ gw, z_gw z = Some gw → emits_sc (k gw)) → emits_sc (bind (gw_of z) k).
Proof using Type.
  intros H. unfold gw_of. destruct (z_gw z) as [gw|]; intros io tr; [by apply (H gw)|].
  exists []. by rewrite app_nil_r.
Qed.

Lemma sc_build_class refused r : r ∈ rw_class d → emits_sc (build_class_leg refused v r).
Proof using Hd.
  intros Hr. unfold build_class_leg. apply sc_zone_of. intros z Hz.
  apply emits_bind; [|intros _; auto using class_owned with emits].
  apply sc_mk_vlan; [eauto with scope|intros c [= <-]; eauto with scope].
Qed.
Lemma sc_build_gw refused r : r ∈ rw_gw d → migrates r = false → emits_sc (build_gw_vlan_leg refused v r).
Proof using Hd.
  intros Hr Hm. unfold build_gw_vlan_leg. apply sc_zone_of. intros z Hz. apply sc_gw_of. intros gw Hg.
  apply emits_bind; [|intros _; auto using gw_owned with emits].
  apply sc_mk_vlan; [eauto with scope|intros c [= <-]; eauto with scope].
Qed.

Lemma sc_set_primary leg qos p :
  planned_bond v d leg qos → p ∈ bl_ports leg → emits_sc (set_bond_primary (bl_ifname leg) (po_ifname p)).
Proof using Type. intros. unfold set_bond_primary. emits_all. Qed.

Lemma sc_add_port leg qos p :
  planned_bond v d leg qos → p ∈ bl_ports leg → emits_sc (add_bond_port (bl_ifname leg) p (bl_vid leg) qos).
Proof using Hd.
  intros Hb Hp. destruct (bond_owned leg qos Hb) as [_ Ho]. unfold add_bond_port, proc_sysctl.
  assert (planned_vlan v d (po_ifname p) (po_wire p) (bl_vid leg) qos) as Hv by eauto with scope.
  apply emits_bind; [by apply sc_mk_vlan|]. intros _. emits_all; try apply sc_when; emits_all.
  by apply emits_write, sc_forward_off, Ho.
Qed.
Hint Resolve sc_build_class sc_build_gw sc_add_port sc_set_primary : emits.

Lemma sc_mk_bond_leg leg qos : planned_bond v d leg qos → emits_sc (mk_bond_leg leg qos).
Proof using Hd.
  intros Hb. destruct (bond_owned leg qos Hb) as [Ho _]. unfold mk_bond_leg, mk_bond, home_port.
  apply emits_bind; [emits_all|]. intros _. apply emits_bind; [emits_all|]. intros _.
  destruct (List.find _ _) as [h|] eqn:E.
  - apply find_Some_elem in E as [Hh _]. apply (emits_bind_yields _ (λ p, p = h)); [auto with emits| |].
    + by intros io tr tr' p [= _ <-].
    + intros p ->. apply emits_bind; [eapply sc_set_primary; eassumption|]. intros _. emits_all.
  - intros io tr. exists []. by rewrite app_nil_r.
Qed.

Lemma sc_set_leg_forwarding ifn : emits_sc (set_leg_forwarding d ifn).
Proof using Hd.
  unfold set_leg_forwarding, when, proc_sysctl. destruct (any _ _) eqn:E; [|auto with emits].
  apply any_true in E as ([n b] & Hin & [E%String.eqb_eq Hb]%andb_true_iff). cbn in E, Hb. subst.
  apply emits_write. left. exists (ifn, true). auto.
Qed.

Lemma sc_leg_absent ifn lower vid : emits_sc (leg_absent ifn lower vid).
Proof using Hd. unfold leg_absent. emits_all. Qed.
Hint Resolve sc_mk_bond_leg sc_set_leg_forwarding sc_leg_absent : emits.

Lemma sc_rebuild_leg zone ifn lower wire vid build :
  emits_sc build → emits_sc (rebuild_leg d zone ifn lower wire vid build).
Proof using Hd. intros H. unfold rebuild_leg. emits_all. Qed.

Lemma want_primary_port ports held w : want_primary ports held = Some w → ∃ p, p ∈ ports ∧ w = po_ifname p.
Proof using Type.
  unfold want_primary. destruct held as [h|]; cbn; [|done]. destruct (any _ _) eqn:E; [|done]. intros [= <-].
  apply any_true in E as (p & Hp & Ep%String.eqb_eq). by exists p.
Qed.

Lemma sc_rebuild_bond wire zone leg held qos :
  planned_bond v d leg qos → emits_sc (rebuild_bond_ports d wire zone leg held qos).
Proof using Hd.
  intros Hb. unfold rebuild_bond_ports, rebuild_port.
  destruct (List.filter _ _) as [|p ps] eqn:F; [auto with emits|].
  assert (∀ x, x ∈ p :: ps → x ∈ bl_ports leg) as Hx.
  { rewrite <-F. intros x Hx%list_elem_of_In. by apply List.filter_In in Hx as [Hx%list_elem_of_In _]. }
  apply emits_bind; [auto with emits|]. intros there. destruct (negb there).
  - apply emits_bind; [auto with emits|]. intros _. apply emits_bind; [auto with emits|]. intros _.
    apply emits_bind; [|intros; auto with emits].
    destruct (want_primary _ _) as [w|] eqn:E; [|auto with emits].
    apply want_primary_port in E as (q & Hq & ->). eauto with emits.
  - emits_all; apply sc_when; eauto with emits.
Qed.

Lemma sc_returned_wire wire : emits_sc (returned_wire v wire).
Proof using Hd. unfold returned_wire, driver_of. emits_all. Qed.
Hint Resolve sc_rebuild_leg sc_rebuild_bond sc_returned_wire : emits.

Lemma sc_rebuild_gw refused held wire r : r ∈ rw_gw d → emits_sc (rebuild_gw refused v d held wire r).
Proof using Hd.
  intros Hr. unfold rebuild_gw. destruct (migrates r) eqn:Hm.
  - apply sc_zone_of. intros z Hz. unfold gw_bond_leg_cidr.
    apply (emits_bind_yields _ (λ c, ∃ gw, z_gw z = Some gw ∧ c = leg_cidr gw (m_node (v_member v)))).
    + apply sc_zone_of. intros z' _. apply sc_gw_of. auto with emits.
    + intros io tr tr' c (t1 & z' & H1 & (t2 & gw & H2 & [= _ <-])%bind_Ok)%bind_Ok.
      unfold zone_of, lift in H1. rewrite Hz in H1. injection H1 as _ <-.
      unfold gw_of in H2. destruct (z_gw z) as [gw'|]; [|done]. injection H2 as _ <-. by exists gw'.
    + intros c (gw & Hg & ->). by apply sc_rebuild_bond, (gw_bond v d r z gw).
  - destruct (String.eqb _ _); auto with emits.
Qed.

Lemma sc_rebuild_fallback refused held wire r :
  r ∈ rw_fallback d → emits_sc (rebuild_fallback refused v d held wire r).
Proof using Hd.
  intros Hr. unfold rebuild_fallback. apply sc_zone_of. intros z Hz. by apply sc_rebuild_bond, (fallback_bond v d r z).
Qed.
Hint Resolve sc_rebuild_gw sc_rebuild_fallback : emits.

Lemma sc_missing_legs refused held : emits_sc (restore_missing_legs refused v d held).
Proof using Hd.
  unfold restore_missing_legs, restore_wire, rebuild_class. emits_all.
  match goal with H : _ ∈ List.filter _ _ |- _ => apply elem_of_bfilter in H as [_ H] end.
  auto with emits.
Qed.

(** *** The restores stay in scope *)

Lemma fabric_legs_owned x : x ∈ fabric_legs d → x ∈ owned d.
Proof using Hd.
  unfold fabric_legs. rewrite elem_of_app, !list_elem_of_fmap.
  intros [(r & -> & H)|(r & -> & H)]; eauto with scope.
Qed.
Hint Resolve fabric_legs_owned : scope.

Lemma sc_rp_filter : emits_sc (restore_rp_filter d).
Proof using Hd.
  unfold restore_rp_filter, restore_rp. emits_all. apply emits_write, sc_sysctl; [eauto with scope|set_solver].
Qed.

Lemma sc_ensure_rule r : r ∈ rules_of v → emits_sc (ensure_rule (pref r) (needle r) (add r)).
Proof using Type. intros. unfold ensure_rule. emits_all. Qed.
Lemma sc_rule_present r : emits_sc (fabric_rule_present r).
Proof using Type. unfold fabric_rule_present. emits_all. Qed.
Hint Resolve sc_ensure_rule sc_rule_present : emits.

Lemma sc_rules : emits_sc (restore_rules v d).
Proof using Type. unfold restore_rules, restore_rule, ensure_fabric_rule. emits_all. Qed.

Lemma return_default_planned x :
  x ∈ gw_return_defaults (v_fabric v) (rw_gw d) → may_run v d (rd_argv x "replace").
Proof using Type.
  unfold gw_return_defaults. intros (r & Hr & E)%list_elem_of_omap.
  destruct (zone _ (gr_zone r)) as [z|] eqn:Ez; [|done]. destruct (z_gw z) as [gw|] eqn:Eg; [|done].
  injection E as <-. by eapply run_default.
Qed.
Hint Resolve return_default_planned : scope.

Lemma sc_gw_return : emits_sc (restore_gw_return_defaults v d).
Proof using Type.
  unfold restore_gw_return_defaults, restore_gw_return, rd_present, default_present, rd_install.
  emits_all.
Qed.

Lemma sc_logger line : emits_sc (logger line).
Proof using Hd. unfold logger. emits_all. Qed.
Hint Resolve sc_logger : emits.

(** *** The workload rows stay in scope *)

Lemma sc_self_vids from_str bridge : emits_sc (self_vids from_str bridge).
Proof using Hd. unfold self_vids. emits_all. Qed.

Lemma sc_ensure_self_vid from_str r : r ∈ workload_rows v →
  emits_sc (ensure_self_vid from_str (f_run_dir (v_fabric v)) (wl_uplink (wr_wl r)) (wl_vid (wr_wl r))).
Proof using Hd.
  intros Hr. unfold ensure_self_vid. emits_all; try apply sc_self_vids.
  apply emits_write. right; right; right. set_solver.
Qed.

Lemma sc_prune r : r ∈ workload_rows v →
  emits_sc (prune_addresses (leg_ifname (wr_wl r)) [wr_address r; gw_cidr (wr_wl r)]).
Proof using Type.
  intros H. unfold prune_addresses. emits_all.
  match goal with H : _ ∈ extra_addresses _ _ |- _ =>
    apply elem_of_bfilter in H as [[_ H%negb_true_iff]%andb_true_iff _]; apply bool_decide_eq_false in H end.
  apply emits_must. by apply sc_run, run_prune.
Qed.

Lemma sc_present leg uplink vid : emits_sc (leg_present leg uplink vid).
Proof using Hd. unfold leg_present. auto with emits. Qed.
Hint Resolve sc_ensure_self_vid sc_prune sc_present : emits.

Lemma sc_install from_str r : r ∈ workload_rows v →
  emits_sc (install from_str (f_run_dir (v_fabric v)) (spec_of r) (workload_qos (v_fabric v))).
Proof using Hd.
  intros Hr. pose proof (workload_owned r Hr) as H. unfold install, proxy_arp, spec_of.
  cbn [ls_leg ls_uplink ls_vid ls_address ls_gw_cidr].
  apply emits_bind; [apply sc_mk_vlan; [eauto with scope|intros c [= <-]; eauto with scope]|]. intros _.
  emits_all. apply emits_write, sc_sysctl; [done|set_solver].
Qed.

Lemma sc_build_workload from_str r :
  r ∈ workload_rows v → emits_sc (build_workload_row from_str v d r).
Proof using Hd.
  intros Hr. unfold build_workload_row. emits_all. by apply sc_install.
Qed.
Hint Resolve sc_build_workload : emits.

Lemma sc_foreign_holder from_str uplink vid leg : emits_sc (foreign_holder from_str uplink vid leg).
Proof using Hd. unfold foreign_holder. emits_all. Qed.
Hint Resolve sc_foreign_holder : emits.

Lemma find_row_in rows name r : find_row rows name = Some r → r ∈ rows.
Proof using Hd. intros [H _]%find_Some_elem. done. Qed.

Lemma sc_fates from_str rows pending : emits_sc (fates from_str rows pending).
Proof using Hd. unfold fates, fate_of, row_ready. emits_all. Qed.

Lemma sc_reload new : emits_sc (reload_bridge_guard (bridge_path v) new).
Proof using Hd.
  unfold reload_bridge_guard. emits_all;
    [apply emits_write; right; right; right; set_solver|apply emits_rename; done].
Qed.
Hint Resolve sc_fates sc_reload : emits.

Lemma sc_guard from_str rows ready pending :
  (∀ r, r ∈ ready → r ∈ workload_rows v) →
  emits_sc (guard_and_install from_str v d rows ready pending).
Proof using Hd.
  intros H. unfold guard_and_install, install_ready_row. emits_all.
Qed.

(** The rows a pass of [fates] finds ready are declared rows. *)
Lemma fates_ready from_str rows pending io tr tr' fs :
  fates from_str rows pending io tr = (tr', Ok fs) →
  ∀ r, r ∈ omap ready_row fs → r ∈ rows.
Proof using Type.
  unfold fates. revert tr tr' fs. induction pending as [|name l IH]; cbn [gather]; intros tr tr' fs.
  { intros [= <- <-] r Hr. by apply not_elem_of_nil in Hr. }
  intros (tr1 & ys & H1 & H2)%bind_Ok r Hr.
  apply bind_Ok in H1 as (tr0 & x & F & [= -> <-]).
  apply bind_Ok in H2 as (tr2 & zs & G & [= -> <-]).
  assert (r ∈ omap ready_row zs ∨ x = Ready r) as [Hz| ->].
  { unfold ready_row in Hr at 1. cbn in Hr. destruct x; auto. apply elem_of_cons in Hr as [->|Hr]; auto. }
  - by apply (IH tr1 tr' zs).
  - unfold fate_of in F. destruct (find_row rows name) as [row|] eqn:E; [|done].
    apply bind_Ok in F as (? & up & [= <- <-] & F). destruct (identify_declared _ _ _); [|done].
    apply bind_Ok in F as (? & [] & _ & [= _ ->]). by apply find_Some_elem in E as [? _].
Qed.

Lemma sc_reconcile from_str pending :
  emits_sc (reconcile_workload_guard from_str v d (workload_rows v) pending).
Proof using Hd.
  unfold reconcile_workload_guard.
  apply (emits_bind_yields _ (λ fs, ∀ r, r ∈ omap ready_row fs → r ∈ workload_rows v)).
  - auto with emits.
  - intros io tr tr' fs. apply fates_ready.
  - intros fs Hfs. emits_all; [by apply sc_guard|].
    apply emits_write. right; right; right. set_solver.
Qed.

Lemma sc_workload_leg from_str r :
  r ∈ workload_rows v → emits_sc (restore_workload_leg from_str v d r).
Proof using Hd. intros Hr. unfold restore_workload_leg. emits_all. Qed.

Lemma sc_workloads from_str : emits_sc (restore_workloads from_str v d).
Proof using Hd.
  unfold restore_workloads. destruct (workload_rows v) as [|r rs] eqn:E; [auto with emits|].
  rewrite <-E. unfold restore_bridge_table, restore_arp_ignore, restore_workload_legs.
  emits_all; try apply sc_reconcile; try (apply emits_write; right; right; left; done).
  match goal with H : _ ∈ List.filter _ _ |- _ => apply elem_of_bfilter in H as [_ H] end.
  by apply sc_workload_leg.
Qed.

Lemma sc_ask_cost t : emits_sc (ask_transit_cost v t).
Proof using Type. unfold ask_transit_cost. emits_all. apply emits_request. split; [done|by exists t]. Qed.
Hint Resolve sc_ask_cost sc_missing_legs sc_rp_filter sc_rules sc_gw_return sc_workloads : emits.


(** What stays in scope is permitted wherever it comes. *)
Lemma permitted_scoped {A} (m : IO A) : emits_sc m → acts (λ _ _, True) (permitted v d) m.
Proof using Type. intros Hm. eapply acts_emits; [done|exact Hm|]. intros io tr a _ Ha. by left. Qed.

Lemma permitted_membership : acts (λ _ _, True) (permitted v d) (restore_bond_membership d).
Proof using Type.
  unfold restore_bond_membership. apply acts_gather; [done|]. intros r Hr io tr _.
  unfold restore_membership, look. unfold bind at 1. destruct (h_read _ _) as [s|e] eqn:E.
  2: { exists []. by rewrite app_nil_r. }
  destruct (String.eqb_spec (trim s) EmptyString) as [_|Hs]; [exists []; by rewrite app_nil_r|]. cbn [orb].
  destruct (any _ _) eqn:Ha; [exists []; by rewrite app_nil_r|]. unfold bind at 1, exec at 1.
  assert (permitted v d io tr (ARun ["ip"; "link"; "set"; trim s; "nomaster"])) as H0.
  { right. exists r, s. split_and!; [done..| |done]. intros (p & Ep & Hp)%list_elem_of_fmap.
    apply any_false with (x := p) in Ha; [|done]. apply String.eqb_neq in Ha. congruence. }
  destruct (h_run _ _) as [out|e].
  2: { eexists [_]. split; [done|]. by split. }
  destruct (output_ok out).
  { eexists [_]. split; [done|]. by split. }
  assert (permitted v d io (tr ++ [ARun ["ip"; "link"; "set"; trim s; "nomaster"]]) (ARun (link_set (fr_ifname r) "down"))) as H1.
  { left. apply sc_run, run_down. unfold fabric_legs. apply elem_of_app. right. apply list_elem_of_fmap. by exists r. }
  unfold run_ignore, exec, ret. unfold bind at 1. unfold bind at 1.
  destruct (h_run _ _); (eexists [_; _]; split; [by rewrite <-app_assoc|]; by split_and!).
Qed.

Lemma permitted_restore_all refused from_str parse_chains held cost :
  acts (λ _ _, True) (permitted v d) (restore_all refused from_str parse_chains v d held cost).
Proof using Hd.
  unfold restore_all.
  assert (∀ A (m : IO A), emits_sc m → acts (λ _ _, True) (permitted v d) m) as Hs by (intros; by apply permitted_scoped).
  assert (stable (λ _ _, True)) as Ht by done.
  apply acts_bind; [done|apply Hs; unfold conf_interfaces; emits_all|]. intros present.
  apply acts_bind; [done|apply Hs|intros corrected].
  { unfold correct_one. emits_all. apply emits_write. left. eexists (_, _). split; [eassumption|].
    split; [done|]. cbn. case_match; auto. }
  apply acts_bind; [done|apply Hs; emits_all|]. intros _.
  apply acts_bind; [done|apply Hs; auto with emits|]. intros n1.
  apply acts_bind; [done|apply Hs; auto with emits|]. intros n2.
  apply acts_bind; [done|apply permitted_membership|]. intros n3. apply Hs.
  unfold ensure_foreign_transit_accept, unresolved_forward_drops, foreign_forward_drops,
    foreign_transit_accept_present, report_blocked. emits_all.
Qed.
End scope.


(** ** Failing closed *)

Definition chain_show : list string := ["nft"; "list"; "chain"; "inet"; "cfab-fwd"; "forward"].

(** What failing closed may do: switch forwarding off on an owned interface, tell the engine to
    stop offering this member as transit, and log. *)
Definition stops (v : View) (d : Rows) (a : Action) : Prop :=
  match a with
  | AWrite p c => ∃ row, row ∈ rw_owned d ∧ p = conf_path row.1 "forwarding" ∧ c = "0"%string
  | ARequest sock line => sock = sock_path (v_fabric v) ∧ line = transit_line LeafOffset
  | ARun argv => ∃ line, argv = ["logger"; "-t"; "cfab-fwd-watchdog"; line]
  | _ => False
  end.

Lemma fail_closed_stops v d reason : emits (stops v d) (fail_closed v d reason).
Proof.
  unfold fail_closed, conf_interfaces, forward_off, when, proc_sysctl, ask_transit_cost, logger.
  emits_all; [apply emits_write; eexists; eauto|apply emits_request; done|apply emits_run_ignore; cbn; eauto].
Qed.

Lemma ask_transit_cost_eq v t io tr :
  ∃ r, ask_transit_cost v t io tr = (tr ++ [ARequest (sock_path (v_fabric v)) (transit_line t)], Ok r).
Proof. eexists. reflexivity. Qed.

Lemma fail_closed_ended v d reason io tr tr' rep :
  fail_closed v d reason io tr = (tr', Ok rep) →
  wd_failed rep = Some reason
  ∧ ∃ present new, h_list_dir (e_host (io tr)) CONF = Ok present ∧ tr' = tr ++ new
    ∧ (transits v = true → ARequest (sock_path (v_fabric v)) (transit_line LeafOffset) ∈ new)
    ∧ ∀ row, row ∈ rw_owned d → row.1 ∈ present → AWrite (conf_path row.1 "forwarding") "0" ∈ new.
Proof.
  unfold fail_closed. intros (tr1 & present & Hp & H)%bind_Ok.
  unfold conf_interfaces in Hp. apply bind_Ok in Hp as (? & ? & [= <- <-] & Hp).
  unfold lift in Hp. injection Hp as <- Hp.
  apply bind_Ok in H as (tr2 & [] & Heach & H). apply bind_Ok in H as (tr3 & cost & Hcost & H).
  apply bind_Ok in H as (tr4 & [] & Hlog & [= -> <-]).
  split; [done|]. exists present.
  assert (∀ row : string * bool, row ∈ rw_owned d → emits (λ _, True) (forward_off present row)) as Hem.
  { intros row _. unfold forward_off, when, proc_sysctl. emits_all. }
  destruct (emits_each _ _ _ Hem io tr) as (w & Ew & _). rewrite Heach in Ew. cbn in Ew. subst tr2.
  assert (∃ c, tr3 = (tr ++ w) ++ c
    ∧ (transits v = true → ARequest (sock_path (v_fabric v)) (transit_line LeafOffset) ∈ c)) as (c & -> & Hc).
  { destruct (transits v).
    - destruct (ask_transit_cost_eq v LeafOffset io (tr ++ w)) as [r Er]. rewrite Er in Hcost.
      injection Hcost as <- _. eexists. split; [done|]. intros _. by left.
    - injection Hcost as <- _. exists []. by rewrite app_nil_r. }
  assert (emits (λ _, True) (logger ("FAIL-CLOSED: " ++ reason
    ++ " — forwarding=0 on every cfab interface; re-run cfab up"))) as Hlem by (unfold logger; emits_all).
  destruct (Hlem io ((tr ++ w) ++ c)) as (g & Eg & _). rewrite Hlog in Eg. cbn in Eg. subst tr'.
  exists (w ++ c ++ g). split; [done|]. split; [by rewrite <-!app_assoc|]. split.
  { intros Ht. rewrite !elem_of_app. right; left. by apply Hc. }
  intros row Hrow Hin. rewrite elem_of_app. left.
  destruct (each_ran _ _ _ _ _ _ Hem Heach row Hrow) as (b & n & a & Hr & E).
  rewrite <-!app_assoc in E. apply app_inv_head in E as ->.
  unfold forward_off, when in Hr. rewrite bool_decide_true in Hr by done.
  unfold proc_sysctl, write in Hr. injection Hr as Hr _. apply app_inv_head in Hr as <-.
  rewrite !elem_of_app. right; left. by left.
Qed.

(** C15. On a member that transits, a tick that finds the forward policy not loaded with a drop
    default does nothing but stop: whatever the host answers it writes [forwarding] only as 0
    and only on interfaces cfab owns, asks the engine only to step out of transit, and logs. If
    it ends without an error, it has written 0 on every owned interface the kernel lists, has
    asked the engine, and its report names the reason. *)
Theorem unloaded_policy_stops_forwarding refused from_str parse_chains v d held io tr chain
    (Htransits : transits v = true)
    (Hchain : h_run (e_host (io tr)) chain_show = Ok chain)
    (Hpolicy : policy_loaded chain = false) :
  let tick := run refused from_str parse_chains v d held io tr in
  ∃ new, tick.1 = tr ++ ARun chain_show :: new ∧ Forall (stops v d) new
  ∧ ∀ rep, tick.2 = Ok rep →
      wd_failed rep = Some not_loaded
      ∧ ARequest (sock_path (v_fabric v)) (transit_line LeafOffset) ∈ new
      ∧ ∃ present, h_list_dir (e_host (io (tr ++ [ARun chain_show]))) CONF = Ok present
          ∧ ∀ row, row ∈ rw_owned d → row.1 ∈ present →
              AWrite (conf_path row.1 "forwarding") "0" ∈ new.
Proof.
  cbn zeta. unfold run. rewrite Htransits.
  assert (exec chain_show io tr = (tr ++ [ARun chain_show], Ok chain)) as Hx
    by (unfold exec; by rewrite Hchain).
  fold chain_show. rewrite (bind_eq _ _ _ _ _ _ Hx), Hpolicy. cbn [negb].
  destruct (fail_closed_stops v d not_loaded io (tr ++ [ARun chain_show])) as (new & E & Hs).
  exists new. split; [by rewrite E, <-app_assoc|]. split; [done|]. intros rep Hrep.
  destruct (fail_closed v d not_loaded io (tr ++ [ARun chain_show])) as [tr' r] eqn:F.
  cbn in E, Hrep. subst r. destruct (fail_closed_ended _ _ _ _ _ _ _ F) as (Hf & p & n & Hp & En & Hc & Hw).
  rewrite E in En. apply app_inv_head in En as <-. eauto 10.
Qed.

(** ** Forwarding is switched on only behind the policy *)

Lemma conf_path_inj a b key : conf_path a key = conf_path b key → a = b.
Proof. unfold conf_path. rewrite <-!str_app_assoc. intros H%append_inj_r%append_inj_r. by simplify_eq. Qed.

(** The last byte of a path tells a [forwarding] sysctl from every other path written. *)
Fixpoint last_byte (s : string) : option Ascii.ascii :=
  match s with
  | EmptyString => None
  | String c s' => match last_byte s' with None => Some c | o => o end
  end.
Lemma last_byte_app s t : last_byte t ≠ None → last_byte (s ++ t)%string = last_byte t.
Proof.
  intros H. induction s as [|c s IH]; [done|]. rewrite str_app_cons. cbn. rewrite IH.
  by destruct (last_byte t).
Qed.

Definition turns_on (a : Action) (ifn : string) : Prop := a = AWrite (conf_path ifn "forwarding") "1".

Lemma scoped_turns_on v d a ifn : scoped v d a → turns_on a ifn → (ifn, true) ∈ rw_owned d.
Proof.
  unfold turns_on. intros Hs ->. cbn in Hs.
  assert (last_byte (conf_path ifn "forwarding") = Some "g"%char) as Hg
    by (unfold conf_path; rewrite <-!str_app_assoc; by rewrite last_byte_app).
  destruct Hs as [([n b] & Hin & Hp%conf_path_inj & [Hc|[Hb _]])|[(n & key & _ & Hp & Hk)|[[Hp _]|Hp]]].
  - done.
  - cbn in *. by subst.
  - rewrite Hp in Hg. unfold conf_path in Hg. rewrite <-!str_app_assoc in Hg.
    unfold LEG_SYSCTLS in Hk. rewrite !elem_of_cons, elem_of_nil in Hk.
    destruct Hk as [Hk|[Hk|[Hk|[Hk|[]]]]]; simplify_eq; by rewrite last_byte_app in Hg.
  - by rewrite Hp in Hg.
  - rewrite !elem_of_cons, elem_of_nil in Hp. unfold bridge_path, deferred_path, record_path in Hp.
    destruct Hp as [Hp|[Hp|[Hp|[]]]]; rewrite Hp in Hg; by rewrite last_byte_app in Hg.
Qed.

Lemma permitted_turns_on v d io tr new a ifn :
  allowed (permitted v d io) tr new → a ∈ new → turns_on a ifn → (ifn, true) ∈ rw_owned d.
Proof.
  intros H Hin Ha. destruct (allowed_elem _ _ _ _ H Hin) as (tr' & [Hs|(r & s & _ & _ & _ & _ & ->)]); [|done].
  by eapply scoped_turns_on.
Qed.

(** On a member that does not transit no owned interface is one to forward on. *)
Lemma no_transit_no_forward v d n :
  rows_of v = Ok d → transits v = false → (n, true) ∉ rw_owned d.
Proof.
  intros Hd Ht Hin. destruct (rows_of_inv v d Hd) as (claims & E & Ho & _).
  rewrite Ho in Hin.
  pose proof (dedup_by_name_spec _ (StronglySorted_merge_sort (leb_rel flag_leb) claims)) as [_ Hs].
  apply Hs in Hin as [Hin _]. rewrite (merge_sort_Permutation (leb_rel flag_leb) claims) in Hin.
  rewrite (claims_shape v d Hd claims E), Ht in Hin.
  rewrite !elem_of_app, !list_elem_of_fmap, !list_elem_of_bind in Hin.
  destruct Hin as [H|[H|[H|[H|[H|H]]]]];
    repeat match goal with
    | H : ∃ _, _ |- _ => destruct H
    | H : _ ∧ _ |- _ => destruct H
    | H : _ ∈ _ :: _ |- _ => apply elem_of_cons in H as [H|H]
    | H : _ ∈ _ <$> _ |- _ => apply list_elem_of_fmap in H
    | H : _ ∈ [] |- _ => by apply not_elem_of_nil in H
    | x : Zone |- _ => progress cbn in *
    end; done.
Qed.

(** A tick switches forwarding on only where the declaration makes the interface a transit
    one, and only on a member that transits, after the same tick asked nft for the forward chain
    and the answer held a drop policy: whatever the host answers and whatever fails, the flag is
    never raised over a chain that was missing, unreadable or open when the tick looked. *)
Theorem forwarding_on_only_behind_policy refused from_str parse_chains v d held io tr
    (Hrows : rows_of v = Ok d) :
  ∃ new, (run refused from_str parse_chains v d held io tr).1 = tr ++ new
  ∧ ∀ a ifn, a ∈ new → turns_on a ifn →
      (ifn, true) ∈ rw_owned d ∧ transits v = true ∧ head new = Some (ARun chain_show)
      ∧ ∃ chain, h_run (e_host (io tr)) chain_show = Ok chain ∧ policy_loaded chain = true.
Proof.
  unfold run. destruct (transits v) eqn:Ht.
  - fold chain_show. unfold bind at 1, exec at 1.
    destruct (h_run (e_host (io tr)) chain_show) as [chain|e] eqn:Hc; cbn [fst].
    + destruct (policy_loaded chain) eqn:Hp; cbn [negb].
      * assert (acts (λ _ _, True) (permitted v d) (cost <~ ask_transit_cost v Declared ;;
          restore_all refused from_str parse_chains v d held cost)%cmd) as Hem.
        { apply acts_bind; [done|by apply permitted_scoped, sc_ask_cost|]. intros cost. by apply permitted_restore_all. }
        destruct (Hem io (tr ++ [ARun chain_show]) I) as (new & -> & Hs).
        exists (ARun chain_show :: new). split; [by rewrite <-app_assoc|].
        intros a ifn [->|Hin]%elem_of_cons Ha; [done|].
        pose proof (permitted_turns_on v d io _ new a ifn Hs Hin Ha). eauto 10.
      * destruct (fail_closed_stops v d not_loaded io (tr ++ [ARun chain_show])) as (new & -> & Hs).
        exists (ARun chain_show :: new). split; [by rewrite <-app_assoc|].
        intros a ifn [->|Hin]%elem_of_cons Ha; [done|]. rewrite list.Forall_forall in Hs.
        specialize (Hs a Hin). unfold turns_on in Ha. subst a. by destruct Hs as (_ & _ & _ & [=]).
    + exists [ARun chain_show]. split; [done|]. intros a ifn ->%list_elem_of_singleton [=].
  - destruct (permitted_restore_all v d Hrows refused from_str parse_chains held None io tr I) as (new & -> & Hs).
    exists new. split; [done|]. intros a ifn Hin Ha.
    destruct (no_transit_no_forward v d ifn Hrows Ht). by eapply permitted_turns_on.
Qed.

(** ** A deferred row waits for its guard *)

Definition reload_steps (path content : string) : list Action :=
  let tmp := (path ++ ".new")%string in
  [AWrite tmp content; ARun ["nft"; "-f"; tmp]; ARename tmp path].

Lemma reload_guard_ran path content io tr :
  ∃ k, (reload_bridge_guard path content io tr).1 = tr ++ take k (reload_steps path content)
    ∧ ((reload_bridge_guard path content io tr).2 = Ok tt → (3 ≤ k)%nat).
Proof.
  unfold reload_bridge_guard, must, bind, write, exec, rename. cbv beta iota.
  destruct (e_write _ _ _) as [[]|e]; [|by exists 1%nat].
  destruct (h_run _ _) as [out|e]; [|by exists 2%nat; rewrite <-app_assoc].
  destruct (output_ok out); [|by exists 2%nat; rewrite <-app_assoc].
  exists 3%nat. cbn. by rewrite <-!app_assoc.
Qed.

Lemma installs_extend from_str v d ready io tr :
  ∃ new, (gather (install_ready_row from_str v d) ready io tr).1 = tr ++ new.
Proof.
  assert (emits (λ _, True) (gather (install_ready_row from_str v d) ready)) as H.
  { unfold install_ready_row, build_workload_row, install, mk_vlan, prune_addresses, proxy_arp,
      ensure_self_vid, self_vids, set_leg_forwarding, proc_sysctl, link_exists, vlan_identity_is,
      both, differs, when. emits_all. }
  destruct (H io tr) as (new & E & _). eauto.
Qed.

(** Whatever the host answers, a pass over the deferred rows either does nothing but steps of
    a guard reload, or has identified the uplink of EVERY declared row first, and then the guard
    file already is the guard of all of them or the reload of exactly that guard - file written,
    nft answered 0, renamed into place - has succeeded before the first step of any install: no
    deferred row's leg or gateway address appears ahead of the ARP guard over its uplink. *)
Theorem deferred_rows_wait_for_guard from_str v d rows ready pending io tr :
  ∃ new, (guard_and_install from_str v d rows ready pending io tr).1 = tr ++ new
  ∧ ((∃ content k, new = take k (reload_steps (bridge_path v) content))
     ∨ ∃ guards installs, identify_all_uplinks (e_host (io tr)) rows = Ok guards
       ∧ let content := bridge_table guards in
         (or_empty (h_read (e_host (io tr)) (bridge_path v)) = content ∧ new = installs)
         ∨ ((reload_bridge_guard (bridge_path v) content io tr).2 = Ok tt
            ∧ new = reload_steps (bridge_path v) content ++ installs)).
Proof.
  unfold guard_and_install, bind at 1, look at 1.
  destruct (identify_all_uplinks _ rows) as [guards|[name reason]] eqn:Hid.
  2: { exists []. rewrite app_nil_r. destruct ((λ r, wl_name (wr_wl r)) <$> ready);
         (split; [done|left; by exists EmptyString, 0%nat]). }
  unfold bind at 1, look at 1. destruct (String.eqb _ _) eqn:Hold.
  - apply String.eqb_eq in Hold. destruct (installs_extend from_str v d ready io tr) as (new & E).
    exists new. split.
    + unfold bind. destruct (gather _ ready io tr) as [tr' [x|e]]; exact E.
    + right. exists guards, new. split; [done|]. cbv zeta. auto.
  - destruct (reload_guard_ran (bridge_path v) (bridge_table guards) io tr) as (k & E & Hk).
    unfold bind at 1, attempt at 1.
    destruct (reload_bridge_guard _ _ io tr) as [tr' [[]|e]] eqn:Hr; cbn [fst] in E; subst tr'.
    + specialize (Hk eq_refl). rewrite take_ge in * by (cbn; lia).
      destruct (installs_extend from_str v d ready io
        (tr ++ reload_steps (bridge_path v) (bridge_table guards))) as (new & E).
      exists (reload_steps (bridge_path v) (bridge_table guards) ++ new). split.
      * rewrite app_assoc, <-E. unfold bind. by destruct (gather _ ready _ _) as [tr' [x|e]].
      * right. exists guards, new. split; [done|]. cbv zeta. rewrite Hr. auto.
    + exists (take k (reload_steps (bridge_path v) (bridge_table guards))). split; [done|]. eauto.
Qed.

(** ** A bond that exists is not completed

    [rebuild_bond_ports] builds the whole leg only when the bond's netdev is missing. A build
    that failed after [ip link add] - on the port of a wire that is still absent, say, which
    [mk_bond_leg] is given here and [apply] leaves out - left a bond without the address, the
    primary and the up that come last, and every later tick finds the bond and stops there. *)

Definition shows (h : Host) (argv : list string) (o : Output) : Prop := h_run h argv = Ok o.

Definition link_there (h : Host) (dev marker : string) : Prop :=
  ∃ o o', shows h (link_show dev) o ∧ output_ok o = true
    ∧ shows h (link_show_d dev) o' ∧ output_ok o' = true ∧ has_substring marker (stdout o') = true.

Lemma link_there_exists env dev marker tr :
  link_there (e_host env) dev marker → link_exists dev (λ _, env) tr = (tr ++ [ARun (link_show dev)], Ok true).
Proof. intros (o & o' & H & Ho & _). unfold link_exists, bind, exec. unfold shows in H. by rewrite H, Ho. Qed.

Definition port_there (h : Host) (p : Port) (vid : Z) : Prop :=
  ∃ o o', shows h (link_show (po_ifname p)) o ∧ output_ok o = true
    ∧ shows h (link_show_d (po_ifname p)) o' ∧ output_ok o' = true
    ∧ has_substring (vlan_marker vid) (stdout o') = true
    ∧ has_substring (po_ifname p ++ "@" ++ po_wire p ++ ":") (stdout o') = true.

Definition looks (dev : string) : list Action := [ARun (link_show dev); ARun (link_show_d dev)].

Lemma rebuild_port_found zone bond wire want vid qos env p tr :
  port_there (e_host env) p vid →
  rebuild_port zone bond wire want vid qos p (λ _, env) tr = (tr ++ looks (po_ifname p), Ok []).
Proof.
  intros (o & o' & H & Ho & H' & Ho' & Hv & Hat). unfold shows in *.
  unfold rebuild_port, leg_absent, link_exists, vlan_identity_is, bind, exec, ret. cbv beta iota.
  rewrite H. rewrite Ho. cbn [negb]. rewrite H', Ho', Hv, Hat. cbn. by rewrite <-app_assoc.
Qed.

Lemma rebuild_ports_found zone bond wire want vid qos env ps tr :
  (∀ p, p ∈ ps → port_there (e_host env) p vid) →
  gather (rebuild_port zone bond wire want vid qos) ps (λ _, env) tr
  = (tr ++ (ps ≫= λ p, looks (po_ifname p)), Ok []).
Proof.
  revert tr. induction ps as [|p ps IH]; intros tr H; [cbn; by rewrite app_nil_r|].
  cbn [gather]. rewrite (bind_eq _ _ _ _ _ _ (rebuild_port_found _ _ _ _ _ _ _ _ _ (H p ltac:(by left)))).
  unfold bind. rewrite IH by (intros; apply H; by right). cbn. by rewrite <-!app_assoc.
Qed.

Lemma bond_found_is_left d wire zone leg held qos env tr
    (Hbond : link_there (e_host env) (bl_ifname leg) " bond ")
    (Hports : ∀ p, p ∈ bl_ports leg → po_wire p = wire → port_there (e_host env) p (bl_vid leg)) :
  ∃ devs, rebuild_bond_ports d wire zone leg held qos (λ _, env) tr = (tr ++ (devs ≫= looks), Ok []).
Proof.
  unfold rebuild_bond_ports.
  assert (∀ p, p ∈ List.filter (λ s, String.eqb (po_wire s) wire) (bl_ports leg) →
            port_there (e_host env) p (bl_vid leg)) as Hin.
  { intros p Hp%list_elem_of_In. apply List.filter_In in Hp as [Hp%list_elem_of_In E%String.eqb_eq]. auto. }
  destruct (List.filter _ _) as [|p0 ps] eqn:F; [by exists []; rewrite app_nil_r|].
  rewrite <-F in *. clear F p0 ps.
  rewrite (bind_eq _ _ _ _ _ _ (link_there_exists _ _ _ tr Hbond)). cbn [negb].
  destruct Hbond as (o & o' & _ & _ & Hd & Ho & Hm). unfold shows in Hd.
  assert (∀ tr, link_kind_is (bl_ifname leg) " bond " (λ _, env) tr
                = (tr ++ [ARun (link_show_d (bl_ifname leg))], Ok true)) as Hk.
  { intros tr'. unfold link_kind_is, bind, exec. by rewrite Hd, Ho, Hm. }
  rewrite (bind_eq _ _ _ _ _ _ (Hk _)). cbn [negb]. rewrite rebuild_ports_found by done.
  exists (bl_ifname leg :: (po_ifname <$> List.filter (λ s, String.eqb (po_wire s) wire) (bl_ports leg))).
  assert (∀ ps : list Port, ((po_ifname <$> ps) ≫= looks) = (ps ≫= λ p, looks (po_ifname p))) as E.
  { intros ps. induction ps as [|p ps IH]; [done|]. cbn in *. by rewrite IH. }
  rewrite bind_cons, E, <-!app_assoc. done.
Qed.

(** ** A sample member *)

(** The first member of [Derive.Sample] on hosts whose kernel remembers the netdevs that were
    added: a link shows itself when it is one of [wires] or the trace added it, and a
    sub-interface can be added only on a link that is there. *)
Module Sample.
Definition view : View := Derive.Sample.view.
Definition no_rows : Rows := {| rw_class := []; rw_gw := []; rw_fallback := []; rw_owned := []; rw_wires := [] |}.
Definition rows : Rows := match rows_of view with Ok d => d | Err _ => no_rows end.
Definition refused (_ : Refusal) : Error := Fatal "no such zone".
Definition no_json (_ : string) : option Value := None.
Definition no_chains (_ : string) : result string Value := Ok (Obj []).

Definition answer (s : string) : result Error Output := Ok {| status := 0; stdout := s; stderr := EmptyString |}.
Definition refuse (s : string) : result Error Output := Ok {| status := 1; stdout := EmptyString; stderr := s |}.

Section kernel.
Context (wires : list string) (chain : string).

(** What [ip -d link show] says of a netdev the command would add, if it would add it. *)
Definition added (argv : list string) (dev : string) : option string :=
  match argv with
  | "ip" :: "link" :: "add" :: "link" :: lower :: "name" :: n :: "type" :: "vlan" :: "id" :: vid :: _ =>
      if String.eqb n dev && bool_decide (lower ∈ wires)
      then Some (n ++ "@" ++ lower ++ ": vlan protocol 802.1Q id " ++ vid ++ " ")%string else None
  | "ip" :: "link" :: "add" :: n :: "type" :: "bond" :: _ =>
      if String.eqb n dev then Some (n ++ ": bond ")%string else None
  | _ => None
  end.
Definition made (dev : string) (a : Action) : option string :=
  match a with ARun argv => added argv dev | _ => None end.
Definition link_text (tr : list Action) (dev : string) : option string :=
  if bool_decide (dev ∈ wires) then Some (dev ++ ": ")%string else head (omap (made dev) tr).

Definition show_answer (o : option string) : result Error Output :=
  match o with Some t => answer t | None => refuse "Device does not exist." end.

Definition kernel_run (tr : list Action) (argv : list string) : result Error Output :=
  match argv with
  | ["ip"; "link"; "show"; dev] | ["ip"; "-d"; "link"; "show"; dev] => show_answer (link_text tr dev)
  | "ip" :: "link" :: "add" :: "link" :: lower :: "name" :: n :: _ =>
      if bool_decide (lower ∈ wires) then answer EmptyString else refuse "Cannot find device"
  | ["nft"; "list"; "chain"; _; _; _] => answer chain
  | _ => answer EmptyString
  end.

Definition host (tr : list Action) : Host :=
  {| h_run := kernel_run tr; h_read _ := Err (Fatal "no such file"); h_exists _ := false;
     h_is_writable _ := true; h_list_dir _ := Ok ["eth0"; "lo"; "st-a"; "st-any"];
     h_read_link _ := Err (Fatal "no such link") |}.
Definition env (tr : list Action) : Env :=
  {| e_host := host tr; e_write _ _ := Ok tt; e_rename _ _ := Ok tt; e_remove _ := Ok tt;
     e_mkdir _ := Ok tt; e_request _ _ := Ok "{}"%string; e_probe _ _ := NotListening |}.
End kernel.

(** Missing legs restored, tick after tick, on a member whose [eth1] is absent. *)
Definition restore (tr : list Action) : list Action * result Error (list Note) :=
  restore_missing_legs refused view rows ∅ (env ["eth0"] "policy drop;") tr.
Definition tr1 := (restore []).1.
Definition tr2 := (restore tr1).1.
Definition tr3 := (restore tr2).1.

(** The first two ticks fail on the absent wire's port; after them both bonds exist and hold the
    present wire's port, have no address and were never raised, and no later tick does more
    than look. *)
Example half_built_bonds_stay :
  is_ok (restore []).2 = false ∧ is_ok (restore tr1).2 = false ∧ is_ok (restore tr2).2 = true
  ∧ all (λ ifn, is_some_and (link_text ["eth0"] tr3 ifn) (λ _, true)) ["st-any"; "st-any-a"; "cfab-gw10"; "cfab-gw10-a"] = true
  ∧ any (λ a, match a with
              | ARun ["ip"; "addr"; "replace"; _; "dev"; dev] => bool_decide (dev ∈ ["st-any"; "cfab-gw10"])
              | ARun ["ip"; "link"; "set"; dev; "up"] => bool_decide (dev ∈ ["st-any"; "cfab-gw10"])
              | _ => false
              end) tr3 = false
  ∧ (restore tr3).2 = Ok []
  ∧ all (λ a, match a with
              | ARun ["ip"; "link"; "show"; _] | ARun ["ip"; "-d"; "link"; "show"; _] => true
              | _ => false
              end) (drop (length tr3) (restore tr3).1) = true.
Proof. vm_compute. repeat split. Qed.
End Sample.


Lemma unloaded_policy_witness :
  let io := Sample.env ["eth0"; "eth1"] "policy accept;" in
  let tick := run Sample.refused Sample.no_json Sample.no_chains Sample.view Sample.rows ∅ io [] in
  (∃ rep, tick.2 = Ok rep)
  ∧ ∃ new, tick.1 = [] ++ ARun chain_show :: new ∧ Forall (stops Sample.view Sample.rows) new
    ∧ ∀ rep, tick.2 = Ok rep →
        wd_failed rep = Some not_loaded
        ∧ ARequest (sock_path (v_fabric Sample.view)) (transit_line LeafOffset) ∈ new
        ∧ ∃ present, h_list_dir (e_host (io ([] ++ [ARun chain_show]))) CONF = Ok present
          ∧ ∀ row, row ∈ rw_owned Sample.rows → row.1 ∈ present →
              AWrite (conf_path row.1 "forwarding") "0" ∈ new.
Proof.
  cbv zeta. split; [vm_compute; eexists; reflexivity|].
  eapply (unloaded_policy_stops_forwarding Sample.refused Sample.no_json Sample.no_chains);
    [by vm_compute|reflexivity|reflexivity].
Defined.

(** The legs of the first wire are rebuilt and switched on, behind the policy. *)
Lemma forwarding_on_witness :
  rows_of Sample.view = Ok Sample.rows
  ∧ let tick := run Sample.refused Sample.no_json Sample.no_chains Sample.view Sample.rows ∅
                  (Sample.env ["eth0"; "eth1"] "policy drop;") [] in
    existsb (λ a, bool_decide (a = AWrite (conf_path "st-a" "forwarding") "1")) tick.1 = true
    ∧ ∃ new, tick.1 = [] ++ new
      ∧ ∀ a ifn, a ∈ new → turns_on a ifn →
          (ifn, true) ∈ rw_owned Sample.rows ∧ transits Sample.view = true
          ∧ head new = Some (ARun chain_show)
          ∧ ∃ chain, h_run (e_host (Sample.env ["eth0"; "eth1"] "policy drop;" [])) chain_show = Ok chain
            ∧ policy_loaded chain = true.
Proof.
  cbv zeta. split; [by vm_compute|]. split; [by vm_compute|].
  apply (forwarding_on_only_behind_policy Sample.refused Sample.no_json Sample.no_chains).
  by vm_compute.
Defined.
