(* ===== verification/Apply.v ===== *)
(** Putting the fabric on a member (src/src/commands/apply.rs): the preconditions, the netdevs,
    the rules, the policy and forwarding, the bridge guard and the gateway addresses, the mark
    and the queues, in the order of the source. The netdev builders are in [Legs].

    Every function that takes [&mut dyn Sys] is an [IO] of [Sys]. [fuel] bounds the loops that
    delete a rule until it is gone, as in [Rules.drop_rules]. *)
From Stdlib Require Import Ascii String.
From S2P Require Import Prelude Text Decl Sys Net Fabric Derive EngineState.
From S2P Require Import Uplink HostRoutes Rules Legs Emit Check Teardown Watchdog.
Local Open Scope Z_scope.
Local Open Scope cmd_scope.

(** ** The mark's backend *)

Definition IPT : list string := ["iptables-legacy"; "iptables-legacy-save"; "iptables-legacy-restore"].

(** [for t in IPT { if !have_tool(t)? { return Err(..) } }]. *)
Definition need_each (lacking : string → Error) (tools : list string) : IO unit :=
  each (λ t, have <~ have_tool t ;; if have then ret tt else throw (lacking t)) tools.

Definition no_backend (t : string) : Error :=
  Fatal ("neither nft nor " ++ t ++ " is installed — a leaf needs one of them for the fallback "
    ++ "control-egress ceiling").
Definition no_nf_tables (t : string) : Error :=
  Fatal ("this kernel has no nf_tables (nft: Operation not supported) and " ++ t ++ " is not "
    ++ "installed — a leaf needs one of them for the fallback control-egress ceiling").
Definition nft_unusable (out : Output) : Error :=
  Fatal ("nft is installed but unusable here: " ++ trim (stderr out)).

Definition probe_add : list string :=
  ["/usr/bin/env"; "LC_ALL=C"; "nft"; "add"; "table"; "inet"; "cfabprobe"].

Definition mark_backend_for_leaf : IO Backend :=
  have <~ have_tool "nft" ;;
  if negb have then need_each no_backend IPT >>~ ret IptablesLegacy
  else
    probe <~ exec probe_add ;;
    run_ignore (nft_delete "inet" "cfabprobe") >>~
    (if output_ok probe then ret Nft
     else if negb (has_substring "Operation not supported" (stderr probe)) then throw (nft_unusable probe)
     else need_each no_nf_tables IPT >>~ ret IptablesLegacy).

Definition run_path (f : Fabric) (name : string) : string := (f_run_dir f ++ "/" ++ name)%string.

Definition remove_other_mark_backend (f : Fabric) (chosen : Backend) : IO unit :=
  match chosen with
  | Nft => remove_mark_ipt >>~ remove (run_path f "mark.ipt")
  | IptablesLegacy => drop_table "inet" "cfab" >>~ remove (run_path f "mark.nft")
  end.

(** [Ok] of a derivation or a rendering, or the text of its refusal. *)
Section apply.
Context (refused : Refusal → Error).
Definition lift_r {A} (r : result Refusal A) : IO A :=
  lift (match r with Ok a => Ok a | Err e => Err (refused e) end).

(** [serde_json::from_str]. *)
Context (from_str : string → option Value) (fuel : nat) (v : View) (d : Rows).
Let f := v_fabric v.

Definition drop_chain (chain : string) : IO unit :=
  run_ignore (mangle ["-F"; chain]) >>~ run_ignore (mangle ["-X"; chain]).

Definition install_mark_ipt : IO unit :=
  let path := run_path f "mark.ipt" in
  rendered <~ lift_r (ceiling_ipt v) ;;
  write path rendered >>~
  (must ["iptables-legacy-restore"; "--noflush"; path] >>~
   (jump <~ exec (mangle ["-C"; "OUTPUT"; "-j"; OUT_CHAIN]) ;;
    when (negb (output_ok jump)) (must (mangle ["-A"; "OUTPUT"; "-j"; OUT_CHAIN]) >>~ ret tt) >>~
    (save <~ must mangle_save ;;
     let stale := without (chains_in (stdout save)) (chains_in rendered) in
     save <~ match stale with
             | [] => ret save
             | _ => each drop_chain stale >>~ must mangle_save
             end ;;
     write (run_path f "mark.applied") (ours (stdout save))))).

Definition install_mark_nft : IO unit :=
  mark <~ lift_r (mark_table v) ;;
  let path := run_path f "mark.nft" in
  write path mark >>~
  (must ["nft"; "-f"; path] >>~
   (applied <~ must ["nft"; "-s"; "list"; "table"; "inet"; "cfab"] ;;
    write (run_path f "mark.applied") (stdout applied))).

(** ** Preconditions *)

Definition is_host : bool := match m_kind (v_member v) with Decl.Host => true | Leaf => false end.

Definition tools : list string :=
  ["ip"] ++ (if is_host then ["nft"; "tc"] ++ (if f_host_forward f then ["logger"] else []) else []).
Definition not_installed (t : string) : Error := Fatal (t ++ " not installed").

Definition mark_backend : IO Backend := if is_host then ret Nft else mark_backend_for_leaf.

Definition digit_first (s : string) : bool := match s with String c _ => is_digit c | EmptyString => false end.
Definition line_addressed (l : string) : bool := any digit_first (drop 2 (split_whitespace l)).
Definition admin_addressed (admin : string) : IO (list string) :=
  out <~ exec (addr_show admin) ;;
  ret (if any line_addressed (lines (stdout out)) then [admin] else []).
Definition locked_out (ifs : list string) : Error :=
  Fatal ("no wire (" ++ String.concat " " ifs ++ ") has an untagged IPv4 address — the admin path "
    ++ "would be unreachable").
Definition lockout_guard : IO unit :=
  match admin_ifs v with
  | [] => ret tt
  | ifs =>
      addressed <~ gather admin_addressed ifs ;;
      match addressed with [] => throw (locked_out ifs) | _ => ret tt end
  end.

Definition read_only_sys : Error :=
  Fatal ("/proc/sys is read-only here — run the container privileged (Docker: --privileged; "
    ++ "Synology Container Manager: 'high privilege')").
Definition writable_guard : IO unit :=
  ok <~ look (λ h, h_is_writable h (conf_path "all" "rp_filter")) ;;
  if ok then ret tt else throw read_only_sys.

(** ** The wires *)

Definition absent_wire_warning (dev : string) : string :=
  "wire " ++ dev ++ " absent (no such netdev) — its segments are not configured; the fabric is "
    ++ "up on the rest".

(** The wires with no netdev, in the order of [wires], which is the order of the source's set. *)
Definition own_wires : IO (list string) :=
  gather (λ dev, there <~ link_exists dev ;;
                 if negb there then ret [dev] else must (link_set dev "up") >>~ ret []) (rw_wires d).

Definition present_ports (ports : list Port) (home : string) (absent : list string)
    : option (list Port * string) :=
  let kept := List.filter (λ s, negb (bool_decide (po_wire s ∈ absent))) ports in
  match head kept with
  | None => None
  | Some first => Some (kept, if bool_decide (home ∈ absent) then po_wire first else home)
  end.

Definition driver_unrecorded (w : string) : string := "WARNING: ethtool -i " ++ w ++ ": driver unrecorded".
Definition driver_row (w : string) : IO (list (string * string + string)) :=
  drv <~ driver_of w ;;
  ret [match drv with Some d => inl (w, d) | None => inr (driver_unrecorded w) end].
Definition lefts {A B} (l : list (A + B)) : list A := omap (λ x, match x with inl a => Some a | inr _ => None end) l.
Definition rights {A B} (l : list (A + B)) : list B := omap (λ x, match x with inr b => Some b | inl _ => None end) l.

Definition record_drivers (absent : list string) : IO (list string) :=
  r <~ attempt (have_tool "ethtool") ;;
  let have := match r with Ok b => b | Err _ => false end in
  rows <~ (if have then gather driver_row (without (wire_name <$> m_wires (v_member v)) absent) else ret []) ;;
  write (drivers_path (f_run_dir f)) (render_drivers (lefts rows)) >>~
  ret ((if have then [] else ["WARNING: ethtool not installed: wire drivers unrecorded"])%string ++ rights rows).

(** ** Global sysctls *)

Definition owned_off (ifn : string) : IO unit := when (owned_name d ifn) (proc_sysctl ifn "forwarding" "0").

Definition global_sysctls : IO unit :=
  proc_sysctl "all" "ignore_routes_with_linkdown" "1" >>~
  (proc_sysctl "all" "send_redirects" "0" >>~
   (proc_sysctl "default" "send_redirects" "0" >>~
    (proc_sysctl "default" "forwarding" "0" >>~
     (present <~ conf_interfaces ;; each owned_off present)))).

(** ** The workload rows: which are ready, and why the others wait *)

(** What one row adds to the apply's lists. *)
Record Plan := {
  pl_warnings : list string;
  pl_deferred : list string;
  pl_guards : list (Ipv4Addr * Uplink);
  pl_ready : list LegSpec;
  pl_descs : list string
}.
Definition deferred (row : WorkloadRow) (why : string) (guards : list (Ipv4Addr * Uplink)) : Plan :=
  {| pl_warnings := ["workload " ++ wl_name (wr_wl row) ++ ": " ++ why]%string;
     pl_deferred := [wl_name (wr_wl row)]; pl_guards := guards; pl_ready := []; pl_descs := [] |}.

Definition to_watchdog : string := "; row deferred to the watchdog".

(** [for port in &up.ports { .. break }]: the first port that does not forward, and why. *)
Fixpoint not_forwarding (h : Host) (bridge : string) (ports : list string) : option string :=
  match ports with
  | [] => None
  | port :: ports' =>
      match stp_forwarding h bridge port with
      | Ok (true, _) => not_forwarding h bridge ports'
      | Ok (false, state) =>
          Some ("uplink " ++ port ++ " not forwarding (STP state " ++ state ++ ")" ++ to_watchdog)%string
      | Err e => Some ("uplink " ++ port ++ " not forwarding (" ++ e ++ ")" ++ to_watchdog)%string
      end
  end.

Definition uplink_word (ports : list string) : string :=
  if (1 <? Z.of_nat (length ports)) then "uplinks" else "uplink".

Definition leg_spec (row : WorkloadRow) : LegSpec :=
  {| ls_leg := leg_ifname (wr_wl row); ls_uplink := wl_uplink (wr_wl row);
     ls_vid := wl_vid (wr_wl row); ls_address := wr_address row; ls_gw_cidr := gw_cidr (wr_wl row) |}.

Definition ready (row : WorkloadRow) (up : Uplink) : Plan :=
  let wl := wr_wl row in
  {| pl_warnings := []; pl_deferred := []; pl_guards := [(wl_gw wl, up)]; pl_ready := [leg_spec row];
     pl_descs := [wl_name wl ++ " on " ++ leg_ifname wl ++ " (" ++ uplink_word (up_ports up) ++ " "
                    ++ String.concat ", " (up_ports up) ++ ")"]%string |}.

Definition plan_up (row : WorkloadRow) (up : Uplink) : IO Plan :=
  let wl := wr_wl row in
  let wait why := ret (deferred row why [(wl_gw wl, up)]) in
  stp <~ look (λ h, not_forwarding h (up_bridge up) (up_ports up)) ;;
  match stp with
  | Some why => wait why
  | None =>
      holder <~ attempt (foreign_holder from_str (wl_uplink wl) (wl_vid wl) (leg_ifname wl)) ;;
      match holder with
      | Err e => wait ("vid holder probe failed: " ++ display e ++ to_watchdog)%string
      | Ok (Some dev) =>
          wait ("vid " ++ show (wl_vid wl) ++ " on " ++ wl_uplink wl ++ " is held by " ++ dev
                  ++ " (a host stanza?): remove it" ++ to_watchdog)%string
      | Ok None =>
          carrying <~ look (λ h, ports_carrying_vid from_str h up) ;;
          match carrying with
          | Err e => wait ("uplink port vid probe failed: " ++ display e ++ to_watchdog)%string
          | Ok [] => ret (ready row up)
          | Ok ports =>
              wait ("vid " ++ show (wl_vid wl) ++ " is on uplink " ++ String.concat ", " ports
                      ++ " (host stanza bridge-vids?): remove it" ++ to_watchdog)%string
          end
      end
  end.

Definition plan_row (row : WorkloadRow) : IO Plan :=
  let bridge := wl_uplink (wr_wl row) in
  present <~ look (λ h, bridge_present h bridge) ;;
  if negb present then ret (deferred row ("waiting for bridge " ++ bridge) [])
  else
    up <~ look (λ h, identify_declared h bridge (wl_vid (wr_wl row))) ;;
    match up with
    | Err e => ret (deferred row ("uplink not identified: " ++ e ++ to_watchdog) [])
    | Ok up => plan_up row up
    end.

Definition plans : IO (list Plan) := gather (λ row, p <~ plan_row row ;; ret [p]) (workload_rows v).

(** ** The netdevs *)

Definition veth_add (name peer : string) : list string :=
  ["ip"; "link"; "add"; name; "type"; "veth"; "peer"; "name"; peer].

Definition mk_identity (name cidr : string) : IO unit :=
  let peer := (name ++ "-peer")%string in
  stray <~ both (link_exists name) (differs (link_kind_is name (marker "veth"))) ;;
  when stray (must (link_del name) >>~ ret tt) >>~
  (there <~ link_exists name ;;
   when (negb there) (must (veth_add name peer) >>~ ret tt) >>~
   (must (addr_replace cidr name) >>~
    (each (λ dev, proc_sysctl dev "forwarding" "0" >>~ proc_sysctl dev "send_redirects" "0") [name; peer] >>~
     (must (link_set peer "up") >>~ (must (link_set name "up") >>~ ret tt))))).

Definition build_identity (z : Zone) : IO unit :=
  mk_identity (identity_if z) (identity_addr v z ++ "/32") >>~
  (must ["ip"; "route"; "replace"; "unreachable"; zone_blk z] >>~ ret tt).

Definition gw_leg_shape_replaced (ifname removed : string) (migrates : bool) : string :=
  ifname ++ ": removed the " ++ removed ++ " a previous declaration left — this one puts the "
    ++ "ingress leg on " ++ (if migrates then "scope `any`" else "one domain")
    ++ " — and rebuilt the leg".

Definition replace_a_wrong_shape_gw_leg (r : GwRow) : IO (list string) :=
  there <~ link_exists (gr_ifname r) ;;
  if negb there then ret []
  else
    wrong <~ link_kind_is (gr_ifname r) (marker (if migrates r then "vlan" else "bond")) ;;
    if negb wrong then ret []
    else
      removed <~ remove_gw_leg (v_member v) (gr_ifname r) ;;
      ret (match removed with
           | Some what => [gw_leg_shape_replaced (gr_ifname r) what (migrates r)]
           | None => []
           end).

Definition bond_leg (ifname : string) (vid : Z) (ph : list Port * string) (cidr : string) : BondLeg :=
  {| bl_ifname := ifname; bl_vid := vid; bl_home := ph.2; bl_ports := ph.1; bl_cidr := cidr |}.

(** [None] is the source's [continue]: every wire under the leg is absent. *)
Definition build_gw (absent : list string) (r : GwRow) : IO (list string) :=
  z <~ zone_of refused f (gr_zone r) ;;
  gw <~ gw_of z ;;
  warnings <~ replace_a_wrong_shape_gw_leg r ;;
  let install :=
    rd_install {| rd_table := show (z_id z); rd_via := gw_router gw; rd_dev := gr_ifname r |} >>~ ret warnings in
  if migrates r then
    match present_ports (gr_ports r) (gr_home r) absent with
    | None => ret warnings
    | Some ph =>
        mk_bond_leg (bond_leg (gr_ifname r) (gr_vid r) ph (leg_cidr gw (m_node (v_member v)))) (qos_map f z) >>~
        install
    end
  else
    when (negb (bool_decide (gr_home r ∈ absent))) (build_gw_vlan_leg refused v r) >>~ install.

Definition build_fallback (absent : list string) (r : FallbackRow) : IO unit :=
  z <~ zone_of refused f (fr_zone r) ;;
  match present_ports (fr_ports r) (fr_home r) absent with
  | None => ret tt
  | Some ph =>
      mk_bond_leg (bond_leg (fr_ifname r) (fr_vid r) ph (segment_addr v z (fr_seg r) ++ "/24")%string) (qos_map f z)
  end.

Definition classes (absent : list string) : list ClassRow :=
  List.filter (λ r, negb (bool_decide (cr_wire r ∈ absent))) (rw_class d).

Definition build_netdevs (absent : list string) (legs : list LegSpec) : IO (list string) :=
  each build_identity (f_zones f) >>~
  (each (build_class_leg refused v) (classes absent) >>~
   (warnings <~ gather (build_gw absent) (rw_gw d) ;;
    each (build_fallback absent) (rw_fallback d) >>~
    (each (λ s, install from_str (f_run_dir f) s (workload_qos f)) legs >>~ ret warnings))).

(** ** The additive host default *)

Definition no_floor (hd : HostDefault) : string :=
  "no floor default route on this host: the fabric default (table " ++ hd_table hd ++ " via "
    ++ hd_via hd ++ ") is installed with no pref-2099 pins, so a reply sourced from an admin address "
    ++ "leaves over " ++ hd_dev hd ++ " — restore the host's own `gateway` line in "
    ++ "/etc/network/interfaces".

Definition host_default_unit (hd : HostDefault) (addrs : list string) : IO unit :=
  sync_floor_rules fuel addrs >>~
  (each ensure_fabric_rule (host_default_rules v (rw_gw d) []) >>~ hd_install hd).

Definition install_host_default : IO (list string) :=
  match host_default v (rw_gw d) with
  | None => ret []
  | Some hd =>
      floor <~ floor_default ;;
      pins <~ (match floor with
               | Some fl => addrs <~ floor_addresses (fl_dev fl) ;; ret (addrs, [])
               | None => ret ([], [no_floor hd])
               end) ;;
      r <~ attempt (host_default_unit hd pins.1) ;;
      match r with
      | Ok _ => ret pins.2
      | Err e => attempt (remove_host_default fuel) >>~ throw e
      end
  end.

(** ** Forwarding *)

Definition leg_was_built (migrates : bool) (ports : list Port) (home : string) (absent : list string) : bool :=
  if migrates then is_some_and (present_ports ports home absent) (λ _, true)
  else negb (bool_decide (home ∈ absent)).

Definition policy_chain : list string := ["nft"; "list"; "chain"; "inet"; "cfab-fwd"; "forward"].
Definition not_policy_drop : Error :=
  Fatal "policy loaded but chain forward is not 'policy drop' — not enabling forwarding".

Definition forward_on (ifname : string) : IO unit := proc_sysctl ifname "forwarding" "1".

(** The interfaces [enable_forwarding] turns forwarding on for, in its order. *)
Definition built_gws (absent : list string) : list GwRow :=
  List.filter (λ r, leg_was_built (migrates r) (gr_ports r) (gr_home r) absent) (rw_gw d).
Definition built_fallbacks (absent : list string) : list FallbackRow :=
  List.filter (λ r, leg_was_built true (fr_ports r) (fr_home r) absent) (rw_fallback d).

Definition load_policy : IO unit :=
  locals <~ look (λ h, seed_locals from_str h v) ;;
  policy <~ lift_r (policy_seeded v (list_to_map (rev locals))) ;;
  let path := run_path f "policy.nft" in
  write path policy >>~
  (must ["nft"; "-f"; path] >>~
   (chain <~ must policy_chain ;;
    if negb (has_substring "policy drop;" (stdout chain)) then throw not_policy_drop
    else
      applied <~ must ["nft"; "-s"; "list"; "table"; "inet"; "cfab-fwd"] ;;
      write (run_path f "policy.applied") (stdout applied))).

Definition enable_forwarding (absent : list string) (legs : list string) : IO unit :=
  load_policy >>~
  (each forward_on (cr_ifname <$> classes absent) >>~
   (each forward_on (gr_ifname <$> built_gws absent) >>~
    (each forward_on (fr_ifname <$> built_fallbacks absent) >>~
     (each (λ admin, proc_sysctl admin "forwarding" "0") (admin_ifs v) >>~
      (each forward_on legs >>~
       (ensure_foreign_transit_accept >>~ ret tt)))))).

Definition leaf_guard : IO unit := each ensure_fabric_rule (leak_guard_rules v).

Definition forward_stage (absent : list string) (legs : list LegSpec) : IO unit :=
  if negb is_host then leaf_guard
  else if f_host_forward f then enable_forwarding absent (ls_leg <$> legs)
  else
    run_ignore (nft_delete "inet" "cfab-fwd") >>~
    (remove (run_path f "policy.nft") >>~ remove (run_path f "policy.applied")).

(** ** The bridge guard, and what may only follow it *)

Definition guard_path : string := run_path f "workload-bridge.nft".
Definition load_guard (guards : list (Ipv4Addr * Uplink)) : IO unit :=
  match guards with
  | [] => ret tt
  | _ =>
      write guard_path (bridge_table guards) >>~
      (must ["nft"; "-f"; guard_path] >>~
       (applied <~ must ["nft"; "-s"; "list"; "table"; "bridge"; "cfab"] ;;
        write (run_path f "workload-bridge.applied") (stdout applied)))
  end.

Definition record_deferred (names : list string) : IO unit :=
  match workload_rows v with
  | [] => remove (run_path f "workload-deferred")
  | _ => write (run_path f "workload-deferred") (String.concat lf names)
  end.

Definition go_live (legs : list LegSpec) : IO unit :=
  each (λ s, must (addr_replace (ls_gw_cidr s) (ls_leg s)) >>~ ret tt) legs >>~
  match workload_rows v with [] => ret tt | _ => proc_sysctl "all" "arp_ignore" "1" end.

(** ** Marking and queues *)

Definition mark_stage (backend : Backend) : IO (list string) :=
  write (backend_path (f_run_dir f)) (backend_str backend ++ lf) >>~
  (remove_other_mark_backend f backend >>~
   match backend with
   | Nft => install_mark_nft >>~ ret []
   | IptablesLegacy => install_mark_ipt >>~ ret [backend_status_line IptablesLegacy]
   end).

Definition qdisc_stage (absent : list string) : IO unit :=
  if is_host then
    each (λ dev, must ["tc"; "qdisc"; "replace"; "dev"; dev; "root"; "fq_codel"] >>~ ret tt)
         (without (rw_wires d) absent)
  else ret tt.

Definition apply_ok (absent : list string) : string :=
  if is_host then
    "apply OK on " ++ m_name (v_member v) ++ " (node " ++ show (m_node (v_member v)) ++ ", host); forward="
      ++ (if f_host_forward f then "1" else "0") ++ " shape="
      ++ show (Z.of_nat (length (rw_wires d)) - Z.of_nat (length absent)) ++ " wires"
  else
    "apply OK on " ++ m_name (v_member v) ++ " (node " ++ show (m_node (v_member v)) ++ ", leaf); no transit "
      ++ "(cost +" ++ show (f_leaf_cost_offset f) ++ ", forwarding=0, leak guard)".
Definition last_line (absent descs : list string) : string :=
  apply_ok absent
    ++ match descs with [] => EmptyString | _ => "; workloads: " ++ String.concat ", " descs end.

(** ** The apply *)

Definition preconditions : IO Backend :=
  need_each not_installed tools >>~
  (backend <~ mark_backend ;;
   lockout_guard >>~ (writable_guard >>~ (mkdir_p (f_run_dir f) >>~ ret backend))).

Definition preflight : IO unit := r <~ look (λ h, host_preflight h v) ;; lift r.

Definition run : IO (list string) :=
  backend <~ preconditions ;;
  absent <~ own_wires ;;
  driver_warnings <~ record_drivers absent ;;
  (if is_host then global_sysctls else ret tt) >>~
  (preflight >>~
   (ps <~ plans ;;
    let legs := ps ≫= pl_ready in
    gw_warnings <~ build_netdevs absent legs ;;
    each ensure_fabric_rule (return_path_rules v) >>~
    (hd_warnings <~ install_host_default ;;
     forward_stage absent legs >>~
     (load_guard (ps ≫= pl_guards) >>~
      (record_deferred (ps ≫= pl_deferred) >>~
       (go_live legs >>~
        (mark_warnings <~ mark_stage backend ;;
         qdisc_stage absent >>~
         ret ((absent_wire_warning <$> absent) ++ driver_warnings ++ (ps ≫= pl_warnings) ++ gw_warnings
                ++ hd_warnings ++ mark_warnings ++ [last_line absent (ps ≫= pl_descs)])))))))).

(** What [settled_down_ifs] found, for the operator: a bond is down when no wire under it is up. *)
Definition bond_ifs : list string :=
  (fr_ifname <$> rw_fallback d) ++ (gr_ifname <$> List.filter migrates (rw_gw d)).
Definition after_slash (entry : string) : string :=
  match rsplit_once "/"%char entry with Some (_, s) => s | None => entry end.
Definition describe_down (down : list string) : list string :=
  (λ entry, if bool_decide (after_slash entry ∈ bond_ifs)
            then entry ++ " (no wire with carrier under it)" else entry)%string <$> down.
End apply.

(** ** A workload row is ready, or it waits *)

Section rows.
Context (from_str : string → option Value) (v : View).

(** What an apply and a tick of the watchdog both look at before a row gets its leg. *)
Definition conditions (h0 h1 h2 : Host) (row : WorkloadRow) (up : Uplink) : Prop :=
  Forall (λ port, is_forwarding (stp_forwarding h0 (up_bridge up) port) = true) (up_ports up)
  ∧ (∃ out, h_run h1 ["ip"; "-d"; "-j"; "link"; "show"; "type"; "vlan"] = Ok out ∧ output_ok out = true
       ∧ parse_foreign_holder from_str (stdout out) (wl_uplink (wr_wl row)) (wl_vid (wr_wl row))
           (leg_ifname (wr_wl row)) = None)
  ∧ ports_carrying_vid from_str h2 up = Ok [].

Lemma not_forwarding_None h bridge ports :
  not_forwarding h bridge ports = None ↔
  all (λ port, is_forwarding (stp_forwarding h bridge port)) ports = true.
Proof using Type.
  induction ports as [|p ports IH]; cbn; [done|].
  destruct (stp_forwarding h bridge p) as [[[|] st]|e]; cbn; [exact IH|done|done].
Qed.

(** The holder probe: one read, and an answer whatever the host says. *)
Lemma holder_probe uplink vid leg io tr :
  ∃ r, attempt (foreign_holder from_str uplink vid leg) io tr
       = (tr ++ [ARun ["ip"; "-d"; "-j"; "link"; "show"; "type"; "vlan"]], Ok r)
    ∧ (r = Ok None ↔ ∃ out, h_run (e_host (io tr)) ["ip"; "-d"; "-j"; "link"; "show"; "type"; "vlan"] = Ok out
         ∧ output_ok out = true ∧ parse_foreign_holder from_str (stdout out) uplink vid leg = None).
Proof using Type.
  unfold attempt, foreign_holder, must, exec, bind.
  destruct (h_run _ _) as [o|e]; [destruct (output_ok o) eqn:E|]; eexists; (split; [reflexivity|]).
  - split; [intros [= H]; eauto|]. by intros (? & [= <-] & _ & ->).
  - split; [done|]. by intros (? & [= <-] & ? & _); congruence.
  - split; [done|]. by intros (? & ? & _).
Qed.

(** Both the apply's plan and the watchdog's, as one probe. *)
Lemma plan_up_cases row up io tr :
  ∃ new p, plan_up from_str row up io tr = (tr ++ new, Ok p)
    ∧ row_ready from_str row up io tr = (tr ++ new, Ok (bool_decide (pl_deferred p = [])))
    ∧ Forall (λ a, a = ARun ["ip"; "-d"; "-j"; "link"; "show"; "type"; "vlan"]) new
    ∧ (p = ready row up ∨ ∃ why, p = deferred row why [(wl_gw (wr_wl row), up)]).
Proof using Type.
  pose proof (not_forwarding_None (e_host (io tr)) (up_bridge up) (up_ports up)) as Hs.
  destruct (holder_probe (wl_uplink (wr_wl row)) (wl_vid (wr_wl row)) (leg_ifname (wr_wl row)) io tr)
    as (r & Eh & _).
  unfold plan_up, row_ready. cbv zeta. rewrite !bind_look.
  destruct (not_forwarding _ _ _) as [why|].
  { assert (all (λ port, is_forwarding (stp_forwarding (e_host (io tr)) (up_bridge up) port)) (up_ports up)
            = false) as Hf by (apply not_true_is_false; intros Ht; by discriminate (proj2 Hs Ht)).
    rewrite Hf. exists [], (deferred row why [(wl_gw (wr_wl row), up)]). rewrite app_nil_r. cbn.
    repeat split; [constructor|eauto]. }
  rewrite (proj1 Hs eq_refl). cbn [negb]. rewrite !(bind_eq _ _ _ _ _ _ Eh).
  exists [ARun ["ip"; "-d"; "-j"; "link"; "show"; "type"; "vlan"]].
  destruct r as [[dev|]|e]; [|rewrite bind_look; unfold look;
    destruct (ports_carrying_vid _ _ _) as [[|p ps]|e]|]; eexists;
    (split; [reflexivity|]; split; [reflexivity|]; split; [by apply list.Forall_singleton|eauto]).
Qed.

(** What an apply builds a workload row on is what the watchdog waits for. Asked about one
    row's uplink at the same point of a host's history, the two run the same single command,
    look at the same files and come to the same answer; neither ever fails, whatever the host
    says, and an apply that finds a condition missing defers that row and no more. The leg one
    builds is the leg the other builds. *)
Theorem apply_and_watchdog_agree row up io tr :
  ∃ new p, plan_up from_str row up io tr = (tr ++ new, Ok p)
    ∧ row_ready from_str row up io tr = (tr ++ new, Ok (bool_decide (pl_deferred p = [])))
    ∧ (pl_ready p = if bool_decide (pl_deferred p = []) then [spec_of row] else [])
    ∧ pl_guards p = [(wl_gw (wr_wl row), up)].
Proof using Type.
  destruct (plan_up_cases row up io tr) as (new & p & E1 & E2 & _ & Hp). exists new, p.
  split; [done|]. split; [done|]. destruct Hp as [->|[why ->]]; done.
Qed.

(** One row's plan: no change, no failure. *)
Lemma plan_row_total row io tr :
  ∃ new p, plan_row from_str row io tr = (tr ++ new, Ok p)
    ∧ Forall (λ a, a = ARun ["ip"; "-d"; "-j"; "link"; "show"; "type"; "vlan"]) new
    ∧ (pl_ready p = [] ∨ pl_ready p = [leg_spec row])
    ∧ (∀ g, g ∈ pl_guards p → identify_declared (e_host (io tr)) (wl_uplink (wr_wl row)) (wl_vid (wr_wl row)) = Ok g.2
                             ∧ g.1 = wl_gw (wr_wl row))
    ∧ (pl_ready p = [leg_spec row] → ∃ up, pl_guards p = [(wl_gw (wr_wl row), up)]).
Proof using Type.
  unfold plan_row. cbv zeta. rewrite bind_look.
  destruct (bridge_present _ _); cbn [negb].
  2: { exists [], (deferred row ("waiting for bridge " ++ wl_uplink (wr_wl row)) []). rewrite app_nil_r.
       split_and!; [done|constructor|by left|by intros g Hg%not_elem_of_nil|done]. }
  rewrite bind_look. destruct (identify_declared _ _ _) as [up|e] eqn:Ei.
  - destruct (plan_up_cases row up io tr) as (new & p & E & _ & Hn & Hp). exists new, p.
    split; [done|]. split; [done|].
    destruct Hp as [->|[why ->]]; cbn; (split_and!; [auto|intros g ->%list_elem_of_singleton; auto|eauto]).
  - eexists [], _. rewrite app_nil_r.
    split_and!; [done|constructor|by left|by intros g Hg%not_elem_of_nil|done].
Qed.
End rows.

(** ** Forwarding only behind the policy *)

Create HintDb off.

Section forwarding.
Context (refused : Refusal → Error) (from_str : string → option Value) (fuel : nat) (v : View) (d : Rows).
Let f := v_fabric v.

(** The write that turns some interface's forwarding on, told by the path's last byte. *)
Definition is_on (a : Action) : bool :=
  match a with AWrite p c => opt_eqb (last_byte p) (Some "g"%char) && String.eqb c "1" | _ => false end.

Lemma on_app a t c : last_byte t ≠ None → last_byte t ≠ Some "g"%char → is_on (AWrite (a ++ t) c) = false.
Proof using Type.
  intros H1 H2. unfold is_on, opt_eqb. rewrite last_byte_app by done. by rewrite bool_decide_false.
Qed.
Lemma on_conf ifn key c :
  last_byte key ≠ None → last_byte key ≠ Some "g"%char → is_on (AWrite (conf_path ifn key) c) = false.
Proof using Type.
  intros H1 H2.
  assert (last_byte ("/" ++ key)%string = last_byte key) as E by (change "/"%string with (String "/" EmptyString);
    rewrite last_byte_app by done; done).
  unfold conf_path. rewrite <-!str_app_assoc. rewrite str_app_assoc. apply on_app; by rewrite E.
Qed.
Lemma on_zero p : is_on (AWrite p "0") = false.
Proof using Type. unfold is_on. apply andb_false_r. Qed.

(** An address put on a netdev. *)
Definition is_addr (a : Action) : bool :=
  match a with ARun ["ip"; "addr"; "replace"; _; "dev"; _] => true | _ => false end.

(** Neither forwarding on nor an address. *)
Definition calm (a : Action) : bool := negb (is_on a) && negb (is_addr a).
Lemma calm_write p c : is_on (AWrite p c) = false → calm (AWrite p c) = true.
Proof using Type. unfold calm. by intros ->. Qed.

Ltac off_leaf :=
  first [ reflexivity | apply on_zero | apply on_conf; done | apply on_app; done | apply calm_write; off_leaf ].
Ltac off_step :=
  match goal with
  | |- emits _ (when ?b _) => unfold when
  | |- emits _ (both _ _) => unfold both
  | |- emits _ (differs _) => unfold differs
  | |- emits _ (write _ _) => apply emits_write
  | |- emits _ (proc_sysctl _ _ _) => apply emits_write
  | |- is_on _ = false => off_leaf
  | |- calm _ = true => off_leaf
  | |- emits _ _ => solve [auto with off]
  | _ => emits_step
  end.
Ltac off := repeat off_step.

Local Abbreviation stays := (emits (λ a, is_on a = false)).
Local Abbreviation calms := (emits (λ a, calm a = true)).

Lemma calm_stays {A} (m : IO A) : calms m → stays m.
Proof using Type.
  intros H. eapply emits_mono; [exact H|]. intros a Ha. apply andb_true_iff in Ha as [Ha _].
  by apply negb_true_iff in Ha.
Qed.

Lemma off_preconditions : calms (preconditions v).
Proof using Type.
  unfold preconditions, mark_backend, mark_backend_for_leaf, need_each, lockout_guard, admin_addressed,
    writable_guard. off.
Qed.
Lemma off_own_wires : calms (own_wires d).
Proof using Type. unfold own_wires, link_exists. off. Qed.
Lemma off_drivers absent : calms (record_drivers v absent).
Proof using Type.
  unfold record_drivers, driver_row, driver_of, drivers_path. off.
Qed.
Lemma off_global : calms (global_sysctls d).
Proof using Type. unfold global_sysctls, conf_interfaces, owned_off. off. Qed.
Lemma off_plans : calms (plans from_str v).
Proof using Type.
  unfold plans, plan_row, plan_up, foreign_holder. off.
Qed.
Lemma off_vlan name lower vid addr up qos : stays (mk_vlan name lower vid addr up qos).
Proof using Type. unfold mk_vlan, link_exists, vlan_identity_is. off. Qed.
Lemma off_class_sysctls ifn : stays (class_sysctls ifn).
Proof using Type. unfold class_sysctls. off. Qed.
Lemma off_drop_rule r : calms (drop_fabric_rule fuel r).
Proof using Type.
  unfold drop_fabric_rule. induction fuel as [|n IH]; cbn [drop_rules]; off.
Qed.
Hint Resolve off_vlan off_class_sysctls off_drop_rule : off.
Lemma off_bond_leg r qos : stays (mk_bond_leg r qos).
Proof using Type.
  unfold mk_bond_leg, mk_bond, add_bond_port, set_bond_primary, link_exists, link_kind_is. off.
Qed.
Hint Resolve off_bond_leg : off.
Lemma off_install s qos : stays (install from_str (f_run_dir f) s qos).
Proof using Type.
  unfold install, prune_addresses, proxy_arp, ensure_self_vid, self_vids, record_path. off.
Qed.
Hint Resolve off_install : off.
Lemma off_gw_leg m ifn : stays (remove_gw_leg m ifn).
Proof using Type.
  unfold remove_gw_leg, delete_if_there, delete_proven, link_exists, link_kind_is. off.
Qed.
Hint Resolve off_gw_leg : off.
Lemma off_netdevs absent legs : stays (build_netdevs refused from_str v d absent legs).
Proof using Type.
  unfold build_netdevs, build_identity, mk_identity, build_class_leg, build_gw, build_gw_vlan_leg,
    build_fallback, replace_a_wrong_shape_gw_leg, zone_of, gw_of, rd_install, link_exists, link_kind_is. off.
Qed.
Lemma off_rule r : calms (ensure_fabric_rule r).
Proof using Type. unfold ensure_fabric_rule, ensure_rule. off. Qed.
Hint Resolve off_rule : off.
Lemma off_host_default : calms (install_host_default fuel v d).
Proof using Type.
  unfold install_host_default, host_default_unit, remove_host_default, sync_floor_rules, installed_floor_addresses,
    host_addresses, floor_default, floor_addresses, add_pin, drop_pin, hd_install,
    installed_workload_sources. off.
Qed.
Lemma off_guard guards : calms (load_guard v guards).
Proof using Type. unfold load_guard, guard_path, run_path. off. Qed.
Lemma off_deferred names : calms (record_deferred v names).
Proof using Type. unfold record_deferred, run_path. off. Qed.
Lemma off_live legs : stays (go_live v legs).
Proof using Type. unfold go_live. off. Qed.
Lemma off_mark b : calms (mark_stage refused v b).
Proof using Type.
  unfold mark_stage, remove_other_mark_backend, remove_mark_ipt, flush_chain, run_ignore, drop_table,
    install_mark_nft, install_mark_ipt, lift_r, backend_path, run_path, drop_chain. off.
Qed.
Lemma off_qdisc absent : calms (qdisc_stage v d absent).
Proof using Type. unfold qdisc_stage. off. Qed.
Lemma off_foreign : calms ensure_foreign_transit_accept.
Proof using Type. unfold ensure_foreign_transit_accept. off. Qed.

(** What has been done when the chain of the policy written for this view was loaded, and read
    back with its default to drop. *)
Definition policy_in_force (io : Env_) (hist : list Action) : Prop :=
  let path := run_path f "policy.nft" in
  ∃ locals text before after out chain,
    policy_seeded v locals = Ok text
    ∧ hist = before ++ [AWrite path text; ARun ["nft"; "-f"; path]; ARun policy_chain] ++ after
    ∧ h_run (e_host (io (before ++ [AWrite path text]))) ["nft"; "-f"; path] = Ok out
    ∧ output_ok out = true
    ∧ h_run (e_host (io (before ++ [AWrite path text; ARun ["nft"; "-f"; path]]))) policy_chain = Ok chain
    ∧ has_substring "policy drop;" (stdout chain) = true.

Lemma policy_in_force_stable : stable policy_in_force.
Proof using Type.
  intros io tr new (l & t & b & a & o & c & Hp & -> & H). exists l, t, b, (a ++ new), o, c.
  split; [done|]. split; [|done]. by rewrite <-!app_assoc.
Qed.

Lemma load_policy_ran io tr tr' u : load_policy refused from_str v io tr = (tr', Ok u) → policy_in_force io tr'.
Proof using Type.
  unfold load_policy. intros H. apply bind_Ok in H as (t1 & locals & [= <- <-] & H).
  apply bind_Ok in H as (t2 & text & Hp & H). cbv zeta in H.
  unfold lift_r, lift in Hp. injection Hp as <- Hp. destruct (policy_seeded _ _) as [text'|] eqn:Et; [|done].
  injection Hp as <-.
  apply bind_Ok in H as (t3 & [] & Hw & H). unfold write in Hw. injection Hw as <- _.
  apply bind_Ok in H as (t4 & out & Hf & H). apply must_Ok in Hf as (-> & Hf & Hok).
  apply bind_Ok in H as (t5 & chain & Hc & H). apply must_Ok in Hc as (-> & Hc & _).
  destruct (has_substring _ _) eqn:Es; [|done]. cbn [negb] in H.
  apply bind_Ok in H as (t6 & applied & Ha & H). apply must_Ok in Ha as (-> & _ & _).
  unfold write in H. injection H as <- _.
  eexists _, text', tr, _, out, chain. rewrite <-!app_assoc in *. repeat split; try eassumption.
Qed.

(** Every interface that may ever forward: a fabric leg of this member's, never a wire. *)
Definition lanes : list string :=
  (cr_ifname <$> rw_class d) ++ (gr_ifname <$> rw_gw d) ++ (fr_ifname <$> rw_fallback d)
    ++ ((λ r, leg_ifname (wr_wl r)) <$> workload_rows v).

Definition behind_policy (io : Env_) (hist : list Action) (a : Action) : Prop :=
  ∀ ifn, a = AWrite (conf_path ifn "forwarding") "1" →
    is_host v = true ∧ f_host_forward f = true ∧ policy_in_force io hist ∧ ifn ∈ lanes.

Lemma off_behind {A} I (m : IO A) : stays m → acts I behind_policy m.
Proof using Type.
  intros H. eapply acts_free; [exact H|]. intros io tr a Ha ifn ->. exfalso. revert Ha.
  unfold is_on, opt_eqb. unfold conf_path. rewrite <-!str_app_assoc. rewrite last_byte_app by done. done.
Qed.

Lemma forward_on_behind I l :
  stable I → (∀ io tr, I io tr → policy_in_force io tr) → is_host v = true → f_host_forward f = true →
  (∀ x, x ∈ l → x ∈ lanes) → acts I behind_policy (each forward_on l).
Proof using Type.
  intros HI HP Hh Hf Hl. apply acts_each; [done|]. intros x Hx. unfold forward_on, proc_sysctl.
  eapply acts_one; [|reflexivity]. intros io tr Ht ifn E.
  assert (x = ifn) as <- by (apply (conf_path_inj x ifn "forwarding"); congruence). auto.
Qed.

Lemma stage_behind absent legs :
  (∀ s, s ∈ legs → ls_leg s ∈ lanes) →
  acts always behind_policy (forward_stage refused from_str v d absent legs).
Proof using Type.
  intros Hl. unfold forward_stage. destruct (is_host v) eqn:Eh; cbn [negb].
  2: { apply off_behind, calm_stays. unfold leaf_guard. off. }
  destruct (f_host_forward (v_fabric v)) eqn:Ef.
  2: { apply off_behind. unfold run_ignore. off. }
  unfold enable_forwarding. apply (acts_bind_then _ _ _ _ (λ _, policy_in_force)).
  - apply off_behind. unfold load_policy, lift_r, run_path. off.
  - intros io tr tr' u _. apply load_policy_ran.
  - intros _. acts_seq policy_in_force_stable.
    all: try (apply forward_on_behind; [apply policy_in_force_stable|done..|]).
    + intros x Hx. unfold lanes. apply list_elem_of_fmap in Hx as (r & -> & Hr).
      apply elem_of_bfilter in Hr as [_ Hr]. apply elem_of_app. left.
      by apply (list_elem_of_fmap_2 cr_ifname).
    + intros x Hx. unfold lanes. apply list_elem_of_fmap in Hx as (r & -> & Hr).
      apply elem_of_bfilter in Hr as [_ Hr]. apply elem_of_app. right. apply elem_of_app. left.
      by apply (list_elem_of_fmap_2 gr_ifname).
    + intros x Hx. unfold lanes. apply list_elem_of_fmap in Hx as (r & -> & Hr).
      apply elem_of_bfilter in Hr as [_ Hr]. do 2 (apply elem_of_app; right). apply elem_of_app. left.
      by apply (list_elem_of_fmap_2 fr_ifname).
    + apply off_behind. off.
    + intros x Hx. apply list_elem_of_fmap in Hx as (s & -> & Hs). auto.
    + apply off_behind, calm_stays, off_foreign.
    + apply off_behind. off.
Qed.

Lemma plans_lanes io tr tr' ps :
  plans from_str v io tr = (tr', Ok ps) → ∀ s, s ∈ ps ≫= pl_ready → ls_leg s ∈ lanes.
Proof using Type.
  intros H s (p & Hs & Hp)%list_elem_of_bind. unfold plans in H.
  destruct (gather_Ok _ _ _ _ _ _ H p Hp) as (row & t1 & t2 & zs & Hr & E & Hz).
  destruct (plan_row_total from_str row io t1) as (new & p' & Ep & _ & Hready & _).
  rewrite (bind_eq _ _ _ _ _ _ Ep) in E. injection E as _ <-.
  apply list_elem_of_singleton in Hz as ->. destruct Hready as [E|E]; rewrite E in Hs.
  - by apply not_elem_of_nil in Hs.
  - apply list_elem_of_singleton in Hs as ->. unfold lanes. do 3 (apply elem_of_app; right).
    by apply (list_elem_of_fmap_2 (λ r, leg_ifname (wr_wl r))).
Qed.

(** C1. An apply forwards only behind its policy. Whatever the host answers, an interface's
    forwarding is turned on only on a member that is a host of a fabric that forwards, only after
    the policy rendered for this very view was written, loaded by [nft] with success and read
    back with its chain's default to drop, all earlier in the same history; and only on a leg of
    the fabric or a workload's: never on a wire. *)
Theorem apply_forwards_only_behind_policy io tr :
  ∃ new, (run refused from_str fuel v d io tr).1 = tr ++ new ∧
  ∀ pre a post, new = pre ++ a :: post → ∀ ifn, a = AWrite (conf_path ifn "forwarding") "1" →
    is_host v = true ∧ f_host_forward f = true ∧ policy_in_force io (tr ++ pre) ∧ ifn ∈ lanes.
Proof using Type.
  assert (acts always behind_policy (run refused from_str fuel v d)) as H.
  { unfold run.
    apply acts_bind; [apply always_stable|apply off_behind, calm_stays, off_preconditions|intros backend].
    apply acts_bind; [apply always_stable|apply off_behind, calm_stays, off_own_wires|intros absent].
    apply acts_bind; [apply always_stable|apply off_behind, calm_stays, off_drivers|intros driver_warnings].
    apply acts_bind; [apply always_stable|apply off_behind, calm_stays; destruct (is_host v); [apply off_global|off]|intros _].
    apply acts_bind; [apply always_stable|apply off_behind; unfold preflight; off|intros _].
    apply (acts_bind_then _ _ _ _ (λ ps io tr, (∀ s, s ∈ ps ≫= pl_ready → ls_leg s ∈ lanes) ∧ always io tr)).
    { apply off_behind, calm_stays, off_plans. }
    { intros io' t t' ps _ E. split; [by eapply plans_lanes|done]. }
    intros ps. apply acts_pure. intros Hps. cbv zeta. acts_seq always_stable.
    - apply off_behind, off_netdevs.
    - apply off_behind, calm_stays. off.
    - apply off_behind, calm_stays, off_host_default.
    - by apply stage_behind.
    - apply off_behind, calm_stays, off_guard.
    - apply off_behind, calm_stays, off_deferred.
    - apply off_behind, off_live.
    - apply off_behind, calm_stays, off_mark.
    - apply off_behind, calm_stays, off_qdisc.
    - apply off_behind. off. }
  destruct (H io tr I) as (new & E & Hn). exists new. split; [done|]. intros pre a post Ea.
  exact (allowed_at _ _ _ _ _ _ Hn Ea).
Qed.

(** *** A gateway answers only behind the bridge's guard *)

(** A workload row's gateway address put on its leg. *)
Definition gateway (a : Action) : Prop :=
  ∃ r, r ∈ workload_rows v ∧ a = ARun (addr_replace (gw_cidr (wr_wl r)) (leg_ifname (wr_wl r))).

(** Addresses only on [dev]. *)
Definition on_dev (dev : string) (a : Action) : Prop :=
  is_addr a = false ∨ ∃ c, a = ARun (addr_replace c dev).

Ltac ad_leaf := first [by left | by right; eexists].
Ltac ad_step :=
  match goal with
  | |- emits _ (when ?b _) => unfold when
  | |- emits _ (both _ _) => unfold both
  | |- emits _ (differs _) => unfold differs
  | |- emits _ (proc_sysctl _ _ _) => apply emits_write
  | |- emits _ (must _) => apply emits_must; ad_leaf
  | |- emits _ (exec _) => apply emits_exec; ad_leaf
  | |- emits _ (run_ignore _) => apply emits_run_ignore; ad_leaf
  | |- emits _ (write _ _) => apply emits_write; ad_leaf
  | |- on_dev _ _ => ad_leaf
  | _ => emits_step
  end.
Ltac ad := repeat ad_step.

Lemma ad_identity name cidr : emits (on_dev name) (mk_identity name cidr).
Proof using Type. unfold mk_identity, link_exists, link_kind_is. ad. Qed.
Lemma ad_vlan name lower vid addr up qos : emits (on_dev name) (mk_vlan name lower vid addr up qos).
Proof using Type. unfold mk_vlan, link_exists, vlan_identity_is. ad. Qed.
Lemma ad_port name lower vid up qos dev : emits (on_dev dev) (mk_vlan name lower vid None up qos).
Proof using Type. unfold mk_vlan, link_exists, vlan_identity_is. ad. Qed.
Lemma ad_bond r qos : emits (on_dev (bl_ifname r)) (mk_bond_leg r qos).
Proof using Type.
  unfold mk_bond_leg, mk_bond, add_bond_port, class_sysctls, set_bond_primary, link_exists, link_kind_is. ad.
  apply ad_port.
Qed.

Lemma on_dev_free dev a : (∀ r, r ∈ workload_rows v → leg_ifname (wr_wl r) ≠ dev) → on_dev dev a → ¬ gateway a.
Proof using Type.
  intros Hd [H|[c ->]] (r & Hr & E); [by rewrite E in H|]. injection E as _ E. by apply (Hd r Hr).
Qed.

(** A workload leg shares neither its name with a netdev of the fabric nor its gateway's address
    with a member. *)
Record apart : Prop := {
  ap_names : ∀ r, r ∈ workload_rows v → leg_ifname (wr_wl r) ∉
    (identity_if <$> f_zones f) ++ (cr_ifname <$> rw_class d) ++ (gr_ifname <$> rw_gw d) ++ (fr_ifname <$> rw_fallback d);
  ap_addresses : ∀ r r', r ∈ workload_rows v → r' ∈ workload_rows v → wr_address r ≠ gw_cidr (wr_wl r')
}.

Definition unmoved {A} : IO A → Prop := emits (λ a, ¬ gateway a).

Lemma calm_unmoved {A} (m : IO A) : calms m → unmoved m.
Proof using Type.
  intros H. eapply emits_mono; [exact H|]. intros a Ha (r & _ & ->). by apply andb_true_iff in Ha as [_ Ha].
Qed.

Lemma dev_unmoved {A} dev (m : IO A) :
  apart → dev ∈ (identity_if <$> f_zones f) ++ (cr_ifname <$> rw_class d) ++ (gr_ifname <$> rw_gw d) ++ (fr_ifname <$> rw_fallback d) →
  emits (on_dev dev) m → unmoved m.
Proof using Type.
  intros [Hn _] Hd Hm. eapply emits_mono; [exact Hm|]. intros a. apply on_dev_free.
  intros r Hr E. apply (Hn r Hr). by rewrite E.
Qed.

Lemma quiet_unmoved {A} (m : IO A) : emits (λ a, is_addr a = false) m → unmoved m.
Proof using Type. intros H. eapply emits_mono; [exact H|]. intros a Ha (r & _ & ->). done. Qed.

Lemma ad_vlan_at name lower vid cidr up qos :
  emits (λ a, is_addr a = false ∨ a = ARun (addr_replace cidr name)) (mk_vlan name lower vid (Some cidr) up qos).
Proof using Type.
  unfold mk_vlan, link_exists, vlan_identity_is, when, both, differs. emits_all.
  all: first [apply emits_must|apply emits_exec]; first [by left|by right].
Qed.

Lemma unmoved_install s : apart → s ∈ leg_spec <$> workload_rows v →
  unmoved (install from_str (f_run_dir f) s (workload_qos f)).
Proof using Type.
  intros [_ Ha] (r0 & -> & Hr0)%list_elem_of_fmap. unfold unmoved, install. apply emits_bind.
  - eapply emits_mono; [apply ad_vlan_at|]. intros a [H| ->] (r & Hr & E); [by subst|].
    injection E as E _. by apply (Ha r0 r).
  - intros _. apply quiet_unmoved. unfold prune_addresses, proxy_arp, ensure_self_vid, self_vids, when. emits_all.
Qed.

Lemma unmoved_netdevs absent legs :
  apart → (∀ s, s ∈ legs → s ∈ leg_spec <$> workload_rows v) →
  unmoved (build_netdevs refused from_str v d absent legs).
Proof using Type.
  intros Hap Hl. unfold build_netdevs, unmoved.
  apply emits_bind; [|intros _; apply emits_bind; [|intros _; apply emits_bind; [|intros w;
    apply emits_bind; [|intros _; apply emits_bind; [|intros _; apply emits_ret]]]]].
  - apply emits_each. intros z Hz. unfold build_identity. apply emits_bind.
    + eapply dev_unmoved; [done| |apply ad_identity]. apply elem_of_app. left.
      by apply (list_elem_of_fmap_2 identity_if).
    + intros _. apply quiet_unmoved. emits_all.
  - apply emits_each. intros r Hr. apply elem_of_bfilter in Hr as [_ Hr].
    eapply dev_unmoved; [done| |].
    + apply elem_of_app. right. apply elem_of_app. left. by apply (list_elem_of_fmap_2 cr_ifname).
    + unfold build_class_leg, zone_of, class_sysctls. ad. apply ad_vlan.
  - apply emits_gather. intros r Hr. eapply dev_unmoved; [done| |].
    + do 2 (apply elem_of_app; right). apply elem_of_app. left. by apply (list_elem_of_fmap_2 gr_ifname).
    + unfold build_gw, zone_of, gw_of, replace_a_wrong_shape_gw_leg, remove_gw_leg, delete_if_there, delete_proven,
        build_gw_vlan_leg, zone_of, gw_of, class_sysctls, rd_install, link_exists, link_kind_is. ad.
      * apply (ad_bond (bond_leg _ _ _ _)).
      * apply ad_vlan.
  - apply emits_each. intros r Hr. eapply dev_unmoved; [done| |].
    + do 3 (apply elem_of_app; right). by apply (list_elem_of_fmap_2 fr_ifname).
    + unfold build_fallback, zone_of. ad. apply (ad_bond (bond_leg _ _ _ _)).
  - apply emits_each. intros s Hs. apply unmoved_install; auto.
Qed.

(** The guard for these gateways and uplinks was written and [nft] took it. *)
Definition guard_in_force (guards : list (Ipv4Addr * Uplink)) (io : Env_) (hist : list Action) : Prop :=
  let path := guard_path v in
  ∃ before after out,
    hist = before ++ [AWrite path (bridge_table guards); ARun ["nft"; "-f"; path]] ++ after
    ∧ h_run (e_host (io (before ++ [AWrite path (bridge_table guards)]))) ["nft"; "-f"; path] = Ok out
    ∧ output_ok out = true.

Lemma guard_in_force_stable guards : stable (guard_in_force guards).
Proof using Type.
  intros io tr new (b & a & o & -> & H). exists b, (a ++ new), o. by rewrite <-!app_assoc.
Qed.

Lemma load_guard_ran guards io tr tr' u : guards ≠ [] →
  load_guard v guards io tr = (tr', Ok u) → guard_in_force guards io tr'.
Proof using Type.
  intros Hne H. unfold load_guard in H. destruct guards as [|g gs]; [done|].
  apply bind_Ok in H as (t1 & [] & [= <- _] & H).
  apply bind_Ok in H as (t2 & out & Hf & H). apply must_Ok in Hf as (-> & Hf & Hok).
  apply bind_Ok in H as (t3 & applied & Ha & H). apply must_Ok in Ha as (-> & _ & _).
  injection H as <- _. eexists tr, _, out. rewrite <-!app_assoc. split; [reflexivity|]. done.
Qed.

Definition behind_guard (io : Env_) (hist : list Action) (a : Action) : Prop :=
  ∀ r, r ∈ workload_rows v → a = ARun (addr_replace (gw_cidr (wr_wl r)) (leg_ifname (wr_wl r))) →
  ∃ r' guards up, r' ∈ workload_rows v ∧ leg_ifname (wr_wl r') = leg_ifname (wr_wl r)
    ∧ gw_cidr (wr_wl r') = gw_cidr (wr_wl r)
    ∧ (wl_gw (wr_wl r'), up) ∈ guards ∧ up_bridge up = wl_uplink (wr_wl r') ∧ up_vid up = wl_vid (wr_wl r')
    ∧ guard_in_force guards io hist.

Lemma unmoved_behind {A} I (m : IO A) : unmoved m → acts I behind_guard m.
Proof using Type.
  intros H. eapply acts_free; [exact H|]. intros io tr a Ha r Hr ->. exfalso. apply Ha. by exists r.
Qed.

(** What is known of the planned legs. *)
Definition planned (ps : list Plan) : Prop :=
  ∀ s, s ∈ ps ≫= pl_ready → ∃ r up, r ∈ workload_rows v ∧ s = leg_spec r
    ∧ (wl_gw (wr_wl r), up) ∈ ps ≫= pl_guards ∧ up_bridge up = wl_uplink (wr_wl r)
    ∧ up_vid up = wl_vid (wr_wl r).

Lemma plans_planned io tr tr' ps : plans from_str v io tr = (tr', Ok ps) → planned ps.
Proof using Type.
  intros H s (p & Hs & Hp)%list_elem_of_bind. unfold plans in H.
  destruct (gather_Ok _ _ _ _ _ _ H p Hp) as (row & t1 & t2 & zs & Hr & E & Hz).
  destruct (plan_row_total from_str row io t1) as (new & p' & Ep & _ & Hready & Hg & Hup).
  rewrite (bind_eq _ _ _ _ _ _ Ep) in E. injection E as _ <-.
  apply list_elem_of_singleton in Hz as ->. destruct Hready as [E|E]; rewrite E in Hs.
  - by apply not_elem_of_nil in Hs.
  - apply list_elem_of_singleton in Hs as ->. destruct (Hup E) as (up & Eg).
    assert ((wl_gw (wr_wl row), up) ∈ pl_guards p') as Hin by (rewrite Eg; by left).
    destruct (Hg _ Hin) as [Hid _]. apply identify_Ok in Hid as [Hid _]. cbn in Hid.
    exists row, up. split; [done|]. split; [done|]. split; [|by rewrite Hid].
    apply list_elem_of_bind. by exists p'.
Qed.

Definition guarded (guards : list (Ipv4Addr * Uplink)) (io : Env_) (hist : list Action) : Prop :=
  guards ≠ [] → guard_in_force guards io hist.
Lemma guarded_stable guards : stable (guarded guards).
Proof using Type. intros io tr new H Hne. by apply guard_in_force_stable, H. Qed.

Lemma live_behind ps : planned ps → acts (guarded (ps ≫= pl_guards)) behind_guard (go_live v (ps ≫= pl_ready)).
Proof using Type.
  intros Hps. unfold go_live. apply acts_bind; [apply guarded_stable| |].
  - apply acts_each; [apply guarded_stable|]. intros s Hs.
    destruct (Hps s Hs) as (r0 & up & Hr0 & -> & Hin & Hb & Hv).
    apply (acts_must _ (guarded (ps ≫= pl_guards))).
    + intros io tr Ht r Hr E.
      assert (leg_ifname (wr_wl r0) = leg_ifname (wr_wl r)) as El by (unfold addr_replace, leg_spec in E; cbn [ls_leg ls_gw_cidr] in E; congruence).
      injection E as Ec _. exists r0, (ps ≫= pl_guards), up. split_and!; try done. apply Ht. intros E. by rewrite E in Hin; apply not_elem_of_nil in Hin.
    + intros io tr Ht. by apply guarded_stable.
    + intros o. apply acts_ret, guarded_stable.
  - intros _. apply unmoved_behind, calm_unmoved. off.
Qed.

(** C17. A workload's gateway answers only behind the bridge's guard. Where no workload leg shares
    its name with a netdev of the fabric, nor its gateway's address with a member, every time an
    apply puts a row's gateway address on the row's leg, the guard written for a set of gateways
    and uplinks that has this row's gateway on an uplink of the row's own bridge and VLAN id was
    loaded before, and [nft] took it. *)
Theorem gateway_live_only_behind_guard io tr (Hapart : apart) :
  ∃ new, (run refused from_str fuel v d io tr).1 = tr ++ new ∧
  ∀ pre a post, new = pre ++ a :: post → behind_guard io (tr ++ pre) a.
Proof using Type.
  assert (acts always behind_guard (run refused from_str fuel v d)) as H.
  { unfold run.
    apply acts_bind; [apply always_stable|apply unmoved_behind, calm_unmoved, off_preconditions|intros backend].
    apply acts_bind; [apply always_stable|apply unmoved_behind, calm_unmoved, off_own_wires|intros absent].
    apply acts_bind; [apply always_stable|apply unmoved_behind, calm_unmoved, off_drivers|intros dw].
    apply acts_bind; [apply always_stable|apply unmoved_behind, calm_unmoved; destruct (is_host v); [apply off_global|off]|intros _].
    apply acts_bind; [apply always_stable|apply unmoved_behind, calm_unmoved; unfold preflight; off|intros _].
    apply (acts_bind_then _ _ _ _ (λ ps io tr, planned ps ∧ always io tr)).
    { apply unmoved_behind, calm_unmoved, off_plans. }
    { intros io' t t' ps _ E. split; [by eapply plans_planned|done]. }
    intros ps. apply acts_pure. intros Hps. cbv zeta.
    apply acts_bind; [apply always_stable| |intros gw].
    { apply unmoved_behind, unmoved_netdevs; [done|]. intros s Hs.
      destruct (Hps s Hs) as (r & _ & Hr & -> & _). by apply (list_elem_of_fmap_2 leg_spec). }
    apply acts_bind; [apply always_stable|apply unmoved_behind, calm_unmoved; off|intros _].
    apply acts_bind; [apply always_stable|apply unmoved_behind, calm_unmoved, off_host_default|intros hw].
    apply acts_bind; [apply always_stable| |intros _].
    { apply unmoved_behind, quiet_unmoved. unfold forward_stage, leaf_guard, ensure_fabric_rule, ensure_rule,
        enable_forwarding, load_policy, lift_r, forward_on, proc_sysctl, ensure_foreign_transit_accept, run_ignore.
      emits_all. }
    apply (acts_bind_then _ _ _ _ (λ _, guarded (ps ≫= pl_guards))).
    { apply unmoved_behind, calm_unmoved, off_guard. }
    { intros io' t t' u _ E Hne. by eapply load_guard_ran. }
    intros _. acts_seq (guarded_stable (ps ≫= pl_guards)).
    - apply unmoved_behind, calm_unmoved, off_deferred.
    - by apply live_behind.
    - apply unmoved_behind, calm_unmoved, off_mark.
    - apply unmoved_behind, calm_unmoved, off_qdisc.
    - apply unmoved_behind, calm_unmoved. off. }
  destruct (H io tr I) as (new & E & Hn). exists new. split; [done|]. intros pre a post Ea.
  exact (allowed_at _ _ _ _ _ _ Hn Ea).
Qed.

(** *** A wire that is not there *)

(** A declared wire with no netdev fails the apply of a forwarding host. The loop that keeps
    forwarding off on the member's own wires runs over every wire the declaration gives it, those
    found absent included, and a kernel that has no such file refuses the write: whatever else
    holds, the apply then answers an error, where its own ruling and the warning it has ready say
    that the fabric is up on the rest. *)
Theorem absent_wire_fails_forwarding_apply io tr w e
    (Hhost : is_host v = true) (Hforward : f_host_forward f = true) (Hwire : w ∈ admin_ifs v)
    (Habsent : ∀ hist, e_write (io hist) (conf_path w "forwarding") "0" = Err e) :
  ∃ err, (run refused from_str fuel v d io tr).2 = Err err.
Proof using Type.
  destruct (run refused from_str fuel v d io tr) as [t [ws|err]] eqn:H; [exfalso|by exists err].
  unfold run in H. do 5 (apply bind_Ok in H as (? & ? & _ & H)). apply bind_Ok in H as (? & ps & _ & H).
  cbv zeta in H. do 3 (apply bind_Ok in H as (? & ? & _ & H)). apply bind_Ok in H as (? & ? & E & _).
  unfold forward_stage, enable_forwarding in E. rewrite Hhost in E. cbn [negb] in E.
  rewrite (Hforward : f_host_forward (v_fabric v) = true) in E. do 4 (apply bind_Ok in E as (? & ? & _ & E)). apply bind_Ok in E as (? & [] & E & _).
  edestruct (λ He, each_ran _ (λ _, True) _ _ _ _ He E w Hwire) as (b & n & a & Ew & _).
  { intros y _. unfold proc_sysctl. emits_all. }
  unfold proc_sysctl, write in Ew. rewrite Habsent in Ew. done.
Qed.

(** *** The host default goes in behind its pins *)

(** The two rules that send the host's own traffic to the fabric's table, and the route there. *)
Definition diverts (a : Action) : bool :=
  match a with
  | ARun ("ip" :: "rule" :: "add" :: "pref" :: p :: _) => negb (String.eqb p "2099")
  | ARun ("ip" :: "route" :: "replace" :: _) => true
  | _ => false
  end.

(** The addresses the host's own default is sourced from, read where the apply reads them. *)
Definition floor_read (io : Env_) (tr : list Action) (addrs : list string) : Prop :=
  ∃ o fl o', h_run (e_host (io tr)) floor_show = Ok o ∧ output_ok o = true
    ∧ parse_floor_default (stdout o) = Some fl
    ∧ h_run (e_host (io (tr ++ [ARun floor_show]))) ["ip"; "-4"; "-br"; "addr"; "show"; "dev"; fl_dev fl] = Ok o'
    ∧ output_ok o' = true ∧ addrs = parse_br_addresses (stdout o').

(** The kernel listed the address's pin, or it was added and the kernel took it. *)
Definition pinned_to_main (io : Env_) (hist : list Action) (addr : string) : Prop :=
  (∃ before after o, hist = before ++ ARun (rule_show "2099") :: after
     ∧ h_run (e_host (io before)) (rule_show "2099") = Ok o
     ∧ addr ∈ parse_installed_floor_addresses (stdout o))
  ∨ ∃ before after o, hist = before ++ ARun (rule_add "2099" (add (floor_rule addr))) :: after
     ∧ h_run (e_host (io before)) (rule_add "2099" (add (floor_rule addr))) = Ok o ∧ output_ok o = true.
Lemma pinned_to_main_stable addr : stable (λ io hist, pinned_to_main io hist addr).
Proof using Type.
  intros io tr new [(b & a & o & -> & H)|(b & a & o & -> & H)]; [left|right]; exists b, (a ++ new), o;
    by rewrite <-app_assoc.
Qed.
Definition all_pinned (addrs : list string) (io : Env_) (hist : list Action) : Prop :=
  ∀ addr, addr ∈ addrs → pinned_to_main io hist addr.
Lemma all_pinned_stable addrs : stable (all_pinned addrs).
Proof using Type. intros io tr new H addr Ha. apply pinned_to_main_stable. auto. Qed.

Lemma drop_pin_emits a : emits (λ _, True) (drop_pin fuel a).
Proof using Type.
  unfold drop_pin. emits_all. eapply emits_mono; [apply off_drop_rule|done].
Qed.

Lemma sync_pins addrs io tr tr' out : sync_floor_rules fuel addrs io tr = (tr', Ok out) → all_pinned addrs io tr'.
Proof using Type.
  intros H addr Ha. unfold sync_floor_rules in H.
  apply bind_Ok in H as (t1 & installed & Hi & H). unfold installed_floor_addresses in Hi.
  apply bind_Ok in Hi as (t2 & o & Hs & [= <- <-]). injection Hs as <- Ho.
  apply bind_Ok in H as (t3 & added & Hg & H).
  assert (∃ l, tr' = t3 ++ l) as [l ->].
  { destruct (without _ addrs) as [|s stale]; [injection H as <- _; exists []; by rewrite app_nil_r|].
    apply bind_Ok in H as (t4 & conf & Hc & H). apply bind_Ok in H as (t5 & dropped & Hd & [= <- _]).
    assert (emits (λ _, True) host_addresses) as Hh by (unfold host_addresses; emits_all).
    destruct (Hh io t3) as (l1 & E1 & _). rewrite Hc in E1. cbn in E1. subst t4.
    destruct (emits_gather (λ _, True) (drop_pin fuel) (without (s :: stale) conf)
                (λ x _, drop_pin_emits x) io (t3 ++ l1)) as (l2 & E2 & _). rewrite Hd in E2. cbn in E2. subst t5.
    exists (l1 ++ l2). by rewrite app_assoc. }
  apply pinned_to_main_stable.
  destruct (decide (addr ∈ parse_installed_floor_addresses (stdout o))) as [Hin|Hout].
  - left. destruct (emits_gather (λ _, True) add_pin (without addrs (parse_installed_floor_addresses (stdout o)))
      ltac:(intros; unfold add_pin; emits_all) io (tr ++ [ARun (rule_show "2099")])) as (n & E & _).
    rewrite Hg in E. cbn in E. subst t3. exists tr, n, o. rewrite <-app_assoc. done.
  - right. revert addr Ha Hout.
    assert (∀ x, x ∈ without addrs (parse_installed_floor_addresses (stdout o)) →
      ∃ before after o, t3 = before ++ ARun (rule_add "2099" (add (floor_rule x))) :: after
        ∧ h_run (e_host (io before)) (rule_add "2099" (add (floor_rule x))) = Ok o ∧ output_ok o = true) as Hall.
    { refine (gather_done add_pin (λ x io hist, ∃ before after o,
        hist = before ++ ARun (rule_add "2099" (add (floor_rule x))) :: after
        ∧ h_run (e_host (io before)) (rule_add "2099" (add (floor_rule x))) = Ok o ∧ output_ok o = true)
        _ _ _ _ _ _ _ _ Hg).
      - intros x io' t new (b & a & o' & -> & Hx). exists b, (a ++ new), o'. by rewrite <-app_assoc.
      - intros x. unfold add_pin. emits_all.
      - intros x m t' zs Hx. unfold add_pin in Hx. apply bind_Ok in Hx as (t4 & o' & Hm & [= <- _]).
        apply must_Ok in Hm as (-> & Hr & Hk). by eexists _, [], o'. }
    intros addr Ha Hout. apply Hall. by apply without_elem.
Qed.

Local Abbreviation tame := (emits (λ a, diverts a = false)).

Lemma tame_drop r : tame (drop_fabric_rule fuel r).
Proof using Type.
  unfold drop_fabric_rule. induction fuel as [|n IH]; cbn [drop_rules]; emits_all; apply emits_exec || apply emits_must; done.
Qed.

Ltac tame_all := emits_all; first [apply emits_exec|apply emits_must|apply emits_run_ignore]; reflexivity.

Lemma tame_sync addrs : tame (sync_floor_rules fuel addrs).
Proof using Type.
  unfold sync_floor_rules, installed_floor_addresses, host_addresses, add_pin, drop_pin.
  emits_all; first [apply tame_drop|apply emits_exec|apply emits_must]; reflexivity.
Qed.

Lemma tame_remove : tame (remove_host_default fuel).
Proof using Type.
  unfold remove_host_default, installed_floor_addresses, installed_workload_sources.
  emits_all; first [apply tame_drop|apply emits_exec|apply emits_run_ignore; reflexivity]; reflexivity.
Qed.

(** What the apply knows of the pins it is about to sync. *)
Definition right_pins (tr : list Action) (pins : list string) (io : Env_) (_ : list Action) : Prop :=
  ∀ addrs, floor_read io tr addrs → pins = addrs.

Definition pinned_first (tr : list Action) (io : Env_) (hist : list Action) (a : Action) : Prop :=
  diverts a = true → ∀ addrs, floor_read io tr addrs → all_pinned addrs io hist.

Lemma tame_first {A} tr I (m : IO A) : tame m → acts I (pinned_first tr) m.
Proof using Type. intros H. eapply acts_free; [exact H|]. intros io tr' a Ha Hd. by rewrite Ha in Hd. Qed.

Lemma unit_first tr hd pins : acts (right_pins tr pins) (pinned_first tr) (host_default_unit fuel v d hd pins).
Proof using Type.
  unfold host_default_unit.
  apply (acts_bind_then _ _ _ _ (λ _ io hist, right_pins tr pins io hist ∧ all_pinned pins io hist)).
  - apply tame_first, tame_sync.
  - intros io t t' out Ht H. split; [exact Ht|]. by eapply sync_pins.
  - intros _. eapply acts_emits; [| |].
    + intros io t new [H1 H2]. split; [exact H1|]. by apply all_pinned_stable.
    + apply emits_bind; [apply emits_each; intros r _; apply off_rule|intros _]. unfold hd_install. off.
    + intros io t a [H1 H2] _ _ addrs Hf. by rewrite <-(H1 addrs Hf).
Qed.

(** C16. The host default never lets the host lock itself out. Where the host has a default of its
    own, say sourced from [addrs] when the apply reads them: every rule of preference 2100, 2101,
    2102 or 2103 the apply adds, and the route to the fabric's router, come only after each of those
    addresses is pinned to the main table, by a pin the kernel listed or by one it has just taken. *)
Theorem host_default_installed_behind_pins io tr :
  ∃ new, (install_host_default fuel v d io tr).1 = tr ++ new ∧
  ∀ pre a post, new = pre ++ a :: post → diverts a = true →
  ∀ addrs, floor_read io tr addrs → all_pinned addrs io (tr ++ pre).
Proof using Type.
  assert (acts (λ _ hist, hist = tr) (pinned_first tr) (install_host_default fuel v d)) as H.
  { unfold install_host_default. destruct (host_default v (rw_gw d)) as [hd|];
      [|apply tame_first; apply emits_ret].
    apply (acts_bind_then _ _ _ _ (λ floor io hist, hist = tr ++ [ARun floor_show] ∧
      ∃ o, h_run (e_host (io tr)) floor_show = Ok o ∧ floor = parse_floor_default (stdout o))).
    { apply tame_first. unfold floor_default. tame_all. }
    { intros io' t t' floor -> E. unfold floor_default in E. apply bind_Ok in E as (t1 & o & Ee & E).
      injection Ee as <- Eo. destruct (output_ok o); [|done]. injection E as <- <-. split; [done|]. by exists o. }
    intros floor. apply (acts_bind_then _ _ _ _ (λ pins, right_pins tr pins.1)).
    { apply tame_first. unfold floor_addresses. tame_all. }
    { intros io' t t' pins [-> (o & Eo & ->)] E addrs (o1 & fl & o2 & E1 & _ & Efl & E2 & _ & ->).
      rewrite E1 in Eo. injection Eo as <-. rewrite Efl in E. apply bind_Ok in E as (t1 & as_ & Ea & [= _ <-]).
      unfold floor_addresses in Ea. apply bind_Ok in Ea as (t2 & o3 & Ee & Ea). injection Ee as <- Eo.
      rewrite E2 in Eo. injection Eo as <-. destruct (output_ok o2); [|done]. by injection Ea as _ <-. }
    intros pins. apply acts_bind; [intros io' t new Ht; exact Ht|apply acts_attempt, unit_first|]. intros [u|err].
    - apply tame_first, emits_ret.
    - apply tame_first. apply emits_bind; [apply emits_attempt, tame_remove|intros _; apply emits_throw]. }
  destruct (H io tr eq_refl) as (new & E & Hn). exists new. split; [done|]. intros pre a post Ea.
  exact (allowed_at _ _ _ _ _ _ Hn Ea).
Qed.
End forwarding.

(** The sample fabric's first host, on a kernel that remembers the links it was asked for. Its
    workload bridge [eth2] has one port, [eth5], behind a device; [gone] has no netdev. *)
Module Sample.
Definition view : View := Teardown.Sample.host_view.
Definition rows : Rows := Teardown.Sample.rows view.
Definition refused : Refusal → Error := Teardown.Sample.refused.
Definition no_json (_ : string) : option Value := None.

Definition made (dev : string) (a : Action) : bool :=
  match a with
  | ARun ["ip"; "link"; "add"; n; "type"; "bond"; _; _; _; _; _; _; _; _; _; _] => String.eqb n dev
  | ARun ("ip" :: "link" :: "add" :: "link" :: _ :: "name" :: n :: _) => String.eqb n dev
  | ARun ("ip" :: "link" :: "add" :: n :: "type" :: "veth" :: _) => String.eqb n dev
  | _ => false
  end.
Definition says := Teardown.Sample.says.
Definition kernel_run (gone : string) (tr : list Action) (argv : list string) : result Error Output :=
  match argv with
  | ["ip"; "link"; "show"; dev] =>
      says (if (bool_decide (dev ∈ ["eth0"; "eth1"]) && negb (String.eqb dev gone)) || any (made dev) tr
            then 0 else 1) EmptyString
  | ["ip"; "-4"; "-br"; "addr"; "show"; "dev"; "eth0"] => says 0 "eth0 UP 192.0.2.5/24"
  | ["ip"; "route"; "show"; "table"; "main"; "default"] => says 0 "default via 192.0.2.1 dev eth0"
  | ["nft"; "list"; "chain"; "inet"; "cfab-fwd"; "forward"] => says 0 "policy drop;"
  | _ => says 0 EmptyString
  end.
Definition no_file : Error := Fatal "no such file".
Definition host (gone : string) (tr : list Action) : Host :=
  {| h_run := kernel_run gone tr;
     h_read p := if String.eqb p (vlan_filtering "eth2") then Ok "1"
                 else if String.eqb p (sysfs "eth2" "brif/eth5/state") then Ok "3" else Err no_file;
     h_exists p := bool_decide (p ∈ [sysfs "eth2" "bridge/stp_state"; sysfs "eth5" "device"]);
     h_is_writable _ := true;
     h_list_dir p := if String.eqb p (sysfs "eth2" "brif/") then Ok ["eth5"] else Ok [];
     h_read_link _ := Err no_file |}.
Definition env (gone : string) (tr : list Action) : Env :=
  {| e_host := host gone tr;
     e_write p _ := if String.eqb p (conf_path gone "forwarding") then Err no_file else Ok tt;
     e_rename _ _ := Ok tt; e_remove _ := Ok tt; e_mkdir _ := Ok tt;
     e_request _ _ := Ok EmptyString; e_probe _ _ := NotListening |}.
Definition vms_row : WorkloadRow :=
  {| wr_wl := Derive.Sample.vms; wr_address := "192.168.0.2/24"; wr_addr := 3232235522 |}.
Definition applied (gone : string) : list Action * result Error (list string) :=
  run refused no_json 1 view rows (env gone) [].

Example comes_up : (applied "none").2 = Ok
  ["apply OK on h1 (node 1, host); forward=1 shape=2 wires; workloads: vms on cfab-work-vms (uplink eth5)"]%string.
Proof. by vm_compute. Qed.
Example forwards : AWrite (conf_path "st-a" "forwarding") "1" ∈ (applied "none").1.
Proof. apply (bool_decide_unpack _). by vm_compute. Qed.
Example goes_live : ARun (addr_replace "192.168.0.1/24" "cfab-work-vms") ∈ (applied "none").1.
Proof. apply (bool_decide_unpack _). by vm_compute. Qed.
Example diverted : ARun (rule_add "2101" ["from"; "all"; "iif"; "lo"; "lookup"; "250"]) ∈ (applied "none").1
  ∧ floor_read (env "none") [] ["192.0.2.5"%string].
Proof.
  split; [apply (bool_decide_unpack _); by vm_compute|].
  eexists _, {| fl_via := "192.0.2.1"; fl_dev := "eth0" |}, _. by repeat split.
Qed.
(** With one wire gone the netdevs of the other are built, and the apply then fails. *)
Example one_wire_gone :
  (applied "eth1").2 = Err no_file ∧ ARun (link_set "st-a" "up") ∈ (applied "eth1").1
  ∧ ¬ (ARun (link_set "st-b" "up") ∈ (applied "eth1").1)
  ∧ AWrite (conf_path "st-a" "forwarding") "1" ∈ (applied "eth1").1.
Proof.
  split; [by vm_compute|]. split; [apply (bool_decide_unpack _); by vm_compute|].
  split; [|apply (bool_decide_unpack _); by vm_compute]. apply (bool_decide_unpack _). by vm_compute.
Qed.
End Sample.

Lemma gateway_live_witness :
  apart Sample.view Sample.rows ∧
  ∃ new, (Sample.applied "none").1 = [] ++ new ∧
  ∀ pre a post, new = pre ++ a :: post → behind_guard Sample.view (Sample.env "none") ([] ++ pre) a.
Proof.
  assert (apart Sample.view Sample.rows) as H.
  { split.
    - intros r Hr. change (workload_rows Sample.view) with [Sample.vms_row] in Hr.
      apply list_elem_of_singleton in Hr as ->. apply (bool_decide_unpack _). by vm_compute.
    - intros r r' Hr Hr'. change (workload_rows Sample.view) with [Sample.vms_row] in Hr, Hr'.
      apply list_elem_of_singleton in Hr as ->. apply list_elem_of_singleton in Hr' as ->. by vm_compute. }
  split; [exact H|].
  exact (gateway_live_only_behind_guard Sample.refused Sample.no_json 1 Sample.view Sample.rows
           (Sample.env "none") [] H).
Defined.

Lemma absent_wire_witness :
  is_host Sample.view = true ∧ f_host_forward (v_fabric Sample.view) = true ∧ "eth1"%string ∈ admin_ifs Sample.view
  ∧ ∃ err, (Sample.applied "eth1").2 = Err err.
Proof.
  split; [done|]. split; [done|]. split; [cbn; left|].
  apply (absent_wire_fails_forwarding_apply Sample.refused Sample.no_json 1 Sample.view Sample.rows
           (Sample.env "eth1") [] "eth1" Sample.no_file); [done|done|cbn; left|done].
Defined.
