(* ===== verification/Cluster.v ===== *)
(** The cluster file system as cfab uses it (src/src/cluster.rs), and the commands that report
    on it and publish through it (src/src/commands/cluster.rs).

    Files are read and written with [std::fs], not through [Sys]: [Fs] is what the mounted tree
    answers after everything done so far, so another member's write may show between any two
    actions, and any call may fail. What is done is recorded as [Sys]'s actions. Text printed on
    the way (warnings) is not modelled. Paths are the absolute ones the program builds: no
    doubled or trailing slash. Times are nanoseconds. *)
From Stdlib Require Import Ascii String.
From S2P Require Import Prelude Text Sys Legs.
Local Open Scope Z_scope.
Local Open Scope cmd_scope.

(** ** Files *)

Inductive IoKind := NotFound | AlreadyExists | OtherKind.
#[export] Instance IoKind_eq_dec : EqDecision IoKind.
Proof. solve_decision. Defined.

(** An [std::io::Error]: its kind and what [{e}] shows. *)
Record IoError := { io_kind : IoKind; io_text : string }.

Record Fs := {
  f_read : string → result IoError string;
  (** the names [read_dir] yields, the entries that could not be read left out *)
  f_dir : string → result IoError (list string);
  f_mode : string → result IoError Z;
  (** [metadata(p)?.modified()?] *)
  f_mtime : string → option Z;
  f_now : Z;
  f_write : string → string → result IoError unit;
  f_rename : string → string → result IoError unit;
  f_remove_file : string → result IoError unit;
  f_remove_dir : string → result IoError unit;
  f_remove_dir_all : string → result IoError unit;
  f_create_dir : string → result IoError unit;
  f_create_dir_all : string → result IoError unit
}.

Definition is_not_found (e : IoError) : bool := bool_decide (io_kind e = NotFound).
Definition already_exists (e : IoError) : bool := bool_decide (io_kind e = AlreadyExists).

Fixpoint ends_in (c : ascii) (s : string) : bool :=
  match s with
  | EmptyString => false
  | String d EmptyString => Ascii.eqb c d
  | String _ s' => ends_in c s'
  end.

(** [a.join(b)] on paths. *)
Definition join (a b : string) : string :=
  if starts_with "/" b then b
  else if String.eqb a EmptyString then b
  else if ends_in "/" a then (a ++ b)%string
  else (a ++ "/" ++ b)%string.

(** [p.parent()] and [p.file_name()]. *)
Definition parent (p : string) : option string :=
  if String.eqb p EmptyString || String.eqb p "/" then None
  else match rsplit_once "/" p with
       | Some (EmptyString, _) => Some "/"%string
       | Some (d, _) => Some d
       | None => Some EmptyString
       end.
Definition file_name (p : string) : option string :=
  let n := match rsplit_once "/" p with Some (_, n) => n | None => p end in
  if String.eqb n EmptyString || String.eqb n ".." then None else Some n.

Definition bytes (s : string) : Z := Z.of_nat (String.length s).

(** ** The pure part *)

Definition MAX_FILE_SIZE : Z := 1024 * 1024.
Definition seconds (n : Z) : Z := n * 1000000000.
Definition LOCK_EXPIRY : Z := seconds 120.
Definition LOCK_RETRY_ATTEMPTS : nat := 10.
Definition LOCK_RETRY_PAUSE_MS : Z := 1000.

Record ClusterInfo := { ci_name : string; ci_version : Z; ci_nodes : Z; ci_quorate : bool }.
Record Node := { nd_id : Z; nd_online : bool; nd_ip : option string }.
Record Members := {
  nodename : string;
  mb_version : Z;
  cluster : option ClusterInfo;
  nodelist : gmap string Node
}.

Definition not_a_counter (text path : string) : Error :=
  Fatal (path ++ " does not hold a decimal generation counter (got " ++ debug_str (trim text)
    ++ "); remove it to restart at 0 or fix it by hand").
Definition parse_gen (text path : string) : result Error Z :=
  match parse_uint u64_max (trim text) with
  | Some g => Ok g
  | None => Err (not_a_counter text path)
  end.
Definition newline : string := String char_lf EmptyString.
Definition format_gen (generation : Z) : string := (show generation ++ newline)%string.

Definition lock_is_stale (age : Z) : bool := LOCK_EXPIRY <? age.

Definition check_size (len : Z) (what : string) : result Error unit :=
  refuse_if (MAX_FILE_SIZE <? len)
    (Fatal (what ++ " is " ++ show len ++ " bytes — over the pmxcfs 1 MiB per-file limit; "
      ++ "it cannot be published (shrink it)")).

(** ** [Pmxcfs], by its root *)

Definition members_path (root : string) : string := join root ".members".
Definition cfab_dir (root : string) : string := join root "cfab".
Definition conf_path (root : string) : string := join (cfab_dir root) "fabric.toml".
Definition gen_path (root : string) : string := join (cfab_dir root) "gen".
Definition all_acks (root : string) : string := join (cfab_dir root) "acks".
Definition acks_dir (root : string) (generation : Z) : string := join (all_acks root) (show generation).
Definition ack_path (root : string) (generation : Z) (member : string) : string :=
  join (acks_dir root generation) member.
Definition caps_dir (root : string) : string := join (cfab_dir root) "caps".
Definition member_caps_dir (root member : string) : string := join (caps_dir root) member.
Definition cap_path (root member dev : string) : string :=
  join (member_caps_dir root member) ("cap-" ++ dev).
Definition lock_parent (root : string) : string := join root "priv/lock".
Definition lock_path (root name : string) : string := join (lock_parent root) ("cfab-" ++ name).

Section fs.
Context (fs : list Action → Fs).

Definition peek {A} (f : Fs → A) : IO A := λ _ tr, (tr, Ok (f (fs tr))).

Definition wrap {A} (what : IoError → string) (r : result IoError A) : result Error A :=
  match r with Ok a => Ok a | Err e => Err (Fatal (what e)) end.

(** The calls that change the tree; the answer is the call's own [Result]. *)
Definition fs_write (p c : string) : IO (result IoError unit) := λ _ tr, (tr ++ [AWrite p c], Ok (f_write (fs tr) p c)).
Definition fs_rename (a b : string) : IO (result IoError unit) := λ _ tr, (tr ++ [ARename a b], Ok (f_rename (fs tr) a b)).
Definition fs_remove_file (p : string) : IO (result IoError unit) := λ _ tr, (tr ++ [ARemove p], Ok (f_remove_file (fs tr) p)).
Definition fs_remove_dir (p : string) : IO (result IoError unit) := λ _ tr, (tr ++ [ARemove p], Ok (f_remove_dir (fs tr) p)).
Definition fs_remove_dir_all (p : string) : IO (result IoError unit) := λ _ tr, (tr ++ [ARemove p], Ok (f_remove_dir_all (fs tr) p)).
Definition fs_create_dir (p : string) : IO (result IoError unit) := λ _ tr, (tr ++ [AMkdir p], Ok (f_create_dir (fs tr) p)).
Definition fs_create_dir_all (p : string) : IO (result IoError unit) := λ _ tr, (tr ++ [AMkdir p], Ok (f_create_dir_all (fs tr) p)).

(** [call.map_err(..)?]. *)
Definition orelse {A} (m : IO (result IoError A)) (what : IoError → string) : IO A :=
  r <~ m ;; lift (wrap what r).

Definition cannot (verb path : string) (e : IoError) : string :=
  ("cannot " ++ verb ++ " " ++ path ++ ": " ++ io_text e)%string.

(** serde_json and the decoders derived from the structs: an error is its text. *)
Context (from_json : string → result string Members).

Definition parse_members (json path : string) : result Error Members :=
  match from_json json with
  | Ok m => Ok m
  | Err e => Err (Fatal (path ++ " is not valid pmxcfs member JSON (" ++ e
                   ++ "); is /etc/pve a healthy pmxcfs mount?"))
  end.

Definition probe (root : string) : IO (option Members) :=
  let path := members_path root in
  read <~ peek (λ f, f_read f path) ;;
  match read with
  | Ok json => m <~ lift (parse_members json path) ;; ret (Some m)
  | Err e => if is_not_found e then ret None else throw (Fatal (cannot "read" path e))
  end.

(** The owner-write bit of the mount's root. *)
Definition OWNER_WRITE : Z := 128.
Definition quorate (root : string) : IO bool :=
  mode <~ peek (λ f, f_mode f root) ;;
  mode <~ lift (wrap (λ e, "cannot stat " ++ root ++ " for the quorum probe: " ++ io_text e
                       ++ "; is pmxcfs mounted?")%string mode) ;;
  ret (negb (Z.land mode OWNER_WRITE =? 0)).

Definition tmp_of (dir name : string) : string := join dir ("." ++ name ++ ".tmp").

Definition publish_file (target content : string) : IO unit :=
  lift (check_size (bytes content) target) >>~
  (dir <~ lift (match parent target with Some d => Ok d | None => Err (Fatal (target ++ " has no parent directory")) end) ;;
   name <~ lift (match file_name target with Some n => Ok n | None => Err (Fatal (target ++ " has no file name")) end) ;;
   let tmp := tmp_of dir name in
   orelse (fs_write tmp content)
     (λ e, cannot "write" tmp e ++ "; non-quorate pmxcfs refuses writes (EACCES) — check quorum")%string >>~
   orelse (fs_rename tmp target) (λ e, cannot "rename" (tmp ++ " over " ++ target) e)).

(** A counter file that is absent counts 0. *)
Definition read_counter (path : string) : IO Z :=
  read <~ peek (λ f, f_read f path) ;;
  match read with
  | Ok text => lift (parse_gen text path)
  | Err e => if is_not_found e then ret 0 else throw (Fatal (cannot "read" path e))
  end.
Definition read_gen (root : string) : IO Z := read_counter (gen_path root).
Definition write_gen (root : string) (generation : Z) : IO unit :=
  publish_file (gen_path root) (format_gen generation).

(** *** The lock *)

Definition age_of (f : Fs) (path : string) : option Z :=
  t ← f_mtime f path; if t <=? f_now f then Some (f_now f - t) else None.
Definition lock_age (path : string) : IO (option Z) := peek (λ f, age_of f path).

Definition still_held (path : string) : Error :=
  Fatal ("cluster lock " ++ path ++ " still held after ~10 s of retries; "
    ++ "if the holder crashed it expires 120 s after the lock's mtime — retry then").
Definition no_lock (path : string) (e : IoError) : Error :=
  Fatal ("cannot acquire cluster lock " ++ path ++ ": " ++ io_text e ++ "; "
    ++ "non-quorate pmxcfs refuses writes — check quorum").
Definition unlock_request (path : string) : list string := ["touch"; "-d"; "@0"; path].

(** The tries left, the current one included. *)
Fixpoint lock_tries (left : nat) (path : string) : IO string :=
  match left with
  | O => throw (still_held path)
  | S left' =>
      made <~ fs_create_dir path ;;
      match made with
      | Ok _ => ret path
      | Err e =>
          if already_exists e then
            age <~ lock_age path ;;
            when (is_some_and age lock_is_stale) (run_ignore (unlock_request path)) >>~
            when (negb (Nat.eqb left' 0)) (sleep LOCK_RETRY_PAUSE_MS) >>~
            lock_tries left' path
          else throw (no_lock path e)
      end
  end.
Definition lock (root name : string) : IO string :=
  orelse (fs_create_dir_all (lock_parent root)) (cannot "create" (lock_parent root)) >>~
  lock_tries LOCK_RETRY_ATTEMPTS (lock_path root name).

(** [LockGuard] is its path. *)
Definition release (path : string) : IO unit :=
  orelse (fs_remove_dir path) (λ e, "cannot release cluster lock " ++ path ++ ": " ++ io_text e
    ++ "; it expires cluster-wide 120 s after its mtime")%string.

(** ** commands/cluster.rs *)

Record ConfState := { cs_generation : Z; cs_bytes : Z; first_line : string }.

Definition not_clustered (reason : string) : string :=
  "not clustered: " ++ reason ++ "; coordination disabled, local fabric.toml only" ++ newline.

(** Strings and pairs as [sort] orders them: by the first component, then by the second. *)
Fixpoint list_leb {A} (leb : A → A → bool) (a b : list A) : bool :=
  match a, b with
  | [], _ => true
  | _ :: _, [] => false
  | x :: a', y :: b' => leb x y && (negb (leb y x) || list_leb leb a' b')
  end.
Definition pair_leb {A B} (la : A → A → bool) (lb : B → B → bool) (a b : A * B) : bool :=
  la a.1 b.1 && (negb (la b.1 a.1) || lb a.2 b.2).
Definition cap_leb : string * string → string * string → bool := pair_leb str_leb str_leb.
Definition caps_leb : string * list (string * string) → string * list (string * string) → bool :=
  pair_leb str_leb (list_leb cap_leb).

Definition read_cap (f : Fs) (dir name : string) : option (string * string) :=
  match f_read f (join dir name) with Ok v => Some (name, trim v) | Err _ => None end.
Definition member_caps (f : Fs) (root member : string) : option (string * list (string * string)) :=
  let dir := member_caps_dir root member in
  match f_dir f dir with
  | Ok files => Some (member, merge_sort (leb_rel cap_leb) (omap (read_cap f dir) files))
  | Err _ => None
  end.
Definition read_caps (f : Fs) (root : string) : list (string * list (string * string)) :=
  match f_dir f (caps_dir root) with
  | Ok members => merge_sort (leb_rel caps_leb) (omap (member_caps f root) members)
  | Err _ => []
  end.

Definition node_line (p : string * Node) : string :=
  "  " ++ p.1 ++ "  id " ++ show (nd_id p.2) ++ "  " ++ (if nd_online p.2 then "online" else "OFFLINE")
    ++ match nd_ip p.2 with Some ip => "  " ++ ip | None => EmptyString end ++ newline.
Definition cap_line (p : string * list (string * string)) : string :=
  "  " ++ p.1 ++ ": " ++ String.concat "  " ((λ c : string * string, (c.1 ++ " " ++ c.2)%string) <$> p.2) ++ newline.

(** [None] is the [expect]: the caller has looked. *)
Definition render_status (m : Members) (is_quorate : bool) (conf : option ConfState)
    (caps : list (string * list (string * string))) : option string :=
  c ← cluster m;
  Some ("cluster " ++ ci_name c ++ ": this node " ++ nodename m ++ ", quorate "
    ++ (if is_quorate then "yes" else "no (pmxcfs read-only, reads may be stale)") ++ newline
    ++ "members (" ++ show (ci_nodes c) ++ " declared):" ++ newline
    ++ String.concat EmptyString (node_line <$> btree_iter str_leb (nodelist m))
    ++ match conf with
       | Some c => "published fabric.toml: gen " ++ show (cs_generation c) ++ " (" ++ show (cs_bytes c)
                     ++ " bytes) — first line: " ++ first_line c ++ newline
       | None => "published fabric.toml: none" ++ newline
       end
    ++ match caps with
       | [] => "published caps: none" ++ newline
       | _ => "published caps:" ++ newline ++ String.concat EmptyString (cap_line <$> caps)
       end)%string.

(** The conf's bytes are taken to be UTF-8, which is all cfab publishes. *)
Definition conf_state (root : string) : IO (option ConfState) :=
  read <~ peek (λ f, f_read f (conf_path root)) ;;
  match read with
  | Ok text =>
      generation <~ read_gen root ;;
      ret (Some {| cs_generation := generation; cs_bytes := bytes text;
                   first_line := unwrap_or (head (lines text)) EmptyString |})
  | Err e => if is_not_found e then ret None else throw (Fatal (cannot "read" (conf_path root) e))
  end.

Definition no_mount (root : string) : string := root ++ " is not a pmxcfs mount (no .members)".

(** [status]; the inner [None] is the [expect] of [render_status]. *)
Definition cluster_status (root : string) : IO (option string) :=
  members <~ probe root ;;
  match members with
  | None => ret (Some (not_clustered (no_mount root)))
  | Some m =>
      if negb (is_some_and (cluster m) (λ _, true))
      then ret (Some (not_clustered "pmxcfs is in local mode (single node)"))
      else
        q <~ quorate root ;;
        conf <~ conf_state root ;;
        caps <~ peek (λ f, read_caps f root) ;;
        ret (render_status m q conf caps)
  end.

(** *** Publishing *)

Definition already_only : string := "not clustered — the local fabric.toml is already the only one".
Definition nowhere (root : string) : Error :=
  Fatal ("refusing to publish: " ++ no_mount root ++ "; " ++ already_only).
Definition local_mode : Error :=
  Fatal ("refusing to publish: pmxcfs is in local mode (single node); " ++ already_only).
Definition not_quorate : Error :=
  Fatal ("refusing to publish: pmxcfs is not quorate (writes fail EACCES, members may be "
    ++ "partitioned); restore quorum first").

(** [g + 1] of a [u64], as the release build computes it. *)
Definition next_gen (g : Z) : Z := (g + 1) mod (u64_max + 1).

Definition publish_conf (root conf_text : string) : IO Z :=
  g <~ read_gen root ;;
  let generation := next_gen g in
  publish_file (conf_path root) conf_text >>~
  write_gen root generation >>~
  ret generation.

(** [acks/<g>] for [g + 1 < generation]; what cannot be removed is left. *)
Definition is_old_ack (generation : Z) (name : string) : bool :=
  match parse_uint u64_max name with Some g => next_gen g <? generation | None => false end.
Definition clean_old_acks (root : string) (generation : Z) : IO unit :=
  entries <~ peek (λ f, f_dir f (all_acks root)) ;;
  match entries with
  | Err _ => ret tt
  | Ok names =>
      each (λ n, fs_remove_dir_all (join (all_acks root) n) >>~ ret tt)
        (List.filter (is_old_ack generation) names)
  end.

Definition require_cluster (root : string) : IO unit :=
  members <~ probe root ;;
  match members with
  | None => throw (nowhere root)
  | Some m => if is_some_and (cluster m) (λ _, true) then ret tt else throw local_mode
  end.

Definition publish (root conf_text : string) : IO string :=
  require_cluster root >>~
  (q <~ quorate root ;;
   if negb q then throw not_quorate
   else
     orelse (fs_create_dir_all (cfab_dir root)) (cannot "create" (cfab_dir root)) >>~
     (guard <~ lock root "conf" ;;
      published <~ attempt (publish_conf root conf_text) ;;
      released <~ attempt (release guard) ;;
      generation <~ lift published ;;
      lift released >>~
      clean_old_acks root generation >>~
      ret ("published fabric.toml gen " ++ show generation ++ " (" ++ show (bytes conf_text)
             ++ " bytes) to " ++ cfab_dir root ++ "/" ++ newline)%string)).

(** ** What publishing does

    [tmp_path] is the file a publish goes through; [publication] the two calls it makes. *)

Definition tmp_path (target : string) : string :=
  tmp_of (unwrap_or (parent target) EmptyString) (unwrap_or (file_name target) EmptyString).
Definition publication (target content : string) : list Action :=
  [AWrite (tmp_path target) content; ARename (tmp_path target) target].

(** The two calls of a publication, made after [tr], are answered [Ok]. *)
Definition published (tr : list Action) (target content : string) : Prop :=
  f_write (fs tr) (tmp_path target) content = Ok tt ∧
  f_rename (fs (tr ++ [AWrite (tmp_path target) content])) (tmp_path target) target = Ok tt.

Lemma publish_file_spec target content io tr :
  ∃ new r, publish_file target content io tr = (tr ++ new, r) ∧
    match r with
    | Ok _ => new = publication target content ∧ published tr target content
    | Err _ => new `prefix_of` publication target content
               ∧ (new = publication target content → ¬ published tr target content)
    end.
Proof using Type.
  assert (∀ e : Error, ∃ new r, (tr, Err e : result Error unit) = (tr ++ new, r) ∧
    match r with
    | Ok _ => new = publication target content ∧ published tr target content
    | Err _ => new `prefix_of` publication target content
               ∧ (new = publication target content → ¬ published tr target content)
    end) as Hno.
  { intros e. exists [], (Err e). rewrite app_nil_r. split; [done|]. split; [apply prefix_nil|done]. }
  unfold publish_file, bind, lift, orelse, fs_write, fs_rename, bind, lift. cbn beta iota.
  destruct (check_size _ _) as [[]|e]; [|apply Hno].
  destruct (parent target) as [d|] eqn:Ed; [|apply Hno].
  destruct (file_name target) as [n|] eqn:En; [|apply Hno].
  assert (tmp_path target = tmp_of d n) as Et by (unfold tmp_path; by rewrite Ed, En).
  clear Hno. unfold publication, published. rewrite <-Et. clear Et.
  destruct (f_write (fs tr) _ _) as [[]|e] eqn:Ew; cbn [wrap].
  2: { eexists [_], (Err _). split; [done|]. split; [by eexists [_]|]. by intros [=]. }
  destruct (f_rename (fs _) _ _) as [[]|e] eqn:Er; cbn [wrap]; eexists [_; _], _;
    (split; [rewrite <-app_assoc; done|]).
  - done.
  - split; [done|]. by intros _ [_ [=]].
Qed.

(** The counter a file system holds. *)
Definition counter_in (f : Fs) (path : string) : result Error Z :=
  match f_read f path with
  | Ok text => parse_gen text path
  | Err e => if is_not_found e then Ok 0 else Err (Fatal (cannot "read" path e))
  end.

Lemma read_counter_spec path io tr : read_counter path io tr = (tr, counter_in (fs tr) path).
Proof using Type.
  unfold read_counter, counter_in, bind, peek. destruct (f_read _ _) as [t|e]; [done|].
  by destruct (is_not_found e).
Qed.

Definition gen_write (root : string) (g : Z) : list Action := publication (gen_path root) (format_gen g).

(** The critical section: the conf, then the counter, one more than it was; the counter is not
    touched before the conf is in place. *)
Lemma publish_conf_spec root text io tr :
  ∃ new r, publish_conf root text io tr = (tr ++ new, r) ∧
    match counter_in (fs tr) (gen_path root) with
    | Err _ => new = [] ∧ is_ok r = false
    | Ok g =>
        let conf := publication (conf_path root) text in
        match r with
        | Ok g' => g' = next_gen g ∧ new = conf ++ gen_write root g' ∧ published tr (conf_path root) text
                   ∧ published (tr ++ conf) (gen_path root) (format_gen g')
        | Err _ => (new `prefix_of` conf ∧ (new = conf → ¬ published tr (conf_path root) text))
                   ∨ (published tr (conf_path root) text ∧ new `prefix_of` conf ++ gen_write root (next_gen g)
                      ∧ (new = conf ++ gen_write root (next_gen g) →
                         ¬ published (tr ++ conf) (gen_path root) (format_gen (next_gen g))))
        end
    end.
Proof using Type.
  unfold publish_conf, read_gen, write_gen, gen_write. unfold bind at 1. rewrite read_counter_spec.
  destruct (counter_in _ _) as [g|e].
  2: { exists [], (Err e). by rewrite app_nil_r. }
  unfold bind, ret. destruct (publish_file_spec (conf_path root) text io tr) as (l1 & r1 & -> & H1).
  destruct r1 as [[]|e]; [|exists l1, (Err e); auto].
  destruct H1 as [-> H1].
  destruct (publish_file_spec (gen_path root) (format_gen (next_gen g)) io
    (tr ++ publication (conf_path root) text)) as (l2 & r2 & -> & H2).
  rewrite <-app_assoc. destruct r2 as [[]|e]; eexists _, _; (split; [done|]).
  - destruct H2 as [-> H2]. auto.
  - destruct H2 as [Hp H2]. right. split; [done|]. split; [by apply prefix_app|].
    intros E. apply H2. by apply app_inv_head in E.
Qed.

(** *** The lock *)

(** What waiting for the lock does: tries, an unlock request where the lock has expired, naps. *)
Definition waiting (path : string) (tr : list Action) (a : Action) : Prop :=
  match a with
  | AMkdir p => p = path
  | ARun argv => argv = unlock_request path ∧ is_some_and (age_of (fs tr) path) lock_is_stale = true
  | ASleep ms => ms = LOCK_RETRY_PAUSE_MS
  | _ => False
  end.

(** No try of [new], made after [tr], is answered [Ok]. *)
Definition refused (path : string) (tr new : list Action) : Prop :=
  ∀ pre post, new = pre ++ AMkdir path :: post → f_create_dir (fs (tr ++ pre)) path ≠ Ok tt.

Definition tries (path : string) (l : list Action) : nat :=
  length (List.filter (λ a, bool_decide (a = AMkdir path)) l).

Lemma refused_app path tr l1 l2 :
  refused path tr l1 → refused path (tr ++ l1) l2 → refused path tr (l1 ++ l2).
Proof using Type.
  intros H1 H2 pre post E. apply app_eq_inv in E as [(k & -> & E)|(k & -> & ->)].
  - destruct k as [|a k]; cbn in E.
    + rewrite app_nil_r in *. subst l2. specialize (H2 [] post eq_refl). by rewrite app_nil_r in H2.
    + injection E as <- ->. by apply (H1 pre k).
  - specialize (H2 k post eq_refl). by rewrite <-app_assoc in H2.
Qed.

Lemma refused_other path tr l : tries path l = 0%nat → refused path tr l.
Proof using Type.
  intros H pre post ->. unfold tries in H. rewrite List.filter_app, length_app in H. cbn in H.
  rewrite bool_decide_eq_true_2 in H by done. cbn in H. lia.
Qed.

Lemma tries_app path l1 l2 : tries path (l1 ++ l2) = (tries path l1 + tries path l2)%nat.
Proof using Type. unfold tries. by rewrite List.filter_app, length_app. Qed.

(** The pause after a try that found the lock held. *)
Lemma pause_spec path m io tr tr' r :
  (when (is_some_and (age_of (fs tr) path) lock_is_stale) (run_ignore (unlock_request path)) >>~
   when m (sleep LOCK_RETRY_PAUSE_MS)) io tr = (tr', r) →
  ∃ new, tr' = tr ++ new ∧ allowed (waiting path) tr new ∧ tries path new = 0%nat.
Proof using Type.
  unfold bind, when, run_ignore, exec, sleep, ret, bind.
  destruct (is_some_and _ _) eqn:Es; [destruct (h_run _ _) as [o|e]|]; destruct m; intros [= <- <-];
    [exists [ARun (unlock_request path); ASleep LOCK_RETRY_PAUSE_MS]|exists [ARun (unlock_request path)]
    |exists [ARun (unlock_request path)]|exists [ARun (unlock_request path)]
    |exists [ASleep LOCK_RETRY_PAUSE_MS]|exists []]; rewrite <- ?app_assoc, ?app_nil_r; cbn; auto 10.
Qed.

Lemma bind_assoc {A B C} (m : IO A) (k : A → IO B) (h : B → IO C) io tr :
  bind (bind m k) h io tr = bind m (λ a, bind (k a) h) io tr.
Proof using Type. unfold bind. by destruct (m io tr) as [? [a|e]]. Qed.

Lemma lock_tries_spec n path io tr :
  ∃ new r, lock_tries n path io tr = (tr ++ new, r) ∧ allowed (waiting path) tr new ∧ (tries path new ≤ n)%nat ∧
    match r with
    | Ok p => p = path ∧ ∃ before, new = before ++ [AMkdir path] ∧ f_create_dir (fs (tr ++ before)) path = Ok tt
    | Err _ => refused path tr new
    end.
Proof using Type.
  revert tr. induction n as [|n IH]; intros tr; cbn [lock_tries].
  { exists [], (Err (still_held path)). rewrite app_nil_r. repeat split; [done|]. by intros [] ?. }
  assert (tries path [AMkdir path] = 1%nat) as H1.
  { unfold tries. cbn. by rewrite bool_decide_eq_true_2. }
  unfold bind at 1, fs_create_dir. destruct (f_create_dir (fs tr) path) as [[]|e] eqn:Ec.
  { eexists _, (Ok path). split; [done|]. split; [done|]. split; [by rewrite H1; lia|].
    split; [done|]. exists []. by rewrite app_nil_r. }
  assert (refused path tr [AMkdir path]) as Hr.
  { intros [|a [|b pre]] post E; [|done..]. rewrite app_nil_r. congruence. }
  destruct (already_exists e).
  2: { eexists _, (Err _). split; [done|]. split; [done|]. rewrite H1. split; [lia|done]. }
  unfold bind at 1, lock_age, peek.
  rewrite <-bind_assoc. set (tr1 := tr ++ [AMkdir path]). unfold bind at 1.
  destruct ((_ >>~ _) io tr1) as [tr2 r2] eqn:Ep.
  destruct (pause_spec path _ io tr1 tr2 r2 Ep) as (l & -> & Hl & Ht). subst tr1. clear Ep.
  assert (refused path tr ([AMkdir path] ++ l)) as Hr2 by (apply refused_app; [done|by apply refused_other]).
  destruct r2 as [[]|e2].
  2: { exists ([AMkdir path] ++ l), (Err e2). rewrite app_assoc, tries_app, H1, Ht. cbn. repeat split; [done|lia|done]. }
  destruct (IH ((tr ++ [AMkdir path]) ++ l)) as (l' & r & -> & Ha & Hn & H).
  exists (([AMkdir path] ++ l) ++ l'), r. rewrite !tries_app, H1, Ht, !app_assoc. split; [done|].
  split; [|split; [lia|]].
  - rewrite !allowed_app, app_assoc. done.
  - destruct r as [p|e'].
    + destruct H as (-> & before & -> & Hc). split; [done|]. exists (([AMkdir path] ++ l) ++ before).
      rewrite !app_assoc in *. done.
    + apply refused_app; [done|]. by rewrite app_assoc.
Qed.

(** *** The whole *)

Definition lock_of (root : string) : string := lock_path root "conf".

Definition removes_old_ack (root : string) (g : Z) (a : Action) : Prop :=
  ∃ name, a = ARemove (join (all_acks root) name) ∧ is_old_ack g name = true.

Lemma clean_old_acks_spec root g io tr :
  ∃ new, clean_old_acks root g io tr = (tr ++ new, Ok tt) ∧ Forall (removes_old_ack root g) new.
Proof using Type.
  unfold clean_old_acks, bind at 1, peek. destruct (f_dir _ _) as [names|e].
  2: { exists []. by rewrite app_nil_r. }
  assert (Forall (λ n, is_old_ack g n = true) (List.filter (is_old_ack g) names)) as H.
  { apply list.Forall_forall. intros n Hn. by apply elem_of_bfilter in Hn as [? _]. }
  revert tr H. generalize (List.filter (is_old_ack g) names). intros l.
  set (f := λ n : string, fs_remove_dir_all (join (all_acks root) n) >>~ ret tt).
  induction l as [|n l IH]; intros tr H; cbn [each].
  { exists []. by rewrite app_nil_r. }
  apply list.Forall_cons in H as [Hn Hl]. unfold bind. cbn beta iota delta [f].
  assert (f n io tr = (tr ++ [ARemove (join (all_acks root) n)], Ok tt)) as -> by done.
  destruct (IH (tr ++ [ARemove (join (all_acks root) n)]) Hl) as (new & -> & Hnew).
  exists (ARemove (join (all_acks root) n) :: new). rewrite <-app_assoc. split; [done|].
  constructor; [by exists n|done].
Qed.

(** The critical section ran to its end, or was cut short: in the second case the counter does
    not move, and stays unless the conf is in place. *)
Definition bumped (root text : string) (tr crit : list Action) : Prop :=
  ∃ g, counter_in (fs tr) (gen_path root) = Ok g ∧
    let conf := publication (conf_path root) text in
    crit = conf ++ gen_write root (next_gen g) ∧ published tr (conf_path root) text ∧
    published (tr ++ conf) (gen_path root) (format_gen (next_gen g)).
Definition cut_short (root text : string) (tr crit : list Action) : Prop :=
  match counter_in (fs tr) (gen_path root) with
  | Err _ => crit = []
  | Ok g =>
      let conf := publication (conf_path root) text in
      let all := conf ++ gen_write root (next_gen g) in
      (crit `prefix_of` conf ∧ (crit = conf → ¬ published tr (conf_path root) text))
      ∨ (published tr (conf_path root) text ∧ crit `prefix_of` all ∧
         (crit = all → ¬ published (tr ++ conf) (gen_path root) (format_gen (next_gen g))))
  end.

Definition setting_up (root : string) (a : Action) : Prop :=
  a = AMkdir (cfab_dir root) ∨ a = AMkdir (lock_parent root).

Lemma critical_spec root text io tr :
  ∃ crit r, publish_conf root text io tr = (tr ++ crit, r) ∧
    match r with
    | Ok g' => bumped root text tr crit ∧
        ∃ g, counter_in (fs tr) (gen_path root) = Ok g ∧ g' = next_gen g
    | Err _ => cut_short root text tr crit
    end.
Proof using Type.
  destruct (publish_conf_spec root text io tr) as (crit & r & -> & H). exists crit, r. split; [done|].
  unfold bumped, cut_short. destruct (counter_in _ _) as [g|e], r as [g'|e']; try done.
  - destruct H as (-> & -> & H1 & H2). split; eauto 10.
  - by destruct H.
  - by destruct H as [-> _].
Qed.

Definition outcome (root text : string) (tr tr' : list Action) (r : result Error string) : Prop :=
  let lk := lock_of root in
  (∃ setup w, tr' = tr ++ setup ++ w ∧ Forall (setting_up root) setup ∧ allowed (waiting lk) (tr ++ setup) w ∧
     refused lk (tr ++ setup) w ∧ is_ok r = false) ∨
  (∃ setup w crit after, let taken := tr ++ setup ++ w ++ [AMkdir lk] in
     tr' = taken ++ crit ++ ARemove lk :: after ∧ Forall (setting_up root) setup ∧
     allowed (waiting lk) (tr ++ setup) w ∧ f_create_dir (fs (tr ++ setup ++ w)) lk = Ok tt ∧
     match r with
     | Ok _ => bumped root text taken crit ∧ f_remove_dir (fs (taken ++ crit)) lk = Ok tt ∧
               ∃ g, counter_in (fs taken) (gen_path root) = Ok g ∧ Forall (removes_old_ack root (next_gen g)) after
     | Err _ => after = [] ∧ (cut_short root text taken crit ∨
                  bumped root text taken crit ∧ f_remove_dir (fs (taken ++ crit)) lk ≠ Ok tt)
     end).

Lemma require_cluster_quiet root io tr : (require_cluster root io tr).1 = tr.
Proof using Type.
  unfold require_cluster, probe, bind, peek, lift, ret, throw. destruct (f_read _ _) as [j|e].
  - destruct (parse_members _ _) as [m|e]; [|done]. by destruct (is_some_and _ _).
  - by destruct (is_not_found e).
Qed.

Lemma quorate_quiet root io tr : (quorate root io tr).1 = tr.
Proof using Type. unfold quorate, bind, peek, lift, ret. by destruct (wrap _ _). Qed.

Lemma orelse_create_dir_all p what io tr :
  ∃ r, orelse (fs_create_dir_all p) what io tr = (tr ++ [AMkdir p], r).
Proof using Type. unfold orelse, bind, fs_create_dir_all, lift. eauto. Qed.

(** With the lock taken: the critical section, the release, and what comes after. *)
Lemma release_spec lk io tr :
  ∃ r, release lk io tr = (tr ++ [ARemove lk], r) ∧ (is_ok r = true ↔ f_remove_dir (fs tr) lk = Ok tt).
Proof using Type.
  unfold release, orelse, bind, fs_remove_dir, lift. eexists. split; [reflexivity|].
  destruct (f_remove_dir _ _) as [[]|e]; split; done.
Qed.

Definition and_then (root text : string) (guard : string) : IO string :=
  published <~ attempt (publish_conf root text) ;;
  released <~ attempt (release guard) ;;
  generation <~ lift published ;;
  lift released >>~
  clean_old_acks root generation >>~
  ret ("published fabric.toml gen " ++ show generation ++ " (" ++ show (bytes text)
         ++ " bytes) to " ++ cfab_dir root ++ "/" ++ newline)%string.

Lemma and_then_spec root text lk io tr tr' r :
  and_then root text lk io tr = (tr', r) →
  ∃ crit after, tr' = tr ++ crit ++ ARemove lk :: after ∧
    match r with
    | Ok _ => bumped root text tr crit ∧ f_remove_dir (fs (tr ++ crit)) lk = Ok tt ∧
              ∃ g, counter_in (fs tr) (gen_path root) = Ok g ∧ Forall (removes_old_ack root (next_gen g)) after
    | Err _ => after = [] ∧ (cut_short root text tr crit ∨
                 bumped root text tr crit ∧ f_remove_dir (fs (tr ++ crit)) lk ≠ Ok tt)
    end.
Proof using Type.
  unfold and_then. unfold bind at 1, attempt at 1.
  destruct (critical_spec root text io tr) as (crit & rc & -> & Hc).
  unfold bind at 1, attempt at 1. destruct (release_spec lk io (tr ++ crit)) as (rr & -> & Hr).
  unfold bind at 1, lift at 1. destruct rc as [g'|e].
  2: { intros [= <- <-]. exists crit, []. rewrite <-app_assoc. auto. }
  destruct Hc as (Hb & g & Hg & ->). unfold bind at 1, lift at 1. destruct rr as [[]|e].
  2: { intros [= <- <-]. exists crit, []. rewrite <-app_assoc. split; [done|]. split; [done|].
       right. split; [done|]. intros H. by apply Hr in H. }
  unfold bind. destruct (clean_old_acks_spec root (next_gen g) io ((tr ++ crit) ++ [ARemove lk])) as (l & -> & Hl).
  intros [= <- <-]. exists crit, l. rewrite <-!app_assoc. split; [done|]. split; [done|].
  split; [by apply Hr|]. eauto.
Qed.

Lemma publish_outcome root text io tr tr' r :
  publish root text io tr = (tr', r) → outcome root text tr tr' r.
Proof using Type.
  assert (∀ e : Error, outcome root text tr tr (Err e)) as Hno.
  { intros e. left. exists [], []. rewrite !app_nil_r. repeat split; [done|]. by intros [] ?. }
  unfold publish. unfold bind at 1.
  pose proof (require_cluster_quiet root io tr) as Eq. destruct (require_cluster root io tr) as [? [[]|e]]; cbn in Eq; subst.
  2: { by intros [= <- <-]. }
  unfold bind at 1. pose proof (quorate_quiet root io tr) as Eq. destruct (quorate root io tr) as [? [q|e]]; cbn in Eq; subst.
  2: { by intros [= <- <-]. }
  destruct q; cbn [negb]; [|by intros [= <- <-]].
  unfold bind at 1. destruct (orelse_create_dir_all (cfab_dir root) (cannot "create" (cfab_dir root)) io tr) as (r1 & ->).
  destruct r1 as [[]|e].
  2: { intros [= <- <-]. left. exists [AMkdir (cfab_dir root)], []. split; [done|].
       split; [constructor; [by left|constructor]|]. repeat split. by intros [] ?. }
  change (bind (lock root "conf") _) with (bind (lock root "conf") (and_then root text)).
  unfold bind at 1, lock. unfold bind at 1.
  destruct (orelse_create_dir_all (lock_parent root) (cannot "create" (lock_parent root)) io (tr ++ [AMkdir (cfab_dir root)])) as (r2 & ->).
  set (setup := [AMkdir (cfab_dir root); AMkdir (lock_parent root)]).
  assert (Forall (setting_up root) setup) as Hs by (constructor; [by left|constructor; [by right|constructor]]).
  rewrite <-app_assoc. change ([AMkdir (cfab_dir root)] ++ [AMkdir (lock_parent root)]) with setup.
  destruct r2 as [[]|e].
  2: { intros [= <- <-]. left. exists setup, []. rewrite app_nil_r. repeat split; try done. by intros [] ?. }
  fold (lock_of root). destruct (lock_tries_spec LOCK_RETRY_ATTEMPTS (lock_of root) io (tr ++ setup)) as (w & rl & -> & Hw & _ & Hl).
  destruct rl as [p|e].
  2: { intros [= <- <-]. left. exists setup, w. rewrite <-app_assoc. auto. }
  destruct Hl as (-> & before & -> & Hc). intros H.
  destruct (and_then_spec root text (lock_of root) io _ tr' r H) as (crit & after & -> & HO).
  right. exists setup, before, crit, after. rewrite <-!app_assoc in *. apply allowed_app in Hw as [Hw _].
  cbv zeta. rewrite <-!app_assoc. do 4 (split; [done|]). done.
Qed.

(** C24. C: publishing is one critical section under the cluster lock. Either the lock is never got:
    no try of it was answered, all that was done is to make the two directories and, between the
    tries, nap and touch a lock that had expired, and the publish is refused; or it is got once and
    given up once, in between the conf is put in place and only then the counter moved to one more
    than it was under the lock (as a u64: from the largest it goes to 0), and the publish says it
    succeeded exactly when all four calls and the release were answered. Acks go after that, of
    generations before the previous one only. *)
Theorem publish_is_locked root text io tr tr' r :
  publish root text io tr = (tr', r) → outcome root text tr tr' r.
Proof using Type. apply publish_outcome. Qed.
End fs.

(** ** A mount to look at *)
Module Mount.
(** Every call is answered; the counter is at 6, and three members are quorate. *)
Definition read (p : string) : result IoError string :=
  if String.eqb p "/etc/pve/cfab/gen" then Ok (format_gen 6)
  else if String.eqb p "/etc/pve/.members" then Ok "{}"%string
  else Err {| io_kind := NotFound; io_text := "none" |}.
Definition dirs (p : string) : result IoError (list string) :=
  if String.eqb p "/etc/pve/cfab/acks" then Ok ["4"; "5"; "6"; "notes"]%string
  else Err {| io_kind := NotFound; io_text := "none" |}.
Definition up : Fs := {|
  f_read := read; f_dir := dirs; f_mode := λ _, Ok 511; f_mtime := λ _, None; f_now := 0;
  f_write := λ _ _, Ok tt; f_rename := λ _ _, Ok tt; f_remove_file := λ _, Ok tt;
  f_remove_dir := λ _, Ok tt; f_remove_dir_all := λ _, Ok tt; f_create_dir := λ _, Ok tt;
  f_create_dir_all := λ _, Ok tt |}.
Definition three (_ : string) : result string Members :=
  let node i := {| nd_id := i; nd_online := true; nd_ip := None |} in
  Ok {| nodename := "a"; mb_version := 7;
        cluster := Some {| ci_name := "c"; ci_version := 3; ci_nodes := 3; ci_quorate := true |};
        nodelist := <["a" := node 1]> (<["b" := node 2]> {["c" := node 3]}) |}.
Definition silent : Env := {|
  e_host := {| h_run := λ _, Ok {| status := 0; stdout := EmptyString; stderr := EmptyString |};
               h_read := λ _, Err (Fatal "none"); h_exists := λ _, false; h_is_writable := λ _, false;
               h_list_dir := λ _, Err (Fatal "none"); h_read_link := λ _, Err (Fatal "none") |};
  e_write := λ _ _, Ok tt; e_rename := λ _ _, Ok tt; e_remove := λ _, Ok tt; e_mkdir := λ _, Ok tt;
  e_request := λ _ _, Err (Fatal "none"); e_probe := λ _ _, NotListening |}.
Definition publishes (fs : list Action → Fs) := publish fs three "/etc/pve" "A=1" (λ _, silent) [].

Example as_written :
  publishes (λ _, up) =
  ([AMkdir "/etc/pve/cfab"; AMkdir "/etc/pve/priv/lock"; AMkdir "/etc/pve/priv/lock/cfab-conf";
    AWrite "/etc/pve/cfab/.fabric.toml.tmp" "A=1";
    ARename "/etc/pve/cfab/.fabric.toml.tmp" "/etc/pve/cfab/fabric.toml";
    AWrite "/etc/pve/cfab/.gen.tmp" (format_gen 7); ARename "/etc/pve/cfab/.gen.tmp" "/etc/pve/cfab/gen";
    ARemove "/etc/pve/priv/lock/cfab-conf"; ARemove "/etc/pve/cfab/acks/4"; ARemove "/etc/pve/cfab/acks/5"],
   Ok ("published fabric.toml gen 7 (3 bytes) to /etc/pve/cfab/" ++ newline)%string).
Proof. vm_compute. done. Qed.
End Mount.

Lemma publish_is_locked_witness :
  let run := Mount.publishes (λ _, Mount.up) in
  is_ok run.2 = true ∧ outcome (λ _, Mount.up) "/etc/pve" "A=1" [] run.1 run.2.
Proof.
  split; [by vm_compute|].
  apply (publish_is_locked (λ _, Mount.up) Mount.three "/etc/pve" "A=1" (λ _, Mount.silent)).
  apply surjective_pairing.
Defined.
