(* ===== verification/ConfSync.v ===== *)
(** The configuration follower (src/src/commands/conf_sync.rs): one turn looks at the cluster's
    counter and, on a new generation, vets the published declaration, installs it, has it
    applied, shows an ack and waits for a peer's, or puts the previous one back.

    A [SIO] is a method on [&mut self]: it also answers the state it leaves, on an error too.
    The state files are small counters beside the socket; reads and writes go through [Cluster]'s
    [Fs], so every one of them may fail, and what they see may change between two actions. What
    is printed in the middle of a turn is not modelled; [report] gives the lines at its end. *)
From Stdlib Require Import Ascii String.
From S2P Require Import Prelude Text Decl Sys Fabric Derive Validate EngineState Legs Cluster.
Local Open Scope Z_scope.
Local Open Scope cmd_scope.

(** [fabric.toml] as read, and what [Tick] says of a turn. *)
Inductive Tick :=
| NotQuorate
| Idle
| AlreadyAttempted (generation : Z)
| GenRegression (generation committed : Z)
| Refused (generation : Z) (reason : string)
| Committed (generation : Z) (applied : bool) (witness : string)
| Reverted (generation : Z) (reason : string).

Record ConfSync := {
  pmx : string;
  exe : string;
  me : string;
  local_conf : string;
  run_dir : string;
  attempted : Z;
  committed : Z;
  regression_logged : option Z
}.

Definition WITNESS_POLLS : nat := 60.
Definition TICK_MS : Z := 1000.
Definition STATUS_WAIT_SECS : Z := 30.
Definition WINDOW : Z := seconds 60.

Definition set_attempted_to (g : Z) (s : ConfSync) : ConfSync :=
  {| pmx := pmx s; exe := exe s; me := me s; local_conf := local_conf s; run_dir := run_dir s;
     attempted := g; committed := committed s; regression_logged := regression_logged s |}.
Definition set_committed_to (g : Z) (s : ConfSync) : ConfSync :=
  {| pmx := pmx s; exe := exe s; me := me s; local_conf := local_conf s; run_dir := run_dir s;
     attempted := attempted s; committed := g; regression_logged := regression_logged s |}.
Definition set_logged (g : Z) (s : ConfSync) : ConfSync :=
  {| pmx := pmx s; exe := exe s; me := me s; local_conf := local_conf s; run_dir := run_dir s;
     attempted := attempted s; committed := committed s; regression_logged := Some g |}.

Definition attempted_path (dir : string) : string := join dir "conf-sync-attempted".
Definition committed_path (dir : string) : string := join dir "conf-sync-committed".
Definition prev_path (s : ConfSync) : string := (local_conf s ++ ".prev")%string.

(** ** Asking for an apply *)

(** The trait: something that makes one request and says how it went. *)
Class Applier := {
  reapply : IO unit;
  asks : Action;
  reapply_asks io tr : ∃ r, reapply io tr = (tr ++ [asks], r)
}.

Section socket.
(** [serde_json::from_str], with the text of its error. *)
Context (from_str : string → result string Value).

Definition sock_of (dir : string) : string := (trim_slashes dir ++ "/cfab.sock")%string.

Definition is_ok_true (doc : Value) : bool :=
  match get doc "ok" with Some (Bool true) => true | _ => false end.
Definition refusal_text (doc : Value) (reply : string) : string :=
  match get doc "error" ≫= as_str with
  | Some e => unwrap_or (strip_prefix "FATAL: " e) e
  | None => trim reply
  end.
Definition read_reply (sock reply : string) : result Error unit :=
  match from_str reply with
  | Err e => Err (Fatal (sock ++ ": unreadable reply to reapply (" ++ e ++ "): " ++ trim reply))
  | Ok doc => if is_ok_true doc then Ok tt else Err (Fatal (refusal_text doc reply))
  end.
Definition socket_reapply (sock : string) : IO unit :=
  reply <~ request sock ("reapply" ++ newline) ;; lift (read_reply sock reply).

Definition SocketApplier (dir : string) : Applier.
Proof.
  refine {| reapply := socket_reapply (sock_of dir); asks := ARequest (sock_of dir) ("reapply" ++ newline) |}.
  intros io tr. unfold socket_reapply, bind, request, lift.
  destruct (e_request _ _ _); eauto.
Defined.
End socket.

(** ** Methods *)

Definition SIO (A : Type) : Type := ConfSync → IO (ConfSync * result Error A).
Definition sret {A} (a : A) : SIO A := λ s, ret (s, Ok a).
Definition sbind {A B} (m : SIO A) (k : A → SIO B) : SIO B := λ s,
  out <~ m s ;; match out.2 with Ok a => k a out.1 | Err e => ret (out.1, Err e) end.
(** A call that does not touch the state, its error returned, and the same with its [Result]. *)
Definition call {A} (m : IO A) : SIO A := λ s, r <~ attempt m ;; ret (s, r).
Definition tried {A} (m : IO A) : SIO (result Error A) := call (attempt m).
Definition modify (f : ConfSync → ConfSync) : SIO unit := λ s, ret (f s, Ok tt).

Declare Scope sync_scope.
Delimit Scope sync_scope with sync.
Notation "x <- m ;; k" := (sbind m (λ x, k))
  (at level 100, m at next level, k at level 200, right associativity) : sync_scope.
Notation "m ;;; k" := (sbind m (λ _, k))
  (at level 100, k at level 200, right associativity) : sync_scope.

Section sync.
Context (fs : list Action → Fs).
Context (from_json : string → result string Members).
(** [Declaration::parse] (serde and toml), and the text of a refusal. *)
Context (parse : string → result Error Declaration) (refusal_error : Refusal → Error).
Context `{Applier}.

Definition from_refusal {A} (r : result Refusal A) : result Error A :=
  match r with Ok a => Ok a | Err e => Err (refusal_error e) end.
Definition validate (text member : string) : result Error unit :=
  decl <-? parse text ;;
  fabric <-? from_refusal (from_decl decl) ;;
  from_refusal (view_new fabric member) ;;? Ok tt.

Definition read_state (path : string) : IO Z := read_counter fs path.
Definition write_state (path : string) (g : Z) : IO unit :=
  match parent path with
  | Some dir => orelse (fs_create_dir_all fs dir) (cannot "create" dir)
  | None => ret tt
  end >>~
  orelse (fs_write fs path (format_gen g)) (cannot "write" path).

(** [ConfSync::new]. *)
Definition new (pmx exe member local_conf run_dir : string) : IO ConfSync :=
  a <~ read_state (attempted_path run_dir) ;;
  c <~ read_state (committed_path run_dir) ;;
  ret {| pmx := pmx; exe := exe; me := member; local_conf := local_conf; run_dir := run_dir;
         attempted := a; committed := c; regression_logged := None |}.

Local Open Scope sync_scope.

Definition set_attempted (g : Z) : SIO unit := λ s,
  (call (write_state (attempted_path (run_dir s)) g) ;;; modify (set_attempted_to g)) s.
Definition set_committed (g : Z) : SIO unit := λ s,
  (call (write_state (committed_path (run_dir s)) g) ;;; modify (set_committed_to g)) s.

(** [show_signed]: an exit code may be a negated signal. *)
Definition ack_text (member : string) (code : Z) : string :=
  (member ++ " " ++ show_signed code ++ newline)%string.
Definition write_ack (s : ConfSync) (g code : Z) : IO unit :=
  (orelse (fs_create_dir_all fs (acks_dir (pmx s) g)) (cannot "create" (acks_dir (pmx s) g)) >>~
   publish_file fs (ack_path (pmx s) g (me s)) (ack_text (me s) code))%cmd.

Definition fresh (f : Fs) (dir name : string) : bool :=
  is_some_and (age_of f (join dir name)) (λ age, age <=? WINDOW).
Definition is_peer (s : ConfSync) (name : string) : bool :=
  negb (starts_with "." name) && negb (String.eqb name (me s)).
Definition peer_in (f : Fs) (s : ConfSync) (g : Z) : option string :=
  match f_dir f (acks_dir (pmx s) g) with
  | Err _ => None
  | Ok names => List.find (is_peer s) (List.filter (fresh f (acks_dir (pmx s) g)) names)
  end.
Definition peer_ack (s : ConfSync) (g : Z) : IO (option string) := peek fs (λ f, peer_in f s g).

(** When in doubt, there are peers. *)
Definition member_count (s : ConfSync) : IO Z :=
  (r <~ attempt (probe fs from_json (pmx s)) ;;
   ret match r with
       | Ok (Some m) => if decide (nodelist m = ∅) then 2 else Z.of_nat (size (nodelist m))
       | _ => 2
       end)%cmd.

(** ** A generation *)

(** The retraction is best effort; so is the second apply. *)
Definition revert (g : Z) (reason : string) : SIO Tick := λ s,
  (tried (fs_remove_file fs (ack_path (pmx s) g (me s))) ;;;
   prev <- call (peek fs (λ f, f_read f (prev_path s))) ;;
   match prev with
   | Ok text =>
       call (orelse (fs_write fs (local_conf s) text) (cannot "write" (local_conf s))) ;;;
       tried reapply ;;;
       sret tt
   | Err _ => sret tt
   end ;;;
   sret (Reverted g reason)) s.

(** What a poll found: the commit, or whether the own ack stands and the last error it met. *)
Inductive Polled := Done (witness : string) | Still (acked : bool) (last_ack_err : string).

Definition try_ack (g code : Z) (acked : bool) (last : string) : SIO (bool * string) := λ s,
  (if acked then sret (true, last)
   else
     r <- tried (write_ack s g code) ;;
     match r with
     | Ok _ => sret (true, last)
     | Err e => sret (false, display e)
     end) s.

Definition no_peers : string := "witness skipped: single-member cluster, no peers".

Fixpoint witness_polls (polls : nat) (single : bool) (g code : Z) (acked : bool) (last : string)
    : SIO Polled := λ s,
  match polls with
  | O => sret (Still acked last) s
  | S polls' =>
      (a <- try_ack g code acked last ;;
       let '(acked, last) := a in
       if acked && single then set_committed g ;;; sret (Done no_peers)
       else
         peer <- (if acked then call (peer_ack s g) else sret None) ;;
         match peer with
         | Some p => set_committed g ;;; sret (Done ("witnessed by " ++ p))
         | None => call (sleep TICK_MS) ;;; witness_polls polls' single g code acked last
         end) s
  end.

Definition no_witness (acked : bool) (last : string) : string :=
  if acked then "no peer ack within " ++ show (Z.of_nat WITNESS_POLLS) ++ " s"
  else "own ack unwritable for " ++ show (Z.of_nat WITNESS_POLLS) ++ " s (" ++ last
    ++ ") — severed or non-quorate".

(** With the published text in place and applied: is it carrying, and does a peer say so too? *)
Definition status_argv (s : ConfSync) : list string :=
  [exe s; "--config"; local_conf s; "status"; "--wait"; show STATUS_WAIT_SECS].
Definition witness (g : Z) : SIO Tick := λ s,
  (status <- call (exec (status_argv s)) ;;
   let code := Sys.status status in
   if 1 <? code then revert g ("status exited " ++ show_signed code)
   else
     members <- call (member_count s) ;;
     polled <- witness_polls WITNESS_POLLS (members =? 1) g code false EmptyString ;;
     match polled with
     | Done w => sret (Committed g true w)
     | Still acked last => revert g (no_witness acked last)
     end) s.

Definition keep_prev (local : option string) : SIO unit := λ s,
  match local with
  | Some current => call (orelse (fs_write fs (prev_path s) current) (cannot "write" (prev_path s))) s
  | None => sret tt s
  end.

Definition install (g : Z) (published : string) (local : option string) : SIO Tick := λ s,
  (keep_prev local ;;;
   call (orelse (fs_write fs (local_conf s) published) (cannot "write" (local_conf s))) ;;;
   applied <- tried reapply ;;
   match applied with
   | Err e => revert g ("reapply refused: " ++ display e)
   | Ok _ => witness g
   end) s.

(** The running conf is this conf: an ack that cannot be written changes nothing. *)
Definition identical (g : Z) : SIO Tick := λ s,
  (r <- tried (write_ack s g 0) ;;
   let w := match r with
            | Ok _ => "identical, ack written"
            | Err e => "identical; ack write failed (" ++ display e ++ ") — committed anyway"
            end%string in
   set_committed g ;;; sret (Committed g false w)) s.

Definition handle_new_generation (g : Z) : SIO Tick := λ s,
  (set_attempted g ;;;
   published <- call (peek fs (λ f, f_read f (conf_path (pmx s)))) ;;
   match published with
   | Err e => sret (Refused g (cannot "read" (conf_path (pmx s)) e))
   | Ok text =>
       match validate text (me s) with
       | Err e => sret (Refused g (display e))
       | Ok _ =>
           local <- call (peek fs (λ f, f_read f (local_conf s))) ;;
           let local := match local with Ok t => Some t | Err _ => None end in
           if bool_decide (local = Some text) then identical g else install g text local
       end
   end) s.

Definition tick : SIO Tick := λ s,
  (q <- call (quorate fs (pmx s)) ;;
   if negb q then sret NotQuorate
   else
     g <- call (read_gen fs (pmx s)) ;;
     if g =? committed s then sret Idle
     else if g <? committed s then sret (GenRegression g (committed s))
     else if g =? attempted s then sret (AlreadyAttempted g)
     else handle_new_generation g) s.

(** ** The daemon *)

Definition report (t : Tick) (s : ConfSync) : ConfSync * list string :=
  match t with
  | NotQuorate | Idle | AlreadyAttempted _ => (s, [])
  | GenRegression g c =>
      if bool_decide (regression_logged s = Some g) then (s, [])
      else (set_logged g s, ["conf-sync: gen " ++ show g ++ " is BEHIND committed " ++ show c
              ++ " — counter rewound? ignoring until it advances"])
  | Refused g reason =>
      (s, ["conf-sync: REFUSED published gen " ++ show g ++ ": " ++ reason ++ " — never applied; "
              ++ "will not retry this generation (publish a fixed conf)"])
  | Committed g applied w =>
      (s, ["conf-sync: gen " ++ show g ++ " committed (" ++ (if applied then "applied" else "no apply")
              ++ "; " ++ w ++ ")"])
  | Reverted g reason =>
      (s, ["conf-sync: REVERTED gen " ++ show g ++ ": " ++ reason ++ " — previous conf restored; "
              ++ "will not retry this generation"])
  end%string.

(** [stop]: whether the signal has come. *)
Fixpoint turns (stop : list Action → bool) (n : nat) (s : ConfSync) : IO (ConfSync * list string) := λ io tr,
  match n with
  | O => (tr, Ok (s, []))
  | S n' =>
      if stop tr then (tr, Ok (s, []))
      else
        (out <~ tick s ;;
         let '(s, lines) := match out.2 with
                            | Ok t => report t out.1
                            | Err e => (out.1, ["conf-sync: tick failed: " ++ display e])
                            end%string in
         sleep TICK_MS >>~
         (rest <~ turns stop n' s ;; ret (rest.1, lines ++ rest.2)))%cmd io tr
  end.
End sync.

(** [run]: [handler] is whether the signal handler could be installed. *)
Definition run (fs : list Action → Fs) (from_str : string → result string Value)
    (from_json : string → result string Members) (parse : string → result Error Declaration)
    (refusal_error : Refusal → Error) (handler : result string unit) (stop : list Action → bool)
    (n : nat) (member dir exe : string) : IO (list string) :=
  s <~ new fs "/etc/pve" exe member "/etc/cfab/fabric.toml" dir ;;
  let started := ("conf-sync: start member=" ++ member ++ " attempted=" ++ show (attempted s)
                    ++ " committed=" ++ show (committed s))%string in
  match handler with
  | Err e => throw (Fatal ("cannot install signal handler: " ++ e))
  | Ok _ =>
      out <~ @turns fs from_json parse refusal_error (SocketApplier from_str dir) stop n s ;;
      ret (started :: out.2 ++ ["conf-sync: stopped (signal); local conf untouched"%string])
  end.

(** ** What a method does *)

(** What no method changes. *)
Definition cfg (s : ConfSync) := (pmx s, exe s, me s, local_conf s, run_dir s).

Section methods.
Context (fs : list Action → Fs).

Lemma sbind_Ok {A B} (m : SIO A) (k : A → SIO B) s io tr tr' s' b :
  sbind m k s io tr = (tr', Ok (s', Ok b)) →
  ∃ tr1 s1 a, m s io tr = (tr1, Ok (s1, Ok a)) ∧ k a s1 io tr1 = (tr', Ok (s', Ok b)).
Proof using Type.
  unfold sbind, bind, ret. destruct (m s io tr) as [tr1 [[s1 [a|e]]|e]]; cbn; [eauto 10|by intros [=]..].
Qed.

Lemma call_Ok {A} (m : IO A) s io tr tr' s' a :
  call m s io tr = (tr', Ok (s', Ok a)) → s' = s ∧ m io tr = (tr', Ok a).
Proof using Type.
  unfold call, attempt, bind, ret. destruct (m io tr) as [t r]. by intros [= <- <- ->].
Qed.

Lemma sbind_call {A B} (m : IO A) (k : A → SIO B) s io tr tr' r :
  m io tr = (tr', r) →
  sbind (call m) k s io tr = match r with Ok a => k a s io tr' | Err e => (tr', Ok (s, Err e)) end.
Proof using Type. intros E. unfold sbind, call, attempt, bind, ret. rewrite E. by destruct r. Qed.

Lemma tried_Ok {A} (m : IO A) s io tr tr' s' a :
  tried m s io tr = (tr', Ok (s', Ok a)) → s' = s ∧ m io tr = (tr', a).
Proof using Type.
  intros H. apply call_Ok in H as [-> H]. split; [done|]. unfold attempt in H.
  destruct (m io tr). by injection H as <- <-.
Qed.

(** Started where [I] holds, a method keeps [C], does what [P] allows where it does it, and
    always answers. *)
Definition sacts {A} (C : string * string * string * string * string) (I : Env_ → list Action → Prop)
    (P : Env_ → list Action → Action → Prop) (m : SIO A) : Prop :=
  ∀ s io tr, cfg s = C → I io tr →
    ∃ new s' r, m s io tr = (tr ++ new, Ok (s', r)) ∧ (cfg s' = C ∧ attempted s' = attempted s) ∧
      allowed (P io) tr new.

Context (C : string * string * string * string * string) (I : Env_ → list Action → Prop)
  (P : Env_ → list Action → Action → Prop) (HI : stable I).

Lemma sacts_ret {A} (a : A) : sacts C I P (sret a).
Proof using Type. intros s io tr Hs _. exists [], s, (Ok a). by rewrite app_nil_r. Qed.

Lemma sacts_modify f : (∀ s, cfg (f s) = cfg s ∧ attempted (f s) = attempted s) → sacts C I P (modify f).
Proof using Type.
  intros Hf s io tr Hs _. exists [], (f s), (Ok tt). destruct (Hf s) as [-> ->]. by rewrite app_nil_r.
Qed.

(** What holds where a method starts may be gone where the rest goes on, save [J]. *)
Lemma sacts_then {A B} (J : Env_ → list Action → Prop) (m : SIO A) (k : A → SIO B) :
  stable J → (∀ io tr, I io tr → J io tr) → sacts C I P m → (∀ a, sacts C J P (k a)) →
  sacts C I P (sbind m k).
Proof using Type.
  intros HJ HIJ Hm Hk s io tr Hs Ht. unfold sbind, bind, ret.
  destruct (Hm s io tr Hs Ht) as (l & s1 & r & -> & [Hs1 Ha1] & Hl). cbn.
  destruct r as [a|e]; [|by exists l, s1, (Err e)].
  destruct (Hk a s1 io (tr ++ l) Hs1 (HJ _ _ _ (HIJ _ _ Ht))) as (l' & s2 & r & -> & [Hs2 Ha2] & Hl').
  exists (l ++ l'), s2, r. rewrite app_assoc, allowed_app, <-Ha1. auto.
Qed.

Lemma sacts_bind {A B} (m : SIO A) (k : A → SIO B) :
  sacts C I P m → (∀ a, sacts C I P (k a)) → sacts C I P (sbind m k).
Proof using HI. by apply sacts_then. Qed.

(** A look at the files: the rest starts where it was taken. *)
Lemma sacts_peek {A B} (f : Fs → A) (k : A → SIO B) :
  (∀ a, sacts C (λ io t, I io t ∧ f (fs t) = a) P (k a)) → sacts C I P (sbind (call (peek fs f)) k).
Proof using Type. intros Hk s io tr Hs Ht. by apply Hk. Qed.

Lemma sacts_call {A} (m : IO A) : acts I P m → sacts C I P (call m).
Proof using Type.
  intros Hm s io tr Hs Ht. destruct (Hm io tr Ht) as (l & E & Hl). unfold call, attempt, bind, ret.
  destruct (m io tr) as [t r]. cbn in E. subst. by exists l, s, r.
Qed.

Lemma sacts_tried {A} (m : IO A) : acts I P m → sacts C I P (tried m).
Proof using Type. intros Hm. by apply sacts_call, acts_attempt. Qed.

Lemma sacts_weaken {A} (J : Env_ → list Action → Prop) (m : SIO A) :
  sacts C J P m → (∀ io t, I io t → J io t) → sacts C I P m.
Proof using Type. intros Hm HIJ s io tr Hs Ht. apply Hm; auto. Qed.

Lemma acts_publish_file target content :
  (∀ io t, I io t → ∀ post, P io (t ++ post) (AWrite (tmp_path target) content)
                    ∧ P io (t ++ post) (ARename (tmp_path target) target)) →
  acts I P (publish_file fs target content).
Proof using Type.
  intros H io tr Ht. destruct (publish_file_spec fs target content io tr) as (l & r & -> & Hl).
  exists l. split; [done|].
  assert (l `prefix_of` publication target content) as [k Hk].
  { destruct r; [by destruct Hl as [-> _]|by destruct Hl]. }
  assert (allowed (P io) tr (publication target content)) as Ha.
  { split; [|split; [|done]].
    - destruct (H io tr Ht []) as [Hw _]. by rewrite app_nil_r in Hw.
    - by destruct (H io tr Ht [AWrite (tmp_path target) content]) as [_ Hr]. }
  rewrite Hk in Ha. by apply allowed_app in Ha as [Ha _].
Qed.

Lemma acts_orelse (m : IO (result IoError unit)) what a :
  (∀ io tr, ∃ r, m io tr = (tr ++ [a], Ok r)) → (∀ io t, I io t → P io t a) → acts I P (orelse m what).
Proof using Type.
  intros Hm HP io tr Ht. unfold orelse, bind, lift. destruct (Hm io tr) as [r ->].
  exists [a]. cbn. auto.
Qed.
End methods.

(** ** What a turn may do *)

Section turn.
Context (fs : list Action → Fs) (from_json : string → result string Members).
Context (parse : string → result Error Declaration) (refusal_error : Refusal → Error).
Context {AP : Applier} (s0 : ConfSync) (g : Z).
(** Whether [.prev] may still be written. *)
Context (keeping : bool).
(** Whether the attempt may still be recorded. *)
Context (recording : bool).

(** The attempt is on disk. *)
Definition recorded (t : list Action) : Prop :=
  ∃ pre post, t = pre ++ AWrite (attempted_path (run_dir s0)) (format_gen g) :: post ∧
    f_write (fs pre) (attempted_path (run_dir s0)) (format_gen g) = Ok tt.

Definition vetted (t : list Action) (c : string) : Prop :=
  validate parse refusal_error c (me s0) = Ok tt ∨ f_read (fs t) (prev_path s0) = Ok c.

Definition may (t : list Action) (a : Action) : Prop :=
  (∃ d, a = AMkdir d) ∨ a = AWrite (attempted_path (run_dir s0)) (format_gen g) ∧ recording = true ∨
  recorded t ∧
  ((∃ c, a ∈ publication (ack_path (pmx s0) g (me s0)) c) ∨
   a = AWrite (committed_path (run_dir s0)) (format_gen g) ∨
   a = ASleep TICK_MS ∨ a = ARemove (ack_path (pmx s0) g (me s0)) ∨ a = ARun (status_argv s0) ∨
   a = asks ∨
   (∃ c, a = AWrite (prev_path s0) c ∧ f_read (fs t) (local_conf s0) = Ok c ∧ keeping = true) ∨
   (∃ c, a = AWrite (local_conf s0) c ∧ vetted t c)).

Definition R : Env_ → list Action → Prop := λ _ t, recorded t.
Definition M : Env_ → list Action → Action → Prop := λ _, may.

Lemma recorded_stable : stable R.
Proof using Type.
  intros io tr new (pre & post & -> & H). exists pre, (post ++ new). by rewrite <-app_assoc.
Qed.

Lemma cfg_eq s : cfg s = cfg s0 →
  pmx s = pmx s0 ∧ exe s = exe s0 ∧ me s = me s0 ∧ local_conf s = local_conf s0 ∧ run_dir s = run_dir s0.
Proof using Type. by intros [= -> -> -> -> ->]. Qed.

Lemma acts_write_ack s code :
  cfg s = cfg s0 → acts R M (write_ack fs s g code).
Proof using Type.
  intros (Hp & _ & Hm & _)%cfg_eq. unfold write_ack. rewrite Hp, Hm.
  apply acts_bind; [apply recorded_stable|..].
  - eapply acts_orelse; [intros; eexists; reflexivity|]. intros io t _. left. eauto.
  - intros _. apply acts_publish_file. intros io t Ht post.
    pose proof (recorded_stable io t post Ht) as Hr.
    split; right; right; (split; [done|]); left; exists (ack_text (me s0) code); [by left|right; by left].
Qed.

(** A method that reads its state: the state is named, and what it runs is judged. *)
Ltac method s Hs :=
  let io := fresh "io" in let tr := fresh "tr" in let Ht := fresh "Ht" in
  match goal with
  | |- sacts ?C ?I ?P _ =>
      intros s io tr Hs Ht; cbv beta;
      match goal with
      | |- context [?m s io tr = _] => refine ((_ : sacts C I P m) s io tr Hs Ht)
      end
  end; clear Ht tr io.

(** What the attempt on disk allows, where it is known to be there. *)
Ltac mine := right; right; split; [done|].

Lemma acts_set_committed s :
  cfg s = cfg s0 → acts R M (write_state fs (committed_path (run_dir s)) g).
Proof using Type.
  intros (_ & _ & _ & _ & Hd)%cfg_eq. unfold write_state. rewrite Hd.
  apply acts_bind; [apply recorded_stable|..].
  - destruct (parent _); [|apply acts_ret, recorded_stable].
    eapply acts_orelse; [intros; eexists; reflexivity|]. intros io t _. left. eauto.
  - intros _. eapply acts_orelse; [intros; eexists; reflexivity|]. intros io t Ht. mine. auto.
Qed.

Lemma sacts_set_committed : sacts (cfg s0) R M (set_committed fs g).
Proof using Type.
  unfold set_committed. method s Hs. apply sacts_bind; [apply recorded_stable|..].
  - by apply sacts_call, acts_set_committed.
  - intros _. by apply sacts_modify.
Qed.

Lemma sacts_reapply : sacts (cfg s0) R M (tried reapply).
Proof using Type.
  apply sacts_tried. intros io tr Ht. destruct (reapply_asks io tr) as [r ->].
  exists [asks]. split; [done|]. split; [|done]. mine. auto 10.
Qed.

Lemma sacts_revert reason : sacts (cfg s0) R M (revert fs g reason).
Proof using Type.
  unfold revert. method s Hs. pose proof (cfg_eq s Hs) as (Hp & _ & Hm & Hl & _).
  unfold prev_path. rewrite Hp, Hm, Hl. apply sacts_bind; [apply recorded_stable|..].
  { apply sacts_tried. intros io tr Ht. eexists [_]. split; [done|]. split; [|done]. mine. auto 10. }
  intros _. apply sacts_peek. intros prev.
  apply (sacts_then _ _ _ R); [apply recorded_stable|by intros ? ? []| |intros _; apply sacts_ret].
  destruct prev as [text|e]; [|apply sacts_ret].
  apply (sacts_then _ _ _ R); [apply recorded_stable|by intros ? ? []|..].
  - apply sacts_call. eapply acts_orelse; [intros; eexists; reflexivity|].
    intros io t [Ht Hr]. mine. do 7 right. exists text. split; [done|]. by right.
  - intros _. apply sacts_bind; [apply recorded_stable|apply sacts_reapply|intros _; apply sacts_ret].
Qed.

Lemma sacts_witness_polls n single code acked last :
  sacts (cfg s0) R M (witness_polls fs n single g code acked last).
Proof using Type.
  revert acked last. induction n as [|n IH]; intros acked last; cbn [witness_polls];
    method s Hs; [apply sacts_ret|].
  apply sacts_bind; [apply recorded_stable|..].
  { unfold try_ack. method s1 Hs1. destruct acked; [apply sacts_ret|].
    apply sacts_bind; [apply recorded_stable|by apply sacts_tried, acts_write_ack|].
    intros [[]|e]; apply sacts_ret. }
  intros [a l]. destruct (a && single).
  { apply sacts_bind; [apply recorded_stable|apply sacts_set_committed|intros _; apply sacts_ret]. }
  apply sacts_bind; [apply recorded_stable|..].
  { destruct a; [|apply sacts_ret]. apply sacts_call. intros io t _. exists []. by rewrite app_nil_r. }
  intros [p|].
  - apply sacts_bind; [apply recorded_stable|apply sacts_set_committed|intros _; apply sacts_ret].
  - apply sacts_bind; [apply recorded_stable| |intros _; apply IH].
    apply sacts_call. intros io t Ht. exists [ASleep TICK_MS]. split; [done|]. split; [|done]. mine. auto 10.
Qed.

Lemma sacts_look {A} (f : Fs → A) : sacts (cfg s0) R M (call (peek fs f)).
Proof using Type. apply sacts_call. intros io t _. exists []. by rewrite app_nil_r. Qed.

Lemma acts_member_count s : acts R M (member_count fs from_json s).
Proof using Type.
  intros io t _. exists []. rewrite app_nil_r. split; [|done].
  unfold member_count, probe, attempt, bind, peek, lift, ret, throw.
  destruct (f_read _ _) as [j|e]; [by destruct (parse_members _ _ _)|by destruct (is_not_found e)].
Qed.

Lemma sacts_witness : sacts (cfg s0) R M (witness fs from_json g).
Proof using Type.
  unfold witness. method s Hs. pose proof (cfg_eq s Hs) as (_ & He & _ & Hl & _).
  apply sacts_bind; [apply recorded_stable|..].
  { unfold status_argv. rewrite He, Hl. apply sacts_call. intros io t Ht. eexists [_].
    split; [done|]. split; [|done]. mine. auto 10. }
  intros o. cbv zeta. destruct (1 <? _); [apply sacts_revert|].
  apply sacts_bind; [apply recorded_stable|apply sacts_call, acts_member_count|]. intros n.
  apply sacts_bind; [apply recorded_stable|apply sacts_witness_polls|].
  intros [w|a l]; [apply sacts_ret|apply sacts_revert].
Qed.

Lemma sacts_identical : sacts (cfg s0) R M (identical fs g).
Proof using Type.
  unfold identical. method s Hs.
  apply sacts_bind; [apply recorded_stable|by apply sacts_tried, acts_write_ack|]. intros r.
  cbv zeta. apply sacts_bind; [apply recorded_stable|apply sacts_set_committed|intros _; apply sacts_ret].
Qed.

(** [local] is what the conf held when it was read. *)
Definition held (r : result IoError string) : option string :=
  match r with Ok t => Some t | Err _ => None end.

Lemma sacts_install text r :
  keeping = true → validate parse refusal_error text (me s0) = Ok tt →
  sacts (cfg s0) (λ io t, R io t ∧ f_read (fs t) (local_conf s0) = r) M (install fs from_json g text (held r)).
Proof using Type.
  intros Hb Hv. unfold install. method s Hs. pose proof (cfg_eq s Hs) as (_ & _ & _ & Hl & _).
  apply (sacts_then _ _ _ R); [apply recorded_stable|by intros ? ? []|..].
  { unfold keep_prev. destruct r as [cur|e]; cbn [held]; [|apply sacts_ret].
    method s1 Hs1. pose proof (cfg_eq s1 Hs1) as (_ & _ & _ & Hl1 & _). unfold prev_path. rewrite Hl1.
    apply sacts_call. eapply acts_orelse; [intros; eexists; reflexivity|].
    intros io t [Ht Hr]. mine. do 6 right. left. exists cur. done. }
  intros _. rewrite Hl. apply sacts_bind; [apply recorded_stable|..].
  { apply sacts_call. eapply acts_orelse; [intros; eexists; reflexivity|].
    intros io t Ht. mine. do 7 right. exists text. split; [done|]. by left. }
  intros _. apply sacts_bind; [apply recorded_stable|apply sacts_reapply|].
  intros [[]|e]; [apply sacts_witness|apply sacts_revert].
Qed.

(** The attempts that reached the disk, in order. *)
Fixpoint marks (p : string) (t new : list Action) : list string :=
  match new with
  | [] => []
  | a :: new' =>
      match a with
      | AWrite q c => if bool_decide (q = p) && is_ok (f_write (fs t) q c) then [c] else []
      | _ => []
      end ++ marks p (t ++ [a]) new'
  end.

Lemma marks_write p t c :
  marks p t [AWrite p c] = if is_ok (f_write (fs t) p c) then [c] else [].
Proof using Type. cbn. rewrite bool_decide_eq_true_2, app_nil_r by done. done. Qed.

Lemma set_attempted_spec s io tr :
  recording = true → cfg s = cfg s0 →
  ∃ new s' r, set_attempted fs g s io tr = (tr ++ new, Ok (s', r)) ∧ cfg s' = cfg s0 ∧
    allowed (may) tr new ∧
    match r with
    | Ok _ => recorded (tr ++ new) ∧ s' = set_attempted_to g s ∧
              marks (attempted_path (run_dir s0)) tr new = [format_gen g]
    | Err _ => s' = s ∧ marks (attempted_path (run_dir s0)) tr new = []
    end.
Proof using Type.
  intros Hr Hs. pose proof (cfg_eq s Hs) as (_ & _ & _ & _ & Hd).
  unfold set_attempted, sbind, call, attempt, write_state, modify. rewrite Hd.
  assert (∀ t, may t (AWrite (attempted_path (run_dir s0)) (format_gen g))) as Hw by (right; by left).
  assert (∀ t d, may t (AMkdir d)) as Hmk by (left; eauto).
  assert (∀ t, f_write (fs t) (attempted_path (run_dir s0)) (format_gen g) = Ok tt →
    recorded (t ++ [AWrite (attempted_path (run_dir s0)) (format_gen g)])) as Hrec by (intros t ?; by exists t, []).
  unfold bind, ret, orelse, fs_create_dir_all, fs_write, bind, lift.
  destruct (parent _) as [d|].
  - destruct (f_create_dir_all (fs tr) d) as [[]|e]; cbn [wrap].
    2: { eexists _, s, (Err _). repeat split; auto. }
    pose proof (marks_write (attempted_path (run_dir s0)) (tr ++ [AMkdir d]) (format_gen g)) as Hmw.
    destruct (f_write (fs (tr ++ _)) _ _) as [[]|e] eqn:E; cbn [wrap is_ok] in *; rewrite <-app_assoc;
      eexists _, _, _; (split; [reflexivity|]); repeat split; auto.
    rewrite app_assoc. by apply Hrec.
  - pose proof (marks_write (attempted_path (run_dir s0)) tr (format_gen g)) as Hmw.
    destruct (f_write (fs tr) _ _) as [[]|e] eqn:E; cbn [wrap is_ok] in *; eexists _, _, _; (split; [reflexivity|]);
      repeat split; auto.
Qed.

(** After the attempt: the vetting, and what follows from it. *)
Definition vet (s : ConfSync) : SIO Tick :=
  (published <- call (peek fs (λ f, f_read f (conf_path (pmx s)))) ;;
   match published with
   | Err e => sret (Refused g (cannot "read" (conf_path (pmx s)) e))
   | Ok text =>
       match validate parse refusal_error text (me s) with
       | Err e => sret (Refused g (display e))
       | Ok _ =>
           local <- call (peek fs (λ f, f_read f (local_conf s))) ;;
           let local := match local with Ok t => Some t | Err _ => None end in
           if bool_decide (local = Some text) then identical fs g else install fs from_json g text local
       end
   end)%sync.

Lemma handle_eq s io tr :
  handle_new_generation fs from_json parse refusal_error g s io tr =
  sbind (set_attempted fs g) (λ _, vet s) s io tr.
Proof using Type. done. Qed.

Lemma sacts_vet s : keeping = true → cfg s = cfg s0 → sacts (cfg s0) R M (vet s).
Proof using Type.
  intros Hb Hs. pose proof (cfg_eq s Hs) as (_ & _ & Hm & Hl & _). unfold vet. rewrite Hm, Hl.
  apply sacts_bind; [apply recorded_stable|apply sacts_look|]. intros [text|e]; [|apply sacts_ret].
  destruct (validate _ _ _ _) as [[]|e] eqn:Hv; [|apply sacts_ret].
  apply sacts_peek. intros local. cbv zeta. destruct (bool_decide _).
  - eapply sacts_weaken; [apply sacts_identical|]. by intros ? ? [].
  - by apply sacts_install.
Qed.

Lemma handle_may s io tr :
  keeping = true → recording = true → cfg s = cfg s0 →
  ∃ new s' r, handle_new_generation fs from_json parse refusal_error g s io tr = (tr ++ new, Ok (s', r)) ∧
    cfg s' = cfg s0 ∧ allowed may tr new.
Proof using Type.
  intros Hb Hrc Hs. rewrite handle_eq. unfold sbind, bind, ret.
  destruct (set_attempted_spec s io tr Hrc Hs) as (l & s1 & r & -> & Hs1 & Hl & Hr). cbn.
  destruct r as [[]|e]; [|by exists l, s1, (Err e)]. destruct Hr as [Hr _].
  destruct (sacts_vet s Hb Hs s1 io (tr ++ l) Hs1 Hr) as (l' & s2 & r & -> & [Hs2 _] & Hl').
  exists (l ++ l'), s2, r. rewrite app_assoc, allowed_app. auto.
Qed.
End turn.

Section turns.
Context (fs : list Action → Fs) (from_json : string → result string Members).
Context (parse : string → result Error Declaration) (refusal_error : Refusal → Error).
Context {AP : Applier}.
Local Definition tick_ := tick fs from_json parse refusal_error.

(** A turn does nothing, or it handles a generation that is new to it. *)
Lemma tick_cases s io tr :
  (∃ r, tick_ s io tr = (tr, Ok (s, r)) ∧
     ∀ t, r = Ok t → match t with Refused _ _ | Committed _ _ _ | Reverted _ _ => False | _ => True end) ∨
  ∃ g, counter_in (fs tr) (gen_path (pmx s)) = Ok g ∧ committed s < g ∧ g ≠ attempted s ∧
    tick_ s io tr = handle_new_generation fs from_json parse refusal_error g s io tr.
Proof using Type.
  unfold tick_, tick.
  pose proof (quorate_quiet fs (pmx s) io tr) as Eq.
  destruct (quorate fs (pmx s) io tr) as [t q] eqn:Hq; cbn in Eq; subst t.
  rewrite (sbind_call _ _ _ _ _ _ _ Hq). destruct q as [q|e].
  2: { left. exists (Err e). split; [done|]. by intros ? [=]. }
  destruct q; cbn [negb]; [|left; exists (Ok NotQuorate); split; [done|]; by intros ? [= <-]].
  rewrite (sbind_call _ _ _ _ _ _ _ (read_counter_spec fs (gen_path (pmx s)) io tr)).
  destruct (counter_in _ _) as [g|e].
  2: { left. exists (Err e). split; [done|]. by intros ? [=]. }
  destruct (g =? committed s) eqn:E1; [left; eexists (Ok Idle); split; [done|]; by intros ? [= <-]|].
  destruct (g <? committed s) eqn:E2; [left; eexists (Ok (GenRegression _ _)); split; [done|]; by intros ? [= <-]|].
  destruct (g =? attempted s) eqn:E3; [left; eexists (Ok (AlreadyAttempted _)); split; [done|]; by intros ? [= <-]|].
  split_bools. right. exists g. repeat split; [lia..].
Qed.

(** *** What a commit rests on *)

Lemma write_state_Ok p g io t tr' :
  write_state fs p g io t = (tr', Ok tt) →
  ∃ mk, tr' = (t ++ mk) ++ [AWrite p (format_gen g)] ∧ Forall (λ a, ∃ d, a = AMkdir d) mk ∧
    f_write (fs (t ++ mk)) p (format_gen g) = Ok tt.
Proof using Type.
  unfold write_state. intros (t1 & [] & H1 & H2)%bind_Ok.
  assert (∃ mk, t1 = t ++ mk ∧ Forall (λ a, ∃ d, a = AMkdir d) mk) as (mk & -> & Hmk).
  { destruct (parent p) as [d|].
    - unfold orelse, fs_create_dir_all, bind, lift in H1. injection H1 as <- _.
      exists [AMkdir d]. split; [done|]. constructor; [eauto|constructor].
    - injection H1 as <-. exists []. by rewrite app_nil_r. }
  exists mk. unfold orelse, fs_write, bind, lift, wrap in H2.
  destruct (f_write _ _ _) as [[]|e]; [|done]. by injection H2 as <-.
Qed.

Lemma set_committed_Ok g s io t tr' s' :
  set_committed fs g s io t = (tr', Ok (s', Ok tt)) →
  s' = set_committed_to g s ∧ write_state fs (committed_path (run_dir s)) g io t = (tr', Ok tt).
Proof using Type.
  unfold set_committed. intros (t1 & s1 & [] & H1 & H2)%sbind_Ok.
  apply call_Ok in H1 as [-> H1]. injection H2 as <- <-. done.
Qed.

Lemma write_ack_spec s g code io tr :
  ∃ new r, write_ack fs s g code io tr = (tr ++ new, r) ∧
    (r = Ok tt → ∃ ta, tr `prefix_of` ta ∧ published fs ta (ack_path (pmx s) g (me s)) (ack_text (me s) code) ∧
       tr ++ new = ta ++ publication (ack_path (pmx s) g (me s)) (ack_text (me s) code)).
Proof using Type.
  unfold write_ack. unfold bind at 1.
  destruct (orelse_create_dir_all fs (acks_dir (pmx s) g) (cannot "create" (acks_dir (pmx s) g)) io tr) as [r ->].
  destruct r as [[]|e]; [|eexists _, _; split; [done|]; by intros [=]].
  destruct (publish_file_spec fs (ack_path (pmx s) g (me s)) (ack_text (me s) code) io
    (tr ++ [AMkdir (acks_dir (pmx s) g)])) as (l & r & -> & Hl).
  rewrite <-app_assoc. eexists _, r. split; [done|]. intros ->. destruct Hl as [-> Hl].
  exists (tr ++ [AMkdir (acks_dir (pmx s) g)]). split; [by eexists|]. by rewrite <-app_assoc.
Qed.

(** The own ack is in place, its publication between [tr] and [t]. *)
Definition acked_between (s : ConfSync) (g code : Z) (tr t : list Action) : Prop :=
  ∃ ta, let p := ack_path (pmx s) g (me s) in let c := ack_text (me s) code in
    tr `prefix_of` ta ∧ published fs ta p c ∧ ta ++ publication p c `prefix_of` t.

Lemma acked_between_mono s g code tr tr1 t1 t :
  tr `prefix_of` tr1 → t1 `prefix_of` t → acked_between s g code tr1 t1 → acked_between s g code tr t.
Proof using Type. intros H1 H2 (ta & Ha & Hp & Ht). exists ta. repeat split; [by etrans|apply Hp..|by etrans]. Qed.

Lemma try_ack_Ok s g code acked last io tr tr' s' a l :
  try_ack fs g code acked last s io tr = (tr', Ok (s', Ok (a, l))) →
  s' = s ∧ tr `prefix_of` tr' ∧ (a = true → acked = true ∨ acked_between s g code tr tr').
Proof using Type.
  unfold try_ack. destruct acked.
  { intros [= <- <- <- <-]. repeat split; auto. }
  intros (t1 & s1 & r & H1 & H2)%sbind_Ok. apply tried_Ok in H1 as [-> H1].
  destruct (write_ack_spec s g code io tr) as (new & r' & E & Hr). rewrite E in H1. injection H1 as <- <-.
  destruct r' as [[]|e]; injection H2 as <- <- <- <-; (split; [done|]; split; [by eexists|]); [|done].
  intros _. right. destruct (Hr eq_refl) as (ta & Ha & Hp & Ht). exists ta. by rewrite Ht.
Qed.

(** Why a poll ended: nobody to ask, or a peer. *)
Definition seconded (s : ConfSync) (g : Z) (single : bool) (t : list Action) (w : string) : Prop :=
  single = true ∧ w = no_peers ∨
  ∃ p, peer_in (fs t) s g = Some p ∧ w = ("witnessed by " ++ p)%string.

Lemma witness_polls_Done n single g code acked last s io tr tr' s' w :
  witness_polls fs n single g code acked last s io tr = (tr', Ok (s', Ok (Done w))) →
  ∃ t, tr `prefix_of` t ∧ (acked = true ∨ acked_between s g code tr t) ∧ seconded s g single t w ∧
    set_committed fs g s io t = (tr', Ok (s', Ok tt)).
Proof using Type.
  revert acked last tr. induction n as [|n IH]; intros acked last tr; cbn [witness_polls]; [by intros [=]|].
  intros (t1 & s1 & [a l] & H1 & H2)%sbind_Ok.
  apply try_ack_Ok in H1 as (-> & Hp & Ha).
  destruct (a && single) eqn:Eas.
  { apply andb_true_iff in Eas as [-> ->]. apply sbind_Ok in H2 as (t2 & s2 & [] & H2 & [= <- <- <-]).
    exists t1. split; [done|]. split; [by apply Ha|]. split; [by left|done]. }
  apply sbind_Ok in H2 as (t2 & s2 & peer & H2 & H3).
  assert (s2 = s ∧ t2 = t1 ∧ (is_Some peer → a = true ∧ peer = peer_in (fs t1) s g)) as (-> & -> & Hpeer).
  { destruct a; [|injection H2 as <- <- <-; split; [done|]; split; [done|]; by intros []].
    by apply call_Ok in H2 as [-> [= <- <-]]. }
  destruct peer as [p|].
  - apply sbind_Ok in H3 as (t3 & s3 & [] & H3 & [= <- <- <-]).
    destruct (Hpeer ltac:(eauto)) as [-> Ep]. exists t1. split; [done|]. split; [by apply Ha|].
    split; [|done]. right. exists p. by rewrite <-Ep.
  - apply sbind_Ok in H3 as (t3 & s3 & [] & H3 & H4). apply call_Ok in H3 as [-> [= <-]].
    destruct (IH a l _ H4) as (t & Ht & Hat & Hs & Hc).
    assert (t1 `prefix_of` t) as H1t by (etrans; [by apply prefix_app_r|exact Ht]).
    exists t. split; [by etrans|]. split; [|done].
    destruct Hat as [->|Hat].
    2: { right. apply (acked_between_mono _ _ _ _ (t1 ++ [ASleep TICK_MS]) t); [|done|done].
         etrans; [exact Hp|by apply prefix_app_r]. }
    destruct (Ha eq_refl) as [->|Hb]; [by left|]. right. by apply (acked_between_mono _ _ _ _ tr t1).
Qed.

Lemma revert_Ok g reason s io tr tr' s' t :
  revert fs g reason s io tr = (tr', Ok (s', Ok t)) → t = Reverted g reason.
Proof using Type.
  unfold revert. intros (t1 & s1 & a & _ & H)%sbind_Ok. apply sbind_Ok in H as (t2 & s2 & p & _ & H).
  apply sbind_Ok in H as (t3 & s3 & [] & _ & H). by injection H as _ _ <-.
Qed.

Lemma member_count_quiet s io tr tr' n : member_count fs from_json s io tr = (tr', Ok n) → tr' = tr.
Proof using Type.
  unfold member_count, probe, attempt, bind, peek, lift, ret, throw.
  destruct (f_read _ _) as [j|e]; [destruct (parse_members _ _ _)|destruct (is_not_found e)]; by intros [= <- _].
Qed.

(** The argument for a commit, from the status that was asked for to the counter on disk. *)
Definition witnessed (s : ConfSync) (g : Z) (w : string) (io : Env_) (t1 tr' : list Action) : Prop :=
  ∃ o n t2, h_run (e_host (io t1)) (status_argv s) = Ok o ∧ Sys.status o ≤ 1 ∧
    member_count fs from_json s io (t1 ++ [ARun (status_argv s)]) = (t1 ++ [ARun (status_argv s)], Ok n) ∧
    acked_between s g (Sys.status o) t1 t2 ∧ seconded s g (n =? 1) t2 w ∧
    write_state fs (committed_path (run_dir s)) g io t2 = (tr', Ok tt).

Lemma witness_Committed g s io tr tr' s' g' a w :
  witness fs from_json g s io tr = (tr', Ok (s', Ok (Committed g' a w))) →
  g' = g ∧ a = true ∧ s' = set_committed_to g s ∧ witnessed s g w io tr tr'.
Proof using Type.
  unfold witness. intros (t1 & s1 & o & H1 & H2)%sbind_Ok.
  apply call_Ok in H1 as [-> H1]. unfold exec in H1. injection H1 as <- Ho. cbv zeta in H2.
  destruct (1 <? _) eqn:E1; [by apply revert_Ok in H2|].
  apply sbind_Ok in H2 as (t2 & s2 & n & H2 & H3). apply call_Ok in H2 as [-> H2].
  pose proof (member_count_quiet _ _ _ _ _ H2). subst t2.
  apply sbind_Ok in H3 as (t3 & s3 & p & H3 & H4).
  destruct p as [w'|x l]; [|by apply revert_Ok in H4]. injection H4 as <- <- <- <- <-.
  apply witness_polls_Done in H3 as (t & Ht & Ha & Hs & Hc).
  apply set_committed_Ok in Hc as [-> Hc]. repeat split.
  exists o, n, t. destruct Ha as [?|Ha]; [done|]. split_bools.
  split; [done|]. split; [lia|]. split; [done|]. split; [|done].
  eapply acked_between_mono; [..|exact Ha]; [by apply prefix_app_r|done].
Qed.

Lemma orelse_Ok (m : IO (result IoError unit)) what x io tr tr' :
  (∀ io tr, ∃ r, m io tr = (tr ++ [x], Ok r)) → orelse m what io tr = (tr', Ok tt) → tr' = tr ++ [x].
Proof using Type.
  intros Hm. unfold orelse, bind, lift. destruct (Hm io tr) as [r ->]. by intros [= <- _].
Qed.

Lemma keep_prev_Ok local s io tr tr' s' :
  keep_prev fs local s io tr = (tr', Ok (s', Ok tt)) → s' = s ∧ tr `prefix_of` tr'.
Proof using Type.
  unfold keep_prev. destruct local as [c|]; [|by intros [= <- <-]].
  intros H. apply call_Ok in H as [-> H]. split; [done|].
  apply (orelse_Ok _ _ (AWrite (prev_path s) c)) in H; [subst tr'; by apply prefix_app_r|].
  intros; eexists; reflexivity.
Qed.

Lemma install_Committed g text local s io tr tr' s' g' a w :
  install fs from_json g text local s io tr = (tr', Ok (s', Ok (Committed g' a w))) →
  g' = g ∧ a = true ∧ s' = set_committed_to g s ∧ ∃ t1, tr `prefix_of` t1 ∧ witnessed s g w io t1 tr'.
Proof using Type.
  unfold install. intros (t1 & s1 & [] & H1 & H2)%sbind_Ok. apply keep_prev_Ok in H1 as [-> Hp].
  apply sbind_Ok in H2 as (t2 & s2 & [] & H2 & H3). apply call_Ok in H2 as [-> H2].
  apply (orelse_Ok _ _ (AWrite (local_conf s) text)) in H2; [subst t2|intros; eexists; reflexivity].
  apply sbind_Ok in H3 as (t3 & s3 & r & H3 & H4). apply tried_Ok in H3 as [-> H3].
  destruct (reapply_asks io (t1 ++ [AWrite (local_conf s) text])) as [r' E]. rewrite E in H3. injection H3 as <- <-.
  destruct r' as [[]|e]; [|by apply revert_Ok in H4].
  apply witness_Committed in H4 as (-> & -> & -> & Hw). repeat split.
  eexists. split; [|exact Hw]. etrans; [exact Hp|]. rewrite <-app_assoc. by apply prefix_app_r.
Qed.

(** A turn that answers after its attempt was recorded. *)
Lemma handle_Ok g s io tr tr' s' t :
  handle_new_generation fs from_json parse refusal_error g s io tr = (tr', Ok (s', Ok t)) →
  ∃ t0, tr `prefix_of` t0 ∧ recorded fs s g t0 ∧
    vet fs from_json parse refusal_error g s (set_attempted_to g s) io t0 = (tr', Ok (s', Ok t)).
Proof using Type.
  rewrite handle_eq. intros (t0 & s1 & [] & H1 & H2)%sbind_Ok.
  destruct (set_attempted_spec fs parse refusal_error s g true true s io tr eq_refl eq_refl) as (l & s1' & r & E & _ & _ & Hr).
  rewrite E in H1. injection H1 as <- <- ->. destruct Hr as (Hr & -> & _).
  eexists. split; [by apply prefix_app_r|done].
Qed.

Lemma tick_Ok s io tr tr' s' t :
  tick_ s io tr = (tr', Ok (s', Ok t)) →
  match t with
  | Refused g _ | Committed g _ _ | Reverted g _ =>
      ∃ g t0, counter_in (fs tr) (gen_path (pmx s)) = Ok g ∧ committed s < g ∧ g ≠ attempted s ∧
        tr `prefix_of` t0 ∧ recorded fs s g t0 ∧
        vet fs from_json parse refusal_error g s (set_attempted_to g s) io t0 = (tr', Ok (s', Ok t))
  | _ => True
  end.
Proof using Type.
  intros H. destruct (tick_cases s io tr) as [(r & E & Hr)|(g & Hg & H1 & H2 & E)]; rewrite E in H.
  - injection H as _ _ ->. specialize (Hr t eq_refl). by destruct t.
  - apply handle_Ok in H as (t0 & Ht & Hrec & Hv). destruct t; eauto 10.
Qed.

(** C2. C: a commit was witnessed. A turn that says it applied and committed a generation had that
    attempt on disk first; the status it then asked for answered at most 1; after that its own ack
    was put in place; and, with the ack standing, either the cluster has one member or another
    member's ack of that generation was there, at most 60 s old. The last thing such a turn does
    is to record the commit. *)
Theorem committed_was_witnessed s io tr tr' s' g w :
  tick_ s io tr = (tr', Ok (s', Ok (Committed g true w))) →
  s' = set_committed_to g (set_attempted_to g s) ∧
  ∃ t0 t1, tr `prefix_of` t0 ∧ recorded fs s g t0 ∧ t0 `prefix_of` t1 ∧ witnessed s g w io t1 tr'.
Proof using Type.
  intros (g1 & t0 & _ & _ & _ & Ht & Hrec & Hv)%tick_Ok.
  unfold vet in Hv. apply sbind_Ok in Hv as (t2 & s2 & pub & H1 & H2). apply call_Ok in H1 as [-> [= <- <-]].
  destruct (f_read _ _) as [text|e]; [|by injection H2].
  destruct (validate _ _ _ _) as [[]|e]; [|by injection H2].
  apply sbind_Ok in H2 as (t3 & s3 & loc & H1 & H2). apply call_Ok in H1 as [-> [= <- <-]].
  cbv zeta in H2. destruct (bool_decide _).
  - unfold identical in H2. apply sbind_Ok in H2 as (t4 & s4 & r & _ & H2). cbv zeta in H2.
    apply sbind_Ok in H2 as (t5 & s5 & [] & _ & H2). by injection H2.
  - apply install_Committed in H2 as (-> & _ & -> & t1 & Ht1 & Hw). split; [done|]. eauto 10.
Qed.

(** What [seconded] and [peer_in] come to. *)
Lemma peer_in_spec f s g p :
  peer_in f s g = Some p →
  ∃ names age, f_dir f (acks_dir (pmx s) g) = Ok names ∧ p ∈ names ∧ p ≠ me s ∧
    starts_with "." p = false ∧ age_of f (join (acks_dir (pmx s) g) p) = Some age ∧ age ≤ 60000000000.
Proof using Type.
  unfold peer_in. destruct (f_dir _ _) as [names|]; [|done]. intros H.
  apply List.find_some in H as [Hin Hp]. apply list_elem_of_In, elem_of_bfilter in Hin as [Hf Hin].
  unfold is_peer in Hp. apply andb_true_iff in Hp as [H1 H2]. unfold fresh in Hf.
  destruct (age_of _ _) as [age|] eqn:Ea; [|done]. cbn in Hf. exists names, age.
  apply negb_true_iff in H1, H2. apply String.eqb_neq in H2. unfold WINDOW, seconds in Hf. split_bools.
  repeat split; auto; lia.
Qed.

(** *** What a revert leaves *)

Definition restores (s : ConfSync) (g : Z) (t : list Action) (text : string) : list Action :=
  [ARemove (ack_path (pmx s) g (me s)); AWrite (local_conf s) text; asks].

Lemma revert_spec g reason s io tr tr' s' t :
  revert fs g reason s io tr = (tr', Ok (s', Ok t)) →
  s' = s ∧ let t1 := tr ++ [ARemove (ack_path (pmx s) g (me s))] in
  match f_read (fs t1) (prev_path s) with
  | Ok text => tr' = tr ++ restores s g tr text ∧ f_write (fs t1) (local_conf s) text = Ok tt
  | Err _ => tr' = t1
  end.
Proof using Type.
  unfold revert. intros (t1 & s1 & a & H1 & H2)%sbind_Ok. apply tried_Ok in H1 as [-> [= <- _]].
  apply sbind_Ok in H2 as (t2 & s2 & p & H1 & H2). apply call_Ok in H1 as [-> [= <- <-]].
  apply sbind_Ok in H2 as (t3 & s3 & [] & H1 & [= <- <- <-]).
  destruct (f_read _ _) as [text|e].
  2: { by injection H1 as <- <-. }
  apply sbind_Ok in H1 as (t4 & s4 & [] & H1 & H2). apply call_Ok in H1 as [-> H1].
  unfold orelse, fs_write, bind, lift, wrap in H1. destruct (f_write _ _ _) as [[]|e]; [|done].
  injection H1 as <-. apply sbind_Ok in H2 as (t5 & s5 & r & H2 & [= <- <-]).
  apply tried_Ok in H2 as [-> H2].
  destruct (reapply_asks io ((tr ++ [ARemove (ack_path (pmx s) g (me s))]) ++ [AWrite (local_conf s) text])) as [r' E].
  rewrite E in H2. injection H2 as <- _. unfold restores. by rewrite <-!app_assoc.
Qed.

(** An action names [p]. *)
Definition names (p : string) (a : Action) : Prop :=
  match a with
  | AWrite q _ | ARemove q => q = p
  | ARename q r => q = p ∨ r = p
  | _ => False
  end.

(** Nothing but the file's own writes, renames and removals changes what it reads as. *)
Definition own_file (p : string) : Prop :=
  ∀ t c mid, f_write (fs t) p c = Ok tt → Forall (λ a, ¬ names p a) mid →
    f_read (fs (t ++ AWrite p c :: mid)) p = Ok c.

(** The other files a turn writes are not [.prev]. *)
Definition prev_apart (s : ConfSync) (g : Z) : Prop :=
  let ack := ack_path (pmx s) g (me s) in
  attempted_path (run_dir s) ≠ prev_path s ∧ committed_path (run_dir s) ≠ prev_path s ∧
  ack ≠ prev_path s ∧ tmp_path ack ≠ prev_path s ∧ ¬ names (prev_path s) asks.

Lemma prev_is_not_conf s : local_conf s ≠ prev_path s.
Proof using Type.
  unfold prev_path. intros E. apply (f_equal String.length) in E. rewrite str_length_app in E.
  cbn in E. lia.
Qed.

Lemma may_not_prev s g t a :
  prev_apart s g → may fs parse refusal_error s g false false t a → ¬ names (prev_path s) a.
Proof using Type.
  clear from_json. intros (H1 & H2 & H3 & H4 & H5).
  intros [[d ->]|[[-> ?]|[_ [[c Hc]|[->|[->|[->|[->|[->|[(c & _ & _ & ?)|(c & -> & _)]]]]]]]]]]; try done; cbn; auto.
  - apply elem_of_cons in Hc as [->|Hc]; [done|]. apply list_elem_of_singleton in Hc as ->. cbn. tauto.
  - apply prev_is_not_conf.
Qed.

Lemma allowed_not_prev s g tr new :
  prev_apart s g → allowed (may fs parse refusal_error s g false false) tr new → Forall (λ a, ¬ names (prev_path s) a) new.
Proof using Type.
  intros Ha. revert tr. induction new as [|a new IH]; intros tr; cbn; [constructor|].
  intros [H1 H2]. constructor; [by eapply may_not_prev|by eapply IH].
Qed.

Lemma witness_polls_Still n single g code acked last s io tr tr' s' a l :
  witness_polls fs n single g code acked last s io tr = (tr', Ok (s', Ok (Still a l))) → s' = s.
Proof using Type.
  revert acked last tr. induction n as [|n IH]; intros acked last tr; cbn [witness_polls]; [by intros [=]|].
  intros (t1 & s1 & [x y] & H1 & H2)%sbind_Ok. apply try_ack_Ok in H1 as (-> & _ & _).
  destruct (x && single).
  { apply sbind_Ok in H2 as (t2 & s2 & [] & _ & H2). by injection H2. }
  apply sbind_Ok in H2 as (t2 & s2 & peer & H2 & H3).
  assert (s2 = s) as ->.
  { destruct x; [by apply call_Ok in H2 as [-> _]|by injection H2]. }
  destruct peer as [p|].
  - apply sbind_Ok in H3 as (t3 & s3 & [] & _ & H3). by injection H3.
  - apply sbind_Ok in H3 as (t3 & s3 & [] & H3 & H4). apply call_Ok in H3 as [-> _]. by eapply IH.
Qed.

Definition free (s : ConfSync) (g : Z) : list Action → Action → Prop := may fs parse refusal_error s g false false.

Lemma witness_Reverted s0 g s io tr tr' s' g' r :
  cfg s = cfg s0 → recorded fs s0 g tr →
  witness fs from_json g s io tr = (tr', Ok (s', Ok (Reverted g' r))) →
  ∃ mid, allowed (free s0 g) tr mid ∧ revert fs g r s io (tr ++ mid) = (tr', Ok (s', Ok (Reverted g' r))).
Proof using Type.
  intros Hs Hrec. unfold witness. intros (t1 & s1 & o & H1 & H2)%sbind_Ok.
  apply call_Ok in H1 as [-> H1]. unfold exec in H1. injection H1 as <- Ho. cbv zeta in H2.
  assert (allowed (free s0 g) tr [ARun (status_argv s)]) as Ha.
  { pose proof (cfg_eq s0 s Hs) as (_ & He & _ & Hl & _). split; [|done]. right; right. split; [done|].
    unfold status_argv. rewrite He, Hl. auto 10. }
  assert (∀ reason t, revert fs g reason s io t = (tr', Ok (s', Ok (Reverted g' r))) → reason = r) as Hr.
  { intros reason t H. apply revert_Ok in H. by injection H as _ ->. }
  destruct (1 <? _); [eexists; split; [exact Ha|]; by rewrite (Hr _ _ H2) in H2|].
  apply sbind_Ok in H2 as (t2 & s2 & n & H2 & H3). apply call_Ok in H2 as [-> H2].
  pose proof (member_count_quiet _ _ _ _ _ H2). subst t2.
  apply sbind_Ok in H3 as (t3 & s3 & p & H3 & H4).
  destruct p as [w|x l]; [by injection H4|].
  pose proof (witness_polls_Still _ _ _ _ _ _ _ _ _ _ _ _ _ H3) as ->.
  pose proof (recorded_stable fs s0 g io tr [ARun (status_argv s)] Hrec) as Hrec'.
  destruct (sacts_witness_polls fs parse refusal_error s0 g false false WITNESS_POLLS (n =? 1) (Sys.status o) false EmptyString
    s io (tr ++ [ARun (status_argv s)]) Hs Hrec') as (l' & s2 & r2 & E & _ & Hl').
  rewrite E in H3. injection H3 as <- _ _. exists ([ARun (status_argv s)] ++ l').
  rewrite app_assoc, allowed_app. rewrite (Hr _ _ H4) in H4. auto.
Qed.

(** Where an installation keeps the old conf. *)
Definition kept (s : ConfSync) (local : option string) (t t' : list Action) : Prop :=
  match local with
  | Some c => t' = t ++ [AWrite (prev_path s) c] ∧ f_write (fs t) (prev_path s) c = Ok tt
  | None => t' = t
  end.

Lemma install_Reverted s0 g text local s io tr tr' s' g' r :
  cfg s = cfg s0 → recorded fs s0 g tr → validate parse refusal_error text (me s0) = Ok tt →
  install fs from_json g text local s io tr = (tr', Ok (s', Ok (Reverted g' r))) →
  ∃ t0 mid, kept s local tr t0 ∧ allowed (free s0 g) t0 mid ∧
    revert fs g r s io (t0 ++ mid) = (tr', Ok (s', Ok (Reverted g' r))).
Proof using Type.
  intros Hs Hrec Hv. unfold install. intros (t1 & s1 & [] & H1 & H2)%sbind_Ok.
  assert (s1 = s ∧ kept s local tr t1 ∧ recorded fs s0 g t1) as (-> & Hk & Hr1).
  { unfold keep_prev in H1. destruct local as [c|]; [|by injection H1 as <- <-].
    apply call_Ok in H1 as [-> H1]. unfold orelse, fs_write, bind, lift, wrap in H1.
    destruct (f_write _ _ _) as [[]|e] eqn:Ew; [|done]. injection H1 as <-.
    repeat split; [done|by apply (recorded_stable fs s0 g io)]. }
  clear H1. pose proof (cfg_eq s0 s Hs) as (_ & _ & _ & Hl & _).
  apply sbind_Ok in H2 as (t2 & s2 & [] & H2 & H3). apply call_Ok in H2 as [-> H2].
  apply (orelse_Ok _ _ (AWrite (local_conf s) text)) in H2; [subst t2|intros; eexists; reflexivity].
  apply sbind_Ok in H3 as (t3 & s3 & r' & H3 & H4). apply tried_Ok in H3 as [-> H3].
  set (t2 := t1 ++ [AWrite (local_conf s) text]) in *.
  assert (recorded fs s0 g t2) as Hr2 by (by apply (recorded_stable fs s0 g io)).
  destruct (reapply_asks io t2) as [r2 E]. rewrite E in H3. injection H3 as <- <-.
  assert (allowed (free s0 g) t1 [AWrite (local_conf s) text; asks]) as Ha.
  { split; [|split; [|done]]; (right; right; split; [done|]); [|auto 10].
    rewrite Hl. do 7 right. exists text. split; [done|]. by left. }
  destruct r2 as [[]|e].
  - apply (witness_Reverted s0) in H4 as (mid & Hm & H4); [|done|by apply (recorded_stable fs s0 g io)].
    exists t1, ([AWrite (local_conf s) text; asks] ++ mid). subst t2.
    rewrite allowed_app, !app_assoc in *. rewrite <-!app_assoc in *. auto.
  - exists t1, [AWrite (local_conf s) text; asks]. subst t2. rewrite <-app_assoc in H4.
    pose proof (revert_Ok _ _ _ _ _ _ _ _ H4) as Er. injection Er as _ ->. auto.
Qed.

(** C19. C: a revert restores. Where the conf could be read before the new one was installed, a turn
    that says it reverted ends by retracting its ack, putting exactly the old text back, and
    asking for it to be applied; the generation stays attempted and the commit stays what it
    was. [.prev] is taken to be written by nobody else. *)
Theorem revert_restores s io tr tr' s' g r :
  own_file (prev_path s) → prev_apart s g →
  tick_ s io tr = (tr', Ok (s', Ok (Reverted g r))) →
  s' = set_attempted_to g s ∧
  ∃ t0, tr `prefix_of` t0 ∧ recorded fs s g t0 ∧
    ∀ old, f_read (fs t0) (local_conf s) = Ok old →
      ∃ t, t0 `prefix_of` t ∧ tr' = t ++ restores s g t old ∧
        f_write (fs (t ++ [ARemove (ack_path (pmx s) g (me s))])) (local_conf s) old = Ok tt.
Proof using Type.
  intros Hown Hap (g1 & t0 & _ & _ & _ & Ht & Hrec & Hv)%tick_Ok.
  unfold vet in Hv. apply sbind_Ok in Hv as (t2 & s2 & pub & H1 & H2). apply call_Ok in H1 as [-> [= <- <-]].
  destruct (f_read _ _) as [text|e]; [|by injection H2].
  destruct (validate _ _ _ _) as [[]|e] eqn:Hval; [|by injection H2].
  apply sbind_Ok in H2 as (t3 & s3 & loc & H1 & H2). apply call_Ok in H1 as [-> [= <- <-]].
  cbv zeta in H2. destruct (bool_decide _).
  { unfold identical in H2. apply sbind_Ok in H2 as (t4 & s4 & x & _ & H2). cbv zeta in H2.
    apply sbind_Ok in H2 as (t5 & s5 & [] & _ & H2). by injection H2. }
  apply (install_Reverted s) in H2 as (t1 & mid & Hk & Hm & H2); [|done..].
  pose proof (revert_Ok _ _ _ _ _ _ _ _ H2) as Er. injection Er as <-.
  apply revert_spec in H2 as [-> H2]. cbv zeta in H2. split; [done|].
  exists t0. split; [done|]. split; [done|]. intros old Hold. rewrite Hold in Hk. destruct Hk as [-> Hw].
  assert (f_read (fs (((t0 ++ [AWrite (prev_path s) old]) ++ mid) ++ [ARemove (ack_path (pmx s) g (me s))])) (prev_path s) = Ok old) as E.
  { rewrite <-!app_assoc. apply Hown; [done|]. apply list.Forall_app. split; [by eapply allowed_not_prev|].
    constructor; [|constructor]. by destruct Hap as (_ & _ & ? & _). }
  exists ((t0 ++ [AWrite (prev_path s) old]) ++ mid).
  change (prev_path (set_attempted_to g s)) with (prev_path s) in H2.
  change (ack_path _ g _) with (ack_path (pmx s) g (me s)) in H2.
  rewrite E in H2. destruct H2 as [-> Hw2]. split; [rewrite <-!app_assoc; by apply prefix_app_r|]. auto.
Qed.

(** *** Once *)

Lemma marks_app p t l1 l2 : marks fs p t (l1 ++ l2) = marks fs p t l1 ++ marks fs p (t ++ l1) l2.
Proof using Type.
  revert t. induction l1 as [|a l1 IH]; intros t; cbn; [by rewrite app_nil_r|].
  rewrite IH, <-!app_assoc. done.
Qed.

Lemma marks_none p t new : Forall (λ a, ∀ c, a ≠ AWrite p c) new → marks fs p t new = [].
Proof using Type.
  intros H. revert t. induction H as [|a new Ha _ IH]; intros t; cbn; [done|]. rewrite IH.
  destruct a as [|q c|?|?|?|?|?]; try done. rewrite bool_decide_eq_false_2; [done|].
  intros ->. by destruct (Ha c).
Qed.

Lemma ends_in_app c a b : b ≠ EmptyString → ends_in c (a ++ b)%string = ends_in c b.
Proof using Type.
  intros Hb. induction a as [|x a IH]; [done|]. rewrite str_app_cons. cbn. rewrite IH.
  by destruct a, b.
Qed.

Lemma ends_in_unique c d s : ends_in c s = true → ends_in d s = true → c = d.
Proof using Type.
  induction s as [|x s IH]; [done|]. destruct s; [|exact IH]. cbn.
  rewrite !Ascii.eqb_eq. by intros -> ->.
Qed.

Lemma ends_in_join c d n :
  n ≠ EmptyString → starts_with "/" n = false → ends_in c (join d n) = ends_in c n.
Proof using Type.
  intros Hn Hs. unfold join. rewrite Hs. destruct (String.eqb d EmptyString); [done|].
  destruct (ends_in "/" d); rewrite !ends_in_app; by try destruct n.
Qed.

Lemma attempted_path_not_tmp dir p : tmp_path p ≠ attempted_path dir.
Proof using Type.
  intros E. assert (ends_in "p" (tmp_path p) = true) as H1.
  { unfold tmp_path, tmp_of. rewrite ends_in_join by done.
    set (n := unwrap_or (file_name p) EmptyString).
    rewrite (ends_in_app _ "." (n ++ ".tmp")) by (by destruct n). by rewrite ends_in_app. }
  assert (ends_in "d" (attempted_path dir) = true) as H2 by (unfold attempted_path; by rewrite ends_in_join).
  rewrite E in H1. by pose proof (ends_in_unique _ _ _ H1 H2).
Qed.

Lemma attempted_not_committed dir : committed_path dir ≠ attempted_path dir.
Proof using Type.
  unfold committed_path, attempted_path, join. cbn [starts_with]. destruct (String.eqb dir EmptyString); [done|].
  destruct (ends_in "/" dir); intros H; by apply append_inj in H as [_ H].
Qed.

(** The file the attempt is recorded in is not the conf, nor what an apply writes. *)
Definition attempt_apart (s : ConfSync) : Prop :=
  local_conf s ≠ attempted_path (run_dir s) ∧ prev_path s ≠ attempted_path (run_dir s) ∧
  ∀ c, asks ≠ AWrite (attempted_path (run_dir s)) c.

Lemma may_not_record s g t a :
  attempt_apart s → may fs parse refusal_error s g true false t a → ∀ c, a ≠ AWrite (attempted_path (run_dir s)) c.
Proof using Type.
  clear from_json. intros (H1 & H2 & H3) Hm c' Ea.
  destruct Hm as [[d ->]|[[-> ?]|[_ [[c Hc]|[->|[->|[->|[->|[->|[(c & -> & _)|(c & -> & _)]]]]]]]]]]; try done.
  - apply elem_of_cons in Hc as [->|Hc].
    + injection Ea as E _. by apply attempted_path_not_tmp in E.
    + by apply list_elem_of_singleton in Hc as ->.
  - injection Ea as E _. by apply attempted_not_committed in E.
  - by apply H3 in Ea.
  - by injection Ea.
  - by injection Ea.
Qed.

(** A turn records at most one attempt, and keeps in mind what it recorded. *)
Definition attempt_of (s s' : ConfSync) (tr new : list Action) : Prop :=
  let p := attempted_path (run_dir s) in
  (marks fs p tr new = [] ∧ attempted s' = attempted s) ∨
  ∃ g, counter_in (fs tr) (gen_path (pmx s)) = Ok g ∧ g ≠ attempted s ∧
    marks fs p tr new = [format_gen g] ∧ attempted s' = g.

Lemma allowed_no_marks s g tr new :
  attempt_apart s → allowed (may fs parse refusal_error s g true false) tr new →
  Forall (λ a, ∀ c, a ≠ AWrite (attempted_path (run_dir s)) c) new.
Proof using Type.
  intros Ha. revert tr. induction new as [|a new IH]; intros tr; cbn; [constructor|].
  intros [H1 H2]. constructor; [by eapply may_not_record|by eapply IH].
Qed.

Lemma handle_attempt g s io tr :
  attempt_apart s →
  ∃ new s' r, handle_new_generation fs from_json parse refusal_error g s io tr = (tr ++ new, Ok (s', r)) ∧
    cfg s' = cfg s ∧
    (marks fs (attempted_path (run_dir s)) tr new = [] ∧ attempted s' = attempted s ∨
     marks fs (attempted_path (run_dir s)) tr new = [format_gen g] ∧ attempted s' = g).
Proof using Type.
  intros Hap. rewrite handle_eq. unfold sbind, bind, ret.
  destruct (set_attempted_spec fs parse refusal_error s g true true s io tr eq_refl eq_refl)
    as (l & s1 & r & -> & Hs1 & _ & Hr). cbn [fst snd].
  destruct r as [[]|e]; [|destruct Hr as [-> Hr]; exists l, s, (Err e); auto].
  destruct Hr as (Hr & -> & Hm).
  destruct (sacts_vet fs from_json parse refusal_error s g true false s eq_refl eq_refl
    (set_attempted_to g s) io (tr ++ l) Hs1 Hr) as (l' & s2 & r & -> & [Hs2 Ha] & Hl').
  exists (l ++ l'), s2, r. rewrite app_assoc. repeat split; [done|]. right.
  rewrite marks_app, Hm. split; [|done]. apply allowed_no_marks in Hl'; [|done]. by rewrite marks_none.
Qed.

Lemma tick_attempt s io tr :
  attempt_apart s →
  ∃ new s' r, tick_ s io tr = (tr ++ new, Ok (s', r)) ∧ cfg s' = cfg s ∧ attempt_of s s' tr new.
Proof using Type.
  intros Hap. destruct (tick_cases s io tr) as [(r & -> & _)|(g & Hg & _ & H2 & ->)].
  - exists [], s, r. rewrite app_nil_r. repeat split. by left.
  - destruct (handle_attempt g s io tr Hap) as (l & s' & r & -> & Hs & Hl).
    exists l, s', r. repeat split; [done|]. destruct Hl as [?|[]]; [by left|right; eauto].
Qed.

Lemma report_keeps t s : cfg (report t s).1 = cfg s ∧ attempted (report t s).1 = attempted s.
Proof using Type. destruct t; cbn; try done. by destruct (bool_decide _). Qed.

(** The counter never goes back, once [tr] is done. *)
Definition advances (root : string) (tr : list Action) : Prop :=
  ∀ t1 t2 g1 g2, tr `prefix_of` t1 → t1 `prefix_of` t2 →
    counter_in (fs t1) (gen_path root) = Ok g1 → counter_in (fs t2) (gen_path root) = Ok g2 → g1 ≤ g2.
Definition behind (root : string) (a : Z) (tr : list Action) : Prop :=
  ∀ t g, tr `prefix_of` t → counter_in (fs t) (gen_path root) = Ok g → a ≤ g.

Lemma advances_app root tr l : advances root tr → advances root (tr ++ l).
Proof using Type. intros H t1 t2 g1 g2 H1. apply H. etrans; [by apply prefix_app_r|exact H1]. Qed.
Lemma behind_app root a tr l : behind root a tr → behind root a (tr ++ l).
Proof using Type. intros H t g Ht. apply H. etrans; [by apply prefix_app_r|exact Ht]. Qed.

(** The attempts of a run go up, from the one it started from. *)
Lemma turns_attempts stop n s io tr :
  attempt_apart s → advances (pmx s) tr → behind (pmx s) (attempted s) tr →
  ∃ new r gs, turns fs from_json parse refusal_error stop n s io tr = (tr ++ new, Ok r) ∧
    marks fs (attempted_path (run_dir s)) tr new = format_gen <$> gs ∧
    StronglySorted Z.lt (attempted s :: gs).
Proof using Type.
  revert s tr. induction n as [|n IH]; intros s tr Hap Hadv Hb; cbn [turns].
  { exists [], (s, []), []. rewrite app_nil_r. repeat split. repeat constructor. }
  destruct (stop tr).
  { exists [], (s, []), []. rewrite app_nil_r. repeat split. repeat constructor. }
  unfold bind at 1. destruct (tick_attempt s io tr Hap) as (l & s1 & r & E & Hs1 & Ha).
  unfold tick_ in E. rewrite E. cbn [fst snd].
  set (out := match r with Ok t => report t s1 | Err e => _ end).
  assert (cfg out.1 = cfg s ∧ attempted out.1 = attempted s1) as [Hc Ho].
  { subst out. destruct r as [t|e]; [|done]. rewrite <-Hs1. apply report_keeps. }
  destruct out as [s2 lines]. cbn [fst] in Hc, Ho. unfold bind at 1, sleep.
  assert (∃ pre, marks fs (attempted_path (run_dir s)) tr l = format_gen <$> pre ∧
    Forall (Z.lt (attempted s)) pre ∧ behind (pmx s) (attempted s2) (tr ++ l) ∧
    (pre = [] ∧ attempted s2 = attempted s ∨ pre = [attempted s2])) as (pre & Hm & Hlt & Hb2 & Hpre).
  { rewrite Ho. destruct Ha as [[Hm ->]|(g & Hg & Hne & Hm & ->)].
    - exists []. rewrite Hm. split; [done|]. split; [constructor|]. split; [by apply behind_app|by left].
    - exists [g]. rewrite Hm. pose proof (Hb tr g ltac:(done) Hg). split; [done|]. split; [constructor; [lia|constructor]|]. split; [|by right].
      intros t g2 Ht Hg2. apply (Hadv tr t); [done| |done..]. etrans; [by apply prefix_app_r|exact Ht]. }
  pose proof (cfg_eq s s2 Hc) as (Hp & _ & _ & Hl & Hd).
  destruct (IH s2 ((tr ++ l) ++ [ASleep TICK_MS])) as (new & out & gs & E2 & Hm2 & Hs2).
  { unfold attempt_apart, prev_path. by rewrite Hl, Hd. }
  { rewrite Hp. by do 2 apply advances_app. }
  { rewrite Hp. by apply behind_app. }
  unfold bind, ret. rewrite E2. exists ((l ++ [ASleep TICK_MS]) ++ new), (out.1, lines ++ out.2), (pre ++ gs).
  split; [by rewrite !app_assoc|]. rewrite Hd in Hm2.
  assert (marks fs (attempted_path (run_dir s)) (tr ++ l) [ASleep TICK_MS] = []) as Hz by done.
  split; [by rewrite !marks_app, Hm, Hz, app_nil_r, (app_assoc tr l), Hm2, fmap_app|].
  destruct Hpre as [[-> E3]| ->]; [by rewrite <-E3|]. cbn [app].
  apply list.Forall_cons in Hlt as [Hlt _]. constructor; [done|]. constructor; [done|].
  apply StronglySorted_inv in Hs2 as [_ Hs2]. eapply list.Forall_impl; [exact Hs2|]. intros x ?. cbn in *. lia.
Qed.

(** C25. C: no generation is attempted twice. However long the daemon runs, and whatever it meets, the
    attempts it records on disk go up, past the one it started from - as long as the cluster's
    counter never goes back. *)
Theorem no_generation_twice stop n s io tr :
  attempt_apart s → advances (pmx s) tr → behind (pmx s) (attempted s) tr →
  ∃ new r gs, turns fs from_json parse refusal_error stop n s io tr = (tr ++ new, Ok r) ∧
    marks fs (attempted_path (run_dir s)) tr new = format_gen <$> gs ∧
    StronglySorted Z.lt (attempted s :: gs).
Proof using Type. apply turns_attempts. Qed.

(** C18. C: nothing unvetted is installed. A turn that finds no new generation does nothing. One that
    does records the attempt before anything else, and on every path, errors included, writes the
    conf only with a text that passed the whole declaration gate for this member, or with what
    [.prev] held at that moment; [.prev] gets only what the conf held; an apply is asked for, an
    ack shown and a commit recorded only after the attempt is on disk. *)
Theorem only_what_was_vetted_is_installed s io tr :
  ∃ new s' r, tick_ s io tr = (tr ++ new, Ok (s', r)) ∧ cfg s' = cfg s ∧
    (new = [] ∨ ∃ g, counter_in (fs tr) (gen_path (pmx s)) = Ok g ∧ committed s < g ∧ g ≠ attempted s ∧
                allowed (may fs parse refusal_error s g true true) tr new).
Proof using Type.
  destruct (tick_cases s io tr) as [(r & -> & _)|(g & Hg & H1 & H2 & ->)].
  - exists [], s, r. rewrite app_nil_r. auto.
  - destruct (handle_may fs from_json parse refusal_error s g true true s io tr eq_refl eq_refl eq_refl) as (l & s' & r & -> & Hs & Hl).
    exists l, s', r. eauto 10.
Qed.
End turns.

(** ** A member, its files and its peer *)
Module Follower.
Import ListNotations.
Definition NO : IoError := {| io_kind := Cluster.NotFound; io_text := "none" |}.
Definition ACL : IoError := {| io_kind := OtherKind; io_text := "denied" |}.

(** What the tree holds after a history: the last write of each path, where it was answered. *)
Section replay.
Context (writes : list Action → string → bool).
Definition replay_one (t : list Action) (m : gmap string string) (a : Action) : gmap string string :=
  match a with
  | AWrite p c => if writes t p then <[p := c]> m else m
  | ARename p q => match m !! p with Some c => <[q := c]> (delete p m) | None => m end
  | ARemove p => delete p m
  | _ => m
  end.
Fixpoint replay (m : gmap string string) (t rest : list Action) : gmap string string :=
  match rest with [] => m | a :: rest => replay (replay_one t m a) (t ++ [a]) rest end.

(** [counter]: what the cluster's counter holds; [acks]: whose acks are there. *)
Definition fs (start : gmap string string) (counter : list Action → string) (acks : list string)
    (t : list Action) : Fs := {|
  f_read := λ p, if String.eqb p "/etc/pve/cfab/gen" then Ok (counter t)
                 else match replay start [] t !! p with Some c => Ok c | None => Err NO end;
  f_dir := λ _, Ok acks; f_mode := λ _, Ok 511; f_mtime := λ _, Some 0; f_now := seconds 60;
  f_write := λ p _, if writes t p then Ok tt else Err ACL;
  f_rename := λ _ _, Ok tt; f_remove_file := λ _, Ok tt; f_remove_dir := λ _, Ok tt;
  f_remove_dir_all := λ _, Ok tt; f_create_dir := λ _, Ok tt; f_create_dir_all := λ _, Ok tt |}.
End replay.

Definition NEW : string := "new".
Definition OLD : string := "old".
Definition conf : string := "/etc/cfab/fabric.toml".
Definition prev : string := "/etc/cfab/fabric.toml.prev".
Definition start : gmap string string :=
  <["/etc/pve/cfab/fabric.toml" := NEW]> (<["/etc/pve/.members" := "{}"%string]> {[conf := OLD]}).
Definition always (_ : list Action) (_ : string) : bool := true.

(** The status check exits with [code]; every request is granted. *)
Definition env (code : result Error Z) (_ : list Action) : Env := {|
  e_host := {| h_run := λ _, match code with
                             | Ok c => Ok {| Sys.status := c; stdout := EmptyString; stderr := EmptyString |}
                             | Err e => Err e
                             end;
               h_read := λ _, Err (Fatal "none"); h_exists := λ _, false; h_is_writable := λ _, false;
               h_list_dir := λ _, Err (Fatal "none"); h_read_link := λ _, Err (Fatal "none") |};
  e_write := λ _ _, Ok tt; e_rename := λ _ _, Ok tt; e_remove := λ _, Ok tt; e_mkdir := λ _, Ok tt;
  e_request := λ _ _, Ok EmptyString; e_probe := λ _ _, NotListening |}.
Definition granted (_ : string) : result string Value := Ok (Obj [("ok"%string, Bool true)]).
Definition refused (_ : string) : result string Value :=
  Ok (Obj [("ok"%string, Bool false); ("error"%string, Str "FATAL: wire eno9 absent")]).

Definition parse (text : string) : result Error Declaration :=
  if String.eqb text NEW then Ok sample_decl else Err (Config "bad").
Definition refusal_error (_ : Refusal) : Error := Fatal "refused".
Definition me_ : string := "h1".
Definition daemon (a c : Z) : ConfSync :=
  {| pmx := "/etc/pve"; exe := "/usr/bin/cfab"; me := me_; local_conf := conf; run_dir := "/run/cfab";
     attempted := a; committed := c; regression_logged := None |}.
Definition counter (g : Z) (_ : list Action) : string := format_gen g.
#[export] Instance applier : Applier := SocketApplier granted "/run/cfab".

Definition turn (m : gmap string string) (acks : list string) (code : result Error Z) (s : ConfSync) :=
  tick_ (fs always m (counter 7) acks) Mount.three parse refusal_error s (env code) [].
Definition left (m : gmap string string) (tr : list Action) : option string * option string :=
  let r := replay always m [] tr in (r !! conf, r !! prev).

Example commits :
  (let out := turn start ["h1"; ".b.tmp"; "b"]%string (Ok 0) (daemon 6 6) in (out.2, left start out.1))
  = (Ok (daemon 7 7, Ok (Committed 7 true "witnessed by b")), (Some NEW, Some OLD)).
Proof. vm_compute. done. Qed.

Example alone :
  (let out := turn start ["h1"]%string (Ok 0) (daemon 6 6) in (out.2, left start out.1))
  = (Ok (daemon 7 6, Ok (Reverted 7 "no peer ack within 60 s")), (Some OLD, Some OLD)).
Proof. vm_compute. done. Qed.

(** A status check that dies of a signal answers -1, and -1 is not above 1: the conf of a member
    that may carry nothing is committed. *)
Example killed_status_commits :
  (let out := turn start ["b"]%string (Ok (-1)) (daemon 6 6) in (out.2, left start out.1))
  = (Ok (daemon 7 7, Ok (Committed 7 true "witnessed by b")), (Some NEW, Some OLD)).
Proof. vm_compute. done. Qed.

(** A status check that cannot be started is an error, not a revert: the new conf stays, witnessed
    by nobody, and the next turn leaves it there. *)
Example unrevertable :
  (let out := turn start ["b"]%string (Err (Fatal "no memory")) (daemon 6 6) in
   (out.2, left start out.1)) = (Ok (daemon 7 6, Err (Fatal "no memory")), (Some NEW, Some OLD))
  ∧ (turn start ["b"]%string (Ok 0) (daemon 7 6)).2 = Ok (daemon 7 6, Ok (AlreadyAttempted 7)).
Proof. vm_compute. done. Qed.

(** With no conf to keep, a revert puts back whatever an earlier turn kept. *)
Example stale_prev :
  let m := <[prev := "ancient"%string]> (delete conf start) in
  (let out := turn m [] (Ok 0) (daemon 6 6) in (out.2, left m out.1))
  = (Ok (daemon 7 6, Ok (Reverted 7 "no peer ack within 60 s")), (Some "ancient", Some "ancient"))%string.
Proof. vm_compute. done. Qed.

(** A counter that goes back and forth has a refused generation attempted again. *)
Definition turn_at (g : Z) (s : ConfSync) :=
  (tick_ (fs always start (counter g) []) Mount.three parse refusal_error s (env (Ok 2)) []).2.
Example attempted_again :
  turn_at 7 (daemon 5 5) = Ok (daemon 7 5, Ok (Reverted 7 "status exited 2")) ∧
  turn_at 7 (daemon 7 5) = Ok (daemon 7 5, Ok (AlreadyAttempted 7)) ∧
  turn_at 6 (daemon 7 5) = Ok (daemon 6 5, Ok (Reverted 6 "status exited 2")) ∧
  turn_at 7 (daemon 6 5) = Ok (daemon 7 5, Ok (Reverted 7 "status exited 2")).
Proof. vm_compute. done. Qed.

Lemma replay_app w m t l1 l2 : replay w m t (l1 ++ l2) = replay w (replay w m t l1) (t ++ l1) l2.
Proof.
  revert m t. induction l1 as [|a l1 IH]; intros m t; cbn; [by rewrite app_nil_r|].
  by rewrite IH, <-app_assoc.
Qed.

Lemma replay_other w p l m t : Forall (λ a, ¬ names p a) l → replay w m t l !! p = m !! p.
Proof.
  intros H. revert m t. induction H as [|a l Ha _ IH]; intros m t; cbn [replay]; [done|]. rewrite IH.
  destruct a as [|q c|q r|q|?|?|?]; cbn in *; try done.
  - destruct (w t q); [|done]. by rewrite lookup_insert_ne.
  - destruct (m !! q); [|done]. rewrite lookup_insert_ne, lookup_delete_ne by tauto. done.
  - by rewrite lookup_delete_ne.
Qed.

Lemma own m acks g : own_file (fs always m (counter g) acks) prev.
Proof.
  intros t c mid _ Hm. unfold fs. cbn [f_read].
  replace (String.eqb prev "/etc/pve/cfab/gen") with false by done.
  rewrite replay_app. cbn [replay]. rewrite replay_other by done.
  unfold replay_one. cbn. by rewrite lookup_insert_eq.
Qed.
End Follower.

#[local] Existing Instance Follower.applier.

Lemma committed_witness :
  let fs := Follower.fs Follower.always Follower.start (Follower.counter 7) ["b"]%string in
  let out := Follower.turn Follower.start ["b"]%string (Ok 0) (Follower.daemon 6 6) in
  Follower.daemon 7 7 = set_committed_to 7 (set_attempted_to 7 (Follower.daemon 6 6)) ∧
  ∃ t0 t1, [] `prefix_of` t0 ∧ recorded fs (Follower.daemon 6 6) 7 t0 ∧ t0 `prefix_of` t1 ∧
    witnessed fs Mount.three (Follower.daemon 6 6) 7 "witnessed by b" (Follower.env (Ok 0)) t1 out.1.
Proof.
  apply (committed_was_witnessed (Follower.fs Follower.always Follower.start (Follower.counter 7) ["b"]%string)
    Mount.three Follower.parse Follower.refusal_error (Follower.daemon 6 6) (Follower.env (Ok 0)) []).
  vm_compute. reflexivity.
Defined.

Lemma reverted_witness :
  let fs := Follower.fs Follower.always Follower.start (Follower.counter 7) [] in
  let out := Follower.turn Follower.start [] (Ok 0) (Follower.daemon 6 6) in
  Follower.daemon 7 6 = set_attempted_to 7 (Follower.daemon 6 6) ∧
  ∃ t0, [] `prefix_of` t0 ∧ recorded fs (Follower.daemon 6 6) 7 t0 ∧
    ∀ old, f_read (fs t0) Follower.conf = Ok old →
      ∃ t, t0 `prefix_of` t ∧ out.1 = t ++ restores (Follower.daemon 6 6) 7 t old ∧
        f_write (fs (t ++ [ARemove (ack_path "/etc/pve" 7 Follower.me_)])) Follower.conf old = Ok tt.
Proof.
  apply (revert_restores (Follower.fs Follower.always Follower.start (Follower.counter 7) [])
    Mount.three Follower.parse Follower.refusal_error (Follower.daemon 6 6) (Follower.env (Ok 0)) []
    _ _ 7 "no peer ack within 60 s").
  - apply Follower.own.
  - unfold prev_apart. split_and!; [by vm_compute..|intros []].
  - vm_compute. reflexivity.
Defined.

Lemma once_witness :
  let fs := Follower.fs Follower.always Follower.start (Follower.counter 7) [] in
  let s := Follower.daemon 6 6 in
  ∃ new r gs, turns fs Mount.three Follower.parse Follower.refusal_error (λ _, false) 3 s (Follower.env (Ok 2)) []
      = ([] ++ new, Ok r) ∧
    marks fs (attempted_path (run_dir s)) [] new = format_gen <$> gs ∧ StronglySorted Z.lt (attempted s :: gs).
Proof.
  assert (∀ t g, counter_in (Follower.fs Follower.always Follower.start (Follower.counter 7) [] t)
    (gen_path "/etc/pve") = Ok g → g = 7) as Hc.
  { intros t g H. vm_compute in H. by injection H. }
  apply (no_generation_twice (Follower.fs Follower.always Follower.start (Follower.counter 7) [])).
  - split_and!; [by vm_compute..|by intros c].
  - intros t1 t2 g1 g2 _ _ H1%Hc H2%Hc. lia.
  - intros t g _ H%Hc. cbn. lia.
Defined.
