(* ===== verification/ShapeDaemon.v ===== *)
(** Keeping the wires shaped: the measured capacity of a wire (src/src/caps.rs), its measurement
    (src/src/commands/measure_cap.rs), and the daemon that shapes every wire with a carrier again
    when a link changes (src/src/commands/shape_daemon.rs).

    [fs] is the cluster's file system, [Env] the rest of the host; both answer after everything
    done so far, and so do the clocks. The lines of [ip monitor link] are a list of [Event]s: a
    line, a quiet gap, or the end of the process that gives them. *)
From Stdlib Require Import Ascii String.
From S2P Require Import Prelude Text Net Fabric Derive Sys EngineState Shape Legs EngineCtl Cluster.
Local Open Scope Z_scope.
Local Open Scope cmd_scope.

(** ** The capacity of a wire *)

Definition positive (text : string) : option Z :=
  match parse_uint u64_max (trim text) with Some v => if 0 <? v then Some v else None | None => None end.

Definition cap_file (dir dev : string) : string := dir ++ "/cap-" ++ dev.

Section caps.
Context (fs : list Action → Fs) (from_json : string → result string Members).

Definition clustered (m : option Members) : bool :=
  match m with Some m => is_some_and (cluster m) (λ _, true) | None => false end.

(** The write back: what it answers is only printed. *)
Definition cache_cap (dir dev : string) (v : Z) : IO unit :=
  attempt (mkdir_p dir >>~ write (cap_file dir dev) (show v ++ newline)) >>~ ret tt.

Definition published_cap (root member dir dev : string) : IO (option Z) :=
  r <~ attempt (probe fs from_json root) ;;
  match r with
  | Ok m =>
      if negb (clustered m) then ret None
      else
        text <~ peek fs (λ f, f_read f (cap_path root member dev)) ;;
        match text with
        | Err _ => ret None
        | Ok text =>
            match positive text with
            | None => ret None
            | Some v => cache_cap dir dev v >>~ ret (Some v)
            end
        end
  | Err _ => ret None
  end.

(** A local file that is there is the answer, even one that says nothing. *)
Definition read_cap (root member dir dev : string) : IO (option Z) :=
  local <~ look (λ h, h_read h (cap_file dir dev)) ;;
  match local with
  | Ok text => ret (positive text)
  | Err _ => published_cap root member dir dev
  end.

Lemma positive_spec text v : positive text = Some v → 0 < v ≤ u64_max.
Proof using Type.
  unfold positive. destruct (parse_uint _ _) as [n|] eqn:E; [|done]. apply parse_uint_bounds in E.
  destruct (0 <? n) eqn:Hn; [|done]. intros [= <-]. split_bools. lia.
Qed.

(** The capacity at a point of a run, as the three sources are tried: what the local file says, when
    there is one; else, on a clustered host, what this member published; and a copy is kept of that. *)
Definition members_now (root : string) (tr : list Action) : option Members :=
  match f_read (fs tr) (members_path root) with
  | Ok json => match from_json json with Ok m => Some m | Err _ => None end
  | Err _ => None
  end.
Definition measured_cap (io : Env_) (root member dir dev : string) (tr : list Action) : option Z :=
  match h_read (e_host (io tr)) (cap_file dir dev) with
  | Ok text => positive text
  | Err _ =>
      if clustered (members_now root tr)
      then match f_read (fs tr) (cap_path root member dev) with Ok text => positive text | Err _ => None end
      else None
  end.
Definition kept_copy (io : Env_) (dir dev : string) (cap : option Z) (tr : list Action) : list Action :=
  match h_read (e_host (io tr)) (cap_file dir dev), cap with
  | Err _, Some v =>
      AMkdir dir :: (if is_ok (e_mkdir (io tr) dir) then [AWrite (cap_file dir dev) (show v ++ newline)%string] else [])
  | _, _ => []
  end.

Lemma measured_cap_bounds io root member dir dev tr v :
  measured_cap io root member dir dev tr = Some v → 0 < v ≤ u64_max.
Proof using Type.
  unfold measured_cap. destruct (h_read _ _); [apply positive_spec|].
  destruct (clustered _); [|done]. destruct (f_read _ _); [apply positive_spec|done].
Qed.

Lemma probe_now root io tr : ∃ r, probe fs from_json root io tr = (tr, r) ∧
  match r with Ok m => m = members_now root tr | Err _ => members_now root tr = None end.
Proof using Type.
  unfold probe, members_now, bind, peek, lift, ret, throw, parse_members. destruct (f_read _ _) as [j|e].
  - destruct (from_json j) as [m|e]; by eexists.
  - destruct (is_not_found e); by eexists.
Qed.

Lemma read_cap_spec root member dir dev io tr :
  let cap := measured_cap io root member dir dev tr in
  read_cap root member dir dev io tr = (tr ++ kept_copy io dir dev cap tr, Ok cap).
Proof using Type.
  cbv zeta. unfold read_cap, measured_cap, kept_copy, look. unfold bind at 1.
  destruct (h_read _ _) as [text|e]; [by rewrite app_nil_r|].
  unfold published_cap. unfold bind at 1, attempt at 1.
  destruct (probe_now root io tr) as (r & -> & Hr). destruct r as [m|e'].
  2: { rewrite Hr. cbn. by rewrite app_nil_r. }
  subst m. destruct (clustered _); cbn [negb]; [|by rewrite app_nil_r].
  unfold bind at 1, peek at 1. destruct (f_read _ _) as [text|?]; [|by rewrite app_nil_r].
  destruct (positive text) as [v|]; [|by rewrite app_nil_r].
  unfold cache_cap, mkdir_p, write, bind, attempt, ret.
  destruct (e_mkdir _ _) as [[]|?]; cbn [is_ok]; [by rewrite <-app_assoc|done].
Qed.
End caps.

(** ** The loop *)

Inductive Event := Line (s : string) | Quiet | Gone.

(** The line names one of the wires. *)
Definition touches (devs : list string) (line : string) : bool :=
  any (λ d, has_substring (d ++ ":") line || has_substring (d ++ "@") line) devs.

(** [apply] acts on the closure's own state; the list ends where the events do. *)
Fixpoint event_loop {S} (stop : list Action → bool) (devs : list string) (apply : S → IO S)
    (events : list Event) (pending : bool) (s : S) : IO S := λ io tr,
  if stop tr then (tr, Ok s)
  else match events with
       | [] | Gone :: _ => (tr, Ok s)
       | Line l :: events => event_loop stop devs apply events (touches devs l || pending) s io tr
       | Quiet :: events =>
           if pending then (s <~ apply s ;; event_loop stop devs apply events false s) io tr
           else event_loop stop devs apply events false s io tr
       end.

(** The lines between two quiet gaps; what comes after the last gap, or the end, is dropped. *)
Fixpoint bursts (cur : list string) (events : list Event) : list (list string) :=
  match events with
  | [] | Gone :: _ => []
  | Line l :: events => bursts (cur ++ [l]) events
  | Quiet :: events => cur :: bursts [] events
  end.
Definition touching_bursts (devs : list string) (events : list Event) : nat :=
  length (List.filter (any (touches devs)) (bursts [] events)).

Fixpoint again {S} (n : nat) (apply : S → IO S) (s : S) : IO S :=
  match n with O => ret s | Datatypes.S n => (s <~ apply s ;; again n apply s) end.

Lemma any_app {A} (p : A → bool) l1 l2 : any p (l1 ++ l2) = any p l1 || any p l2.
Proof. apply List.existsb_app. Qed.

Lemma event_loop_bursts {S} stop devs (apply : S → IO S) events cur s io tr :
  (∀ t, stop t = false) →
  event_loop stop devs apply events (any (touches devs) cur) s io tr =
  again (length (List.filter (any (touches devs)) (bursts cur events))) apply s io tr.
Proof.
  intros Hs. revert cur s tr. induction events as [|e events IH]; intros cur s tr; cbn [event_loop bursts];
    rewrite Hs; [done|]. destruct e as [l| |]; [| |done].
  - rewrite <-IH, any_app. cbn. by rewrite orb_false_r, orb_comm.
  - cbn [List.filter]. destruct (any (touches devs) cur).
    + cbn [length again]. unfold bind. destruct (apply s io tr) as [t [s'|e]]; [|done]. apply (IH []).
    + apply (IH []).
Qed.

(** C: the debounce loses nothing and repeats nothing. While no stop is asked for, the loop does
    exactly one reconverge for each quiet gap that ends a burst of lines naming a fabric wire,
    in order, and none besides. *)
Theorem debounced {S} stop devs (apply : S → IO S) events s io tr :
  (∀ t, stop t = false) →
  event_loop stop devs apply events false s io tr = again (touching_bursts devs events) apply s io tr.
Proof. intros H. by apply (event_loop_bursts stop devs apply events []). Qed.

(** ** The lines *)

Definition wire_change (was : option bool) (now : bool) (d : string) : list string :=
  match was, now with
  | None, false => ["shape-daemon: wire " ++ d ++ " DOWN at start"]
  | Some false, true => ["shape-daemon: wire " ++ d ++ " UP"]
  | Some true, false => ["shape-daemon: wire " ++ d ++ " DOWN"]
  | _, _ => []
  end%string.
Definition is_in (l : list string) (d : string) : bool := any (λ x, String.eqb x d) l.
Definition transitions (prev : option (list string)) (now devs : list string) : list string :=
  let out := devs ≫= λ d, wire_change ((λ p, is_in p d) <$> prev) (is_in now d) d in
  match prev, out with
  | Some _, [] => ["shape-daemon: link event on fabric wires, up-set unchanged (flap?)"]
  | _, _ => out
  end%string.

(** ** Shaping *)

Section daemon.
Context (fs : list Action → Fs) (from_json : string → result string Members).
(** The text of a derivation's error, seconds since the epoch, and milliseconds. *)
Context (shape_text : ShapeError → string) (epoch millis : list Action → Z).
Context (v : View).
Let dir := f_run_dir (v_fabric v).
Let root : string := "/etc/pve".
Let me := m_name (v_member v).

Definition clock (c : list Action → Z) : IO Z := λ _ tr, (tr, Ok (c tr)).

Definition carrier (h : Host) (d : string) : bool :=
  match h_read h ("/sys/class/net/" ++ d ++ "/carrier") with Ok s => String.eqb (trim s) "1" | Err _ => false end.
Definition up_of (h : Host) (devs : list string) : list string := List.filter (carrier h) devs.

(** A tc command that fails is printed; one that cannot be run ends the reconverge. *)
Definition tc_run (c : Cmdline) : IO unit := exec c.1 >>~ ret tt.

Definition shape_wire (up : list string) (record : gmap string AppliedWire) (dev : string)
    : IO (gmap string AppliedWire) :=
  measured <~ read_cap fs from_json root me dir dev ;;
  match derive v dev measured (is_in up) with
  | Err e => ret (<[dev := Failed (shape_text e)]> record)
  | Ok d => each tc_run (tc_argv d) >>~ ret (<[dev := Shaped (applied_classes d)]> record)
  end.
Fixpoint shape_wires (up todo : list string) (record : gmap string AppliedWire)
    : IO (gmap string AppliedWire) :=
  match todo with
  | [] => ret record
  | dev :: todo => record <~ shape_wire up record dev ;; shape_wires up todo record
  end.

Definition SHAPE_APPLIED_NAME : string := "shape.applied".
Definition shape_applied_path (run_dir : string) : string := trim_slashes run_dir ++ "/" ++ SHAPE_APPLIED_NAME.
Definition record_path : string := shape_applied_path dir.
Definition record_tmp : string := record_path ++ ".tmp".

(** What it answers is only printed. *)
Definition write_record (record : ShapeApplied) : IO unit :=
  attempt (write record_tmp (sa_render record) >>~ rename record_tmp record_path) >>~ ret tt.

Definition no_carrier (up devs : list string) : gmap string AppliedWire :=
  foldl (λ m d, if is_in up d then m else <[d := NoCarrier]> m) ∅ devs.

Definition reconverge (devs : list string) : IO (string * list string) :=
  up <~ look (λ h, up_of h devs) ;;
  t0 <~ clock millis ;;
  tick <~ clock epoch ;;
  record <~ shape_wires up up (no_carrier up devs) ;;
  write_record {| sa_tick := tick; sa_wires := record |} >>~
  (t1 <~ clock millis ;;
   ret ("shape-daemon: reconverge dt=" ++ show (t1 - t0) ++ "ms up=[" ++ String.concat " " up ++ "]", up)%string).

Definition teardown_record : IO unit := attempt (remove record_path) >>~ ret tt.

Definition qdisc_del (d : string) : list string := ["tc"; "qdisc"; "del"; "dev"; d; "root"].
Definition fq_codel (d : string) : list string := ["tc"; "qdisc"; "replace"; "dev"; d; "root"; "fq_codel"].
Definition teardown (devs : list string) : IO unit :=
  each (λ d, run_ignore (qdisc_del d) >>~ run_ignore (fq_codel d)) devs.

(** The closure of the loop: the last up-set, and the lines printed so far. *)
Definition Seen : Type := option (list string) * list string.
Definition reconverge_seen (what : string) (devs : list string) (s : Seen) : IO Seen :=
  r <~ attempt (reconverge devs) ;;
  ret match r with
      | Ok (msg, up) => (Some up, s.2 ++ transitions s.1 up devs ++ [msg])
      | Err e => (s.1, s.2 ++ [what ++ display e]%string)
      end.

(** [handler], [monitor]: whether the signal handler and [ip monitor link] could be started. *)
Definition run (devs : list string) (debounce : string) (stop : list Action → bool) (events : list Event)
    (handler monitor : result string unit) : IO (list string) :=
  if bool_decide (devs = []) then throw (Fatal "shape-daemon: no wires in a zone's `segments`")
  else
    let start := ("shape-daemon: start devs=[" ++ String.concat " " devs ++ "] debounce=" ++ debounce ++ "s")%string in
    s <~ reconverge_seen "shape-daemon: initial reconverge failed: " devs (None, [start]) ;;
    match handler, monitor with
    | Err e, _ => throw (Fatal ("cannot install signal handler: " ++ e))
    | _, Err e => throw (Fatal ("cannot spawn ip monitor link: " ++ e))
    | Ok _, Ok _ =>
        s <~ event_loop stop devs (reconverge_seen "shape-daemon: reconverge failed: " devs) events false s ;;
        teardown devs >>~
        teardown_record >>~
        ret (s.2 ++ ["shape-daemon: TEARDOWN — fabric NICs restored to fq_codel ("
                       ++ String.concat " " devs ++ ")"]%string)
    end.

(** *** What a reconverge leaves *)

Definition commands_of (d : Derivation) : list Action := (λ c, ARun c.1) <$> tc_argv d.

(** What is done about one wire from a point of a run on, and what the record says of it: the tree of
    the capacity measured at that point, and exactly that tree's commands. *)
Definition shaped (io : Env_) (tr : list Action) (up : list string) (dev : string)
    (did : list Action) (says : AppliedWire) : Prop :=
  let cap := measured_cap fs from_json io root me dir dev tr in
  (∀ c, cap = Some c → 0 < c ≤ u64_max) ∧
  match derive v dev cap (is_in up) with
  | Ok d => did = kept_copy io dir dev cap tr ++ commands_of d ∧ says = Shaped (applied_classes d)
  | Err e => did = kept_copy io dir dev cap tr ∧ says = Failed (shape_text e)
  end.

(** The same of each wire in turn, from where the one before it left off. *)
Inductive shaped_in_turn (io : Env_) (up : list string) :
    list Action → list string → list (list Action * AppliedWire) → Prop :=
| none_left tr : shaped_in_turn io up tr [] []
| next_wire tr dev todo did says done : shaped io tr up dev did says →
    shaped_in_turn io up (tr ++ did) todo done →
    shaped_in_turn io up tr (dev :: todo) ((did, says) :: done).

Lemma shaped_in_turn_length io up tr todo done : shaped_in_turn io up tr todo done → length todo = length done.
Proof using Type. induction 1; cbn; congruence. Qed.

Lemma each_tc_run cmds io tr tr' :
  each tc_run cmds io tr = (tr', Ok tt) → tr' = tr ++ ((λ c, ARun c.1) <$> cmds).
Proof using Type.
  revert tr. induction cmds as [|c cmds IH]; intros tr; cbn [each].
  { intros [= <-]. by rewrite app_nil_r. }
  intros (t1 & [] & H1 & H2)%bind_Ok. unfold tc_run, exec, bind, ret in H1.
  destruct (h_run _ _) as [o|e]; [|done]. injection H1 as <-. rewrite (IH _ H2), <-app_assoc. done.
Qed.

Lemma shape_wire_Ok up rec dev io tr tr' rec' :
  shape_wire up rec dev io tr = (tr', Ok rec') →
  ∃ did says, tr' = tr ++ did ∧ rec' = <[dev := says]> rec ∧ shaped io tr up dev did says.
Proof using Type.
  unfold shape_wire. unfold bind at 1. rewrite read_cap_spec. unfold shaped.
  pose proof (measured_cap_bounds fs from_json io root me dir dev tr) as Hc.
  set (cap := measured_cap _ _ _ _ _ _ _ _) in *.
  destruct (derive v dev cap (is_in up)) as [d|e] eqn:Ed.
  - intros (t1 & [] & H1 & [= <- <-])%bind_Ok. apply each_tc_run in H1 as ->.
    eexists (_ ++ commands_of d), (Shaped (applied_classes d)). rewrite app_assoc.
    split; [done|]. split; [done|]. split; [exact Hc|]. by split.
  - intros [= <- <-]. eexists _, (Failed (shape_text e)). split; [done|]. split; [done|]. split; [exact Hc|]. by split.
Qed.

Lemma shape_wires_Ok up todo rec io tr tr' rec' :
  shape_wires up todo rec io tr = (tr', Ok rec') →
  ∃ done : list (list Action * AppliedWire),
    tr' = tr ++ mjoin done.*1 ∧ shaped_in_turn io up tr todo done ∧
    rec' = foldl (λ m p, <[p.1 := p.2]> m) rec (zip todo done.*2).
Proof using Type.
  revert rec tr. induction todo as [|dev todo IH]; intros rec tr; cbn [shape_wires].
  { intros [= <- <-]. exists []. cbn. rewrite app_nil_r. repeat split. constructor. }
  intros (t1 & rec1 & H1 & H2)%bind_Ok. apply shape_wire_Ok in H1 as (did & says & -> & -> & Hs).
  destruct (IH _ _ H2) as (l & -> & Hl & ->). exists ((did, says) :: l). cbn.
  rewrite <-app_assoc. repeat split. by constructor.
Qed.

Lemma foldl_lookup_other {A} (l : list (string * A)) (m : gmap string A) k :
  k ∉ l.*1 → foldl (λ m p, <[p.1 := p.2]> m) m l !! k = m !! k.
Proof using Type.
  revert m. induction l as [|[a x] l IH]; intros m; cbn; [done|]. rewrite not_elem_of_cons. intros [H1 H2].
  rewrite IH by done. by rewrite lookup_insert_ne.
Qed.

Lemma foldl_lookup {A} (l : list (string * A)) (m : gmap string A) k x :
  NoDup l.*1 → (k, x) ∈ l → foldl (λ m p, <[p.1 := p.2]> m) m l !! k = Some x.
Proof using Type.
  revert m. induction l as [|[a y] l IH]; intros m; cbn; [by intros _ ?%not_elem_of_nil|].
  rewrite list.NoDup_cons. intros [Ha Hn] [[= -> ->]|H]%elem_of_cons; [|by apply IH].
  rewrite foldl_lookup_other by done. by rewrite lookup_insert_eq.
Qed.

Lemma no_carrier_lookup up devs d :
  no_carrier up devs !! d = if bool_decide (d ∈ devs) && negb (is_in up d) then Some NoCarrier else None.
Proof using Type.
  unfold no_carrier. assert (∀ m : gmap string AppliedWire,
    foldl (λ m d, if is_in up d then m else <[d := NoCarrier]> m) m devs !! d =
    if bool_decide (d ∈ devs) && negb (is_in up d) then Some NoCarrier else m !! d) as ->.
  2: { rewrite lookup_empty. done. }
  induction devs as [|x devs IH]; intros m; cbn [foldl]; [done|]. rewrite IH.
  destruct (decide (d = x)) as [->|Hne].
  - rewrite (bool_decide_eq_true_2 (x ∈ x :: devs)) by (by left). cbn [andb].
    destruct (is_in up x); cbn [negb]; [by rewrite andb_false_r|]. rewrite lookup_insert_eq. by destruct (_ && true).
  - replace (bool_decide (d ∈ x :: devs)) with (bool_decide (d ∈ devs)).
    2: { apply bool_decide_ext. rewrite elem_of_cons. split; [by right|]. by intros [->|?]. }
    destruct (bool_decide (d ∈ devs) && negb (is_in up d)); [done|].
    destruct (is_in up x); [done|]. by rewrite lookup_insert_ne.
Qed.

Lemma is_in_iff l d : is_in l d = true ↔ d ∈ l.
Proof using Type.
  unfold is_in, any. rewrite List.existsb_exists. split.
  - intros (x & Hx & ->%String.eqb_eq). by apply list_elem_of_In.
  - intros Hd. exists d. rewrite <-list_elem_of_In. by rewrite String.eqb_refl.
Qed.

Lemma write_record_trace r io tr :
  ∃ more, (write_record r io tr) = (tr ++ AWrite record_tmp (sa_render r) :: more, Ok tt) ∧
    more `prefix_of` [ARename record_tmp record_path] ∧
    (more = [] ↔ is_ok (e_write (io tr) record_tmp (sa_render r)) = false).
Proof using Type.
  unfold write_record, write, rename, bind, attempt, ret. destruct (e_write _ _ _) as [[]|e]; cbn [is_ok].
  - exists [ARename record_tmp record_path]. rewrite <-app_assoc. by repeat split.
  - exists []. repeat split. by eexists.
Qed.

(** C36. C: the wires are shaped by what was measured of them, and the record says so. A reconverge
    that ends took the wires with a carrier, in order; for each, at its turn, it took the capacity of
    the local file, or where there is none the one this member published to its cluster (kept then as
    a copy), or none; derived the wire's tree from that capacity and that set of wires; and ran
    exactly that tree's tc program. The record it writes, once, to the temporary name and renames into
    place, names for each of these wires the classes of the tree whose program was run, whatever tc
    answered to it, or the words of the derivation that failed; and [NoCarrier] for every other. *)
Theorem reconverge_runs_what_was_measured devs io tr tr' msg up :
  NoDup devs →
  reconverge devs io tr = (tr', Ok (msg, up)) →
  up = List.filter (carrier (e_host (io tr))) devs ∧
  ∃ done record more,
    tr' = tr ++ mjoin done.*1 ++ AWrite record_tmp (sa_render record) :: more ∧
    more `prefix_of` [ARename record_tmp record_path] ∧
    shaped_in_turn io up tr up done ∧
    sa_tick record = epoch tr ∧
    (∀ dev says, (dev, says) ∈ zip up done.*2 → sa_wires record !! dev = Some says) ∧
    ∀ dev, dev ∉ up → sa_wires record !! dev = if bool_decide (dev ∈ devs) then Some NoCarrier else None.
Proof using Type.
  intros Hnd. unfold reconverge, clock, look. unfold bind at 1. cbn beta iota. unfold bind at 1. unfold bind at 1.
  set (u := up_of (e_host (io tr)) devs).
  intros (t1 & rec & H1 & H2)%bind_Ok. apply shape_wires_Ok in H1 as (l & -> & Hl & ->).
  assert (NoDup u) as Hu by (apply NoDup_ListNoDup, List.NoDup_filter, NoDup_ListNoDup; done).
  assert (length u = length l.*2) as Hlen by (rewrite length_fmap; by eapply shaped_in_turn_length).
  assert ((zip u l.*2).*1 = u) as Hz by (by apply fst_zip; rewrite Hlen).
  apply bind_Ok in H2 as (t2 & [] & H2 & H3). injection H3 as <- _ <-. split; [done|].
  match type of H2 with write_record ?r _ _ = _ => set (record := r) in * end.
  destruct (write_record_trace record io (tr ++ mjoin l.*1)) as (more & E & Hm & _).
  rewrite E in H2. injection H2 as <-. exists l, record, more. rewrite <-app_assoc. cbn [sa_tick sa_wires record].
  repeat split; [done|done|..].
  - intros dev says Hin. apply foldl_lookup; [|done]. by rewrite Hz.
  - intros dev Hd. rewrite foldl_lookup_other by (by rewrite Hz). rewrite no_carrier_lookup.
    replace (is_in u dev) with false; [by rewrite andb_true_r|].
    symmetry. apply not_true_iff_false. by rewrite is_in_iff.
Qed.
End daemon.

(** ** Measuring a wire *)

Record FloodSpec := {
  fl_peer : string; fl_port : Z; fl_payload : Z; fl_secs : Z; fl_threads : Z; fl_rate_mbit : Z
}.

Section measure.
Context (fs : list Action → Fs) (from_json : string → result string Members).
Context (from_str : string → result string Value) (refused : Refusal → Error).
(** The flood is an argument of the command. *)
Context (flood : FloodSpec → list Action → result Error unit).
Context (v : View) (root : string).
Let dir := f_run_dir (v_fabric v).

Definition no_wire (dev : string) : Error :=
  Fatal ("measure-cap: '" ++ dev ++ "' is not a wire in a zone's `segments` — refusing to measure").
Definition shares_admin (dev : string) (secs : Z) : string :=
  "measure-cap: '" ++ dev ++ "' carries an untagged admin path: an admin session shares it for the next "
    ++ show secs ++ "s (paced flood)" ++ newline.

Definition SHAPERS : list string := ["htb"; "tbf"; "cbq"; "hfsc"].
Definition qdisc_show (x : string) : list string := ["tc"; "qdisc"; "show"; "dev"; x].
Definition qdisc_kind (out : string) : string :=
  unwrap_or (head (lines out) ≫= λ l, split_whitespace l !! 1%nat) EmptyString.
Definition shaped_if (x : string) : IO (list string) :=
  out <~ exec (qdisc_show x) ;;
  ret (if bool_decide (qdisc_kind (stdout out) ∈ SHAPERS) then [x] else []).
Definition shaper_on (dev : string) (shaped : list string) : Error :=
  Fatal ("measure-cap: a shaper is on the egress path of '" ++ dev ++ "' (qdisc root on: "
    ++ String.concat " " shaped ++ ") — the flood would measure the shaper, not the wire. Remove it first "
    ++ "(tc qdisc replace dev <if> root fq_codel) and re-run").

Definition statfile (dev : string) : string := "/sys/class/net/" ++ dev ++ "/statistics/tx_bytes".
Definition no_stat (dev : string) : Error :=
  Fatal ("measure-cap: cannot read " ++ statfile dev ++ " — is '" ++ dev ++ "' a real interface on this host?").
Definition bytes_before (dev : string) (h : Host) : result Error Z :=
  match h_read h (statfile dev) with
  | Err _ => Err (no_stat dev)
  | Ok text =>
      match parse_uint u64_max (trim text) with
      | Some n => Ok n
      | None => Err (Fatal ("measure-cap: " ++ statfile dev ++ " is not a number"))
      end
  end.
Definition bytes_after (dev : string) (before : Z) (h : Host) : result Error Z :=
  match h_read h (statfile dev) with
  | Err e => Err e
  | Ok text => Ok (unwrap_or (parse_uint u64_max (trim text)) before)
  end.

Definition bfd_up (doc : Value) : option Z :=
  match index doc "bfd" with
  | Arr l => Some (Z.of_nat (length (List.filter (λ s, is_str (index s "state") "up") l)))
  | _ => None
  end.
Definition bfd_count : IO (option Z) :=
  r <~ attempt (state from_str (v_fabric v)) ;;
  ret match r with Ok doc => bfd_up doc | Err _ => None end.
Definition bfd_line (when : string) (n : option Z) : string :=
  match n with
  | Some n => "measure-cap: BFD up-count " ++ when ++ ": " ++ show n ++ " (warn-only sanity check)" ++ newline
  | None => EmptyString
  end.

Definition lease_held (e : Error) : Error :=
  let inner := display e in
  Fatal ("measure-cap: another member is measuring (cluster lease cfab-measure held); retry shortly — "
    ++ unwrap_or (strip_prefix "FATAL: " inner) inner).
Definition take_lease (is_clustered : bool) : IO (option string) :=
  if is_clustered then
    r <~ attempt (lock fs root "measure") ;;
    match r with Ok guard => ret (Some guard) | Err e => throw (lease_held e) end
  else ret None.
Definition give_lease (lease : option string) : IO unit :=
  match lease with Some guard => release fs guard | None => ret tt end.

(** [u64] arithmetic of the release build; [None] is the division by zero. *)
Definition mbps (before after secs : Z) : option Z :=
  if secs =? 0 then None
  else Some ((Z.max 0 (after - before) * 8) mod (u64_max + 1) / 1000000 / secs).

Definition publish_cap (is_clustered : bool) (dev content : string) : IO string :=
  if is_clustered then
    let me := m_name (v_member v) in
    let target := cap_path root me dev in
    r <~ attempt (orelse (fs_create_dir_all fs (member_caps_dir root me)) (cannot "create" (member_caps_dir root me)) >>~
                  publish_file fs target content) ;;
    ret match r with
        | Ok _ => newline ++ "measure-cap: cap published to " ++ target
        | Err _ => EmptyString
        end%string
  else ret EmptyString.

Definition flood_spec (peer : string) (secs rate : Z) : FloodSpec :=
  {| fl_peer := peer; fl_port := 9999; fl_payload := 1400; fl_secs := secs; fl_threads := 6; fl_rate_mbit := rate |}.

(** From the flood on, with the lease in hand: it is given back whatever the flood said. *)
Definition flooded (spec : FloodSpec) (lease : option string) : IO unit :=
  flooded <~ (λ _ tr, (tr, Ok (flood spec tr))) ;;
  released <~ attempt (give_lease lease) ;;
  lift flooded >>~ lift released.

(** [None] is the panic. *)
Definition measure (dev peer : string) (secs : Z) : IO (option string) :=
  rows <~ lift (match class_rows v with Ok rows => Ok rows | Err e => Err (refused e) end) ;;
  let sub_ifs := cr_ifname <$> List.filter (λ r, String.eqb (cr_wire r) dev) rows in
  if bool_decide (sub_ifs = []) then throw (no_wire dev)
  else
    shaped <~ gather shaped_if (dev :: sub_ifs) ;;
    if negb (bool_decide (shaped = [])) then throw (shaper_on dev shaped)
    else
      declared <~ lift (match link_speed v dev with Ok s => Ok s | Err e => Err (refused e) end) ;;
      let rate := declared * 12 / 10 in
      before_ <~ look (bytes_before dev) ;; before <~ lift before_ ;;
      n <~ bfd_count ;;
      members <~ probe fs from_json root ;;
      let is_clustered := clustered members in
      lease <~ take_lease is_clustered ;;
      flooded (flood_spec peer secs rate) lease >>~
      (n' <~ bfd_count ;;
       after_ <~ look (bytes_after dev before) ;; after <~ lift after_ ;;
       match mbps before after secs with
       | None => ret None
       | Some mbps =>
           mkdir_p dir >>~
           (let content := (show mbps ++ newline)%string in
            write (cap_file dir dev) content >>~
            (said <~ publish_cap is_clustered dev content ;;
             ret (Some ((if is_admin_if v dev then shares_admin dev secs else EmptyString)
               ++ bfd_line "before" n ++ bfd_line "after" n'
               ++ "measure-cap: dev=" ++ dev ++ " peer=" ++ peer ++ " secs=" ++ show secs ++ " offered=" ++ show rate
               ++ "Mb/s measured=" ++ show mbps ++ "Mb/s -> " ++ cap_file dir dev ++ said)%string)))
       end).
End measure.

(** ** Concrete runs *)
Module ShapeRun.
Import ShapeSample.
Definition devs : list string := ["eth0"; "eth1"].
(** [eth0] has a carrier; every command answers [code]. *)
Definition host (code : Z) : Host := {|
  h_run := λ _, Ok {| status := code; stdout := EmptyString; stderr := EmptyString |};
  h_read := λ p, if String.eqb p "/sys/class/net/eth0/carrier" then Ok ("1" ++ newline)%string
                 else if String.eqb p (cap_file (f_run_dir fabric) "eth0") then Ok ("1000" ++ newline)%string
                 else Err (Fatal "none");
  h_exists := λ _, false; h_is_writable := λ _, false;
  h_list_dir := λ _, Err (Fatal "none"); h_read_link := λ _, Err (Fatal "none") |}.
Definition env (code : Z) (_ : list Action) : Env := {|
  e_host := host code; e_write := λ _ _, Ok tt; e_rename := λ _ _, Ok tt; e_remove := λ _, Ok tt;
  e_mkdir := λ _, Ok tt; e_request := λ _ _, Err (Fatal "none"); e_probe := λ _ _, NotListening |}.
Definition text (_ : ShapeError) : string := "refused".
Definition shape (code : Z) :=
  reconverge (λ _, Mount.up) Mount.three text (λ _, 1) (λ _, 0) view devs (env code) [].

Definition runs_tc (a : Action) : bool := match a with ARun _ => true | _ => false end.
Definition one_wire (code : Z) : bool :=
  let out := shape code in
  match out.2 with
  | Ok (_, up) => bool_decide (up = ["eth0"%string])
                  && (length (List.filter runs_tc out.1) =? match tree with Ok d => length (tc_argv d) | _ => 0 end)%nat
  | Err _ => false
  end.
Example installs : one_wire 0 = true.
Proof. vm_compute. done. Qed.

(** The record says a wire was shaped whether or not tc took a single command. *)
Example recorded_though_refused : (shape 2).1 = (shape 0).1 ∧ one_wire 2 = true.
Proof. vm_compute. done. Qed.

(** A monitor that cannot be spawned ends the daemon with the wires as it shaped them. *)
Definition gives_back (a : Action) : bool := bool_decide (a = ARun (fq_codel "eth0")).
Definition whole_run (monitor : result string unit) :=
  run (λ _, Mount.up) Mount.three text (λ _, 1) (λ _, 0) view devs "2" (λ _, false)
    [Line "2: eth0: <BROADCAST>"; Quiet; Line "9: veth7@if2:"; Quiet] (Ok tt) monitor (env 0) [].
Example left_shaped :
  let out := whole_run (Err "no ip") in
  is_ok out.2 = false ∧ existsb runs_tc out.1 = true ∧ existsb gives_back out.1 = false.
Proof. vm_compute. done. Qed.
Example given_back : existsb gives_back (whole_run (Ok tt)).1 = true ∧ is_ok (whole_run (Ok tt)).2 = true.
Proof. vm_compute. done. Qed.

(** Lines of any link hold the gap open: the wire that went down waits for all of them. *)
Example chatter :
  touching_bursts devs [Line "2: eth0: <NO-CARRIER>"; Line "9: tap1:"; Line "9: tap1:"; Gone] = 0%nat ∧
  touching_bursts devs [Line "2: eth0: <NO-CARRIER>"; Line "9: tap1:"; Quiet; Line "9: tap1:"; Quiet] = 1%nat.
Proof. vm_compute. done. Qed.

Example zero_seconds : mbps 0 1000 0 = None.
Proof. done. Qed.
End ShapeRun.

Lemma debounced_witness :
  let bump (n : nat) : IO nat := ret (S n) in
  let events := [Line "2: eth0: x"; Line "2: eth0: y"; Quiet; Line "9: tap1:"; Quiet; Line "3: eth1@a"; Quiet; Gone] in
  event_loop (λ _, false) ShapeRun.devs bump events false 0%nat (ShapeRun.env 0) [] =
  again (touching_bursts ShapeRun.devs events) bump 0%nat (ShapeRun.env 0) [].
Proof. apply (debounced (λ _, false) ShapeRun.devs). by intros t. Defined.

Lemma reconverge_witness :
  let out := ShapeRun.shape 0 in
  ["eth0"%string] = List.filter (carrier (ShapeRun.host 0)) ShapeRun.devs ∧
  ∃ done record more,
    out.1 = [] ++ mjoin done.*1 ++ AWrite (record_tmp ShapeSample.view) (sa_render record) :: more ∧
    more `prefix_of` [ARename (record_tmp ShapeSample.view) (record_path ShapeSample.view)] ∧
    shaped_in_turn (λ _, Mount.up) Mount.three ShapeRun.text ShapeSample.view (ShapeRun.env 0) ["eth0"%string] [] ["eth0"%string] done ∧
    sa_tick record = 1 ∧
    (∀ dev says, (dev, says) ∈ zip ["eth0"%string] done.*2 → sa_wires record !! dev = Some says) ∧
    ∀ dev, dev ∉ ["eth0"%string] →
      sa_wires record !! dev = if bool_decide (dev ∈ ShapeRun.devs) then Some NoCarrier else None.
Proof.
  apply (reconverge_runs_what_was_measured (λ _, Mount.up) Mount.three ShapeRun.text (λ _, 1) (λ _, 0)
    ShapeSample.view ShapeRun.devs (ShapeRun.env 0) [] _ "shape-daemon: reconverge dt=0ms up=[eth0]").
  - apply (bool_decide_unpack _). vm_compute. done.
  - vm_compute. reflexivity.
Defined.
