(* ===== verification/StatusModel.v ===== *)
(** What [cfab status] found and how it says it (src/src/commands/status/model.rs, the pure half of
    src/src/commands/status.rs, and src/src/supervisor/report.rs): the supervisor's [components]
    document, the rows of a gather, the lines a leg and an ingress earn, and the report.

    Nothing here reads the host. A line is a [Class] with its words; how a gather comes by the rows
    is [Status]. *)
From Stdlib Require Import Ascii String.
From S2P Require Import Prelude Text Decl Sys Net Fabric Derive Actor Prober Child Legs.
Local Open Scope Z_scope.

(** ** The supervisor's document *)

Record SupervisorInfo := {
  sv_pid : Z; sv_uptime_s : Z; sv_applying : bool; sv_applies : Z; sv_last_apply_error : option string
}.
Record Component := {
  k_name : string; k_state : Child.State; k_pid : option Z; k_uptime_s : option Z; k_restarts : Z;
  k_last_exit : option ExitCause; k_why : option string
}.
Record WatchdogInfo := {
  wi_last_tick_s_ago : option Z; wi_result : string; wi_detail : option string
}.
Record WorkloadAnnounce := {
  wa_name : string; wa_ifname : string; wa_trigger : string; wa_announces : Z; wa_bursts : Z
}.
Record RelayInfo := {
  ri_name : string; ri_server : Ipv4Addr; ri_requests : Z; ri_replies : Z; ri_discovered : Z;
  ri_drops : Z; ri_last_error : option string
}.
Record Components := {
  cs_supervisor : SupervisorInfo;
  cs_components : list Component;
  cs_watchdog : WatchdogInfo;
  cs_ingress : list ProbedLeg;
  cs_fallback : list ProbedLeg;
  cs_workloads : list WorkloadAnnounce;
  cs_metrics_error : option string;
  cs_relays : list RelayInfo;
  cs_neighbor_rows : list NeighborRowInfo;
  cs_neighbor : option NeighborActorInfo
}.

(** The rows of one name: the children, the announcers, the relays. *)
Definition child_row (k : Components) (name : string) : option Component :=
  List.find (λ c, String.eqb (k_name c) name) (cs_components k).
Definition announce_row (k : Components) (name : string) : option WorkloadAnnounce :=
  List.find (λ w, String.eqb (wa_name w) name) (cs_workloads k).
Definition relay_row (k : Components) (name : string) : option RelayInfo :=
  List.find (λ r, String.eqb (ri_name r) name) (cs_relays k).

Local Open Scope string_scope.
Local Open Scope Z_scope.

(** [{m:02}]. *)
Definition two_digits (n : Z) : string := if n <? 10 then "0" ++ show n else show n.
Definition duration (secs : Z) : string :=
  let h := secs / 3600 in
  let m := secs mod 3600 / 60 in
  let s := secs mod 60 in
  if 0 <? h then show h ++ "h" ++ two_digits m ++ "m"
  else if 0 <? m then show m ++ "m" ++ two_digits s ++ "s"
  else show s ++ "s".

Definition opt_str {A} (f : A → string) (o : option A) : string :=
  match o with Some a => f a | None => EmptyString end.

Definition component (c : Component) : string :=
  k_name c ++ " " ++ Child.as_str (k_state c) ++ opt_str (λ u, " " ++ duration u) (k_uptime_s c)
    ++ " (" ++ match k_why c with
               | Some w => w
               | None =>
                   show (k_restarts c) ++ " restarts"
                     ++ opt_str (λ e, ", last exit " ++ ec_cause e ++ " " ++ show (ec_s_ago e) ++ "s ago")
                          (k_last_exit c)
               end ++ ")".
Definition watchdog (w : WatchdogInfo) : string :=
  "watchdog " ++ wi_result w
    ++ match wi_last_tick_s_ago w with
       | Some n => " " ++ show n ++ "s ago"
       | None => " (no tick yet)"
       end ++ opt_str (λ d, " (" ++ d ++ ")") (wi_detail w).
Definition render_line (c : Components) : string :=
  "components: " ++ String.concat " | "
    ((component <$> cs_components c) ++ [watchdog (cs_watchdog c)]
       ++ match sv_last_apply_error (cs_supervisor c) with
          | Some e => ["last apply: " ++ e]%string | None => [] end)%list.

(** ** The verdict *)

Inductive State := Up | UpDegraded | Failed | Down.
#[export] Instance State_eq_dec : EqDecision State.
Proof. solve_decision. Defined.
Definition word (s : State) : string :=
  match s with Up => "UP" | UpDegraded => "UP-DEGRADED" | Failed => "FAILED" | Down => "DOWN" end.
Definition code (s : State) : Z := match s with Up => 0 | UpDegraded => 1 | Failed => 2 | Down => 3 end.

Record Headline := {
  h_peers_up : Z; h_peers : Z; h_links_up : Z; h_links : Z; h_fallbacks_up : Z; h_fallbacks : Z
}.
Definition headline_default : Headline :=
  {| h_peers_up := 0; h_peers := 0; h_links_up := 0; h_links := 0; h_fallbacks_up := 0; h_fallbacks := 0 |}.
Definition headline_state (h : Headline) : State :=
  if (h_links_up h =? 0) && (h_fallbacks_up h =? 0) then Failed
  else if (h_links_up h =? h_links h) && (h_fallbacks_up h =? h_fallbacks h) then Up
  else UpDegraded.
Definition fields (h : Headline) : string :=
  show (h_peers_up h) ++ "/" ++ show (h_peers h) ++ " | " ++ show (h_links_up h) ++ "/" ++ show (h_links h)
    ++ " | " ++ show (h_fallbacks_up h) ++ "/" ++ show (h_fallbacks h).

Inductive Class := Settling | Standing.
#[export] Instance Class_eq_dec : EqDecision Class.
Proof. solve_decision. Defined.
Record Condition := { cond_class : Class; cond_text : string }.

(** [sort] and [dedup]: each text once, in byte order. *)
Definition once_each (l : list Condition) : list string :=
  dedup (merge_sort (leb_rel str_leb) (cond_text <$> l)).

(** ** Adjacencies *)

Record Adjacency := {
  a_zone : string; a_seg : option Z; a_peer_node : Z; a_peer_name : string;
  a_peer_addr : option string; a_up : bool
}.
Definition label (a : Adjacency) : string :=
  a_zone a ++ ":" ++ match a_seg a with Some s => show s | None => "fallback" end
    ++ ":." ++ show (a_peer_node a).
Definition down_line (a : Adjacency) : Class * string := (Settling, "down " ++ label a).

(** ** Legs *)

Inductive LegKind := Fallback | IngressLeg.
Inductive Reach := Unknown | Home | HomeSuspect | HomeDark | AllDark | Quiet.
#[export] Instance Reach_eq_dec : EqDecision Reach.
Proof. solve_decision. Defined.

Record LegPort := { lp_ifname : string; lp_wire : string; lp_absent : bool }.
Inductive HomeCarrier := NotRead | Unreadable | Value (s : string).
Record Bonding := {
  b_mii_status : string; b_active_slave : string; b_home_carrier : HomeCarrier;
  b_slaves : result string (list string)
}.
Record BondLeg := {
  bl_kind : LegKind; bl_zone : string; bl_ifname : string; bl_home : string;
  bl_router : option string; bl_reach : Reach; bl_ports : list LegPort; bl_bonding : option Bonding
}.

Definition port_named (ports : list LegPort) (name : string) : option LegPort :=
  List.find (λ p, String.eqb (lp_ifname p) name) ports.
Definition active_wire (l : BondLeg) : option string :=
  b ← bl_bonding l; lp_wire <$> port_named (bl_ports l) (b_active_slave b).
Definition on_home (l : BondLeg) : bool := opt_eqb (active_wire l) (Some (bl_home l)).

(** What the prober's row says of a zone's leg. *)
Definition reach (rows : option (list ProbedLeg)) (zone home : string) : Reach :=
  match rows ≫= List.find (λ i, String.eqb (r_zone i) zone) with
  | None => Unknown
  | Some row =>
      if bool_decide (length (r_ports row) = 0%nat) then Unknown
      else if all (λ s, negb (r_reachable s)) (r_ports row) then AllDark
      else if r_quiet row then Quiet
      else match List.find (λ s, String.eqb (r_wire s) home) (r_ports row) with
           | Some s => if negb (r_reachable s) then HomeDark
                       else if r_suspect s then HomeSuspect else Home
           | None => Home
           end
  end.

Section leg_lines.
Context (leg : BondLeg).
Let zone := bl_zone leg.
Let ifname := bl_ifname leg.
Let home := bl_home leg.

Definition subject : string :=
  match bl_kind leg with Fallback => zone ++ " fallback" | IngressLeg => zone ++ " ingress" end.
Definition noun : string := match bl_kind leg with Fallback => "peers" | IngressLeg => "router" end.
Definition dark : string :=
  match bl_kind leg with
  | Fallback => zone ++ " fallback no carrier"
  | IngressLeg => zone ++ " gw " ++ unwrap_or (bl_router leg) EmptyString ++ " unreachable (ingress leg "
                    ++ ifname ++ " has no live port)"
  end.

(** The leg carries on [wire], which is not its home. *)
Definition away_line (wire : string) (c : HomeCarrier) : Class * string :=
  let via := subject ++ " via " ++ wire in
  match c with
  | Value s =>
      if negb (String.eqb s "1") then (Standing, via)
      else match bl_reach leg with
           | HomeDark => (Standing, via ++ " (home " ++ home ++ ": " ++ noun ++ " unreachable)")
           | HomeSuspect => (Settling, via ++ " (home " ++ home ++ ": no " ++ noun ++ " heard)")
           | _ => (Standing, via ++ " (home " ++ home ++ " has carrier)")
           end
  | Unreadable | NotRead => (Standing, via ++ " (home " ++ home ++ " carrier unreadable)")
  end.

(** The grade of the leg itself: at most one line. *)
Definition grade_lines (b : Bonding) : list (Class * string) :=
  let active := b_active_slave b in
  if negb (String.eqb (b_mii_status b) "up") then
    if negb (String.eqb active EmptyString) && negb (any (λ s, String.eqb (lp_ifname s) active) (bl_ports leg))
    then [(Settling, subject ++ " down with foreign port " ++ active ++ " active")]
    else [(Settling, dark)]
  else match bl_reach leg with
       | AllDark => [(Settling, subject ++ ": " ++ noun ++ " unreachable on every wire")]
       | Quiet => [(Settling, subject ++ ": no " ++ noun ++ " heard on any wire")]
       | _ =>
           match active_wire leg with
           | None => [(Settling, subject ++ ": " ++ ifname ++ " is up with no port of ours active (active_slave="
                                   ++ debug_str active ++ ")")]
           | Some wire => if String.eqb wire home then [] else [away_line wire (b_home_carrier b)]
           end
       end.

Definition unattached_line (s : LegPort) : Class * string :=
  (Settling, subject ++ ": port " ++ lp_ifname s ++ " on " ++ lp_wire s ++ " is not a port of " ++ ifname
               ++ " — re-run cfab up").
Definition foreign_port_line (name : string) : Class * string :=
  (Standing, subject ++ ": " ++ ifname ++ " has a foreign port " ++ name).

(** What the list of the bond's ports says, port by port. *)
Definition port_lines (slaves : result string (list string)) : list (Class * string) :=
  match slaves with
  | Err e => [(Settling, subject ++ ": /sys/class/net/" ++ ifname ++ "/bonding/slaves unreadable (" ++ e ++ ")")]
  | Ok listed =>
      ((unattached_line <$> List.filter (λ s, negb (bool_decide (lp_ifname s ∈ listed)))
                              (List.filter (λ s, negb (lp_absent s)) (bl_ports leg)))
       ++ (foreign_port_line <$> List.filter (λ n, negb (any (λ s, String.eqb (lp_ifname s) n) (bl_ports leg)))
                                   listed))%list
  end.

Definition leg_reasons : list (Class * string) :=
  match bl_bonding leg with
  | None => [(Settling, subject ++ ": " ++ ifname ++ " is not a bond (/sys/class/net/" ++ ifname
                          ++ "/bonding unreadable) — re-run cfab up")]
  | Some b => (grade_lines b ++ port_lines (b_slaves b))%list
  end.
End leg_lines.

(** ** Ingress *)

Record Ingress := {
  ig_zone : string; ig_router : string; ig_table : string; ig_default_present : bool;
  ig_default_linkdown : bool; ig_ifname : option string; ig_cidr : string;
  ig_cidr_present : option bool; ig_bond : option BondLeg; ig_bgp_state : option string;
  ig_bgp_pfx_snt : option Z
}.

Definition default_lines (i : Ingress) : list (Class * string) :=
  let head := ig_zone i ++ " gw " ++ ig_router i ++ " unreachable (table " ++ ig_table i in
  if negb (ig_default_present i) then [(Settling, head ++ " has no default)")]
  else if ig_default_linkdown i
       then [(Settling, head ++ " default is linkdown - the ingress leg has no carrier)")]
  else [].
Definition address_lines (i : Ingress) : list (Class * string) :=
  match ig_ifname i, ig_cidr_present i with
  | Some ifname, Some false =>
      [(Settling, ig_zone i ++ " ingress leg " ++ ifname ++ " missing or not " ++ ig_cidr i)]
  | _, _ => []
  end.
Definition bgp_lines (i : Ingress) : list (Class * string) :=
  let head := ig_zone i ++ " ingress: bgp " ++ ig_router i ++ " " in
  match ig_bgp_state i, ig_bgp_pfx_snt i with
  | Some state, sent =>
      if negb (String.eqb state "Established") then
        [(Settling, head ++ state ++ " (not Established - the router is not learning this zone's identities)")]
      else if opt_eqb sent (Some 0) then
        [(Settling, head ++ "Established but advertising nothing (0 sent prefixes - the neighbor afi-safi "
                      ++ "export policy is not attached)")]
      else []
  | None, _ => []
  end.
Definition ingress_reasons (i : Ingress) : list (Class * string) :=
  (default_lines i ++ match ig_bond i with Some b => leg_reasons b | None => [] end
     ++ address_lines i ++ bgp_lines i)%list.

(** ** Workloads *)

Inductive WorkloadState := WUp | WDeferred | WAnnouncerNotStarted | WBroken.
#[export] Instance WorkloadState_eq_dec : EqDecision WorkloadState.
Proof. solve_decision. Defined.
Definition is_up (s : WorkloadState) : bool := match s with WUp => true | _ => false end.

Record GuardDrops := { gd_claim : Z; gd_request : Z }.
Record RelayStatus := {
  rs_server : Ipv4Addr; rs_requests : Z; rs_replies : Z; rs_drops : Z; rs_last_error : option string
}.
Record WorkloadStatus := {
  ws_name : string; ws_uplink : string; ws_vid : Z; ws_leg : string; ws_address : string; ws_gw : string;
  ws_up : bool; ws_state : WorkloadState; ws_zones : list string; ws_uplink_ports : list string;
  ws_trigger : option string; ws_proxy_arp : option bool; ws_vms_seen : option Z;
  ws_guard_drops : option GuardDrops; ws_bytes : option (Z * Z); ws_stray_forwards : option Z;
  ws_relay : option RelayStatus
}.

Definition relay_part (r : RelayStatus) : string :=
  ", relay to " ++ show_addr (rs_server r) ++ " (" ++ show (rs_requests r) ++ " requests, "
    ++ show (rs_replies r) ++ " replies, " ++ show (rs_drops r) ++ " dropped"
    ++ opt_str (λ e, ", last error: " ++ e) (rs_last_error r) ++ ")".
Definition workload_line (w : WorkloadStatus) : string :=
  "  workload " ++ ws_name w ++ ": " ++ ws_uplink w ++ " vid " ++ show (ws_vid w) ++ " (" ++ ws_leg w ++ ") "
    ++ ws_address w ++ " gw " ++ ws_gw w ++ " " ++ (if ws_up w then "up" else "down") ++ ", host-local, "
    ++ match ws_proxy_arp w with
       | Some true => "proxy-arp on" | Some false => "proxy-arp off" | None => "proxy-arp unreadable"
       end
    ++ ", advertised to " ++ String.concat ", " (ws_zones w)
    ++ ", uplink " ++ match ws_uplink_ports w with [] => "-" | l => String.concat ", " l end
    ++ ", announce trigger " ++ match ws_trigger w with
                                | Some t => if String.eqb t EmptyString then "-" else t
                                | None => "-"
                                end
    ++ opt_str (λ n, ", " ++ show n ++ " vms seen") (ws_vms_seen w)
    ++ opt_str (λ n, ", " ++ show n ++ " stray forwards") (ws_stray_forwards w)
    ++ opt_str relay_part (ws_relay w).

(** ** The default this member's own traffic takes *)

Inductive DefaultPath := PFabric (via dev : string) | PFloor (via dev : string) | PNone.
Inductive DefaultReason := RouterUnreachable | NoGwZone | Withdrawn.
Definition reason_word (r : DefaultReason) : string :=
  match r with
  | RouterUnreachable => "router unreachable" | NoGwZone => "no gw zone" | Withdrawn => "withdrawn"
  end.
Record HostDefault := { hd_path : DefaultPath; hd_reason : option DefaultReason }.
Definition host_default_line (d : HostDefault) : string :=
  match hd_path d with
  | PFabric via dev => "via fabric gw " ++ via ++ " (" ++ dev ++ ")"
  | PFloor via dev => "via floor " ++ via ++ " (" ++ dev ++ ")"
  | PNone => "none"
  end ++ opt_str (λ r, ", " ++ reason_word r) (hd_reason d).

(** ** The report *)

Record MemberInfo := { mi_name : string; mi_kind : MemberKind; mi_version : string }.
Definition kind_word (m : MemberInfo) : string :=
  match mi_kind m with Decl.Host => "host" | Leaf => "leaf" end.

Record StatusModel := {
  st_member : MemberInfo; st_state : State; st_headline : option Headline;
  st_adjacencies : list Adjacency; st_fallbacks : list BondLeg; st_ingress : list Ingress;
  st_workloads : list WorkloadStatus; st_conditions : list Condition;
  st_components : option Components; st_prefs : list HostZonePref; st_run_dir : string;
  st_host_default : option HostDefault
}.
Definition is_settling (m : StatusModel) : bool :=
  any (λ c, bool_decide (cond_class c = Settling)) (st_conditions m).

(** A reason's own lines: the first indented once, the rest twice. *)
Definition reason_lines (r : string) : list string :=
  match lines r with
  | [] => []
  | l :: more => ("  " ++ l) :: ((λ l, "    " ++ l) <$> more)
  end.

Definition headline (m : StatusModel) : string :=
  word (st_state m) ++ " (" ++ match st_headline m with Some h => fields h | None => "fabric not applied" end
    ++ ") on " ++ mi_name (st_member m) ++ " (" ++ kind_word (st_member m) ++ ")".
Definition components_line (m : StatusModel) : string :=
  match st_components m with
  | Some k => "  " ++ render_line k
  | None => "  components: no supervisor answering on " ++ st_run_dir m ++ "/cfab.sock"
  end.
Definition report_lines (m : StatusModel) (with_components : bool) : list string :=
  ([headline m]
   ++ (once_each (st_conditions m) ≫= reason_lines)
   ++ ((λ p, "  prefs " ++ pref_render p)%string <$> st_prefs m)
   ++ (workload_line <$> st_workloads m)
   ++ ((λ d, "  default: " ++ host_default_line d)%string <$> option_list (st_host_default m))
   ++ (if with_components then [components_line m] else []))%list.

Record StatusReport := { rp_state : State; rp_code : Z; rp_output : string }.
Definition exit_code (permissive : bool) (s : State) : Z :=
  if permissive && bool_decide (s ∈ [Up; UpDegraded]) then 0 else code s.
Definition render_text (m : StatusModel) (permissive with_components : bool) : StatusReport :=
  {| rp_state := st_state m; rp_code := exit_code permissive (st_state m);
     rp_output := String.concat EmptyString ((λ l, l ++ lf) <$> report_lines m with_components) |}.
