(* ===== verification/Status.v ===== *)
(** [cfab status] (src/src/commands/status.rs): one gather of what this member's fabric is doing, the
    verdict it carries, and the wait for it to settle.

    A pass of the gather is a [Gather]: an [IO] with the lines and rows found so far ([Ctx]) threaded
    through, as the source threads [&mut Ctx]; an error ends the gather and the rows with it. What a
    line says is [StatusModel]'s. *)
From Stdlib Require Import Ascii String.
From S2P Require Import Prelude Text Supervisor Shape Prober Watchdog ShapeDaemon Decl Sys Net Fabric.
From S2P Require Import Derive Validate Child EngineState Uplink HostRoutes Rules Legs Emit EngineCtl StatusModel.
Local Open Scope Z_scope.

(** ** What a gather has found so far *)

Record Ctx := mk_ctx {
  c_reasons : list (Class * string);
  c_adjacencies : list Adjacency;
  c_fallbacks : list StatusModel.BondLeg;
  c_ingress : list Ingress;
  c_workloads : list WorkloadStatus;
  c_broken_workloads : gset string
}.
Definition ctx_default : Ctx := mk_ctx [] [] [] [] [] ∅.

Definition push (l : list (Class * string)) (c : Ctx) : Ctx :=
  mk_ctx (c_reasons c ++ l) (c_adjacencies c) (c_fallbacks c) (c_ingress c) (c_workloads c)
    (c_broken_workloads c).
Definition push_adjacency (a : Adjacency) (c : Ctx) : Ctx :=
  let c := push (if a_up a then [] else [down_line a]) c in
  mk_ctx (c_reasons c) (c_adjacencies c ++ [a]) (c_fallbacks c) (c_ingress c) (c_workloads c)
    (c_broken_workloads c).
Definition push_fallback (l : StatusModel.BondLeg) (c : Ctx) : Ctx :=
  let c := push (leg_reasons l) c in
  mk_ctx (c_reasons c) (c_adjacencies c) (c_fallbacks c ++ [l]) (c_ingress c) (c_workloads c)
    (c_broken_workloads c).
Definition push_ingress (i : Ingress) (c : Ctx) : Ctx :=
  let c := push (ingress_reasons i) c in
  mk_ctx (c_reasons c) (c_adjacencies c) (c_fallbacks c) (c_ingress c ++ [i]) (c_workloads c)
    (c_broken_workloads c).
Definition push_workload (w : WorkloadStatus) (c : Ctx) : Ctx :=
  mk_ctx (c_reasons c) (c_adjacencies c) (c_fallbacks c) (c_ingress c) (c_workloads c ++ [w])
    (c_broken_workloads c).
Definition mark_broken (name : string) (c : Ctx) : Ctx :=
  mk_ctx (c_reasons c) (c_adjacencies c) (c_fallbacks c) (c_ingress c) (c_workloads c)
    (c_broken_workloads c ∪ {[name]}).
Definition conditions (c : Ctx) : list Condition :=
  (λ r, {| cond_class := r.1; cond_text := r.2 |}) <$> c_reasons c.

(** ** A pass *)

Definition Gather (A : Type) : Type := Ctx → IO (Ctx * A).

Definition gret {A} (a : A) : Gather A := λ c, ret (c, a).
Definition gbind {A B} (m : Gather A) (k : A → Gather B) : Gather B := λ c,
  bind (m c) (λ x, k x.2 x.1).
Definition sys {A} (m : IO A) : Gather A := λ c, bind m (λ a, ret (c, a)).
Definition update (f : Ctx → Ctx) : Gather unit := λ c, ret (f c, tt).
Definition gets {A} (f : Ctx → A) : Gather A := λ c, ret (c, f c).

Declare Scope gather_scope.
Delimit Scope gather_scope with gather.
Notation "x <- m ;; k" := (gbind m (λ x, k))
  (at level 100, m at next level, k at level 200, right associativity) : gather_scope.
Notation "m ;;; k" := (gbind m (λ _, k))
  (at level 100, k at level 200, right associativity) : gather_scope.
Local Open Scope gather_scope.

Definition say (l : list (Class * string)) : Gather unit := update (push l).
Definition settling (t : string) : Gather unit := say [(Settling, t)].
Definition standing (t : string) : Gather unit := say [(Standing, t)].
Definition gwhen (b : bool) (m : Gather unit) : Gather unit := if b then m else gret tt.

Fixpoint geach {A} (f : A → Gather unit) (l : list A) : Gather unit :=
  match l with
  | [] => gret tt
  | x :: l' => f x ;;; geach f l'
  end.
Fixpoint gfold {S A} (f : S → A → Gather S) (s : S) (l : list A) : Gather S :=
  match l with
  | [] => gret s
  | x :: l' => s <- f s x ;; gfold f s l'
  end.

(** What the host's files say, and what a file says or the empty string. *)
Definition see {A} (f : Host → A) : Gather A := sys (look f).
Definition text_of (path : string) : Gather string := see (λ h, or_empty (h_read h path)).
Definition stdout_of (argv : list string) : Gather string := sys (bind (exec argv) (λ o, ret (stdout o))).

(** ** Packet counters in a listing *)

(** The number after the first [counter], when [packets] follows it. *)
Definition counter_of (line : string) : option Z :=
  let w := split_whitespace line in
  i ← position (String.eqb "counter") w;
  if opt_eqb (w !! S i) (Some "packets"%string) then n ← w !! S (S i); parse_uint u64_max n else None.

Definition commented (comment line : string) : bool := has_substring ("comment " ++ quoted comment)%string line.
Definition counter_packets (chain comment : string) : option Z :=
  List.find (commented comment) (lines chain) ≫= counter_of.
Definition counters (chain comment : string) : list Z :=
  omap (λ l, counter_packets l comment) (List.filter (commented comment) (lines chain)).
Definition counter_packets_sum (chain comment : string) : option Z :=
  match counters chain comment with [] => None | l => Some (foldl u64_add 0 l) end.
Definition counter_packets_for (chain comment iifname : string) : Z :=
  foldl u64_add 0
    (omap (λ l, if commented comment l then counter_of l else None)
       (List.filter (has_substring ("iifname " ++ quoted iifname)%string) (lines chain))).

(** ** Who holds a UDP port *)

Definition strip_suffix (suffix s : string) : option string :=
  if ends_with suffix s
  then Some (String.substring 0 (String.length s - String.length suffix) s) else None.

(** [u16::from_str_radix(s, 16)]. *)
Definition u16_hex (s : string) : option Z :=
  let body := match s with
              | String c s' => if Ascii.eqb c "+"%char then s' else s
              | EmptyString => s
              end in
  match body with
  | EmptyString => None
  | _ => n ← hex_val 0 body; if n <=? u16_max then Some n else None
  end.

Definition INODE_COL : nat := 9.
Definition udp_row_inode (port : Z) (line : string) : option Z :=
  let f := split_whitespace line in
  addr ← f !! 1%nat;
  '(_, hex) ← rsplit_once ":"%char addr;
  p ← u16_hex hex;
  if p =? port then i ← f !! INODE_COL; parse_uint u64_max i else None.
Definition udp_table_inodes (table : string) (port : Z) : list Z := omap (udp_row_inode port) (lines table).

Definition udp_inodes_on (h : Host) (port : Z) (engine_bound : bool) : list Z :=
  path ← List.filter (λ p, negb engine_bound || negb (ends_with "6" p)) ["/proc/net/udp"; "/proc/net/udp6"]%string;
  match h_read h path with Ok table => udp_table_inodes table port | Err _ => [] end.

Definition socket_inode (h : Host) (pid fd : string) : option Z :=
  match h_read_link h ("/proc/" ++ pid ++ "/fd/" ++ fd)%string with
  | Err _ => None
  | Ok target =>
      rest ← strip_prefix "socket:[" target; n ← strip_suffix "]" rest; parse_uint u64_max n
  end.
Definition socket_inodes (h : Host) (pid : string) : list Z :=
  omap (socket_inode h pid) (or_nil (h_list_dir h ("/proc/" ++ pid ++ "/fd")%string)).

Definition zombie : string := ("State:" ++ String "009"%char "Z")%string.
Definition is_bfdd (h : Host) (pid : string) : bool :=
  match h_read h ("/proc/" ++ pid ++ "/comm")%string with
  | Ok comm => String.eqb (trim comm) "bfdd"
  | Err _ => false
  end && negb (has_substring zombie (or_empty (h_read h ("/proc/" ++ pid ++ "/status")%string))).
Definition bfdd_pids (h : Host) : list string :=
  List.filter (is_bfdd h) (List.filter (str_forall is_digit) (or_nil (h_list_dir h "/proc"))).

Definition is_enabled (unit_ : string) : list string := ["systemctl"; "is-enabled"; unit_ ++ ".service"]%string.
Fixpoint enabled_of (units : list string) : IO (list string) :=
  (match units with
   | [] => ret []
   | u :: units =>
       o <~ try_run (is_enabled u) ;;
       us <~ enabled_of units ;;
       ret (if is_some_and o (λ o, String.eqb (trim (stdout o)) "enabled") then u :: us else us)
   end)%cmd.
Definition bfd_units : IO (list string) := enabled_of ["frr"; "bfdd"]%string.

(** What a line calls the holder, and the handle its remedy names; [None]: nothing provably not
    the engine's own. *)
Definition is_running (k : Component) : bool := bool_decide (k_state k = Child.Running).
Definition holder_words (pid : string) (units : list string) : string :=
  ("bfdd (" ++ String.concat ", " (("pid " ++ pid) :: ((λ u, u ++ ".service enabled") <$> units)) ++ ")")%string.
Definition holder_handle (pid : string) (units : list string) : BfdHolder :=
  match or_else (List.find (String.eqb "bfdd") units) (head units) with
  | Some u => Unit u
  | None => Pid pid
  end.
Definition port_holder (holder : option string) (units : list string) (engine : option Component)
    : option (string * BfdHolder) :=
  match holder with
  | Some pid => Some (holder_words pid units, holder_handle pid units)
  | None =>
      if is_some_and engine (λ e, negb (is_running e)) then Some ("another process"%string, EngineCtl.Unknown)
      else None
  end.

Definition port_custody (port : Z) (engine : option Component) : Gather bool :=
  bound <- see (λ h, udp_inodes_on h port (is_some_and engine is_running)) ;;
  match bound with
  | [] => gret false
  | _ =>
      units <- sys bfd_units ;;
      holder <- see (λ h, List.find (λ pid, any (λ i, bool_decide (i ∈ bound)) (socket_inodes h pid)) (bfdd_pids h)) ;;
      match port_holder holder units engine with
      | None => gret false
      | Some (what, remedy) =>
          standing ("bfd udp/" ++ show port ++ ": " ++ what ++ " holds this port, which the engine needs exclusively") ;;;
          standing ("remedy: " ++ bfd_port_remedy remedy port) ;;;
          gret true
      end
  end.

(** ** A bond leg *)

Record LegSpec := {
  sp_kind : LegKind; sp_zone : string; sp_ifname : string; sp_home : string; sp_router : option string;
  sp_ports : list Port; sp_reach : Reach
}.
Definition bonding_path (ifname file : string) : string :=
  ("/sys/class/net/" ++ ifname ++ "/bonding/" ++ file)%string.
Definition leg_ports (absent : gset string) (ports : list Port) : list LegPort :=
  (λ p, {| lp_ifname := po_ifname p; lp_wire := po_wire p;
           lp_absent := bool_decide (po_ifname p ∈ absent) |}) <$> ports.

(** The carrier of the home wire, read only where it decides: a bond that is up, with somebody
    reachable, on a port that is not home. *)
Definition home_carrier (h : Host) (spec : LegSpec) (ports : list LegPort) (mii active : string) : HomeCarrier :=
  let off_home := is_some_and (port_named ports active) (λ p, negb (String.eqb (lp_wire p) (sp_home spec))) in
  if String.eqb mii "up" && negb (bool_decide (sp_reach spec ∈ [AllDark; Quiet])) && off_home then
    match h_read h ("/sys/class/net/" ++ sp_home spec ++ "/carrier")%string with
    | Ok s => StatusModel.Value (trim s)
    | Err _ => Unreadable
    end
  else NotRead.
Definition read_slaves (h : Host) (ifname : string) : result string (list string) :=
  match h_read h (bonding_path ifname "slaves") with
  | Ok s => Ok (split_whitespace s)
  | Err e => Err (display e)
  end.
Definition read_bonding (h : Host) (spec : LegSpec) (ports : list LegPort) : option Bonding :=
  match h_read h (bonding_path (sp_ifname spec) "mii_status"),
        h_read h (bonding_path (sp_ifname spec) "active_slave") with
  | Ok mii, Ok active =>
      let mii := trim mii in
      let active := trim active in
      Some {| b_mii_status := mii; b_active_slave := active;
              b_home_carrier := home_carrier h spec ports mii active;
              b_slaves := read_slaves h (sp_ifname spec) |}
  | _, _ => None
  end.
Definition read_bond_leg (h : Host) (absent : gset string) (spec : LegSpec) : StatusModel.BondLeg :=
  let ports := leg_ports absent (sp_ports spec) in
  {| bl_kind := sp_kind spec; bl_zone := sp_zone spec; bl_ifname := sp_ifname spec;
     bl_home := sp_home spec; bl_router := sp_router spec; bl_reach := sp_reach spec; bl_ports := ports;
     bl_bonding := read_bonding h spec ports |}.

(** ** What the declaration expects *)

Record ExpectedLink := { x_node : Z; x_name : string; x_zone : string; x_seg : Z; x_addr : string }.

Definition expected_link (f : Fabric) (m : Member) (shared : string) : result Refusal ExpectedLink :=
  match split_once ":"%char shared with
  | None => Err (Panics "zone:seg")
  | Some (z, seg) =>
      zn <-? zone f z ;;
      match parse_uint u8_max seg with
      | None => Err (Panics "seg number")
      | Some n =>
          Ok {| x_node := m_node m; x_name := m_name m; x_zone := z; x_seg := n;
                x_addr := (block_of zn ++ "." ++ show n ++ "." ++ show (m_node m))%string |}
      end
  end.
Definition links_to (f : Fabric) (ours : gset string) (m : Member) : result Refusal (list ExpectedLink) :=
  theirs <-? segments_of f m ;;
  collect (expected_link f m) (btree_set_iter str_leb (ours ∩ theirs)).
Definition others (v : View) : list Member :=
  List.filter (λ m, negb (String.eqb (m_name m) (m_name (v_member v)))) (f_members (v_fabric v)).
Definition expected_links (v : View) : result Refusal (list ExpectedLink) :=
  ours <-? segments_of (v_fabric v) (v_member v) ;;
  try_bind (links_to (v_fabric v) ours) (others v).

(** Who else carries the zone's fallback row. *)
Definition has_fallback (f : Fabric) (z : string) (m : Member) : result Refusal (list Member) :=
  rows <-? fallback_rows_of f m ;;
  Ok (if any (λ p, String.eqb (fr_zone p) z) rows then [m] else []).
Definition fallback_peers (v : View) (z : string) : result Refusal (list Member) :=
  try_bind (has_fallback (v_fabric v) z) (others v).

(** ** The counts *)

Record Tally := mk_tally {
  t_links : Z; t_links_up : Z; t_fallbacks : Z; t_fallbacks_up : Z;
  t_peers : gset Z; t_peers_up : gset Z;
  t_up_legs : gset (Z * string * Z);
  t_two_way : gset (Z * string)
}.
Definition tally0 : Tally := mk_tally 0 0 0 0 ∅ ∅ ∅ ∅.
Definition count_link (e : ExpectedLink) (up : bool) (t : Tally) : Tally :=
  mk_tally (t_links t + 1) (t_links_up t + (if up then 1 else 0)) (t_fallbacks t) (t_fallbacks_up t)
    (t_peers t ∪ {[x_node e]}) (if up then t_peers_up t ∪ {[x_node e]} else t_peers_up t)
    (if up then t_up_legs t ∪ {[(x_node e, x_zone e, x_seg e)]} else t_up_legs t) (t_two_way t).
Definition expect_fallback (t : Tally) (m : Member) : Tally :=
  mk_tally (t_links t) (t_links_up t) (t_fallbacks t + 1) (t_fallbacks_up t)
    (t_peers t ∪ {[m_node m]}) (t_peers_up t) (t_up_legs t) (t_two_way t).
Definition count_two_way (z : string) (m : Member) (up : bool) (t : Tally) : Tally :=
  if up then
    mk_tally (t_links t) (t_links_up t) (t_fallbacks t) (t_fallbacks_up t + 1)
      (t_peers t) (t_peers_up t ∪ {[m_node m]}) (t_up_legs t) (t_two_way t ∪ {[(m_node m, z)]})
  else t.
Definition headline_of (t : Tally) : Headline :=
  {| h_peers_up := Z.of_nat (size (t_peers_up t)); h_peers := Z.of_nat (size (t_peers t));
     h_links_up := t_links_up t; h_links := t_links t; h_fallbacks_up := t_fallbacks_up t;
     h_fallbacks := t_fallbacks t |}.

Definition link_row (up : bool) (e : ExpectedLink) : Adjacency :=
  {| a_zone := x_zone e; a_seg := Some (x_seg e); a_peer_node := x_node e; a_peer_name := x_name e;
     a_peer_addr := Some (x_addr e); a_up := up |}.
Definition fallback_adjacency (z : string) (m : Member) (up : bool) : Adjacency :=
  {| a_zone := z; a_seg := None; a_peer_node := m_node m; a_peer_name := m_name m; a_peer_addr := None;
     a_up := up |}.

(** The addresses of the sessions the engine says are up. *)
Definition up_peers (doc : EngineState.Value) : list string :=
  omap (λ s, as_str (index s "peer"))
    (List.filter (λ s, is_str (index s "state") "up") (as_array (index doc "bfd"))).

(** ** Routes *)

(** A way to a peer: its cost, its interface, whether it is the fallback bond. *)
Definition Way : Type := Z * string * bool.
Definition cheaper (a b : Way) : bool :=
  (a.1.1 <? b.1.1)
  || ((a.1.1 =? b.1.1) && match String.compare a.1.2 b.1.2 with Lt => true | _ => false end).

Definition route_dev (target : string) : Gather (option string * string) :=
  out <- stdout_of ["ip"; "route"; "get"; target] ;;
  let route_line := trim (unwrap_or (head (lines out)) EmptyString) in
  gret (after_key "dev" (split_whitespace route_line), route_line).

(** A workload's pref-2000 sibling, silent when the kernel lists it. *)
Definition sibling_return_reason (siblings : list FabricRule) (blk prefix r2000 : string) : option string :=
  let needle_ := ("from " ++ blk ++ " to " ++ prefix ++ " lookup main")%string in
  match List.find (λ r, String.eqb (needle r) needle_) siblings with
  | Some r => if has_substring (needle r) r2000 then None
              else Some ("return path missing: pref 2000 " ++ needle r)%string
  | None => Some ("return path missing: pref 2000 " ++ needle_
                    ++ " (workload_return_rules never emitted this rule)")%string
  end.

(** Whether two renderings of the forward policy differ in anything an apply would repair. *)
Definition drifted (want have : string) : bool :=
  negb (String.eqb (without_local_elements want) (without_local_elements have)).

(** ** The passes *)

Section status.
(** [serde_json::from_str] into a document, into the supervisor's and into a child's log; the text of
    a refusal; [CARGO_PKG_VERSION]. *)
Context (from_str : string → result string EngineState.Value).
Context (parse_components : string → option Components) (parse_log : string → option (list string)).
Context (refused : Refusal → Error) (version : string).
Context (v : View) (d : Rows).
Let f := v_fabric v.

Definition ok_of {E A} (r : result E A) : option A := match r with Ok a => Some a | Err _ => None end.
Definition derived {A} (r : result Refusal A) : Gather A :=
  sys (lift (match r with Ok a => Ok a | Err e => Err (refused e) end)).

Definition cfab_sock : string := (f_run_dir f ++ "/cfab.sock")%string.
Definition run_file (name : string) : string := (f_run_dir f ++ "/" ++ name)%string.

Definition ask_supervisor (line : string) : IO (option string) :=
  (r <~ attempt (request cfab_sock (line ++ lf)) ;; ret (ok_of r))%cmd.
Definition read_components : IO (option Components) :=
  (r <~ ask_supervisor "components" ;; ret (r ≫= parse_components))%cmd.

(** *** The engine *)

Definition engine_row (comps : option Components) : option Component :=
  k ← comps; child_row k "engine".
Definition engine_down_reason (comps : option Components) : string :=
  match engine_row comps with
  | Some e =>
      "engine not running: the supervisor reports it " ++ Child.as_str (k_state e) ++ ", "
        ++ show (k_restarts e) ++ " restart(s)" ++ opt_str (λ x, ", last exit " ++ ec_cause x)%string (k_last_exit e)
  | None =>
      "engine not running: no supervisor answering on " ++ cfab_sock ++ " — start it (systemctl start cfab)"
  end%string.

Definition bind_reasons (line : string) (port : Z) : Gather unit :=
  standing ("bfd udp/" ++ show port ++ ": the engine is not running and could not bind it — " ++ line) ;;;
  standing ("remedy: " ++ bfd_bind_remedy line port).
Definition bfd_port_ (comps : option Components) : Gather unit :=
  let port := bd_port (f_bfd f) in
  let engine := engine_row comps in
  said <- port_custody port engine ;;
  if said then gret tt
  else match engine with
       | None => gret tt
       | Some e =>
           if is_running e then gret tt
           else
             reply <- sys (ask_supervisor "log engine 200") ;;
             match reply ≫= parse_log with
             | None => gret tt
             | Some log =>
                 match bfd_bind_error_line (String.concat lf log) port with
                 | Some line => bind_reasons line port
                 | None => gret tt
                 end
             end
       end.

(** *** Interfaces *)

Definition gone_wires (h : Host) : gset string :=
  list_to_set (List.filter (λ w, negb (h_exists h ("/sys/class/net/" ++ w)%string)) (rw_wires d)).
Definition gone_ports (wires : gset string) (ports : list Port) : list string :=
  po_ifname <$> List.filter (λ p, bool_decide (po_wire p ∈ wires)) ports.
Definition absent_ifs (h : Host) : gset string :=
  let wires := gone_wires h in
  wires
  ∪ list_to_set (cr_ifname <$> List.filter (λ r, bool_decide (cr_wire r ∈ wires)) (rw_class d))
  ∪ list_to_set (r ← rw_gw d;
                 if migrates r then gone_ports wires (gr_ports r)
                 else if bool_decide (gr_home r ∈ wires) then [gr_ifname r] else [])
  ∪ list_to_set (r ← rw_fallback d; gone_ports wires (fr_ports r)).

Definition if_file (absent : gset string) (ifname path : string) : Gather (option string) :=
  if bool_decide (ifname ∈ absent) then gret None
  else
    r <- see (λ h, h_read h path) ;;
    match r with
    | Ok s => gret (Some s)
    | Err e => settling (path ++ " unreadable (" ++ display e ++ ")") ;;; gret None
    end.
Definition forwarding_of (absent : gset string) (ifname : string) : Gather (option string) :=
  v <- if_file absent ifname (conf_path ifname "forwarding") ;; gret (trim <$> v).
Definition not_zero (v : option string) : bool := is_some_and v (λ v, negb (String.eqb v "0")).

Definition check_rp_filter (absent : gset string) (ifname : string) : Gather unit :=
  if bool_decide (ifname ∈ absent) then gret tt
  else
    got <- see (λ h, match h_read h (conf_path ifname "rp_filter") with
                     | Ok s => trim s | Err _ => "missing"%string
                     end) ;;
    gwhen (negb (String.eqb got "2"))
      (settling ("rp_filter " ++ ifname ++ "=" ++ got ++ " (want 2 = loose)")).

(** *** A leaf *)

Definition identity_pair (z : Zone) : list string := [identity_if z; (identity_if z ++ "-peer")%string].
Definition leaf_forwarding (absent : gset string) (ifname : string) : Gather unit :=
  v <- forwarding_of absent ifname ;;
  gwhen (not_zero v) (settling (ifname ++ " forwarding!=0 (a leaf never transits)")).

Definition shown_rules (pref : string) : Gather string := stdout_of (rule_show pref).
Definition leak_guard (z : Zone) : Gather unit :=
  let blk := zone_blk z in
  r1000 <- shown_rules "1000" ;;
  gwhen (negb (has_substring ("to " ++ blk ++ " iif lo lookup main")%string r1000))
    (settling ("leak guard missing: pref 1000 to " ++ blk ++ " iif lo lookup main")) ;;;
  r1001 <- shown_rules "1001" ;;
  gwhen (negb (has_substring ("to " ++ blk ++ " unreachable")%string r1001))
    (settling ("leak guard missing: pref 1001 to " ++ blk ++ " unreachable")).

Definition transit_rows (z : Zone) : list (Z * Z) :=
  ((λ r, (cr_seg r, cr_ospf_cost r)) <$> List.filter (λ r, String.eqb (cr_zone r) (z_name z)) (rw_class d))
  ++ ((λ r, (fr_seg r, fr_ospf_cost r)) <$> List.filter (λ r, String.eqb (fr_zone r) (z_name z)) (rw_fallback d)).
Definition link_below (z : Zone) (link : EngineState.Value) : bool :=
  let metric := unwrap_or (as_u64 (index link "metric")) 0 in
  let addr := unwrap_or (as_str (index link "if")) EmptyString in
  let row := List.find (λ r, String.eqb (segment_addr v z r.1) addr) (transit_rows z) in
  (metric <? f_leaf_cost_offset f)
  || is_some_and row (λ r, negb (metric =? u32_add r.2 (f_leaf_cost_offset f))).
Definition transit_below (doc : EngineState.Value) (z : Zone) : bool :=
  any (link_below z)
    (List.filter (λ l, is_transit (index l "type"))
       (as_array (index (index (index doc "ospf") (z_name z)) "self_lsa_links"))).
Definition never_transit (doc : EngineState.Value) (z : Zone) : Gather unit :=
  gwhen (transit_below doc z)
    (settling ("ospf " ++ show (z_id z) ++ ": a transit link in our router LSA is advertised below "
       ++ "`[cost] leaf_offset`=" ++ show (f_leaf_cost_offset f)
       ++ " (we could be chosen as a transit) — re-run cfab up")).

Definition leaf_posture (doc : option EngineState.Value) (absent : gset string) : Gather unit :=
  geach (leaf_forwarding absent) (fabric_legs d ++ (f_zones f ≫= identity_pair)) ;;;
  geach leak_guard (f_zones f) ;;;
  match doc with
  | None => gret tt
  | Some doc => geach (never_transit doc) (f_zones f)
  end.

(** *** A host that forwards *)

Definition policy_posture : Gather string :=
  want <- derived (policy v) ;;
  loaded <- text_of (run_file "policy.nft") ;;
  gwhen (drifted want loaded) (standing "policy drift — re-run cfab up") ;;;
  live <- sys (exec ["nft"; "-s"; "list"; "table"; "inet"; "cfab-fwd"]%string) ;;
  applied <- text_of (run_file "policy.applied") ;;
  gwhen (negb (output_ok live) || drifted (stdout live) applied) (standing "ruleset drift — re-run cfab up") ;;;
  chain <- stdout_of ["nft"; "list"; "chain"; "inet"; "cfab-fwd"; "forward"]%string ;;
  gwhen (negb (has_substring "policy drop;" chain))
    (standing ("transit disabled: table inet cfab-fwd / chain forward with policy drop is not loaded "
       ++ "— re-run cfab up")) ;;;
  gret chain.

Definition foreign_posture : Gather unit :=
  blocked <- sys (unresolved_forward_drops from_str) ;;
  match blocked with
  | [] => gret tt
  | _ =>
      geach (λ b, standing ("transit blocked by a foreign forward-hook chain: " ++ b)) blocked ;;;
      standing (foreign_forward_remedy (List.filter (λ p, p.2) (rw_owned d)).*1)
  end.

Definition admin_counter (chain counter : string) : Gather unit :=
  let tried n := standing (counter ++ " counter = " ++ n ++ " (something tried to transit "
                             ++ String.concat " " (admin_ifs v) ++ ")") in
  match counter_packets chain counter with
  | Some 0 => gret tt
  | Some n => tried (show n)
  | None => tried "absent"%string
  end.
Definition admin_forwarding (absent : gset string) (ifname : string) : Gather unit :=
  v <- forwarding_of absent ifname ;; gwhen (not_zero v) (settling (ifname ++ " forwarding=1")).
Definition admin_posture (absent : gset string) (chain : string) : Gather unit :=
  match admin_ifs v with
  | [] => gret tt
  | ifs =>
      geach (admin_counter chain) ["admin-in"; "admin-out"]%string ;;;
      geach (admin_forwarding absent) ifs
  end.

Definition owned_forwards (absent : gset string) (present : list string) (p : string * bool) : Gather unit :=
  if negb (bool_decide (p.1 ∈ present)) then gret tt
  else
    v <- forwarding_of absent p.1 ;;
    match v with
    | None => gret tt
    | Some v =>
        if p.2 && negb (String.eqb v "1") then
          settling (p.1 ++ " forwarding=0 (class-table interface should forward)")
        else if negb p.2 && negb (String.eqb v "0") then
          settling (p.1 ++ " forwarding=1 (cfab interface that must not transit)")
        else gret tt
    end.

Definition WATCHDOG_STALE_SECS : Z := 10.
Definition watchdog_posture (comps : option Components) : Gather unit :=
  match (k ← comps; wi_last_tick_s_ago (cs_watchdog k)) with
  | Some ago =>
      gwhen (WATCHDOG_STALE_SECS <? ago)
        (settling ("forwarding watchdog not ticking (last tick " ++ show ago ++ "s ago) — the actuator is down"))
  | None => gret tt
  end.

Definition transit_posture (comps : option Components) (absent : gset string) : Gather unit :=
  chain <- policy_posture ;;
  foreign_posture ;;;
  admin_posture absent chain ;;;
  present <- sys conf_interfaces ;;
  geach (owned_forwards absent present) (rw_owned d) ;;;
  watchdog_posture comps.

(** *** A host that does not *)

Definition owns (ifname : string) : bool :=
  starts_with "cfab-" ifname || any (λ p, String.eqb p.1 ifname) (rw_owned d).
Definition plain_forwarding (absent : gset string) (ifname : string) : Gather unit :=
  if negb (owns ifname) then gret tt
  else
    v <- forwarding_of absent ifname ;;
    gwhen (not_zero v) (settling (conf_path ifname "forwarding" ++ " = 1 with `[forward] enabled`=0")).
Definition plain_posture (absent : gset string) : Gather unit :=
  table <- sys (exec ["nft"; "list"; "table"; "inet"; "cfab-fwd"]%string) ;;
  gwhen (output_ok table) (standing "`[forward] enabled`=0 but table inet cfab-fwd is loaded") ;;;
  ifs <- sys conf_interfaces ;;
  geach (plain_forwarding absent) ifs.

Definition posture (doc : option EngineState.Value) (comps : option Components) (absent : gset string)
    : Gather unit :=
  geach (check_rp_filter absent) (fabric_legs d) ;;;
  match m_kind (v_member v) with
  | Leaf => leaf_posture doc absent
  | Decl.Host => if f_host_forward f then transit_posture comps absent else plain_posture absent
  end.

(** *** Return paths *)

Definition return_2000 (blk r2000 : string) : Gather unit :=
  let needle_ := ("from " ++ blk ++ " to " ++ blk ++ " lookup main suppress_prefixlength 0")%string in
  gwhen (negb (has_substring needle_ r2000)) (settling ("return path missing: pref 2000 " ++ needle_)).

Definition broken (name reason : string) : Gather unit := settling reason ;;; update (mark_broken name).
Definition route_get_from (target ident : string) : list string :=
  ["ip"; "route"; "get"; target; "from"; ident]%string.
Definition workload_return (z : Zone) (r2000 : string) (w : Workload) : Gather unit :=
  let prefix := prefix_show (wl_prefix w) in
  match sibling_return_reason (workload_return_rules v) (zone_blk z) prefix r2000 with
  | Some reason => broken (wl_name w) reason
  | None => gret tt
  end ;;;
  let ident := identity_addr v z in
  let target := show_addr (first_host (wl_prefix w)) in
  got <- sys (exec (route_get_from target ident)) ;;
  if output_ok got then gret tt
  else
    let stderr_ := trim (stderr got) in
    let err := unwrap_or (strip_prefix "RTNETLINK answers: " stderr_) stderr_ in
    broken (wl_name w)
      ("workload " ++ wl_name w ++ ": no route to " ++ prefix ++ " from " ++ ident ++ " (ip route get "
         ++ target ++ " from " ++ ident ++ ": " ++ err ++ ")").

Definition return_2001 (blk id r2001 : string) : Gather unit :=
  gwhen (negb (any (λ l, ends_with ("from " ++ blk ++ " lookup " ++ id)%string (trim_end l)) (lines r2001)))
    (settling ("return path missing: pref 2001 from " ++ blk ++ " lookup " ++ id)).
Definition return_2002 (blk r2002 : string) : Gather unit :=
  gwhen (negb (has_substring ("from " ++ blk ++ " unreachable")%string r2002))
    (settling ("return path missing: pref 2002 from " ++ blk ++ " unreachable")).

Definition allowed_in (z : Zone) : list Workload :=
  List.filter (λ w, bool_decide (z_name z ∈ wl_allow w)) (f_workloads f).
Definition zone_return (z : Zone) : Gather unit :=
  let blk := zone_blk z in
  r2000 <- shown_rules "2000" ;;
  return_2000 blk r2000 ;;;
  geach (workload_return z r2000) (allowed_in z) ;;;
  r2001 <- shown_rules "2001" ;;
  return_2001 blk (show (z_id z)) r2001 ;;;
  r2002 <- shown_rules "2002" ;;
  return_2002 blk r2002.

(** *** Ingress *)

Definition default_routes (table : string) : list string := List.filter (starts_with "default ") (lines table).
Definition is_dead (l : string) : bool := has_substring "linkdown" l || has_substring "dead" l.
Definition bare_ingress (z : Zone) (gw : ZoneGw) (leg : option GwRow) (table : string) : Ingress :=
  let defaults := default_routes table in
  {| ig_zone := z_name z; ig_router := gw_router gw; ig_table := show (z_id z);
     ig_default_present := negb (bool_decide (defaults = []));
     ig_default_linkdown := is_none_or leg (λ l, negb (migrates l)) && any is_dead defaults;
     ig_ifname := None; ig_cidr := leg_cidr gw (m_node (v_member v)); ig_cidr_present := None;
     ig_bond := None; ig_bgp_state := None; ig_bgp_pfx_snt := None |}.

Definition ingress_spec (z : Zone) (gw : ZoneGw) (comps : option Components) (leg : GwRow) : LegSpec :=
  {| sp_kind := IngressLeg; sp_zone := z_name z; sp_ifname := gr_ifname leg; sp_home := gr_home leg;
     sp_router := Some (gw_router gw); sp_ports := gr_ports leg;
     sp_reach := reach (cs_ingress <$> comps) (z_name z) (gr_home leg) |}.
Definition with_leg (i : Ingress) (leg : GwRow) (bond : option StatusModel.BondLeg) (addr : string) : Ingress :=
  {| ig_zone := ig_zone i; ig_router := ig_router i; ig_table := ig_table i;
     ig_default_present := ig_default_present i; ig_default_linkdown := ig_default_linkdown i;
     ig_ifname := Some (gr_ifname leg); ig_cidr := ig_cidr i;
     ig_cidr_present := Some (has_substring (" " ++ ig_cidr i)%string addr);
     ig_bond := bond; ig_bgp_state := None; ig_bgp_pfx_snt := None |}.
Definition with_session (i : Ingress) (entry : option EngineState.Value) : Ingress :=
  {| ig_zone := ig_zone i; ig_router := ig_router i; ig_table := ig_table i;
     ig_default_present := ig_default_present i; ig_default_linkdown := ig_default_linkdown i;
     ig_ifname := ig_ifname i; ig_cidr := ig_cidr i; ig_cidr_present := ig_cidr_present i;
     ig_bond := ig_bond i;
     ig_bgp_state := Some (unwrap_or (entry ≫= λ n, as_str (index n "state")) "absent"%string);
     ig_bgp_pfx_snt := Some (unwrap_or (entry ≫= λ n, as_u64 (index n "pfx_snt")) 0) |}.
Definition session_with (doc : EngineState.Value) (router : string) : option EngineState.Value :=
  List.find (λ n, is_str (index n "peer") router) (as_array (index doc "bgp")).

Definition br_addr (dev : string) : list string := ["ip"; "-4"; "-br"; "addr"; "show"; "dev"; dev]%string.
Definition ingress_of (z : Zone) (gw : ZoneGw) (doc : option EngineState.Value) (comps : option Components)
    (absent : gset string) : Gather unit :=
  let leg := List.find (λ r, String.eqb (gr_zone r) (z_name z)) (rw_gw d) in
  table <- stdout_of ["ip"; "route"; "show"; "table"; show (z_id z)]%string ;;
  let row := bare_ingress z gw leg table in
  match leg with
  | None => update (push_ingress row)
  | Some leg =>
      bond <- see (λ h, if migrates leg then Some (read_bond_leg h absent (ingress_spec z gw comps leg)) else None) ;;
      addr <- stdout_of (br_addr (gr_ifname leg)) ;;
      let row := with_leg row leg bond addr in
      update (push_ingress (match doc with
                            | None => row
                            | Some doc => with_session row (session_with doc (gw_router gw))
                            end))
  end.

Definition zone_return_and_ingress (doc : option EngineState.Value) (comps : option Components)
    (absent : gset string) (z : Zone) : Gather unit :=
  zone_return z ;;;
  match z_gw z, m_kind (v_member v) with
  | Some gw, Decl.Host => ingress_of z gw doc comps absent
  | _, _ => gret tt
  end.
Definition return_path_and_ingress (doc : option EngineState.Value) (comps : option Components)
    (absent : gset string) : Gather unit :=
  geach (zone_return_and_ingress doc comps absent) (f_zones f).

(** *** Workload rows *)

Definition relay_status (comps : option Components) (wl : Workload) : option RelayStatus :=
  (λ server,
     match (k ← comps; relay_row k (wl_name wl)) with
     | Some r => {| rs_server := server; rs_requests := ri_requests r; rs_replies := ri_replies r;
                    rs_drops := ri_drops r; rs_last_error := ri_last_error r |}
     | None => {| rs_server := server; rs_requests := 0; rs_replies := 0; rs_drops := 0;
                  rs_last_error := None |}
     end) <$> wl_dhcp_server wl.

Definition of_workload (wl : Workload) (text : string) : string := ("workload " ++ wl_name wl ++ ": " ++ text)%string.

Definition deferred_row (comps : option Components) (row : WorkloadRow) : WorkloadStatus :=
  let wl := wr_wl row in
  {| ws_name := wl_name wl; ws_uplink := wl_uplink wl; ws_vid := wl_vid wl; ws_leg := leg_ifname wl;
     ws_address := wr_address row; ws_gw := gw_cidr wl; ws_up := is_up WDeferred; ws_state := WDeferred;
     ws_zones := wl_allow wl; ws_uplink_ports := []; ws_trigger := None; ws_proxy_arp := None;
     ws_vms_seen := None; ws_guard_drops := None; ws_bytes := None; ws_stray_forwards := None;
     ws_relay := relay_status comps wl |}.
Definition deferred_workload (comps : option Components) (row : WorkloadRow) : Gather unit :=
  let wl := wr_wl row in
  there <- see (λ h, bridge_present h (wl_uplink wl)) ;;
  settling (of_workload wl
    (if there then "deferred (the apply warning in the journal names why; the watchdog installs it when that clears)"
     else "waiting for bridge " ++ wl_uplink wl ++ " (the watchdog installs the leg when it appears)")) ;;;
  update (push_workload (deferred_row comps row)).

(** A line, and a fault of the row. *)
Definition fault (b : bool) (text : string) : Gather bool :=
  if b then settling text ;;; gret true else gret false.

(** The leg, its addresses and its uplink: the ports, and whether something is missing. *)
Definition workload_leg (row : WorkloadRow) (link : Output) : Gather (list string * bool) :=
  let wl := wr_wl row in
  let leg := leg_ifname wl in
  if negb (output_ok link) then
    settling (of_workload wl ("leg " ++ leg ++ " does not exist (the watchdog rebuilds it)")) ;;; gret ([], true)
  else
    addr <- stdout_of (br_addr leg) ;;
    b1 <- fault (negb (has_ip_addr addr (wr_address row)))
            (of_workload wl ("address " ++ wr_address row ++ " missing on " ++ leg)) ;;
    b2 <- fault (negb (has_ip_addr addr (gw_cidr wl)))
            (of_workload wl ("gw " ++ gw_cidr wl ++ " missing on " ++ leg)) ;;
    up <- see (λ h, identify_declared h (wl_uplink wl) (wl_vid wl)) ;;
    match up with
    | Ok up => gret (up_ports up, b1 || b2)
    | Err e => standing (of_workload wl e) ;;; gret ([], true)
    end.

Definition read_proxy_arp (h : Host) (leg : string) : option bool :=
  match h_read h (conf_path leg "proxy_arp") with
  | Ok s => Some (String.eqb (trim s) "1")
  | Err _ => None
  end.
Definition arp_ignore (h : Host) : string :=
  match h_read h (conf_path "all" "arp_ignore") with Ok s => trim s | Err _ => "unreadable"%string end.

Definition guard_drops_of (bridge : option Output) (ports : list string) : option GuardDrops :=
  match bridge with
  | Some table =>
      if output_ok table && negb (bool_decide (ports = [])) then
        let total comment := foldl u64_add 0 (counter_packets_for (stdout table) comment <$> ports) in
        Some {| gd_claim := total "gw-claim-from-uplink"%string;
                gd_request := total "gw-request-from-uplink"%string |}
      else None
  | None => None
  end.
Definition stat_of (h : Host) (ifname file : string) : option Z :=
  match h_read h ("/sys/class/net/" ++ ifname ++ "/statistics/" ++ file)%string with
  | Ok s => parse_uint u64_max (trim s)
  | Err _ => None
  end.
Definition sysfs_bytes (h : Host) (ifname : string) : option (Z * Z) :=
  rx ← stat_of h ifname "rx_bytes"; tx ← stat_of h ifname "tx_bytes"; Some (rx, tx).

Definition count_vms (wl : Workload) (ports : list string) (neigh fdb : Output) : option Z :=
  if negb (output_ok neigh) || negb (output_ok fdb) then None
  else
    vms ← local_vms (λ s, ok_of (from_str s)) (stdout neigh) (stdout fdb) v wl ports;
    let n := Z.of_nat (size vms) in
    if n <=? u32_max then Some n else None.
Definition local_vms_seen (wl : Workload) : IO (option Z) :=
  (up <~ look (λ h, identify_declared h (wl_uplink wl) (wl_vid wl)) ;;
   match up with
   | Err _ => ret None
   | Ok up =>
       neigh <~ try_run (neigh_show wl) ;;
       match neigh with
       | None => ret None
       | Some neigh =>
           fdb <~ try_run (fdb_show wl) ;;
           ret (fdb ≫= count_vms wl (up_ports up) neigh)
       end
   end)%cmd.

Definition state_of (is_broken not_started : bool) : WorkloadState :=
  if is_broken then WBroken else if not_started then WAnnouncerNotStarted else WUp.

Definition proxy_arp_text (leg : string) (p : option bool) : string :=
  "net.ipv4.conf." ++ leg ++ ".proxy_arp is " ++ (match p with Some _ => "0" | None => "unreadable" end)
    ++ " (want 1; every host's leg answers for the remote VMs it routes)".

Definition workload_row (comps : option Components) (arp : string) (bridge : option Output)
    (fwd_chain : string) (row : WorkloadRow) : Gather unit :=
  let wl := wr_wl row in
  let leg := leg_ifname wl in
  link <- sys (exec ["ip"; "-br"; "link"; "show"; "dev"; leg]%string) ;;
  leg_found <- workload_leg row link ;;
  b_arp <- fault (negb (String.eqb arp "1"))
             (of_workload wl ("net.ipv4.conf.all.arp_ignore is " ++ arp ++ " (want 1)")) ;;
  proxy <- see (λ h, read_proxy_arp h leg) ;;
  b_proxy <- fault (output_ok link && negb (opt_eqb proxy (Some true))) (of_workload wl (proxy_arp_text leg proxy)) ;;
  b_guard <- fault (negb (is_some_and bridge output_ok))
               (of_workload wl "bridge table cfab missing (uplink ARP guard down)") ;;
  b_return <- gets (λ c, bool_decide (wl_name wl ∈ c_broken_workloads c)) ;;
  let announce := k ← comps; announce_row k (wl_name wl) in
  let not_started := is_some_and comps (λ _, true) && negb (is_some_and announce (λ _, true)) in
  gwhen not_started (settling (of_workload wl "announcer not started")) ;;;
  let state := state_of (leg_found.2 || b_arp || b_proxy || b_guard || b_return) not_started in
  bytes <- see (λ h, sysfs_bytes h leg) ;;
  vms <- (if is_up state then sys (local_vms_seen wl) else gret None) ;;
  update (push_workload
    {| ws_name := wl_name wl; ws_uplink := wl_uplink wl; ws_vid := wl_vid wl; ws_leg := leg;
       ws_address := wr_address row; ws_gw := gw_cidr wl; ws_up := is_up state; ws_state := state;
       ws_zones := wl_allow wl; ws_uplink_ports := leg_found.1; ws_trigger := wa_trigger <$> announce;
       ws_proxy_arp := proxy; ws_vms_seen := vms; ws_guard_drops := guard_drops_of bridge leg_found.1;
       ws_bytes := bytes; ws_stray_forwards := counter_packets_sum fwd_chain ("stray-" ++ wl_name wl);
       ws_relay := relay_status comps wl |}).

Definition workload_posture (comps : option Components) : Gather unit :=
  match workload_rows v with
  | [] => gret tt
  | rows =>
      deferred <- see (λ h, deferred_names h v) ;;
      arp <- see arp_ignore ;;
      nft <- sys (have_tool "nft") ;;
      bridge <- (if nft then o <- sys (exec ["nft"; "list"; "table"; "bridge"; "cfab"]%string) ;; gret (Some o)
                 else gret None) ;;
      fwd_chain <- (if is_some_and bridge (λ _, true)
                    then stdout_of ["nft"; "list"; "chain"; "inet"; "cfab-fwd"; "forward"]%string
                    else gret EmptyString) ;;
      geach (λ row, if bool_decide (wl_name (wr_wl row) ∈ deferred) then deferred_workload comps row
                    else workload_row comps arp bridge fwd_chain row) rows
  end.

(** *** Marks, the ceiling and the shaper *)

Definition mark_backend (h : Host) : Backend := unwrap_or (recorded_backend h (f_run_dir f)) Nft.
Definition mark_drift_line : string := "mark drift — re-run cfab up".
(** What [up] would render, where it wrote it, and what the kernel holds of it. *)
Definition mark_state (b : Backend) : Gather (string * string * Output) :=
  match b with
  | Nft =>
      want <- derived (mark_table v) ;;
      live <- sys (exec ["nft"; "-s"; "list"; "table"; "inet"; "cfab"]%string) ;;
      gret (want, run_file "mark.nft", live)
  | IptablesLegacy =>
      save <- sys (exec ["iptables-legacy-save"; "-t"; "mangle"]%string) ;;
      want <- derived (ceiling_ipt v) ;;
      gret (want, run_file "mark.ipt",
            {| status := status save; stdout := ours (stdout save); stderr := stderr save |})
  end.
Definition mark_drift : Gather unit :=
  backend <- see mark_backend ;;
  standing (backend_status_line backend) ;;;
  m <- mark_state backend ;;
  let '(want, path, live) := m in
  loaded <- text_of path ;;
  gwhen (negb (String.eqb want loaded)) (standing mark_drift_line) ;;;
  applied <- text_of (run_file "mark.applied") ;;
  gwhen (negb (output_ok live) || negb (String.eqb (stdout live) applied)) (standing mark_drift_line).

Definition ceiling_listing (b : Backend) : list string :=
  match b with
  | Nft => ["nft"; "list"; "table"; "inet"; "cfab"]
  | IptablesLegacy => ["iptables-legacy-save"; "-c"; "-t"; "mangle"]
  end%string.
Definition ceiling_dropped (b : Backend) (listing zone : string) : option Z :=
  match b with
  | Nft => counter_packets listing ("ceiling-" ++ zone)
  | IptablesLegacy => drop_packets listing zone
  end.
Definition ceiling_counter (b : Backend) (listing : string) (ce : Ceiling) : Gather unit :=
  match ceiling_dropped b listing (ce_zone ce) with
  | Some n =>
      gwhen (0 <? n)
        (standing (ce_zone ce ++ " fallback: control egress ceiling tripped (" ++ show n ++ " drops, limit "
                     ++ show (ce_rate_pps ce) ++ "/s)"))
  | None => gret tt
  end.
Definition ceiling_counters : Gather unit :=
  ces <- derived (ceilings v) ;;
  match ces with
  | [] => gret tt
  | _ =>
      backend <- see mark_backend ;;
      listing <- sys (exec (ceiling_listing backend)) ;;
      if output_ok listing then geach (ceiling_counter backend (stdout listing)) ces else gret tt
  end.

Definition shape_class_there (live : string) (c : string * string) : bool :=
  any (λ l, has_substring ("class htb " ++ c.1 ++ " ")%string l && has_substring (" rate " ++ c.2 ++ " ")%string l)
    (lines live).
Definition shape_class (dev live : string) (c : string * string) : Gather unit :=
  gwhen (negb (shape_class_there live c))
    (standing ("shape drift on " ++ dev ++ ": class " ++ c.1 ++ " want rate " ++ c.2)).
Definition shape_wire_posture (record : ShapeApplied) (dev : string) : Gather unit :=
  match sa_wires record !! dev with
  | None => settling ("shape not applied on " ++ dev ++ " yet — shape-daemon has no record for it")
  | Some NoCarrier => gret tt
  | Some (Shape.Failed e) => standing ("shape derivation for " ++ dev ++ " failed: " ++ e)
  | Some (Shaped classes) =>
      live <- stdout_of ["tc"; "class"; "show"; "dev"; dev]%string ;;
      geach (shape_class dev live) classes
  end.
Definition shaper_down (comps : option Components) : option Component :=
  k ← comps; sd ← child_row k "shape-daemon"; if is_running sd then None else Some sd.
Definition shape_posture (comps : option Components) : Gather unit :=
  match m_kind (v_member v), shaper_down comps with
  | Leaf, _ => gret tt
  | Decl.Host, Some sd =>
      settling ("shaping down: shape-daemon is " ++ Child.as_str (k_state sd) ++ ", " ++ show (k_restarts sd)
                  ++ " restart(s)")
  | Decl.Host, None =>
      let path := shape_applied_path (f_run_dir f) in
      record <- see (λ h, ok_of (h_read h path) ≫= λ t, ok_of (sa_parse t)) ;;
      match record with
      | None => settling ("no shape record yet at " ++ path ++ " — shape-daemon has not applied")
      | Some r => geach (shape_wire_posture r) (rw_wires d)
      end
  end.

(** *** Wires *)

Definition driver_in (out : string) : string :=
  match head (omap (strip_prefix "driver:") (lines out)) with Some l => trim l | None => "?" end.
(** The driver's name, and whether [ethtool] could not be run at all. *)
Definition driver_name (wire : string) : IO (string * bool) :=
  (o <~ try_run ["ethtool"; "-i"; wire]%string ;;
   ret match o with
       | Some out => if output_ok out then (driver_in (stdout out), false) else ("?"%string, false)
       | None => ("?"%string, true)
       end)%cmd.
Definition wire_carries (h : Host) (wire : string) : bool :=
  match h_read h ("/sys/class/net/" ++ wire ++ "/carrier")%string with
  | Ok s => String.eqb (trim s) "1"
  | Err _ => false
  end.
Definition observed_speed (h : Host) (wire : string) : string :=
  match h_read h ("/sys/class/net/" ++ wire ++ "/speed")%string with Ok s => trim s | Err _ => "-1"%string end.
Definition wire_speed_check (absent : gset string) (no_ethtool : bool) (wire : string) : Gather bool :=
  if bool_decide (wire ∈ absent) then
    standing ("wire " ++ wire ++ " absent (no such netdev) — its segments are not configured") ;;; gret no_ethtool
  else
    decl <- derived (link_speed v wire) ;;
    obs <- see (λ h, observed_speed h wire) ;;
    carrier <- see (λ h, wire_carries h wire) ;;
    if carrier && negb (String.eqb obs (show decl)) then
      drv <- sys (driver_name wire) ;;
      standing (wire ++ ": link speed " ++ obs ++ " != declared " ++ show decl ++ " (driver " ++ drv.1 ++ ")") ;;;
      gret (no_ethtool || drv.2)
    else gret no_ethtool.
Definition link_speeds (absent : gset string) : Gather unit :=
  tool <- sys (attempt (have_tool "ethtool")) ;;
  no_ethtool <- gfold (wire_speed_check absent) (match tool with Ok b => negb b | Err _ => true end) (rw_wires d) ;;
  gwhen no_ethtool (standing "ethtool not installed: driver changes unchecked").

(** *** Adjacencies *)

Definition link_found (doc : option EngineState.Value) (t : Tally) (e : ExpectedLink) : Gather Tally :=
  let up := is_some_and doc (λ doc, bool_decide (x_addr e ∈ up_peers doc)) in
  update (push_adjacency (link_row up e)) ;;; gret (count_link e up t).

Definition fallback_spec (comps : option Components) (r : FallbackRow) : LegSpec :=
  {| sp_kind := Fallback; sp_zone := fr_zone r; sp_ifname := fr_ifname r; sp_home := fr_home r;
     sp_router := None; sp_ports := fr_ports r;
     sp_reach := reach (cs_fallback <$> comps) (fr_zone r) (fr_home r) |}.
Definition router_id (z : Zone) (m : Member) : string := identity_addr_of z m.
Definition is_two_way (nbrs : EngineState.Value) (z : Zone) (m : Member) : bool :=
  at_least_two_way (neighbor_state nbrs (router_id z m)).
Definition fallback_found (nbrs : option EngineState.Value) (z : Zone) (zone : string) (t : Tally) (m : Member)
    : Gather Tally :=
  let up := is_some_and nbrs (λ n, is_two_way n z m) in
  update (push_adjacency (fallback_adjacency zone m up)) ;;; gret (count_two_way zone m up t).
Definition fallback_row_found (doc : option EngineState.Value) (comps : option Components)
    (absent : gset string) (t : Tally) (r : FallbackRow) : Gather Tally :=
  z <- derived (zone f (fr_zone r)) ;;
  leg <- see (λ h, read_bond_leg h absent (fallback_spec comps r)) ;;
  update (push_fallback leg) ;;;
  peers <- derived (fallback_peers v (fr_zone r)) ;;
  let t := foldl expect_fallback t peers in
  let nbrs := doc ≫= λ d, ospf_neighbors d (fr_zone r) (fr_ifname r) in
  gwhen (is_some_and doc (λ _, true) && negb (is_some_and nbrs (λ _, true)))
    (settling (fr_zone r ++ " fallback: " ++ fr_ifname r
       ++ " is missing from the engine's ospf state (its neighbors cannot be read) — re-run cfab up")) ;;;
  gfold (fallback_found nbrs z (fr_zone r)) t peers.

(** *** Reachability *)

Definition ways_to (t : Tally) (m : Member) (z : Zone) : list Way :=
  ((λ r, (cr_ospf_cost r, cr_ifname r, false))
     <$> List.filter (λ r, String.eqb (cr_zone r) (z_name z)
                           && bool_decide ((m_node m, z_name z, cr_seg r) ∈ t_up_legs t)) (rw_class d))
  ++ (if bool_decide ((m_node m, z_name z) ∈ t_two_way t) then
        (λ r, (fr_ospf_cost r, fr_ifname r, true))
          <$> List.filter (λ r, String.eqb (fr_zone r) (z_name z)) (rw_fallback d)
      else []).
(** The first of the ways once sorted by cost and name. *)
Definition expected_way (t : Tally) (m : Member) (z : Zone) : option Way :=
  min_by_key id cheaper (ways_to t m z).

Definition route_lines (z : Zone) (m : Member) (way : Way) (dev : option string) (route_line : string)
    : list (Class * string) :=
  let expect := way.1.2 in
  let head := (z_name z ++ " to " ++ m_name m)%string in
  match dev with
  | None => [(Settling, head ++ ": no route yet, expected " ++ expect)%string]
  | Some dev =>
      (if negb (String.eqb dev expect) then [(Settling, head ++ " via " ++ dev ++ ", expected " ++ expect)%string]
       else if way.2 then [(Standing, head ++ " via fallback")%string] else [])
      ++ (if has_substring ("src " ++ identity_addr v z)%string route_line then []
          else [(Settling, head ++ " src not pinned: [" ++ route_line ++ "]")%string])
  end.
Definition reach_zone (t : Tally) (m : Member) (z : Zone) : Gather unit :=
  match expected_way t m z with
  | None => gret tt
  | Some way =>
      route <- route_dev (identity_addr_of z m) ;;
      say (route_lines z m way route.1 route.2)
  end.
Definition reachability (t : Tally) : Gather unit :=
  geach (λ m, geach (reach_zone t m) (f_zones f)) (others v).

(** *** One gather *)

Definition read (expected : list ExpectedLink) (comps : option Components) : Gather Headline :=
  bfd_port_ comps ;;;
  doc <- sys (attempt (EngineCtl.state from_str f)) ;;
  let doc := ok_of doc in
  gwhen (negb (is_some_and doc (λ _, true))) (settling (engine_down_reason comps)) ;;;
  absent <- see absent_ifs ;;
  posture doc comps absent ;;;
  return_path_and_ingress doc comps absent ;;;
  workload_posture comps ;;;
  mark_drift ;;;
  ceiling_counters ;;;
  shape_posture comps ;;;
  link_speeds absent ;;;
  t <- gfold (link_found doc) tally0 expected ;;
  t <- gfold (fallback_row_found doc comps absent) t (rw_fallback d) ;;
  reachability t ;;;
  gret (headline_of t).

Definition default_reason (ours : option Rules.HostDefault) (comps : option Components) : DefaultReason :=
  match ours with
  | None => NoGwZone
  | Some _ =>
      if default_wanted (match comps with Some k => cs_ingress k | None => [] end) (rw_gw d)
      then Withdrawn else RouterUnreachable
  end.
Definition read_host_default (comps : option Components) : IO StatusModel.HostDefault :=
  (let ours := host_default v (rw_gw d) in
   there <~ match ours with Some hd => hd_present hd | None => ret false end ;;
   match ours, there with
   | Some hd, true => ret {| hd_path := PFabric (hd_via hd) (hd_dev hd); hd_reason := None |}
   | _, _ =>
       floor <~ floor_default ;;
       ret {| hd_path := match floor with Some fl => PFloor (fl_via fl) (fl_dev fl) | None => PNone end;
              hd_reason := Some (default_reason ours comps) |}
   end)%cmd.

Definition METRICS_PORT : Z := 23232.
Definition metrics_line (e : string) : string :=
  "metrics endpoint not listening on :" ++ show METRICS_PORT ++ " (" ++ e ++ ")".

Definition read_if (applied : bool) (expected : list ExpectedLink) (comps : option Components)
    : Gather (option Headline) :=
  if applied then headline <- read expected comps ;; gret (Some headline) else gret None.
Definition gather_with (expected : list ExpectedLink) (base : Ctx) (applied : bool)
    (components : option Components) : IO StatusModel :=
  (found <~ read_if applied expected components base ;;
   let headline := found.2 in
   let c := match (k ← components; cs_metrics_error k) with
            | Some e => push [(Standing, metrics_line e)] found.1
            | None => found.1
            end in
   host_default <~ (if applied then hd <~ read_host_default components ;; ret (Some hd) else ret None) ;;
   ret {| st_member := {| mi_name := m_name (v_member v); mi_kind := m_kind (v_member v); mi_version := version |};
          st_state := match headline with Some h => headline_state h | None => Down end;
          st_headline := headline; st_adjacencies := c_adjacencies c; st_fallbacks := c_fallbacks c;
          st_ingress := c_ingress c; st_workloads := c_workloads c; st_conditions := conditions c;
          st_components := components; st_prefs := prefs v; st_run_dir := f_run_dir f;
          st_host_default := host_default |})%cmd.

Definition lift_derived {A} (r : result Refusal A) : IO A :=
  lift (match r with Ok a => Ok a | Err e => Err (refused e) end).

Definition gather (expected : list ExpectedLink) (base : Ctx) : IO StatusModel :=
  (applied <~ look (λ h, h_exists h (f_run_dir f)) ;;
   components <~ (if applied then read_components else ret None) ;;
   gather_with expected base applied components)%cmd.
Definition snapshot_model (comps : option Components) : IO StatusModel :=
  (expected <~ lift_derived (expected_links v) ;;
   applied <~ look (λ h, h_exists h (f_run_dir f)) ;;
   gather_with expected ctx_default applied comps)%cmd.

(** *** The declaration on disk *)

Context (parse : string → result Error Declaration).

Definition stale_line (config why : string) : string :=
  "declaration " ++ config ++ ": " ++ why
    ++ " (status describes the running fabric; a reload of this file will be refused)".
Definition changed_line (config : string) : string :=
  "declaration " ++ config ++ " changed since apply (systemctl reload cfab to apply; the fabric will restart)".
Definition declaration_note (h : Host) (config : string) : option string :=
  match h_read h config with
  | Err e => Some (stale_line config (display e))
  | Ok text =>
      match parse_for_member parse refused (m_name (v_member v)) text with
      | Err (Text.Config msg) => Some (stale_line config msg)
      | Err e => Some (stale_line config (display e))
      | Ok next => if decide (next = f) then None else Some (changed_line config)
      end
  end.

(** *** The wait *)

Definition POLL_SECS : Z := 2.
Definition settled (m : StatusModel) : bool := bool_decide (st_state m = Up) && negb (is_settling m).
Definition not_ended : Error := Fatal "the wait has not ended".
Fixpoint wait_loop (fuel : nat) (expected : list ExpectedLink) (base : Ctx) (wait_s t : Z) : IO StatusModel :=
  match fuel with
  | O => throw not_ended
  | S fuel =>
      (m <~ gather expected base ;;
       if settled m || (wait_s <=? t) then ret m
       else sleep (POLL_SECS * 1000) >>~ wait_loop fuel expected base wait_s (t + POLL_SECS))%cmd
  end.
(** The gathers that [wait_s] seconds hold. *)
Definition wait_fuel (wait_s : Z) : nat := Z.to_nat (wait_s / POLL_SECS + 2).

(** The note on the file is read once, before the wait. *)
Definition base_of (h : Host) (declared : option string) : Ctx :=
  match (config ← declared; declaration_note h config) with
  | Some note => push [(Standing, note)] ctx_default
  | None => ctx_default
  end.
Definition run (wait_s : Z) (permissive : bool) (declared : option string) : IO StatusReport :=
  (base <~ look (λ h, base_of h declared) ;;
   expected <~ lift_derived (expected_links v) ;;
   m <~ wait_loop (wait_fuel wait_s) expected base wait_s 0 ;;
   ret (render_text m permissive (is_some_and (st_headline m) (λ _, true))))%cmd.
End status.

(** The fabric that was applied, from the run directory the declaration names or the packaged one;
    an unreadable copy and one that does not parse are passed over. *)
Section applied.
Context (parse : string → result Error Declaration) (h : Host).
Definition fabric_in (path : string) : option Fabric :=
  text ← ok_of (h_read h path); decl ← ok_of (parse text); ok_of (from_decl decl).
Definition applied_decl_path (run_dir : string) : string :=
  (trim_slashes run_dir ++ "/fabric.toml.applied")%string.
Definition applied_dirs (config : string) : list string :=
  let declared := option_list (f_run_dir <$> fabric_in config) in
  declared ++ (if bool_decide (RUN_DIR ∈ declared) then [] else [RUN_DIR]).
Definition applied_fabric (config : string) : option Fabric :=
  head (omap (λ dir, fabric_in (applied_decl_path dir)) (applied_dirs config)).
End applied.

(** ** What a pass may do

    To the host: only what [P] allows; to what was found so far: only what the preorder [R] allows. *)

Section passes.
Context (P : Action → Prop) (R : Ctx → Ctx → Prop) `{!PreOrder R}.

Definition passes {A} (m : Gather A) : Prop :=
  ∀ c, emits P (m c) ∧ ∀ io tr tr' c' a, m c io tr = (tr', Ok (c', a)) → R c c'.

Lemma passes_ret {A} (a : A) : passes (gret a).
Proof using PreOrder0. intros c. split; [apply emits_ret|]. by intros io tr tr' c' b [= _ <- _]. Qed.
Lemma passes_bind {A B} (m : Gather A) (k : A → Gather B) :
  passes m → (∀ a, passes (k a)) → passes (gbind m k).
Proof using PreOrder0.
  intros Hm Hk c. split.
  - apply emits_bind; [apply Hm|]. intros x. apply Hk.
  - intros io tr tr' c' b (t1 & [c1 a] & H1 & H2)%bind_Ok. transitivity c1.
    + by eapply Hm.
    + by eapply (Hk a c1).
Qed.
Lemma passes_sys {A} (m : IO A) : emits P m → passes (sys m).
Proof using PreOrder0.
  intros Hm c. split; [apply emits_bind; [done|]; intros a; apply emits_ret|].
  by intros io tr tr' c' b (t1 & a & _ & [= _ <- _])%bind_Ok.
Qed.
Lemma passes_update g : (∀ c, R c (g c)) → passes (update g).
Proof using PreOrder0. intros Hg c. split; [apply emits_ret|]. by intros io tr tr' c' b [= _ <- _]. Qed.
Lemma passes_gets {A} (g : Ctx → A) : passes (gets g).
Proof using PreOrder0. intros c. split; [apply emits_ret|]. by intros io tr tr' c' b [= _ <- _]. Qed.
Lemma passes_see {A} (g : Host → A) : passes (see g).
Proof using PreOrder0. apply passes_sys, emits_look. Qed.
Lemma passes_when b m : passes m → passes (gwhen b m).
Proof using PreOrder0. destruct b; [done|]. intros _. apply passes_ret. Qed.
Lemma passes_each {A} (g : A → Gather unit) l : (∀ x, passes (g x)) → passes (geach g l).
Proof using PreOrder0.
  intros Hg. induction l as [|x l IH]; [apply passes_ret|]. apply passes_bind; [apply Hg|done].
Qed.
Lemma passes_fold {S A} (g : S → A → Gather S) l : (∀ s x, passes (g s x)) → ∀ s, passes (gfold g s l).
Proof using PreOrder0.
  intros Hg. induction l as [|x l IH]; intros s; [apply passes_ret|]. apply passes_bind; [apply Hg|apply IH].
Qed.
Lemma passes_stdout argv : P (ARun argv) → passes (stdout_of argv).
Proof using PreOrder0. intros H. apply passes_sys, emits_bind; [by apply emits_exec|]. intros o. apply emits_ret. Qed.
End passes.

Lemma passes_weaken {A} P R R' (m : Gather A) :
  passes P R m → (∀ c c', R c c' → R' c c') → passes P R' m.
Proof. intros Hm HR c. split; [apply Hm|]. intros io tr tr' c' a H. apply HR. by eapply Hm. Qed.

(** Lines are added, and the adjacencies stay. *)
Definition grown (c c' : Ctx) : Prop :=
  c_adjacencies c' = c_adjacencies c ∧ c_reasons c `prefix_of` c_reasons c'.
#[export] Instance grown_preorder : PreOrder grown.
Proof.
  split; [by intros c|]. intros c1 c2 c3 [E1 H1] [E2 H2]. split; [congruence|by etransitivity].
Qed.
Definition anyhow (c c' : Ctx) : Prop := True.
#[export] Instance anyhow_preorder : PreOrder anyhow.
Proof. by split. Qed.

Lemma grown_push l c : grown c (push l c).
Proof. split; [done|]. by eexists. Qed.
Lemma grown_fallback l c : grown c (push_fallback l c).
Proof. apply grown_push. Qed.
Lemma grown_ingress i c : grown c (push_ingress i c).
Proof. apply grown_push. Qed.
Lemma grown_workload w c : grown c (push_workload w c).
Proof. by split. Qed.
Lemma grown_broken n c : grown c (mark_broken n c).
Proof. by split. Qed.
Create HintDb grown.
#[export] Hint Resolve grown_push grown_fallback grown_ingress grown_workload grown_broken : grown.

Ltac passes_step :=
  match goal with
  | |- passes _ _ (gbind _ _) => apply (passes_bind _ _); [|intros]
  | |- passes _ _ (gret _) => apply (passes_ret _ _)
  | |- passes _ _ (update _) => apply (passes_update _ _); intros; first [exact I | auto with grown]
  | |- passes _ _ (say _) => unfold say
  | |- passes _ _ (settling _) => unfold settling
  | |- passes _ _ (standing _) => unfold standing
  | |- passes _ _ (gets _) => apply (passes_gets _ _)
  | |- passes _ _ (see _) => apply (passes_see _ _)
  | |- passes _ _ (text_of _) => apply (passes_see _ _)
  | |- passes _ _ (gwhen _ _) => apply (passes_when _ _)
  | |- passes _ _ (geach _ _) => apply (passes_each _ _); intros
  | |- passes _ _ (gfold _ _ _) => apply (passes_fold _ _); intros
  | |- passes _ _ (if ?b then _ else _) => destruct b eqn:?
  | |- passes _ _ (match ?x with _ => _ end) => destruct x eqn:?
  | |- passes _ _ (let '(_, _) := ?x in _) => destruct x eqn:?
  | |- passes _ _ (let _ := _ in _) => cbv zeta
  end.

(** What a gather may do: list, show and ask, and wait between two gathers. *)
Definition READS : list (list string) :=
  [["ip"; "route"; "get"]; ["ip"; "route"; "show"; "table"]; ["ip"; "rule"; "show"; "pref"];
   ["ip"; "-4"; "-br"; "addr"; "show"; "dev"]; ["ip"; "-br"; "link"; "show"; "dev"];
   ["ip"; "-j"; "neigh"; "show"; "nud"; "all"; "dev"]; ["bridge"; "-j"; "fdb"; "show"; "br"];
   ["nft"; "list"]; ["nft"; "-s"; "list"]; ["nft"; "-j"; "list"]; ["systemctl"; "is-enabled"];
   ["tc"; "class"; "show"; "dev"]; ["ethtool"; "-i"]; ["iptables"; "-S"]; ["iptables-legacy"; "-S"];
   ["iptables-legacy-save"]]%string.
Definition reads_only (v : View) (a : Action) : Prop :=
  match a with
  | ARun argv => (∃ p, p ∈ READS ∧ p `prefix_of` argv) ∨ ∃ tool, argv = have_tool_argv tool
  | ARequest sock line =>
      (sock = sock_path (v_fabric v) ∧ line = "state" ++ lf)%string
      ∨ (sock = cfab_sock v ∧ line ∈ ["components" ++ lf; "log engine 200" ++ lf]%string)
  | ASleep ms => ms = POLL_SECS * 1000
  | _ => False
  end.

(** A command is on the list when one of its prefixes is what the command starts with. *)
Lemma listed_run v argv :
  any (λ p, bool_decide (p = take (length p) argv)) READS = true → reads_only v (ARun argv).
Proof.
  intros (p & Hp & E%bool_decide_eq_true)%any_true. left. exists p. split; [done|].
  rewrite E. apply prefix_take.
Qed.
Lemma tool_run v tool : reads_only v (ARun (have_tool_argv tool)).
Proof. right. eauto. Qed.
#[export] Hint Resolve tool_run : emits.

Ltac listed := apply listed_run; reflexivity.
Ltac passes_all :=
  repeat (passes_step ||
    match goal with
    | |- passes _ _ (stdout_of _) => apply (passes_stdout _ _); listed
    | |- passes _ _ (sys _) => apply (passes_sys _ _)
    | |- emits _ (exec _) => apply emits_exec; listed
    | |- emits _ (try_run _) => apply emits_try_run; listed
    | |- emits _ _ => emits_step
    end).

Section only_reads.
Context (from_str : string → result string EngineState.Value).
Context (parse_components : string → option Components) (parse_log : string → option (list string)).
Context (refused : Refusal → Error) (version : string) (v : View) (d : Rows).
Local Abbreviation R := (reads_only v).
Local Abbreviation reads := (passes R grown).

Lemma reads_derived {A} (r : result Refusal A) : reads (derived refused r).
Proof using Type. apply (passes_sys _ _), emits_lift. Qed.

Lemma emits_ask line :
  line ∈ ["components"; "log engine 200"]%string → emits R (ask_supervisor v line).
Proof using Type.
  intros H. unfold ask_supervisor. emits_all. apply emits_request. right. split; [done|].
  rewrite !elem_of_cons in H. destruct H as [->|[->|?%not_elem_of_nil]]; [left|right; left|done].
Qed.

Lemma reads_bfd_port comps : reads (bfd_port_ parse_log v comps).
Proof using Type.
  unfold bfd_port_, port_custody, bind_reasons. passes_all.
  - unfold bfd_units. cbn. unfold is_enabled. passes_all.
  - apply emits_ask. right; left.
Qed.

Lemma reads_if_file absent ifname path : reads (if_file absent ifname path).
Proof using Type. unfold if_file. passes_all. Qed.
Lemma reads_forwarding absent ifname : reads (forwarding_of absent ifname).
Proof using Type. unfold forwarding_of. passes_all. apply reads_if_file. Qed.

Lemma reads_leaf_posture doc absent : reads (leaf_posture v d doc absent).
Proof using Type.
  unfold leaf_posture, leaf_forwarding, leak_guard, never_transit, shown_rules.
  passes_all; apply reads_forwarding.
Qed.

Lemma emits_foreign : emits R (unresolved_forward_drops from_str).
Proof using Type.
  unfold unresolved_forward_drops, foreign_forward_drops, foreign_transit_accept_present, docker_user.
  passes_all.
Qed.
Lemma emits_conf_interfaces : emits R conf_interfaces.
Proof using Type. unfold conf_interfaces. passes_all. Qed.

Lemma reads_transit_posture comps absent : reads (transit_posture from_str refused v d comps absent).
Proof using Type.
  unfold transit_posture, policy_posture, foreign_posture, admin_posture, admin_counter, admin_forwarding,
    owned_forwards, watchdog_posture.
  passes_all; auto using reads_derived, reads_forwarding, emits_foreign, emits_conf_interfaces.
Qed.

Lemma reads_posture doc comps absent : reads (posture from_str refused v d doc comps absent).
Proof using Type.
  unfold posture, check_rp_filter, plain_posture, plain_forwarding.
  passes_all; auto using reads_leaf_posture, reads_transit_posture, reads_forwarding, emits_conf_interfaces.
Qed.

Lemma reads_return doc comps absent : reads (return_path_and_ingress v d doc comps absent).
Proof using Type.
  unfold return_path_and_ingress, zone_return_and_ingress, zone_return, return_2000, return_2001, return_2002,
    workload_return, broken, shown_rules, ingress_of. passes_all.
Qed.

Lemma reads_workloads comps : reads (workload_posture from_str v comps).
Proof using Type.
  unfold workload_posture, deferred_workload, workload_row, workload_leg, fault, local_vms_seen. passes_all.
Qed.

Lemma reads_marks : reads (mark_drift refused v).
Proof using Type. unfold mark_drift, mark_state. passes_all; apply reads_derived. Qed.
Lemma reads_ceilings : reads (ceiling_counters refused v).
Proof using Type.
  unfold ceiling_counters, ceiling_counter. passes_all; [apply reads_derived|].
  apply emits_exec. destruct a0; listed.
Qed.
Lemma reads_shape comps : reads (shape_posture v d comps).
Proof using Type. unfold shape_posture, shape_wire_posture, shape_class. passes_all. Qed.
Lemma reads_speeds absent : reads (link_speeds refused v d absent).
Proof using Type. unfold link_speeds, wire_speed_check, driver_name. passes_all; apply reads_derived. Qed.

Lemma reads_reachability t : reads (reachability v d t).
Proof using Type. unfold reachability, reach_zone, route_dev. passes_all. Qed.

Lemma anyhow_of {A} (m : Gather A) : reads m → passes R anyhow m.
Proof using Type. intros Hm. by eapply passes_weaken. Qed.
Lemma passes_read expected comps : passes R anyhow (read from_str parse_log refused v d expected comps).
Proof using Type.
  unfold read, EngineCtl.state, link_found, fallback_row_found, fallback_found.
  passes_all; try apply anyhow_of; auto using reads_bfd_port, reads_posture, reads_return, reads_workloads,
    reads_marks, reads_ceilings, reads_shape, reads_speeds, reads_derived, reads_reachability.
  apply emits_request. left. done.
Qed.

Lemma emits_host_default comps : emits R (read_host_default v d comps).
Proof using Type. unfold read_host_default, hd_present, default_present, floor_default, floor_show. passes_all. Qed.
Lemma passes_if applied expected comps :
  passes R anyhow (read_if from_str parse_log refused v d applied expected comps).
Proof using Type. unfold read_if. passes_all. apply passes_read. Qed.
Lemma emits_gather_with expected base applied comps :
  emits R (gather_with from_str parse_log refused version v d expected base applied comps).
Proof using Type.
  unfold gather_with. passes_all; [|apply emits_host_default].
  apply (passes_if applied).
Qed.
Lemma emits_gathered expected base :
  emits R (gather from_str parse_components parse_log refused version v d expected base).
Proof using Type.
  unfold gather, read_components. passes_all; auto using emits_gather_with.
  apply emits_ask. left.
Qed.
Lemma emits_wait fuel expected base wait_s t :
  emits R (wait_loop from_str parse_components parse_log refused version v d fuel expected base wait_s t).
Proof using Type.
  revert t. induction fuel as [|fuel IH]; intros t; cbn [wait_loop]; passes_all; auto using emits_gathered.
  by apply emits_sleep.
Qed.
End only_reads.

(** C26. C: status only reads. Whatever the host, the engine and the supervisor answer, and whatever
    fails, everything a status does is a listing or a query from the list, one of three requests
    (the engine's state, the supervisor's document, the tail of the engine's log), or the nap
    between two gathers. *)
Theorem status_only_reads from_str parse_components parse_log refused version v d parse wait_s permissive
    declared io tr :
  ∃ new, (run from_str parse_components parse_log refused version v d parse wait_s permissive declared io tr).1
           = tr ++ new ∧ Forall (reads_only v) new.
Proof.
  enough (emits (reads_only v) (run from_str parse_components parse_log refused version v d parse wait_s
            permissive declared)) as H by apply H.
  unfold run, lift_derived. passes_all. apply emits_wait.
Qed.

(** ** The wait *)

Lemma settled_iff m :
  settled m = true ↔ st_state m = Up ∧ ∀ c, c ∈ st_conditions m → cond_class c = Standing.
Proof.
  unfold settled, is_settling. rewrite andb_true_iff, bool_decide_eq_true, negb_true_iff, any_false.
  apply and_iff_compat_l. split; intros H c Hc; specialize (H c Hc).
  - apply bool_decide_eq_false in H. by destruct (cond_class c).
  - apply bool_decide_eq_false. congruence.
Qed.

Section wait.
Context (from_str : string → result string EngineState.Value).
Context (parse_components : string → option Components) (parse_log : string → option (list string)).
Context (refused : Refusal → Error) (version : string) (v : View) (d : Rows).
Context (expected : list ExpectedLink) (base : Ctx) (io : Env_).
Local Abbreviation one := (gather from_str parse_components parse_log refused version v d expected base).

(** Where the host is after [k] gathers, a nap after each. *)
Fixpoint after (k : nat) (tr : list Action) : list Action :=
  match k with
  | O => tr
  | S k => after k ((one io tr).1 ++ [ASleep (POLL_SECS * 1000)])
  end.

(** The gather is the [k]th that was not settled, within the time. *)
Definition answers (wait_s : Z) (k : nat) (tr : list Action) : Prop :=
  2 * Z.of_nat k < wait_s + 2
  ∧ (∀ j, (j < k)%nat → ∃ m, (one io (after j tr)).2 = Ok m ∧ settled m = false)
  ∧ (∀ m, (one io (after k tr)).2 = Ok m → settled m = true ∨ wait_s ≤ 2 * Z.of_nat k).

Lemma answers_now w tr :
  -2 < w → (∀ m, (one io tr).2 = Ok m → settled m = true ∨ w ≤ 0) → answers w 0 tr.
Proof using Type. intros Hw H. split_and!; [lia|intros j Hj; lia|exact H]. Qed.
Lemma answers_later w k m tr tr1 :
  one io tr = (tr1, Ok m) → settled m = false →
  answers (w - 2) k (tr1 ++ [ASleep (POLL_SECS * 1000)]) → answers w (S k) tr.
Proof using Type.
  intros E Hs (H1 & H2 & H3). assert (∀ j, after (S j) tr = after j (tr1 ++ [ASleep (POLL_SECS * 1000)])) as Ha
    by (intros j; cbn [after]; by rewrite E).
  split_and!; [lia| |].
  - intros [|j] Hj; [exists m; cbn [after]; by rewrite E|]. rewrite Ha. apply H2. lia.
  - rewrite Ha. intros m' Hm. destruct (H3 m' Hm); [by left|right; lia].
Qed.

Lemma wait_spec wait_s fuel t tr :
  t < wait_s + 2 → (0 < fuel)%nat → wait_s - t ≤ 2 * (Z.of_nat fuel - 1) →
  ∃ k, wait_loop from_str parse_components parse_log refused version v d fuel expected base wait_s t io tr
         = one io (after k tr) ∧ answers (wait_s - t) k tr.
Proof using Type.
  revert t tr. induction fuel as [|fuel IH]; intros t tr Ht H0 Hf; [lia|]. cbn [wait_loop].
  unfold bind at 1. destruct (one io tr) as [tr1 [m|e]] eqn:E.
  2: { exists 0%nat. cbn [after]. rewrite E. split; [done|]. apply answers_now; [lia|]. by rewrite E. }
  destruct (settled m || (wait_s <=? t)) eqn:Hs.
  { exists 0%nat. cbn [after]. rewrite E. split; [done|]. apply answers_now; [lia|]. rewrite E.
    intros m' [= <-]. apply orb_true_iff in Hs as [Hs|Hs%Z.leb_le]; [by left|right; lia]. }
  apply orb_false_iff in Hs as [Hs Ht'%Z.leb_gt]. unfold sleep, bind.
  destruct (IH (t + POLL_SECS) (tr1 ++ [ASleep (POLL_SECS * 1000)])) as (k & -> & Hk); unfold POLL_SECS in *; [lia..|].
  exists (S k). cbn [after]. rewrite E. split; [done|]. eapply answers_later; [done..|].
  by replace (wait_s - t - 2) with (wait_s - (t + 2)) by lia.
Qed.

End wait.

Definition reported (permissive : bool) (r : result Error StatusModel) : result Error StatusReport :=
  match r with
  | Ok m => Ok (render_text m permissive (is_some_and (st_headline m) (λ _, true)))
  | Err e => Err e
  end.

(** C: the wait ends, and only for a reason. A status gathers at most once for every two seconds
    of the wait and once more; what it reports, an error included, is what the last gather found;
    it went on only after gathers that were not UP or still had a settling line; and it stopped
    before the time was over only on an error, or on UP with nothing settling. *)
Theorem wait_ends_for_a_reason from_str parse_components parse_log refused version v d parse wait_s permissive
    declared io tr expected
    (Hlinks : expected_links v = Ok expected) (Hwait : 0 ≤ wait_s) :
  let one := gather from_str parse_components parse_log refused version v d expected
               (base_of refused v parse (e_host (io tr)) declared) in
  let at_ k := after from_str parse_components parse_log refused version v d expected
                 (base_of refused v parse (e_host (io tr)) declared) io k tr in
  ∃ k, 2 * Z.of_nat k < wait_s + 2
    ∧ run from_str parse_components parse_log refused version v d parse wait_s permissive declared io tr
      = ((one io (at_ k)).1, reported permissive (one io (at_ k)).2)
    ∧ (∀ j, (j < k)%nat → ∃ m, (one io (at_ j)).2 = Ok m
         ∧ ¬ (st_state m = Up ∧ ∀ c, c ∈ st_conditions m → cond_class c = Standing))
    ∧ (∀ m, (one io (at_ k)).2 = Ok m →
         (st_state m = Up ∧ ∀ c, c ∈ st_conditions m → cond_class c = Standing) ∨ wait_s ≤ 2 * Z.of_nat k).
Proof.
  cbv zeta. set (base := base_of _ _ _ _ _).
  destruct (wait_spec from_str parse_components parse_log refused version v d expected base io wait_s
              (wait_fuel wait_s) 0 tr) as (k & Hk & H1 & H2 & H3).
  { lia. } { unfold wait_fuel. pose proof (Z.div_pos wait_s POLL_SECS). unfold POLL_SECS in *. lia. }
  { unfold wait_fuel. pose proof (Z.div_pos wait_s POLL_SECS).
    pose proof (Z.mul_succ_div_gt wait_s POLL_SECS). unfold POLL_SECS in *. lia. }
  exists k. rewrite Z.sub_0_r in *. split_and!; [done| | |].
  - unfold run, lift_derived, look, lift, bind. fold base. rewrite Hlinks, Hk.
    by destruct (gather _ _ _ _ _ _ _ _ _ _ _) as [t [m|e]].
  - intros j Hj. destruct (H2 j Hj) as (m & Em & Hs). exists m. split; [done|]. rewrite <-settled_iff. congruence.
  - intros m Hm. rewrite <-settled_iff. auto.
Qed.

(** ** The verdict *)

Definition is_link (a : Adjacency) : bool := is_some_and (a_seg a) (λ _, true).
Definition count (p : Adjacency → bool) (rows : list Adjacency) : Z := Z.of_nat (length (List.filter p rows)).
Definition nodes_of (rows : list Adjacency) : gset Z := list_to_set (a_peer_node <$> rows).

Definition up_link (a : Adjacency) : bool := is_link a && a_up a.
Definition up_fallback (a : Adjacency) : bool := negb (is_link a) && a_up a.

(** The counts of a list of rows, and the verdict on them. *)
Definition counts_of (rows : list Adjacency) : Headline :=
  {| h_peers_up := Z.of_nat (size (nodes_of (List.filter a_up rows)));
     h_peers := Z.of_nat (size (nodes_of rows));
     h_links_up := count up_link rows; h_links := count is_link rows;
     h_fallbacks_up := count up_fallback rows;
     h_fallbacks := count (λ a, negb (is_link a)) rows |}.
Definition verdict_on (rows : list Adjacency) : State :=
  if negb (any a_up rows) then Failed else if all a_up rows then Up else UpDegraded.

Lemma tally_count_app p l1 l2 : count p (l1 ++ l2) = count p l1 + count p l2.
Proof. unfold count. rewrite List.filter_app, length_app. lia. Qed.
Lemma count_cons p a l : count p (a :: l) = (if p a then 1 else 0) + count p l.
Proof. unfold count. cbn. destruct (p a); cbn [length]; lia. Qed.
Lemma count_nonneg p l : 0 ≤ count p l.
Proof. unfold count. lia. Qed.
Lemma count_le p q l : (∀ a, p a = true → q a = true) → count p l ≤ count q l.
Proof.
  intros H. induction l as [|a l IH]; [done|]. rewrite !count_cons. specialize (H a).
  destruct (p a), (q a); naive_solver lia.
Qed.

Lemma none_up_iff rows : count up_link rows = 0 ∧ count up_fallback rows = 0 ↔ any a_up rows = false.
Proof.
  induction rows as [|a rows IH]; [done|]. rewrite !count_cons. change (any a_up (a :: rows)) with (a_up a || any a_up rows).
  pose proof (count_nonneg up_link rows). pose proof (count_nonneg up_fallback rows).
  assert (up_link a = is_link a && a_up a) as -> by done. assert (up_fallback a = negb (is_link a) && a_up a) as -> by done.
  destruct (a_up a), (is_link a); cbn [andb negb orb]; rewrite <- ?IH; intuition lia.
Qed.
Lemma all_up_iff rows :
  count up_link rows = count is_link rows ∧ count up_fallback rows = count (λ a, negb (is_link a)) rows
  ↔ all a_up rows = true.
Proof.
  induction rows as [|a rows IH]; [done|]. rewrite !count_cons. change (all a_up (a :: rows)) with (a_up a && all a_up rows).
  assert (count up_link rows ≤ count is_link rows).
  { apply count_le. intros x. unfold up_link. by destruct (is_link x). }
  assert (count up_fallback rows ≤ count (λ a, negb (is_link a)) rows).
  { apply count_le. intros x. unfold up_fallback. by destruct (is_link x). }
  assert (up_link a = is_link a && a_up a) as -> by done. assert (up_fallback a = negb (is_link a) && a_up a) as -> by done.
  destruct (a_up a), (is_link a); cbn [andb negb orb]; rewrite <- ?IH; intuition (lia || congruence).
Qed.

Lemma headline_verdict rows : headline_state (counts_of rows) = verdict_on rows.
Proof.
  unfold headline_state, verdict_on. cbn [h_links_up h_fallbacks_up h_links h_fallbacks counts_of].
  replace (negb (any a_up rows)) with ((count up_link rows =? 0) && (count up_fallback rows =? 0)).
  2: { apply eq_true_iff_eq. rewrite andb_true_iff, !Z.eqb_eq, negb_true_iff. apply none_up_iff. }
  replace (all a_up rows) with ((count up_link rows =? count is_link rows)
    && (count up_fallback rows =? count (λ a, negb (is_link a)) rows)); [done|].
  apply eq_true_iff_eq. rewrite andb_true_iff, !Z.eqb_eq. apply all_up_iff.
Qed.

(** Rows are added, each down one with its line. *)
Definition found (rows : list Adjacency) (c c' : Ctx) : Prop :=
  c_adjacencies c' = c_adjacencies c ++ rows ∧ c_reasons c `prefix_of` c_reasons c'
  ∧ ∀ a, a ∈ rows → a_up a = false → down_line a ∈ c_reasons c'.

Lemma found_grown c c' : grown c c' → found [] c c'.
Proof. intros [E H]. split_and!; [by rewrite app_nil_r|done|]. by intros a ?%not_elem_of_nil. Qed.
Lemma elem_of_prefix_mono {A} (l l' : list A) x : l `prefix_of` l' → x ∈ l → x ∈ l'.
Proof. intros [k ->] H. apply elem_of_app. by left. Qed.
Lemma found_app r1 r2 c1 c2 c3 : found r1 c1 c2 → found r2 c2 c3 → found (r1 ++ r2) c1 c3.
Proof.
  intros (E1 & P1 & D1) (E2 & P2 & D2). split_and!; [by rewrite E2, E1, app_assoc|by etransitivity|].
  intros a [Ha|Ha]%elem_of_app Hu; [|by apply D2]. eapply elem_of_prefix_mono; [done|by apply D1].
Qed.
Lemma found_one a c : found [a] c (push_adjacency a c).
Proof.
  split_and!; [done|by eexists|]. intros b ->%list_elem_of_singleton Hu. cbn. rewrite Hu.
  apply elem_of_app. right; left.
Qed.
Lemma found_foldl {X} (row : X → Adjacency) l c : found (row <$> l) c (foldl (λ c x, push_adjacency (row x) c) c l).
Proof.
  revert c. induction l as [|x l IH]; intros c; [apply found_grown; done|]. cbn [foldl fmap list_fmap].
  apply (found_app [row x] _ _ (push_adjacency (row x) c)); [apply found_one|apply IH].
Qed.

(** A loop whose passes only find a row and count it. *)
Lemma gfold_pure {S A} (g : S → A → Gather S) (h : S → A → S) (u : A → Ctx → Ctx) l s c io tr :
  (∀ s x c tr, g s x c io tr = (tr, Ok (u x c, h s x))) →
  gfold g s l c io tr = (tr, Ok (foldl (λ c x, u x c) c l, foldl h s l)).
Proof.
  intros Hg. revert s c. induction l as [|x l IH]; intros s c; [done|]. cbn [gfold foldl].
  unfold gbind, bind. rewrite Hg. apply IH.
Qed.

(** *** The tally *)

Record tallies (t : Tally) (rows : list Adjacency) : Prop := {
  ta_links : t_links t = count is_link rows;
  ta_links_up : t_links_up t = count up_link rows;
  ta_fallbacks : t_fallbacks t = count (λ a, negb (is_link a)) rows;
  ta_fallbacks_up : t_fallbacks_up t = count up_fallback rows;
  ta_peers : t_peers t = nodes_of rows;
  ta_peers_up : t_peers_up t = nodes_of (List.filter a_up rows)
}.

Lemma tallies_headline t rows : tallies t rows → headline_of t = counts_of rows.
Proof. intros [E1 E2 E3 E4 E5 E6]. unfold headline_of, counts_of. by rewrite E1, E2, E3, E4, E5, E6. Qed.

Lemma nodes_app l1 l2 : nodes_of (l1 ++ l2) = nodes_of l1 ∪ nodes_of l2.
Proof. unfold nodes_of. by rewrite fmap_app, list_to_set_app_L. Qed.
Lemma count_one p a : count p [a] = if p a then 1 else 0.
Proof. unfold count. cbn. by destruct (p a). Qed.

Lemma tallies_link e up t rows : tallies t rows → tallies (count_link e up t) (rows ++ [link_row up e]).
Proof.
  intros [E1 E2 E3 E4 E5 E6]. assert (nodes_of [link_row up e] = {[x_node e]}) as N by (unfold nodes_of; cbn; set_solver).
  split; cbn -[nodes_of count]; rewrite ?tally_count_app, ?count_one, ?List.filter_app, ?nodes_app, ?N; cbn -[nodes_of];
    destruct up; cbn -[nodes_of]; rewrite ?E1, ?E2, ?E3, ?E4, ?E5, ?E6, ?N; try lia; try done.
  unfold nodes_of at 3. cbn. set_solver.
Qed.

Lemma expect_all t peers :
  foldl expect_fallback t peers
  = mk_tally (t_links t) (t_links_up t) (t_fallbacks t + Z.of_nat (length peers)) (t_fallbacks_up t)
      (t_peers t ∪ list_to_set (m_node <$> peers)) (t_peers_up t) (t_up_legs t) (t_two_way t).
Proof.
  revert t. induction peers as [|m peers IH]; intros t; cbn [foldl].
  - destruct t. cbn. f_equal; [lia|set_solver].
  - rewrite IH. cbn. f_equal; [lia|set_solver].
Qed.

Lemma two_way_all z (up : Member → bool) t peers :
  foldl (λ t m, count_two_way z m (up m) t) t peers
  = mk_tally (t_links t) (t_links_up t) (t_fallbacks t)
      (t_fallbacks_up t + Z.of_nat (length (List.filter up peers)))
      (t_peers t) (t_peers_up t ∪ list_to_set (m_node <$> List.filter up peers)) (t_up_legs t)
      (t_two_way t ∪ list_to_set ((λ m, (m_node m, z)) <$> List.filter up peers)).
Proof.
  revert t. induction peers as [|m peers IH]; intros t; cbn [foldl].
  - destruct t. cbn. f_equal; [lia|set_solver..].
  - rewrite IH. cbn [List.filter]. unfold count_two_way. destruct (up m); cbn; [|done].
    f_equal; [lia|set_solver..].
Qed.

Definition fallback_rows_for (z : string) (up : Member → bool) (peers : list Member) : list Adjacency :=
  (λ m, fallback_adjacency z m (up m)) <$> peers.

Lemma fallback_rows_counts z up peers :
  let rows := fallback_rows_for z up peers in
  count is_link rows = 0 ∧ count up_link rows = 0
  ∧ count (λ a, negb (is_link a)) rows = Z.of_nat (length peers)
  ∧ count up_fallback rows = Z.of_nat (length (List.filter up peers))
  ∧ nodes_of rows = list_to_set (m_node <$> peers)
  ∧ nodes_of (List.filter a_up rows) = list_to_set (m_node <$> List.filter up peers).
Proof.
  unfold fallback_rows_for. induction peers as [|m peers IH]; [done|]. cbn zeta in *.
  destruct IH as (H1 & H2 & H3 & H4 & H5 & H6). cbn [fmap list_fmap].
  rewrite !count_cons. cbn [List.filter]. set (a := fallback_adjacency z m (up m)).
  change (is_link a) with false. change (up_link a) with false. change (up_fallback a) with (up m).
  change (a_up a) with (up m). cbn [negb]. unfold fmap in *.
  split_and!; [lia|lia|cbn [length]; lia| | |].
  - destruct (up m); cbn [length]; lia.
  - unfold nodes_of in *. cbn. unfold fmap in *. by rewrite H5.
  - destruct (up m); [|done]. unfold nodes_of in *. cbn. unfold fmap in *. by rewrite H6.
Qed.

Lemma tallies_fallback z (up : Member → bool) t rows peers :
  tallies t rows →
  tallies (foldl (λ t m, count_two_way z m (up m) t) (foldl expect_fallback t peers) peers)
    (rows ++ fallback_rows_for z up peers).
Proof.
  intros [E1 E2 E3 E4 E5 E6]. destruct (fallback_rows_counts z up peers) as (H1 & H2 & H3 & H4 & H5 & H6).
  rewrite two_way_all, expect_all.
  split; cbn [t_links t_links_up t_fallbacks t_fallbacks_up t_peers t_peers_up];
    rewrite ?tally_count_app, ?List.filter_app, ?nodes_app; (lia || congruence).
Qed.

(** *** What a gather finds *)

Lemma gbind_Ok {A B} (m : Gather A) (k : A → Gather B) c io tr tr' c' b :
  gbind m k c io tr = (tr', Ok (c', b)) →
  ∃ t1 c1 a, m c io tr = (t1, Ok (c1, a)) ∧ k a c1 io t1 = (tr', Ok (c', b)).
Proof. intros (t1 & [c1 a] & H1 & H2)%bind_Ok. eauto. Qed.
Lemma sys_Ok {A} (m : IO A) c io tr tr' c' a :
  sys m c io tr = (tr', Ok (c', a)) → c' = c ∧ m io tr = (tr', Ok a).
Proof. intros (t1 & b & H1 & [= <- <- <-])%bind_Ok. done. Qed.

Lemma pass_then {A B} P (m : Gather A) (k : A → Gather B) c io tr tr' c' b :
  passes P grown m → gbind m k c io tr = (tr', Ok (c', b)) →
  ∃ t1 c1 a, grown c c1 ∧ k a c1 io t1 = (tr', Ok (c', b)).
Proof.
  intros Hm (t1 & c1 & a & H1 & H2)%gbind_Ok. exists t1, c1, a. split; [|done]. by eapply Hm.
Qed.

Section finds.
Context (from_str : string → result string EngineState.Value).
Context (parse_components : string → option Components) (parse_log : string → option (list string)).
Context (refused : Refusal → Error) (version : string) (v : View) (d : Rows).
Let f := v_fabric v.

(** What the engine's document says of an expected session and of a fallback neighbour. *)
Definition session_up (doc : option EngineState.Value) (e : ExpectedLink) : bool :=
  is_some_and doc (λ doc, bool_decide (x_addr e ∈ up_peers doc)).
Definition neighbor_up (doc : option EngineState.Value) (r : FallbackRow) (z : Zone) (m : Member) : bool :=
  is_some_and (doc ≫= λ doc, ospf_neighbors doc (fr_zone r) (fr_ifname r)) (λ n, is_two_way n z m).
(** The rows of one fallback bond. *)
Definition bond_rows (doc : option EngineState.Value) (r : FallbackRow) (rows : list Adjacency) : Prop :=
  ∃ z peers, zone f (fr_zone r) = Ok z ∧ fallback_peers v (fr_zone r) = Ok peers
    ∧ rows = fallback_rows_for (fr_zone r) (neighbor_up doc r z) peers.

Lemma links_found doc expected c io tr tr' c' t :
  gfold (link_found doc) tally0 expected c io tr = (tr', Ok (c', t)) →
  let rows := (λ e, link_row (session_up doc e) e) <$> expected in found rows c c' ∧ tallies t rows.
Proof using Type.
  rewrite (gfold_pure _ (λ t e, count_link e (session_up doc e) t)
             (λ e, push_adjacency (link_row (session_up doc e) e))) by done.
  intros [= _ <- <-]. split; [apply (found_foldl (λ e, link_row (session_up doc e) e))|].
  induction expected as [|e l IH] using rev_ind; [by split|].
  rewrite foldl_app, fmap_app. by apply tallies_link.
Qed.

Lemma derived_Ok {A} (r : result Refusal A) c io tr tr' c' a :
  derived refused r c io tr = (tr', Ok (c', a)) → c' = c ∧ r = Ok a.
Proof using Type. intros [-> H]%sys_Ok. split; [done|]. unfold lift in H. destruct r; [|done]. by injection H as _ ->. Qed.

Lemma row_found doc comps absent t rows r c io tr tr' c' t' :
  tallies t rows → fallback_row_found refused v doc comps absent t r c io tr = (tr', Ok (c', t')) →
  ∃ part, bond_rows doc r part ∧ found part c c' ∧ tallies t' (rows ++ part).
Proof using Type.
  intros Ht H. unfold fallback_row_found in H.
  apply gbind_Ok in H as (t1 & c1 & z & [-> Hz]%derived_Ok & H).
  apply gbind_Ok in H as (t2 & c2 & leg & [-> _]%sys_Ok & H).
  apply gbind_Ok in H as (t3 & c3 & [] & [= _ <-] & H).
  apply gbind_Ok in H as (t4 & c4 & peers & [-> Hp]%derived_Ok & H). cbv zeta in H.
  apply gbind_Ok in H as (t5 & c5 & [] & H5 & H).
  assert (grown (push_fallback leg c) c5) as Hg.
  { unfold gwhen in H5. destruct (_ && _) in H5; injection H5 as _ <-; auto with grown. reflexivity. }
  rewrite (gfold_pure _ (λ t m, count_two_way (fr_zone r) m (neighbor_up doc r z m) t)
             (λ m, push_adjacency (fallback_adjacency (fr_zone r) m (neighbor_up doc r z m)))) in H by done.
  injection H as _ <- <-. exists (fallback_rows_for (fr_zone r) (neighbor_up doc r z) peers).
  split_and!; [by exists z, peers| |by apply tallies_fallback].
  apply (found_app [] _ _ c5); [apply found_grown; etransitivity; [apply grown_fallback|done]|].
  apply (found_foldl (λ m, fallback_adjacency (fr_zone r) m (neighbor_up doc r z m))).
Qed.

Lemma rows_found doc comps absent rs t rows c io tr tr' c' t' :
  tallies t rows → gfold (fallback_row_found refused v doc comps absent) t rs c io tr = (tr', Ok (c', t')) →
  ∃ parts, Forall2 (bond_rows doc) rs parts ∧ found (mjoin parts) c c' ∧ tallies t' (rows ++ mjoin parts).
Proof using Type.
  revert t rows c tr. induction rs as [|r rs IH]; intros t rows c tr Ht H; cbn [gfold] in H.
  { injection H as _ <- <-. exists []. split_and!; [constructor|by apply found_grown|by rewrite app_nil_r]. }
  apply gbind_Ok in H as (t1 & c1 & t2 & H1 & H2).
  destruct (row_found _ _ _ _ _ _ _ _ _ _ _ _ Ht H1) as (part & Hb & Hf & Ht2).
  destruct (IH _ _ _ _ Ht2 H2) as (parts & Hbs & Hfs & Ht3). exists (part :: parts).
  split_and!; [by constructor|by eapply found_app|by rewrite <-app_assoc in Ht3].
Qed.

Lemma read_found expected comps c io tr tr' c' h :
  read from_str parse_log refused v d expected comps c io tr = (tr', Ok (c', h)) →
  ∃ doc t0 parts,
    let rows := ((λ e, link_row (session_up doc e) e) <$> expected) ++ mjoin parts in
    doc = ok_of (EngineCtl.state from_str f io t0).2 ∧ Forall2 (bond_rows doc) (rw_fallback d) parts
    ∧ found rows c c' ∧ h = counts_of rows.
Proof using Type.
  intros H. unfold read in H.
  apply (pass_then (reads_only v)) in H as (t1 & c1 & [] & G1 & H); [|apply reads_bfd_port].
  apply gbind_Ok in H as (t2 & c2 & r & [-> Hr]%sys_Ok & H). cbv zeta in H.
  apply (pass_then (λ _, True)) in H as (t3 & c3 & [] & G2 & H).
  2: { unfold gwhen, settling, say. passes_all. }
  apply gbind_Ok in H as (t4 & c4 & absent & [-> _]%sys_Ok & H).
  apply (pass_then (reads_only v)) in H as (t5 & c5 & [] & G3 & H); [|apply reads_posture].
  apply (pass_then (reads_only v)) in H as (t6 & c6 & [] & G4 & H); [|apply reads_return].
  apply (pass_then (reads_only v)) in H as (t7 & c7 & [] & G5 & H); [|apply reads_workloads].
  apply (pass_then (reads_only v)) in H as (t8 & c8 & [] & G6 & H); [|apply reads_marks].
  apply (pass_then (reads_only v)) in H as (t9 & c9 & [] & G7 & H); [|apply reads_ceilings].
  apply (pass_then (reads_only v)) in H as (t10 & c10 & [] & G8 & H); [|apply reads_shape].
  apply (pass_then (reads_only v)) in H as (t11 & c11 & [] & G9 & H); [|apply reads_speeds].
  apply gbind_Ok in H as (t12 & c12 & t & Hl & H).
  apply links_found in Hl as [Fl Tl].
  apply gbind_Ok in H as (t13 & c13 & t' & Hf & H).
  destruct (rows_found _ _ _ _ _ _ _ _ _ _ _ _ Tl Hf) as (parts & Hp & Ff & Tf).
  apply (pass_then (reads_only v)) in H as (t14 & c14 & [] & G10 & H); [|apply reads_reachability].
  injection H as _ <- <-. exists (ok_of r), t1, parts. cbv zeta. split_and!.
  - destruct (EngineCtl.state from_str f io t1) as [t2' r'] eqn:E. unfold attempt in Hr. fold f in Hr. rewrite E in Hr. by injection Hr as _ <-.
  - done.
  - assert (grown c c11) as G by (repeat (assumption || (etransitivity; [eassumption|]))).
    apply (found_app [] _ _ c11); [by apply found_grown|]. eapply found_app; [exact Fl|].
    rewrite <-(app_nil_r (mjoin parts)). eapply found_app; [exact Ff|by apply found_grown].
  - by apply tallies_headline.
Qed.
End finds.

(** C27. C: the verdict is what the declared adjacencies are worth. A gather that ends found no run
    directory, and the member is DOWN with nothing counted; or it has a row for every expected
    session and for every peer that carries a fallback row, up exactly when the engine's document
    says so; the six counts are those of the rows; FAILED means no row is up, UP that there is
    one and all are, and UP-DEGRADED the rest; and each row that is down has its settling line. *)
Theorem verdict_counts_the_declared from_str parse_components parse_log refused version v d parse expected
    h declared io tr tr' m
    (Hgather : gather from_str parse_components parse_log refused version v d expected
                 (base_of refused v parse h declared) io tr = (tr', Ok m)) :
  let applied := h_exists (e_host (io tr)) (f_run_dir (v_fabric v)) in
  (applied = false ∧ st_state m = Down ∧ st_headline m = None ∧ st_adjacencies m = [])
  ∨ (applied = true ∧ ∃ doc t0 parts,
       doc = ok_of (EngineCtl.state from_str (v_fabric v) io t0).2
       ∧ Forall2 (bond_rows v doc) (rw_fallback d) parts
       ∧ st_adjacencies m = ((λ e, link_row (session_up doc e) e) <$> expected) ++ mjoin parts
       ∧ st_headline m = Some (counts_of (st_adjacencies m))
       ∧ st_state m = verdict_on (st_adjacencies m)
       ∧ ∀ a, a ∈ st_adjacencies m → a_up a = false →
           {| cond_class := Settling; cond_text := "down " ++ label a |} ∈ st_conditions m).
Proof.
  cbv zeta. assert (c_adjacencies (base_of refused v parse h declared) = []) as Hb.
  { unfold base_of. by destruct (_ ≫= _). }
  revert Hb Hgather. generalize (base_of refused v parse h declared). intros base Hb H.
  unfold gather, look, bind at 1 in H. cbn beta iota in H.
  apply bind_Ok in H as (t1 & comps & _ & H). unfold gather_with in H.
  apply bind_Ok in H as (t2 & [c hl] & Hf & H). cbv zeta in H. cbn [fst snd] in H.
  apply bind_Ok in H as (t3 & hd & _ & [= _ <-]). cbn [st_state st_headline st_adjacencies st_conditions].
  set (c' := match _ with Some e => push _ c | None => c end).
  assert (grown c c') as [Ea Hr] by (unfold c'; destruct (_ ≫= _); [apply grown_push|done]). rewrite Ea.
  destruct (h_exists _ _); [right|left; by injection Hf as _ <- <-]. split; [done|].
  unfold read_if in Hf. apply gbind_Ok in Hf as (t4 & c4 & hl' & Hread & [= _ <- <-]).
  apply read_found in Hread as (doc & t0 & parts & Hdoc & Hparts & (E & Hp & Hdown) & ->).
  rewrite Hb in E. cbn [app] in E. rewrite E. exists doc, t0, parts. split_and!; try done; [apply headline_verdict|].
  intros a Ha Hu. unfold conditions. apply list_elem_of_fmap. exists (down_line a). split; [done|].
  eapply elem_of_prefix_mono; [exact Hr|]. by apply Hdown.
Qed.

(** ** A bond leg *)

(** What a healthy leg is: the bond can be read and is up, its active port rides the home wire, the
    prober does not say that nobody answers on any wire, and its ports are just the declared ones. *)
Record healthy (l : StatusModel.BondLeg) (b : Bonding) (wire : string) (listed : list string) : Prop := {
  hl_bond : bl_bonding l = Some b;
  hl_mii : b_mii_status b = "up"%string;
  hl_reach : bl_reach l ≠ AllDark ∧ bl_reach l ≠ Quiet;
  hl_active : active_wire l = Some wire;
  hl_home : wire = bl_home l;
  hl_slaves : b_slaves b = Ok listed;
  hl_attached : ∀ p, p ∈ bl_ports l → lp_absent p = false → lp_ifname p ∈ listed;
  hl_ours : ∀ n, n ∈ listed → ∃ p, p ∈ bl_ports l ∧ lp_ifname p = n
}.

Lemma fmap_filter_nil {A B} (g : A → B) p l : g <$> List.filter p l = [] ↔ ∀ x, x ∈ l → p x = false.
Proof.
  induction l as [|x l IH]; [by split; [intros _ y ?%elem_of_nil|]|]. cbn [List.filter].
  split.
  - intros H y. destruct (p x) eqn:E; [done|]. intros [->|Hy]%elem_of_cons; [done|]. by apply IH.
  - intros H. rewrite (H x) by (left). apply IH. intros y Hy. apply H. by right.
Qed.

Lemma named_iff ports n : any (λ s, String.eqb (lp_ifname s) n) ports = true ↔ ∃ p, p ∈ ports ∧ lp_ifname p = n.
Proof.
  rewrite any_true. by setoid_rewrite String.eqb_eq.
Qed.

Lemma port_lines_nil l slaves :
  port_lines l slaves = [] ↔
  ∃ listed, slaves = Ok listed
    ∧ (∀ p, p ∈ bl_ports l → lp_absent p = false → lp_ifname p ∈ listed)
    ∧ (∀ n, n ∈ listed → ∃ p, p ∈ bl_ports l ∧ lp_ifname p = n).
Proof.
  unfold port_lines. destruct slaves as [listed|e]; [|split; [done|by intros (? & ? & _)]].
  rewrite app_nil, !fmap_filter_nil. split.
  - intros [H1 H2]. exists listed. split_and!; [done| |].
    + intros p Hp Ha. assert (p ∈ List.filter (λ s, negb (lp_absent s)) (bl_ports l)) as Hin.
      { apply elem_of_bfilter. by rewrite Ha. }
      apply H1, negb_false_iff, bool_decide_eq_true in Hin. done.
    + intros n Hn. apply H2, negb_false_iff, named_iff in Hn. done.
  - intros (? & [= <-] & H1 & H2). split.
    + intros p [Ha Hp]%elem_of_bfilter. apply negb_true_iff in Ha. by apply negb_false_iff, bool_decide_eq_true, H1.
    + intros n Hn. by apply negb_false_iff, named_iff, H2.
Qed.

Lemma grade_lines_nil l b :
  grade_lines l b = [] ↔
  b_mii_status b = "up"%string ∧ bl_reach l ≠ AllDark ∧ bl_reach l ≠ Quiet ∧ active_wire l = Some (bl_home l).
Proof.
  unfold grade_lines. destruct (String.eqb_spec (b_mii_status b) "up"); cbn [negb].
  2: { split; [by destruct (_ && _)|by intros (? & _)]. }
  destruct (bl_reach l); try (split; [done|intros (_ & ? & ? & _); done]);
    (destruct (active_wire l) as [w|]; [|split; [done|by intros (_ & _ & _ & ?)]]);
    destruct (String.eqb_spec w (bl_home l)) as [->|]; (split; [done|intros (_ & _ & _ & ?); congruence]).
Qed.

(** C: a leg says nothing exactly when it is healthy. No line is given for a bond leg if and only
    if its bonding directory was read, the bond is up, its active port is one of ours and on the
    home wire, the prober's row does not say that no wire or no voice is left, the list of its ports
    was read, every port that is not absent is in that list and every one in it is ours. *)
Theorem leg_silent_iff_healthy leg :
  leg_reasons leg = [] ↔ ∃ b wire listed, healthy leg b wire listed.
Proof.
  unfold leg_reasons. destruct (bl_bonding leg) as [b|] eqn:Hb.
  2: { split; [done|]. intros (b & w & l & H). by rewrite (hl_bond _ _ _ _ H) in Hb. }
  rewrite app_nil, grade_lines_nil, port_lines_nil. split.
  - intros [(H1 & H2 & H3 & H4) (listed & H5 & H6 & H7)]. exists b, (bl_home leg), listed. by split.
  - intros (b' & w & listed & [H1 H2 [H3 H4] H5 -> H6 H7 H8]). rewrite Hb in H1. injection H1 as <-.
    split_and!; try done. by exists listed.
Qed.

(** ** A workload's row *)

Lemma push_push l1 l2 c : push l2 (push l1 c) = push (l1 ++ l2) c.
Proof. unfold push. cbn. by rewrite app_assoc. Qed.
Lemma push_nil c : push [] c = c.
Proof. destruct c. unfold push. cbn. by rewrite app_nil_r. Qed.

(** The line of a check, when it is a fault. *)
Definition line_if (b : bool) (text : string) : list (Class * string) := if b then [(Settling, text)] else [].

Lemma fault_runs b text c io tr : fault b text c io tr = (tr, Ok (push (line_if b text) c, b)).
Proof. destruct b; cbn; [done|]. unfold fault, gret, ret. by rewrite push_nil. Qed.
Lemma gwhen_runs b text c io tr : gwhen b (settling text) c io tr = (tr, Ok (push (line_if b text) c, tt)).
Proof. destruct b; cbn; [done|]. unfold gret, ret. by rewrite push_nil. Qed.

Section workload_row.
Context (from_str : string → result string EngineState.Value).
Context (v : View) (io : Env_) (row : WorkloadRow).
Let wl := wr_wl row.
Let leg := leg_ifname wl.

(** What the leg's part of the row found: the listings it took, where it left the host, and the
    lines it gave, none exactly when the leg, both its addresses and its uplink are there. *)
Record leg_seen (link : Output) (t1 t2 : list Action) (ports : list string) (bad : bool)
    (said : list (Class * string)) : Prop := {
  le_lines : bad = negb (bool_decide (said = []));
  le_up : bad = false ↔
    output_ok link = true ∧ (∃ addr, exec (br_addr leg) io t1 = (t2, Ok addr)
      ∧ has_ip_addr (stdout addr) (wr_address row) = true ∧ has_ip_addr (stdout addr) (gw_cidr wl) = true)
    ∧ ∃ up, identify_declared (e_host (io t2)) (wl_uplink wl) (wl_vid wl) = Ok up ∧ up_ports up = ports
}.

Lemma workload_leg_found link c tr tr' c' r :
  workload_leg row link c io tr = (tr', Ok (c', r)) →
  ∃ said, c' = push said c ∧ leg_seen link tr tr' r.1 r.2 said.
Proof using Type.
  unfold workload_leg. fold wl leg. intros H. destruct (output_ok link) eqn:Hl; cbn [negb] in H.
  2: { injection H as <- <- <-. eexists. split; [done|]. split; [done|]. rewrite Hl. split; [done|by intros (? & _)]. }
  apply gbind_Ok in H as (t2 & c2 & text & Ha & H).
  apply sys_Ok in Ha as [-> (t & addr & Ha & [= <- <-])%bind_Ok].
  unfold gbind at 1, bind at 1 in H. rewrite fault_runs in H. cbn [fst snd] in H.
  unfold gbind at 1, bind at 1 in H. rewrite fault_runs in H. cbn [fst snd] in H. rewrite push_push in H.
  apply gbind_Ok in H as (t3 & c3 & up & [-> [= <- <-]]%sys_Ok & H).
  destruct (identify_declared _ _ _) as [up|e] eqn:Hu; injection H as <- <- <-; eexists; (split; [rewrite ?push_push; done|]).
  - split; [by destruct (has_ip_addr _ (wr_address row)), (has_ip_addr _ (gw_cidr wl))|].
    cbn [fst snd]. rewrite Hl, orb_false_iff, !negb_false_iff. split.
    + intros [H1 H2]. split_and!; [done|by exists addr|by exists up].
    + intros (_ & (a & Ha' & H1 & H2) & _). rewrite Ha in Ha'. by injection Ha' as <-.
  - split; [by destruct (line_if _ _), (line_if _ _)|]. split; [done|]. intros (_ & _ & u & Hu' & _). congruence.
Qed.
End workload_row.

(** What has to hold of a workload's row for it to be up: the leg, its address and the gateway on
    it, and the uplink, as they were found; the two ARP settings; the bridge guard; no return route
    found missing; and the announcer, when the supervisor answered. *)
Record row_whole (v : View) (io : Env_) (comps : option Components) (arp : string) (bridge : option Output)
    (broken : gset string) (row : WorkloadRow) (tr tr' : list Action) (ports : list string) : Prop := {
  rw_leg : ∃ t1 link addr up,
    exec ["ip"; "-br"; "link"; "show"; "dev"; leg_ifname (wr_wl row)]%string io tr = (t1, Ok link)
    ∧ output_ok link = true ∧ exec (br_addr (leg_ifname (wr_wl row))) io t1 = (tr', Ok addr)
    ∧ has_ip_addr (stdout addr) (wr_address row) = true ∧ has_ip_addr (stdout addr) (gw_cidr (wr_wl row)) = true
    ∧ identify_declared (e_host (io tr')) (wl_uplink (wr_wl row)) (wl_vid (wr_wl row)) = Ok up ∧ up_ports up = ports;
  rw_arp : arp = "1"%string;
  rw_proxy : read_proxy_arp (e_host (io tr')) (leg_ifname (wr_wl row)) = Some true;
  rw_guard : ∃ table, bridge = Some table ∧ output_ok table = true;
  rw_return : wl_name (wr_wl row) ∉ broken;
  rw_announced : ∀ k, comps = Some k → is_Some (announce_row k (wl_name (wr_wl row)))
}.

Lemma opt_eqb_iff (a : option bool) : opt_eqb a (Some true) = true ↔ a = Some true.
Proof. destruct a as [[]|]; cbn; naive_solver. Qed.

Lemma state_up bad not_started : is_up (state_of bad not_started) = negb (bad || not_started).
Proof. by destruct bad, not_started. Qed.

Lemma line_if_nil b text : line_if b text = [] ↔ b = false.
Proof. by destruct b. Qed.

(** The checks of a row after its leg's, and the lines they give. *)
Lemma row_checks said bad arp_off proxy_off no_guard returns not_started t1 t2 t3 t4 :
  bad = negb (bool_decide (said = [])) →
  let lines := ((((said ++ line_if arp_off t1) ++ line_if proxy_off t2) ++ line_if no_guard t3)
                 ++ line_if not_started t4)%list in
  let up := is_up (state_of (bad || arp_off || proxy_off || no_guard || returns) not_started) in
  (up = true ↔ bad = false ∧ arp_off = false ∧ proxy_off = false ∧ no_guard = false ∧ returns = false
               ∧ not_started = false)
  ∧ (up = true → lines = []) ∧ (up = false → returns = false → lines ≠ []).
Proof.
  intros Hb lines up. assert (lines = [] ↔ bad = false ∧ arp_off = false ∧ proxy_off = false
    ∧ no_guard = false ∧ not_started = false) as ->.
  { unfold lines. rewrite !app_nil, !line_if_nil, Hb, negb_false_iff, bool_decide_eq_true. tauto. }
  unfold up. rewrite state_up. clear. by destruct bad, arp_off, proxy_off, no_guard, returns, not_started; naive_solver.
Qed.

Lemma started_iff comps name :
  is_some_and comps (λ _, true) && negb (is_some_and (k ← comps; announce_row k name) (λ _, true)) = false ↔
  ∀ k, comps = Some k → is_Some (announce_row k name).
Proof.
  destruct comps as [k|]; cbn; [|naive_solver]. destruct (announce_row k name) eqn:E; cbn.
  - split; [intros _ k' [= <-]; by rewrite E|done].
  - split; [done|intros H]. destruct (H k eq_refl). congruence.
Qed.

Lemma row_whole_iff v io comps arp bridge broken row tr t1 t2 link ports bad said :
  exec ["ip"; "-br"; "link"; "show"; "dev"; leg_ifname (wr_wl row)]%string io tr = (t1, Ok link) →
  leg_seen io row link t1 t2 ports bad said →
  let proxy := read_proxy_arp (e_host (io t2)) (leg_ifname (wr_wl row)) in
  bad = false ∧ negb (String.eqb arp "1") = false ∧ output_ok link && negb (opt_eqb proxy (Some true)) = false
  ∧ negb (is_some_and bridge output_ok) = false ∧ bool_decide (wl_name (wr_wl row) ∈ broken) = false
  ∧ is_some_and comps (λ _, true)
    && negb (is_some_and (k ← comps; announce_row k (wl_name (wr_wl row))) (λ _, true)) = false
  ↔ row_whole v io comps arp bridge broken row tr t2 ports.
Proof.
  intros Hl [_ Hleg] proxy. rewrite started_iff, Hleg, !negb_false_iff, bool_decide_eq_false, String.eqb_eq.
  split.
  - intros ((Ho & (addr & Ha & H1 & H2) & up & Hu & Hp) & H3 & H4 & H5 & H6 & H7). split; try done.
    + by exists t1, link, addr, up.
    + rewrite Ho in H4. by apply negb_false_iff, opt_eqb_iff in H4.
    + destruct bridge as [table|]; [by exists table|done].
  - intros [(t & link' & addr & up & Hl' & Ho & Ha & H1 & H2 & Hu & Hp) H3 H4 (table & -> & H5) H6 H7].
    rewrite Hl in Hl'. injection Hl' as <- <-. rewrite Ho. split_and!; try done; [by exists addr|by exists up|].
    cbn [andb]. by apply negb_false_iff, opt_eqb_iff.
Qed.

(** C: a workload is up only when its row is whole, and a row that is not says why. The row of a
    workload that was not deferred is up exactly when its leg, its address and the gateway on it and
    its uplink were found, the ARP settings are what the leg needs, the bridge guard is loaded, none
    of its return routes was missing and, when the supervisor answered, its announcer was started;
    such a row gives no line, and one that is down gives one, unless its return route already did. *)
Theorem workload_up_iff_whole from_str v comps arp bridge fwd row c io tr tr' c'
    (Hrow : workload_row from_str v comps arp bridge fwd row c io tr = (tr', Ok (c', tt))) :
  ∃ t2 w said, c' = push_workload w (push said c)
    ∧ ws_name w = wl_name (wr_wl row)
    ∧ (ws_up w = true ↔ row_whole v io comps arp bridge (c_broken_workloads c) row tr t2 (ws_uplink_ports w))
    ∧ (ws_up w = true → said = [])
    ∧ (ws_up w = false → wl_name (wr_wl row) ∉ c_broken_workloads c → said ≠ []).
Proof.
  unfold workload_row in Hrow.
  apply gbind_Ok in Hrow as (t1 & c1 & link & [-> Hl]%sys_Ok & H).
  apply gbind_Ok in H as (t2 & c2 & [ports bad] & (said & -> & [Hs Hleg])%workload_leg_found & H).
  unfold gbind at 1, bind at 1 in H. rewrite fault_runs in H. cbn [fst snd] in *. rewrite push_push in H.
  apply gbind_Ok in H as (t3 & c3 & proxy & [-> [= <- <-]]%sys_Ok & H).
  unfold gbind at 1, bind at 1 in H. rewrite fault_runs in H. cbn [fst snd] in H. rewrite push_push in H.
  unfold gbind at 1, bind at 1 in H. rewrite fault_runs in H. cbn [fst snd] in H. rewrite push_push in H.
  unfold gbind at 1, bind at 1, gets, ret at 1 in H. cbn [fst snd] in H.
  unfold gbind at 1, bind at 1 in H. rewrite gwhen_runs in H. cbn [fst snd] in H. rewrite push_push in H.
  apply gbind_Ok in H as (t4 & c4 & bytes & [-> _]%sys_Ok & H).
  apply gbind_Ok in H as (t5 & c5 & vms & Hv & [= <- <-]).
  match type of Hv with _ ?at_ _ _ = _ => assert (c5 = at_) as -> end.
  { revert Hv. by destruct (is_up _); [intros [-> _]%sys_Ok|intros [= _ <- _]]. }
  clear Hv. eexists t2, _, _. split; [done|]. cbn [ws_name ws_up ws_uplink_ports c_broken_workloads push].
  match goal with |- context [is_up (state_of (bad || ?b1 || ?b2 || ?b3 || ?b4) ?b5)] =>
    pose proof (λ x1 x2 x3 x4, row_checks said bad b1 b2 b3 b4 b5 x1 x2 x3 x4 Hs) as Hc end.
  cbv zeta in Hc. edestruct Hc as (Hup & Hnil & Hsome).
  split_and!; [done| |exact Hnil|intros Hu Hn; apply Hsome; [done|by apply bool_decide_eq_false]].
  rewrite Hup. eapply row_whole_iff; [exact Hl|by split].
Qed.

(** The sample fabric's first host, applied, with an engine that holds one of its three sessions and
    hears one of its two fallback peers; nothing else of it was set up. *)
Module Sample.
Local Open Scope string_scope.
Definition view : View := Derive.Sample.view.
Definition no_rows : Rows :=
  {| rw_class := []; rw_gw := []; rw_fallback := []; rw_owned := []; rw_wires := [] |}.
Definition rows : Rows := match rows_of view with Ok d => d | Err _ => no_rows end.
Definition refused (_ : Refusal) : Error := Fatal "no such zone".
Definition no_file : Error := Fatal "no such file".

Definition session (peer state : string) : EngineState.Value :=
  EngineState.Obj [("peer", Str peer); ("state", Str state)].
Definition neighbor (id state : string) : EngineState.Value :=
  EngineState.Obj [("router_id", Str id); ("state", Str state)].
Definition doc : EngineState.Value :=
  EngineState.Obj
    [("bfd", Arr [session "10.10.1.2" "up"; session "10.10.2.2" "down"]);
     ("ospf", EngineState.Obj [("storage", EngineState.Obj [("interfaces", EngineState.Obj
        [("st-any", EngineState.Obj [("neighbors", Arr [neighbor "10.10.0.2" "full"; neighbor "10.10.0.3" "init"])])])])])].
Definition from_str (s : string) : result string EngineState.Value :=
  if String.eqb s "doc" then Ok doc else Err "expected value".
Definition no_components (_ : string) : option Components := None.
Definition no_log (_ : string) : option (list string) := None.

Definition kernel_run (argv : list string) : result Error Output :=
  match argv with
  | ["ip"; "-4"; "-br"; "addr"; "show"; "dev"; "cfab-work-vms"] =>
      Ok {| status := 0; stdout := "cfab-work-vms UP 192.168.0.2/24 192.168.0.1/24"; stderr := EmptyString |}
  | _ => Ok {| status := 0; stdout := EmptyString; stderr := EmptyString |}
  end.
Definition files (p : string) : result Error string :=
  if bool_decide (p ∈ [conf_path "all" "arp_ignore"; conf_path "cfab-work-vms" "proxy_arp";
                       "/sys/class/net/eth2/bridge/vlan_filtering"; "/sys/class/net/eth2/brif/eth5/state"])
  then Ok (if String.eqb p "/sys/class/net/eth2/brif/eth5/state" then "3" else "1") else Err no_file.
Definition host (applied : bool) : Sys.Host :=
  {| h_run := kernel_run; h_read := files;
     h_exists p := (applied && String.eqb p (f_run_dir (v_fabric view)))
                   || bool_decide (p ∈ ["/sys/class/net/eth2/bridge/stp_state"; "/sys/class/net/eth5/device"]);
     h_is_writable _ := true;
     h_list_dir p := if String.eqb p "/sys/class/net/eth2/brif/" then Ok ["eth5"] else Ok [];
     h_read_link _ := Err no_file |}.
Definition env (applied : bool) (_ : list Action) : Env :=
  {| e_host := host applied; e_write _ _ := Ok tt; e_rename _ _ := Ok tt; e_remove _ := Ok tt;
     e_mkdir _ := Ok tt; e_request _ _ := Ok "doc"; e_probe _ _ := NotListening |}.
Definition expected : list ExpectedLink := match expected_links view with Ok l => l | Err _ => [] end.
Definition parse (_ : string) : result Error Declaration := Err no_file.
Definition gathered (applied : bool) : list Action * result Error StatusModel :=
  Status.gather from_str no_components no_log refused "1.0" view rows expected
    (base_of refused view parse (host applied) None) (env applied) [].
Definition waited (wait_s : Z) : list Action * result Error StatusReport :=
  Status.run from_str no_components no_log refused "1.0" view rows parse wait_s false None (env true) [].

Definition vms_row : WorkloadRow :=
  {| wr_wl := Derive.Sample.vms; wr_address := "192.168.0.2/24"; wr_addr := 3232235522 |}.
Definition guard : option Output := Some {| status := 0; stdout := EmptyString; stderr := EmptyString |}.
Definition start (broken : gset string) : Ctx := mk_ctx [] [] [] [] [] broken.
Definition row_of_vms (broken : gset string) : list Action * result Error (Ctx * unit) :=
  workload_row from_str view None "1" guard EmptyString vms_row (start broken) (env true) [].

Example one_of_each :
  match (gathered true).2 with
  | Ok m => st_state m = UpDegraded ∧ fields <$> st_headline m = Some "1/2 | 1/3 | 1/2"
            ∧ code (st_state m) = 1
            ∧ bool_decide ("down storage:2:.2" ∈ cond_text <$> st_conditions m) = true
  | Err _ => False
  end.
Proof. by vm_compute. Qed.
Example not_applied : st_state <$> ok_of (gathered false).2 = Some Down.
Proof. by vm_compute. Qed.
(** Three seconds: a gather at 0, at 2 and at 4. *)
Example waits_twice :
  length (List.filter (λ a, match a with ASleep _ => true | _ => false end) (waited 3).1) = 2%nat.
Proof. by vm_compute. Qed.
Example vms_up : (λ x, ws_up <$> c_workloads x.1) <$> ok_of (row_of_vms ∅).2 = Some [true].
Proof. by vm_compute. Qed.
Example vms_down_without_return :
  (λ x, ws_up <$> c_workloads x.1) <$> ok_of (row_of_vms {["vms"]}).2 = Some [false].
Proof. by vm_compute. Qed.

(** A member alone expects nothing, and nothing is up of nothing. *)
Example alone_is_failed : headline_state headline_default = Failed.
Proof. done. Qed.

(** A zone with a colon in its name: the gate lets it through, and no status of it ever ends well. *)
Definition colon_zone : Zone :=
  {| z_name := "st:x"; z_id := 10; z_pcp := 3; z_dscp := Cs2; z_floor_mbps := 1000; z_band := 1;
     z_weight := 2; z_primary := "a"; z_gw := None |}.
Definition lone_h1 : Member :=
  {| m_name := "h1"; m_node := 1; m_kind := Decl.Host; m_wires := m_wires Derive.Sample.h1; m_workloads := [] |}.
Definition colon_fabric : Fabric :=
  {| f_domains := ["a"; "b"]; f_members := [lone_h1; Derive.Sample.h2]; f_zones := [colon_zone];
     f_segments := [ {| s_ifname := "st-a"; s_scope := OnDomain "a"; s_zone := "st:x"; s_seg := 1; s_vid := 101 |} ];
     f_wire_prefs := []; f_leaf_cost_offset := LEAF_OFFSET; f_host_forward := true;
     f_forward_allow := []; f_admin_floor_mbps := 100; f_admin_band := 1;
     f_pcp_ctrl := 6; f_dscp_mark := true; f_bfd := bfd_default; f_ospf := ospf_default;
     f_bgp := bgp_default; f_run_dir := RUN_DIR; f_dns_domain := "example.net"; f_workloads := [] |}.
End Sample.

Example colon_never_reads :
  validate Sample.colon_fabric = Ok tt
  ∧ expected_links {| v_fabric := Sample.colon_fabric; v_member := Sample.lone_h1 |}
    = Err (UnknownZone "st" ["st:x"%string]).
Proof. by vm_compute. Qed.

Lemma wait_witness :
  expected_links Sample.view = Ok Sample.expected ∧ 0 ≤ 3 ∧
  let one := Status.gather Sample.from_str Sample.no_components Sample.no_log Sample.refused "1.0" Sample.view
               Sample.rows Sample.expected
               (base_of Sample.refused Sample.view Sample.parse (e_host (Sample.env true [])) None) in
  let at_ k := after Sample.from_str Sample.no_components Sample.no_log Sample.refused "1.0" Sample.view
                 Sample.rows Sample.expected
                 (base_of Sample.refused Sample.view Sample.parse (e_host (Sample.env true [])) None)
                 (Sample.env true) k [] in
  ∃ k, 2 * Z.of_nat k < 3 + 2
    ∧ Sample.waited 3 = ((one (Sample.env true) (at_ k)).1, reported false (one (Sample.env true) (at_ k)).2)
    ∧ (∀ j, (j < k)%nat → ∃ m, (one (Sample.env true) (at_ j)).2 = Ok m
         ∧ ¬ (st_state m = Up ∧ ∀ c, c ∈ st_conditions m → cond_class c = Standing))
    ∧ (∀ m, (one (Sample.env true) (at_ k)).2 = Ok m →
         (st_state m = Up ∧ ∀ c, c ∈ st_conditions m → cond_class c = Standing) ∨ 3 ≤ 2 * Z.of_nat k).
Proof.
  assert (expected_links Sample.view = Ok Sample.expected) as H by (by vm_compute).
  split; [exact H|]. split; [lia|].
  apply (wait_ends_for_a_reason Sample.from_str Sample.no_components Sample.no_log Sample.refused "1.0"
           Sample.view Sample.rows Sample.parse 3 false None (Sample.env true) [] Sample.expected H).
  lia.
Defined.

Lemma verdict_witness :
  ∃ tr m, Sample.gathered true = (tr, Ok m) ∧
  ∃ doc t0 parts,
    doc = ok_of (EngineCtl.state Sample.from_str (v_fabric Sample.view) (Sample.env true) t0).2
    ∧ Forall2 (bond_rows Sample.view doc) (rw_fallback Sample.rows) parts
    ∧ st_adjacencies m = ((λ e, link_row (session_up doc e) e) <$> Sample.expected) ++ mjoin parts
    ∧ st_headline m = Some (counts_of (st_adjacencies m))
    ∧ st_state m = verdict_on (st_adjacencies m)
    ∧ ∀ a, a ∈ st_adjacencies m → a_up a = false →
        {| cond_class := Settling; cond_text := "down " ++ label a |} ∈ st_conditions m.
Proof.
  assert (is_some_and (ok_of (Sample.gathered true).2) (λ _, true) = true) as Hok by (by vm_compute).
  destruct (Sample.gathered true) as [tr [m|e]] eqn:E; [clear Hok; exists tr, m; split; [reflexivity|]|by inversion Hok].
  unfold Sample.gathered in E.
  destruct (verdict_counts_the_declared Sample.from_str Sample.no_components Sample.no_log Sample.refused "1.0"
              Sample.view Sample.rows Sample.parse Sample.expected (Sample.host true) None
              (Sample.env true) [] tr m E) as [(H & _)|(_ & H)]; [exfalso; vm_compute in H; inversion H|exact H].
Defined.

Lemma workload_up_witness :
  ∃ c tr', workload_row Sample.from_str Sample.view None "1" Sample.guard EmptyString Sample.vms_row
              (Sample.start ∅) (Sample.env true) []
            = (tr', Ok (c, tt)) ∧
  ∃ t2 w said, c = push_workload w (push said (Sample.start ∅))
    ∧ ws_name w = wl_name (wr_wl Sample.vms_row)
    ∧ (ws_up w = true ↔ row_whole Sample.view (Sample.env true) None "1" Sample.guard
                          (c_broken_workloads (Sample.start ∅)) Sample.vms_row [] t2 (ws_uplink_ports w))
    ∧ (ws_up w = true → said = [])
    ∧ (ws_up w = false → wl_name (wr_wl Sample.vms_row) ∉ c_broken_workloads (Sample.start ∅) → said ≠ []).
Proof.
  assert (is_some_and (ok_of (workload_row Sample.from_str Sample.view None "1" Sample.guard EmptyString Sample.vms_row
              (Sample.start ∅) (Sample.env true) []).2) (λ _, true) = true) as Hok by (by vm_compute).
  destruct (workload_row Sample.from_str Sample.view None "1" Sample.guard EmptyString Sample.vms_row
              (Sample.start ∅) (Sample.env true) [])
    as [tr' [[c []]|e]] eqn:E;
    [clear Hok; exists c, tr'; split; [reflexivity|]|by inversion Hok].
  apply (workload_up_iff_whole Sample.from_str Sample.view None "1" Sample.guard EmptyString Sample.vms_row
           (Sample.start ∅) (Sample.env true) [] tr' c). exact E.
Defined.
