(* ===== verification/Metrics.v ===== *)
(** The member's telemetry (src/src/supervisor/metrics.rs): one snapshot as metric families, and the
    endpoint that serves them.

    A snapshot is rendered into a list of [Family], what the collector hands the encoder of the
    prometheus client; the text of a family is that library's, a parameter of [render]. A value in
    seconds is kept as the duration it is rendered from. A request and an answer are the bytes of a
    string. *)
From Stdlib Require Import Ascii String.
From S2P Require Import Prelude Text Decl Sys Net Fabric Derive Actor Prober Child Legs Emit StatusModel.
Local Open Scope Z_scope.

(** ** What is rendered *)

Record Snapshot := {
  sn_model : StatusModel;
  sn_probed : ProbeRows;
  sn_collected_at_unix : Duration;
  sn_collect_seconds : Duration;
  sn_collect_failures : Z
}.

Definition Labels : Type := list (string * string).
Inductive Sample := Int (n : Z) | Seconds (d : Duration).
Inductive MetricType := Gauge | Counter.
(** A family as it is encoded: its descriptor, then a sample per label set. *)
Record Family := {
  fm_name : string; fm_help : string; fm_type : MetricType; fm_rows : list (Labels * Sample)
}.

(** [v as i64] of an unsigned value. *)
Definition as_i64 (v : Z) : Z := if v <? 2 ^ 63 then v else v - 2 ^ 64.
Definition i64_max : Z := 2 ^ 63 - 1.
Definition flag (b : bool) : Sample := Int (if b then 1 else 0).

Definition char_quote : ascii := "034"%char.
Definition char_backslash : ascii := "092"%char.
Fixpoint escape (v : string) : string :=
  match v with
  | EmptyString => EmptyString
  | String c v =>
      if Ascii.eqb c char_backslash then String char_backslash (String char_backslash (escape v))
      else if Ascii.eqb c char_quote then String char_backslash (String char_quote (escape v))
      else if Ascii.eqb c char_lf then String char_backslash (String "n"%char (escape v))
      else String c (escape v)
  end.
Definition lbl (pairs : list (string * string)) : Labels := (λ p, (p.1, escape p.2)) <$> pairs.

Definition scalar (name help : string) (v : Sample) : list Family :=
  [{| fm_name := name; fm_help := help; fm_type := Gauge; fm_rows := [([], v)] |}].
Definition scalar_counter (name help : string) (v : Z) : list Family :=
  [{| fm_name := name; fm_help := help; fm_type := Counter; fm_rows := [([], Int v)] |}].
(** An empty family writes nothing. *)
Definition family_of (t : MetricType) (name help : string) (rows : list (Labels * Sample)) : list Family :=
  match rows with
  | [] => []
  | _ => [{| fm_name := name; fm_help := help; fm_type := t; fm_rows := rows |}]
  end.
Definition family : string → string → list (Labels * Sample) → list Family := family_of Gauge.
Definition counter_family (name help : string) (rows : list (Labels * Z)) : list Family :=
  family_of Counter name help ((λ r, (r.1, Int r.2)) <$> rows).

(** ** The vocabularies *)

Definition FABRIC_STATES : list State := [Up; UpDegraded; Failed; Down].
Definition CHILD_STATES : list Child.State := [Starting; Running; Restarting; Stopped].
Definition BGP_STATES : list string :=
  ["Idle"; "Connect"; "Active"; "OpenSent"; "OpenConfirm"; "Established"; "absent"]%string.
Definition WATCHDOG_RESULTS : list string :=
  ["ok"; "actuated"; "failed-closed"; "blocked"; "error"]%string.
Definition WORKLOAD_STATES : list WorkloadState := [WUp; WDeferred; WAnnouncerNotStarted; WBroken].
Definition workload_state_word (s : WorkloadState) : string :=
  match s with
  | WUp => "up" | WDeferred => "deferred" | WAnnouncerNotStarted => "announcer_not_started"
  | WBroken => "broken"
  end.

(** Every known value, and the observed one when it is none of them. *)
Definition one_of (known : list string) (actual : string) : list string :=
  known ++ (if bool_decide (actual ∈ known) then [] else [actual]).

(** Each text once, in the order it was found. *)
Fixpoint once_each_from (seen : list string) (l : list Condition) : list Condition :=
  match l with
  | [] => []
  | c :: l =>
      if bool_decide (cond_text c ∈ seen) then once_each_from seen l
      else c :: once_each_from (seen ++ [cond_text c]) l
  end.
Definition once_each : list Condition → list Condition := once_each_from [].
Definition class_word (c : Class) : string :=
  match c with Settling => "settling" | Standing => "standing" end.

(** ** The collector *)

Section collector.
Context (snap : Snapshot).
Let model := sn_model snap.
Local Open Scope string_scope.

(** The fallback legs, then the ingress legs that migrate. *)
Definition legs_of : list StatusModel.BondLeg := (st_fallbacks model ++ omap ig_bond (st_ingress model))%list.
Definition active_wire_of (bond : string) : option string :=
  List.find (λ l, String.eqb (bl_ifname l) bond) legs_of ≫= active_wire.

Definition identity : list Family :=
  let m := st_member model in
  (family "cfab_build_info"
       "The cfab version this member runs."
       [(lbl [("version", mi_version m)], Int 1)]
   ++ family "cfab_member_info"
       "This member's row in the declaration."
       [(lbl [("member", mi_name m); ("kind", kind_word m)], Int 1)])%list.

Definition state_rows : list (Labels * Sample) :=
  (λ s, (lbl [("state", word s)], flag (bool_decide (s = st_state model)))) <$> FABRIC_STATES.
Definition counts (h : Headline) : list Family :=
  (scalar "cfab_peers_up"
       "Peers with at least one adjacency up."
       (Int (as_i64 (h_peers_up h)))
   ++ scalar "cfab_peers_expected"
       "Peers the declaration expects."
       (Int (as_i64 (h_peers h)))
   ++ scalar "cfab_links_up"
       "BFD sessions up on declared segments."
       (Int (as_i64 (h_links_up h)))
   ++ scalar "cfab_links_expected"
       "BFD sessions the declaration expects, one per peer, zone and segment."
       (Int (as_i64 (h_links h)))
   ++ scalar "cfab_fallbacks_up"
       "Fallback OSPF neighbors at least 2-Way."
       (Int (as_i64 (h_fallbacks_up h)))
   ++ scalar "cfab_fallbacks_expected"
       "Fallback OSPF neighbors the declaration expects."
       (Int (as_i64 (h_fallbacks h))))%list.
Definition headline_families : list Family :=
  (family "cfab_fabric_state"
       "The member's verdict; exactly one series is 1."
       state_rows
   ++ match st_headline model with Some h => counts h | None => [] end)%list.

Definition bfd_row (a : Adjacency) : option (Labels * Sample) :=
  seg ← a_seg a;
  Some (lbl [("zone", a_zone a); ("segment", show seg); ("peer", a_peer_name a)], flag (a_up a)).
Definition fallback_row (a : Adjacency) : option (Labels * Sample) :=
  match a_seg a with
  | Some _ => None
  | None => Some (lbl [("zone", a_zone a); ("peer", a_peer_name a)], flag (a_up a))
  end.
Definition adjacencies : list Family :=
  (family "cfab_bfd_session_up"
       "1 when the BFD session on this declared segment leg is up."
       (omap bfd_row (st_adjacencies model))
   ++ family "cfab_fallback_neighbor_up"
       "1 when this fallback OSPF neighbor is at least 2-Way."
       (omap fallback_row (st_adjacencies model)))%list.

(** A wire is present when a port on it is. *)
Definition note_wire (present : gmap string bool) (p : LegPort) : gmap string bool :=
  <[lp_wire p := unwrap_or (present !! lp_wire p) false || negb (lp_absent p)]> present.
Definition wires_present : gmap string bool := foldl note_wire ∅ (l ← legs_of; bl_ports l).
Definition wire_rows : list (Labels * Sample) :=
  (λ e, (lbl [("wire", e.1)], flag e.2)) <$> btree_iter str_leb wires_present.
Definition leg_labels (l : StatusModel.BondLeg) : Labels :=
  lbl [("zone", bl_zone l); ("bond", bl_ifname l)].
Definition home_row (l : StatusModel.BondLeg) : option (Labels * Sample) :=
  _ ← bl_bonding l;
  match bl_kind l with
  | Fallback => Some (leg_labels l, flag (on_home l))
  | IngressLeg => None
  end.
Definition carrier_row (l : StatusModel.BondLeg) : option (Labels * Sample) :=
  b ← bl_bonding l;
  match b_home_carrier b with
  | Value v => Some (leg_labels l, flag (String.eqb v "1"))
  | _ => None
  end.
Definition legs_state : list Family :=
  (family "cfab_fallback_bond_active_home"
       "1 when the leg's active port is on the wire it belongs on."
       (omap home_row legs_of)
   ++ family "cfab_bond_home_carrier"
       "The home wire's carrier, read only while the leg is off home."
       (omap carrier_row legs_of)
   ++ family "cfab_wire_present"
       "1 when this declared wire exists in the kernel."
       wire_rows)%list.

Definition active_rows (leg : ProbedLeg) : list (Labels * Sample) :=
  match active_wire_of (r_bond leg) with
  | None => []
  | Some on =>
      (λ p, (lbl [("zone", r_zone leg); ("island", r_island p); ("wire", r_wire p)],
             flag (String.eqb (r_wire p) on))) <$> r_ports leg
  end.
Definition probed (rows : list ProbedLeg) (name help : string) : list Family :=
  family name help (leg ← rows; active_rows leg).

Definition probed_legs : list ProbedLeg :=
  (rows_fallback (sn_probed snap) ++ rows_ingress (sn_probed snap))%list.
Definition port_labels (leg : ProbedLeg) (p : ProbedPort) : Labels :=
  lbl [("zone", r_zone leg); ("bond", r_bond leg); ("wire", r_wire p); ("island", r_island p)].
Definition port_rows (v : ProbedPort → option Sample) : list (Labels * Sample) :=
  leg ← probed_legs; omap (λ p, s ← v p; Some (port_labels leg p, s)) (r_ports leg).
Definition moves_row (leg : ProbedLeg) : Labels * Z :=
  (lbl [("zone", r_zone leg); ("bond", r_bond leg)], r_moves leg).
Definition probe_ports : list Family :=
  (family "cfab_probe_port_usable"
       "1 when the prober can reach the far end over this wire."
       (port_rows (λ p, Some (flag (r_reachable p))))
   ++ family "cfab_probe_port_suspect"
       "1 when this wire is silent past its window and is being asked directly."
       (port_rows (λ p, Some (flag (r_suspect p))))
   ++ family "cfab_probe_port_last_reply_seconds"
       "Seconds since this wire last showed life; absent when it never has."

        (port_rows (λ p, (λ ms, Seconds (ms * 1000000)) <$> r_last_reply_ms p))
   ++ counter_family "cfab_probe_moves"
       "Moves the prober has actuated on this leg since the supervisor started."
       (moves_row <$> probed_legs))%list.

Definition class_count (c : Class) : Z :=
  Z.of_nat (length (List.filter (λ l, bool_decide (cond_class l = c)) (once_each (st_conditions model)))).
Definition conditions : list Family :=
  (family "cfab_conditions"
       "Reason lines this member reports, counted by what they mean for a wait."

     ((λ c, (lbl [("class", class_word c)], Int (class_count c))) <$> [Settling; Standing])
   ++ family "cfab_condition_info"
       "One series per reason line, worded exactly as status prints it."

        ((λ c, (lbl [("class", class_word (cond_class c)); ("text", cond_text c)], Int 1))
           <$> once_each (st_conditions model)))%list.

(** Nothing reaches the far end when every wire is dark or quiet; [Unknown] is no verdict. *)
Definition reach_row (i : Ingress) : option (Labels * Sample) :=
  b ← ig_bond i;
  match bl_reach b with
  | Unknown => None
  | r => Some (lbl [("zone", ig_zone i)], flag (negb (bool_decide (r = AllDark) || bool_decide (r = Quiet))))
  end.
Definition bgp_state_of (i : Ingress) : string := unwrap_or (ig_bgp_state i) "absent".
Definition bgp_rows (i : Ingress) : list (Labels * Sample) :=
  (λ s, (lbl [("zone", ig_zone i); ("neighbor", ig_router i); ("state", s)],
         flag (String.eqb s (bgp_state_of i)))) <$> one_of BGP_STATES (bgp_state_of i).
Definition pfx_row (i : Ingress) : option (Labels * Sample) :=
  n ← ig_bgp_pfx_snt i;
  Some (lbl [("zone", ig_zone i); ("neighbor", ig_router i)], Int (as_i64 n)).
Definition ingress : list Family :=
  (family "cfab_ingress_reachable"
       "1 when the prober reaches the gateway router over some wire of the ingress leg."
       (omap reach_row (st_ingress model))
   ++ family "cfab_bgp_neighbor_state"
       "The session state toward this zone's gateway router; exactly one series is 1."
       (i ← st_ingress model; bgp_rows i)
   ++ family "cfab_bgp_neighbor_prefixes_sent"
       "Prefixes this member has sent the gateway router."
       (omap pfx_row (st_ingress model)))%list.

(** Absent where there is no gateway zone, and where there is no default at all. *)
Definition path_sample (d : StatusModel.HostDefault) : option Sample :=
  match hd_reason d, hd_path d with
  | Some NoGwZone, _ => None
  | _, PFabric _ _ => Some (Int 0)
  | _, PFloor _ _ => Some (Int 1)
  | _, PNone => None
  end.
Definition host_default : list Family :=
  match st_host_default model ≫= path_sample with
  | Some v => scalar "cfab_host_default_path"
       ("0 while this member's locally originated traffic takes cfab's additive default through "
        ++ "the fabric gateway (table 250), 1 while it takes the host's own floor default in main — "
        ++ "because the ingress prober reports the router unreachable, because the default was "
        ++ "withdrawn, or because cfab is not running. Absent on a member with no gw zone and on "
        ++ "one with no default route at all.")
       v
  | None => []
  end.

(** *** Workloads *)

Definition named (name : string) : Labels := lbl [("name", name)].
Definition row_state (w : WorkloadStatus) : list (Labels * Sample) :=
  (λ s, (lbl [("name", ws_name w); ("state", workload_state_word s)], flag (bool_decide (s = ws_state w))))
    <$> WORKLOAD_STATES.
Definition guard_rows (w : WorkloadStatus) : list (Labels * Z) :=
  match ws_guard_drops w with
  | Some gd => [(lbl [("name", ws_name w); ("kind", "claim")], gd_claim gd);
                (lbl [("name", ws_name w); ("kind", "request")], gd_request gd)]
  | None => []
  end.
Definition named_count {A} (f : WorkloadStatus → option A) (g : A → Z) : list (Labels * Z) :=
  omap (λ w, a ← f w; Some (named (ws_name w), g a)) (st_workloads model).
(** The supervisor's announcer and relay of a row, when it answered. *)
Definition announcer_of (w : WorkloadStatus) : option WorkloadAnnounce :=
  c ← st_components model; announce_row c (ws_name w).
Definition relay_of (w : WorkloadStatus) : option RelayInfo :=
  c ← st_components model; StatusModel.relay_row c (ws_name w).
Definition relayed_rows (w : WorkloadStatus) : list (Labels * Z) :=
  match relay_of w with
  | Some r => [(lbl [("name", ws_name w); ("direction", "request")], ri_requests r);
               (lbl [("name", ws_name w); ("direction", "reply")], ri_replies r)]
  | None => []
  end.
Definition discovered_row (w : WorkloadStatus) : option (Labels * Z) :=
  r ← relay_of w; Some (lbl [("name", ws_name w); ("source", "dhcp")], ri_discovered r).
Definition workload_rows_families : list Family :=
  (family "cfab_workload_up"
       ("1 when the workload row is installed (table present, address, sibling, route-get) and "
        ++ "its announcer is running.")
       ((λ w, (named (ws_name w), flag (is_up (ws_state w)))) <$> st_workloads model)
   ++ family "cfab_workload_state"
       ("The row's classification (up/deferred/announcer_not_started/broken); exactly one series "
        ++ "is 1 per name.")
       (w ← st_workloads model; row_state w)
   ++ family "cfab_workload_vms_seen"
       ("VMs this member currently knows on this row's leg: neighbor entries inside the row's "
        ++ "prefix in a resolved state (REACHABLE, STALE, DELAY, PROBE, PERMANENT), other than a "
        ++ "declared member address or gw, whose MAC the uplink bridge has on a NON-uplink port — "
        ++ "the same derivation that decides which /32s this member originates, so the two can "
        ++ "never disagree. A VM on a peer host is learned through the uplink and counted there, "
        ++ "not here; a departed VM lingers as STALE until the kernel garbage-collects the entry "
        ++ "(rack-measured: minutes), so this counts neighbors known, not VMs alive — 0 is the "
        ++ "alert ("
        ++ quoted "gateway up, nobody home"
        ++ "), a nonzero value is an upper bound; absent when the row is not up or either read "
        ++ "failed.")

        (omap (λ w, n ← ws_vms_seen w; Some (named (ws_name w), Int n)) (st_workloads model))
   ++ counter_family "cfab_workload_guard_drops"
       ("The bridge guard's claim/request drop counters, summed over this row's uplink ports; "
        ++ "reset to 0 when apply re-renders the table or the watchdog restores it; absent when the "
        ++ "guard table or the row's uplink ports are unknown.")
       (w ← st_workloads model; guard_rows w)
   ++ counter_family "cfab_workload_stray_forwards"
       ("Fabric packets this member forwarded onto this row's leg for a destination that is not "
        ++ "a VM it currently knows (spec 5.6): counted, NOT dropped — the packet goes to the leg, "
        ++ "where the kernel's ARP either finds a local VM (discovering it) or times out. Summed "
        ++ "over the row's one rule per allowed zone; reset to 0 when apply re-renders inet "
        ++ "cfab-fwd; absent when the forward chain carries no such rule.")
       (named_count ws_stray_forwards id)
   ++ counter_family "cfab_workload_rx_bytes"
       ("`/sys/class/net/<ifname>/statistics/rx_bytes` for this row; the gateway's own "
        ++ "forwarding, not cross-host VM-to-VM traffic, which stays on the physical switch.")
       (named_count ws_bytes fst)
   ++ counter_family "cfab_workload_tx_bytes"
       ("`/sys/class/net/<ifname>/statistics/tx_bytes` for this row; the gateway's own "
        ++ "forwarding, not cross-host VM-to-VM traffic, which stays on the physical switch.")
       (named_count ws_bytes snd))%list.
Definition announcer_families : list Family :=
  (counter_family "cfab_workload_announces"
       ("Gratuitous ARPs this row's announcer has sent since the supervisor started; absent when "
        ++ "no supervisor answered or the announcer has not started.")
       (named_count announcer_of wa_announces)
   ++ counter_family "cfab_workload_bursts"
       ("Re-announce bursts this row's announcer has sent; a rising rate is flapping (MAC churn, "
        ++ "watch deaths); absent under the same condition as cfab_workload_announces.")
       (named_count announcer_of wa_bursts))%list.
Definition relay_families : list Family :=
  (counter_family "cfab_workload_dhcp_relayed"
       ("DHCP packets this row's relay has forwarded since the supervisor started (spec §5.4): "
        ++ "`direction="
        ++ quoted "request"
        ++ "` toward dhcp_server, `direction="
        ++ quoted "reply"
        ++ "` back to the leg; absent when the row declares no dhcp_server or no supervisor "
        ++ "answered.")
       (w ← st_workloads model; relayed_rows w)
   ++ counter_family "cfab_workload_vms_discovered"
       ("VMs this member has decided to register a neighbor entry for since the supervisor "
        ++ "started (credited when the decision is made, not when the write lands — a failing write "
        ++ "still counts here), by how it learned the address: a relayed DHCPACK (source="
        ++ quoted "dhcp"
        ++ ") today; a non-DHCP first packet (source="
        ++ quoted "neigh"
        ++ ") is a later gate's. Absent under the same condition as cfab_workload_dhcp_relayed.")
       (omap discovered_row (st_workloads model))
   ++ counter_family "cfab_workload_dhcp_relay_drops"
       ("DHCP packets this row's relay declined to forward, or declined to register, since the "
        ++ "supervisor started, without ending the relay task (gate C fix round 2): a server-facing "
        ++ "or client-facing send that failed, a reply whose address fell outside the row's prefix, "
        ++ "or a DHCPACK naming an address the fabric itself owns or the row's network/broadcast "
        ++ "address. Absent under the same condition as cfab_workload_dhcp_relayed.")
       (named_count relay_of ri_drops))%list.
Definition workloads : list Family :=
  (workload_rows_families ++ announcer_families ++ relay_families)%list.

Definition neighbor_row_of (w : WorkloadStatus) : option NeighborRowInfo :=
  c ← st_components model;
  List.find (λ r, String.eqb (ni_name r) (ws_name w)) (cs_neighbor_rows c).
Definition neighbor_rows_families : list Family :=
  (family "cfab_workload_neighbor_table_size"
       ("Addresses this row currently holds in cfab's own DHCP neighbor write table (gate C spec "
        ++ "§4.5) — never the kernel's own table, which this pipeline only ever restores absence "
        ++ "in. Absent for a row the flush actor has not touched yet.")

     (omap (λ w, r ← neighbor_row_of w; Some (named (ws_name w), Int (ni_table_size r))) (st_workloads model))
   ++ counter_family "cfab_workload_neighbor_writes"
       ("Neighbor entries this row's claims have written to the kernel since the supervisor "
        ++ "started (gate C spec §4.1.1): the kernel did not already hold this address, or held it "
        ++ "with no lladdr. Absent under the same condition as cfab_workload_neighbor_table_size.")
       (named_count neighbor_row_of ni_writes)
   ++ counter_family "cfab_workload_neighbor_write_failures"
       ("Writes this row attempted that the kernel refused, since the supervisor started; the "
        ++ "entry is re-queued and retried on a later batch, with no backoff (gate C spec §4.1.1). "
        ++ "A steady trickle here is EEXIST races the actor's own re-dirty resolves on its own; a "
        ++ "rising rate is a real fault. Absent under the same condition as "
        ++ "cfab_workload_neighbor_table_size.")
       (named_count neighbor_row_of ni_write_failures)
   ++ counter_family "cfab_workload_neighbor_read_failures"
       ("How many times the flush actor's own pre-drain kernel read has failed since the "
        ++ "supervisor started (gate C spec §4.5) — host-wide (one read drains every row's dirty "
        ++ "entries at once) and repeated here under every row on purpose: a coherent host and a "
        ++ "host that silently wrote nothing because its reads keep failing look identical from "
        ++ "every OTHER counter in this row. Absent under the same condition as "
        ++ "cfab_workload_neighbor_table_size.")
       (named_count neighbor_row_of ni_read_failures)
   ++ counter_family "cfab_workload_neighbor_cap_refusals"
       ("Claims this row has had refused since the supervisor started because the row was "
        ++ "already at its gate C §4.1.4 cap. Nothing here acts on this number: the claimed address "
        ++ "is attacker-controlled, so throttling on it would let a forged claim get a real VM "
        ++ "throttled. Absent under the same condition as cfab_workload_neighbor_table_size.")
       (named_count neighbor_row_of ni_cap_refusals)
   ++ counter_family "cfab_workload_neighbor_expiries"
       ("Rows this member's own DHCP neighbor table has dropped because their lease ran out, "
        ++ "since the supervisor started (gate C spec §4.1.3); cfab deletes no kernel entry when "
        ++ "this moves, the kernel keeps whatever it holds. Absent under the same condition as "
        ++ "cfab_workload_neighbor_table_size.")
       (named_count neighbor_row_of ni_expiries)
   ++ counter_family "cfab_workload_neighbor_skips"
       ("Claims this row's flush actor found the kernel already held a valid entry for, so "
        ++ "nothing was written — the healthy steady state under gate C spec §4.1.1 (R2.2: a MAC "
        ++ "the kernel learned beats a DHCP claim). Absent under the same condition as "
        ++ "cfab_workload_neighbor_table_size.")
       (named_count neighbor_row_of ni_skips))%list.
Definition neighbor_actor_families (h : NeighborActorInfo) : list Family :=
  (scalar "cfab_neighbor_dirty_depth"
       ("Entries waiting for the flush actor right now, host-wide (gate C spec §4.5): one queue "
        ++ "for the whole member, never one per row. Absent while no relay row runs an actor.")

     (Int (Z.min (ai_dirty_depth h) i64_max))
   ++ scalar "cfab_neighbor_token_level"
       ("Tokens the host-wide fork bucket holds right now, out of its burst (gate C spec "
        ++ "§4.2.2). Absent under the same condition as cfab_neighbor_dirty_depth.")
       (Int (ai_token_level h))
   ++ match ai_oldest_dirty_age h with
      | Some age => scalar "cfab_neighbor_oldest_dirty_age_seconds"
       ("Seconds since the oldest entry still waiting for the flush actor was queued (gate C "
        ++ "spec §4.5): observability, not fairness — fairness is queue position, decided by FIFO "
        ++ "order alone. Absent while nothing is dirty.")
       (Seconds age)
      | None => []
      end)%list.
Definition neighbor_pipeline : list Family :=
  (neighbor_rows_families
   ++ match (c ← st_components model; cs_neighbor c) with
      | Some h => neighbor_actor_families h
      | None => []
      end)%list.

(** *** The supervisor *)

Definition child_label (k : Component) : Labels := lbl [("component", k_name k)].
Definition child_states (k : Component) : list (Labels * Sample) :=
  (λ s, (lbl [("component", k_name k); ("state", Child.as_str s)], flag (bool_decide (s = k_state k))))
    <$> CHILD_STATES.
Definition uptime_row (k : Component) : option (Labels * Sample) :=
  u ← k_uptime_s k; Some (child_label k, Int (as_i64 u)).
Definition last_exit_row (k : Component) : option (Labels * Sample) :=
  e ← k_last_exit k;
  Some (lbl [("component", k_name k); ("cause", ec_cause e)], Int (as_i64 (ec_s_ago e))).
Definition children (c : Components) : list Family :=
  (family "cfab_component_state"
       "The supervisor's state for this child; exactly one series is 1."
       (k ← cs_components c; child_states k)
   ++ family "cfab_component_expected"
       "0 when this member is not meant to run the child, which is why it is stopped."

        ((λ k, (child_label k, flag (bool_decide (k_why k = None)))) <$> cs_components c)
   ++ counter_family "cfab_component_restarts"
       "Restarts of this child since the supervisor started."
       ((λ k, (child_label k, k_restarts k)) <$> cs_components c)
   ++ family "cfab_component_uptime_seconds"
       "Seconds this child has been running; absent when it is not."
       (omap uptime_row (cs_components c))
   ++ family "cfab_component_last_exit_age_seconds"
       "Seconds since this child last exited, by the cause it exited with."
       (omap last_exit_row (cs_components c)))%list.
Definition result_rows (result : string) : list (Labels * Sample) :=
  (λ s, (lbl [("result", s)], flag (String.eqb s result))) <$> one_of WATCHDOG_RESULTS result.
Definition watchdog_families (w : WatchdogInfo) : list Family :=
  (match wi_last_tick_s_ago w with
   | Some n => scalar "cfab_watchdog_last_tick_age_seconds"
       "Seconds since the forwarding watchdog last ticked."
       (Int (as_i64 n))
   | None => []
   end ++ family "cfab_watchdog_result"
       "What the forwarding watchdog's last tick did; exactly one series is 1."
       (result_rows (wi_result w)))%list.
Definition supervisor_families (s : SupervisorInfo) : list Family :=
  (scalar "cfab_supervisor_uptime_seconds"
       "Seconds this supervisor has been running."
       (Int (as_i64 (sv_uptime_s s)))
   ++ scalar_counter "cfab_supervisor_applies"
       "Fabric applies this supervisor has completed."
       (sv_applies s)
   ++ scalar "cfab_supervisor_applying"
       "1 while an apply is in progress."
       (flag (sv_applying s))
   ++ scalar "cfab_supervisor_last_apply_failed"
       "1 when the last apply left an error; the message stays in status and the journal."

        (flag (is_some_and (sv_last_apply_error s) (λ _, true))))%list.
Definition components : list Family :=
  match st_components model with
  | Some c => (children c ++ watchdog_families (cs_watchdog c) ++ supervisor_families (cs_supervisor c))%list
  | None => []
  end.

Definition telemetry : list Family :=
  (scalar "cfab_telemetry_last_refresh_seconds"
       "Unix time at which this snapshot was gathered."
       (Seconds (sn_collected_at_unix snap))
   ++ scalar "cfab_telemetry_collect_seconds"
       "Wall time of the last gather and render."
       (Seconds (sn_collect_seconds snap))
   ++ scalar_counter "cfab_telemetry_collect_failures"
       "Gathers that failed since the supervisor started."
       (sn_collect_failures snap))%list.

Definition encode : list Family :=
  (identity ++ headline_families ++ adjacencies ++ legs_state
   ++ probed (rows_fallback (sn_probed snap)) "cfab_fallback_active"
       "1 on the wire the zone's fallback leg is carrying on."

   ++ probed (rows_ingress (sn_probed snap)) "cfab_ingress_active"
       "1 on the wire the zone's ingress leg is carrying on."

   ++ probe_ports ++ conditions ++ ingress ++ host_default ++ workloads ++ neighbor_pipeline
   ++ components ++ telemetry)%list.
End collector.

(** [prometheus_client::encoding::text::encode]. *)
Definition render (text : list Family → string) (snap : Snapshot) : string := text (encode snap).

(** ** The endpoint *)

Definition MAX_REQUEST : nat := 1024.
Definition crlf : string := String char_cr (String char_lf EmptyString).

(** [std::str::from_utf8]: whether the bytes are UTF-8, with no overlong form and no surrogate. *)
Definition between (lo hi : Z) (c : ascii) : bool := (lo <=? Text.code c) && (Text.code c <=? hi).
Fixpoint is_utf8 (s : string) : bool :=
  match s with
  | EmptyString => true
  | String a s1 =>
      if between 0 127 a then is_utf8 s1
      else match s1 with
      | EmptyString => false
      | String b s2 =>
          if between 194 223 a then between 128 191 b && is_utf8 s2
          else match s2 with
          | EmptyString => false
          | String c s3 =>
              if between 224 239 a then
                between (if Text.code a =? 224 then 160 else 128) (if Text.code a =? 237 then 159 else 191) b
                && between 128 191 c && is_utf8 s3
              else match s3 with
              | EmptyString => false
              | String d s4 =>
                  between 240 244 a
                  && between (if Text.code a =? 240 then 144 else 128) (if Text.code a =? 244 then 143 else 191) b
                  && between 128 191 c && between 128 191 d && is_utf8 s4
              end
          end
      end
  end.

Inductive Response := Metrics (head : bool) | Landing (head : bool) | NotFound | Close.
#[export] Instance Response_eq_dec : EqDecision Response.
Proof. solve_decision. Defined.

Definition LANDING_BODY : string :=
  ("<html><body><a href=" ++ quoted "/metrics" ++ ">/metrics</a></body></html>" ++ lf)%string.
Definition NOT_FOUND_BODY : string := ("not found" ++ lf)%string.

Definition route_of (head : bool) (target : string) : Response :=
  if String.eqb target "/metrics" then Metrics head
  else if String.eqb target "/" then Landing head
  else NotFound.
Definition classify_line (line : string) : Response :=
  if negb (is_utf8 line) then Close
  else match split " "%char line with
       | [method; target; version] =>
           if negb (starts_with "HTTP/1." version) then Close
           else if String.eqb method "GET" then route_of false target
           else if String.eqb method "HEAD" then route_of true target
           else NotFound
       | _ => Close
       end.
(** One request, by the first line of its first 1024 bytes. *)
Definition respond (request : string) : Response :=
  match split_once char_lf (String.substring 0 MAX_REQUEST request) with
  | None => Close
  | Some (line, _) => classify_line (strip_cr line)
  end.

Definition framed (status content_type body : string) (head : bool) : string :=
  ("HTTP/1.1 " ++ status ++ crlf ++ "Content-Type: " ++ content_type ++ crlf
     ++ "Content-Length: " ++ show (str_len body) ++ crlf ++ "Connection: close" ++ crlf ++ crlf
     ++ (if head then EmptyString else body))%string.
Definition write_response (r : Response) (body : string) : string :=
  match r with
  | Metrics head => framed "200 OK" "application/openmetrics-text; version=1.0.0; charset=utf-8" body head
  | Landing head => framed "200 OK" "text/html; charset=utf-8" LANDING_BODY head
  | NotFound => framed "404 Not Found" "text/plain; charset=utf-8" NOT_FOUND_BODY false
  | Close => EmptyString
  end.

(** The reads of one connection: what each of them brought, in order; none left, or an empty one, is
    the end of the stream, an error or the deadline. A read brings no more than the buffer has room
    for. *)
Definition has_line (buf : string) : bool := is_some_and (split_once char_lf buf) (λ _, true).
Fixpoint read_request (buf : string) (reads : list string) : Response :=
  if bool_decide (String.length buf = MAX_REQUEST) then Close
  else match reads with
       | [] => Close
       | chunk :: reads =>
           if String.eqb chunk EmptyString then Close
           else let buf := (buf ++ chunk)%string in
                if has_line buf then respond buf else read_request buf reads
       end.
(** What is written back: the snapshot published last, for a scrape. *)
Definition converse (latest : string) (reads : list string) : string :=
  let r := read_request EmptyString reads in
  write_response r (match r with Metrics _ => latest | _ => EmptyString end).

(** ** Escaping *)

(** A quoted label value, read up to its closing quote as the text format says. *)
Fixpoint read_label (s : string) : option (string * string) :=
  match s with
  | EmptyString => None
  | String c s1 =>
      if Ascii.eqb c char_quote then Some (EmptyString, s1)
      else if Ascii.eqb c char_lf then None
      else if Ascii.eqb c char_backslash then
        match s1 with
        | EmptyString => None
        | String d s2 =>
            e ← (if Ascii.eqb d char_backslash then Some char_backslash
                 else if Ascii.eqb d char_quote then Some char_quote
                 else if Ascii.eqb d "n"%char then Some char_lf else None);
            r ← read_label s2; Some (String e r.1, r.2)
        end
      else r ← read_label s1; Some (String c r.1, r.2)
  end.

Lemma label_read v rest : read_label (escape v ++ String char_quote rest)%string = Some (v, rest).
Proof.
  induction v as [|c v IH]; [done|]. cbn [escape].
  destruct (Ascii.eqb_spec c char_backslash) as [->|Hb]; [by rewrite !str_app_cons; cbn [read_label]; rewrite IH|].
  destruct (Ascii.eqb_spec c char_quote) as [->|Hq]; [by rewrite !str_app_cons; cbn [read_label]; rewrite IH|].
  destruct (Ascii.eqb_spec c char_lf) as [->|Hl]; [by rewrite !str_app_cons; cbn [read_label]; rewrite IH|].
  rewrite str_app_cons. cbn [read_label].
  rewrite (proj2 (Ascii.eqb_neq c char_quote)), (proj2 (Ascii.eqb_neq c char_lf)),
    (proj2 (Ascii.eqb_neq c char_backslash)) by done. by rewrite IH.
Qed.
Lemma escape_inj v w : escape v = escape w → v = w.
Proof. intros E. pose proof (label_read v EmptyString) as H. rewrite E, label_read in H. congruence. Qed.

(** C: a label value can always be read back. Whatever text a value holds, quotes, backslashes and
    newlines included, reading the escaped text up to the first quote that ends it gives the value
    and what follows it, and no line breaks inside it. *)
Theorem label_roundtrip v rest :
  read_label (escape v ++ String char_quote rest)%string = Some (v, rest)
  ∧ free_of char_lf (escape v) = true.
Proof.
  split; [apply label_read|]. unfold free_of. induction v as [|c v IH]; [done|]. cbn [escape].
  destruct (Ascii.eqb c char_backslash); [done|]. destruct (Ascii.eqb c char_quote); [done|].
  destruct (Ascii.eqb c char_lf) eqn:E; [done|]. cbn -[Ascii.eqb]. by rewrite E.
Qed.

(** ** The endpoint's reads *)

Lemma substring_all n s : (String.length s ≤ n)%nat → String.substring 0 n s = s.
Proof.
  revert n. induction s as [|c s IH]; intros [|n] H; cbn in *; try done; [lia|]. f_equal. apply IH. lia.
Qed.
Lemma split_once_app d s t l r : split_once d s = Some (l, r) → split_once d (s ++ t) = Some (l, (r ++ t)%string).
Proof.
  revert l r. induction s as [|c s IH]; intros l r; [done|]. rewrite str_app_cons. cbn [split_once].
  destruct (Ascii.eqb c d); [by intros [= <- <-]|].
  destruct (split_once d s) as [[l' r']|]; [|done]. intros [= <- <-]. by rewrite (IH l' r').
Qed.

Lemma respond_early buf more :
  (String.length (buf ++ more) ≤ MAX_REQUEST)%nat → has_line buf = true → respond (buf ++ more) = respond buf.
Proof.
  intros Hl. unfold has_line, respond. pose proof Hl as Hl'. rewrite str_length_app in Hl'.
  rewrite !substring_all by lia. destruct (split_once char_lf buf) as [[l r]|] eqn:E; [|done].
  intros _. by rewrite (split_once_app _ _ _ _ _ E).
Qed.

Definition joined (reads : list string) : string := foldr String.append EmptyString reads.

(** C: how a request is cut into reads does not matter. As long as no read is empty and together they
    fit the buffer, the connection answers what the whole of what was sent would be answered, Close
    when no line of it ends. *)
Theorem reads_are_joined buf reads
    (Hfits : (String.length (buf ++ joined reads) ≤ MAX_REQUEST)%nat)
    (Hreads : EmptyString ∉ reads) (Hopen : has_line buf = false) :
  read_request buf reads = respond (buf ++ joined reads).
Proof.
  revert buf Hfits Hopen. induction reads as [|chunk reads IH]; intros buf Hfits Hopen; cbn [read_request joined foldr] in *.
  - rewrite str_app_nil_r in *. unfold respond, has_line in *. rewrite substring_all by done.
    destruct (split_once char_lf buf); [done|]. by case_bool_decide.
  - apply not_elem_of_cons in Hreads as [Hc Hreads]. fold (joined reads) in *.
    rewrite <-str_app_assoc in Hfits |- *.
    destruct (String.eqb_spec chunk EmptyString) as [->|_]; [done|].
    rewrite bool_decide_eq_false_2.
    2: { rewrite !str_length_app in Hfits. destruct chunk; [done|]. cbn in Hfits. unfold MAX_REQUEST in *. lia. }
    destruct (has_line (buf ++ chunk)) eqn:Hl; [symmetry; by apply respond_early|by apply IH].
Qed.

(** ** One value of each vocabulary *)

Definition hot (rows : list (Labels * Sample)) : list Labels :=
  fst <$> List.filter (λ r, match r.2 with Int 1 => true | _ => false end) rows.

Lemma hot_one {A} `{EqDecision A} (label : A → Labels) (actual : A) l :
  NoDup l → actual ∈ l →
  hot ((λ s, (label s, flag (bool_decide (s = actual)))) <$> l) = [label actual].
Proof.
  unfold hot. intros Hnd Hin. induction l as [|x l IH]; [by apply elem_of_nil in Hin|].
  apply list.NoDup_cons in Hnd as [Hx Hnd]. cbn [fmap list_fmap List.filter snd].
  case_bool_decide as E; cbn [flag].
  - subst x. cbn [fmap list_fmap]. f_equal. clear IH Hin Hnd.
    induction l as [|y l IH]; [done|]. apply not_elem_of_cons in Hx as [Hy Hx].
    cbn [fmap list_fmap List.filter snd]. rewrite bool_decide_eq_false_2 by done. by apply IH.
  - apply elem_of_cons in Hin as [->|Hin]; [done|]. by apply IH.
Qed.
Lemma hot_text (label : string → Labels) actual l :
  NoDup l → actual ∈ l → hot ((λ s, (label s, flag (String.eqb s actual))) <$> l) = [label actual].
Proof.
  intros Hnd Hin. rewrite <-(hot_one label actual l) by done. f_equal. apply list_fmap_ext. intros _ x _.
  f_equal. f_equal. destruct (String.eqb_spec x actual); symmetry; [by apply bool_decide_eq_true|by apply bool_decide_eq_false].
Qed.

Lemma one_of_spec known actual : NoDup known → NoDup (one_of known actual) ∧ actual ∈ one_of known actual.
Proof.
  intros H. unfold one_of. case_bool_decide as E; [by rewrite app_nil_r|]. split.
  - apply list.NoDup_app. split_and!; [done| |apply NoDup_singleton]. intros x Hx ->%list_elem_of_singleton. done.
  - apply elem_of_app. right; left.
Qed.

(** C: every enumeration says exactly one thing. Of the series of the member's verdict, of each
    workload's state, each child's state, each gateway session's state and the watchdog's last
    result, exactly one is 1, and it is the one that holds, also when the word is none of the list. *)
Theorem one_series_is_one snap :
  hot (state_rows snap) = [lbl [("state", word (st_state (sn_model snap)))]]%string
  ∧ (∀ w, hot (row_state w) = [lbl [("name", ws_name w); ("state", workload_state_word (ws_state w))]]%string)
  ∧ (∀ k, hot (child_states k) = [lbl [("component", k_name k); ("state", Child.as_str (k_state k))]]%string)
  ∧ (∀ i, hot (bgp_rows i)
          = [lbl [("zone", ig_zone i); ("neighbor", ig_router i); ("state", bgp_state_of i)]]%string)
  ∧ (∀ result, hot (result_rows result) = [lbl [("result", result)]]%string).
Proof.
  split_and!; intros; unfold state_rows, row_state, child_states, bgp_rows, result_rows.
  - apply (hot_one (λ s, lbl [("state", word s)]%string)); [apply (bool_decide_unpack _); by vm_compute|].
    destruct (st_state _); apply (bool_decide_unpack _); by vm_compute.
  - apply (hot_one (λ s, lbl [("name", ws_name w); ("state", workload_state_word s)]%string));
      [apply (bool_decide_unpack _); by vm_compute|].
    destruct (ws_state w); apply (bool_decide_unpack _); by vm_compute.
  - apply (hot_one (λ s, lbl [("component", k_name k); ("state", Child.as_str s)]%string));
      [apply (bool_decide_unpack _); by vm_compute|].
    destruct (k_state k); apply (bool_decide_unpack _); by vm_compute.
  - apply (hot_text (λ s, lbl [("zone", ig_zone i); ("neighbor", ig_router i); ("state", s)]%string));
      apply one_of_spec; apply (bool_decide_unpack _); by vm_compute.
  - apply (hot_text (λ s, lbl [("result", s)]%string)); apply one_of_spec; apply (bool_decide_unpack _); by vm_compute.
Qed.

(** ** No series twice *)

#[export] Instance escape_injective : Inj (=) (=) escape.
Proof. intros v w. apply escape_inj. Qed.

Definition labels (rows : list (Labels * Sample)) : list Labels := fst <$> rows.
Definition apart (fam : Family) : Prop := NoDup (labels (fm_rows fam)).

Lemma apart_family t name help rows : NoDup (labels rows) → Forall apart (family_of t name help rows).
Proof. intros H. destruct rows; [constructor|]. by apply Forall_singleton. Qed.
Lemma apart_counter name help rows : NoDup (fst <$> rows) → Forall apart (counter_family name help rows).
Proof.
  intros H. apply apart_family. unfold labels. rewrite <-list_fmap_compose. exact H.
Qed.
Lemma apart_scalar name help v : Forall apart (scalar name help v).
Proof. apply Forall_singleton. apply NoDup_singleton. Qed.
Lemma apart_scalar_counter name help v : Forall apart (scalar_counter name help v).
Proof. apply Forall_singleton. apply NoDup_singleton. Qed.

Lemma fmap_of_bind {A B C} (g : B → C) (f : A → list B) l : g <$> (l ≫= f) = l ≫= (λ x, g <$> f x).
Proof. induction l as [|x l IH]; [done|]. cbn. by rewrite fmap_app, <-IH. Qed.

Section rows.
Context {A K V : Type} (key : A → K).
Lemma NoDup_rows (f : A → option (Labels * V)) l :
  NoDup (key <$> l) →
  (∀ x y r r', f x = Some r → f y = Some r' → x ∈ l → y ∈ l → r.1 = r'.1 → key x = key y) →
  NoDup (fst <$> omap f l).
Proof using Type.
  induction l as [|x l IH]; intros Hnd Hf; [constructor|]. cbn [fmap list_fmap] in Hnd.
  apply list.NoDup_cons in Hnd as [Hx Hnd]. cbn [omap list_omap].
  assert (NoDup (fst <$> omap f l)) as H.
  { apply IH; [done|]. intros y z r r' Hy Hz Iy Iz. apply Hf; [done|done|by right|by right]. }
  destruct (f x) as [r|] eqn:E; [|done]. cbn [fmap list_fmap]. apply list.NoDup_cons. split; [|done].
  intros (r' & E1 & (y & Hy & Ey)%list_elem_of_omap)%list_elem_of_fmap. apply Hx.
  rewrite (Hf x y r r'); [by apply list_elem_of_fmap_2|done|done|left|by right|done].
Qed.
Lemma NoDup_rows_of (f : A → list (Labels * V)) l :
  NoDup (key <$> l) →
  (∀ x y r r', r ∈ f x → r' ∈ f y → x ∈ l → y ∈ l → r.1 = r'.1 → key x = key y) →
  (∀ x, x ∈ l → NoDup (fst <$> f x)) →
  NoDup (fst <$> (l ≫= f)).
Proof using Type.
  intros Hnd Hf Hin. rewrite fmap_of_bind. apply NoDup_bind; [|done|by apply NoDup_fmap_1 in Hnd].
  intros x y r Hx Hy (r1 & E1 & I1)%list_elem_of_fmap (r2 & E2 & I2)%list_elem_of_fmap.
  apply (NoDup_fmap_inj_on key l); try done. by apply (Hf x y r1 r2); [..|congruence].
Qed.
End rows.

(** What keeps the rows of a snapshot apart: one row per adjacency, leg, gateway, workload and child,
    and per wire of a leg. *)
Record distinct_rows (snap : Snapshot) : Prop := {
  dr_adjacencies : NoDup ((λ a, (a_zone a, a_seg a, a_peer_name a)) <$> st_adjacencies (sn_model snap));
  dr_segs : ∀ a s, a ∈ st_adjacencies (sn_model snap) → a_seg a = Some s → 0 ≤ s;
  dr_legs : NoDup ((λ l, (bl_zone l, bl_ifname l)) <$> legs_of snap);
  dr_ingress : NoDup (ig_zone <$> st_ingress (sn_model snap));
  dr_workloads : NoDup (ws_name <$> st_workloads (sn_model snap));
  dr_children : ∀ c, st_components (sn_model snap) = Some c → NoDup (k_name <$> cs_components c);
  dr_probed : NoDup ((λ l, (r_zone l, r_bond l)) <$> probed_legs snap);
  dr_fallback : NoDup (r_zone <$> rows_fallback (sn_probed snap));
  dr_leaving : NoDup (r_zone <$> rows_ingress (sn_probed snap));
  dr_ports : ∀ l, l ∈ probed_legs snap → NoDup (r_wire <$> r_ports l)
}.

(** Two rows with one label set: what their labels say is the same. *)
Ltac same_labels :=
  repeat match goal with
  | H : mbind _ _ = Some _ |- _ => apply bind_Some in H as (? & ? & ?)
  | H : Some _ = Some _ |- _ => injection H as <-
  | H : match ?x with _ => _ end = Some _ |- _ => destruct x eqn:?; try discriminate H
  | H : _ ∈ fmap _ _ |- _ => apply list_elem_of_fmap in H as (? & -> & ?)
  end;
  cbn [fst snd] in *; unfold lbl in *; cbn [fmap list_fmap fst snd] in *; simplify_eq; try congruence.

Section apart.
Context (snap : Snapshot) (H : distinct_rows snap).

Lemma apart_identity : Forall apart (identity snap).
Proof using Type. unfold identity. apply Forall_app; split; apply apart_family, NoDup_singleton. Qed.

Lemma apart_headline : Forall apart (headline_families snap).
Proof using Type.
  apply Forall_app; split.
  - apply apart_family. unfold labels, state_rows. rewrite <-list_fmap_compose.
    apply (bool_decide_unpack _). by vm_compute.
  - destruct (st_headline _); [|constructor]. unfold counts.
    repeat (apply Forall_app; split); apply apart_scalar.
Qed.

Lemma apart_adjacencies : Forall apart (adjacencies snap).
Proof using H.
  apply Forall_app; split; apply apart_family.
  - apply (NoDup_rows (λ a, (a_zone a, a_seg a, a_peer_name a))); [apply H|].
    intros a b r r' Ea Eb Ha Hb E. unfold bfd_row in *. same_labels.
    match goal with E : show ?x = show ?y |- _ => assert (x = y) end; [|congruence].
    apply show_inj; [eapply (dr_segs _ H); [|eassumption]; assumption..|done].
  - apply (NoDup_rows (λ a, (a_zone a, a_seg a, a_peer_name a))); [apply H|].
    intros a b r r' Ea Eb Ha Hb E. unfold fallback_row in *. same_labels.
Qed.

Lemma apart_wires : NoDup (labels (wire_rows snap)).
Proof using Type.
  unfold wire_rows, labels. rewrite <-list_fmap_compose.
  apply (NoDup_fmap_2_strong _). { intros [w p] [w' p'] H1 H2 E. same_labels. f_equal.
    apply elem_of_btree_iter in H1, H2. congruence. }
  apply (NoDup_fmap_1 fst), btree_keys_NoDup.
Qed.
Lemma apart_legs : Forall apart (legs_state snap).
Proof using H.
  repeat (apply Forall_app; split); apply apart_family; [| |apply apart_wires];
    (apply (NoDup_rows (λ l, (bl_zone l, bl_ifname l))); [apply H|]);
    intros a b r r' Ea Eb Ha Hb E; unfold home_row, carrier_row, leg_labels in *; same_labels.
Qed.

Lemma active_apart leg : NoDup (r_wire <$> r_ports leg) → NoDup (labels (active_rows snap leg)).
Proof using Type.
  intros Hp. unfold active_rows. destruct (active_wire_of _ _); [|constructor]. unfold labels.
  rewrite <-list_fmap_compose. apply NoDup_fmap_2_strong; [|by apply NoDup_fmap_1 in Hp].
  intros a b Ha Hb E. cbn in E. same_labels. by apply (NoDup_fmap_inj_on r_wire (r_ports leg)).
Qed.
Lemma apart_probed rows name help :
  NoDup (r_zone <$> rows) → (∀ l, l ∈ rows → l ∈ probed_legs snap) → Forall apart (probed snap rows name help).
Proof using H.
  intros Hz Hin. apply apart_family, (NoDup_rows_of r_zone); [done| |].
  - intros a b r r' Ha Hb _ _ E. unfold active_rows in *. destruct (active_wire_of _ (r_bond a)), (active_wire_of _ (r_bond b));
      try (by apply elem_of_nil in Ha); try (by apply elem_of_nil in Hb). same_labels.
  - intros l Hl. apply active_apart, H, Hin, Hl.
Qed.

Lemma apart_port_rows name help v : Forall apart (family name help (port_rows snap v)).
Proof using H.
  apply apart_family, (NoDup_rows_of (λ l, (r_zone l, r_bond l))); [apply H| |].
  - intros a b r r' (p & _ & Ep)%list_elem_of_omap (p' & _ & Ep')%list_elem_of_omap _ _ E.
    unfold port_labels in *. same_labels.
  - intros l Hl. apply (NoDup_rows r_wire); [by apply H|]. intros a b r r' Ea Eb Ha Hb E.
    unfold port_labels in *. same_labels.
Qed.
Lemma apart_probe_ports : Forall apart (probe_ports snap).
Proof using H.
  repeat (apply Forall_app; split); try apply apart_port_rows.
  apply apart_counter. rewrite <-list_fmap_compose. apply NoDup_fmap_2_strong.
  - intros a b Ha Hb E. cbn in E. same_labels.
    apply (NoDup_fmap_inj_on (λ l, (r_zone l, r_bond l)) (probed_legs snap)); [apply H|done..|congruence].
  - eapply NoDup_fmap_1, (dr_probed _ H).
Qed.

Lemma once_each_texts seen l :
  NoDup (cond_text <$> once_each_from seen l) ∧ ∀ c, c ∈ once_each_from seen l → cond_text c ∉ seen.
Proof using Type.
  revert seen. induction l as [|c l IH]; intros seen; cbn [once_each_from].
  { split; [constructor|]. by intros c ?%elem_of_nil. }
  case_bool_decide as E; [apply IH|]. destruct (IH (seen ++ [cond_text c])) as [Hn Hs]. split.
  - cbn [fmap list_fmap]. apply list.NoDup_cons. split; [|done].
    intros (c' & E' & Hc')%list_elem_of_fmap. apply (Hs c' Hc'). rewrite <-E'. apply elem_of_app. right; left.
  - intros c' [->|Hc']%elem_of_cons; [done|]. intros Hin. apply (Hs c' Hc'). apply elem_of_app. by left.
Qed.
Lemma apart_conditions : Forall apart (conditions snap).
Proof using Type.
  apply Forall_app; split; apply apart_family; unfold labels; rewrite <-list_fmap_compose.
  - apply (bool_decide_unpack _). by vm_compute.
  - destruct (once_each_texts [] (st_conditions (sn_model snap))) as [Hn _]. apply NoDup_fmap_2_strong.
    + intros a b Ha Hb E. cbn in E. same_labels. by apply (NoDup_fmap_inj_on _ _ _ _ Hn).
    + by eapply NoDup_fmap_1.
Qed.

Lemma words_apart known actual (label : string → Labels) v :
  NoDup known → (∀ s t, label s = label t → s = t) →
  NoDup (labels ((λ s, (label s, v s)) <$> one_of known actual)).
Proof using Type.
  intros Hk Hl. unfold labels. rewrite <-list_fmap_compose. apply NoDup_fmap_2_strong; [|by apply one_of_spec].
  intros s t _ _ E. by apply Hl.
Qed.
Lemma apart_ingress : Forall apart (ingress snap).
Proof using H.
  repeat (apply Forall_app; split); apply apart_family.
  - apply (NoDup_rows ig_zone); [apply H|]. intros a b r r' Ea Eb Ha Hb E. unfold reach_row in *.
    apply bind_Some in Ea as (x & _ & Ea), Eb as (y & _ & Eb).
    destruct (bl_reach x), (bl_reach y); simplify_eq; same_labels.
  - apply (NoDup_rows_of ig_zone); [apply H| |].
    + intros a b r r' Ha Hb _ _ E. unfold bgp_rows in *. same_labels.
    + intros i _. apply (words_apart BGP_STATES _ (λ s, lbl [("zone", ig_zone i); ("neighbor", ig_router i); ("state", s)])%string).
      { apply (bool_decide_unpack _). by vm_compute. } intros s t E. same_labels.
  - apply (NoDup_rows ig_zone); [apply H|]. intros a b r r' Ea Eb Ha Hb E. unfold pfx_row in *. same_labels.
Qed.

Lemma apart_host_default : Forall apart (host_default snap).
Proof using Type. unfold host_default. destruct (_ ≫= _); [apply apart_scalar|constructor]. Qed.

(** *** Rows of workloads *)

Lemma apart_named name help {A} (f : WorkloadStatus → option A) g :
  Forall apart (counter_family name help (named_count snap f g)).
Proof using H.
  apply apart_counter, (NoDup_rows ws_name); [apply H|]. intros a b r r' Ea Eb Ha Hb E. unfold named in *. same_labels.
Qed.
Lemma apart_rows {V} (f : WorkloadStatus → list (Labels * V)) :
  (∀ a b r r', r ∈ f a → r' ∈ f b → r.1 = r'.1 → ws_name a = ws_name b) →
  (∀ w, NoDup (fst <$> f w)) → NoDup (fst <$> (w ← st_workloads (sn_model snap); f w)).
Proof using H.
  intros Hf Hin. apply (NoDup_rows_of ws_name); [apply H| |by intros].
  intros a b r r' Ha Hb _ _. by apply Hf.
Qed.
Lemma apart_one {V} (f : WorkloadStatus → option (Labels * V)) :
  (∀ a b r r', f a = Some r → f b = Some r' → r.1 = r'.1 → ws_name a = ws_name b) →
  NoDup (fst <$> omap f (st_workloads (sn_model snap))).
Proof using H.
  intros Hf. apply (NoDup_rows ws_name); [apply H|]. intros a b r r' Ea Eb _ _. by apply Hf.
Qed.

Lemma two_apart (x y l name : string) (v w : Z) :
  x ≠ y →
  NoDup (fst <$> [(lbl [("name"%string, name); (l, x)], v); (lbl [("name"%string, name); (l, y)], w)]).
Proof using Type.
  intros Hxy. cbn. apply list.NoDup_cons. split; [|apply NoDup_singleton].
  intros E%list_elem_of_singleton. unfold lbl in E. cbn in E. simplify_eq.
Qed.

Lemma apart_state_rows : NoDup (labels (w ← st_workloads (sn_model snap); row_state w)).
Proof using H.
  apply apart_rows.
  - intros a b r r' Ha Hb E. unfold row_state in *. same_labels.
  - intros w. unfold row_state. rewrite <-list_fmap_compose. apply NoDup_fmap_2_strong.
    + intros s t _ _ E. cbn in E. destruct s, t; same_labels.
    + apply (bool_decide_unpack _). by vm_compute.
Qed.
Lemma apart_guard_rows : NoDup (fst <$> (w ← st_workloads (sn_model snap); guard_rows w)).
Proof using H.
  apply apart_rows.
  - intros a b r r' Ha Hb E. unfold guard_rows in *.
    destruct (ws_guard_drops a), (ws_guard_drops b); try (by apply elem_of_nil in Ha); try (by apply elem_of_nil in Hb).
    set_unfold in Ha. set_unfold in Hb. destruct_or!; subst; same_labels.
  - intros w. unfold guard_rows. destruct (ws_guard_drops w); [by apply two_apart|constructor].
Qed.
Lemma apart_relayed_rows : NoDup (fst <$> (w ← st_workloads (sn_model snap); relayed_rows snap w)).
Proof using H.
  apply apart_rows.
  - intros a b r r' Ha Hb E. unfold relayed_rows in *.
    destruct (relay_of snap a), (relay_of snap b); try (by apply elem_of_nil in Ha); try (by apply elem_of_nil in Hb).
    set_unfold in Ha. set_unfold in Hb. destruct_or!; subst; same_labels.
  - intros w. unfold relayed_rows. destruct (relay_of snap w); [by apply two_apart|constructor].
Qed.
Lemma apart_workloads : Forall apart (workloads snap).
Proof using H.
  unfold workloads, workload_rows_families, announcer_families, relay_families.
  repeat (apply Forall_app; split); try apply apart_named;
    try (apply apart_counter; first [apply apart_guard_rows|apply apart_relayed_rows|idtac]);
    try (apply apart_family; first [apply apart_state_rows|idtac]).
  - unfold labels. rewrite <-list_fmap_compose. apply NoDup_fmap_2_strong; [|eapply NoDup_fmap_1, (dr_workloads _ H)].
    intros a b Ha Hb E. unfold named in E. cbn in E. same_labels.
    by apply (NoDup_fmap_inj_on ws_name _ _ _ (dr_workloads _ H)).
  - apply apart_one. intros a b r r' Ea Eb E. unfold named in *. same_labels.
  - apply apart_one. intros a b r r' Ea Eb E. unfold discovered_row in *. same_labels.
Qed.

Lemma apart_neighbors : Forall apart (neighbor_pipeline snap).
Proof using H.
  unfold neighbor_pipeline, neighbor_rows_families. repeat (apply Forall_app; split); try apply apart_named.
  - apply apart_family, apart_one. intros a b r r' Ea Eb E. unfold named in *. same_labels.
  - destruct (_ ≫= _); [|constructor]. unfold neighbor_actor_families.
    repeat (apply Forall_app; split); try apply apart_scalar. destruct (ai_oldest_dirty_age _); [apply apart_scalar|constructor].
Qed.

(** *** Rows of children *)

Lemma apart_child_rows c (f : Component → option (Labels * Sample)) :
  st_components (sn_model snap) = Some c →
  (∀ a b r r', f a = Some r → f b = Some r' → r.1 = r'.1 → k_name a = k_name b) →
  NoDup (labels (omap f (cs_components c))).
Proof using H.
  intros Hc Hf. apply (NoDup_rows k_name); [by apply H|]. intros a b r r' Ea Eb _ _. by apply Hf.
Qed.
Lemma apart_child c {V} (g : Component → V) :
  st_components (sn_model snap) = Some c →
  NoDup (fst <$> ((λ k, (child_label k, g k)) <$> cs_components c)).
Proof using H.
  intros Hc. rewrite <-list_fmap_compose. apply NoDup_fmap_2_strong; [|by eapply NoDup_fmap_1, (dr_children _ H)].
  intros a b Ha Hb E. unfold child_label in E. cbn in E. same_labels.
  by apply (NoDup_fmap_inj_on k_name _ _ _ (dr_children _ H _ Hc)).
Qed.
Lemma apart_children c : st_components (sn_model snap) = Some c → Forall apart (children c).
Proof using H.
  intros Hc. unfold children. repeat (apply Forall_app; split).
  - apply apart_family, (NoDup_rows_of k_name); [by apply H| |].
    + intros a b r r' Ha Hb _ _ E. unfold child_states in *. same_labels.
    + intros k _. unfold child_states. rewrite <-list_fmap_compose. apply NoDup_fmap_2_strong.
      * intros s t _ _ E. cbn in E. destruct s, t; same_labels.
      * apply (bool_decide_unpack _). by vm_compute.
  - by apply apart_family, apart_child.
  - by apply apart_counter, apart_child.
  - apply apart_family, apart_child_rows; [done|]. intros a b r r' Ea Eb E. unfold uptime_row, child_label in *. same_labels.
  - apply apart_family, apart_child_rows; [done|]. intros a b r r' Ea Eb E. unfold last_exit_row in *. same_labels.
Qed.
Lemma apart_components : Forall apart (components snap).
Proof using H.
  unfold components. destruct (st_components _) as [c|] eqn:Hc; [|constructor].
  apply Forall_app; split; [by apply apart_children|].
  apply Forall_app; split; [|repeat (apply Forall_app; split); first [apply apart_scalar|apply apart_scalar_counter]].
  apply Forall_app; split.
  - destruct (wi_last_tick_s_ago _); [apply apart_scalar|constructor].
  - apply apart_family. unfold result_rows. apply (words_apart WATCHDOG_RESULTS _ (λ s, lbl [("result", s)])%string).
    { apply (bool_decide_unpack _). by vm_compute. } intros s t E. same_labels.
Qed.
End apart.

(** *** No family twice *)

Definition NAMES : list string :=
  ["cfab_build_info"; "cfab_member_info"; "cfab_fabric_state"; "cfab_peers_up"; "cfab_peers_expected";
   "cfab_links_up"; "cfab_links_expected"; "cfab_fallbacks_up"; "cfab_fallbacks_expected";
   "cfab_bfd_session_up"; "cfab_fallback_neighbor_up"; "cfab_fallback_bond_active_home";
   "cfab_bond_home_carrier"; "cfab_wire_present"; "cfab_fallback_active"; "cfab_ingress_active";
   "cfab_probe_port_usable"; "cfab_probe_port_suspect"; "cfab_probe_port_last_reply_seconds";
   "cfab_probe_moves"; "cfab_conditions"; "cfab_condition_info"; "cfab_ingress_reachable";
   "cfab_bgp_neighbor_state"; "cfab_bgp_neighbor_prefixes_sent"; "cfab_host_default_path";
   "cfab_workload_up"; "cfab_workload_state"; "cfab_workload_vms_seen"; "cfab_workload_guard_drops";
   "cfab_workload_stray_forwards"; "cfab_workload_rx_bytes"; "cfab_workload_tx_bytes";
   "cfab_workload_announces"; "cfab_workload_bursts"; "cfab_workload_dhcp_relayed";
   "cfab_workload_vms_discovered"; "cfab_workload_dhcp_relay_drops"; "cfab_workload_neighbor_table_size";
   "cfab_workload_neighbor_writes"; "cfab_workload_neighbor_write_failures";
   "cfab_workload_neighbor_read_failures"; "cfab_workload_neighbor_cap_refusals";
   "cfab_workload_neighbor_expiries"; "cfab_workload_neighbor_skips"; "cfab_neighbor_dirty_depth";
   "cfab_neighbor_token_level"; "cfab_neighbor_oldest_dirty_age_seconds"; "cfab_component_state";
   "cfab_component_expected"; "cfab_component_restarts"; "cfab_component_uptime_seconds";
   "cfab_component_last_exit_age_seconds"; "cfab_watchdog_last_tick_age_seconds"; "cfab_watchdog_result";
   "cfab_supervisor_uptime_seconds"; "cfab_supervisor_applies"; "cfab_supervisor_applying";
   "cfab_supervisor_last_apply_failed"; "cfab_telemetry_last_refresh_seconds";
   "cfab_telemetry_collect_seconds"; "cfab_telemetry_collect_failures"]%string.

Definition names (l : list Family) : list string := fm_name <$> l.
Lemma names_family t name help rows : names (family_of t name help rows) `sublist_of` [name].
Proof. destruct rows; [apply sublist_nil_l|done]. Qed.
Lemma names_counter name help rows : names (counter_family name help rows) `sublist_of` [name].
Proof. apply names_family. Qed.
Lemma names_app l1 l2 k1 k2 :
  names l1 `sublist_of` k1 → names l2 `sublist_of` k2 → names (l1 ++ l2) `sublist_of` k1 ++ k2.
Proof. unfold names. rewrite fmap_app. apply sublist_app. Qed.
Lemma names_option {A} (o : option A) (f : A → list Family) k :
  (∀ a, names (f a) `sublist_of` k) →
  names (match o with Some a => f a | None => [] end) `sublist_of` k.
Proof. intros H. destruct o; [apply H|apply sublist_nil_l]. Qed.
Lemma names_scalar name help v : names (scalar name help v) `sublist_of` [name].
Proof. done. Qed.
Lemma names_scalar_counter name help v : names (scalar_counter name help v) `sublist_of` [name].
Proof. done. Qed.

Ltac in_order :=
  lazymatch goal with
  | |- names (_ ++ _) `sublist_of` _ => eapply names_app; in_order
  | |- names (family_of _ _ _ _) `sublist_of` _ => eapply names_family
  | |- names (family _ _ _) `sublist_of` _ => eapply names_family
  | |- names (counter_family _ _ _) `sublist_of` _ => eapply names_counter
  | |- names (scalar _ _ _) `sublist_of` _ => eapply names_scalar
  | |- names (scalar_counter _ _ _) `sublist_of` _ => eapply names_scalar_counter
  | |- names (match _ with Some _ => _ | None => _ end) `sublist_of` _ => eapply names_option; intros; in_order
  | |- names ?l `sublist_of` _ => let h := head_of l in unfold h; in_order
  end
with head_of l := lazymatch l with ?f _ => head_of f | ?f => f end.

Lemma names_in_order snap : names (encode snap) `sublist_of` NAMES.
Proof.
  assert (∃ k, names (encode snap) `sublist_of` k ∧ k = NAMES) as (k & Hk & ->); [|done].
  eexists. split; [in_order|]. reflexivity.
Qed.

(** C32. C: a scrape can always be read. No family is written twice, whatever the snapshot; and on a
    snapshot with one row per adjacency, leg, gateway, workload and child and per wire of a leg, no
    two series of a family carry one label set, escaped as they are. *)
Theorem scrape_has_no_duplicate snap :
  NoDup (fm_name <$> encode snap)
  ∧ (distinct_rows snap → Forall (λ fam, NoDup (fst <$> fm_rows fam)) (encode snap)).
Proof.
  split.
  - apply (sublist_NoDup _ NAMES); [|apply names_in_order]. apply (bool_decide_unpack _). by vm_compute.
  - intros Hrows. change (Forall apart (encode snap)). unfold encode.
    repeat (apply Forall_app_2;
      [first [apply apart_identity|apply apart_headline|apply apart_adjacencies; done|apply apart_legs; done
             |apply apart_probe_ports; done|apply apart_conditions|apply apart_ingress; done
             |apply apart_host_default|apply apart_workloads; done|apply apart_neighbors; done
             |apply apart_components; done|idtac]|]); try first [apply apart_scalar|apply apart_scalar_counter].
    + apply apart_probed; [done|apply Hrows|]. intros l Hl. apply elem_of_app. by left.
    + apply apart_probed; [done|apply Hrows|]. intros l Hl. apply elem_of_app. by right.
Qed.

(** A member with a peer on a segment and on the fallback, a leg, a workload and two children. *)
Module Sample.
Local Open Scope string_scope.
Definition adjacency (seg : option Z) (up : bool) : Adjacency :=
  {| a_zone := "storage"; a_seg := seg; a_peer_node := 2; a_peer_name := "h2"; a_peer_addr := None; a_up := up |}.
Definition leg : StatusModel.BondLeg :=
  {| bl_kind := Fallback; bl_zone := "storage"; bl_ifname := "st-any"; bl_home := "eth0"; bl_router := None;
     bl_reach := Home;
     bl_ports := [{| lp_ifname := "st-any-a"; lp_wire := "eth0"; lp_absent := false |};
                  {| lp_ifname := "st-any-b"; lp_wire := "eth1"; lp_absent := true |}];
     bl_bonding := Some {| b_mii_status := "up"; b_active_slave := "st-any-a"; b_home_carrier := NotRead;
                           b_slaves := Ok ["st-any-a"; "st-any-b"] |} |}.
Definition probed_leg : ProbedLeg :=
  {| r_zone := "storage"; r_bond := "st-any"; r_active := Some "st-any-a"; r_quiet := false;
     r_ports := [{| r_wire := "eth0"; r_island := "a"; r_reachable := true; r_suspect := false;
                    r_last_reply_ms := Some 250 |};
                 {| r_wire := "eth1"; r_island := "b"; r_reachable := false; r_suspect := false;
                    r_last_reply_ms := None |}];
     r_moves := 1 |}.
Definition vms : WorkloadStatus :=
  {| ws_name := "vms"; ws_uplink := "eth2"; ws_vid := 300; ws_leg := "cfab-work-vms";
     ws_address := "192.168.0.2/24"; ws_gw := "192.168.0.1/24"; ws_up := true; ws_state := WUp;
     ws_zones := ["storage"]; ws_uplink_ports := ["eth5"]; ws_trigger := None; ws_proxy_arp := Some true;
     ws_vms_seen := Some 3; ws_guard_drops := Some {| gd_claim := 1; gd_request := 2 |};
     ws_bytes := None; ws_stray_forwards := None; ws_relay := None |}.
Definition child (name : string) (s : Child.State) : Component :=
  {| k_name := name; k_state := s; k_pid := None; k_uptime_s := Some 7; k_restarts := 0;
     k_last_exit := None; k_why := None |}.
Definition supervisor : Components :=
  {| cs_supervisor := {| sv_pid := 1; sv_uptime_s := 9; sv_applying := false; sv_applies := 2;
                         sv_last_apply_error := None |};
     cs_components := [child "engine" Running; child "shape-daemon" Restarting];
     cs_watchdog := {| wi_last_tick_s_ago := Some 1; wi_result := "reborn"; wi_detail := None |};
     cs_ingress := []; cs_fallback := []; cs_workloads := []; cs_metrics_error := None; cs_relays := [];
     cs_neighbor_rows := []; cs_neighbor := None |}.
Definition text : string := "declaration says " ++ quoted "x" ++ lf ++ "twice".
Definition line (t : string) : Condition := {| cond_class := Standing; cond_text := t |}.
Definition snapshot : Snapshot :=
  {| sn_model := {| st_member := {| mi_name := "h1"; mi_kind := Decl.Host; mi_version := "1.0" |};
                    st_state := UpDegraded; st_headline := Some headline_default;
                    st_adjacencies := [adjacency (Some 1) true; adjacency None false];
                    st_fallbacks := [leg]; st_ingress := []; st_workloads := [vms];
                    st_conditions := [line text; line "mark drift"; line text];
                    st_components := Some supervisor; st_prefs := []; st_run_dir := RUN_DIR;
                    st_host_default := None |};
     sn_probed := {| rows_ingress := []; rows_fallback := [probed_leg] |};
     sn_collected_at_unix := 0; sn_collect_seconds := 0; sn_collect_failures := 0 |}.

Definition rows_of (name : string) : list (Labels * Sample) :=
  fam ← List.filter (λ f, String.eqb (fm_name f) name) (encode snapshot); fm_rows fam.
Example one_wire_active :
  rows_of "cfab_fallback_active"
  = [([("zone", "storage"); ("island", "a"); ("wire", "eth0")], Int 1);
     ([("zone", "storage"); ("island", "b"); ("wire", "eth1")], Int 0)].
Proof. by vm_compute. Qed.
Example text_once : length (rows_of "cfab_condition_info") = 2%nat.
Proof. by vm_compute. Qed.
(** A word the vocabulary does not know gets a series of its own. *)
Example unknown_word : length (rows_of "cfab_watchdog_result") = 6%nat.
Proof. by vm_compute. Qed.
Example no_ingress_family : "cfab_ingress_active" ∉ fm_name <$> encode snapshot.
Proof. apply (bool_decide_unpack _). by vm_compute. Qed.

Definition scrape : string := "GET /metrics HTTP/1.1" ++ crlf.
Example scraped : respond (scrape ++ "Host: h1" ++ crlf) = Metrics false.
Proof. by vm_compute. Qed.
Example headed : respond ("HEAD / HTTP/1.0" ++ lf) = Landing true.
Proof. by vm_compute. Qed.
Example posted : respond ("POST /metrics HTTP/1.1" ++ crlf) = NotFound.
Proof. by vm_compute. Qed.
Example unended : respond "GET /metrics HTTP/1.1" = Close.
Proof. by vm_compute. Qed.
Example answered :
  converse "up 1" ["GET /metr"; "ics HTTP/1.1" ++ crlf]
  = ("HTTP/1.1 200 OK" ++ crlf ++ "Content-Type: application/openmetrics-text; version=1.0.0; charset=utf-8"
       ++ crlf ++ "Content-Length: 4" ++ crlf ++ "Connection: close" ++ crlf ++ crlf ++ "up 1").
Proof. by vm_compute. Qed.
End Sample.

Lemma reads_witness :
  (String.length (EmptyString ++ joined ["GET /metr"; "ics HTTP/1.1" ++ crlf]) ≤ MAX_REQUEST)%nat%string
  ∧ EmptyString ∉ ["GET /metr"; "ics HTTP/1.1" ++ crlf]%string ∧ has_line EmptyString = false
  ∧ read_request EmptyString ["GET /metr"; "ics HTTP/1.1" ++ crlf]%string
    = respond (EmptyString ++ joined ["GET /metr"; "ics HTTP/1.1" ++ crlf])%string.
Proof.
  assert (String.length (EmptyString ++ joined ["GET /metr"; "ics HTTP/1.1" ++ crlf]) ≤ MAX_REQUEST)%nat%string as H1.
  { vm_compute. lia. }
  assert (EmptyString ∉ ["GET /metr"; "ics HTTP/1.1" ++ crlf]%string) as H2 by (apply (bool_decide_unpack _); by vm_compute).
  assert (has_line EmptyString = false) as H3 by done.
  split; [exact H1|]. split; [exact H2|]. split; [exact H3|].
  exact (reads_are_joined EmptyString _ H1 H2 H3).
Defined.

Lemma scrape_witness :
  distinct_rows Sample.snapshot
  ∧ NoDup (fm_name <$> encode Sample.snapshot)
  ∧ Forall (λ fam, NoDup (fst <$> fm_rows fam)) (encode Sample.snapshot).
Proof.
  assert (distinct_rows Sample.snapshot) as H.
  { split; try (apply (bool_decide_unpack _); by vm_compute).
    - intros a s Ha Hs. cbn in Ha. apply elem_of_cons in Ha as [E|Ha]; [subst a; injection Hs as <-; lia|].
      apply list_elem_of_singleton in Ha. subst a. discriminate Hs.
    - intros c [= <-]. apply (bool_decide_unpack _). by vm_compute.
    - intros l Hl. cbn in Hl. apply list_elem_of_singleton in Hl. subst l. apply (bool_decide_unpack _). by vm_compute. }
  destruct (scrape_has_no_duplicate Sample.snapshot) as [H1 H2]. split; [exact H|]. split; [exact H1|]. exact (H2 H).
Defined.
