(* ===== verification/Announcers.v ===== *)
(** The announcers a member runs (src/src/supervisor/workload.rs) and what wakes them
    (src/src/workload/neigh.rs, workload/mod.rs): the neighbour subscription, the FDB poll it falls
    back to, and the rows, one [Announce.Announcer] each.

    An operation takes the rows and a [Log] of what was said and done in it so far, and what the host
    answers is [io], a function of the effects performed so far in the operation. Decoding a netlink
    message is the netlink crate's, a parameter. *)
From Stdlib Require Import Ascii String.
From S2P Require Import Prelude Text Sys Net Fabric Derive StatusModel Announce EngineState Uplink HostRoutes.
Local Open Scope Z_scope.

(** ** What woke an announcer *)

Inductive Trigger := NeighEvents | FdbPoll (reason : string).
Definition show_trigger (t : Trigger) : string :=
  match t with NeighEvents => "neigh events" | FdbPoll reason => "fdb poll (" ++ reason ++ ")" end.
#[export] Instance Trigger_eq_dec : EqDecision Trigger.
Proof. solve_decision. Defined.

(** ** The neighbour watch *)

Record NeighEvent := { ne_ifindex : Z; ne_mac : Mac; ne_permanent : bool }.
Inductive NeighSignal := Add (ev : NeighEvent) | Overflow.

(** What the netlink crate makes of a neighbour message. *)
Inductive NeighbourAttribute := LinkLayerAddress (v : list Z) | OtherAttribute.
Record NeighbourMessage := {
  nm_bridge : bool; nm_ifindex : Z; nm_permanent : bool; nm_attributes : list NeighbourAttribute
}.
Definition six (a : NeighbourAttribute) : option Mac :=
  match a with
  | LinkLayerAddress v => if (length v =? 6)%nat then Some v else None
  | OtherAttribute => None
  end.
Definition bridge_event (n : NeighbourMessage) : option NeighEvent :=
  if negb (nm_bridge n) then None
  else mac ← head (omap six (nm_attributes n));
       Some {| ne_ifindex := nm_ifindex n; ne_mac := mac; ne_permanent := nm_permanent n |}.

Definition NETLINK_HEADER_LEN : Z := 16.

Section netlink.
(** [NetlinkMessage::deserialize]: the header's length, and the message when it is an
    [RTM_NEWNEIGH]. *)
Context (deserialize : list Z → option (Z * option NeighbourMessage)).

(** [off] is the bytes already dropped; [(len + 3) & !3] is the aligned length. *)
Fixpoint decode_from (fuel : nat) (buf : list Z) : list NeighEvent :=
  match fuel, buf with
  | S fuel, _ :: _ =>
      match deserialize buf with
      | None => []
      | Some (len, payload) =>
          if len <? NETLINK_HEADER_LEN then []
          else (match payload ≫= bridge_event with Some ev => [ev] | None => [] end)
                 ++ decode_from fuel (drop (Z.to_nat (Z.land (len + 3) (Z.lnot 3))) buf)
      end
  | _, _ => []
  end.
Definition decode (buf : list Z) : list NeighEvent := decode_from (length buf) buf.

(** What one [recv] of the socket answers, and, for an overflow, what opening a fresh one does. *)
Inductive Recv := Datagram (buf : list Z) | WouldBlock | Enobufs (reopened : result string unit)
                | RecvFailed (why : string).
(** How a drain ends: everything that was pending, the gap of an overflow, or a dead socket. *)
Inductive Drained := Events (l : list NeighEvent) | Gap | Dead (why : string).
(** Past the answers given nothing is pending. *)
Fixpoint drain (reads : list Recv) (out : list NeighEvent) : Drained :=
  match reads with
  | [] | WouldBlock :: _ => Events out
  | Datagram buf :: reads => drain reads (out ++ decode buf)
  | Enobufs (Ok _) :: _ => Gap
  | Enobufs (Err why) :: _ | RecvFailed why :: _ => Dead why
  end.

(** One turn of the watch task; [Cmd::Neigh] and [Cmd::NeighWatchDied] are what it posts. *)
Inductive WatchTurn := NotPollable | ReadinessLost | Readable (reads : list Recv).
Inductive Posted := Neigh (sig : NeighSignal) | NeighWatchDied (why : string).
Fixpoint watch (turns : list WatchTurn) : list Posted :=
  match turns with
  | [] => []
  | NotPollable :: _ => [NeighWatchDied "the socket cannot be polled"]
  | ReadinessLost :: _ => [NeighWatchDied "readiness lost"]
  | Readable reads :: turns =>
      match drain reads [] with
      | Events l => ((λ ev, Neigh (Add ev)) <$> l) ++ watch turns
      | Gap => Neigh Overflow :: watch turns
      | Dead why => [NeighWatchDied why]
      end
  end.
End netlink.

(** ** The fallback *)

Definition fdb_poll (bridge : string) : list string := ["bridge"; "fdb"; "show"; "br"; bridge].
(** The port and the MAC of one line, unless it is permanent or on an uplink. *)
Definition polled (uplinks : list string) (line : string) : option (string * string) :=
  if has_substring " permanent" line then None
  else match split_whitespace line with
       | mac :: dev :: port :: _ =>
           if negb (String.eqb dev "dev") then None
           else if any (λ p, String.eqb p port) uplinks then None
           else Some (port, mac)
       | _ => None
       end.
(** Whether something is there that was not at the last poll, and what this one saw. *)
Definition fdb_poll_changed (answer : result Error Output) (up : Uplink) (seen : gset (string * string))
    : bool * gset (string * string) :=
  match answer with
  | Err _ => (false, seen)
  | Ok out =>
      if negb (output_ok out) then (false, seen)
      else let current := list_to_set (omap (polled (up_ports up)) (lines (stdout out))) in
           (negb (bool_decide (current ⊆ seen)), current)
  end.

(** ** The rows *)

Inductive Cond := CSend | CMac | CScan.
#[export] Instance Cond_eq_dec : EqDecision Cond.
Proof. solve_decision. Defined.
#[export] Instance Cond_countable : Countable Cond.
Proof.
  refine (inj_countable'
    (λ c, match c with CSend => 0%nat | CMac => 1%nat | CScan => 2%nat end)
    (λ n, match n with O => CSend | 1%nat => CMac | _ => CScan end) _).
  by intros [].
Defined.
Definition cond_str (c : Cond) : string :=
  match c with CSend => "announce" | CMac => "MAC read" | CScan => "bridge port scan" end.

Record Row := mk_row {
  w_name : string;
  announcer : Announcer;
  w_up : Uplink;
  mac : Mac;
  seen : gset (string * string);
  standing : gmap Cond string
}.
Definition with_announcer (r : Row) (a : Announcer) : Row :=
  mk_row (w_name r) a (w_up r) (mac r) (seen r) (standing r).
Definition with_up (r : Row) (up : Uplink) : Row :=
  mk_row (w_name r) (announcer r) up (mac r) (seen r) (standing r).
Definition with_mac (r : Row) (m : Mac) : Row :=
  mk_row (w_name r) (announcer r) (w_up r) m (seen r) (standing r).
Definition with_seen (r : Row) (s : gset (string * string)) : Row :=
  mk_row (w_name r) (announcer r) (w_up r) (mac r) s (standing r).
Definition with_standing (r : Row) (s : gmap Cond string) : Row :=
  mk_row (w_name r) (announcer r) (w_up r) (mac r) (seen r) s.
Definition ifname (r : Row) : string := a_ifname (announcer r).

(** What an operation has said and done so far. *)
Record Log := mk_log { said : list string; acts : list Effect }.
Definition journal (line : string) (g : Log) : Log := mk_log (said g ++ [line]) (acts g).
Definition act (e : Effect) (g : Log) : Log := mk_log (said g) (acts g ++ [e]).
Definition log0 : Log := mk_log [] [].

Definition workload_line (name rest : string) : string := "cfab: workload " ++ name ++ ": " ++ rest.

Definition journal_once (c : Cond) (line : string) (r : Row) (g : Log) : Row * Log :=
  if opt_eqb (standing r !! c) (Some line) then (r, g)
  else (with_standing r (<[c := line]> (standing r)), journal line g).
Definition recovered (c : Cond) (r : Row) (g : Log) : Row * Log :=
  match standing r !! c with
  | None => (r, g)
  | Some _ => (with_standing r (delete c (standing r)),
               journal (workload_line (w_name r) (cond_str c ++ " recovered")) g)
  end.

(** [{b:02x}], joined by colons. *)
Definition hex_mac (m : Mac) : string :=
  String.concat ":" ((λ b, (debug_hex (b / 16) ++ debug_hex (b mod 16))%string) <$> m).

Section operations.
Context (from_str : string → option Value) (v : View) (io : list Effect → World).
Abbreviation host g := (w_host (io (acts g))).

Definition read_mac (name : string) (g : Log) : result string Mac :=
  match w_mac (io (acts g)) name with
  | Ok m => Ok m
  | Err e => Err ("cannot read the MAC of " ++ name ++ ": " ++ display e)%string
  end.

Definition refresh_mac (now : Instant) (r : Row) (g : Log) : Row * Log :=
  match read_mac (ifname r) g with
  | Ok m =>
      let '(r, g) := recovered CMac r g in
      if bool_decide (m = mac r) then (r, g)
      else (with_announcer (with_mac r m) (on_event (announcer r) now),
            journal (workload_line (w_name r)
                       (ifname r ++ " MAC changed " ++ hex_mac (mac r) ++ " -> " ++ hex_mac m)) g)
  | Err why => journal_once CMac (workload_line (w_name r) (why ++ "; announcing the last known MAC")) r g
  end.

(** [announce_due] on the row's own leg: a frame is offered to the socket when one is due. *)
Definition announce (now : Instant) (r : Row) (g : Log) : Row * result Error bool * Log :=
  let '(a, sent) := announce_due (w_send (io (acts g))) (announcer r) (mac r) now in
  (with_announcer r a, sent,
   if (fire (announcer r) now).2 then act (Sent (a_ifname a) (gratuitous (mac r) (a_gw a))) g else g).
Definition fire_row (now : Instant) (r : Row) (g : Log) : Row * Log :=
  let '(r, g) := refresh_mac now r g in
  let '(r, sent, g) := announce now r g in
  match sent with
  | Ok true => recovered CSend r g
  | Ok false => (r, g)
  | Err e =>
      journal_once CSend (workload_line (w_name r)
        ("announce on " ++ ifname r ++ " failed: " ++ display e)) r g
  end.

(** One row of [on_neigh] at an add on the port [ifindex]. *)
Definition neigh_row (ifindex : Z) (now : Instant) (r : Row) (g : Log) : Row * Log :=
  match non_uplink_ifindexes (host g) (w_up r) with
  | Ok ports =>
      let '(r, g) := recovered CScan r g in
      (if bool_decide (ifindex ∈ ports) then with_announcer r (on_event (announcer r) now) else r, g)
  | Err why => journal_once CScan (workload_line (w_name r) (why ++ "; burst skipped")) r g
  end.

Definition poll_row (now : Instant) (r : Row) (g : Log) : Row * Log :=
  let argv := fdb_poll (up_bridge (w_up r)) in
  let '(changed, s) := fdb_poll_changed (h_run (host g) argv) (w_up r) (seen r) in
  let r := with_seen r s in
  (if changed then with_announcer r (on_event (announcer r) now) else r, act (Ran argv) g).

(** [for r in &mut self.rows]. *)
Fixpoint each_row (f : Row → Log → Row * Log) (rows : list Row) (g : Log) : list Row * Log :=
  match rows with
  | [] => ([], g)
  | r :: rows =>
      let '(r, g) := f r g in
      let '(rows, g) := each_row f rows g in
      (r :: rows, g)
  end.

(** ** All of them *)

Record Workloads := mk_workloads {
  trigger : option Trigger;
  rows : list Row;
  deferred_said : gset string;
  hostroutes : HostRoutes
}.
Definition with_rows (w : Workloads) (l : list Row) : Workloads :=
  mk_workloads (trigger w) l (deferred_said w) (hostroutes w).
Definition note_deferred (w : Workloads) (name : string) : Workloads :=
  mk_workloads (trigger w) (rows w) ({[name]} ∪ deferred_said w) (hostroutes w).

(** The row an announcer starts with: its uplink and its MAC. *)
Definition start_row (wr : WorkloadRow) (now : Instant) (g : Log) : result string Row :=
  let wl := wr_wl wr in
  up <-? identify_declared (host g) (wl_uplink wl) (wl_vid wl) ;;
  m <-? read_mac (leg_ifname wl) g ;;
  Ok (mk_row (wl_name wl) (announcer_new (leg_ifname wl) (wl_gw wl) now) up m ∅ ∅).
Definition start_one (t : Trigger) (deferred : gset string) (now : Instant) (s : Workloads * Log)
    (wr : WorkloadRow) : Workloads * Log :=
  let '(w, g) := s in
  let name := wl_name (wr_wl wr) in
  if any (λ r, String.eqb (w_name r) name) (rows w) then (w, g)
  else if bool_decide (name ∈ deferred) then
    if bool_decide (name ∈ deferred_said w) then (w, g)
    else (note_deferred w name, journal (workload_line name "deferred; announcer not started") g)
  else match start_row wr now g with
       | Ok r => (with_rows w (rows w ++ [r]),
                  journal (workload_line name ("announcer trigger " ++ show_trigger t)) g)
       | Err why => (w, journal (workload_line name (why ++ "; announcer not started")) g)
       end.
Definition start_pending (now : Instant) (w : Workloads) (g : Log) : Workloads * Log :=
  if (length (workload_rows v) =? length (rows w))%nat then (w, g)
  else match trigger w with
       | None => (w, g)
       | Some t => foldl (start_one t (deferred_names (host g) v) now) (w, g) (workload_rows v)
       end.

Definition start (opened : result string unit) (now : Instant) : Workloads * Log :=
  match workload_rows v with
  | [] => (mk_workloads None [] ∅ ∅, log0)
  | _ =>
      let t := match opened with
               | Ok _ => NeighEvents
               | Err reason => FdbPoll ("RTNLGRP_NEIGH subscription failed: " ++ reason)
               end in
      start_pending now (mk_workloads (Some t) [] ∅ ∅) log0
  end.

(** The first row of that name takes the uplink the bridge has now, which says nothing when its ports
    are the same; a failed read keeps the last. *)
Definition uplink_changed (name : string) (up : Uplink) (r : Row) (g : Log) : Row * Log :=
  let old := String.concat "," (up_ports (w_up r)) in
  let new := String.concat "," (up_ports up) in
  (with_up r up,
   if String.eqb old new then g
   else journal (workload_line name ("uplink ports " ++ old ++ " -> " ++ new)) g).
Fixpoint refresh_named (name : string) (up : Uplink) (l : list Row) (g : Log) : list Row * Log :=
  match l with
  | [] => ([], g)
  | r :: l =>
      if String.eqb (w_name r) name then
        let '(r, g) := uplink_changed name up r g in (r :: l, g)
      else let '(l, g) := refresh_named name up l g in (r :: l, g)
  end.
Definition refresh_one (s : list Row * Log) (wr : WorkloadRow) : list Row * Log :=
  let '(l, g) := s in
  match identify_declared (host g) (wl_uplink (wr_wl wr)) (wl_vid (wr_wl wr)) with
  | Err _ => (l, g)
  | Ok up => refresh_named (wl_name (wr_wl wr)) up l g
  end.
Definition refresh_uplinks (w : Workloads) (g : Log) : Workloads * Log :=
  let '(l, g) := foldl refresh_one (rows w, g) (workload_rows v) in (with_rows w l, g).

Definition tick_hostroutes (now : Instant) (w : Workloads) (g : Log) : Workloads * Log :=
  let '(h, out, es) :=
    HostRoutes.tick from_str (λ es, io (acts g ++ es)) v now (hostroutes w) in
  (mk_workloads (trigger w) (rows w) (deferred_said w) h, mk_log (said g ++ out) (acts g ++ es)).

Definition tick (now : Instant) (w : Workloads) (g : Log) : Workloads * Log :=
  let '(w, g) := start_pending now w g in
  let '(w, g) := refresh_uplinks w g in
  let '(w, g) := tick_hostroutes now w g in
  match trigger w with
  | Some (FdbPoll _) => let '(l, g) := each_row (poll_row now) (rows w) g in (with_rows w l, g)
  | _ => (w, g)
  end.

Definition watch_died (why : string) (w : Workloads) (g : Log) : Workloads * Log :=
  let t := FdbPoll ("neighbor watch died: " ++ why) in
  match trigger w with
  | None => (w, g)
  | Some t' =>
      if bool_decide (t' = t) then (w, g)
      else (mk_workloads (Some t) (rows w) (deferred_said w) (hostroutes w),
            foldl (λ g r, journal (workload_line (w_name r) ("announcer trigger " ++ show_trigger t)) g)
                  g (rows w))
  end.

Definition next_due (w : Workloads) : option Instant :=
  match rows w with
  | [] => None
  | r :: l => Some (foldl (λ m r, Z.min m (Announce.next_due (announcer r)))
                          (Announce.next_due (announcer r)) l)
  end.

Definition fire_due (now : Instant) (w : Workloads) (g : Log) : Workloads * Log :=
  let '(l, g) := each_row (fire_row now) (rows w) g in (with_rows w l, g).

Definition on_neigh (sig : NeighSignal) (now : Instant) (w : Workloads) (g : Log) : Workloads * Log :=
  match sig with
  | Overflow => (with_rows w ((λ r, with_announcer r (on_event (announcer r) now)) <$> rows w), g)
  | Add ev =>
      if ne_permanent ev then (w, g)
      else let '(l, g) := each_row (neigh_row (ne_ifindex ev) now) (rows w) g in (with_rows w l, g)
  end.

Definition rows_for_status (w : Workloads) : list WorkloadAnnounce :=
  let t := match trigger w with Some t => show_trigger t | None => EmptyString end in
  (λ r, {| wa_name := w_name r; wa_ifname := ifname r; wa_trigger := t;
           wa_announces := (counters (announcer r)).1; wa_bursts := (counters (announcer r)).2 |})
    <$> rows w.
End operations.

(** ** Runs *)

(** What the supervisor calls, at the times its loop reads. *)
Inductive Op := OTick (now : Instant) | OFire (now : Instant) | ONeigh (sig : NeighSignal) (now : Instant)
              | ODied (why : string).
Definition op_time (op : Op) (t : Instant) : Instant :=
  match op with OTick now | OFire now | ONeigh _ now => now | ODied _ => t end.
(** The host at a moment that looked for rows to start, or at another one. *)
Inductive Moment := Looked (io : list Effect → World) | Acted (io : list Effect → World).
Definition moment (op : Op) (io : list Effect → World) : Moment :=
  match op with OTick _ => Looked io | _ => Acted io end.
Definition asked_of (m : Moment) : list Effect → World := match m with Looked io | Acted io => io end.

Section runs.
Context (from_str : string → option Value) (v : View).

Definition step (io : list Effect → World) (op : Op) (w : Workloads) : Workloads * Log :=
  match op with
  | OTick now => tick from_str v io now w log0
  | OFire now => fire_due io now w log0
  | ONeigh sig now => on_neigh io sig now w log0
  | ODied why => watch_died why w log0
  end.
(** The frames of the announcers; a tick's frames are the host routes' probes. *)
Definition frames_of (op : Op) (g : Log) : list Effect := match op with OFire _ => acts g | _ => [] end.

(** What was lived through since the start at [t0], the frames sent, the time and the rows. *)
Inductive reached (t0 : Instant) : list Moment → list Effect → Instant → Workloads → Prop :=
| reached_start opened io : reached t0 [Looked io] [] t0 (start v io opened t0).1
| reached_step past frames t w op io :
    reached t0 past frames t w → t ≤ op_time op t →
    reached t0 (past ++ [moment op io]) (frames ++ frames_of op (step io op w).2) (op_time op t) (step io op w).1.

(** What holds of a row: it is one of the view's that was found installed, its MAC was read, its
    uplink is not empty, and its announcer ran as [Announce] says. *)
Record row_ok (t0 : Instant) (past : list Moment) (t : Instant) (r : Row) : Prop := {
  ro_declared : ∃ wr io, wr ∈ workload_rows v ∧ Looked io ∈ past
    ∧ (wl_name (wr_wl wr) ∉ deferred_names (w_host (io [])) v)
    ∧ w_name r = wl_name (wr_wl wr) ∧ ifname r = leg_ifname (wr_wl wr)
    ∧ a_gw (announcer r) = wl_gw (wr_wl wr);
  ro_mac : ∃ m es, m ∈ past ∧ w_mac (asked_of m es) (ifname r) = Ok (mac r);
  ro_up : up_ports (w_up r) ≠ [];
  ro_ran : ∃ t1 t2, t0 ≤ t1 ∧ t2 ≤ t ∧ ran (ifname r) (a_gw (announcer r)) t1 (announcer r) t2
}.
End runs.

(** ** What each operation does to a row *)

Section row.
Context (io : list Effect → World) (now : Instant).

Lemma recovered_row c r g :
  ∃ s, (recovered c r g).1 = with_standing r s ∧ acts (recovered c r g).2 = acts g.
Proof.
  unfold recovered. destruct (standing r !! c); [by eexists|]. exists (standing r). by destruct r.
Qed.
Lemma journal_once_row c line r g :
  ∃ s, (journal_once c line r g).1 = with_standing r s ∧ acts (journal_once c line r g).2 = acts g.
Proof.
  unfold journal_once. destruct (opt_eqb _ _); [|by eexists]. exists (standing r). by destruct r.
Qed.

(** The announcer of a row after its MAC was read again, and the MAC it announces with. *)
Definition read_again (r : Row) (es : list Effect) : Mac :=
  match w_mac (io es) (ifname r) with Ok m => m | Err _ => mac r end.
Definition awake (r : Row) (es : list Effect) : Announcer :=
  if bool_decide (read_again r es = mac r) then announcer r else on_event (announcer r) now.

Lemma refresh_mac_row r g :
  ∃ s, (refresh_mac io now r g).1
       = mk_row (w_name r) (awake r (acts g)) (w_up r) (read_again r (acts g)) (seen r) s
     ∧ acts (refresh_mac io now r g).2 = acts g.
Proof.
  unfold refresh_mac, read_mac, awake, read_again. destruct (w_mac _ _) as [m|e].
  - destruct (recovered_row CMac r g) as (s & E & A). destruct (recovered CMac r g) as [r' g'].
    cbn [fst snd] in E, A. subst r'. cbn [mac with_standing].
    case_bool_decide; subst; exists s; [by destruct r|done].
  - rewrite bool_decide_eq_true_2 by done.
    destruct (journal_once_row CMac (workload_line (w_name r)
      (("cannot read the MAC of " ++ ifname r ++ ": " ++ display e) ++ "; announcing the last known MAC")) r g)
      as (s & -> & A). by exists s.
Qed.

Definition fired (r : Row) (es : list Effect) : Announcer * bool := fire (awake r es) now.
Definition frame_of (r : Row) (es : list Effect) : list Effect :=
  if (fired r es).2 then [Sent (ifname r) (gratuitous (read_again r es) (a_gw (announcer r)))] else [].

Lemma on_event_keeps a : a_ifname (on_event a now) = a_ifname a ∧ a_gw (on_event a now) = a_gw a.
Proof. unfold on_event. by repeat case_match. Qed.
Lemma awake_keeps r es : a_ifname (awake r es) = ifname r ∧ a_gw (awake r es) = a_gw (announcer r).
Proof. unfold awake. case_bool_decide; [done|apply on_event_keeps]. Qed.
Lemma fire_keeps a : a_ifname (fire a now).1 = a_ifname a ∧ a_gw (fire a now).1 = a_gw a.
Proof. unfold fire. by destruct (fire_burst _ _ _) as [[? ?] ?]. Qed.

Lemma fire_row_does r g :
  ∃ s, (fire_row io now r g).1
       = mk_row (w_name r) (fired r (acts g)).1 (w_up r) (read_again r (acts g)) (seen r) s
     ∧ acts (fire_row io now r g).2 = acts g ++ frame_of r (acts g).
Proof.
  unfold fire_row. destruct (refresh_mac_row r g) as (s & E & A).
  destruct (refresh_mac io now r g) as [r1 g1]. cbn [fst snd] in E, A.
  destruct (awake_keeps r (acts g)) as [Ki Kg]. destruct (fire_keeps (awake r (acts g))) as [Fi Fg].
  unfold announce, announce_due. rewrite E. cbn [announcer mac]. fold (fired r (acts g)) in Fi, Fg |- *.
  unfold frame_of. destruct (fired r (acts g)) as [a b] eqn:Ef. cbn [fst snd] in *.
  set (r2 := with_announcer _ a). set (g2 := if b then _ else g1).
  assert (r2 = mk_row (w_name r) a (w_up r) (read_again r (acts g)) (seen r) s) as E2 by done.
  assert (acts g2 = acts g ++ if b then [Sent (ifname r) (gratuitous (read_again r (acts g)) (a_gw (announcer r)))]
                              else []) as A2.
  { unfold g2. destruct b; cbn [acts act]; rewrite A, ?app_nil_r; [|done]. by rewrite Fi, Fg, Ki, Kg. }
  clearbody r2 g2. subst r2.
  assert (∀ (p : Row * Log), (∃ s', p.1 = with_standing (mk_row (w_name r) a (w_up r) (read_again r (acts g)) (seen r) s) s'
            ∧ acts p.2 = acts g2) →
          ∃ s, p.1 = mk_row (w_name r) a (w_up r) (read_again r (acts g)) (seen r) s
            ∧ acts p.2 = acts g ++ if b then [Sent (ifname r) (gratuitous (read_again r (acts g)) (a_gw (announcer r)))]
                                   else []) as Hp.
  { intros p (s' & -> & ->). exists s'. by rewrite <-A2. }
  destruct (if negb b then _ else _) as [[]|e]; apply Hp; [apply recovered_row| |apply journal_once_row].
  exists s. by split.
Qed.

(** Which rows an add on the port [ifindex] wakes: the port is on the row's bridge and is none of its
    uplinks. *)
Definition owns_port (h : Host) (up : Uplink) (ifindex : Z) : bool :=
  match non_uplink_ifindexes h up with Ok ports => bool_decide (ifindex ∈ ports) | Err _ => false end.
Lemma neigh_row_does ifindex r g :
  ∃ s, (neigh_row io ifindex now r g).1
       = with_standing (if owns_port (w_host (io (acts g))) (w_up r) ifindex
                        then with_announcer r (on_event (announcer r) now) else r) s
     ∧ acts (neigh_row io ifindex now r g).2 = acts g.
Proof.
  unfold neigh_row, owns_port. destruct (non_uplink_ifindexes _ _) as [ports|e].
  - destruct (recovered_row CScan r g) as (s & E & A). destruct (recovered CScan r g) as [r' g'].
    cbn [fst snd] in *. subst r'. exists s. by case_bool_decide.
  - apply journal_once_row.
Qed.

Lemma poll_row_does r g :
  ∃ (b : bool) s, (poll_row io now r g).1
       = with_seen (if b then with_announcer r (on_event (announcer r) now) else r) s
     ∧ acts (poll_row io now r g).2 = acts g ++ [Ran (fdb_poll (up_bridge (w_up r)))].
Proof.
  unfold poll_row. destruct (fdb_poll_changed _ _ _) as [[] s]; [exists true, s|exists false, s]; done.
Qed.
End row.

(** ** Rows stay as they should *)

Lemma each_row_rows (f : Row → Log → Row * Log) (Q : Row → Row → Prop) l g :
  (∀ r g, r ∈ l → Q r (f r g).1) → Forall2 Q l (each_row f l g).1.
Proof.
  revert g. induction l as [|r l IH]; intros g HQ; [constructor|]. cbn [each_row].
  pose proof (HQ r g ltac:(by left)) as Hr. destruct (f r g) as [r' g'].
  specialize (IH g' ltac:(intros; apply HQ; by right)). destruct (each_row f l g') as [l' g'']. by constructor.
Qed.
Lemma each_row_acts (f : Row → Log → Row * Log) l g :
  (∀ r g, acts (f r g).2 = acts g) → acts (each_row f l g).2 = acts g.
Proof.
  intros Hf. revert g. induction l as [|r l IH]; intros g; [done|]. cbn [each_row].
  pose proof (Hf r g) as Hr. destruct (f r g) as [r' g']. specialize (IH g').
  destruct (each_row f l g') as [l' g'']. cbn in *. congruence.
Qed.
Lemma fmap_Forall2 {A} (f : Row → A) l l' : Forall2 (λ r r', f r' = f r) l l' → f <$> l' = f <$> l.
Proof. induction 1 as [|r r' l l' E H IH]; [done|]. cbn. by rewrite E, IH. Qed.

Section rows.
Context (from_str : string → option Value) (v : View) (t0 : Instant).
Abbreviation ok := (row_ok v t0).

Lemma ok_mono past past' t t' r : ok past t r → past ⊆ past' → t ≤ t' → ok past' t' r.
Proof.
  intros [(wr & io & H1 & H2 & H3) (m & es & H4 & H5) H6 (t1 & t2 & H7 & H8 & H9)] Hp Ht.
  split; [|by exists m, es; auto|done|by exists t1, t2; split_and!; [done|lia|]].
  exists wr, io. split; [done|]. split; [by apply Hp|done].
Qed.
Lemma ok_standing past t r s : ok past t r → ok past t (with_standing r s).
Proof. by intros [? ? ? ?]. Qed.
Lemma ok_seen past t r s : ok past t r → ok past t (with_seen r s).
Proof. by intros [? ? ? ?]. Qed.
Lemma ok_up past t r up : ok past t r → up_ports up ≠ [] → ok past t (with_up r up).
Proof. by intros [? ? _ ?]. Qed.

Lemma ok_stepped past t now r s :
  ok past t r → t ≤ now → step_time s = now →
  a_ifname (ann_step (announcer r) s) = ifname r → a_gw (ann_step (announcer r) s) = a_gw (announcer r) →
  ok past now (with_announcer r (ann_step (announcer r) s)).
Proof.
  intros [H1 H2 H3 (t1 & t2 & H4 & H5 & H6)] Ht Hs Hi Hg. unfold ifname in *.
  split; unfold ifname; cbn [announcer with_announcer w_name mac w_up]; rewrite ?Hi, ?Hg; try done.
  exists t1, now. split; [done|]. split; [done|]. rewrite <-Hs. apply (ran_step _ _ _ _ t2); [done|lia].
Qed.
Lemma ok_event past t now r :
  ok past t r → t ≤ now → ok past now (with_announcer r (on_event (announcer r) now)).
Proof. intros H Ht. apply (ok_stepped past t now r (AEvent now)); [done..| |]; apply on_event_keeps. Qed.
Lemma ok_event_if past t now r (b : bool) :
  ok past t r → t ≤ now → ok past now (if b then with_announcer r (on_event (announcer r) now) else r).
Proof. intros H Ht. destruct b; [by apply (ok_event _ t)|]. by apply (ok_mono past past t). Qed.

Lemma ok_read past t now r io es :
  ok past t r → t ≤ now → Acted io ∈ past →
  ok past now (mk_row (w_name r) (awake io now r es) (w_up r) (read_again io r es) (seen r) (standing r)).
Proof.
  intros H Ht Hio. unfold awake. case_bool_decide as E.
  - rewrite E. destruct r. by apply (ok_mono past past t).
  - destruct (ok_event past t now r H Ht) as [H1 _ H3 H4]. split; [exact H1| |exact H3|exact H4].
    unfold read_again, ifname in *. cbn [mac announcer]. rewrite (proj1 (on_event_keeps _ _)).
    destruct (w_mac (io es) (a_ifname (announcer r))) eqn:Em; [by exists (Acted io), es|done].
Qed.
Lemma ok_fired past t now r io es s :
  ok past t r → t ≤ now → Acted io ∈ past →
  ok past now (mk_row (w_name r) (fired io now r es).1 (w_up r) (read_again io r es) (seen r) s).
Proof.
  intros H Ht Hio. apply (ok_read past t now r io es) in H; [|done|done].
  apply (ok_stepped past now now _ (AFire now)) in H; [|done|done|apply fire_keeps..].
  by apply (ok_standing _ _ _ s) in H.
Qed.
End rows.

(** ** The operations *)

Definition announced (w : Workloads) : Z := foldr (λ r n, announces (announcer r) + n) 0 (rows w).

Section ops.
Context (from_str : string → option Value) (v : View) (t0 : Instant).
Abbreviation ok := (row_ok v t0).

Definition good (past : list Moment) (t : Instant) (w : Workloads) : Prop :=
  Forall (ok past t) (rows w) ∧ NoDup (w_name <$> rows w).

Lemma good_rows (past past' : list Moment) t now w w' :
  good past t w → past ⊆ past' →
  Forall2 (λ r r', w_name r' = w_name r ∧ (ok past' t r → ok past' now r')) (rows w) (rows w') →
  good past' now w'.
Proof.
  intros [H Hn] Hp HF. split.
  - clear Hn. induction HF as [|r r' l l' [_ Hr] HF IH]; [done|]. apply list.Forall_cons in H as [H1 H2].
    constructor; [|by apply IH]. apply Hr. by apply (ok_mono v t0 past past' t t).
  - rewrite (fmap_Forall2 w_name (rows w) (rows w')); [done|]. eapply list.Forall2_impl; [exact HF|by intros ? ? []].
Qed.

Lemma announced_rows l l' :
  Forall2 (λ r r', announces (announcer r') = announces (announcer r)) l l' →
  foldr (λ r n, announces (announcer r) + n) 0 l' = foldr (λ r n, announces (announcer r) + n) 0 l.
Proof. induction 1 as [|r r' l l' E H IH]; [done|]. cbn. by rewrite E, IH. Qed.
Lemma on_event_announces a now : announces (on_event a now) = announces a.
Proof. unfold on_event. by repeat case_match. Qed.

Lemma start_row_ok io past wr now g r :
  t0 ≤ now → wr ∈ workload_rows v → Looked io ∈ past → acts g = [] →
  wl_name (wr_wl wr) ∉ deferred_names (w_host (io [])) v →
  start_row io wr now g = Ok r →
  ok past now r ∧ w_name r = wl_name (wr_wl wr) ∧ announces (announcer r) = 0.
Proof.
  intros H0 Hin Hio Hg Hd. unfold start_row, read_mac. rewrite Hg.
  destruct (identify_declared _ _ _) as [up|e] eqn:Eu; [|done].
  destruct (w_mac _ _) as [m|e] eqn:Em; [|done]. intros [= <-].
  split; [|done]. split; cbn [w_name announcer mac w_up a_gw announcer_new].
  - exists wr, io. by split_and!.
  - by exists (Looked io), [].
  - by apply identify_Ok in Eu as [_ ?].
  - exists now, now. split_and!; [done|done|apply ran_new].
Qed.

Lemma start_one_good io past t now wr w g :
  t0 ≤ now → Looked io ∈ past → wr ∈ workload_rows v → acts g = [] → good past now w →
  let s := start_one io t (deferred_names (w_host (io [])) v) now (w, g) wr in
  good past now s.1 ∧ announced s.1 = announced w ∧ acts s.2 = [].
Proof.
  intros H0 Hio Hin Hg [Hw Hn]. unfold start_one.
  destruct (any _ _) eqn:Ea; [done|]. case_bool_decide as Ed; [by case_bool_decide|].
  destruct (start_row io wr now g) as [r|e] eqn:Er; [|done]. cbn [fst snd with_rows].
  destruct (start_row_ok io past wr now g r H0 Hin Hio Hg Ed Er) as (Hr & En & E0).
  split; [split|split; [|done]]; unfold announced, with_rows; cbn [rows].
  - apply list.Forall_app. by split; [|constructor].
  - rewrite fmap_app. apply list.NoDup_app. split; [done|]. split; [|apply NoDup_singleton].
    intros x (r' & -> & Hr')%list_elem_of_fmap Hx. apply list_elem_of_singleton in Hx.
    apply not_true_iff_false in Ea. apply Ea. apply any_true. exists r'. split; [done|].
    apply String.eqb_eq. congruence.
  - rewrite foldr_app. cbn [foldr]. by rewrite E0.
Qed.

Lemma start_pending_good io past now w g :
  t0 ≤ now → Looked io ∈ past → acts g = [] → good past now w →
  let s := start_pending v io now w g in
  good past now s.1 ∧ announced s.1 = announced w ∧ acts s.2 = [].
Proof.
  intros H0 Hio Hg Hw. unfold start_pending. destruct (_ =? _)%nat; [done|].
  destruct (trigger w) as [t|]; [|done]. rewrite Hg.
  assert (∀ l w' g', l ⊆ workload_rows v → acts g' = [] → good past now w' → announced w' = announced w →
    let s := foldl (start_one io t (deferred_names (w_host (io [])) v) now) (w', g') l in
    good past now s.1 ∧ announced s.1 = announced w ∧ acts s.2 = []) as H; [|by apply H].
  induction l as [|wr l IH]; intros w' g' Hl Hg' Hw' Ha; [done|]. cbn [foldl].
  destruct (start_one_good io past t now wr w' g' H0 Hio ltac:(apply Hl; by left) Hg' Hw') as (G & A & E).
  destruct (start_one _ _ _ _ _ _) as [w'' g'']. apply IH; [set_solver|done|done|cbn in A; congruence].
Qed.

Lemma refresh_named_rows name up l g :
  Forall2 (λ r r', r' = r ∨ r' = with_up r up) l (refresh_named name up l g).1
  ∧ acts (refresh_named name up l g).2 = acts g.
Proof.
  revert g. induction l as [|r l IH]; intros g; [split; [constructor|done]|]. cbn [refresh_named].
  destruct (String.eqb _ _).
  - unfold uplink_changed. split; cbn [fst snd]; [|by destruct (String.eqb _ _)].
    constructor; [by right|]. clear. induction l; constructor; auto.
  - destruct (IH g) as [F A]. destruct (refresh_named name up l g) as [l' g'].
    split; [|done]. constructor; [by left|done].
Qed.

Lemma refresh_uplinks_good io past now w g :
  good past now w →
  let s := refresh_uplinks v io w g in
  good past now s.1 ∧ announced s.1 = announced w ∧ acts s.2 = acts g
  ∧ trigger s.1 = trigger w.
Proof.
  intros Hw. unfold refresh_uplinks.
  assert (∀ wrs l g', good past now (with_rows w l) → announced (with_rows w l) = announced w → acts g' = acts g →
    let s := foldl (refresh_one io) (l, g') wrs in
    good past now (with_rows w s.1) ∧ announced (with_rows w s.1) = announced w ∧ acts s.2 = acts g) as H.
  { induction wrs as [|wr wrs IH]; intros l g' G A E; [done|]. cbn [foldl]. unfold refresh_one at 2 4 6.
    destruct (identify_declared _ _ _) as [up|e] eqn:Eu; [|by apply IH].
    destruct (refresh_named_rows (wl_name (wr_wl wr)) up l g') as [F A'].
    destruct (refresh_named _ _ _ _) as [l' g'']. cbn [fst snd] in F, A'. apply identify_Ok in Eu as [_ Hne].
    apply IH; [| |congruence].
    - apply (good_rows past past now now (with_rows w l)); [done|done|].
      eapply list.Forall2_impl; [exact F|]. intros r r' [-> | ->]; (split; [done|]); intros Hr; [done|].
      by apply ok_up.
    - rewrite <-A. apply announced_rows. eapply list.Forall2_impl; [exact F|]. by intros r r' [-> | ->]. }
  specialize (H (workload_rows v) (rows w) g). destruct w as [t l d h]. cbn [rows] in *.
  destruct (H Hw eq_refl eq_refl) as (G & A & E). by destruct (foldl _ _ _).
Qed.

Lemma poll_good io past now w g :
  good past now w →
  let s := each_row (poll_row io now) (rows w) g in
  good past now (with_rows w s.1) ∧ announced (with_rows w s.1) = announced w.
Proof.
  intros Hw. split.
  - apply (good_rows past past now now w); [done|done|]. apply each_row_rows. intros r g' _.
    destruct (poll_row_does io now r g') as (b & s & -> & _). split; [by destruct b|].
    intros Hr. apply ok_seen. by apply (ok_event_if _ _ _ now).
  - apply announced_rows, each_row_rows. intros r g' _.
    destruct (poll_row_does io now r g') as (b & s & -> & _).
    destruct b; [apply on_event_announces|done].
Qed.

Lemma tick_good io past past' t now w :
  t0 ≤ t → good past t w → past ⊆ past' → Looked io ∈ past' → t ≤ now →
  let s := tick from_str v io now w log0 in good past' now s.1 ∧ announced s.1 = announced w.
Proof.
  intros H0 Hw Hp Hio Ht. unfold tick.
  assert (good past' now w) as Hw'.
  { destruct Hw as [H Hn]. split; [|done]. eapply list.Forall_impl; [exact H|]. intros r Hr.
    by apply (ok_mono v t0 past past' t now). }
  destruct (start_pending_good io past' now w log0 ltac:(lia) Hio eq_refl Hw') as (G1 & A1 & _).
  destruct (start_pending v io now w log0) as [w1 g1]. cbn [fst snd] in G1, A1.
  destruct (refresh_uplinks_good io past' now w1 g1 G1) as (G2 & A2 & _ & _).
  destruct (refresh_uplinks v io w1 g1) as [w2 g2]. cbn [fst snd] in G2, A2.
  assert (rows (tick_hostroutes from_str v io now w2 g2).1 = rows w2) as R3.
  { unfold tick_hostroutes. by destruct (HostRoutes.tick _ _ _ _ _) as [[h out] es]. }
  destruct (tick_hostroutes from_str v io now w2 g2) as [w3 g3]. cbn [fst snd] in R3.
  assert (good past' now w3 ∧ announced w3 = announced w) as [G3 A3].
  { unfold good, announced in *. rewrite R3. split; [done|congruence]. }
  destruct (trigger w3) as [[|reason]|]; [done| |done].
  destruct (poll_good io past' now w3 g3 G3) as [G4 A4].
  destruct (each_row _ _ _) as [l g4]. cbn [fst snd] in *. split; [done|congruence].
Qed.

(** The rows an add or an overflow wakes. *)
Definition woken (io : list Effect → World) (sig : NeighSignal) (r : Row) : bool :=
  match sig with
  | Overflow => true
  | Add ev => negb (ne_permanent ev) && owns_port (w_host (io [])) (w_up r) (ne_ifindex ev)
  end.
Lemma on_neigh_rows io sig now w :
  Forall2 (λ r r', ∃ s, r' = with_standing (if woken io sig r then with_announcer r (on_event (announcer r) now)
                                            else r) s)
    (rows w) (rows (on_neigh io sig now w log0).1)
  ∧ acts (on_neigh io sig now w log0).2 = [].
Proof.
  assert (∀ l, Forall2 (λ r r', ∃ s, r' = with_standing r s) l l) as Hrefl.
  { induction l as [|r l IH]; constructor; [|done]. exists (standing r). by destruct r. }
  unfold on_neigh, woken. destruct sig as [ev|]; [destruct (ne_permanent ev)|]; cbn [negb andb].
  - by split.
  - assert (∀ l g, acts g = [] →
      Forall2 (λ r r', ∃ s, r' = with_standing (if owns_port (w_host (io [])) (w_up r) (ne_ifindex ev)
          then with_announcer r (on_event (announcer r) now) else r) s) l
        (each_row (neigh_row io (ne_ifindex ev) now) l g).1
      ∧ acts (each_row (neigh_row io (ne_ifindex ev) now) l g).2 = []) as H.
    { induction l as [|r l IH]; intros g Hg; [split; [constructor|done]|]. cbn [each_row].
      destruct (neigh_row_does io now (ne_ifindex ev) r g) as (s & E & A). rewrite Hg in E, A.
      destruct (neigh_row _ _ _ _ _) as [r' g']. destruct (IH g' A) as [F A'].
      destruct (each_row _ _ _) as [l' g'']. split; [|done]. constructor; [by exists s|done]. }
    destruct (H (rows w) log0 eq_refl) as [F A]. destruct (each_row _ _ _) as [l g]. done.
  - split; [|done]. cbn [fst with_rows rows]. apply Forall2_fmap_r, Forall_Forall2_diag.
    apply Forall_forall. intros r _. by exists (standing r).
Qed.
Lemma on_neigh_good io sig past past' t now w :
  good past t w → past ⊆ past' → t ≤ now →
  let s := on_neigh io sig now w log0 in good past' now s.1 ∧ announced s.1 = announced w.
Proof.
  intros Hw Hp Ht. destruct (on_neigh_rows io sig now w) as [F _]. split.
  - apply (good_rows past past' t now w); [done|done|]. eapply list.Forall2_impl; [exact F|].
    intros r r' (s & ->). split; [by destruct (woken io sig r)|]. intros Hr. apply ok_standing.
    by apply (ok_event_if _ _ _ t).
  - apply announced_rows. eapply list.Forall2_impl; [exact F|]. intros r r' (s & ->).
    destruct (woken io sig r); [apply on_event_announces|done].
Qed.
End ops.

(** ** Firing *)

Lemma fire_counts a now : announces (fire a now).1 = announces a + (if (fire a now).2 then 1 else 0).
Proof. unfold fire. destruct (fire_burst _ _ _) as [[b n] d]. cbn. destruct (b || _); lia. Qed.
Lemma fired_counts io now r es :
  announces (fired io now r es).1 = announces (announcer r) + Z.of_nat (length (frame_of io now r es)).
Proof.
  unfold frame_of, fired. rewrite fire_counts. unfold awake.
  case_bool_decide; rewrite ?on_event_announces; by destruct (fire _ _).2.
Qed.

(** A frame as a row sends it, having done [es] before in the same turn. *)
Definition frame_from (io : list Effect → World) (now : Instant) (l : list Row) (e : Effect) : Prop :=
  ∃ r es, r ∈ l ∧ e = Sent (ifname r) (gratuitous (read_again io r es) (a_gw (announcer r))).

Lemma fire_all io now l g :
  Forall2 (λ r r', ∃ es s, r' = mk_row (w_name r) (fired io now r es).1 (w_up r) (read_again io r es) (seen r) s)
    l (each_row (fire_row io now) l g).1
  ∧ ∃ new, acts (each_row (fire_row io now) l g).2 = acts g ++ new
      ∧ foldr (λ r n, announces (announcer r) + n) 0 (each_row (fire_row io now) l g).1
        = foldr (λ r n, announces (announcer r) + n) 0 l + Z.of_nat (length new)
      ∧ Forall (frame_from io now l) new.
Proof.
  revert g. induction l as [|r l IH]; intros g.
  { split; [constructor|]. exists []. by rewrite app_nil_r. }
  cbn [each_row]. destruct (fire_row_does io now r g) as (s & E & A).
  destruct (fire_row io now r g) as [r' g']. cbn [fst snd] in E, A.
  destruct (IH g') as (F & new & A' & C & N). destruct (each_row _ l g') as [l' g'']. cbn [fst snd] in *.
  split; [constructor; [by exists (acts g), s|done]|].
  exists (frame_of io now r (acts g) ++ new). split; [by rewrite A', A, app_assoc|]. split.
  - cbn [foldr]. rewrite C, E. cbn [announcer]. rewrite fired_counts, length_app. lia.
  - apply list.Forall_app. split.
    + unfold frame_of. destruct (fired io now r (acts g)).2; [|done]. constructor; [|done].
      exists r, (acts g). split; [by left|done].
    + eapply list.Forall_impl; [exact N|]. intros e (r1 & es & H & ->). exists r1, es. split; [by right|done].
Qed.

Section inv.
Context (from_str : string → option Value) (v : View) (t0 : Instant).

(** On every run: the rows are as they should, one per name, and what they counted is what was sent. *)
Lemma reached_good past frames t w :
  reached from_str v t0 past frames t w →
  t0 ≤ t ∧ good v t0 past t w ∧ Z.of_nat (length frames) = announced w.
Proof.
  induction 1 as [opened io|past frames t w op io _ (H0 & G & C) Ht].
  - split; [done|]. unfold start. destruct (workload_rows v) as [|wr l] eqn:E; [by repeat constructor|].
    set (w0 := mk_workloads _ [] ∅ ∅).
    destruct (start_pending_good v t0 io [Looked io] t0 w0 log0) as (G & A & _);
      [done|by left|done|by repeat constructor|]. split; [done|]. by rewrite A.
  - assert (past ⊆ past ++ [moment op io]) as Hp by set_solver.
    assert (moment op io ∈ past ++ [moment op io]) as Hm by set_solver.
    rewrite length_app. split; [lia|].
    destruct op as [now|now|sig now|why]; cbn [step op_time moment frames_of] in *.
    + destruct (tick_good from_str v t0 io past _ t now w H0 G Hp Hm Ht) as [G' A].
      split; [done|]. cbn [length]. lia.
    + unfold fire_due. destruct (fire_all io now (rows w) log0) as (F & new & A & N & _).
      destruct (each_row _ _ _) as [l g]. cbn [fst snd] in *. rewrite A. cbn [acts log0 app].
      unfold announced in *. split; [|cbn [rows with_rows]; lia].
      apply (good_rows v t0 past _ t now w); [done|done|]. eapply list.Forall2_impl; [exact F|].
      intros r r' (es & s & ->). split; [done|]. intros Hr. by apply (ok_fired v t0 _ t).
    + destruct (on_neigh_good v t0 io sig past _ t now w G Hp Ht) as [G' A]. split; [done|]. cbn [length]. lia.
    + unfold watch_died. cbn [length]. split; [|destruct (trigger w); [case_bool_decide|]; unfold announced in *; cbn [rows fst]; lia].
      assert (good v t0 (past ++ [Acted io]) t w) as G'.
      { destruct G as [G Hn]. split; [|done]. eapply list.Forall_impl; [exact G|]. intros r Hr.
        by apply (ok_mono v t0 past _ t t). }
      destruct (trigger w); [case_bool_decide|]; done.
Qed.

Lemma rows_at_most past t w : good v t0 past t w → (length (rows w) ≤ length (workload_rows v))%nat.
Proof.
  intros [G Hn].
  rewrite <-(length_fmap w_name), <-(length_fmap (λ wr, wl_name (wr_wl wr)) (workload_rows v)).
  apply submseteq_length, NoDup_submseteq; [done|]. intros x (r & -> & Hr)%list_elem_of_fmap.
  rewrite list.Forall_forall in G. destruct (ro_declared _ _ _ _ _ (G r Hr)) as (wr & io & Hin & _ & _ & -> & _).
  apply list_elem_of_fmap. by exists wr.
Qed.

Lemma row_counts past t r : t0 ≤ t → row_ok v t0 past t r →
  announces (announcer r) ≤ (BURST_LEN + 1) * ((t - t0) / PERIOD + 1).
Proof.
  intros H0 [_ _ _ (t1 & t2 & H1 & H2 & Hr)]. apply announce_rate_bounded in Hr.
  assert ((t2 - t1) / PERIOD ≤ (t - t0) / PERIOD) by (apply Z.div_le_mono; [apply PERIOD_pos|lia]).
  unfold BURST_LEN in *. lia.
Qed.

(** C21. C: a gateway is announced only where this member holds it. Whatever the kernel answers and in
    whatever order ticks, beacons, neighbour events and the death of the watch come, a frame goes out
    only on the leg of a declared row, with that row's gateway, and only of a row that a start or a
    tick found absent from the list of deferred ones; its MAC is the one the kernel gave for that
    leg just before, or, where it could not be read, the last one it gave. *)
Theorem announces_only_installed_rows past frames t w io now leg frame
    (Hw : reached from_str v t0 past frames t w) (Hf : Sent leg frame ∈ acts (fire_due io now w log0).2) :
  ∃ wr m, wr ∈ workload_rows v ∧ leg = leg_ifname (wr_wl wr) ∧ frame = gratuitous m (wl_gw (wr_wl wr))
  ∧ (∃ io', Looked io' ∈ past ∧ wl_name (wr_wl wr) ∉ deferred_names (w_host (io' [])) v)
  ∧ ∃ es, w_mac (io es) leg = Ok m
          ∨ is_ok (w_mac (io es) leg) = false ∧ ∃ p es', p ∈ past ∧ w_mac (asked_of p es') leg = Ok m.
Proof using Type.
  destruct (reached_good past frames t w Hw) as (_ & [G _] & _). unfold fire_due in Hf.
  destruct (fire_all io now (rows w) log0) as (_ & new & A & _ & N).
  destruct (each_row _ _ _) as [l g]. cbn [fst snd] in *. rewrite A in Hf. cbn [acts log0 app] in Hf.
  rewrite list.Forall_forall in N. destruct (N _ Hf) as (r & es & Hr & [= -> ->]).
  rewrite list.Forall_forall in G. destruct (G r Hr) as [(wr & io' & H1 & H2 & H3 & _ & H4 & H5) (p & es' & H6 & H7) _ _].
  exists wr, (read_again io r es). rewrite <-H4, <-H5. split_and!; [done..|by exists io'|].
  exists es. unfold read_again. destruct (w_mac (io es) (ifname r)); [by left|right].
  split; [done|by exists p, es'].
Qed.

(** C29. C: the announcers never flood a segment. However fast MACs come and change, whatever the socket
    answers and however often the loop wakes, the frames sent since the start are at most four per
    declared row and started period. *)
Theorem frames_bounded past frames t w (Hw : reached from_str v t0 past frames t w) :
  Z.of_nat (length frames)
  ≤ (BURST_LEN + 1) * Z.of_nat (length (workload_rows v)) * ((t - t0) / PERIOD + 1).
Proof using Type.
  destruct (reached_good past frames t w Hw) as (H0 & G & ->).
  pose proof (rows_at_most past t w G) as Hl. destruct G as [G _].
  assert (0 ≤ (t - t0) / PERIOD) by (apply Z.div_pos; [lia|apply PERIOD_pos]).
  assert (announced w ≤ (BURST_LEN + 1) * Z.of_nat (length (rows w)) * ((t - t0) / PERIOD + 1)); [|unfold BURST_LEN in *; nia].
  unfold announced. clear Hl. induction (rows w) as [|r l IH]; cbn [foldr length]; [lia|].
  apply list.Forall_cons in G as [Hr G]. pose proof (row_counts past t r H0 Hr). specialize (IH G). lia.
Qed.
End inv.

(** ** Waking *)

(** At most [k] frames of a burst are overdue. *)
Definition overdue (k : Z) (now : Instant) (a : Announcer) : Prop :=
  ∀ b, burst_due a = Some b → b ≤ now → burst_left a ≤ k.

Lemma fire_overdue k t0 t now a :
  ann_ok t0 a t → overdue (k + 1) now a → overdue k now (fire a now).1 ∧ (now < beacon_due (fire a now).1).
Proof.
  intros [Hl Ha _ _ _ _] Hk. unfold fire. destruct (fire_burst _ _ _) as [[s n] d] eqn:F. cbn [fst beacon_due].
  split; [|destruct (beacon_due a <=? now) eqn:B; split_bools; [apply advance_bounds|]; done].
  intros b Eb Hb. cbn [burst_due burst_left] in *. subst d. unfold fire_burst in F. unfold overdue in Hk.
  destruct (burst_due a) as [b'|] eqn:D; [|done]. destruct (b' <=? now) eqn:L; split_bools; [|simplify_eq; lia].
  specialize (Hk b' eq_refl L). assert (0 < burst_left a) by (apply Ha; eauto).
  unfold usize_sub in F. rewrite Z.mod_small in F by (unfold usize_max, BURST_LEN in *; lia).
  destruct (0 <? _); simplify_eq. lia.
Qed.
Lemma event_overdue k now a : 0 ≤ k → overdue (k + 1) now a →
  overdue (k + 1) now (on_event a now) ∨ burst_left (on_event a now) = BURST_LEN ∧ burst_due (on_event a now) = Some now.
Proof. intros _ H. unfold on_event. repeat case_match; auto. Qed.

(** One wake of a row, whatever its MAC reads as. *)
Lemma fired_overdue k t0 t now io r es :
  t0 ≤ t → t ≤ now → 0 ≤ k → ann_ok t0 (announcer r) t → overdue (k + 1) now (announcer r) →
  ann_ok t0 (fired io now r es).1 now ∧ overdue k now (fired io now r es).1
  ∧ (now < beacon_due (fired io now r es).1).
Proof.
  intros H0 Ht Hk Ha Ho. unfold fired, awake. case_bool_decide as E.
  - split; [by apply (ann_ok_fire _ _ t)|]. by apply (fire_overdue k t0 t).
  - assert (ann_ok t0 (on_event (announcer r) now) now) as Ha' by by apply (ann_ok_event _ _ t).
    split; [by apply (ann_ok_fire _ _ now)|].
    destruct (event_overdue k now (announcer r) Hk Ho) as [H|[Hl Hd]]; [by apply (fire_overdue k t0 now)|].
    pose proof (fire_overdue 2 t0 now now _ Ha') as F.
    destruct F as [_ F]; [intros b _ _; rewrite Hl; done|]. split; [|done].
    unfold fire. rewrite Hl, Hd. unfold fire_burst. rewrite Z.leb_refl. cbn. intros b [= <-].
    unfold BURST_GAP, from_secs, nanos_per_sec. lia.
Qed.

Section spin.
Context (from_str : string → option Value) (v : View).

Definition awake_rows (k : Z) (now : Instant) (w : Workloads) : Prop :=
  Forall (λ r, (∃ t0 t, t0 ≤ t ∧ t ≤ now ∧ ann_ok t0 (announcer r) t) ∧ overdue k now (announcer r)) (rows w).
Lemma fire_due_awake k now io w :
  0 ≤ k → awake_rows (k + 1) now w →
  awake_rows k now (fire_due io now w log0).1
  ∧ Forall (λ r, now < beacon_due (announcer r)) (rows (fire_due io now w log0).1)
  ∧ length (rows (fire_due io now w log0).1) = length (rows w).
Proof.
  intros Hk Hw. unfold fire_due. destruct (fire_all io now (rows w) log0) as [F _].
  destruct (each_row _ _ _) as [l g]. cbn [fst rows with_rows] in *. unfold awake_rows in *. cbn [rows].
  induction F as [|r r' l1 l2 (es & s & ->) F IH]; [done|].
  apply list.Forall_cons in Hw as [((t0 & t & H0 & Ht & Ha) & Ho) Hw]. destruct (IH Hw) as (I1 & I2 & I3).
  destruct (fired_overdue k t0 t now io r es H0 Ht Hk Ha Ho) as (Ha' & Ho' & Hb).
  split; [|split; [by constructor|cbn; lia]]. constructor; [|done].
  split; [exists t0, now; split_and!; [lia|done|done]|done].
Qed.

Lemma next_due_after k now w d :
  k ≤ 0 → awake_rows k now w → Forall (λ r, now < beacon_due (announcer r)) (rows w) → next_due w = Some d → now < d.
Proof.
  intros Hk Hw Hb. unfold next_due.
  assert (Forall (λ r, now < Announce.next_due (announcer r)) (rows w)) as H.
  { apply list.Forall_forall. intros r Hr. rewrite list.Forall_forall in Hb. unfold awake_rows in Hw.
    rewrite list.Forall_forall in Hw. destruct (Hw r Hr) as ((t0 & t & _ & _ & [Hl Ha _ _ _ _]) & Ho).
    specialize (Hb r Hr). cbn in Hb. unfold Announce.next_due. destruct (burst_due (announcer r)) as [b|] eqn:E; [|done].
    apply Z.min_glb_lt; [|done]. apply Z.nle_gt. intros Hle. specialize (Ho b E Hle).
    assert (0 < burst_left (announcer r)) by (apply Ha; eauto). lia. }
  destruct (rows w) as [|r l]; [done|]. apply list.Forall_cons in H as [Hr Hl]. intros [= <-].
  revert Hr. generalize (Announce.next_due (announcer r)). clear -Hl.
  induction l as [|r l IH]; intros m Hm; [done|]. apply list.Forall_cons in Hl as [Hr Hl]. cbn [foldl].
  apply IH; [done|lia].
Qed.

(** C30. C: firing never spins. From any reached state, three wakes at one moment are enough: after them
    nothing is due at that moment any more, whatever the socket answers, whatever MACs are read and
    however long the loop had slept; and no row was lost on the way. *)
Theorem firing_never_spins t0 past frames t w io1 io2 io3 now
    (Hw : reached from_str v t0 past frames t w) (Hnow : t ≤ now) :
  let w3 := (fire_due io3 now (fire_due io2 now (fire_due io1 now w log0).1 log0).1 log0).1 in
  (∀ d, next_due w3 = Some d → now < d) ∧ length (rows w3) = length (rows w).
Proof using Type.
  destruct (reached_good from_str v t0 past frames t w Hw) as (_ & [G _] & _).
  assert (awake_rows (2 + 1) now w) as A.
  { apply list.Forall_forall. intros r Hr. rewrite list.Forall_forall in G.
    destruct (ro_ran _ _ _ _ _ (G r Hr)) as (t1 & t2 & H1 & H2 & [H3 Ha]%ran_ok). split.
    - exists t1, t2. split_and!; [done|lia|done].
    - intros b _ _. destruct Ha. unfold BURST_LEN in *. lia. }
  destruct (fire_due_awake 2 now io1 w ltac:(lia) A) as (A1 & _ & L1).
  destruct (fire_due_awake 1 now io2 _ ltac:(lia) A1) as (A2 & _ & L2).
  destruct (fire_due_awake 0 now io3 _ ltac:(lia) A2) as (A3 & B & L3).
  intros w3. split; [|subst w3; lia]. intros d. apply (next_due_after 0); [lia|exact A3|exact B].
Qed.
End spin.

(** ** Whose port it is *)

Lemma elem_of_ifindexes h uplinks ports l i :
  ifindexes h uplinks ports = Ok l →
  i ∈ l ↔ ∃ port, port ∈ ports ∧ (port ∉ uplinks) ∧ h_exists h (sysfs port "ifindex") = true
                  ∧ port_ifindex h port = Some i.
Proof.
  revert l. induction ports as [|p ports IH]; intros l; cbn [ifindexes].
  { intros [= <-]. split; [by intros ?%elem_of_nil|]. intros (port & ?%elem_of_nil & _). done. }
  case_bool_decide as Ep; [|destruct (h_exists h (sysfs p "ifindex")) eqn:Ex; cbn [negb]].
  - intros H. rewrite (IH l H). split; intros (port & Hp & Hu & Hr); exists port; (split; [|done]); [by right|].
    by apply elem_of_cons in Hp as [->|?].
  - destruct (port_ifindex h p) as [j|] eqn:Ej; [|done].
    destruct (ifindexes h uplinks ports) as [l'|] eqn:El; [|done]. intros [= <-].
    rewrite elem_of_cons, (IH l' eq_refl). split.
    + intros [->|(port & Hp & Hr)]; [exists p|exists port]; (split; [by constructor|done]).
    + intros (port & [->|Hp]%elem_of_cons & Hu & He & Hi); [left; congruence|right; by exists port].
  - intros H. rewrite (IH l H). split; intros (port & Hp & Hu & He & Hr); exists port; (split; [|done]); [by right|].
    apply elem_of_cons in Hp as [->|?]; [congruence|done].
Qed.

(** C: a burst answers a MAC of this host's own. At an add the announcers that take the event are
    exactly those of the rows whose bridge has that link index on a port that is not one of its
    uplinks, none when the entry is permanent or the ports of the bridge cannot be read; an overflow
    wakes every row. Nothing is sent at that moment, and of a row only its announcer and its
    standing lines can change. *)
Theorem burst_only_for_own_ports io sig now w :
  let w' := on_neigh io sig now w log0 in
  acts w'.2 = []
  ∧ Forall2 (λ r r', ∃ s, r' = with_standing (if woken io sig r then with_announcer r (on_event (announcer r) now)
                                              else r) s)
      (rows w) (rows w'.1)
  ∧ ∀ r, woken io sig r = true ↔
      sig = Overflow
      ∨ ∃ ev port, sig = Add ev ∧ ne_permanent ev = false
          ∧ is_ok (non_uplink_ifindexes (w_host (io [])) (w_up r)) = true
          ∧ port ∈ ports_of (w_host (io [])) (up_bridge (w_up r)) ∧ (port ∉ up_ports (w_up r))
          ∧ h_exists (w_host (io [])) (sysfs port "ifindex") = true
          ∧ port_ifindex (w_host (io [])) port = Some (ne_ifindex ev).
Proof.
  intros w'. destruct (on_neigh_rows io sig now w) as [F A]. split; [exact A|]. split; [exact F|].
  intros r. unfold woken, owns_port, non_uplink_ifindexes. destruct sig as [ev|]; [|split; [by left|done]].
  destruct (ifindexes _ _ _) as [l|e] eqn:E.
  - rewrite andb_true_iff, negb_true_iff, bool_decide_eq_true, elem_of_list_to_set.
    rewrite (elem_of_ifindexes _ _ _ _ _ E). split.
    + intros [Hp (port & H)]. right. exists ev, port. by split_and!; try apply H.
    + intros [?|(ev' & port & [= <-] & Hp & _ & H)]; [done|]. split; [done|]. by exists port.
  - rewrite andb_false_r. split; [done|]. intros [?|(ev' & port & _ & _ & ? & _)]; done.
Qed.

(** ** The watch *)

Lemma aligned_over len : NETLINK_HEADER_LEN ≤ len → NETLINK_HEADER_LEN ≤ Z.land (len + 3) (Z.lnot 3).
Proof.
  unfold NETLINK_HEADER_LEN. intros H. rewrite <-Z.ldiff_land. change 3 with (Z.ones 2) at 2.
  rewrite Z.ldiff_ones_r, Z.shiftl_mul_pow2, Z.shiftr_div_pow2 by lia. change (2 ^ 2) with 4.
  pose proof (Z.div_mod (len + 3) 4). pose proof (Z.mod_pos_bound (len + 3) 4). lia.
Qed.
(** A message moves past its own header, so the bytes of a datagram are turns enough. *)
Theorem decode_ends deserialize fuel buf :
  (length buf ≤ fuel)%nat → decode_from deserialize fuel buf = decode deserialize buf.
Proof.
  unfold decode. revert buf. assert (∀ n f buf, (length buf ≤ f)%nat → (length buf ≤ n)%nat →
    decode_from deserialize f buf = decode_from deserialize n buf) as H; [|intros buf Hl; by apply H].
  induction n as [|n IH]; intros [|f] [|b buf] Hf Hn; cbn [length] in *; try done; [lia..|].
  cbn [decode_from]. destruct (deserialize (b :: buf)) as [[len payload]|]; [|done].
  destruct (len <? NETLINK_HEADER_LEN) eqn:L; [done|]. split_bools. f_equal.
  apply aligned_over in L. unfold NETLINK_HEADER_LEN in L.
  apply IH; rewrite length_drop; cbn [length]; lia.
Qed.

(** What the watch says of the reads of one turn: every event that was pending, in order; or that
    something was missed; or, once and last, that no event will come any more. *)
Theorem watch_never_falls_silent deserialize turns turn :
  (turn = NotPollable ∨ turn = ReadinessLost
   ∨ ∃ reads why, turn = Readable reads ∧ drain deserialize reads [] = Dead why) →
  ∃ posted why, watch deserialize (turns ++ [turn]) = posted ++ [NeighWatchDied why].
Proof.
  intros Ht. induction turns as [|u turns IH]; cbn [app watch].
  - exists []. destruct Ht as [->|[->|(reads & why & -> & H)]]; cbn [watch]; [by eexists..|].
    rewrite H. by exists why.
  - destruct IH as (posted & why & E). destruct u as [| |reads]; [by exists [], "the socket cannot be polled"%string
      |by exists [], "readiness lost"%string|]. rewrite E.
    destruct (drain deserialize reads []) as [l| |why'].
    + exists (((λ ev, Neigh (Add ev)) <$> l) ++ posted), why. by rewrite app_assoc.
    + by exists (Neigh Overflow :: posted), why.
    + by exists [], why'.
Qed.

(** ** A member with one row *)

Module Sample.
Definition view : View := HostRoutes.Rack.view.
Local Open Scope string_scope.
(** The bridge's uplink is eth0; tap1, link index 10, belongs to a VM. [listed] is the file of
    deferred rows. *)
Definition read (listed p : string) : result Error string :=
  if String.eqb p (f_run_dir (v_fabric view) ++ "/workload-deferred") then Ok listed
  else if String.eqb p "/sys/class/net/tap1/ifindex" then Ok ("10" ++ String char_lf EmptyString)
  else Err (Fatal "no such file").
Definition world (listed : string) (m : result Error Mac) (sent : result Error unit) (ports : list string) : World :=
  {| w_host := {| h_run := Rack.answer "neigh";
                  h_read := read listed;
                  h_exists p := String.eqb p "/sys/class/net/eth0/device" || String.eqb p "/sys/class/net/tap1/ifindex";
                  h_is_writable _ := true;
                  h_list_dir p := if String.eqb p "/sys/class/net/eth2/brif/" then Ok ports else Ok [];
                  h_read_link _ := Err (Fatal "no such link") |};
     w_request _ _ := Ok "ok";
     w_mac _ := m;
     w_send _ _ := sent |}.
Definition mac1 : Mac := [2; 0; 0; 0; 0; 2].
Definition up (_ : list Effect) : World := world EmptyString (Ok mac1) (Ok tt) ["eth0"; "tap1"].
Definition waiting (_ : list Effect) : World := world "vms" (Ok mac1) (Ok tt) ["eth0"; "tap1"].
Definition unplugged (_ : list Effect) : World := world EmptyString (Ok mac1) (Ok tt) ["tap1"].
Definition dead (_ : list Effect) : World := world EmptyString (Err (Fatal "gone")) (Err (Fatal "gone")) ["eth0"; "tap1"].

Definition turn := step Rack.from_str view.
Definition add (ifindex : Z) (permanent : bool) : NeighSignal :=
  Add {| ne_ifindex := ifindex; ne_mac := mac1; ne_permanent := permanent |}.
Definition started : Workloads * Log := start view up (Ok tt) 0.
Definition leg : string := leg_ifname Derive.Sample.vms.
Definition frame : Effect := Sent leg (gratuitous mac1 (wl_gw Derive.Sample.vms)).

Example starts_and_announces :
  said started.2 = ["cfab: workload vms: announcer trigger neigh events"]
  ∧ next_due started.1 = Some 0 ∧ acts (turn up (OFire 0) started.1).2 = [frame].
Proof. by vm_compute. Qed.
Example deferred_said_once :
  let w := start view waiting (Ok tt) 0 in
  said w.2 = ["cfab: workload vms: deferred; announcer not started"] ∧ rows w.1 = []
  ∧ said (tick Rack.from_str view waiting (from_secs 3) w.1 log0).2 = [].
Proof. by vm_compute. Qed.
(** A row that cannot start for another reason says so on every tick. *)
Example unstartable_said_each_tick :
  let w := start view unplugged (Ok tt) 0 in
  let w1 := tick Rack.from_str view unplugged (from_secs 3) w.1 log0 in
  let w2 := tick Rack.from_str view unplugged (from_secs 6) w1.1 log0 in
  said w.2 ≠ [] ∧ said w1.2 = said w.2 ∧ said w2.2 = said w.2.
Proof. split_and!; by vm_compute. Qed.
Example bursts_for_a_tap_only :
  bursts <$> (announcer <$> rows (turn up (ONeigh (add 10 false) 1) started.1).1) = [1]
  ∧ bursts <$> (announcer <$> rows (turn up (ONeigh (add 10 true) 1) started.1).1) = [0]
  ∧ bursts <$> (announcer <$> rows (turn up (ONeigh (add 2 false) 1) started.1).1) = [0].
Proof. by vm_compute. Qed.
(** A MAC that cannot be read leaves the last one in use; a socket that fails is said once. *)
Definition fired1 : Workloads * Log := turn dead (OFire 0) started.1.
Example announced_with_the_last_mac :
  acts fired1.2 = [frame]
  ∧ said fired1.2 = ["cfab: workload vms: cannot read the MAC of " ++ leg ++ ": FATAL: gone; announcing the last known MAC";
                     "cfab: workload vms: announce on " ++ leg ++ " failed: FATAL: gone"]
  ∧ said (turn dead (OFire (from_secs 5)) fired1.1).2 = []
  ∧ said (turn up (OFire (from_secs 10)) fired1.1).2
    = ["cfab: workload vms: MAC read recovered"; "cfab: workload vms: announce recovered"].
Proof. by vm_compute. Qed.
Example watch_lost :
  rows_for_status (turn up (ODied "ENODEV") started.1).1
  = [{| wa_name := "vms"; wa_ifname := leg; wa_trigger := "fdb poll (neighbor watch died: ENODEV)";
        wa_announces := 0; wa_bursts := 0 |}].
Proof. by vm_compute. Qed.
Example polled_lines :
  polled ["eth0"] "02:cf:ab:00:00:01 dev tap1 master primary" = Some ("tap1", "02:cf:ab:00:00:01")
  ∧ polled ["eth0"] "02:cf:ab:00:00:01 dev eth0 master primary" = None
  ∧ polled ["eth0"] "02:cf:ab:00:00:01 dev tap1 master primary permanent" = None.
Proof. by vm_compute. Qed.

Lemma reached_started : reached Rack.from_str view 0 [Looked up] [] 0 started.1.
Proof. exact (reached_start Rack.from_str view 0 (Ok tt) up). Defined.
Lemma reached_fired : reached Rack.from_str view 0 ([Looked up] ++ [Acted up]) ([] ++ [frame]) 0 (turn up (OFire 0) started.1).1.
Proof.
  pose proof (reached_step Rack.from_str view 0 [Looked up] [] 0 started.1 (OFire 0) up reached_started ltac:(by vm_compute)) as H.
  replace (frames_of (OFire 0) _) with [frame] in H by by vm_compute. exact H.
Defined.
End Sample.

Lemma installed_rows_witness :
  Sent Sample.leg (gratuitous Sample.mac1 (wl_gw Derive.Sample.vms))
    ∈ acts (fire_due Sample.dead 0 Sample.started.1 log0).2
  ∧ ∃ wr m, wr ∈ workload_rows Sample.view ∧ Sample.leg = leg_ifname (wr_wl wr)
      ∧ gratuitous Sample.mac1 (wl_gw Derive.Sample.vms) = gratuitous m (wl_gw (wr_wl wr))
      ∧ (∃ io', Looked io' ∈ [Looked Sample.up]
           ∧ wl_name (wr_wl wr) ∉ deferred_names (w_host (io' [])) Sample.view)
      ∧ ∃ es, w_mac (Sample.dead es) Sample.leg = Ok m
          ∨ is_ok (w_mac (Sample.dead es) Sample.leg) = false
            ∧ ∃ p es', p ∈ [Looked Sample.up] ∧ w_mac (asked_of p es') Sample.leg = Ok m.
Proof.
  assert (Sent Sample.leg (gratuitous Sample.mac1 (wl_gw Derive.Sample.vms))
    ∈ acts (fire_due Sample.dead 0 Sample.started.1 log0).2) as H.
  { apply list_elem_of_In. vm_compute. tauto. }
  split; [exact H|].
  exact (announces_only_installed_rows Rack.from_str Sample.view 0 _ _ _ _ Sample.dead 0 _ _ Sample.reached_started H).
Defined.

Lemma frames_bounded_witness :
  Z.of_nat (length ([] ++ [Sample.frame]))
  ≤ (BURST_LEN + 1) * Z.of_nat (length (workload_rows Sample.view)) * ((0 - 0) / PERIOD + 1).
Proof.
  exact (frames_bounded Rack.from_str Sample.view 0 _ _ _ _ Sample.reached_fired).
Defined.

Lemma never_spins_witness :
  0 ≤ from_secs 60
  ∧ let w3 := (fire_due Sample.up (from_secs 60)
                (fire_due Sample.dead (from_secs 60)
                  (fire_due Sample.up (from_secs 60) (Sample.turn Sample.up (OFire 0) Sample.started.1).1 log0).1 log0).1 log0).1 in
    (∀ d, next_due w3 = Some d → from_secs 60 < d)
    ∧ length (rows w3) = length (rows (Sample.turn Sample.up (OFire 0) Sample.started.1).1).
Proof.
  assert (0 ≤ from_secs 60) as H by (vm_compute; done). split; [exact H|].
  exact (firing_never_spins Rack.from_str Sample.view 0 _ _ 0 _ Sample.up Sample.dead Sample.up (from_secs 60)
           Sample.reached_fired H).
Defined.
