(* ===== verification/Ticks.v ===== *)
(** The periodic arms of the supervisor's loop (src/src/supervisor/mod.rs): the watchdog's, the
    prober's, the metrics' and the announcers' ticks, and the state they share with the socket.

    [Supervisor] models the arms that change the children; here are the others, on a [Daemon] that
    holds what the loop owns and the half of [Shared] they write. Each arm is given what the outside
    answers during it and returns what it said and did. *)
From Stdlib Require Import Ascii String.
From S2P Require Import Prelude Text Sys Net Fabric Derive Child Supervisor StatusModel Legs EngineState Prober NeighTable Actor Relay HostRoutes Announcers Rules Watchdog Status Metrics.
Local Open Scope Z_scope.

(** ** What the socket and the endpoint read *)

(** The fields of [Shared] that [Supervisor.Shared] leaves out. *)
Record Board := {
  b_wd_result : string; b_wd_detail : option string; b_wd_last_tick : option Instant;
  b_probed : ProbeRows; b_held : HeldPrimaries;
  b_workloads : list WorkloadAnnounce;
  b_metrics_error : option string; b_collect_failures : Z; b_gather_failing : bool;
  b_relays : gmap string RelayReport;
  b_cap : CapSource;
  b_neighbor_rows : list NeighborRowInfo; b_neighbor : option NeighborActorInfo
}.
Definition board_new : Board := {|
  b_wd_result := "ok"; b_wd_detail := None; b_wd_last_tick := None;
  b_probed := {| rows_ingress := []; rows_fallback := [] |}; b_held := ∅;
  b_workloads := []; b_metrics_error := None; b_collect_failures := 0; b_gather_failing := false;
  b_relays := ∅; b_cap := {| gc_thresh3 := GC_THRESH3_DEFAULT; NeighTable.rows := 1 |};
  b_neighbor_rows := []; b_neighbor := None
|}.

Definition set_watchdog (b : Board) (result : string) (detail : option string) (now : Instant) : Board := {|
  b_wd_result := result; b_wd_detail := detail; b_wd_last_tick := Some now;
  b_probed := b_probed b; b_held := b_held b; b_workloads := b_workloads b;
  b_metrics_error := b_metrics_error b; b_collect_failures := b_collect_failures b;
  b_gather_failing := b_gather_failing b; b_relays := b_relays b; b_cap := b_cap b;
  b_neighbor_rows := b_neighbor_rows b; b_neighbor := b_neighbor b
|}.
Definition set_probed (b : Board) (probed : ProbeRows) (held : HeldPrimaries) : Board := {|
  b_wd_result := b_wd_result b; b_wd_detail := b_wd_detail b; b_wd_last_tick := b_wd_last_tick b;
  b_probed := probed; b_held := held; b_workloads := b_workloads b;
  b_metrics_error := b_metrics_error b; b_collect_failures := b_collect_failures b;
  b_gather_failing := b_gather_failing b; b_relays := b_relays b; b_cap := b_cap b;
  b_neighbor_rows := b_neighbor_rows b; b_neighbor := b_neighbor b
|}.
Definition set_workloads (b : Board) (l : list WorkloadAnnounce) : Board := {|
  b_wd_result := b_wd_result b; b_wd_detail := b_wd_detail b; b_wd_last_tick := b_wd_last_tick b;
  b_probed := b_probed b; b_held := b_held b; b_workloads := l;
  b_metrics_error := b_metrics_error b; b_collect_failures := b_collect_failures b;
  b_gather_failing := b_gather_failing b; b_relays := b_relays b; b_cap := b_cap b;
  b_neighbor_rows := b_neighbor_rows b; b_neighbor := b_neighbor b
|}.
Definition set_metrics (b : Board) (error : option string) (failures : Z) (failing : bool) : Board := {|
  b_wd_result := b_wd_result b; b_wd_detail := b_wd_detail b; b_wd_last_tick := b_wd_last_tick b;
  b_probed := b_probed b; b_held := b_held b; b_workloads := b_workloads b;
  b_metrics_error := error; b_collect_failures := failures;
  b_gather_failing := failing; b_relays := b_relays b; b_cap := b_cap b;
  b_neighbor_rows := b_neighbor_rows b; b_neighbor := b_neighbor b
|}.
(** What other tasks write through the mutex: the relays' reports, the cap and the flush actor's rows. *)
Definition set_neighbors (b : Board) (relays : gmap string RelayReport) (cap : CapSource)
    (rows : list NeighborRowInfo) (host : option NeighborActorInfo) : Board := {|
  b_wd_result := b_wd_result b; b_wd_detail := b_wd_detail b; b_wd_last_tick := b_wd_last_tick b;
  b_probed := b_probed b; b_held := b_held b; b_workloads := b_workloads b;
  b_metrics_error := b_metrics_error b; b_collect_failures := b_collect_failures b;
  b_gather_failing := b_gather_failing b; b_relays := relays; b_cap := cap;
  b_neighbor_rows := rows; b_neighbor := host
|}.
Definition set_neighbor_cap (b : Board) (cap : CapSource) : Board :=
  set_neighbors b (b_relays b) cap (b_neighbor_rows b) (b_neighbor b).
Definition publish_neighbor (b : Board) (rows : list NeighborRowInfo) (host : NeighborActorInfo) : Board :=
  set_neighbors b (b_relays b) (b_cap b) rows (Some host).

Definition relay_info (e : string * RelayReport) : RelayInfo :=
  {| ri_name := e.1; ri_server := rp_server e.2; ri_requests := requests e.2; ri_replies := replies e.2;
     ri_discovered := discovered e.2; ri_drops := drops e.2; ri_last_error := last_error e.2 |}.
Definition relay_infos (b : Board) : list RelayInfo := relay_info <$> btree_iter str_leb (b_relays b).

Definition as_secs (d : Duration) : Z := d / nanos_per_sec.
Definition component_of (now : Instant) (c : Child) : Component :=
  {| k_name := name_str (c_name c); k_state := c_state c; k_pid := c_pid c; k_uptime_s := Child.uptime_s c now;
     k_restarts := c_restarts c; k_last_exit := Child.last_exit c now; k_why := c_why_stopped c |}.
Definition children_of (s : Supervisor.Shared) : list Child :=
  [engine (sh_children s); shape_daemon (sh_children s); conf_sync (sh_children s)].
Definition components (s : Supervisor.Shared) (b : Board) (now : Instant) : Components := {|
  cs_supervisor := {| sv_pid := sh_pid s; sv_uptime_s := as_secs (saturating_since now (sh_started_at s));
                      sv_applying := sh_applying s; sv_applies := sh_applies s;
                      sv_last_apply_error := sh_last_apply_error s |};
  cs_components := component_of now <$> children_of s;
  cs_watchdog := {| wi_last_tick_s_ago := (λ t, as_secs (saturating_since now t)) <$> b_wd_last_tick b;
                    wi_result := b_wd_result b; wi_detail := b_wd_detail b |};
  cs_ingress := rows_ingress (b_probed b); cs_fallback := rows_fallback (b_probed b);
  cs_workloads := b_workloads b; cs_metrics_error := b_metrics_error b; cs_relays := relay_infos b;
  cs_neighbor_rows := b_neighbor_rows b; cs_neighbor := b_neighbor b
|}.
Definition log_tail_of (s : Supervisor.Shared) (name : string) (n : nat) : option (list string) :=
  (λ c, log_tail c n) <$> List.find (λ c, String.eqb (name_str (c_name c)) name) (children_of s).

(** ** The relays of a view *)

(** A row with a DHCP server: what its relay is built from, or the line said when it is not. *)
Definition relay_row_of (v : View) (wr : WorkloadRow) : option (result string RelayRow) :=
  let wl := wr_wl wr in
  server ← wl_dhcp_server wl;
  Some (match head (split "/"%char (wr_address wr)) ≫= parse_addr with
        | Some a => Ok {| rr_name := wl_name wl; rr_leg := leg_ifname wl; leg_addr := a; dhcp_server := server;
                          rr_prefix := wl_prefix wl;
                          Relay.fabric_addresses := HostRoutes.fabric_addresses v wl |}
        | None => Err ("cfab: workload " ++ wl_name wl ++ ": cannot parse this member's own address "
                         ++ wr_address wr ++ " as IPv4; dhcp relay not started")%string
        end).
Definition relay_rows (v : View) : list RelayRow :=
  omap ok_of (omap (relay_row_of v) (workload_rows v)).

(** [failing] is the loop's own [cap_read_failing]; the journal says a fault once per streak. *)
Definition publish_neighbor_cap (answer : result string string) (rows : Z) (b : Board) (failing : bool)
    : Board * bool * list (CapReadError * Z) :=
  let '(cap, why) := cap_read answer rows in
  (set_neighbor_cap b cap, is_some_and why (λ _, true),
   match why with
   | Some why => if failing then [] else [(why, gc_thresh3 cap)]
   | None => []
   end).

(** ** What a watchdog tick reports *)

Definition summarize_watchdog (r : WatchdogReport) : string * option string :=
  match wd_failed r with
  | Some f => ("failed-closed", Some f)
  | None =>
  match head (wd_downed r) with
  | Some d => ("actuated", Some d)
  | None =>
  match head (wd_rebuilt r) with
  | Some x => ("rebuilt", Some x)
  | None =>
  match head (wd_blocked r) with
  | Some x => ("blocked", Some x)
  | None =>
  match head (wd_unrestored r) with
  | Some u => ("error", Some u)
  | None => ("ok", None)
  end end end end end%string.

(** ** The loop's own state *)

Record Daemon := {
  d_shared : Supervisor.Shared; d_board : Board;
  d_prober : Prober; d_host_default : HostDefaultState; d_workloads : Workloads;
  d_cap_failing : bool;
  d_serving : string
}.
Definition with_board (d : Daemon) (b : Board) : Daemon := {|
  d_shared := d_shared d; d_board := b; d_prober := d_prober d; d_host_default := d_host_default d;
  d_workloads := d_workloads d; d_cap_failing := d_cap_failing d; d_serving := d_serving d |}.
Definition with_host_default (d : Daemon) (s : HostDefaultState) : Daemon := {|
  d_shared := d_shared d; d_board := d_board d; d_prober := d_prober d; d_host_default := s;
  d_workloads := d_workloads d; d_cap_failing := d_cap_failing d; d_serving := d_serving d |}.
Definition with_prober (d : Daemon) (p : Prober) : Daemon := {|
  d_shared := d_shared d; d_board := d_board d; d_prober := p; d_host_default := d_host_default d;
  d_workloads := d_workloads d; d_cap_failing := d_cap_failing d; d_serving := d_serving d |}.
Definition with_workloads (d : Daemon) (w : Workloads) : Daemon := {|
  d_shared := d_shared d; d_board := d_board d; d_prober := d_prober d; d_host_default := d_host_default d;
  d_workloads := w; d_cap_failing := d_cap_failing d; d_serving := d_serving d |}.
Definition with_cap_failing (d : Daemon) (f : bool) : Daemon := {|
  d_shared := d_shared d; d_board := d_board d; d_prober := d_prober d; d_host_default := d_host_default d;
  d_workloads := d_workloads d; d_cap_failing := f; d_serving := d_serving d |}.
Definition with_serving (d : Daemon) (text : string) : Daemon := {|
  d_shared := d_shared d; d_board := d_board d; d_prober := d_prober d; d_host_default := d_host_default d;
  d_workloads := d_workloads d; d_cap_failing := d_cap_failing d; d_serving := text |}.
Definition with_shared (d : Daemon) (s : Supervisor.Shared) : Daemon := {|
  d_shared := s; d_board := d_board d; d_prober := d_prober d; d_host_default := d_host_default d;
  d_workloads := d_workloads d; d_cap_failing := d_cap_failing d; d_serving := d_serving d |}.

(** What an arm says, and what it does: through [Sys], through the probe sockets, or in a workload
    operation. *)
Inductive Line := LText (s : string) | LProbe (l : ProbeLine) | LCap (why : CapReadError) (gc : Z).
Inductive Done := DSys (a : Sys.Action) | DProbe (e : Prober.Effect) | DWork (e : HostRoutes.Effect).
Record Out := { o_lines : list Line; o_done : list Done }.
Definition quiet : Out := {| o_lines := []; o_done := [] |}.

(** What [Announcers] answered, published. *)
Definition publish (d : Daemon) : Daemon :=
  with_board d (set_workloads (d_board d) (rows_for_status (d_workloads d))).
Definition worked (d : Daemon) (r : Workloads * Log) : Daemon * Out :=
  (publish (with_workloads d r.1),
   {| o_lines := LText <$> said r.2; o_done := DWork <$> Announcers.acts r.2 |}).

Definition metrics_failed (e : Error) : string :=
  "cfab: metrics: gather failed, serving the previous snapshot: " ++ display e.
Definition metrics_again : string := "cfab: metrics: gather succeeded again".

(** The clocks one refresh reads: now, the unix time after the gather, and how long it took. *)
Record Clocks := { ck_now : Instant; ck_unix : Duration; ck_took : Duration }.

Section arms.
Context (from_str : string → result string Value) (parse_chains : string → result string Value).
Context (parse_log : string → option (list string)).
Context (refused : Refusal → Error) (version : string) (text : list Family → string) (fuel : nat).
Context (v : View) (d : Rows).

Definition believed (b : Board) : bool := default_wanted (rows_ingress (b_probed b)) (rw_gw d).

Definition reconcile (m : Daemon) (wanted : bool) (io : Env_) (tr : list Sys.Action)
    : Daemon * list string * list Sys.Action :=
  match hs_reconcile fuel v (rw_gw d) (d_host_default m) wanted io tr with
  | (tr, Ok (s, lines)) => (with_host_default m s, lines, tr)
  | (tr, Err _) => (m, [], tr)
  end.

Definition prober_tick (pio : Leg → TickIo) (io : Env_) (now : Instant) (m : Daemon) : Daemon * Out :=
  let '(p, rows, es) := Prober.prober_tick pio now (d_prober m) in
  let '(p, log) := drain_log p in
  let m := with_prober m p in
  let wanted := default_wanted (rows_ingress rows) (rw_gw d) in
  let m := with_board m (set_probed (d_board m) rows (held_primaries p)) in
  let '(m, lines, tr) :=
    if hs_changed (d_host_default m) wanted then reconcile m wanted io [] else (m, [], []) in
  (m, {| o_lines := (LProbe <$> log) ++ (LText <$> lines); o_done := (DProbe <$> es) ++ (DSys <$> tr) |}).

Definition watchdog_tick (io : Env_) (now : Instant) (m : Daemon) : Daemon * Out :=
  let held := b_held (d_board m) in
  let probed := b_probed (d_board m) in
  let '(tr, r) := Watchdog.run refused (λ s, ok_of (from_str s)) parse_chains v d held io [] in
  let '(result, detail) := match r with
                           | Ok report => summarize_watchdog report
                           | Err e => ("error"%string, Some (display e))
                           end in
  let wanted := default_wanted (rows_ingress probed) (rw_gw d) in
  let '(m, lines, tr) := reconcile m wanted io tr in
  (with_board m (set_watchdog (d_board m) result detail now),
   {| o_lines := LText <$> lines; o_done := DSys <$> tr |}).

(** What a refresh gathers: the snapshot it would render, or why there is none. *)
Definition gathered (io : Env_) (c : Clocks) (m : Daemon) : list Sys.Action * result Error Snapshot :=
  let comps := components (d_shared m) (d_board m) (ck_now c) in
  let '(tr, r) := snapshot_model from_str parse_log refused version v d (Some comps) io [] in
  (tr, match r with
       | Ok model => Ok {| sn_model := model; sn_probed := b_probed (d_board m);
                           sn_collected_at_unix := ck_unix c; sn_collect_seconds := ck_took c;
                           sn_collect_failures := b_collect_failures (d_board m) |}
       | Err e => Err e
       end).
Definition refresh_snapshot (io : Env_) (c : Clocks) (m : Daemon) : Daemon * Out :=
  let '(tr, r) := gathered io c m in
  let b := d_board m in
  let failing := b_gather_failing b in
  match r with
  | Ok snap =>
      (with_board (with_serving m (render text snap)) (set_metrics b (b_metrics_error b) (b_collect_failures b) false),
       {| o_lines := if failing then [LText metrics_again] else []; o_done := DSys <$> tr |})
  | Err e =>
      (with_board m (set_metrics b (b_metrics_error b) (b_collect_failures b + 1) true),
       {| o_lines := if failing then [] else [LText (metrics_failed e)]; o_done := DSys <$> tr |})
  end.

(** The endpoint's bind at start, and its retry while it is failing. *)
Definition metrics_bind (port : Z) (bound : result string unit) (m : Daemon) : Daemon * Out :=
  match bound with
  | Ok _ => (m, quiet)
  | Err e =>
      (with_board m (set_metrics (d_board m) (Some e) (b_collect_failures (d_board m)) (b_gather_failing (d_board m))),
       {| o_lines := [LText ("cfab: metrics endpoint not listening on :" ++ show port ++ " (" ++ e ++ ")")%string];
          o_done := [] |})
  end.
Definition metrics_retry (port : Z) (bound : result string unit) (m : Daemon) : Daemon * Out :=
  match b_metrics_error (d_board m), bound with
  | Some _, Ok _ =>
      (with_board m (set_metrics (d_board m) None (b_collect_failures (d_board m)) (b_gather_failing (d_board m))),
       {| o_lines := [LText ("cfab: metrics endpoint listening on :" ++ show port)%string]; o_done := [] |})
  | _, _ => (m, quiet)
  end.

Definition workload_tick (io : list HostRoutes.Effect → World) (gc : result string string) (now : Instant)
    (m : Daemon) : Daemon * Out :=
  let '(m, o) := worked m (Announcers.tick (λ s, ok_of (from_str s)) v io now (d_workloads m) log0) in
  let rows := Z.of_nat (length (relay_rows v)) in
  if 0 <? rows then
    let '(b, failing, lines) := publish_neighbor_cap gc rows (d_board m) (d_cap_failing m) in
    (with_cap_failing (with_board m b) failing,
     {| o_lines := o_lines o ++ ((λ l, LCap l.1 l.2) <$> lines); o_done := o_done o |})
  else (m, o).

(** The arms, the tasks that write the board through the mutex, and what the arms of [Supervisor] do
    to its half. *)
Inductive Arm :=
| AWatchdog (io : Env_) (now : Instant)
| AProbe (pio : Leg → TickIo) (io : Env_) (now : Instant)
| ARefresh (io : Env_) (c : Clocks)
| AWorkload (io : list HostRoutes.Effect → World) (gc : result string string) (now : Instant)
| AAnnounce (io : list HostRoutes.Effect → World) (now : Instant)
| ANeigh (io : list HostRoutes.Effect → World) (sig : NeighSignal) (now : Instant)
| AWatchDied (why : string)
| ARetry (port : Z) (bound : result string unit)
| ARelayEvent (name : string) (server : Ipv4Addr) (ev : RelayEvent)
| ANeighbor (rows : list NeighborRowInfo) (host : NeighborActorInfo)
| AChildren (s : Supervisor.Shared).
Definition arm (a : Arm) (m : Daemon) : Daemon * Out :=
  match a with
  | AWatchdog io now => watchdog_tick io now m
  | AProbe pio io now => if bool_decide (legs (d_prober m) = []) then (m, quiet) else prober_tick pio io now m
  | ARefresh io c => refresh_snapshot io c m
  | AWorkload io gc now => if bool_decide (workload_rows v = []) then (m, quiet) else workload_tick io gc now m
  | AAnnounce io now =>
      match Announcers.next_due (d_workloads m) with
      | Some _ => worked m (fire_due io now (d_workloads m) log0)
      | None => (m, quiet)
      end
  | ANeigh io sig now => worked m (on_neigh io sig now (d_workloads m) log0)
  | AWatchDied why => worked m (watch_died why (d_workloads m) log0)
  | ARetry port bound => metrics_retry port bound m
  | ARelayEvent name server ev =>
      (with_board m (set_neighbors (d_board m) (relay_event (b_relays (d_board m)) name server ev)
                       (b_cap (d_board m)) (b_neighbor_rows (d_board m)) (b_neighbor (d_board m))), quiet)
  | ANeighbor rows host => (with_board m (publish_neighbor (d_board m) rows host), quiet)
  | AChildren s => (with_shared m s, quiet)
  end.
End arms.

(** The daemon as the loop is entered: nothing ticked, the announcers published. *)
Definition daemon_new (s : Supervisor.Shared) (p : Prober) (w : Workloads) : Daemon := publish {|
  d_shared := s; d_board := board_new; d_prober := p;
  d_host_default := {| hs_wanted := None; hs_standing := None |};
  d_workloads := w; d_cap_failing := false; d_serving := EmptyString |}.

(** ** Every relay of a view is built *)

Lemma relay_row_of_ok v wr :
  wr ∈ workload_rows v → Forall (λ mw, addr_ok (mw_address mw)) (m_workloads (v_member v)) →
  relay_row_of v wr =
    (λ server, Ok {| rr_name := wl_name (wr_wl wr); rr_leg := leg_ifname (wr_wl wr); leg_addr := wr_addr wr;
                     dhcp_server := server; rr_prefix := wl_prefix (wr_wl wr);
                     Relay.fabric_addresses := HostRoutes.fabric_addresses v (wr_wl wr) |})
      <$> wl_dhcp_server (wr_wl wr).
Proof.
  intros Hin Ha. unfold relay_row_of. destruct (wl_dhcp_server _) as [server|]; [|done].
  unfold workload_rows in Hin. apply list_elem_of_omap in Hin as (wl & _ & Hf).
  destruct (List.find _ _) as [mw|] eqn:E; [|done]. injection Hf as <-. cbn [wr_wl wr_address wr_addr].
  apply List.find_some in E as [Hmw _]. rewrite <-list_elem_of_In in Hmw.
  rewrite list.Forall_forall in Ha. specialize (Ha mw Hmw).
  unfold address_cidr. change (?a ++ ("/" ++ ?b))%string with (a ++ String "/"%char b)%string.
  rewrite split_join by (apply show_addr_free; done). cbn. by rewrite parse_addr_show.
Qed.

(** A declared server is never left without its relay: the address a row is built from parses back. *)
Theorem relays_built v :
  Forall (λ mw, addr_ok (mw_address mw)) (m_workloads (v_member v)) →
  (rr_name <$> relay_rows v)
  = omap (λ wr, (λ _, wl_name (wr_wl wr)) <$> wl_dhcp_server (wr_wl wr)) (workload_rows v).
Proof.
  intros Ha. unfold relay_rows.
  assert (∀ l : list WorkloadRow, (∀ wr, wr ∈ l → wr ∈ workload_rows v) →
    rr_name <$> omap ok_of (omap (relay_row_of v) l)
    = omap (λ wr, (λ _, wl_name (wr_wl wr)) <$> wl_dhcp_server (wr_wl wr)) l) as H; [|by apply H].
  induction l as [|wr l IH]; intros Hl; [done|]. cbn [omap list_omap].
  rewrite relay_row_of_ok by (done || (apply Hl; by left)).
  destruct (wl_dhcp_server (wr_wl wr)); cbn [fmap option_fmap option_map omap list_omap ok_of list_fmap];
    [f_equal|]; apply IH; intros; apply Hl; by right.
Qed.

(** ** Runs of the loop *)

Lemma in_turn_Ok steps io tr : ∃ r, (in_turn steps io tr).2 = Ok r.
Proof.
  revert tr. induction steps as [|s steps IH]; intros tr; [by eexists|]. cbn [in_turn].
  unfold Sys.bind, attempt. destruct (s io tr) as [tr1 [l|e]]; [|by eexists].
  destruct (IH tr1) as [r E]. destruct (in_turn steps io tr1) as [tr2 r']. cbn in E. subst r'. by eexists.
Qed.

(** A pass always ends with the fact it was given noted as the one asked for. *)
Lemma hs_reconcile_notes fuel v rows s wanted io tr :
  ∃ s' lines, (hs_reconcile fuel v rows s wanted io tr).2 = Ok (s', lines)
  ∧ hs_wanted s' = match Rules.host_default v rows with Some _ => Some wanted | None => hs_wanted s end.
Proof.
  unfold hs_reconcile. destruct (Rules.host_default v rows) as [h|]; [|by exists s, []].
  unfold Sys.bind, hd_pass. destruct (in_turn_Ok (pins_pass fuel :: (rule_pass <$> host_default_rules v rows [])
    ++ [default_pass h wanted]) io tr) as [[l r] E].
  destruct (in_turn _ io tr) as [tr' r']. cbn [snd] in E. subst r'. cbn [fst snd].
  destruct r as [u|e]; [by eexists _, _|]. cbn zeta. by destruct (opt_eqb _ _); eexists _, _.
Qed.

Section runs.
Context (from_str : string → result string Value) (parse_chains : string → result string Value).
Context (parse_log : string → option (list string)).
Context (refused : Refusal → Error) (version : string) (text : list Family → string) (fuel : nat).
Context (v : View) (d : Rows).
Abbreviation arm := (arm from_str parse_chains parse_log refused version text fuel v d).
Abbreviation gathered := (gathered from_str parse_log refused version v d).
Abbreviation refresh := (refresh_snapshot from_str parse_log refused version text v d).
Abbreviation believed := (believed d).

Definition after (l : list Arm) (m : Daemon) : Daemon := foldl (λ m a, (arm a m).1) m l.
(** What the refreshes of a run gathered, in order. *)
Fixpoint refreshes (l : list Arm) (m : Daemon) : list (result Error Snapshot) :=
  match l with
  | [] => []
  | a :: l => match a with ARefresh io c => [(gathered io c m).2] | _ => [] end ++ refreshes l (arm a m).1
  end.

Lemma default_reconcile_spec m wanted io tr :
  ∃ s lines, hs_wanted s = match Rules.host_default v (rw_gw d) with
                           | Some _ => Some wanted | None => hs_wanted (d_host_default m) end
  ∧ (reconcile fuel v d m wanted io tr).1 = (with_host_default m s, lines).
Proof.
  destruct (hs_reconcile_notes fuel v (rw_gw d) (d_host_default m) wanted io tr) as (s & lines & E & Hs).
  exists s, lines. split; [done|]. unfold reconcile.
  destruct (hs_reconcile _ _ _ _ _ _ _) as [tr' r]. cbn in E. by subst r.
Qed.

(** What a run serves and counts depends on its refreshes alone. *)
Definition metrics_of (m : Daemon) : string * Z * bool :=
  (d_serving m, b_collect_failures (d_board m), b_gather_failing (d_board m)).
Lemma arm_metrics a m :
  metrics_of (arm a m).1 =
  match a with
  | ARefresh io c =>
      match (gathered io c m).2 with
      | Ok snap => (render text snap, b_collect_failures (d_board m), false)
      | Err _ => (d_serving m, b_collect_failures (d_board m) + 1, true)
      end
  | _ => metrics_of m
  end.
Proof.
  destruct a as [io now|pio io now|io c|io gc now|io now|io sig now|why|port bound|name server ev|rows host|s];
    cbn [Ticks.arm]; try done.
  - unfold watchdog_tick. destruct (Watchdog.run _ _ _ _ _ _ _ _) as [tr r].
    destruct (match r with Ok _ => _ | Err _ => _ end) as [result detail].
    destruct (default_reconcile_spec m (default_wanted (rows_ingress (b_probed (d_board m))) (rw_gw d)) io tr) as (s & lines & _ & E).
    destruct (reconcile _ _ _ _ _ _ _) as [[m' l] tr']. cbn in E. by simplify_eq.
  - case_bool_decide; [done|]. unfold prober_tick. destruct (Prober.prober_tick _ _ _) as [[p rows] es].
    destruct (drain_log p) as [p' log]. cbn zeta. set (m1 := with_board _ _).
    destruct (hs_changed _ _); [|done].
    destruct (default_reconcile_spec m1 (default_wanted (rows_ingress rows) (rw_gw d)) io []) as (s & lines & _ & E).
    destruct (reconcile _ _ _ _ _ _ _) as [[m' l] tr']. cbn in E. by simplify_eq.
  - unfold refresh_snapshot. by destruct (gathered io c m) as [tr [snap|e]].
  - case_bool_decide; [done|]. unfold workload_tick. destruct (worked _ _) as [m1 o] eqn:E.
    unfold worked in E. simplify_eq. destruct (0 <? _); [|done].
    by destruct (publish_neighbor_cap _ _ _ _) as [[b f] lines] eqn:E;
      unfold publish_neighbor_cap in E; destruct (cap_read _ _); simplify_eq.
  - by destruct (Announcers.next_due _).
  - unfold metrics_retry. by destruct (b_metrics_error _), bound.
Qed.

Lemma metrics_runs l m :
  let past := refreshes l m in
  metrics_of (after l m)
  = (match list.last (omap ok_of past) with Some snap => render text snap | None => d_serving m end,
     b_collect_failures (d_board m) + Z.of_nat (length (List.filter (λ r, negb (is_ok r)) past)),
     match list.last past with Some r => negb (is_ok r) | None => b_gather_failing (d_board m) end).
Proof using Type.
  revert m. induction l as [|a l IH]; intros m; cbn zeta.
  { cbn. unfold metrics_of. by rewrite Z.add_0_r. }
  change (after (a :: l) m) with (after l (arm a m).1). rewrite IH. pose proof (arm_metrics a m) as A.
  cbn [refreshes]. revert A. generalize (arm a m).1 as m1. intros m1 A. unfold metrics_of in A.
  destruct a as [| |io c| | | | | | | |]; cbn [app]; try (injection A as -> -> ->; reflexivity).
  destruct (gathered io c m) as [tr r]. cbn [snd] in *. set (past := refreshes _ _) in *. clearbody past.
  destruct r as [snap|e]; injection A as -> -> ->; cbn [omap list_omap ok_of List.filter is_ok negb];
    (f_equal; [f_equal|]).
  - rewrite last_cons. by destruct (list.last _).
  - rewrite last_cons. by destruct (list.last _).
  - cbn [length]. lia.
  - rewrite last_cons. by destruct (list.last _).
Qed.

(** C31. C: a scrape is never worse than the last good gather. Through any run of the loop the endpoint
    serves the rendering of the last gather that succeeded, what failed since is counted and changes
    nothing else of it, and the journal is told when gathers begin to fail and when they succeed
    again, and not in between; a gather itself only reads. *)
Theorem metrics_serve_last_good l m :
  let past := refreshes l m in
  let m' := after l m in
  d_serving m' = match list.last (omap ok_of past) with Some snap => render text snap | None => d_serving m end
  ∧ b_collect_failures (d_board m')
    = b_collect_failures (d_board m) + Z.of_nat (length (List.filter (λ r, negb (is_ok r)) past))
  ∧ ∀ io c,
      (o_lines (refresh io c m').2 = [] ↔ b_gather_failing (d_board (refresh io c m').1) = b_gather_failing (d_board m'))
      ∧ (b_gather_failing (d_board (refresh io c m').1) = negb (is_ok (gathered io c m').2))
      ∧ Forall (λ e, ∃ a, e = DSys a ∧ reads_only v a) (o_done (refresh io c m').2).
Proof using Type.
  intros past m'. pose proof (metrics_runs l m) as H. cbn zeta in H. fold past m' in H.
  unfold metrics_of in H. injection H as H1 H2 _. split; [done|]. split; [done|]. clear H1 H2. intros io c.
  unfold refresh_snapshot.
  assert (∀ tr r, gathered io c m' = (tr, r) → Forall (reads_only v) tr) as Hr.
  { intros tr r E. unfold Ticks.gathered in E.
    assert (emits (reads_only v) (snapshot_model from_str parse_log refused version v d
              (Some (components (d_shared m') (d_board m') (ck_now c))))) as He.
    { unfold snapshot_model, lift_derived. emits_all. apply emits_gather_with. }
    destruct (He io []) as (new & En & Hn). destruct (snapshot_model _ _ _ _ _ _ _ _ _) as [tr' r'].
    cbn in En. simplify_eq. done. }
  destruct (gathered io c m') as [tr r]. specialize (Hr tr r eq_refl).
  assert (Forall (λ e, ∃ a, e = DSys a ∧ reads_only v a) (DSys <$> tr)) as Hd.
  { apply list.Forall_fmap. eapply list.Forall_impl; [exact Hr|]. intros a Ha. by exists a. }
  destruct r as [snap|e]; cbn [fst snd d_board with_board with_serving set_metrics b_gather_failing o_lines o_done is_ok negb];
    (split; [|by split]); by destruct (b_gather_failing (d_board m')).
Qed.

(** *** The host's additive default *)

(** What was last asked for the host default, where there is one, is what the rows published last say. *)
Definition tracked (m : Daemon) : Prop :=
  match Rules.host_default v (rw_gw d) with
  | Some _ => hs_wanted (d_host_default m) = None ∨ hs_wanted (d_host_default m) = Some (believed (d_board m))
  | None => True
  end.

Lemma watchdog_spec io now m :
  let m' := (watchdog_tick from_str parse_chains refused fuel v d io now m).1 in
  ∃ s, hs_wanted s = match Rules.host_default v (rw_gw d) with
                     | Some _ => Some (believed (d_board m)) | None => hs_wanted (d_host_default m) end
  ∧ d_host_default m' = s ∧ b_probed (d_board m') = b_probed (d_board m)
  ∧ b_workloads (d_board m') = b_workloads (d_board m) ∧ d_workloads m' = d_workloads m.
Proof using Type.
  unfold watchdog_tick. destruct (Watchdog.run _ _ _ _ _ _ _ _) as [tr r].
  destruct (match r with Ok _ => _ | Err _ => _ end) as [result detail]. fold (believed (d_board m)).
  destruct (default_reconcile_spec m (believed (d_board m)) io tr) as (s & lines & Hs & E).
  destruct (reconcile _ _ _ _ _ _ _) as [[m' l] tr']. cbn [fst] in E. simplify_eq. exists s. done.
Qed.

(** A tick of the prober asks for the host default exactly when what it publishes says otherwise than
    what was asked last. *)
Lemma prober_spec pio io now m :
  let r := prober_tick fuel v d pio io now m in
  let rows := (Prober.prober_tick pio now (d_prober m)).1.2 in
  let wanted := default_wanted (rows_ingress rows) (rw_gw d) in
  (b_probed (d_board r.1) = rows ∧ b_workloads (d_board r.1) = b_workloads (d_board m) ∧ d_workloads r.1 = d_workloads m)
  ∧ if hs_changed (d_host_default m) wanted
    then ∃ s, hs_wanted s = match Rules.host_default v (rw_gw d) with
                            | Some _ => Some wanted | None => hs_wanted (d_host_default m) end
         ∧ d_host_default r.1 = s
    else d_host_default r.1 = d_host_default m ∧ ∀ a, DSys a ∉ o_done r.2.
Proof using Type.
  unfold prober_tick. destruct (Prober.prober_tick pio now (d_prober m)) as [[p rows] es]. cbn [fst snd].
  destruct (drain_log p) as [p' log]. cbn zeta. set (wanted := default_wanted _ _). set (m1 := with_board _ _).
  change (d_host_default m1) with (d_host_default m). destruct (hs_changed _ _).
  - destruct (default_reconcile_spec m1 wanted io []) as (s & lines & Hs & E).
    destruct (reconcile _ _ _ _ _ _ _) as [[m' l] tr']. cbn [fst] in E. simplify_eq.
    split; [done|]. by exists s.
  - split; [done|]. split; [done|]. intros a Ha. cbn [snd o_done] in Ha. rewrite fmap_nil, app_nil_r in Ha.
    apply list_elem_of_fmap in Ha as (e & ? & _). done.
Qed.

Lemma arm_others a m :
  match a with AWatchdog _ _ | AProbe _ _ _ => True
  | _ => d_host_default (arm a m).1 = d_host_default m ∧ b_probed (d_board (arm a m).1) = b_probed (d_board m) end.
Proof using Type.
  destruct a as [io now|pio io now|io c|io gc now|io now|io sig now|why|port bound|name server ev|rows host|s];
    cbn [Ticks.arm]; try done.
  - unfold refresh_snapshot. by destruct (gathered io c m) as [tr [snap|e]].
  - case_bool_decide; [done|]. unfold workload_tick. destruct (worked _ _) as [m1 o] eqn:E.
    unfold worked in E. simplify_eq. destruct (0 <? _); [|done].
    by destruct (publish_neighbor_cap _ _ _ _) as [[b f] lines] eqn:E;
      unfold publish_neighbor_cap in E; destruct (cap_read _ _); simplify_eq.
  - by destruct (Announcers.next_due _).
  - unfold metrics_retry. by destruct (b_metrics_error _), bound.
Qed.

Lemma arm_tracked a m : tracked m → tracked (arm a m).1.
Proof using Type.
  unfold tracked. destruct (Rules.host_default v (rw_gw d)) as [h|] eqn:Eh; [|done]. intros Ht.
  pose proof (arm_others a m) as Ho. unfold believed.
  destruct a as [io now|pio io now| | | | | | | | |]; [| |destruct Ho as [-> ->]; exact Ht ..].
  - cbn [Ticks.arm]. destruct (watchdog_spec io now m) as (s & Hs & -> & -> & _). rewrite Eh in Hs. by right.
  - cbn [Ticks.arm]. case_bool_decide; [done|]. destruct (prober_spec pio io now m) as [(Hp & _) Hc].
    rewrite Hp. destruct (hs_changed _ _) eqn:Ec.
    + destruct Hc as (s & Hs & ->). rewrite Eh in Hs. by right.
    + destruct Hc as [-> _]. unfold hs_changed in Ec. apply negb_false_iff, bool_decide_eq_true in Ec. by right.
Qed.

(** C22. C: the host's additive default follows the prober. At every point of a run from the start, what was
    last asked for it is what the rows published last say of the gateway router, or nothing was asked
    yet; a tick of the prober that publishes another fact asks for it in that same tick, and one that
    does not touches the system not at all; and every tick of the watchdog asks for it again. *)
Theorem host_default_follows_prober s p w l h (Hh : Rules.host_default v (rw_gw d) = Some h) :
  let m := after l (daemon_new s p w) in
  (hs_wanted (d_host_default m) = None ∨ hs_wanted (d_host_default m) = Some (believed (d_board m)))
  ∧ (∀ pio io now,
      let r := prober_tick fuel v d pio io now m in
      hs_wanted (d_host_default r.1) = Some (believed (d_board r.1))
      ∧ (hs_wanted (d_host_default m) = Some (believed (d_board r.1)) → ∀ a, DSys a ∉ o_done r.2))
  ∧ ∀ io now,
      let m' := (watchdog_tick from_str parse_chains refused fuel v d io now m).1 in
      hs_wanted (d_host_default m') = Some (believed (d_board m')).
Proof using Type.
  intros m. split_and!.
  - assert (∀ m0, tracked m0 → tracked (after l m0)) as H.
    { induction l as [|a l IH]; intros m0 H0; [done|]. by apply IH, arm_tracked. }
    specialize (H (daemon_new s p w)). unfold tracked in H. rewrite Hh in H. apply H. by left.
  - intros pio io now r. destruct (prober_spec pio io now m) as [(Hp & _) Hc]. fold r in Hp, Hc.
    unfold believed in *. rewrite Hp. destruct (hs_changed _ _) eqn:Ec.
    + destruct Hc as (s' & Hs & ->). rewrite Hh in Hs. split; [done|]. intros Hw.
      unfold hs_changed in Ec. rewrite Hw in Ec. apply negb_true_iff in Ec.
      by apply bool_decide_eq_false in Ec.
    + destruct Hc as [-> Hn]. split; [|by intros _]. unfold hs_changed in Ec. 
      by apply negb_false_iff, bool_decide_eq_true in Ec.
  - intros io now. destruct (watchdog_spec io now m) as (s' & Hs & E & Hp & _). cbn zeta. rewrite Hh in Hs.
    unfold believed in *. by rewrite E, Hs, Hp.
Qed.

(** *** What the socket says of the announcers *)

Lemma arm_published a m :
  b_workloads (d_board m) = rows_for_status (d_workloads m) →
  b_workloads (d_board (arm a m).1) = rows_for_status (d_workloads (arm a m).1).
Proof using Type.
  intros H. destruct a as [io now|pio io now|io c|io gc now|io now|io sig now|why|port bound|name server ev|rows host|s];
    cbn [Ticks.arm]; try done.
  - destruct (watchdog_spec io now m) as (s & _ & _ & _ & -> & ->). done.
  - case_bool_decide; [done|]. destruct (prober_spec pio io now m) as [(_ & -> & ->) _]. done.
  - unfold refresh_snapshot. by destruct (gathered io c m) as [tr [snap|e]].
  - case_bool_decide; [done|]. unfold workload_tick. destruct (worked _ _) as [m1 o] eqn:E.
    unfold worked in E. simplify_eq. destruct (0 <? _); [|done].
    by destruct (publish_neighbor_cap _ _ _ _) as [[b f] lines] eqn:E;
      unfold publish_neighbor_cap in E; destruct (cap_read _ _); simplify_eq.
  - by destruct (Announcers.next_due _).
  - unfold metrics_retry. by destruct (b_metrics_error _), bound.
Qed.

(** The document always lists exactly the announcers that run, with what they counted, and the three
    children in their fixed order. *)
Theorem document_lists_what_runs s p w l now :
  let m := after l (daemon_new s p w) in
  let c := components (d_shared m) (d_board m) now in
  cs_workloads c = rows_for_status (d_workloads m)
  ∧ wa_name <$> cs_workloads c = w_name <$> Announcers.rows (d_workloads m)
  ∧ length (cs_components c) = 3%nat.
Proof using Type.
  intros m. assert (∀ m0, b_workloads (d_board m0) = rows_for_status (d_workloads m0) →
    b_workloads (d_board (after l m0)) = rows_for_status (d_workloads (after l m0))) as H.
  { induction l as [|a l IH]; intros m0 H0; [done|]. by apply IH, arm_published. }
  specialize (H (daemon_new s p w) eq_refl). fold m in H. cbn [components cs_workloads cs_components]. rewrite H.
  split_and!; [done| |done]. unfold rows_for_status. by rewrite <-list_fmap_compose.
Qed.
End runs.

(** ** A member with a gateway zone *)

Module Sample.
Definition view : View := Watchdog.Sample.view.
Definition rows : Rows := Watchdog.Sample.rows.
Definition env : Env_ := Watchdog.Sample.env ["eth0"%string] "policy drop;".
Definition from_str (_ : string) : result string Value := Err "no document"%string.
Definition no_log (_ : string) : option (list string) := None.
Definition text (l : list Family) : string := String.concat " " (fm_name <$> l).
Definition start : Daemon :=
  daemon_new (shared_new 1 0) (mk_prober [] []) Announcers.Sample.started.1.
Definition turn := arm from_str Watchdog.Sample.no_chains no_log Watchdog.Sample.refused "1.0" text 8 view rows.
Definition play := after from_str Watchdog.Sample.no_chains no_log Watchdog.Sample.refused "1.0" text 8 view rows.
Definition clocks : Clocks := {| ck_now := from_secs 4; ck_unix := from_secs 1000; ck_took := 5 |}.
Definition day : list Arm :=
  [AWatchdog env (from_secs 3); ARefresh env clocks;
   AAnnounce Announcers.Sample.up (from_secs 5); AWatchDied "ENODEV"].
Definition ended : Daemon := play day start.

Example watched_and_served :
  hs_wanted (d_host_default ended) = Some true
  ∧ wi_last_tick_s_ago (cs_watchdog (components (d_shared ended) (d_board ended) (from_secs 9))) = Some 6
  ∧ d_serving ended ≠ EmptyString.
Proof. split_and!; by vm_compute. Qed.
Example announcers_listed :
  (λ w, (wa_name w, wa_announces w)) <$> b_workloads (d_board ended) = [("vms"%string, 1)].
Proof. by vm_compute. Qed.
(** A rebuilt leg comes before a blocking chain, and after what is wrong right now. *)
Definition report (downed rebuilt blocked : list string) : WatchdogReport :=
  {| wd_failed := None; wd_corrected := []; wd_blocked := blocked; wd_resolved := None; wd_restored := [];
     wd_downed := downed; wd_transit_cost_error := None; wd_unrestored := []; wd_rebuilt := rebuilt |}.
Example ranked :
  summarize_watchdog (report ["d"] ["r"] ["b"]) = ("actuated", Some "d")
  ∧ summarize_watchdog (report [] ["r"] ["b"]) = ("rebuilt", Some "r")
  ∧ summarize_watchdog (report [] [] ["b"]) = ("blocked", Some "b")
  ∧ summarize_watchdog (report [] [] []) = ("ok", None).
Proof. done. Qed.
(** The metrics know no such result: the series of a tick that rebuilt exists only while it is the last. *)
Example rebuilt_is_no_word :
  (summarize_watchdog (report [] ["r"] [])).1 ∉ WATCHDOG_RESULTS.
Proof. apply (bool_decide_unpack _). by vm_compute. Qed.
End Sample.

Lemma host_default_witness :
  ∃ h, Rules.host_default Sample.view (rw_gw Sample.rows) = Some h
  ∧ (hs_wanted (d_host_default (Sample.play Sample.day Sample.start)) = None
     ∨ hs_wanted (d_host_default (Sample.play Sample.day Sample.start))
       = Some (believed Sample.rows (d_board (Sample.play Sample.day Sample.start)))).
Proof.
  destruct (Rules.host_default Sample.view (rw_gw Sample.rows)) as [h|] eqn:H; [|vm_compute in H; discriminate H].
  exists h. split; [done|].
  exact (proj1 (host_default_follows_prober Sample.from_str Watchdog.Sample.no_chains Sample.no_log
    Watchdog.Sample.refused "1.0" Sample.text 8 Sample.view Sample.rows (shared_new 1 0) (mk_prober [] [])
    Announcers.Sample.started.1 Sample.day h H)).
Defined.
